(* ===== verification/_CoqProject ===== *)
-Q . S2P
Prelude.v
Bits.v
AddrRange.v
AddrIntlv.v
AddrRangeMap.v
EventQueue.v
EventOps.v
EventService.v
EventCheck.v
EventExamples.v
Tables.v
SatCounter.v
BranchDir.v
BranchLaws.v
Ras.v
Indirect.v
BPredUnit.v
BPredLaws.v
Replacement.v
ReplLaws.v
TreePLRU.v
Indexing.v
AssocCache.v
SimpleBTB.v
BPredExamples.v
Rename.v
RenameLaws.v
RenameRecovery.v
RenameCount.v
RenameCorrect.v
Packet.v
SnoopFilter.v
SnoopLaws.v
Compressor.v
CompressorKinds.v
CompressorLaws.v
CompressorCorrect.v
CompressorSizes.v
CompressorTheorems.v
CacheQueue.v
Mshr.v
MshrOps.v
MshrLists.v
MshrMarks.v
MshrInv.v
MshrSteps.v
MshrService.v
MshrResp.v
MshrQueues.v
MshrAlloc.v
MshrWorld.v
MshrTheorems.v
MshrExamples.v
WriteQueue.v
CacheCtl.v
CacheLaws.v
CacheWorld.v
CacheTheorems.v
CacheExamples.v
