(* ===== verification/Prelude.v ===== *)
(** * gem5: verified components

    A verification development for the simulator gem5 (src/gem5/src). gem5 is a
    discrete-event simulator: an event queue drives models of processors, caches
    and memories, which exchange packets. The development models the parts of it
    that are algorithms on data of their own, translated from the source function
    by function, and proves what the rest of the simulator relies on in them.

    ** Conventions

    A routine of the source is a function with the state it changes as an
    argument and a result. A routine that can stop the simulator returns a
    [result]: [Err] with the way it stops ([assert], [panic], [fatal], an
    exception, undefined behaviour) or [Ok] with the value and the new state.
    Machine integers are integers in [Z], with the wrap-around of their type
    written out ([uw], [sw]); a shift by the width or more is undefined.
    [std::vector] is a list read with [vget] (unchecked access outside of it is
    undefined); pointers are keys of a heap or indices of a vector where sharing
    matters. A virtual class is a record or a type class of operations, its
    contract a class of laws: the clients' theorems are proved against the laws
    and each implementation is an instance. Code that is not part of the program
    or has no definition of its own in it ([process()] of an event, random
    numbers, the clock) is an argument of the definitions that use it.
    Two reads that C++ leaves undefined are arguments as well, so that the theorems
    say what depends on them: whether list iterators wrap at the ends ([wraps] in
    Rename, true for libstdc++) and what lies behind the end of a dictionary ([oob]
    in Compressor); [false] and [fun _ => Err Undefined] are the C++ standard.
    Statistics, debug output and probe points are left out everywhere.

    ** Parts and files

    - This file: results, machine words, vectors, shared lemmas and tactics.
    - Bits: base/bitfield.{hh,cc} (module [Bitfield]) and base/intmath.hh
      ([IntMath]). Bit fields round trip; portable and wide multiplication agree.
    - AddrRange, AddrIntlv: base/addr_range.hh. Set operations on interleaved
      address ranges are exact; removing and adding interleaving bits are inverse.
    - AddrRangeMap: base/addr_range_map.hh. The range map with its iterator cache
      finds exactly the range that contains an address.
    - EventQueue, EventOps, EventService, EventCheck, EventExamples:
      sim/eventq.{hh,cc}. The list of lists of events, on a heap of event objects,
      refines a list of bins ordered by time and priority; every reachable queue is
      well formed, events are served in order, and service up to a tick ends.
    - SatCounter, Tables, BranchDir, BranchLaws: base/sat_counter.hh and the
      predictors cpu/pred/2bit_local, bi_mode and tournament behind one interface
      ([DirPredictor], laws [DirLaws]).
    - Ras, Indirect, SimpleBTB: cpu/pred/ras, simple_indirect and simple_btb.
    - BPredUnit, BPredLaws, BPredExamples: cpu/pred/bpred_unit.{hh,cc} over those
      interfaces. Any speculation is undone by a squash; commits and squashes
      remove exactly the branches they should; no operation fails.
    - Replacement, ReplLaws, TreePLRU: mem/cache/replacement_policies. Every policy
      picks a candidate ([ReplLaws]); LRU refines a recency list.
    - Indexing: mem/cache/tags/indexing_policies. The address of an entry is
      recovered from its tag and set.
    - AssocCache: base/cache/associative_cache.hh over both interfaces.
    - Rename, RenameLaws, RenameRecovery, RenameCount, RenameCorrect: the register
      renaming of cpu/o3 (rename, rename_map, free_list, scoreboard, regfile).
      Physical registers are conserved in every reachable state, a squash restores
      the maps, an emptied stage can rename again, and what [canRename] accepts is
      renamed unless a pinned register is asked to be pinned again.
    - Packet: mem/packet.{hh,cc} and the flags of mem/request.hh.
    - SnoopFilter, SnoopLaws: mem/snoop_filter.{hh,cc}. Lookups name exactly the
      tracked ports, and a cache is tracked for as long as it may hold the line.
    - Compressor, CompressorKinds, CompressorLaws, CompressorCorrect,
      CompressorSizes, CompressorTheorems: mem/cache/compressors. Compression never
      fails and is never decompressed to another line; decompression fails at most at
      the read behind the dictionary, which it does for dictionaries of at most 255
      entries; the sizes say exactly which lines have the special forms.
    - CacheQueue: mem/cache/queue.hh and queue_entry.hh, the queue of both buffers
      of a cache over the interface of its entries ([QueueEntry]).
    - Mshr, MshrOps: mem/cache/mshr.{hh,cc}, mshr_queue.{hh,cc} and the handling of
      responses in base.cc and cache.cc (module [BaseCache], with every assertion on
      the way; the tags and the data of the block are the record [blocks]). The
      registers and packets of all caches are on one store, since clearing pending
      marks goes through the caches above.
    - MshrLists, MshrMarks, MshrInv, MshrSteps, MshrService, MshrResp, MshrQueues,
      MshrAlloc: the flags of target lists are sound; marks are set once and can
      always be cleared; every operation keeps the invariant.
    - MshrWorld, MshrTheorems, MshrExamples: several caches in any order, each packet
      at the register that [findMatch] finds for its block. Queues stay consistent,
      registers hold packets of their own block, requests are served in order
      (locked reads and invalidating read responses apart), sends do not fail, a
      response serves or keeps every request or is refused by a named assertion, a
      line that is not fetched is written completely; two runs show defects
      ([promoteWritable], [delay]).
    - WriteQueue: mem/cache/write_queue.{hh,cc} and write_queue_entry.{hh,cc}.
    - CacheCtl: the miss path of mem/cache/base.{hh,cc} and cache.cc: the port to the
      processor ([CacheResponsePort]), the write allocator ([WriteAllocator]) and the
      controller ([Cache]) from a miss or a locked hit to the packet that is sent and
      the response that comes back. Tags, data, prefetchers and the cache below are
      arguments (the block that was found, what the fill makes of it, what the memory
      side does with a packet).
    - CacheLaws, CacheWorld: every operation keeps the blocking exact and is a
      sequence of the register steps of MshrWorld.
    - CacheTheorems, CacheExamples: a cache refines its registers; its port is blocked
      exactly while a buffer is full or a register is recorded as having reached its
      limit, and every refused requester is called again; which entry is sent next,
      which misses get a register, which packet is made and offered, with what
      rights, and exactly which assertions can fail on the way.

    ** Fuel

    Loops of the source that are not structural run on fuel and answer
    [Err OutOfFuel] when it ends. The loops over events take the fuel as an
    argument and the theorems say how much is enough (a bin walk never needs more
    than the number of events on the heap); the other loops take a bound computed
    from their input (the size of a table, the width of a word), and the theorems
    that they succeed show that it is enough. Clearing the pending marks of the
    registers is bounded by their number.

    ** Not modelled

    The instruction sets and the cache coherence protocols of Ruby are generated
    at build time from their own languages; the processor models, devices and the
    GPU are written against them. Ports, crossbars and memory controllers are
    event-driven clients of the modelled parts. Of the cache controllers what fills and
    snoops do to the tags and the data of the blocks, and the atomic and functional
    accesses, which work on them, are not modelled. The Python front end, the
    bindings, the simulation main loop with its host threads, and loaders and
    sockets are input and output. SimPoint clusters vectors of floating-point
    numbers. The manifest lists each of them. *)

From stdpp Require Export base tactics option list sorting gmap.
From Stdlib Require Export ZArith Lia.
From Stdlib Require Import Btauto.

#[global] Open Scope Z_scope.

(** ** Results: the ways a gem5 routine stops early

    [assert], [panic]/[panic_if] and [fatal]/[fatal_if] all end the run of the
    simulator, as does an exception that nothing catches ([Throw], from
    [std::vector::at]); behaviour the C++ standard leaves undefined (an over-long
    shift, a dereferenced null pointer) is kept apart from them, and so is a loop
    that has not ended within the fuel of its model. *)
Inductive error := AssertFail | Panic | Fatal | Throw | Undefined | OutOfFuel.

Inductive result (A : Type) :=
| Ok (a : A)
| Err (e : error).
Arguments Ok {A} _.
Arguments Err {A} _.

Definition rbind {A B} (m : result A) (f : A -> result B) : result B :=
  match m with Ok a => f a | Err e => Err e end.

#[global] Instance error_eq_dec : EqDecision error.
Proof. solve_decision. Defined.
#[global] Instance result_eq_dec `{EqDecision A} : EqDecision (result A).
Proof. solve_decision. Defined.

(** [assert(b)], and the same test with another way of stopping. *)
Definition check (e : error) (b : bool) : result unit :=
  if b then Ok tt else Err e.
Abbreviation assertb := (check AssertFail).

Declare Scope gem5_scope.
Delimit Scope gem5_scope with gem5.
#[global] Open Scope gem5_scope.

Notation "'let!' x := m 'in' k" := (rbind m (fun x => k))
  (at level 10, x binder, m at level 100, k at level 200,
   format "'[v' 'let!'  x  :=  m  'in' '/' k ']'") : gem5_scope.
Notation "'guard!' b ; k" := (rbind (check AssertFail b) (fun _ => k))
  (at level 10, b at level 100, k at level 200,
   format "'[v' 'guard!'  b ; '/' k ']'") : gem5_scope.

Lemma bind_Ok {A B} (f : A -> result B) a : rbind (Ok a) f = f a.
Proof. reflexivity. Qed.

Lemma bind_Ok_inv {A B} (f : A -> result B) m b :
  rbind m f = Ok b -> exists a, m = Ok a /\ f a = Ok b.
Proof. destruct m; [eauto | discriminate]. Qed.

Lemma check_Ok e b : check e b = Ok tt <-> b = true.
Proof. destruct b; split; simpl; congruence. Qed.

Lemma check_true e : check e true = Ok tt.
Proof. reflexivity. Qed.

(** Sequencing a fallible function over a list, left to right. *)
Fixpoint mapM_r {A B} (f : A -> result B) (l : list A) : result (list B) :=
  match l with
  | [] => Ok []
  | x :: l => let! y := f x in let! ys := mapM_r f l in Ok (y :: ys)
  end.

Fixpoint foldM_r {A S} (f : S -> A -> result S) (s : S) (l : list A) : result S :=
  match l with
  | [] => Ok s
  | x :: l => let! s' := f s x in foldM_r f s' l
  end.

(** Decompose successful monadic hypotheses. *)
Ltac ok_inv :=
  repeat match goal with
  | H : rbind _ _ = Ok _ |- _ =>
      let x := fresh "r" in let E := fresh "E" in
      apply bind_Ok_inv in H; destruct H as (x & E & H)
  | H : check _ _ = Ok ?u |- _ =>
      destruct u; apply check_Ok in H
  | H : Ok _ = Ok _ |- _ => injection H as H
  | H : Err _ = Ok _ |- _ => discriminate H
  end.

Lemma mapM_r_Ok {A B} (f : A -> result B) (g : A -> B) l :
  (forall x, x ∈ l -> f x = Ok (g x)) -> mapM_r f l = Ok (map g l).
Proof.
  induction l as [|x l IH]; intros H; [done|]. simpl.
  rewrite (H x) by (by constructor). rewrite bind_Ok, IH; [done|].
  intros y Hy. apply H. by constructor.
Qed.

(** ** Machine integers

    An unsigned w-bit object is the integer it denotes, kept in [0, 2^w);
    arithmetic that can leave the range is wrapped by [uw]. *)
Definition uw (w x : Z) : Z := x mod 2 ^ w.
Abbreviation u8 := (uw 8).
Abbreviation u16 := (uw 16).
Abbreviation u32 := (uw 32).
Abbreviation u64 := (uw 64).

(** Conversion to a signed w-bit object (two's complement). *)
Definition sw (w x : Z) : Z := (x + 2 ^ (w - 1)) mod 2 ^ w - 2 ^ (w - 1).
Abbreviation s32 := (sw 32).
Abbreviation s64 := (sw 64).

Definition in_uw (w x : Z) : Prop := 0 <= x < 2 ^ w.
Definition in_sw (w x : Z) : Prop := - 2 ^ (w - 1) <= x < 2 ^ (w - 1).

(** C++ shifts: a count that is not smaller than the width is undefined. *)
Definition shl (w x n : Z) : result Z :=
  if (0 <=? n) && (n <? w) then Ok (uw w (Z.shiftl x n)) else Err Undefined.
Definition shr (w x n : Z) : result Z :=
  if (0 <=? n) && (n <? w) then Ok (Z.shiftr x n) else Err Undefined.

(** Bitwise complement of a w-bit unsigned object. *)
Definition unot (w x : Z) : Z := uw w (Z.lnot x).

Create HintDb gem5 discriminated.

Lemma shl_Ok w x n : 0 <= n < w -> shl w x n = Ok (uw w (Z.shiftl x n)).
Proof. intros Hn. unfold shl. destruct (Z.leb_spec 0 n), (Z.ltb_spec n w); try lia. done. Qed.

Lemma pow2_pos n : 0 <= n -> 0 < 2 ^ n.
Proof. intros. apply Z.pow_pos_nonneg; lia. Qed.
#[export] Hint Resolve pow2_pos : gem5.

Lemma uw_range w x : 0 <= w -> in_uw w (uw w x).
Proof. intros. apply Z.mod_pos_bound, pow2_pos; lia. Qed.
#[export] Hint Resolve uw_range : gem5.

Lemma uw_small w x : in_uw w x -> uw w x = x.
Proof. apply Z.mod_small. Qed.

Lemma uw_idemp w x : 0 <= w -> uw w (uw w x) = uw w x.
Proof. intros. apply uw_small, uw_range; lia. Qed.

Lemma sw_small w x : in_sw w x -> 0 < w -> sw w x = x.
Proof.
  unfold in_sw, sw. intros Hx Hw. rewrite Z.mod_small; [lia|].
  assert (2 ^ w = 2 * 2 ^ (w - 1)) as ->; [|lia].
  rewrite <- Z.pow_succ_r by lia. f_equal. lia.
Qed.

(** Two's complement only depends on the residue. *)
Lemma sw_cong w x y : 0 < w -> uw w x = uw w y -> sw w x = sw w y.
Proof.
  unfold sw, uw. intros Hw E. rewrite <- (Zplus_mod_idemp_l x), E, Zplus_mod_idemp_l. done.
Qed.

Lemma uw_add_mul w x k : 0 <= w -> uw w (x + k * 2 ^ w) = uw w x.
Proof. intros. apply Z_mod_plus_full. Qed.

Lemma in_uw_mono w w' x : 0 <= w <= w' -> in_uw w x -> in_uw w' x.
Proof. unfold in_uw. intros. pose proof (Z.pow_le_mono_r 2 w w'). lia. Qed.

(** ** Bitwise reasoning

    [zbits] proves an equation between bit-level terms by comparing every
    bit: testbit is pushed inwards by the [zbits] rewrite database and the
    comparisons of bit positions that remain are split. *)
Lemma testbit_uw w x i : 0 <= w -> Z.testbit (uw w x) i = (i <? w) && Z.testbit x i.
Proof. apply Z.testbit_mod_pow2. Qed.

Lemma testbit_unot w x i : 0 <= w -> 0 <= i ->
  Z.testbit (unot w x) i = (i <? w) && negb (Z.testbit x i).
Proof. intros. unfold unot. rewrite testbit_uw, Z.lnot_spec by lia. reflexivity. Qed.

Lemma testbit_pow2_pred n i : 0 <= n ->
  Z.testbit (2 ^ n - 1) i = (0 <=? i) && (i <? n).
Proof. intros. rewrite <- Z.testbit_ones, Z.ones_equiv, <- Z.sub_1_r; auto. Qed.

Lemma testbit_high w x i : in_uw w x -> 0 <= w <= i -> Z.testbit x i = false.
Proof.
  intros Hx Hi. rewrite <- (uw_small w x) by assumption.
  rewrite testbit_uw by lia. destruct (Z.ltb_spec i w); [lia | reflexivity].
Qed.

Lemma testbit_neg x i : i < 0 -> Z.testbit x i = false.
Proof. apply Z.testbit_neg_r. Qed.

Lemma testbit_b2z b i : Z.testbit (Z.b2z b) i = (i =? 0) && b.
Proof.
  destruct (Z.eqb_spec i 0) as [->|]; [by destruct b|].
  destruct b; simpl; [|apply Z.testbit_0_l].
  change 1 with (2 ^ 0). rewrite Z.pow2_bits_false; auto.
Qed.

Lemma in_uw_bits w x : 0 <= w -> 0 <= x ->
  (forall i, w <= i -> Z.testbit x i = false) -> in_uw w x.
Proof. intros. apply Z.bounded_iff_bits_nonneg'; auto. Qed.

Create Rewrite HintDb zbits.
#[export] Hint Rewrite Z.land_spec Z.lor_spec Z.lxor_spec Z.testbit_0_l testbit_b2z
  : zbits.
#[export] Hint Rewrite Z.shiftl_spec Z.shiftr_spec Z.lnot_spec testbit_uw testbit_unot
  testbit_pow2_pred Z.testbit_ones Z.pow2_bits_eqb using lia : zbits.

Ltac zbits_cases :=
  repeat match goal with
  | |- context [?a <? ?b] => destruct (Z.ltb_spec a b); try lia
  | |- context [?a <=? ?b] => destruct (Z.leb_spec a b); try lia
  | |- context [?a =? ?b] => destruct (Z.eqb_spec a b); try lia
  end.

Ltac zbits_high :=
  repeat match goal with
  | H : in_uw ?w ?x |- context [Z.testbit ?x ?i] =>
      rewrite (testbit_high w x i H) by lia
  | |- context [Z.testbit ?x ?i] => rewrite (testbit_neg x i) by lia
  end.

Ltac zbits_finish :=
  simpl; zbits_high; rewrite ?andb_false_r, ?andb_true_r, ?orb_false_r, ?orb_true_r;
  simpl; try reflexivity; try (f_equal; lia); try btauto;
  try (repeat f_equal; lia).

(** A shift read at a position of unknown sign is split on that sign. *)
Ltac zbits_shifts :=
  repeat match goal with
  | |- context [Z.testbit (?op ?x ?k) ?j] =>
      lazymatch op with Z.shiftr => idtac | Z.shiftl => idtac end;
      destruct (Z.lt_ge_cases j 0);
      [rewrite (testbit_neg (op x k) j) by lia | autorewrite with zbits]
  end.

Ltac zbits :=
  apply Z.bits_inj'; let i := fresh "i" in let Hi := fresh "Hi" in intros i Hi;
  autorewrite with zbits; zbits_shifts; zbits_cases; zbits_finish.

Lemma land_ones_uw x n : 0 <= n -> Z.land x (2 ^ n - 1) = uw n x.
Proof. intros. zbits. Qed.

Lemma uw_lor w x y : 0 <= w -> in_uw w x -> in_uw w y -> in_uw w (Z.lor x y).
Proof.
  intros Hw Hx Hy. apply in_uw_bits; [lia|apply Z.lor_nonneg; unfold in_uw in *; lia|].
  intros i Hi. rewrite Z.lor_spec. zbits_high. reflexivity.
Qed.

Lemma uw_land_r w x y : 0 <= w -> in_uw w y -> in_uw w (Z.land x y).
Proof.
  intros Hw Hy. apply in_uw_bits; [lia|apply Z.land_nonneg; unfold in_uw in *; lia|].
  intros i Hi. rewrite Z.land_spec. zbits_high. apply andb_false_r.
Qed.

Lemma uw_land_l w x y : 0 <= w -> in_uw w x -> in_uw w (Z.land x y).
Proof. intros. rewrite Z.land_comm. by apply uw_land_r. Qed.

Lemma in_uw_shiftr w x n : 0 <= n -> in_uw w x -> in_uw w (Z.shiftr x n).
Proof.
  unfold in_uw. intros Hn [H0 H1]. rewrite Z.shiftr_div_pow2 by lia.
  pose proof (pow2_pos n Hn). split; [apply Z.div_pos; lia|].
  apply Z.div_lt_upper_bound; nia.
Qed.
#[export] Hint Resolve uw_lor uw_land_r uw_land_l in_uw_shiftr : gem5.

(** Evaluate the closed [uw] terms of the goal. *)
Ltac uw_compute :=
  repeat match goal with
  | |- context [uw ?w ?x] =>
      let r := eval vm_compute in (uw w x) in
      lazymatch r with
      | Z0 => idtac | Zpos _ => idtac | Zneg _ => idtac
      end;
      change (uw w x) with r
  end; simpl.

(** Evaluate the closed comparisons of the goal. *)
Ltac leb_compute :=
  repeat match goal with
  | |- context [?a <=? ?b] =>
      let r := eval vm_compute in (a <=? b) in
      lazymatch r with true => idtac | false => idtac end;
      change (a <=? b) with r
  end.

(** ** Sorted lists *)
Lemma StronglySorted_lookup {A} (R : A -> A -> Prop) l i j x y :
  StronglySorted R l -> (i < j)%nat -> l !! i = Some x -> l !! j = Some y -> R x y.
Proof.
  intros Hs. revert i j. induction Hs as [|a l Hs IH Hf]; intros i j Hij Hi Hj; [done|].
  destruct i as [|i], j as [|j]; try lia; simpl in *.
  - injection Hi as ->. rewrite Forall_forall in Hf. apply Hf. by eapply list_elem_of_lookup_2.
  - eapply (IH i j); eauto. lia.
Qed.

Lemma elem_of_rev {A} (x : A) l : x ∈ rev l <-> x ∈ l.
Proof. rewrite !list_elem_of_In. symmetry. apply in_rev. Qed.

Lemma StronglySorted_rev {A} (R : A -> A -> Prop) l :
  StronglySorted R (rev l) -> StronglySorted (fun x y => R y x) l.
Proof.
  induction l as [|a l IH]; simpl; intros Hs; [constructor|].
  apply StronglySorted_app in Hs as (Hx & Hl & _). constructor; [by apply IH|].
  apply Forall_forall. intros y Hy. apply Hx; [by apply elem_of_rev|by constructor].
Qed.

Lemma StronglySorted_rev' {A} (R : A -> A -> Prop) l :
  StronglySorted (fun x y => R y x) l -> StronglySorted R (rev l).
Proof. intros Hs. rewrite <- (rev_involutive l) in Hs. apply (StronglySorted_rev (fun x y => R y x)) in Hs. done. Qed.

Lemma filter_rev {A} (Q : A -> Prop) `{forall x, Decision (Q x)} l : filter Q (rev l) = rev (filter Q l).
Proof.
  induction l as [|x l IH]; [done|]. cbn [rev]. rewrite filter_app, IH, !filter_cons.
  destruct (decide (Q x)); cbn; [done|by rewrite app_nil_r].
Qed.

Lemma filter_all {A} (Q : A -> Prop) `{forall x, Decision (Q x)} l : Forall Q l -> filter Q l = l.
Proof. induction 1 as [|x l Hx Hl IH]; [done|]. rewrite filter_cons_True by done. by f_equal. Qed.

Lemma Forall_filter {A} (R Q : A -> Prop) `{forall x, Decision (Q x)} l : Forall R l -> Forall R (filter Q l).
Proof.
  induction 1 as [|x l Hx Hl IH]; [constructor|]. rewrite filter_cons.
  destruct (decide (Q x)); [by constructor|done].
Qed.

Lemma StronglySorted_filter {A} (R : A -> A -> Prop) (P : A -> Prop) `{forall x, Decision (P x)} l :
  StronglySorted R l -> StronglySorted R (filter P l).
Proof.
  induction 1 as [|x l Hs IH Hf]; [constructor|]. rewrite filter_cons.
  destruct (decide (P x)); [|done]. constructor; [done|]. by apply Forall_filter.
Qed.

(** ** Vectors: reading or writing outside of the bounds is undefined *)
Definition vget {A} (l : list A) (i : Z) : result A :=
  if 0 <=? i then match l !! Z.to_nat i with Some x => Ok x | None => Err Undefined end
  else Err Undefined.
Definition vset {A} (l : list A) (i : Z) (x : A) : result (list A) :=
  if (0 <=? i) && (i <? Z.of_nat (length l)) then Ok (<[Z.to_nat i := x]> l) else Err Undefined.

Lemma vget_Ok {A} (l : list A) i : 0 <= i < Z.of_nat (length l) ->
  exists x, vget l i = Ok x /\ l !! Z.to_nat i = Some x.
Proof.
  intros Hi. unfold vget. destruct (Z.leb_spec 0 i); [|lia].
  destruct (lookup_lt_is_Some_2 l (Z.to_nat i)) as [x Hx]; [lia|]. exists x. by rewrite Hx.
Qed.

Lemma vget_inv {A} (l : list A) i x : vget l i = Ok x ->
  0 <= i < Z.of_nat (length l) /\ l !! Z.to_nat i = Some x.
Proof.
  unfold vget. destruct (Z.leb_spec 0 i); [|done]. destruct (l !! Z.to_nat i) as [y|] eqn:E; [|done].
  intros [= ->]. split; [|done]. apply lookup_lt_Some in E. lia.
Qed.

Lemma vget_lookup {A} (l : list A) i x : 0 <= i -> l !! Z.to_nat i = Some x -> vget l i = Ok x.
Proof. intros Hi E. unfold vget. rewrite (proj2 (Z.leb_le 0 i) Hi), E. done. Qed.

Lemma vset_Ok {A} (l : list A) i x : 0 <= i < Z.of_nat (length l) ->
  vset l i x = Ok (<[Z.to_nat i := x]> l).
Proof.
  intros Hi. unfold vset. destruct (Z.leb_spec 0 i), (Z.ltb_spec i (Z.of_nat (length l))); try lia. done.
Qed.

Lemma vset_inv {A} (l l' : list A) i x : vset l i x = Ok l' ->
  0 <= i < Z.of_nat (length l) /\ l' = <[Z.to_nat i := x]> l.
Proof.
  unfold vset. destruct (Z.leb_spec 0 i), (Z.ltb_spec i (Z.of_nat (length l))); simpl; try done.
  intros [= <-]. split; [lia|done].
Qed.

Definition vupd {A} (f : A -> A) (l : list A) (i : Z) : result (list A) :=
  let! x := vget l i in vset l i (f x).

Lemma vupd_Ok {A} (f : A -> A) (l : list A) i : 0 <= i < Z.of_nat (length l) ->
  exists x, l !! Z.to_nat i = Some x /\ vupd f l i = Ok (<[Z.to_nat i := f x]> l).
Proof.
  intros Hi. destruct (vget_Ok l i Hi) as (x & E & Hx). exists x. split; [done|].
  unfold vupd. rewrite E, bind_Ok. by apply vset_Ok.
Qed.
