(* ===== verification/Bits.v ===== *)
(** * Bit fields and integer helpers

    Model of src/gem5/src/base/bitfield.hh (module [Bitfield]) and of
    src/gem5/src/base/intmath.hh (module [IntMath]), the templates taken at
    the 64-bit type the simulator uses for addresses and ticks. *)

From S2P Require Import Prelude.

Module Bitfield.

(** [mask(nbits)]; [nbits] is an unsigned int. *)
Definition mask (nbits : Z) : Z :=
  if 64 <=? nbits then 2 ^ 64 - 1 else u64 (Z.shiftl 1 nbits - 1).

(** [bits(val, first, last)] at [T = uint64_t]. *)
Definition bits (val first last : Z) : result Z :=
  guard! last <=? first;
  let nbits := s32 (u32 (first - last + 1)) in
  let! v := shr 64 val last in
  Ok (Z.land v (mask (u32 nbits))).

(** [bits(val, bit)]. *)
Definition bit (val b : Z) : result Z := bits val b b.

Definition mbits (val first last : Z) : Z :=
  Z.land val (Z.land (mask (u32 (first + 1))) (unot 64 (mask last))).

(** [mask(first, last)]. *)
Definition mask2 (first last : Z) : Z := mbits (2 ^ 64 - 1) first last.

(** [sext(val, N)]; [sext<N>(val)] has the same body. *)
Definition sext (val N : Z) : result Z :=
  let! sign_bit := bit val (u32 (N - 1)) in
  if negb (sign_bit =? 0) then Ok (Z.lor val (unot 64 (mask (u32 N)))) else Ok val.

Definition szext (val N : Z) : result Z :=
  let! sign_bit := bit val (u32 (N - 1)) in
  if negb (sign_bit =? 0) then Ok (Z.lor val (unot 64 (mask (u32 N))))
  else Ok (Z.land val (mask (u32 N))).

(** [insertBits(val, first, last, bit_val)] at [T = B = uint64_t]. *)
Definition insertBits (val first last bit_val : Z) : result Z :=
  guard! last <=? first;
  let bmask := mask2 first last in
  let val := Z.land val (unot 64 bmask) in
  let! b := shl 64 bit_val last in
  Ok (Z.lor val (Z.land b bmask)).

(** [insertBits(val, bit, bit_val)]. *)
Definition insertBit (val b bit_val : Z) : result Z := insertBits val b b bit_val.

(** [replaceBits] assigns the result back to its reference argument. *)
Definition replaceBits (val first last bit_val : Z) : result Z :=
  insertBits val first last bit_val.

(** One [if (bits(val, hi, lo)) { msb += k; val >>= k; }] block. *)
Definition msb_step (hi lo k : Z) (s : Z * Z) : result (Z * Z) :=
  let! b := bits s.2 hi lo in
  Ok (if negb (b =? 0) then (s.1 + k, Z.shiftr s.2 k) else s).

Definition findMsbSet (val : Z) : result Z :=
  if val =? 0 then Ok 0 else
  let! s := msb_step 63 32 32 (0, val) in
  let! s := msb_step 31 16 16 s in
  let! s := msb_step 15 8 8 s in
  let! s := msb_step 7 4 4 s in
  let! s := msb_step 3 2 2 s in
  let! b := bits s.2 1 1 in
  Ok (if negb (b =? 0) then s.1 + 1 else s.1).

(** One [if (!bits(val, hi, 0)) { lsb += k; val >>= k; }] block. *)
Definition lsb_step (hi k : Z) (s : Z * Z) : result (Z * Z) :=
  let! b := bits s.2 hi 0 in
  Ok (if b =? 0 then (s.1 + k, Z.shiftr s.2 k) else s).

Definition findLsbSetFallback (val : Z) : result Z :=
  if val =? 0 then Ok 64 else
  let! s := lsb_step 31 32 (0, val) in
  let! s := lsb_step 15 16 s in
  let! s := lsb_step 7 8 s in
  let! s := lsb_step 3 4 s in
  let! s := lsb_step 1 2 s in
  let! b := bits s.2 0 0 in
  Ok (if b =? 0 then s.1 + 1 else s.1).

(** The compiler's count-trailing-zeros and population-count builtins. *)
Fixpoint pos_ctz (p : positive) : Z :=
  match p with xO q => 1 + pos_ctz q | _ => 0 end.
Definition builtin_ctz (x : Z) : Z :=
  match x with Zpos p => pos_ctz p | _ => 0 end.
Fixpoint pos_popcount (p : positive) : Z :=
  match p with xH => 1 | xO q => pos_popcount q | xI q => 1 + pos_popcount q end.
Definition builtin_popcount (x : Z) : Z :=
  match x with Zpos p => pos_popcount p | _ => 0 end.

(** [findLsbSet], [ctz64]: the builtin, guarded against zero. *)
Definition findLsbSet (val : Z) : Z := if val =? 0 then 64 else builtin_ctz val.
Definition ctz64 (value : Z) : Z := if negb (value =? 0) then builtin_ctz value else 64.
Definition ctz32 (value : Z) : Z := if negb (value =? 0) then builtin_ctz value else 32.
Definition clz64 (value : Z) : Z := if negb (value =? 0) then 63 - Z.log2 value else 64.
Definition clz32 (value : Z) : Z := if negb (value =? 0) then 31 - Z.log2 value else 32.

Definition popCount (val : Z) : Z := builtin_popcount val.

(** The portable branch of [popCount]. *)
Definition popCountPortable (val : Z) : Z :=
  let m1 := 0x5555555555555555 in
  let m2 := 0x3333333333333333 in
  let m4 := 0x0f0f0f0f0f0f0f0f in
  let sum := 0x0101010101010101 in
  let val := u64 (val - Z.land (Z.shiftr val 1) m1) in
  let val := u64 (Z.land val m2 + Z.land (Z.shiftr val 2) m2) in
  let val := Z.land (u64 (val + Z.shiftr val 4)) m4 in
  Z.shiftr (u64 (val * sum)) 56.

Definition alignToPowerOfTwo (val : Z) : Z :=
  let val := u64 (val - 1) in
  let val := Z.lor val (Z.shiftr val 1) in
  let val := Z.lor val (Z.shiftr val 2) in
  let val := Z.lor val (Z.shiftr val 4) in
  let val := Z.lor val (Z.shiftr val 8) in
  let val := Z.lor val (Z.shiftr val 16) in
  let val := Z.lor val (Z.shiftr val 32) in
  u64 (val + 1).

Definition reverseBitsLookUpTable : list Z :=
  [0x00; 0x80; 0x40; 0xc0; 0x20; 0xa0; 0x60; 0xe0; 0x10; 0x90; 0x50; 0xd0;
   0x30; 0xb0; 0x70; 0xf0; 0x08; 0x88; 0x48; 0xc8; 0x28; 0xa8; 0x68; 0xe8;
   0x18; 0x98; 0x58; 0xd8; 0x38; 0xb8; 0x78; 0xf8; 0x04; 0x84; 0x44; 0xc4;
   0x24; 0xa4; 0x64; 0xe4; 0x14; 0x94; 0x54; 0xd4; 0x34; 0xb4; 0x74; 0xf4;
   0x0c; 0x8c; 0x4c; 0xcc; 0x2c; 0xac; 0x6c; 0xec; 0x1c; 0x9c; 0x5c; 0xdc;
   0x3c; 0xbc; 0x7c; 0xfc; 0x02; 0x82; 0x42; 0xc2; 0x22; 0xa2; 0x62; 0xe2;
   0x12; 0x92; 0x52; 0xd2; 0x32; 0xb2; 0x72; 0xf2; 0x0a; 0x8a; 0x4a; 0xca;
   0x2a; 0xaa; 0x6a; 0xea; 0x1a; 0x9a; 0x5a; 0xda; 0x3a; 0xba; 0x7a; 0xfa;
   0x06; 0x86; 0x46; 0xc6; 0x26; 0xa6; 0x66; 0xe6; 0x16; 0x96; 0x56; 0xd6;
   0x36; 0xb6; 0x76; 0xf6; 0x0e; 0x8e; 0x4e; 0xce; 0x2e; 0xae; 0x6e; 0xee;
   0x1e; 0x9e; 0x5e; 0xde; 0x3e; 0xbe; 0x7e; 0xfe; 0x01; 0x81; 0x41; 0xc1;
   0x21; 0xa1; 0x61; 0xe1; 0x11; 0x91; 0x51; 0xd1; 0x31; 0xb1; 0x71; 0xf1;
   0x09; 0x89; 0x49; 0xc9; 0x29; 0xa9; 0x69; 0xe9; 0x19; 0x99; 0x59; 0xd9;
   0x39; 0xb9; 0x79; 0xf9; 0x05; 0x85; 0x45; 0xc5; 0x25; 0xa5; 0x65; 0xe5;
   0x15; 0x95; 0x55; 0xd5; 0x35; 0xb5; 0x75; 0xf5; 0x0d; 0x8d; 0x4d; 0xcd;
   0x2d; 0xad; 0x6d; 0xed; 0x1d; 0x9d; 0x5d; 0xdd; 0x3d; 0xbd; 0x7d; 0xfd;
   0x03; 0x83; 0x43; 0xc3; 0x23; 0xa3; 0x63; 0xe3; 0x13; 0x93; 0x53; 0xd3;
   0x33; 0xb3; 0x73; 0xf3; 0x0b; 0x8b; 0x4b; 0xcb; 0x2b; 0xab; 0x6b; 0xeb;
   0x1b; 0x9b; 0x5b; 0xdb; 0x3b; 0xbb; 0x7b; 0xfb; 0x07; 0x87; 0x47; 0xc7;
   0x27; 0xa7; 0x67; 0xe7; 0x17; 0x97; 0x57; 0xd7; 0x37; 0xb7; 0x77; 0xf7;
   0x0f; 0x8f; 0x4f; 0xcf; 0x2f; 0xaf; 0x6f; 0xef; 0x1f; 0x9f; 0x5f; 0xdf;
   0x3f; 0xbf; 0x7f; 0xff].

(** [reverseBits(val, size)] for a type of [sz] bytes. *)
Fixpoint reverseBits_loop (w : Z) (size : nat) (output val : Z) : result Z :=
  match size with
  | O => Ok output
  | S size =>
      match reverseBitsLookUpTable !! Z.to_nat (Z.land val (mask 8)) with
      | Some r => reverseBits_loop w size
                    (Z.lor (uw w (Z.shiftl output 8)) r) (Z.shiftr val 8)
      | None => Err Undefined
      end
  end.

Definition reverseBits (sz : nat) (val : Z) (size : nat) : result Z :=
  guard! (size <=? sz)%nat;
  if (sz =? 1)%nat then
    match reverseBitsLookUpTable !! Z.to_nat val with
    | Some r => Ok r | None => Err Undefined end
  else reverseBits_loop (8 * Z.of_nat sz) size 0 val.

End Bitfield.

Module IntMath.
Import Bitfield.

(** [if (ts >= t && (ux & m)) { y += k; ux >>= k; }]. *)
Definition log_step (cond : bool) (m k : Z) (s : Z * Z) : Z * Z :=
  if cond && negb (Z.land s.2 m =? 0) then (s.1 + k, Z.shiftr s.2 k) else s.

(** [floorLog2] at an unsigned type of [ts] bytes. *)
Definition floorLog2 (ts x : Z) : result Z :=
  guard! 0 <? x;
  let s := log_step (8 <=? ts) 0xffffffff00000000 32 (0, x) in
  let s := log_step (4 <=? ts) 0x00000000ffff0000 16 s in
  let s := log_step (2 <=? ts) 0x000000000000ff00 8 s in
  let s := log_step true 0x00000000000000f0 4 s in
  let s := log_step true 0x000000000000000c 2 s in
  let s := log_step true 0x0000000000000002 1 s in
  Ok s.1.

Definition ceilLog2 (ts n : Z) : result Z :=
  guard! 0 <? n;
  if n =? 1 then Ok 0 else
  let! l := floorLog2 ts (n - 1) in Ok (l + 1).

(** [isPowerOf2] at [uint64_t]. *)
Definition isPowerOf2 (n : Z) : bool :=
  negb (n =? 0) && (Z.land n (u64 (n - 1)) =? 0).

(** [divCeil] at [uint64_t]; division by zero is undefined. *)
Definition divCeil (a b : Z) : result Z :=
  if b =? 0 then Err Undefined else Ok (u64 (a + b - 1) / b).

(** The 64-bit overloads return the (high, low) words of the product. *)
Definition mulUnsignedManual (val_a val_b : Z) : Z * Z :=
  let low := u64 (val_a * val_b) in
  let A := u32 (Z.shiftr val_a 32) in
  let a := u32 val_a in
  let B := u32 (Z.shiftr val_b 32) in
  let b := u32 val_b in
  let ab := u64 (a * b) in
  let Ab := u64 (A * b) in
  let aB := u64 (a * B) in
  let AB := u64 (A * B) in
  let c1 := u32 (Z.shiftr ab 32) in
  let c2 := u64 (Z.shiftr c1 1 + Z.shiftr Ab 1 + Z.shiftr aB 1) in
  let c2 := u64 (c2 + Z.shiftr (Z.land c1 1 + Z.land Ab 1 + Z.land aB 1) 1) in
  let c2 := Z.shiftr c2 31 in
  (u64 (AB + c2), low).

(** [mulUnsigned] on compilers that have [__uint128_t]. *)
Definition mulUnsigned (val_a val_b : Z) : Z * Z :=
  let val := uw 128 (val_a * val_b) in
  (u64 (Z.shiftr val 64), u64 val).

Definition mulSignedManual (val_a val_b : Z) : Z * Z :=
  let '(u_high, u_low) := mulUnsigned (u64 val_a) (u64 val_b) in
  let u_high := if val_a <? 0 then u64 (u_high - val_b) else u_high in
  let u_high := if val_b <? 0 then u64 (u_high - val_a) else u_high in
  (s64 u_high, s64 u_low).

(** [mulSigned] on compilers that have [__int128_t]. *)
Definition mulSigned (val_a val_b : Z) : Z * Z :=
  let val := sw 128 (val_a * val_b) in
  (s64 (Z.shiftr val 64), s64 val).

Definition roundUp (val align : Z) : result Z :=
  guard! isPowerOf2 align;
  let mask := u64 (align - 1) in
  Ok (Z.land (u64 (val + mask)) (unot 64 mask)).

Definition roundDown (val align : Z) : result Z :=
  guard! isPowerOf2 align;
  let mask := u64 (align - 1) in
  Ok (Z.land val (unot 64 mask)).

(** [log2i(int)]: [value - 1] overflows at the least int; elsewhere the
    assertion only holds of a positive argument, on which the tests of the
    signed object are those of its 64-bit image. *)
Definition log2i (value : Z) : result Z :=
  if value =? - 2 ^ 31 then Err Undefined else
  guard! isPowerOf2 (u64 value) && (0 <? value);
  Ok (ctz32 (u32 value)).

End IntMath.

(** ** Bit fields *)

Export Bitfield.

Lemma mask_small n : 0 <= n <= 64 -> mask n = 2 ^ n - 1.
Proof.
  intros Hn. unfold mask. destruct (Z.leb_spec 64 n).
  - replace n with 64 by lia. reflexivity.
  - rewrite Z.shiftl_1_l. apply uw_small. unfold in_uw.
    pose proof (Z.pow_le_mono_r 2 n 64). pose proof (pow2_pos n). lia.
Qed.

Lemma testbit_mask n i : 0 <= n -> 0 <= i ->
  Z.testbit (mask n) i = (i <? n) && (i <? 64).
Proof.
  intros. destruct (Z.leb_spec 64 n).
  - unfold mask. destruct (Z.leb_spec 64 n); [|lia].
    rewrite testbit_pow2_pred by lia. zbits_cases; zbits_finish.
  - rewrite mask_small, testbit_pow2_pred by lia. zbits_cases; zbits_finish.
Qed.
#[export] Hint Rewrite testbit_mask using lia : zbits.

Lemma mask_range n : 0 <= n -> in_uw 64 (mask n).
Proof.
  intros. unfold mask. destruct (Z.leb_spec 64 n); [split; lia|auto with gem5].
  apply uw_range; lia.
Qed.

Lemma nbits_small first last : 0 <= last <= first -> first < 64 ->
  u32 (s32 (u32 (first - last + 1))) = first - last + 1.
Proof.
  intros. rewrite (uw_small 32 (first - last + 1)) by (split; lia).
  rewrite sw_small by (try split; lia). apply uw_small. split; lia.
Qed.

(** A field inside the word is read without failing. *)
Lemma bits_Ok val first last : 0 <= last <= first -> first < 64 ->
  bits val first last = Ok (uw (first - last + 1) (Z.shiftr val last)).
Proof.
  intros Hl Hf. unfold bits.
  destruct (Z.leb_spec last first) as [_|]; [|lia]. rewrite check_true, bind_Ok.
  unfold shr. destruct (Z.leb_spec 0 last), (Z.ltb_spec last 64); try lia. simpl.
  change (u32 (s32 _)) with (u32 (s32 (u32 (first - last + 1)))).
  rewrite nbits_small, mask_small, land_ones_uw by lia. reflexivity.
Qed.

Lemma testbit_mask2 first last i : 0 <= last <= first -> first < 64 -> 0 <= i ->
  Z.testbit (mask2 first last) i = (last <=? i) && (i <=? first).
Proof.
  intros. unfold mask2, mbits. rewrite (uw_small 32) by (split; lia).
  change (2 ^ 64 - 1) with (mask 64).
  autorewrite with zbits. zbits_cases; zbits_finish.
Qed.

Lemma insertBits_Ok val first last bv : 0 <= last <= first -> first < 64 ->
  insertBits val first last bv =
    Ok (Z.lor (Z.land val (unot 64 (mask2 first last)))
              (Z.land (u64 (Z.shiftl bv last)) (mask2 first last))).
Proof.
  intros. unfold insertBits, shl. destruct (Z.leb_spec last first); [|lia].
  destruct (Z.leb_spec 0 last), (Z.ltb_spec last 64); try lia. reflexivity.
Qed.

(** Every bit of an [insertBits] result. *)
Lemma insertBits_testbit val first last bv r i :
  in_uw 64 val -> 0 <= last <= first -> first < 64 -> 0 <= i ->
  insertBits val first last bv = Ok r ->
  Z.testbit r i = if (last <=? i) && (i <=? first)
                  then Z.testbit bv (i - last) else Z.testbit val i.
Proof.
  intros Hv Hl Hf Hi. rewrite insertBits_Ok by lia. injection 1 as <-.
  autorewrite with zbits. rewrite testbit_mask2 by lia. zbits_cases; zbits_finish.
Qed.

Lemma insertBits_range val first last bv r :
  in_uw 64 val -> 0 <= last <= first -> first < 64 ->
  insertBits val first last bv = Ok r -> in_uw 64 r.
Proof.
  intros Hv Hl Hf. rewrite insertBits_Ok by lia. injection 1 as <-.
  apply uw_lor; [lia|by apply uw_land_l|].
  apply uw_land_l; [lia|apply uw_range; lia].
Qed.

Lemma insertBits_total val first last bv :
  in_uw 64 val -> 0 <= last <= first -> first < 64 ->
  exists r, insertBits val first last bv = Ok r /\ in_uw 64 r.
Proof.
  intros Hv Hl Hf. pose proof (insertBits_Ok val first last bv Hl Hf) as E.
  eexists. split; [exact E|]. by eapply insertBits_range.
Qed.

(** The doc comment of [insertBits]: the field reads back as the low bits of
    what was written, the bits around it are untouched, and writing the value
    already there changes nothing. *)
Theorem insertBits_bits_roundtrip val first last bv :
  in_uw 64 val -> 0 <= last <= first -> first < 64 ->
  exists r, insertBits val first last bv = Ok r /\ in_uw 64 r /\
    bits r first last = Ok (uw (first - last + 1) bv) /\
    (forall f l, 0 <= l <= f -> f < 64 -> f < last \/ first < l ->
       bits r f l = bits val f l) /\
    (bits val first last = Ok (uw (first - last + 1) bv) -> r = val).
Proof.
  intros Hv Hl Hf. eexists. split; [by apply insertBits_Ok|].
  set (r := Z.lor _ _).
  assert (Hr : insertBits val first last bv = Ok r) by by apply insertBits_Ok.
  pose proof (fun i => insertBits_testbit val first last bv r i Hv Hl Hf) as Ht.
  split; [by eapply insertBits_range|split; [|split]].
  - rewrite bits_Ok by lia. f_equal. apply Z.bits_inj'. intros i Hi.
    autorewrite with zbits. zbits_cases; try reflexivity.
    simpl. rewrite Ht by (auto; lia). zbits_cases. simpl. f_equal; lia.
  - intros f l Hfl Hf' Hd. rewrite !bits_Ok by lia. f_equal.
    apply Z.bits_inj'. intros i Hi. autorewrite with zbits. zbits_cases; try reflexivity.
    simpl. rewrite Ht by (auto; lia). zbits_cases; reflexivity.
  - rewrite bits_Ok by lia. injection 1 as Hb. apply Z.bits_inj'. intros i Hi.
    rewrite Ht by auto. zbits_cases; simpl; try reflexivity.
    apply (f_equal (fun x => Z.testbit x (i - last))) in Hb.
    rewrite !testbit_uw, Z.shiftr_spec in Hb by lia.
    destruct (Z.ltb_spec (i - last) (first - last + 1)); [|lia]. simpl in Hb.
    rewrite <- Hb. f_equal. lia.
Qed.

(** ** Sign extension *)

Lemma sw_testbit w x i : 0 < w -> in_uw w x -> 0 <= i ->
  Z.testbit (sw w x) i = if i <? w then Z.testbit x i else Z.testbit x (w - 1).
Proof.
  intros Hw Hx Hi. assert (H2 : 2 ^ w = 2 * 2 ^ (w - 1)).
  { rewrite <- Z.pow_succ_r by lia. f_equal. lia. }
  pose proof (pow2_pos (w - 1)). unfold in_uw in Hx.
  destruct (Z.testbit x (w - 1)) eqn:Hs.
  - assert (2 ^ (w - 1) <= x).
    { destruct (Z.le_gt_cases (2 ^ (w - 1)) x); [done|].
      rewrite (testbit_high (w - 1)) in Hs; [done|split; lia|lia]. }
    assert (sw w x = x - 2 ^ w) as ->.
    { unfold sw. rewrite H2. replace (x + 2 ^ (w - 1)) with
        ((x - 2 ^ (w - 1)) + 1 * (2 * 2 ^ (w - 1))) by lia.
      rewrite Z.mod_add, Z.mod_small; lia. }
    destruct (Z.ltb_spec i w); [apply Z.sub_pow2_spec_low; lia|].
    rewrite Z.sub_pow2_spec_high; try lia; [|rewrite Z.pow_succ_r by lia; lia].
    by rewrite (testbit_high w) by (try split; lia).
  - assert (x < 2 ^ (w - 1)).
    { destruct (Z.le_gt_cases (2 ^ (w - 1)) x); [|done].
      rewrite Z.testbit_false in Hs by lia.
      replace (x / 2 ^ (w - 1)) with 1 in Hs; [done|].
      apply Z.div_unique with (x - 2 ^ (w - 1)); lia. }
    rewrite sw_small by (try split; lia).
    destruct (Z.ltb_spec i w); [done|]. by apply (testbit_high w); [split|]; lia.
Qed.

Lemma bit_Ok val b : 0 <= b < 64 -> bit val b = Ok (Z.b2z (Z.testbit val b)).
Proof.
  intros. unfold bit. rewrite bits_Ok by lia. f_equal.
  replace (b - b + 1) with 1 by lia. zbits.
Qed.

(** [szext] replaces the word by the two's-complement value of its low [N]
    bits; [sext] does so when the bits above the field are zero. *)
Theorem sext_szext_spec val N :
  in_uw 64 val -> 1 <= N <= 64 ->
  szext val N = Ok (u64 (sw N (uw N val))) /\
  (in_uw N val -> sext val N = Ok (u64 (sw N val))).
Proof.
  intros Hv HN. unfold szext, sext.
  rewrite !(uw_small 32 (N - 1)) by (split; lia). rewrite bit_Ok, !bind_Ok by lia.
  rewrite !(uw_small 32 N) by (split; lia).
  assert (Hs : forall x, in_uw N x -> Z.testbit x (N - 1) = Z.testbit val (N - 1) ->
    (forall i, 0 <= i < N -> Z.testbit x i = Z.testbit val i) ->
    (if negb (Z.b2z (Z.testbit val (N - 1)) =? 0)
     then Z.lor val (unot 64 (mask N)) else Z.land val (mask N)) = u64 (sw N x)).
  { intros x Hx Hsx Hb. apply Z.bits_inj'. intros i Hi.
    rewrite testbit_uw, sw_testbit by (auto; lia).
    destruct (Z.testbit val (N - 1)) eqn:E; simpl; autorewrite with zbits;
      zbits_cases; simpl; zbits_high;
      rewrite ?orb_true_r, ?orb_false_r, ?andb_true_r, ?andb_false_r; auto;
      try (symmetry; apply Hb; lia); congruence. }
  split.
  - rewrite <- (Hs (uw N val)); [by destruct (negb _)|apply uw_range; lia| |].
    + rewrite testbit_uw by lia. zbits_cases. reflexivity.
    + intros i Hi. rewrite testbit_uw by lia. zbits_cases. reflexivity.
  - intros Hx. rewrite <- (Hs val); auto. destruct (negb _); [done|]. f_equal.
    rewrite mask_small, land_ones_uw by lia. by rewrite uw_small.
Qed.

(** ** Most and least significant set bits *)

Lemma shiftr_lt x n k : 0 <= n -> 0 <= k -> 0 <= x < 2 ^ (n + k) ->
  0 <= Z.shiftr x k < 2 ^ n.
Proof.
  intros. rewrite Z.shiftr_div_pow2 by lia. rewrite Z.pow_add_r in * by lia.
  pose proof (pow2_pos k). split; [apply Z.div_pos; lia|].
  apply Z.div_lt_upper_bound; lia.
Qed.

Lemma shiftr_zero_iff x k : 0 <= k -> 0 <= x -> Z.shiftr x k = 0 <-> x < 2 ^ k.
Proof.
  intros. rewrite Z.shiftr_div_pow2 by lia. pose proof (pow2_pos k).
  rewrite Z.div_small_iff by lia. lia.
Qed.

Lemma log2_shiftr x k : 0 <= k -> 2 ^ k <= x -> Z.log2 x = k + Z.log2 (Z.shiftr x k).
Proof.
  intros Hk Hx. rewrite Z.log2_shiftr by lia.
  pose proof (Z.log2_le_pow2 x k). lia.
Qed.

(** The halving invariant: [msb + log2 v] is constant and [v] fits in [k] bits
    after the step on its upper half. *)
Lemma msb_step_spec hi k msb v : hi = k + k - 1 -> 0 < k <= 32 -> 0 < v < 2 ^ (k + k) ->
  exists msb' v', msb_step hi k k (msb, v) = Ok (msb', v') /\
    0 < v' < 2 ^ k /\ msb' + Z.log2 v' = msb + Z.log2 v.
Proof.
  intros -> Hk Hv. unfold msb_step. simpl. rewrite bits_Ok, bind_Ok by lia.
  replace (k + k - 1 - k + 1) with k by lia.
  pose proof (shiftr_lt v k k ltac:(lia) ltac:(lia) ltac:(lia)) as Hs.
  rewrite uw_small by exact Hs.
  destruct (Z.eqb_spec (Z.shiftr v k) 0) as [E|E]; simpl.
  - eexists _, _. split; [done|]. apply shiftr_zero_iff in E; lia.
  - eexists _, _. split; [done|]. split; [lia|].
    rewrite shiftr_zero_iff in E by lia. rewrite (log2_shiftr v k) by lia. lia.
Qed.

Lemma findMsbSet_log2 val : 0 < val < 2 ^ 64 -> findMsbSet val = Ok (Z.log2 val).
Proof.
  intros Hv. unfold findMsbSet. destruct (Z.eqb_spec val 0); [lia|].
  destruct (msb_step_spec 63 32 0 val) as (m1 & v1 & E1 & B1 & L1); [done|lia|done|].
  destruct (msb_step_spec 31 16 m1 v1) as (m2 & v2 & E2 & B2 & L2); [done|lia|done|].
  destruct (msb_step_spec 15 8 m2 v2) as (m3 & v3 & E3 & B3 & L3); [done|lia|done|].
  destruct (msb_step_spec 7 4 m3 v3) as (m4 & v4 & E4 & B4 & L4); [done|lia|done|].
  destruct (msb_step_spec 3 2 m4 v4) as (m5 & v5 & E5 & B5 & L5); [done|lia|done|].
  rewrite E1, bind_Ok, E2, bind_Ok, E3, bind_Ok, E4, bind_Ok, E5, bind_Ok. cbn [fst snd].
  rewrite bits_Ok, bind_Ok by lia. f_equal.
  assert (v5 = 1 \/ v5 = 2 \/ v5 = 3) as [-> | [-> | ->]] by lia;
    cbn in L5; uw_compute; lia.
Qed.

Lemma builtin_ctz_nonneg p : 0 <= pos_ctz p.
Proof. induction p; simpl; lia. Qed.

Lemma builtin_ctz_shiftr p k : 0 <= k -> uw k (Z.pos p) = 0 ->
  exists q, Z.shiftr (Z.pos p) k = Z.pos q /\ pos_ctz p = k + pos_ctz q.
Proof.
  intros Hk. revert p. pattern k. apply natlike_ind; [| |done].
  - intros p _. by exists p.
  - clear k Hk. intros k Hk IH p Hp.
    assert (Hb : Z.testbit (Z.pos p) 0 = false).
    { apply (f_equal (fun x => Z.testbit x 0)) in Hp.
      rewrite testbit_uw, Z.testbit_0_l in Hp by lia.
      destruct (Z.ltb_spec 0 (Z.succ k)); [done|lia]. }
    destruct p as [p|p|]; [done| |done]. destruct (IH p) as (q & Hq & Hc).
    { unfold uw in *. rewrite Pos2Z.inj_xO, Z.pow_succ_r, Z.mul_mod_distr_l in Hp by lia.
      lia. }
    exists q. split; [|simpl; lia].
    rewrite Z.shiftr_div_pow2, Pos2Z.inj_xO, Z.pow_succ_r, Z.div_mul_cancel_l by lia.
    by rewrite <- Z.shiftr_div_pow2 by lia.
Qed.

Lemma uw_shiftr_zero x k : 0 <= k ->
  uw k x = 0 -> uw k (Z.shiftr x k) = 0 -> uw (k + k) x = 0.
Proof.
  intros Hk H1 H2. apply Z.bits_inj_0. intros i.
  destruct (Z.leb_spec 0 i); [|by apply testbit_neg].
  rewrite testbit_uw by lia. destruct (Z.ltb_spec i (k + k)); [|done]. simpl.
  destruct (Z.ltb_spec i k).
  - apply (f_equal (fun x => Z.testbit x i)) in H1.
    rewrite testbit_uw, Z.testbit_0_l in H1 by lia. by destruct (Z.ltb_spec i k); [|lia].
  - apply (f_equal (fun x => Z.testbit x (i - k))) in H2.
    rewrite testbit_uw, Z.testbit_0_l, Z.shiftr_spec, Z.sub_add in H2 by lia.
    by destruct (Z.ltb_spec (i - k) k); [|lia].
Qed.

(** The dual invariant: [lsb + ctz v] is constant and the low [k] bits of [v]
    are not all zero after the step on them. *)
Lemma lsb_step_spec hi k lsb v : hi = k - 1 -> 0 < k <= 32 -> 0 < v -> uw (k + k) v <> 0 ->
  exists lsb' v', lsb_step hi k (lsb, v) = Ok (lsb', v') /\
    0 < v' /\ uw k v' <> 0 /\ lsb' + builtin_ctz v' = lsb + builtin_ctz v.
Proof.
  intros -> Hk Hv Hl. unfold lsb_step. simpl. rewrite bits_Ok, bind_Ok by lia.
  replace (k - 1 - 0 + 1) with k by lia. rewrite Z.shiftr_0_r.
  destruct (Z.eqb_spec (uw k v) 0) as [E|E]; [|by exists lsb, v; repeat split; try lia].
  destruct v as [|p|]; try lia. destruct (builtin_ctz_shiftr p k) as (q & Hq & Hc); [lia|done|].
  rewrite Hq. eexists _, _. split; [done|]. simpl. split; [lia|]. split; [|lia].
  rewrite <- Hq. intros E'. apply Hl, uw_shiftr_zero; auto with lia.
Qed.

Lemma findLsbSetFallback_ctz val : 0 < val < 2 ^ 64 ->
  findLsbSetFallback val = Ok (builtin_ctz val).
Proof.
  intros Hv. unfold findLsbSetFallback. destruct (Z.eqb_spec val 0); [lia|].
  destruct (lsb_step_spec 31 32 0 val) as (m1 & v1 & E1 & P1 & B1 & L1); [done|lia|lia| |].
  { rewrite uw_small; [lia|split; lia]. }
  destruct (lsb_step_spec 15 16 m1 v1) as (m2 & v2 & E2 & P2 & B2 & L2); [done|lia|done|done|].
  destruct (lsb_step_spec 7 8 m2 v2) as (m3 & v3 & E3 & P3 & B3 & L3); [done|lia|done|done|].
  destruct (lsb_step_spec 3 4 m3 v3) as (m4 & v4 & E4 & P4 & B4 & L4); [done|lia|done|done|].
  destruct (lsb_step_spec 1 2 m4 v4) as (m5 & v5 & E5 & P5 & B5 & L5); [done|lia|done|done|].
  rewrite E1, bind_Ok, E2, bind_Ok, E3, bind_Ok, E4, bind_Ok, E5, bind_Ok. cbn [fst snd].
  rewrite bits_Ok, bind_Ok by lia. f_equal. rewrite Z.shiftr_0_r.
  change (0 - 0 + 1) with 1.
  unfold uw. change (2 ^ 1) with 2. rewrite Zmod_odd.
  destruct v5 as [|[q|q|]|]; try lia; cbn in L5; cbn; [lia| |lia].
  assert (pos_ctz q = 0); [|lia].
  destruct q as [q|q|]; [done| |done]. exfalso. apply B5.
  unfold uw. replace (Z.pos q~0~0) with (Z.pos q * 2 ^ 2) by lia. by apply Z.mod_mul.
Qed.

Lemma builtin_ctz_bits val : 0 < val -> Z.testbit val (builtin_ctz val) = true /\
  forall i, i < builtin_ctz val -> Z.testbit val i = false.
Proof.
  destruct val as [|p|]; try lia. intros _. simpl.
  induction p as [p _|p IH|]; [split; [done|apply testbit_neg]| |split; [done|apply testbit_neg]].
  destruct IH as [IH1 IH2]. simpl pos_ctz. rewrite Pos2Z.inj_xO.
  pose proof (builtin_ctz_nonneg p).
  split; [by rewrite Z.add_1_l, Z.double_bits_succ|].
  intros i Hi. rewrite Z.double_bits. apply IH2. lia.
Qed.

Lemma ctz64_spec m : in_uw 64 m -> m <> 0 ->
  0 <= ctz64 m < 64 /\ Z.testbit m (ctz64 m) = true /\
  (forall i, i < ctz64 m -> Z.testbit m i = false).
Proof.
  intros [H0 H1] Hne. unfold ctz64. destruct (Z.eqb_spec m 0); [done|]. cbn [negb].
  destruct (builtin_ctz_bits m ltac:(lia)) as [Hb Hl]. split; [|done].
  split; [destruct m; try lia; apply builtin_ctz_nonneg|].
  apply Z.nle_gt. intros Hge. rewrite (testbit_high 64) in Hb; [done|done|lia].
Qed.

(** [findMsbSet] and the portable [findLsbSet] never fail on a non-zero word:
    the first returns the position of the highest set bit, the second the
    count of trailing zeros that the builtin would return; both positions hold
    a one bit and every bit beyond them is zero. *)
Theorem find_set_bits_correct val : 0 < val < 2 ^ 64 ->
  exists m l, findMsbSet val = Ok m /\ findLsbSetFallback val = Ok l /\
    l = findLsbSet val /\ l = ctz64 val /\ (0 <= l <= m /\ m < 64) /\
    Z.testbit val m = true /\ Z.testbit val l = true /\
    (forall i, m < i -> Z.testbit val i = false) /\
    (forall i, i < l -> Z.testbit val i = false).
Proof.
  intros Hv. exists (Z.log2 val), (builtin_ctz val).
  rewrite findMsbSet_log2, findLsbSetFallback_ctz by done.
  unfold findLsbSet, ctz64. destruct (Z.eqb_spec val 0); [lia|]. simpl.
  do 4 (split; [done|]).
  destruct (builtin_ctz_bits val ltac:(lia)) as [Hb1 Hb2].
  assert (builtin_ctz val <= Z.log2 val).
  { apply Z.le_ngt. intros Hlt. rewrite Z.bits_above_log2 in Hb1; [done|lia|done]. }
  assert (0 <= builtin_ctz val) by (destruct val; simpl; try lia; apply builtin_ctz_nonneg).
  assert (Z.log2 val < 64) by (apply Z.log2_lt_pow2; lia).
  repeat split; auto; try lia; [apply Z.bit_log2; lia|].
  intros i Hi. apply Z.bits_above_log2; lia.
Qed.

(** ** Population count *)

Lemma popCount_double b x : 0 <= x -> popCount (Z.b2z b + 2 * x) = Z.b2z b + popCount x.
Proof. intros. destruct x as [|p|], b; try lia; reflexivity. Qed.

Lemma popCount_split k d x : 0 <= k -> in_uw k d -> 0 <= x ->
  popCount (d + 2 ^ k * x) = popCount d + popCount x.
Proof.
  intros Hk. revert d x. pattern k. apply natlike_ind; [| |done]; clear k Hk.
  - intros d x Hd Hx. unfold in_uw in Hd. replace d with 0 by lia.
    by rewrite Z.pow_0_r, Z.add_0_l, Z.mul_1_l.
  - intros k Hk IH d x Hd Hx. unfold in_uw in *. rewrite Z.pow_succ_r in * by lia.
    pose proof (Zmod_odd d) as Ho. pose proof (Z.div_mod d 2).
    set (b := Z.odd d) in *.
    assert (Hb : d = Z.b2z b + 2 * (d / 2)) by (destruct b; simpl; lia).
    assert (0 <= d / 2 < 2 ^ k) by (destruct b; simpl in *; lia).
    assert (Hp : popCount d = Z.b2z b + popCount (d / 2))
      by (rewrite Hb at 1; apply popCount_double; lia).
    replace (d + 2 * 2 ^ k * x) with (Z.b2z b + 2 * (d / 2 + 2 ^ k * x)) by lia.
    rewrite popCount_double, IH by (pose proof (pow2_pos k); nia). lia.
Qed.

(** The number whose base-256 digits are listed, least significant first. *)
Fixpoint of_bytes (l : list Z) : Z :=
  match l with [] => 0 | d :: l => d + 2 ^ 8 * of_bytes l end.

Lemma of_bytes_nonneg l : Forall (in_uw 8) l -> 0 <= of_bytes l.
Proof. induction 1 as [|d l []]; simpl; lia. Qed.

Fixpoint to_bytes (n : nat) (x : Z) : list Z :=
  match n with O => [] | S n => uw 8 x :: to_bytes n (Z.shiftr x 8) end.

Lemma of_to_bytes n x : 0 <= x < 2 ^ (8 * Z.of_nat n) ->
  of_bytes (to_bytes n x) = x /\ Forall (in_uw 8) (to_bytes n x) /\ length (to_bytes n x) = n.
Proof.
  revert x. induction n as [|n IH]; intros x Hx; [simpl in *; repeat split; auto; lia|].
  replace (8 * Z.of_nat (S n)) with (8 * Z.of_nat n + 8) in Hx by lia.
  destruct (IH (Z.shiftr x 8)) as (E & F & L); [apply shiftr_lt; lia|].
  simpl. rewrite E, L. repeat split; [|constructor; [apply uw_range; lia|done]].
  rewrite Z.shiftr_div_pow2 by lia. unfold uw. pose proof (Z.div_mod x (2 ^ 8)). lia.
Qed.

Lemma testbit_digit k d x i : 0 <= k -> in_uw k d ->
  Z.testbit (d + 2 ^ k * x) i = if i <? k then Z.testbit d i else Z.testbit x (i - k).
Proof.
  intros Hk Hd. rewrite Z.add_comm, Z.mul_comm, <- Z.shiftl_mul_pow2 by lia.
  rewrite Z.add_nocarry_lxor.
  - destruct (Z.leb_spec 0 i); [|rewrite !testbit_neg by lia; by destruct (i <? k)].
    rewrite Z.lxor_spec, Z.shiftl_spec by lia. zbits_cases; zbits_high;
      [apply xorb_false_l|apply xorb_false_r].
  - apply Z.bits_inj'. intros j Hj. autorewrite with zbits.
    destruct (Z.ltb_spec j k); zbits_high; [done|apply andb_false_r].
Qed.

(** Masked shifts act on the digits separately when the mask clears the bits
    that come from the digit above. *)
Lemma land_shiftr_digit k j d x m M : 0 <= j <= k -> in_uw k d -> in_uw (k - j) m ->
  Z.land (Z.shiftr (d + 2 ^ k * x) j) (m + 2 ^ k * M) =
  Z.land (Z.shiftr d j) m + 2 ^ k * Z.land (Z.shiftr x j) M.
Proof.
  intros Hj Hd Hm. apply Z.bits_inj'. intros i Hi.
  assert (Hmk : in_uw k m) by (eapply in_uw_mono; [|done]; lia).
  rewrite testbit_digit; [|lia|by apply uw_land_r; [lia|]].
  rewrite !Z.land_spec, !testbit_digit, Z.shiftr_spec, testbit_digit by (auto; lia).
  zbits_cases; autorewrite with zbits; zbits_high; rewrite ?andb_false_r; try done;
    f_equal; f_equal; lia.
Qed.

Lemma land_shiftr_bytes j m l : 0 <= j <= 8 -> in_uw (8 - j) m -> Forall (in_uw 8) l ->
  Z.land (Z.shiftr (of_bytes l) j) (of_bytes (replicate (length l) m)) =
  of_bytes (map (fun d => Z.land (Z.shiftr d j) m) l).
Proof.
  intros Hj Hm. induction 1 as [|d l Hd Hl IH]; simpl; [apply Z.land_0_r|].
  rewrite <- IH. apply land_shiftr_digit; [lia|done|done].
Qed.

Lemma of_bytes_map2 (f g : Z -> Z) l : of_bytes (map f l) + of_bytes (map g l) =
  of_bytes (map (fun d => f d + g d) l).
Proof. induction l; simpl; lia. Qed.

Lemma of_bytes_sub (f g : Z -> Z) l : of_bytes (map f l) - of_bytes (map g l) =
  of_bytes (map (fun d => f d - g d) l).
Proof. induction l; simpl; lia. Qed.

Lemma of_bytes_range l : Forall (in_uw 8) l -> length l = 8%nat -> in_uw 64 (of_bytes l).
Proof.
  intros H Hl. do 8 (destruct l as [|? l]; [done|]). destruct l; [|done].
  unfold in_uw in *. repeat (inversion H as [|? ? ? H']; subst; clear H; rename H' into H).
  simpl. lia.
Qed.

(** The step that adds the nibbles of each byte; no byte carries as every
    nibble is at most 4. *)
Lemma nibble_sum_bytes l :
  Forall (fun d => 0 <= d /\ d mod 16 <= 4 /\ d / 16 <= 4) l ->
  Z.land (of_bytes l + Z.shiftr (of_bytes l) 4) (of_bytes (replicate (length l) 15)) =
  of_bytes (map (fun d => d mod 16 + d / 16) l) /\ of_bytes l mod 16 <= 4.
Proof.
  induction 1 as [|d l (H0 & Hl & Hh) _ [IH Hx]]; [done|]. simpl of_bytes.
  set (X := of_bytes l) in *. set (M := of_bytes (replicate (length l) 15)) in *.
  split; [|change (2 ^ 8) with (16 * 16); rewrite <- Z.mul_assoc, Z.mul_comm,
    Z.mod_add by lia; lia].
  rewrite Z.shiftr_div_pow2 in * by lia. change (2 ^ 4) with 16 in *.
  change (2 ^ 8) with 256.
  pose proof (Z.div_mod d 16). pose proof (Z.div_mod X 16).
  pose proof (Z.mod_pos_bound d 16). pose proof (Z.mod_pos_bound X 16).
  assert (E : d + 256 * X + (d + 256 * X) / 16 =
    (d mod 16 + d / 16 + 16 * (d / 16 + X mod 16)) + 2 ^ 8 * (X + X / 16)).
  { replace ((d + 256 * X) / 16) with (d / 16 + 16 * X); [change (2 ^ 8) with 256; lia|].
    replace (d + 256 * X) with (d + 16 * X * 16) by lia. by rewrite Z.div_add. }
  rewrite E. replace (Z.land _ _) with (Z.land (d mod 16 + d / 16) 15 + 2 ^ 8 *
    Z.land (X + X / 16) M).
  - rewrite IH. change 15 with (2 ^ 4 - 1). rewrite land_ones_uw by lia.
    rewrite uw_small by (split; lia). simpl of_bytes. lia.
  - apply Z.bits_inj'. intros i Hi.
    assert (in_uw 8 (d mod 16 + d / 16 + 16 * (d / 16 + X mod 16))) by (split; lia).
    assert (in_uw 4 (d mod 16 + d / 16)) by (split; lia).
    assert (in_uw 8 15) by (split; lia).
    assert (in_uw 8 (Z.land (d mod 16 + d / 16) 15)) by (apply uw_land_r; [lia|done]).
    change (15 + 256 * M) with (15 + 2 ^ 8 * M).
    rewrite Z.land_spec, !testbit_digit by (lia || done).
    destruct (Z.ltb_spec i 8); [|by rewrite Z.land_spec].
    rewrite Z.land_spec. change (16 * (?x)) with (2 ^ 4 * x).
    rewrite testbit_digit by (lia || done).
    destruct (Z.ltb_spec i 4); [done|]. change 15 with (2 ^ 4 - 1).
    rewrite testbit_pow2_pred by lia. zbits_cases.
Qed.

(** The three counting steps on one byte. *)
Definition bc1 (d : Z) : Z := d - Z.land (Z.shiftr d 1) 0x55.
Definition bc2 (d : Z) : Z := Z.land (Z.shiftr d 0) 0x33 + Z.land (Z.shiftr d 2) 0x33.
Definition bc3 (d : Z) : Z := d mod 16 + d / 16.

Definition byte_ok (d : Z) : bool :=
  let d1 := bc1 d in let d2 := bc2 d1 in
  (0 <=? d1) && (d1 <? 256) && (0 <=? d2) && (d2 <? 256) &&
  (d2 mod 16 <=? 4) && (d2 / 16 <=? 4) && (bc3 d2 =? popCount d) && (bc3 d2 <=? 8).

(** Every byte value, checked exhaustively. *)
Lemma byte_all_ok d : in_uw 8 d ->
  in_uw 8 (bc1 d) /\ in_uw 8 (bc2 (bc1 d)) /\ bc2 (bc1 d) mod 16 <= 4 /\
  bc2 (bc1 d) / 16 <= 4 /\ bc3 (bc2 (bc1 d)) = popCount d /\ bc3 (bc2 (bc1 d)) <= 8.
Proof.
  intros Hd. assert (forallb byte_ok (map Z.of_nat (seq 0 256)) = true) as Hall
    by (vm_compute; reflexivity).
  rewrite forallb_forall in Hall. specialize (Hall d). unfold byte_ok in Hall.
  rewrite !andb_true_iff, !Z.leb_le, !Z.ltb_lt, Z.eqb_eq in Hall.
  unfold in_uw in *. change (2 ^ 8) with 256 in *.
  assert (In d (map Z.of_nat (seq 0 256))) as Hin; [|apply Hall in Hin; intuition].
  apply in_map_iff. exists (Z.to_nat d). rewrite in_seq, Z2Nat.id by lia. lia.
Qed.

Lemma popCount_of_bytes l : Forall (in_uw 8) l ->
  popCount (of_bytes l) = fold_right Z.add 0 (map popCount l).
Proof.
  induction 1 as [|d l Hd Hl IH]; [done|]. simpl of_bytes.
  rewrite popCount_split by (auto using of_bytes_nonneg; lia). simpl. lia.
Qed.

Lemma popCount_steps12 l : Forall (in_uw 8) l -> length l = 8%nat ->
  let v1 := u64 (of_bytes l - Z.land (Z.shiftr (of_bytes l) 1) 0x5555555555555555) in
  u64 (Z.land v1 0x3333333333333333 + Z.land (Z.shiftr v1 2) 0x3333333333333333)
  = of_bytes (map bc2 (map bc1 l)).
Proof.
  intros Hl Hn. assert (H1 : Forall (in_uw 8) (map bc1 l)).
  { apply Forall_map. eapply Forall_impl; [exact Hl|]. intros d Hd. by apply byte_all_ok. }
  assert (u64 (of_bytes l - Z.land (Z.shiftr (of_bytes l) 1) 0x5555555555555555)
          = of_bytes (map bc1 l)) as ->.
  { change 0x5555555555555555 with (of_bytes (replicate 8 0x55)). rewrite <- Hn.
    rewrite land_shiftr_bytes by (lia || done || (split; lia)).
    rewrite <- (map_id l) at 1. rewrite of_bytes_sub. apply uw_small, of_bytes_range; [done|].
    by rewrite length_map. }
  cbv zeta. change 0x3333333333333333 with (of_bytes (replicate 8 0x33)).
  assert (Hn1 : length (map bc1 l) = 8%nat) by by rewrite length_map.
  rewrite <- Hn1. rewrite <- (Z.shiftr_0_r (of_bytes (map bc1 l))) at 1.
  rewrite !land_shiftr_bytes by (lia || done || (split; lia)).
  rewrite of_bytes_map2. apply uw_small, of_bytes_range; [|by rewrite length_map].
  rewrite map_map. apply Forall_map. eapply Forall_impl; [exact Hl|].
  intros d Hd. by apply byte_all_ok.
Qed.

(** The horizontal sum: multiplying by 0x0101... adds all bytes into the top one. *)
Lemma horizontal_sum l : Forall (fun d => 0 <= d <= 8) l -> length l = 8%nat ->
  Z.shiftr (u64 (of_bytes l * 0x0101010101010101)) 56 = fold_right Z.add 0 l.
Proof.
  intros H Hl. rewrite Z.shiftr_div_pow2 by lia.
  do 8 (destruct l as [|? l]; [done|]). destruct l; [|done].
  repeat (inversion H as [|? ? ? H']; subst; clear H; rename H' into H). clear Hl.
  cbn [of_bytes fold_right]. unfold uw.
  set (q := z0 + z1 + z2 + z3 + z4 + z5 + z6 + 2 ^ 8 * (z1 + z2 + z3 + z4 + z5 + z6)
     + 2 ^ 16 * (z2 + z3 + z4 + z5 + z6) + 2 ^ 24 * (z3 + z4 + z5 + z6)
     + 2 ^ 32 * (z4 + z5 + z6) + 2 ^ 40 * (z5 + z6) + 2 ^ 48 * z6).
  set (r := z + 2 ^ 8 * (z + z0) + 2 ^ 16 * (z + z0 + z1) + 2 ^ 24 * (z + z0 + z1 + z2)
     + 2 ^ 32 * (z + z0 + z1 + z2 + z3) + 2 ^ 40 * (z + z0 + z1 + z2 + z3 + z4)
     + 2 ^ 48 * (z + z0 + z1 + z2 + z3 + z4 + z5)).
  set (s := z + (z0 + (z1 + (z2 + (z3 + (z4 + (z5 + (z6 + 0)))))))).
  rewrite <- (Z.mod_unique _ (2 ^ 64) q (2 ^ 56 * s + r)); unfold q, r, s in *; [|lia|lia].
  symmetry. eapply Z.div_unique; [|reflexivity]. lia.
Qed.

Lemma of_bytes_le c l : Forall (fun d => 0 <= d <= c) l ->
  0 <= of_bytes l <= of_bytes (replicate (length l) c).
Proof. induction 1 as [|d l]; cbn [of_bytes replicate length]; lia. Qed.

(** The portable bit-twiddling [popCount] counts exactly the set bits, for
    every 64-bit word. *)
Theorem popCountPortable_correct val : in_uw 64 val ->
  popCountPortable val = popCount val.
Proof.
  intros Hv. destruct (of_to_bytes 8 val Hv) as (E & F & L).
  set (l := to_bytes 8 val) in *. rewrite <- E. unfold popCountPortable.
  rewrite (popCount_steps12 l F L), popCount_of_bytes by done.
  set (l2 := map bc2 (map bc1 l)).
  assert (H2 : Forall (fun d => 0 <= d /\ d mod 16 <= 4 /\ d / 16 <= 4 /\ bc3 d <= 8) l2).
  { unfold l2. rewrite map_map. apply Forall_map. eapply Forall_impl; [exact F|].
    intros d Hd. destruct (byte_all_ok d Hd) as (? & [? ?] & ? & ? & ? & ?). auto. }
  assert (L2 : length l2 = 8%nat) by (unfold l2; by rewrite !length_map).
  rewrite (uw_small 64 (of_bytes l2 + _)).
  2: { destruct (of_bytes_le 68 l2) as [? Hle].
    { eapply Forall_impl; [exact H2|]. intros d (? & ? & ? & ?).
      pose proof (Z.div_mod d 16). lia. }
    rewrite L2 in Hle. cbn [of_bytes replicate] in Hle. rewrite Z.shiftr_div_pow2 by lia.
    pose proof (Z.div_pos (of_bytes l2) (2 ^ 4)). pose proof (Z.div_le_upper_bound
      (of_bytes l2) (2 ^ 4) (of_bytes l2)). unfold in_uw. lia. }
  change 0x0f0f0f0f0f0f0f0f with (of_bytes (replicate 8 15)). rewrite <- L2.
  rewrite (proj1 (nibble_sum_bytes l2 ltac:(eapply Forall_impl; [exact H2|]; intros ? (?&?&?&?); auto))).
  rewrite horizontal_sum; [|apply Forall_map; eapply Forall_impl; [exact H2|]|by rewrite length_map].
  - unfold l2. rewrite !map_map. f_equal. apply map_ext_Forall.
    eapply Forall_impl; [exact F|]. intros d Hd. by apply byte_all_ok.
  - intros d (? & ? & ? & H8). split; [|exact H8].
    pose proof (Z.mod_pos_bound d 16). pose proof (Z.div_pos d 16). lia.
Qed.

(** ** Rounding to a power of two *)

(** [x] has bit [i] set when [v] has one of the bits [i .. i + m - 1] set. *)
Definition smeared (v x : Z) (m : Z) : Prop :=
  0 <= x /\ forall i, 0 <= i -> Z.testbit x i = true <-> exists j, 0 <= j < m /\ Z.testbit v (i + j) = true.

Lemma smeared_step v x m : 0 < m -> smeared v x m -> smeared v (Z.lor x (Z.shiftr x m)) (m + m).
Proof.
  intros Hm [H0 Hs].
  split; [by apply Z.lor_nonneg; split; [|apply Z.shiftr_nonneg]|].
  intros i Hi. rewrite Z.lor_spec, Z.shiftr_spec, orb_true_iff, (Hs i Hi), (Hs (i + m)) by lia. split.
  - intros [(j & Hj & Hb) | (j & Hj & Hb)].
    + exists j. split; [lia|done].
    + exists (m + j). split; [lia|]. by rewrite Z.add_assoc.
  - intros (j & Hj & Hb). destruct (Z.ltb_spec j m).
    + left. exists j. split; [lia|done].
    + right. exists (j - m). split; [lia|]. by replace (i + m + (j - m)) with (i + j) by lia.
Qed.

Lemma smeared_all v x : in_uw 64 v -> 0 < v -> smeared v x 64 ->
  x = 2 ^ Z.succ (Z.log2 v) - 1.
Proof.
  intros Hv H0 [Hx Hs]. apply Z.bits_inj'. intros i Hi.
  rewrite testbit_pow2_pred by (pose proof (Z.log2_nonneg v); lia).
  apply eq_bool_prop_intro. rewrite !Is_true_true, (Hs i Hi).
  rewrite andb_true_iff, Z.leb_le, Z.ltb_lt. split.
  - intros (j & Hj & Hb). split; [done|]. apply Z.nle_gt. intros Hle.
    rewrite Z.bits_above_log2 in Hb by lia. done.
  - intros [_ Hlt]. exists (Z.log2 v - i). unfold in_uw in Hv.
    assert (Z.log2 v < 64) by (apply Z.log2_lt_pow2; lia). split; [lia|].
    replace (i + (Z.log2 v - i)) with (Z.log2 v) by lia. by apply Z.bit_log2.
Qed.

(** [alignToPowerOfTwo] returns the least power of two that is not below its
    argument; it returns 0 on 0, and wraps to 0 when that power is 2^64. *)
Theorem alignToPowerOfTwo_correct val : in_uw 64 val ->
  alignToPowerOfTwo val =
    if (val =? 0) || (2 ^ 63 <? val) then 0 else 2 ^ Z.log2_up val.
Proof.
  intros Hv. unfold in_uw in Hv. unfold alignToPowerOfTwo.
  destruct (Z.eqb_spec val 0) as [->|Hne]; [by vm_compute|].
  rewrite (uw_small 64 (val - 1)) by (split; lia).
  destruct (Z.eqb_spec val 1) as [->|Hne1]; [by vm_compute|].
  set (v := val - 1).
  assert (smeared v v 1) as H1.
  { split; [lia|]. intros i Hi. split; [intros Hb; exists 0; by rewrite Z.add_0_r; auto with lia|].
    intros (j & Hj & Hb). by replace (i + j) with i in Hb by lia. }
  pose proof (smeared_step _ _ 1 ltac:(lia) H1) as H2.
  pose proof (smeared_step _ _ 2 ltac:(lia) H2) as H3.
  pose proof (smeared_step _ _ 4 ltac:(lia) H3) as H4.
  pose proof (smeared_step _ _ 8 ltac:(lia) H4) as H5.
  pose proof (smeared_step _ _ 16 ltac:(lia) H5) as H6.
  pose proof (smeared_step _ _ 32 ltac:(lia) H6) as H7. cbv zeta.
  change (32 + 32) with 64 in H7. set (x := Z.lor _ (Z.shiftr _ 32)) in *.
  apply smeared_all in H7; [|split; lia|lia]. rewrite H7, Z.sub_add.
  clear -Hv Hne Hne1. assert (E : Z.log2_up val = Z.succ (Z.log2 v)).
  { rewrite Z.log2_up_eqn by lia. unfold v. by rewrite Z.sub_1_r. }
  rewrite E. simpl orb. destruct (Z.ltb_spec (2 ^ 63) val).
  - assert (Z.log2 v = 63) as -> by (apply Z.log2_unique; lia). done.
  - assert (Z.log2 v < 63) by (apply Z.log2_lt_pow2; lia).
    pose proof (Z.log2_nonneg v). apply uw_small.
    split; [apply Z.pow_nonneg; lia|apply Z.pow_lt_mono_r; lia].
Qed.

(** ** Bit reversal *)

Lemma reverse_table_ok d : in_uw 8 d -> exists r,
  reverseBitsLookUpTable !! Z.to_nat d = Some r /\ in_uw 8 r /\
  forall i, 0 <= i < 8 -> Z.testbit r i = Z.testbit d (7 - i).
Proof.
  intros Hd.
  set (ok := fun n : nat => match reverseBitsLookUpTable !! n with
    | Some r => (0 <=? r) && (r <? 256) && forallb (fun i =>
        Bool.eqb (Z.testbit r i) (Z.testbit (Z.of_nat n) (7 - i))) [0;1;2;3;4;5;6;7]
    | None => false end).
  assert (forallb ok (seq 0 256) = true) as Hall by (vm_compute; reflexivity).
  rewrite forallb_forall in Hall. unfold in_uw in *. change (2 ^ 8) with 256 in *.
  specialize (Hall (Z.to_nat d) ltac:(rewrite in_seq; lia)). unfold ok in Hall.
  destruct (_ !! _) as [r|]; [|done]. exists r.
  rewrite !andb_true_iff, Z.leb_le, Z.ltb_lt, forallb_forall, Z2Nat.id in Hall by lia.
  destruct Hall as [[? ?] Hb]. repeat split; auto. intros i Hi.
  apply eqb_prop, Hb. assert (i = 0 \/ i = 1 \/ i = 2 \/ i = 3 \/ i = 4 \/ i = 5 \/
    i = 6 \/ i = 7) by lia. simpl. intuition.
Qed.

Lemma reverseBits_loop_spec w size out val :
  8 * Z.of_nat size <= w -> in_uw (w - 8 * Z.of_nat size) out -> 0 <= val ->
  exists r, reverseBits_loop w size out val = Ok r /\ in_uw w r /\
    forall i, 0 <= i -> Z.testbit r i =
      if i <? 8 * Z.of_nat size then Z.testbit val (8 * Z.of_nat size - 1 - i)
      else Z.testbit out (i - 8 * Z.of_nat size).
Proof.
  revert out val. induction size as [|n IH]; intros out val Hw Hout Hval.
  - exists out. split; [done|]. rewrite Z.sub_0_r in Hout. split; [done|].
    intros i Hi. change (8 * Z.of_nat 0) with 0. rewrite Z.sub_0_r. by zbits_cases.
  - cbn [reverseBits_loop]. change (mask 8) with (2 ^ 8 - 1). rewrite land_ones_uw by lia.
    destruct (reverse_table_ok (uw 8 val)) as (t & -> & Ht & Htb); [apply uw_range; lia|].
    assert (Hs : uw w (Z.shiftl out 8) = Z.shiftl out 8).
    { apply uw_small. unfold in_uw in *. rewrite Z.shiftl_mul_pow2 by lia.
      pose proof (Z.pow_add_r 2 (w - 8 * Z.of_nat (S n)) 8).
      pose proof (Z.pow_le_mono_r 2 (w - 8 * Z.of_nat (S n) + 8) w). lia. }
    rewrite Hs. destruct (IH (Z.lor (Z.shiftl out 8) t) (Z.shiftr val 8)) as (r & E & Hr & Hb).
    + lia.
    + apply in_uw_bits; [lia|apply Z.lor_nonneg; split; [apply Z.shiftl_nonneg|]; apply Hout || apply Ht|].
      intros i Hi. autorewrite with zbits. zbits_high. done.
    + by apply Z.shiftr_nonneg.
    + exists r. split; [done|]. split; [done|]. intros i Hi. rewrite Hb by done.
      destruct (Z.ltb_spec i (8 * Z.of_nat n)), (Z.ltb_spec i (8 * Z.of_nat (S n))); try lia.
      * rewrite Z.shiftr_spec by lia. f_equal. lia.
      * autorewrite with zbits. zbits_high. rewrite Htb, testbit_uw by lia.
        rewrite orb_false_l. zbits_cases. rewrite andb_true_l. f_equal. lia.
      * autorewrite with zbits. zbits_high. rewrite orb_false_r. f_equal. lia.
Qed.

(** [reverseBits(val, size)]: bit [i] of the result is bit [8 * size - 1 - i]
    of the argument, and the bits above the mirrored bytes are zero. *)
Theorem reverseBits_correct (sz : nat) val (size : nat) :
  sz = 1%nat /\ size = 1%nat \/ sz = 2%nat \/ sz = 4%nat \/ sz = 8%nat ->
  (size <= sz)%nat -> in_uw (8 * Z.of_nat sz) val ->
  exists r, reverseBits sz val size = Ok r /\ in_uw (8 * Z.of_nat size) r /\
    forall i, 0 <= i < 8 * Z.of_nat size ->
      Z.testbit r i = Z.testbit val (8 * Z.of_nat size - 1 - i).
Proof.
  intros Hsz Hle Hv. unfold reverseBits.
  destruct (Nat.leb_spec size sz); [|lia]. rewrite check_true, bind_Ok.
  destruct (Nat.eqb_spec sz 1) as [->|Hne].
  - assert (size = 1%nat) as -> by lia. destruct (reverse_table_ok val Hv) as (r & -> & Hr & Hb).
    by exists r.
  - destruct (reverseBits_loop_spec (8 * Z.of_nat sz) size 0 val) as (r & E & Hr & Hb);
      [lia|split; [lia|apply pow2_pos; lia]|apply Hv|].
    exists r. split; [done|]. split; [|intros i Hi; rewrite Hb by lia; zbits_cases; done].
    apply in_uw_bits; [lia|apply Hr|]. intros i Hi. rewrite Hb by lia.
    zbits_cases. apply Z.testbit_0_l.
Qed.

(** ** Integer logarithms *)

Export IntMath.

Lemma log_step_spec k m y x : 0 < k -> m = Z.shiftl (2 ^ k - 1) k -> 0 < x < 2 ^ (k + k) ->
  exists y' x', log_step true m k (y, x) = (y', x') /\ 0 < x' < 2 ^ k /\
    y' + Z.log2 x' = y + Z.log2 x.
Proof.
  intros Hk -> Hx. unfold log_step. cbn [fst snd].
  assert (E : Z.land x (Z.shiftl (2 ^ k - 1) k) = Z.shiftl (Z.shiftr x k) k).
  { assert (in_uw (k + k) x) by (split; lia). zbits. }
  pose proof (shiftr_lt x k k ltac:(lia) ltac:(lia) ltac:(lia)) as Hs.
  pose proof (pow2_pos k ltac:(lia)).
  rewrite E, Z.shiftl_mul_pow2 by lia.
  destruct (Z.eqb_spec (Z.shiftr x k * 2 ^ k) 0) as [E0|E0]; simpl.
  - eexists _, _. split; [done|]. assert (Z.shiftr x k = 0) as H0 by nia.
    apply shiftr_zero_iff in H0; lia.
  - eexists _, _. split; [done|]. assert (Z.shiftr x k <> 0) as Hn by nia.
    split; [lia|]. rewrite shiftr_zero_iff in Hn by lia. rewrite (log2_shiftr x k); lia.
Qed.

Lemma log_tail_spec y x : 0 < x < 2 ^ 8 ->
  (log_step true 2 1 (log_step true 12 2 (log_step true 240 4 (y, x)))).1 = y + Z.log2 x.
Proof.
  intros Hx.
  destruct (log_step_spec 4 240 y x) as (y1 & x1 & -> & B1 & L1); [lia|done|done|].
  destruct (log_step_spec 2 12 y1 x1) as (y2 & x2 & -> & B2 & L2); [lia|done|done|].
  destruct (log_step_spec 1 2 y2 x2) as (y3 & x3 & -> & B3 & L3); [lia|done|done|].
  cbn [fst]. assert (x3 = 1) as -> by lia. change (Z.log2 1) with 0 in L3. lia.
Qed.

Lemma floorLog2_log2 ts x : ts = 1 \/ ts = 2 \/ ts = 4 \/ ts = 8 ->
  0 < x < 2 ^ (8 * ts) -> floorLog2 ts x = Ok (Z.log2 x).
Proof.
  intros Hts Hx. unfold floorLog2. destruct (Z.ltb_spec 0 x); [|lia].
  rewrite check_true, bind_Ok. f_equal.
  assert (Hskip : forall m k s, log_step false m k s = s) by done.
  destruct Hts as [-> | [-> | [-> | ->]]]; leb_compute; rewrite ?Hskip.
  - apply log_tail_spec; lia.
  - destruct (log_step_spec 8 0xff00 0 x) as (y1 & x1 & -> & B1 & L1); [lia|done|lia|].
    rewrite log_tail_spec; lia.
  - destruct (log_step_spec 16 0xffff0000 0 x) as (y1 & x1 & -> & B1 & L1); [lia|done|lia|].
    destruct (log_step_spec 8 0xff00 y1 x1) as (y2 & x2 & -> & B2 & L2); [lia|done|lia|].
    rewrite log_tail_spec; lia.
  - destruct (log_step_spec 32 0xffffffff00000000 0 x) as (y1 & x1 & -> & B1 & L1); [lia|done|lia|].
    destruct (log_step_spec 16 0xffff0000 y1 x1) as (y2 & x2 & -> & B2 & L2); [lia|done|lia|].
    destruct (log_step_spec 8 0xff00 y2 x2) as (y3 & x3 & -> & B3 & L3); [lia|done|lia|].
    rewrite log_tail_spec; lia.
Qed.

(** [floorLog2] and [ceilLog2] of a positive value of any unsigned width are
    the integer logarithms that bracket it; on zero they stop at the assertion. *)
Theorem floorLog2_ceilLog2_correct ts x : ts = 1 \/ ts = 2 \/ ts = 4 \/ ts = 8 ->
  0 <= x < 2 ^ (8 * ts) ->
  if x =? 0 then floorLog2 ts x = Err AssertFail /\ ceilLog2 ts x = Err AssertFail
  else exists f c, floorLog2 ts x = Ok f /\ ceilLog2 ts x = Ok c /\
    2 ^ f <= x < 2 ^ (f + 1) /\ x <= 2 ^ c /\ (forall k, 0 <= k -> x <= 2 ^ k -> c <= k).
Proof.
  intros Hts Hx. destruct (Z.eqb_spec x 0) as [->|Hne]; [done|].
  exists (Z.log2 x), (Z.log2_up x). rewrite floorLog2_log2 by (auto; lia).
  split; [done|]. assert (ceilLog2 ts x = Ok (Z.log2_up x)) as ->.
  { unfold ceilLog2. destruct (Z.ltb_spec 0 x); [|lia]. rewrite check_true, bind_Ok.
    destruct (Z.eqb_spec x 1) as [->|]; [done|].
    rewrite floorLog2_log2, bind_Ok, Z.log2_up_eqn, <- Z.sub_1_r by (auto; lia).
    f_equal; lia. }
  split; [done|]. split; [apply Z.log2_spec; lia|]. split.
  - destruct (Z.eq_dec x 1) as [->|]; [done|]. apply Z.log2_up_spec. lia.
  - intros k Hk Hle. apply Z.log2_up_le_pow2; lia.
Qed.

(** ** Powers of two and alignment *)

Lemma isPowerOf2_spec n : in_uw 64 n -> isPowerOf2 n = true <-> exists k, 0 <= k < 64 /\ n = 2 ^ k.
Proof.
  intros Hn. unfold isPowerOf2, in_uw in *.
  destruct (Z.eqb_spec n 0) as [->|Hne]; simpl.
  - split; [done|]. intros (k & Hk & E). pose proof (pow2_pos k). lia.
  - rewrite (uw_small 64) by (split; lia). rewrite Z.eqb_eq. split.
    + intros E. exists (Z.log2 n). pose proof (Z.log2_nonneg n).
      split; [split; [lia|apply Z.log2_lt_pow2; lia]|].
      destruct (Z.log2_spec n) as [Hl Hu]; [lia|].
      destruct (Z.eq_dec n (2 ^ Z.log2 n)) as [?|Hd]; [done|exfalso].
      assert (Z.log2 (n - 1) = Z.log2 n) as El by (apply Z.log2_unique; lia).
      apply (f_equal (fun x => Z.testbit x (Z.log2 n))) in E.
      rewrite Z.land_spec, Z.testbit_0_l, Z.bit_log2 in E by lia.
      rewrite <- El, Z.bit_log2 in E by lia. done.
    + intros (k & Hk & ->). change (2 ^ k - 1) with (2 ^ k - 1). rewrite land_ones_uw by lia.
      apply Z.mod_same. pose proof (pow2_pos k). lia.
Qed.

Lemma land_unot_low x k : in_uw 64 x -> 0 <= k <= 64 ->
  Z.land x (unot 64 (2 ^ k - 1)) = x - x mod 2 ^ k.
Proof.
  intros Hx Hk. replace (x - x mod 2 ^ k) with (Z.shiftl (Z.shiftr x k) k).
  - zbits.
  - rewrite Z.shiftl_mul_pow2, Z.shiftr_div_pow2 by lia.
    pose proof (Z.div_mod x (2 ^ k)). pose proof (pow2_pos k). lia.
Qed.

(** [roundDown] and [roundUp] to an alignment that is a power of two give the
    nearest multiples below and above; [roundUp] is the documented "smallest
    multiple not below" as long as that multiple fits in 64 bits, and any
    other alignment stops at the assertion. *)
Theorem roundUp_roundDown_correct val align :
  in_uw 64 val -> in_uw 64 align ->
  if isPowerOf2 align then
    exists d u, roundDown val align = Ok d /\ roundUp val align = Ok u /\
      d mod align = 0 /\ d <= val < d + align /\ u mod align = 0 /\
      (val + align <= 2 ^ 64 -> val <= u < val + align)
  else roundDown val align = Err AssertFail /\ roundUp val align = Err AssertFail.
Proof.
  intros Hv Ha. unfold roundUp, roundDown.
  destruct (isPowerOf2 align) eqn:Hp; [|done].
  apply isPowerOf2_spec in Hp as (k & Hk & ->); [|done].
  rewrite check_true, !bind_Ok. pose proof (pow2_pos k ltac:(lia)) as Hpos.
  unfold in_uw in *. rewrite (uw_small 64 (2 ^ k - 1)) by (split; lia).
  rewrite !land_unot_low by (try apply uw_range; lia || done).
  set (v' := u64 (val + (2 ^ k - 1))).
  assert (Hm : forall x, (x - x mod 2 ^ k) mod 2 ^ k = 0).
  { intros x. rewrite Zminus_mod_idemp_r, Z.sub_diag. done. }
  eexists _, _. split; [done|]. split; [done|].
  pose proof (Z.mod_pos_bound val (2 ^ k)). split; [apply Hm|]. split; [lia|].
  split; [apply Hm|]. intros Hle. unfold v'. rewrite (uw_small 64) by (split; lia).
  pose proof (Z.mod_pos_bound (val + (2 ^ k - 1)) (2 ^ k)). lia.
Qed.

(** ** Double-width multiplication *)

Lemma half_sum x y z : 0 <= x -> 0 <= y -> 0 <= z ->
  Z.shiftr x 1 + Z.shiftr y 1 + Z.shiftr z 1 +
  Z.shiftr (Z.land x 1 + Z.land y 1 + Z.land z 1) 1 = (x + y + z) / 2.
Proof.
  intros. assert (forall a, Z.land a 1 = a mod 2) as L by (intros a; by apply (Z.land_ones a 1)).
  rewrite !L. clear L.
  rewrite !Z.shiftr_div_pow2 by lia. change (2 ^ 1) with 2.
  pose proof (Z.div_mod x 2). pose proof (Z.div_mod y 2). pose proof (Z.div_mod z 2).
  apply Z.div_unique with ((x mod 2 + y mod 2 + z mod 2) mod 2).
  - left. apply Z.mod_pos_bound. lia.
  - pose proof (Z.div_mod (x mod 2 + y mod 2 + z mod 2) 2). lia.
Qed.

Lemma split32 x : in_uw 64 x -> let h := u32 (Z.shiftr x 32) in let l := u32 x in
  x = h * 2 ^ 32 + l /\ 0 <= h < 2 ^ 32 /\ 0 <= l < 2 ^ 32.
Proof.
  intros Hx h l. subst h l. pose proof (shiftr_lt x 32 32 ltac:(lia) ltac:(lia) Hx).
  rewrite (uw_small 32 (Z.shiftr x 32)) by done. rewrite Z.shiftr_div_pow2 in * by lia.
  unfold uw. pose proof (Z.div_mod x (2 ^ 32)). pose proof (Z.mod_pos_bound x (2 ^ 32)). lia.
Qed.

Lemma mul_high_word A a B b : 0 <= A < 2 ^ 32 -> 0 <= a < 2 ^ 32 -> 0 <= B < 2 ^ 32 ->
  0 <= b < 2 ^ 32 ->
  (A * 2 ^ 32 + a) * (B * 2 ^ 32 + b) / 2 ^ 64 =
  A * B + (a * b / 2 ^ 32 + A * b + a * B) / 2 ^ 32.
Proof.
  intros. set (s := a * b / 2 ^ 32 + A * b + a * B). symmetry.
  pose proof (Z.div_mod (a * b) (2 ^ 32)). pose proof (Z.mod_pos_bound (a * b) (2 ^ 32)).
  pose proof (Z.div_mod s (2 ^ 32)). pose proof (Z.mod_pos_bound s (2 ^ 32)).
  apply Z.div_unique with (s mod 2 ^ 32 * 2 ^ 32 + (a * b) mod 2 ^ 32); [left; lia|].
  change (2 ^ 64) with (2 ^ 32 * 2 ^ 32).
  assert (s = s / 2 ^ 32 * 2 ^ 32 + s mod 2 ^ 32) as Es by lia.
  assert (a * b = a * b / 2 ^ 32 * 2 ^ 32 + (a * b) mod 2 ^ 32) as Eab by lia.
  unfold s in Es at 1. nia.
Qed.

Lemma prod32 x y : 0 <= x < 2 ^ 32 -> 0 <= y < 2 ^ 32 ->
  0 <= x * y <= (2 ^ 32 - 1) * (2 ^ 32 - 1).
Proof. intros. split; [nia|apply Z.mul_le_mono_nonneg; lia]. Qed.

Lemma mulUnsignedManual_high a b : in_uw 64 a -> in_uw 64 b ->
  (mulUnsignedManual a b).1 = a * b / 2 ^ 64.
Proof.
  intros Ha Hb. destruct (split32 a Ha) as (Ea & HA & Hal).
  destruct (split32 b Hb) as (Eb & HB & Hbl). unfold mulUnsignedManual. cbn [fst].
  set (A := u32 (Z.shiftr a 32)) in *. set (al := u32 a) in *.
  set (B := u32 (Z.shiftr b 32)) in *. set (bl := u32 b) in *. clearbody A al B bl. subst a b.
  rewrite mul_high_word by done.
  pose proof (prod32 al bl Hal Hbl). pose proof (prod32 A bl HA Hbl).
  pose proof (prod32 al B Hal HB). pose proof (prod32 A B HA HB).
  rewrite !(uw_small 64 (_ * _)) by (split; lia).
  pose proof (shiftr_lt (al * bl) 32 32 ltac:(lia) ltac:(lia) ltac:(lia)) as Hc.
  rewrite (uw_small 32) by exact Hc. rewrite (Z.shiftr_div_pow2 (al * bl)) in * by lia.
  set (c1 := al * bl / 2 ^ 32) in *.
  pose proof (half_sum c1 (A * bl) (al * B) ltac:(lia) ltac:(lia) ltac:(lia)) as Hh.
  pose proof (Z.div_mod (c1 + A * bl + al * B) 2 ltac:(lia)).
  pose proof (Z.mod_pos_bound (c1 + A * bl + al * B) 2 ltac:(lia)).
  set (h := Z.shiftr c1 1 + Z.shiftr (A * bl) 1 + Z.shiftr (al * B) 1) in *.
  set (l := Z.shiftr (_ + _ + _) 1) in *.
  assert (0 <= h) by (unfold h; pose proof (proj2 (Z.shiftr_nonneg c1 1));
    pose proof (proj2 (Z.shiftr_nonneg (A * bl) 1));
    pose proof (proj2 (Z.shiftr_nonneg (al * B) 1)); lia).
  assert (0 <= l) by (unfold l; apply Z.shiftr_nonneg;
    pose proof (proj2 (Z.land_nonneg c1 1)); pose proof (proj2 (Z.land_nonneg (A * bl) 1));
    pose proof (proj2 (Z.land_nonneg (al * B) 1)); lia).
  rewrite (uw_small 64 h) by (split; lia). rewrite (uw_small 64 (h + l)) by (split; lia).
  rewrite Hh, Z.shiftr_div_pow2, Z.div_div by lia. change (2 * 2 ^ 31) with (2 ^ 32).
  apply uw_small. pose proof (Z.div_pos (c1 + A * bl + al * B) (2 ^ 32)).
  pose proof (Z.div_le_upper_bound (c1 + A * bl + al * B) (2 ^ 32) (2 ^ 33 - 2)). unfold in_uw. lia.
Qed.

Lemma mulUnsigned_eq a b : in_uw 64 a -> in_uw 64 b ->
  mulUnsigned a b = (a * b / 2 ^ 64, u64 (a * b)).
Proof.
  intros Ha Hb. assert (0 <= a * b <= (2 ^ 64 - 1) * (2 ^ 64 - 1)).
  { unfold in_uw in *. split; [nia|apply Z.mul_le_mono_nonneg; lia]. }
  unfold mulUnsigned. rewrite (uw_small 128) by (split; lia). f_equal.
  rewrite Z.shiftr_div_pow2 by lia. apply uw_small. split; [apply Z.div_pos; lia|].
  apply Z.div_lt_upper_bound; lia.
Qed.

(** C39: The portable 64 by 64 bit multiplication agrees with the one on 128-bit
    integers and computes the exact product: [high * 2^64 + low]. *)
Theorem mulUnsigned_correct a b : in_uw 64 a -> in_uw 64 b ->
  mulUnsignedManual a b = mulUnsigned a b /\
  (mulUnsigned a b).1 * 2 ^ 64 + (mulUnsigned a b).2 = a * b.
Proof.
  intros Ha Hb. pose proof (mulUnsigned_eq a b Ha Hb) as E.
  rewrite E. split.
  - rewrite (surjective_pairing (mulUnsignedManual a b)).
    rewrite mulUnsignedManual_high by done. done.
  - cbn [fst snd]. unfold uw. pose proof (Z.div_mod (a * b) (2 ^ 64)). lia.
Qed.

Lemma sub_mod_l x y n : (x mod n - y) mod n = (x - y) mod n.
Proof. apply Zminus_mod_idemp_l. Qed.

Lemma s64_as_u64 x : in_sw 64 x ->
  u64 x = x + (if x <? 0 then 2 ^ 64 else 0).
Proof.
  unfold in_sw, uw. simpl. intros Hx. destruct (Z.ltb_spec x 0).
  - symmetry. apply Z.mod_unique with (-1); lia.
  - rewrite Z.mod_small; lia.
Qed.

(** The portable signed multiplication agrees with the one on 128-bit
    integers, and its words denote the exact product. *)
Theorem mulSigned_correct a b : in_sw 64 a -> in_sw 64 b ->
  mulSignedManual a b = mulSigned a b /\
  (mulSigned a b).1 * 2 ^ 64 + u64 (mulSigned a b).2 = a * b.
Proof.
  intros Ha Hb. pose proof (Ha : - 2 ^ 63 <= a < 2 ^ 63).
  pose proof (Hb : - 2 ^ 63 <= b < 2 ^ 63).
  assert (Hab : - 2 ^ 126 <= a * b <= 2 ^ 126).
  { change (2 ^ 126) with (2 ^ 63 * 2 ^ 63). nia. }
  pose proof (Z.div_mod (a * b) (2 ^ 64) ltac:(lia)) as Hdm.
  pose proof (Z.mod_pos_bound (a * b) (2 ^ 64) ltac:(lia)) as Hm.
  assert (Hh : in_sw 64 (a * b / 2 ^ 64)) by (split; simpl; lia).
  assert (E : mulSigned a b = (a * b / 2 ^ 64, s64 (a * b))).
  { unfold mulSigned. rewrite (sw_small 128) by (try split; simpl; lia).
    rewrite Z.shiftr_div_pow2 by lia. by rewrite (sw_small 64 (_ / _)) by (done || lia). }
  rewrite E. split.
  - unfold mulSignedManual.
    rewrite (mulUnsigned_eq (u64 a) (u64 b)) by (apply uw_range; lia).
    set (h := u64 a * u64 b / 2 ^ 64). set (l := u64 (u64 a * u64 b)).
    assert (Hl : in_uw 64 l) by (apply uw_range; lia).
    assert (Hu : h * 2 ^ 64 + l = u64 a * u64 b)
      by (pose proof (Z.div_mod (u64 a * u64 b) (2 ^ 64)); unfold h, l, uw in *; lia).
    clearbody h l.
    rewrite !s64_as_u64 in Hu by done.
    set (al := if a <? 0 then 1 else 0). set (be := if b <? 0 then 1 else 0).
    assert (Hprod : h * 2 ^ 64 + l =
      a * b + (al * b + be * a + al * be * 2 ^ 64) * 2 ^ 64).
    { rewrite Hu. unfold al, be. destruct (a <? 0), (b <? 0); ring. }
    assert (El : l = (a * b) mod 2 ^ 64).
    { rewrite <- (uw_small 64 l Hl). unfold uw.
      replace l with (a * b + (al * b + be * a + al * be * 2 ^ 64 - h) * 2 ^ 64) by lia.
      by rewrite Z_mod_plus_full. }
    assert (Eh : h = a * b / 2 ^ 64 + (al * b + be * a + al * be * 2 ^ 64)) by lia.
    f_equal.
    + rewrite <- (sw_small 64 (a * b / 2 ^ 64)) by (done || lia). apply sw_cong; [lia|].
      rewrite Eh. generalize (a * b / 2 ^ 64) as q. intros q. clear. subst al be.
      rewrite <- (uw_add_mul 64 q ((if a <? 0 then 1 else 0) * (if b <? 0 then 1 else 0)))
        by lia. unfold uw.
      destruct (a <? 0), (b <? 0); rewrite ?sub_mod_l, ?Zmod_mod; f_equal; lia.
    + subst l. apply sw_cong; [lia|]. by apply uw_idemp.
  - cbn [fst snd].
    assert (u64 (s64 (a * b)) = u64 (a * b)) as ->.
    { unfold sw, uw. by rewrite Zminus_mod_idemp_l, Z.add_simpl_r. }
    unfold uw. lia.
Qed.

(** ** Instances of the theorems at concrete words *)

Lemma insertBits_bits_roundtrip_witness :
  exists r, insertBits 0xff00 7 4 0x5 = Ok r /\ bits r 7 4 = Ok 5 /\ bits r 15 8 = Ok 0xff.
Proof.
  destruct (insertBits_bits_roundtrip 0xff00 7 4 5) as (r & E & _ & Eb & Ho & _);
    [split; lia|lia|lia|].
  exists r. split; [done|]. split; [exact Eb|]. rewrite Ho by lia. reflexivity.
Defined.

Lemma sext_szext_spec_witness :
  szext 0x1f0 8 = Ok 0xfffffffffffffff0 /\ sext 0xf0 8 = Ok 0xfffffffffffffff0.
Proof.
  split.
  - exact (proj1 (sext_szext_spec 0x1f0 8 ltac:(split; lia) ltac:(lia))).
  - exact (proj2 (sext_szext_spec 0xf0 8 ltac:(split; lia) ltac:(lia)) ltac:(split; lia)).
Defined.

Lemma find_set_bits_correct_witness :
  exists m l, findMsbSet 0x2840 = Ok m /\ findLsbSetFallback 0x2840 = Ok l /\ 0 <= l <= m /\
    Z.testbit 0x2840 m = true.
Proof.
  destruct (find_set_bits_correct 0x2840 ltac:(lia)) as (m & l & Em & El & _ & _ & (H & _) & Hm & _).
  exists m, l. auto.
Defined.

Lemma popCountPortable_correct_witness : popCountPortable 0xf00f000000000001 = 9.
Proof. rewrite (popCountPortable_correct 0xf00f000000000001) by (split; lia). reflexivity. Defined.

Lemma alignToPowerOfTwo_correct_witness : alignToPowerOfTwo 100 = 128.
Proof. rewrite (alignToPowerOfTwo_correct 100) by (split; lia). reflexivity. Defined.

Lemma reverseBits_correct_witness :
  exists r, reverseBits 4 0x303 2 = Ok r /\ Z.testbit r 15 = true /\ Z.testbit r 0 = false.
Proof.
  destruct (reverseBits_correct 4 0x303 2) as (r & E & _ & Hb); [auto|lia|split; lia|].
  exists r. split; [done|]. rewrite !Hb by lia. done.
Defined.

Lemma floorLog2_ceilLog2_correct_witness :
  exists f c, floorLog2 4 1000 = Ok f /\ ceilLog2 4 1000 = Ok c /\ 2 ^ f <= 1000 <= 2 ^ c.
Proof.
  destruct (floorLog2_ceilLog2_correct 4 1000 ltac:(auto) ltac:(lia)) as (f & c & Ef & Ec & H & H' & _).
  exists f, c. repeat split; auto; lia.
Defined.

Lemma roundUp_roundDown_correct_witness :
  exists d u, roundDown 100 64 = Ok d /\ roundUp 100 64 = Ok u /\ d <= 100 <= u.
Proof.
  destruct (roundUp_roundDown_correct 100 64 ltac:(split; lia) ltac:(split; lia))
    as (d & u & Ed & Eu & _ & Hd & _ & Hu).
  exists d, u. lia || (repeat split; auto; lia).
Defined.

Lemma mulUnsigned_correct_witness :
  mulUnsignedManual (2 ^ 64 - 1) (2 ^ 64 - 1) = mulUnsigned (2 ^ 64 - 1) (2 ^ 64 - 1).
Proof. apply (mulUnsigned_correct (2 ^ 64 - 1) (2 ^ 64 - 1)); split; lia. Defined.

Lemma mulSigned_correct_witness :
  mulSignedManual (- 2 ^ 63) (2 ^ 63 - 1) = mulSigned (- 2 ^ 63) (2 ^ 63 - 1).
Proof. apply (mulSigned_correct (- 2 ^ 63) (2 ^ 63 - 1)); split; simpl; lia. Defined.
