(* ===== verification/AddrRange.v ===== *)
(** * Address ranges

    Model of src/gem5/src/base/addr_range.hh: (possibly interleaved) ranges of
    64-bit addresses, their set operations, and the removal and insertion of
    the interleaving bits. *)

From S2P Require Import Prelude Bits.

Module AddrRange.

(** [class AddrRange]: [_end] is not part of the range, each mask selects the
    bits that are xored into one bit of [sel]. *)
Record t := mk {
  _start : Z;
  _end : Z;
  masks : list Z;
  intlvMatch : Z;
}.

#[global] Instance t_eq_dec : EqDecision t.
Proof. solve_decision. Defined.

Definition size_masks (ms : list Z) : Z := Z.of_nat (length ms).

(** [AddrRange()]. *)
Definition mkDefault : t := mk 1 0 [] 0.

(** [AddrRange(_start, _end, _masks, _intlv_match)]. *)
Definition mkMasks (start end_ : Z) (ms : list Z) (match_ : Z) : result t :=
  if (0 <? size_masks ms) then
    let! lim := shl 64 1 (size_masks ms) in
    if lim <=? match_ then Err Fatal else Ok (mk start end_ ms match_)
  else Ok (mk start end_ ms match_).

(** The mask of loop iteration [i] of the legacy constructor. *)
Definition legacy_mask (intlv_high_bit xor_high_bit : Z) (i : nat) : result Z :=
  let bit1 := u8 (intlv_high_bit - Z.of_nat i) in
  let! mask := shl 64 1 bit1 in
  if negb (xor_high_bit =? 0) then
    let bit2 := u8 (xor_high_bit - Z.of_nat i) in
    let! m2 := shl 64 1 bit2 in
    Ok (Z.lor mask m2)
  else Ok mask.

(** [AddrRange(_start, _end, _intlv_high_bit, _xor_high_bit, _intlv_bits,
    _intlv_match)]; iteration [i] fills [masks[_intlv_bits - i - 1]]. *)
Definition mkLegacy (start end_ intlv_high_bit xor_high_bit : Z) (intlv_bits : nat)
    (match_ : Z) : result t :=
  let nbits := Z.of_nat intlv_bits in
  let! lim := (if 0 <? nbits then shl 64 1 nbits else Ok 0) in
  let! _ := check Fatal (negb ((0 <? nbits) && (lim <=? match_))) in
  let! _ :=
    (if (0 <? nbits) && negb (xor_high_bit =? 0) then
       if xor_high_bit =? intlv_high_bit then Err Fatal
       else if intlv_high_bit <? xor_high_bit then
         check Fatal (negb (xor_high_bit - intlv_high_bit <? nbits))
       else check Fatal (negb (intlv_high_bit - xor_high_bit <? nbits))
     else Ok tt) in
  let! ms := mapM_r (legacy_mask intlv_high_bit xor_high_bit) (seq 0 intlv_bits) in
  Ok (mk start end_ (rev ms) match_).

(** [AddrRange(_start, _end)]. *)
Definition mkRange (start end_ : Z) : t := mk start end_ [] 0.

Definition interleaved (r : t) : bool := 0 <? size_masks (masks r).

(** [size()]. *)
Definition size (r : t) : result Z := shr 64 (u64 (_end r - _start r)) (size_masks (masks r)).

(** [granularity()]: the masks are accumulated in an [int]. *)
Definition granularity (r : t) : result Z :=
  if interleaved r then
    let combined_mask := fold_left (fun c m => s32 (Z.lor (u64 c) m)) (masks r) 0 in
    let lowest_bit := u8 (ctz64 (u64 combined_mask)) in
    shl 64 1 lowest_bit
  else size r.

Definition stripes (r : t) : result Z :=
  let! s := shl 64 1 (size_masks (masks r)) in Ok (u32 s).

Definition valid (r : t) : bool := _start r <=? _end r.

(** [mergesWith]. *)
Definition mergesWith (self r : t) : bool :=
  (_start r =? _start self) && (_end r =? _end self) && bool_decide (masks r = masks self).

(** [AddrRange(Dummy, begin, end)], behind the constructors that merge a
    vector or a list of ranges. *)
Fixpoint merge_loop (self : t) (match_ : Z) (rs : list t) : result unit :=
  match rs with
  | [] => Ok tt
  | r :: rs =>
      let! _ := check Fatal (mergesWith self r) in
      let! _ := check Fatal (intlvMatch r =? match_) in
      merge_loop self (u8 (match_ + 1)) rs
  end.

Definition mkMerged (ranges : list t) : result t :=
  match ranges with
  | [] => Ok mkDefault
  | [r] => Ok r
  | r :: _ =>
      let! n := shl 64 1 (size_masks (masks r)) in
      let! _ := check Fatal (Z.of_nat (length ranges) =? n) in
      let! _ := merge_loop r 0 ranges in
      Ok (mk (_start r) (_end r) [] 0)
  end.

(** The loop of [contains]; [sel] is an int. *)
Fixpoint sel_loop (a : Z) (i : Z) (ms : list Z) (sel : Z) : result Z :=
  match ms with
  | [] => Ok sel
  | m :: ms =>
      let masked := Z.land a m in
      let! b := shl 32 (popCount masked mod 2) i in
      sel_loop a (i + 1) ms (Z.lor sel (s32 b))
  end.

Definition in_range (r : t) (a : Z) : bool := (_start r <=? a) && (a <? _end r).

Definition contains (r : t) (a : Z) : result bool :=
  if in_range r a then
    let! sel := sel_loop a 0 (masks r) 0 in Ok (sel =? intlvMatch r)
  else Ok false.

Definition intersects (self r : t) : result bool :=
  if (_end r <=? _start self) || (_end self <=? _start r) then Ok false
  else if negb (interleaved self) && negb (interleaved r) then Ok true
  else
    let! sz := size r in
    if sz =? 1 then contains self (_start r)
    else if mergesWith self r then Ok (intlvMatch self =? intlvMatch r)
    else Err Panic.

Definition isSubset (self r : t) : result bool :=
  if interleaved self then Err Panic
  else if interleaved r then
    let! c1 := contains r (_start self) in
    if negb c1 then Ok false else
    let! c2 := contains r (u64 (_end self - 1)) in
    if negb c2 then Ok false else
    let! s := size self in
    let! g := granularity r in
    Ok (s <=? g)
  else if _end self <=? _start self then
    Ok ((_start r <=? _start self) && (_end r =? 0))
  else if _end r <=? _start r then Ok (_start r <=? _start self)
  else Ok ((_start r <=? _start self) && (_end self <=? _end r)).

(** [masks_lsb], sorted. *)
Definition sorted_lsbs (r : t) : list Z := merge_sort Z.le (map ctz64 (masks r)).

(** One iteration of the loop of [removeIntlvBits]. *)
Definition remove_step (i intlv_bit a : Z) : result Z :=
  if 0 <? intlv_bit
  then insertBits (Z.shiftr a 1) (u32 (intlv_bit - i - 1)) 0 a
  else Ok (Z.shiftr a 1).

Fixpoint remove_loop (i : Z) (lsbs : list Z) (a : Z) : result Z :=
  match lsbs with
  | [] => Ok a
  | l :: lsbs => let! a' := remove_step i l a in remove_loop (i + 1) lsbs a'
  end.

Definition removeIntlvBits (r : t) (a : Z) : result Z :=
  if negb (interleaved r) then Ok a else remove_loop 0 (sorted_lsbs r) a.

(** The first loop of [addIntlvBits]. *)
Fixpoint add_loop (lsbs : list Z) (a : Z) : result Z :=
  match lsbs with
  | [] => Ok a
  | l :: lsbs =>
      let! a' := (if 0 <? l then insertBits (u64 (Z.shiftl a 1)) (u32 (l - 1)) 0 a
                  else Ok (u64 (Z.shiftl a 1))) in
      add_loop lsbs a'
  end.

(** [bits(intlvMatch, i)] at [T = uint8_t]: the value is promoted to int, and
    the mask of one bit is a 64-bit one. *)
Definition match_bit (match_ i : Z) : result Z :=
  let! v := shr 32 match_ i in Ok (u8 (Z.land v (mask 1))).

(** The second loop of [addIntlvBits]; [1 << lsb] is a shift of an int. *)
Fixpoint fix_loop (match_ : Z) (i : Z) (ms : list Z) (a : Z) : result Z :=
  match ms with
  | [] => Ok a
  | m :: ms =>
      let lsb := ctz64 m in
      let! intlv_bit := match_bit match_ i in
      let! one := shl 32 1 lsb in
      let masked := Z.land (Z.land a m) (u64 (Z.lnot (s32 one))) in
      let! a' := insertBit a lsb (Z.lxor intlv_bit (popCount masked)) in
      fix_loop match_ (i + 1) ms a'
  end.

Definition addIntlvBits (r : t) (a : Z) : result Z :=
  if negb (interleaved r) then Ok a else
  let! a' := add_loop (sorted_lsbs r) a in
  fix_loop (intlvMatch r) 0 (masks r) a'.

Definition MaxAddr : Z := 2 ^ 64 - 1.

Definition getOffset (r : t) (a : Z) : result Z :=
  if negb (in_range r a) then Ok MaxAddr
  else if interleaved r then
    let! x := removeIntlvBits r a in
    let! y := removeIntlvBits r (_start r) in
    Ok (u64 (x - y))
  else Ok (u64 (a - _start r)).

(** [operator<]. *)
Definition ltb (self r : t) : bool :=
  if negb (_start self =? _start r) then _start self <? _start r
  else if interleaved self && interleaved r then intlvMatch self <? intlvMatch r
  else interleaved self.

(** [operator==]. *)
Definition eqb (self r : t) : bool :=
  if negb (_start self =? _start r) then false
  else if negb (_end self =? _end r) then false
  else if negb (bool_decide (masks self = masks r)) then false
  else if negb (intlvMatch self =? intlvMatch r) then false
  else true.

(** [std::list::sort] is stable: insert each element after those it is not
    less than. *)
Fixpoint insert_sorted (x : t) (l : list t) : list t :=
  match l with
  | [] => [x]
  | y :: l' => if ltb x y then x :: l else y :: insert_sorted x l'
  end.
Definition sort (l : list t) : list t := fold_left (fun acc x => insert_sorted x acc) l [].

(** The loop of [exclude]; [ranges] is the list built so far. *)
Fixpoint exclude_loop (self : t) (next_start : Z) (es ranges : list t) : result (list t) :=
  match es with
  | [] =>
      Ok (if next_start <? _end self then ranges ++ [mkRange next_start (_end self)] else ranges)
  | e :: es =>
      guard! negb (interleaved e);
      let! i := intersects self e in
      if negb i then exclude_loop self next_start es ranges
      else if _start e <=? next_start then
        if _end e <? _end self then
          exclude_loop self (if next_start <? _end e then _end e else next_start) es ranges
        else Ok ranges
      else
        let ranges := ranges ++ [mkRange next_start (_start e)] in
        if _end e <? _end self then exclude_loop self (_end e) es ranges
        else Ok ranges
  end.

Definition exclude (self : t) (exclude_ranges : list t) : result (list t) :=
  guard! negb (interleaved self);
  exclude_loop self (_start self) (sort exclude_ranges) [].

(** [exclude(base, to_exclude)] on lists of ranges. *)
Fixpoint exclude_lists_loop (base to_exclude ret : list t) : result (list t) :=
  match base with
  | [] => Ok ret
  | range :: base =>
      let! l := exclude range to_exclude in
      exclude_lists_loop base to_exclude (ret ++ l)
  end.
Definition exclude_lists (base to_exclude : list t) : result (list t) :=
  exclude_lists_loop base (sort to_exclude) [].

(** [operator&]. *)
Definition inter (self r : t) : result t :=
  let! _ := check Panic (negb (interleaved self || interleaved r)) in
  let start := Z.max (_start self) (_start r) in
  let end_ := Z.min (_end self) (_end r) in
  if end_ <=? start then Ok (mkRange 0 0) else Ok (mkRange start end_).

Definition RangeEx (start end_ : Z) : t := mkRange start end_.
Definition RangeIn (start end_ : Z) : t := mkRange start (u64 (end_ + 1)).
Definition RangeSize (start sz : Z) : t := mkRange start (u64 (start + sz)).

End AddrRange.

Import AddrRange.

(** ** Well-formed ranges

    The class invariant the constructors establish: 64-bit fields, an
    interleaving match value that fits the number of masks, and few enough
    masks for [sel] (whose match value is a byte). *)
Definition wf (r : t) : Prop :=
  in_uw 64 (_start r) /\ in_uw 64 (_end r) /\ Forall (in_uw 64) (masks r) /\
  0 <= intlvMatch r < 2 ^ size_masks (masks r) /\ size_masks (masks r) <= 8.

(** Membership as the class comment specifies it: [a] lies between the bounds
    and every mask selects, by xor, the corresponding bit of the match value. *)
Definition selects (r : t) (a : Z) : Prop :=
  forall i m, masks r !! i = Some m ->
    Z.odd (popCount (Z.land a m)) = Z.testbit (intlvMatch r) (Z.of_nat i).
Definition mem (a : Z) (r : t) : Prop := _start r <= a < _end r /\ selects r a.

Lemma sel_loop_spec a ms i sel : 0 <= i -> i + size_masks ms <= 31 -> in_uw i sel ->
  exists sel', sel_loop a i ms sel = Ok sel' /\ in_uw (i + size_masks ms) sel' /\
    forall k, Z.testbit sel' k =
      if k <? i then Z.testbit sel k
      else match ms !! Z.to_nat (k - i) with
           | Some m => Z.odd (popCount (Z.land a m)) | None => false end.
Proof.
  unfold size_masks. revert i sel. induction ms as [|m ms IH]; intros i sel Hi Hs Hsel.
  - exists sel. split; [done|]. split; [by rewrite Z.add_0_r|]. intros k.
    destruct (Z.ltb_spec k i); [done|]. apply (testbit_high i); [done|lia].
  - cbn [length] in *. rewrite Nat2Z.inj_succ in *. cbn [sel_loop]. unfold shl.
    destruct (Z.leb_spec 0 i), (Z.ltb_spec i 32); try lia. cbn [andb]. rewrite bind_Ok.
    set (o := popCount (Z.land a m)). rewrite Zmod_odd.
    assert (Hb : s32 (u32 (Z.shiftl (if Z.odd o then 1 else 0) i)) =
                 Z.shiftl (Z.b2z (Z.odd o)) i).
    { rewrite Z.shiftl_mul_pow2 by lia. pose proof (Z.pow_le_mono_r 2 i 30).
      pose proof (pow2_pos i). rewrite uw_small by (split; destruct (Z.odd o); simpl; lia).
      rewrite sw_small by (try split; destruct (Z.odd o); simpl; lia).
      rewrite Z.shiftl_mul_pow2 by lia. done. }
    rewrite Hb. destruct (IH (i + 1) (Z.lor sel (Z.shiftl (Z.b2z (Z.odd o)) i)))
      as (sel' & E & Hr & Hbit); [lia|lia| |].
    { apply uw_lor; [lia|by eapply in_uw_mono; [|exact Hsel]; lia|].
      rewrite Z.shiftl_mul_pow2 by lia. unfold in_uw. rewrite Z.pow_add_r by lia.
      pose proof (pow2_pos i). destruct (Z.odd o); simpl; lia. }
    exists sel'. split; [done|]. split; [by eapply in_uw_mono; [|exact Hr]; lia|].
    intros k. rewrite Hbit. destruct (Z.ltb_spec k (i + 1)), (Z.ltb_spec k i); try lia.
    + destruct (Z.lt_ge_cases k 0); [by rewrite !testbit_neg|].
      autorewrite with zbits. zbits_cases. by rewrite orb_false_r.
    + assert (k = i) as -> by lia. autorewrite with zbits. zbits_high.
      rewrite Z.sub_diag. done.
    + replace (Z.to_nat (k - i)) with (S (Z.to_nat (k - (i + 1)))) by lia. done.
Qed.

(** [contains] never fails on a well-formed range and decides membership. *)
Lemma contains_spec r a : wf r -> exists b, contains r a = Ok b /\ (b = true <-> mem a r).
Proof.
  intros (Hs & He & Hm & Hi & Hn). unfold contains, mem, in_range.
  destruct (Z.leb_spec (_start r) a), (Z.ltb_spec a (_end r)); cbn [andb];
    try (exists false; split; [done|]; split; [done|lia]).
  destruct (sel_loop_spec a (masks r) 0 0) as (sel & -> & Hr & Hb); [lia|lia|split; lia|].
  exists (sel =? intlvMatch r). split; [done|]. rewrite Z.eqb_eq. split.
  - intros ->. split; [done|]. intros i m Hl. rewrite Hb. zbits_cases.
    rewrite Z.sub_0_r, Nat2Z.id, Hl. done.
  - intros [_ Hsel]. apply Z.bits_inj'. intros k Hk. rewrite Hb. zbits_cases.
    rewrite Z.sub_0_r. destruct (masks r !! Z.to_nat k) as [m|] eqn:E.
    + rewrite (Hsel _ _ E). f_equal. lia.
    + symmetry. apply (testbit_high (size_masks (masks r))); [done|].
      apply lookup_ge_None in E. unfold size_masks. lia.
Qed.

Lemma contains_true r a : wf r -> contains r a = Ok true <-> mem a r.
Proof. intros H. destruct (contains_spec r a H) as (b & -> & <-). split; congruence. Qed.

Lemma contains_total r a : wf r -> exists b, contains r a = Ok b.
Proof. intros H. destruct (contains_spec r a H) as (b & ? & _). by exists b. Qed.

Lemma mem_plain r a : masks r = [] -> mem a r <-> _start r <= a < _end r.
Proof. unfold mem, selects. intros ->. split; [tauto|]. intros. split; [done|]. intros ? ? [=]. Qed.

Lemma interleaved_false r : interleaved r = false <-> masks r = [].
Proof.
  unfold interleaved, size_masks. destruct (masks r); [done|]. simpl.
  split; [|done]. intros H. apply Z.ltb_ge in H. lia.
Qed.

(** ** Stripes *)

(** The match value of the stripe that owns an address. *)
Lemma sel_unique (ms : list Z) a : size_masks ms <= 8 ->
  exists m, 0 <= m < 2 ^ size_masks ms /\
    forall s e m', 0 <= m' < 2 ^ size_masks ms -> selects (mk s e ms m') a <-> m' = m.
Proof.
  intros Hn. destruct (sel_loop_spec a ms 0 0) as (sel & _ & Hr & Hb); [lia|lia|split; lia|].
  exists sel. split; [exact Hr|]. intros s e m' Hm'. unfold selects. simpl. split.
  - intros Hsel. apply Z.bits_inj'. intros k Hk. rewrite Hb. zbits_cases.
    rewrite Z.sub_0_r. destruct (ms !! Z.to_nat k) as [m|] eqn:E.
    + rewrite (Hsel _ _ E). f_equal. lia.
    + apply (testbit_high (size_masks ms)); [done|].
      apply lookup_ge_None in E. unfold size_masks. lia.
  - intros -> i m Hl. rewrite Hb. zbits_cases. by rewrite Z.sub_0_r, Nat2Z.id, Hl.
Qed.

Lemma merge_loop_inv self k rs : 0 <= k -> k + Z.of_nat (length rs) <= 256 ->
  merge_loop self (u8 k) rs = Ok tt ->
  forall i r, rs !! i = Some r ->
    r = mk (_start self) (_end self) (masks self) (k + Z.of_nat i).
Proof.
  revert k. induction rs as [|r rs IH]; intros k Hk Hl Hm i r' Hi; [done|].
  cbn [merge_loop length] in *. ok_inv. unfold mergesWith in E.
  rewrite !andb_true_iff, !Z.eqb_eq, bool_decide_eq_true in E. apply Z.eqb_eq in E0.
  rewrite (uw_small 8 k) in * by (split; lia).
  destruct i as [|i]; simpl in Hi.
  - injection Hi as <-. destruct r. simpl in *. destruct E as [[-> ->] ->]. f_equal. lia.
  - rewrite (IH (k + 1) ltac:(lia) ltac:(lia) Hm i r' Hi). f_equal. lia.
Qed.

(** Merging succeeds only on the complete set of stripes of one range, in
    order; the merged range is well formed and holds exactly the addresses of
    the stripes, each of which belongs to exactly one of them. *)
Theorem mkMerged_partition rs r :
  Forall wf rs -> (1 < length rs)%nat -> mkMerged rs = Ok r ->
  wf r /\ interleaved r = false /\
  (forall a, mem a r <-> exists i s, rs !! i = Some s /\ mem a s) /\
  (forall a i j s s', rs !! i = Some s -> rs !! j = Some s' -> mem a s -> mem a s' -> i = j).
Proof.
  intros Hwf Hlen Hm. destruct rs as [|r0 [|r1 rs]]; simpl in Hlen; try lia.
  set (l := r0 :: r1 :: rs) in *.
  assert (Hw0 : wf r0) by (by inversion Hwf). destruct Hw0 as (Hs & He & Hms & Hmt & Hn).
  unfold mkMerged in Hm. fold l in Hm. unfold l at 1 in Hm. ok_inv.
  unfold shl in E. destruct ((0 <=? size_masks (masks r0)) && (size_masks (masks r0) <? 64)) eqn:Eb;
    [|done]. ok_inv. apply andb_true_iff in Eb as [Hge%Z.leb_le _].
  rewrite Z.shiftl_1_l, uw_small in E.
  2: { split; [apply Z.pow_nonneg; lia|apply Z.pow_lt_mono_r; lia]. }
  apply Z.eqb_eq in E0. subst r2 r. destruct r4.
  set (n := size_masks (masks r0)) in *.
  assert (Hn256 : 2 ^ n <= 256) by (change 256 with (2 ^ 8); apply Z.pow_le_mono_r; lia).
  assert (Hall : forall i s, l !! i = Some s ->
    s = mk (_start r0) (_end r0) (masks r0) (Z.of_nat i)).
  { intros i s Hi. rewrite (merge_loop_inv r0 0 l ltac:(lia) ltac:(lia) E1 i s Hi). done. }
  split; [|split; [done|split]].
  - unfold wf, size_masks. simpl. repeat split; auto; apply Hs || apply He || lia.
  - intros a. rewrite mem_plain by done. simpl. split.
    + intros Ha. destruct (sel_unique (masks r0) a Hn) as (m & Hm & Hsel).
      assert (Hlk : is_Some (l !! Z.to_nat m)) by (apply lookup_lt_is_Some; fold n in Hm; lia).
      destruct Hlk as [s Hi]. exists (Z.to_nat m), s. split; [done|].
      rewrite (Hall _ _ Hi), Z2Nat.id by lia. split; [done|]. by apply Hsel.
    + intros (i & s & Hi & Ha). rewrite (Hall _ _ Hi) in Ha. apply Ha.
  - intros a i j s s' Hi Hj Ha Ha'.
    destruct (sel_unique (masks r0) a Hn) as (m & Hm & Hsel).
    pose proof (lookup_lt_Some _ _ _ Hi). pose proof (lookup_lt_Some _ _ _ Hj).
    rewrite (Hall _ _ Hi) in Ha. rewrite (Hall _ _ Hj) in Ha'.
    destruct Ha as [_ Ha], Ha' as [_ Ha'].
    rewrite Hsel in Ha by (fold n; lia). rewrite Hsel in Ha' by (fold n; lia). lia.
Qed.

(** ** Intersection and inclusion *)

Lemma mergesWith_spec self r : mergesWith self r = true <->
  _start r = _start self /\ _end r = _end self /\ masks r = masks self.
Proof.
  unfold mergesWith. rewrite !andb_true_iff, !Z.eqb_eq, bool_decide_eq_true. tauto.
Qed.

Lemma size_plain r : masks r = [] -> size r = Ok (u64 (_end r - _start r)).
Proof. unfold size, size_masks. intros ->. reflexivity. Qed.

(** [intersects] on non-empty ranges: the answer "no" means that the ranges
    share no address, the answer "yes" that they share one or are the same
    stripe; two plain ranges are always decided. The single-address shortcut is
    exact when the other range is not itself interleaved. *)
Theorem intersects_correct self r :
  wf self -> wf r -> _start self < _end self -> _start r < _end r ->
  (interleaved self = false -> interleaved r = false -> exists b, intersects self r = Ok b) /\
  forall b, intersects self r = Ok b ->
    interleaved r = false \/ size r <> Ok 1 ->
    if b then (exists a, mem a self /\ mem a r) \/ (forall a, mem a self <-> mem a r)
    else forall a, mem a self -> mem a r -> False.
Proof.
  intros Hw Hr Hs1 Hs2. unfold intersects.
  destruct (Z.leb_spec (_end r) (_start self)); cbn [orb].
  { split; [by eexists|]. intros b [= <-] _ a [] []. lia. }
  destruct (Z.leb_spec (_end self) (_start r)).
  { split; [by eexists|]. intros b [= <-] _ a [] []. lia. }
  destruct (interleaved self) eqn:Is, (interleaved r) eqn:Ir; cbn [negb andb].
  4: { split; [by eexists|]. intros b [= <-] _. left.
    apply interleaved_false in Is, Ir. exists (Z.max (_start self) (_start r)).
    rewrite !mem_plain by done. lia. }
  all: split; [done|]; intros b Hb Hsz; ok_inv; destruct (Z.eqb_spec r0 1) as [->|Hne].
  all: try (destruct Hsz; congruence).
  all: try (destruct (mergesWith self r) eqn:Hm; [|done]; ok_inv; subst b;
    apply mergesWith_spec in Hm as (E1 & E2 & E3)).
  - destruct (Z.eqb_spec (intlvMatch self) (intlvMatch r)) as [Em|Em].
    + right. intros a. unfold mem, selects. by rewrite E1, E2, E3, Em.
    + intros a [_ H1] [_ H2].
      destruct (sel_unique (masks self) a) as (m & _ & Hsel); [apply Hw|].
      apply Em. destruct self as [s1 e1 m1 i1], r as [s2 e2 m2 i2]. simpl in *. subst m2.
      destruct Hw as (_ & _ & _ & Hi1 & _), Hr as (_ & _ & _ & Hi2 & _). simpl in *.
      rewrite Hsel in H1, H2 by done. congruence.
  - apply interleaved_false in Ir. rewrite size_plain in E by done. injection E as E.
    assert (_end r = _start r + 1).
    { destruct Hr as ((? & ?) & (? & ?) & _). unfold uw in E. rewrite Z.mod_small in E; lia. }
    destruct (contains_spec self (_start r) Hw) as (b' & Hb' & Hmem).
    assert (b = b') as -> by congruence. destruct b'.
    + left. exists (_start r). rewrite (mem_plain r) by done. split; [tauto|lia].
    + intros a Ha Ha'. rewrite mem_plain in Ha' by done. assert (a = _start r) as -> by lia.
      by apply Hmem in Ha.
  - apply interleaved_false in Ir. rewrite E3 in Ir. apply interleaved_false in Ir. congruence.
  - apply interleaved_false in Is. rewrite <- E3 in Is. apply interleaved_false in Is. congruence.
Qed.

Lemma testbit_sw_low w x k : 0 < w -> 0 <= k < w -> Z.testbit (sw w x) k = Z.testbit x k.
Proof.
  intros Hw Hk. rewrite (sw_cong w x (uw w x)) by (rewrite ?uw_idemp; lia).
  rewrite sw_testbit by (try apply uw_range; lia). zbits_cases.
  rewrite testbit_uw by lia. by zbits_cases.
Qed.

Lemma combined_mask_bit ms c k : 0 <= k < 32 ->
  Z.testbit (fold_left (fun c m => s32 (Z.lor (u64 c) m)) ms c) k = false ->
  Z.testbit c k = false /\ Forall (fun m => Z.testbit m k = false) ms.
Proof.
  intros Hk. revert c. induction ms as [|m ms IH]; intros c H; [by split|]. simpl in H.
  apply IH in H as [H Hms]. rewrite testbit_sw_low, Z.lor_spec, testbit_uw in H by lia.
  destruct (Z.ltb_spec k 64); [|lia]. apply orb_false_iff in H as [H Hm]. split; [done|].
  by constructor.
Qed.

Lemma combined_mask_range ms c : in_sw 32 c ->
  in_sw 32 (fold_left (fun c m => s32 (Z.lor (u64 c) m)) ms c).
Proof.
  revert c. induction ms as [|m ms IH]; intros c Hc; [done|]. simpl. apply IH.
  unfold in_sw, sw. change (2 ^ (32 - 1)) with (2 ^ 31).
  pose proof (Z.mod_pos_bound (Z.lor (u64 c) m + 2 ^ 31) (2 ^ 32)). lia.
Qed.

(** The granularity is a power of two below which no mask has a bit. *)
Lemma granularity_spec r g : interleaved r = true -> granularity r = Ok g ->
  exists lb, 0 <= lb < 32 /\ g = 2 ^ lb /\
    forall m k, m ∈ masks r -> 0 <= k < lb -> Z.testbit m k = false.
Proof.
  unfold granularity. intros ->. set (c := fold_left _ _ _).
  assert (Hc : in_sw 32 c) by (apply combined_mask_range; split; simpl; lia).
  assert (Hz : forall k, 0 <= k < 32 -> Z.testbit c k = false ->
    forall m, m ∈ masks r -> Z.testbit m k = false).
  { intros k Hk Hb m Hm. apply combined_mask_bit in Hb as [_ Hms]; [|done].
    rewrite Forall_forall in Hms. by apply Hms. }
  clearbody c. destruct (Z.eqb_spec (u64 c) 0) as [E|E]; [by rewrite E|].
  destruct (ctz64_spec (u64 c)) as (Hlb0 & Hb1 & Hb2); [apply uw_range; lia|done|].
  set (lb := ctz64 (u64 c)) in *.
  rewrite testbit_uw in Hb1 by lia. apply andb_true_iff in Hb1 as [Hlt%Z.ltb_lt Hb1].
  assert (Hlb32 : lb < 32).
  { apply Z.nle_gt. intros Hge. unfold in_sw in Hc. change (2 ^ (32 - 1)) with (2 ^ 31) in Hc.
    assert (Hneg : c < 0).
    { apply Z.nle_gt. intros Hpos. rewrite (testbit_high 31) in Hb1; [done|split; lia|lia]. }
    specialize (Hb2 31 ltac:(lia)). rewrite testbit_uw in Hb2 by lia.
    change (31 <? 64) with true in Hb2. rewrite andb_true_l in Hb2.
    rewrite <- (Z.lnot_involutive c), Z.lnot_spec, (testbit_high 31) in Hb2; [done| |lia|lia].
    unfold in_uw, Z.lnot. lia. }
  rewrite (uw_small 8) by (split; simpl; lia). unfold shl.
  destruct (Z.leb_spec 0 lb), (Z.ltb_spec lb 64); try lia. cbn [andb]. injection 1 as <-.
  exists lb. split; [lia|]. split.
  - rewrite Z.shiftl_1_l. apply uw_small. split; [apply Z.pow_nonneg; lia|apply Z.pow_lt_mono_r; lia].
  - intros m k Hm Hk. apply (Hz k); [lia| |done]. specialize (Hb2 k ltac:(lia)).
    rewrite testbit_uw in Hb2 by lia. destruct (Z.ltb_spec k 64); [done|lia].
Qed.

Lemma land_high_part a a' m lb : 0 <= lb -> a / 2 ^ lb = a' / 2 ^ lb ->
  (forall k, 0 <= k < lb -> Z.testbit m k = false) -> Z.land a m = Z.land a' m.
Proof.
  intros Hlb E Hm. apply Z.bits_inj'. intros i Hi. rewrite !Z.land_spec.
  destruct (Z.ltb_spec i lb); [by rewrite Hm, !andb_false_r by lia|]. f_equal.
  apply (f_equal (fun x => Z.testbit x (i - lb))) in E.
  rewrite !Z.div_pow2_bits, Z.sub_add in E by lia. done.
Qed.

(** The end of a plain range, an end of 0 standing for 2^64. *)
Definition top (r : t) : Z := if _end r =? 0 then 2 ^ 64 else _end r.

(** [isSubset] against a plain range decides inclusion, also when one of the
    ranges extends to the end of the address space; against an interleaved
    range a positive answer is sound; an interleaved left argument panics. *)
Theorem isSubset_correct self r : wf self -> wf r -> _start self < top self ->
  _start r < top r ->
  (interleaved self = true -> isSubset self r = Err Panic) /\
  (interleaved self = false -> interleaved r = false ->
     exists b, isSubset self r = Ok b /\
       (b = true <-> forall a, _start self <= a < top self -> _start r <= a < top r)) /\
  (interleaved self = false -> interleaved r = true -> _start self < _end self ->
     isSubset self r = Ok true -> forall a, mem a self -> mem a r).
Proof.
  intros Hw Hr Ht1 Ht2. unfold isSubset.
  destruct Hw as ((? & ?) & (? & ?) & _), (Hr) as ((? & ?) & (? & ?) & _).
  split; [by intros ->|split]; intros Is Ir; rewrite Is, Ir.
  - clear Hr. unfold top in *.
    destruct (Z.leb_spec (_end self) (_start self)); [|destruct (Z.leb_spec (_end r) (_start r))];
    (eexists; split; [done|]); destruct (Z.eqb_spec (_end self) 0), (Z.eqb_spec (_end r) 0); try lia;
    (split; [intros Hb a Ha; lia|]; intros Hsub;
     pose proof (Hsub (_start self)); try pose proof (Hsub (2 ^ 64 - 1));
     pose proof (Hsub (_end self - 1)); lia).
  - intros Hne Hok a Ha. ok_inv. destruct r0; [|done]. cbn [negb] in Hok.
    ok_inv. destruct r0; [|done]. cbn [negb] in Hok. ok_inv. apply Z.leb_le in Hok.
    apply (contains_true r _ Hr) in E. apply (contains_true r _ Hr) in E0.
    rewrite (uw_small 64) in E0 by (split; lia).
    apply granularity_spec in E2 as (lb & Hlb & -> & Hm); [|done].
    apply interleaved_false in Is. rewrite size_plain in E1 by done. ok_inv.
    rewrite (uw_small 64) in E1 by (split; lia). subst r0.
    apply mem_plain in Ha; [|done]. destruct E as [Hi Hs], E0 as [Hi' Hs']. split; [lia|].
    assert (Hq : a / 2 ^ lb = _start self / 2 ^ lb \/ a / 2 ^ lb = (_end self - 1) / 2 ^ lb).
    { pose proof (Z.div_le_mono (_start self) a (2 ^ lb) (pow2_pos lb ltac:(lia))).
      pose proof (Z.div_le_mono a (_end self - 1) (2 ^ lb) (pow2_pos lb ltac:(lia))).
      pose proof (Z.div_le_mono (_end self - 1) (_start self + 1 * 2 ^ lb) (2 ^ lb)
        (pow2_pos lb ltac:(lia))) as Hd.
      rewrite Z.div_add in Hd by (pose proof (pow2_pos lb); lia). lia. }
    intros i m Hl. specialize (Hm m). destruct Hq as [Hq|Hq];
      rewrite (land_high_part _ _ m lb ltac:(lia) Hq) by
        (intros k Hk; apply Hm; [by eapply list_elem_of_lookup_2|done]); auto.
Qed.

(** ** Exclusion *)

Definition plain (r : t) : Prop := wf r /\ masks r = [].

Abbreviation starts_before := (fun x y : t => _start x <= _start y).

Lemma insert_sorted_perm x l : insert_sorted x l ≡ₚ x :: l.
Proof.
  induction l as [|y l IH]; simpl; [done|]. destruct (ltb x y); [done|].
  rewrite IH. apply Permutation_swap.
Qed.

Lemma sort_perm l : sort l ≡ₚ l.
Proof.
  unfold sort. rewrite <- (app_nil_r l) at 2. generalize (@nil t) as acc.
  induction l as [|x l IH]; intros acc; simpl; [done|]. rewrite IH, insert_sorted_perm.
  by rewrite Permutation_middle.
Qed.

Lemma ltb_plain x y : masks x = [] -> masks y = [] -> ltb x y = (_start x <? _start y).
Proof.
  intros Hx Hy. unfold ltb. apply interleaved_false in Hx, Hy. rewrite Hx, Hy. simpl.
  destruct (Z.eqb_spec (_start x) (_start y)) as [->|]; [by rewrite Z.ltb_irrefl|done].
Qed.

Lemma insert_sorted_sorted x l : masks x = [] -> Forall (fun e => masks e = []) l ->
  StronglySorted starts_before l -> StronglySorted starts_before (insert_sorted x l).
Proof.
  intros Hx. induction l as [|y l IH]; intros Hl Hs; simpl.
  { repeat constructor. }
  inversion Hl as [|? ? Hy Hl']; subst. inversion Hs as [|? ? Hs' Hf]; subst.
  rewrite ltb_plain by done. destruct (Z.ltb_spec (_start x) (_start y)).
  - constructor; [done|]. constructor; [lia|]. eapply Forall_impl; [exact Hf|].
    intros z Hz. simpl in Hz. lia.
  - constructor; [by apply IH|]. rewrite insert_sorted_perm. constructor; [lia|done].
Qed.

Lemma sort_sorted l : Forall (fun e => masks e = []) l -> StronglySorted starts_before (sort l).
Proof.
  unfold sort. intros Hl.
  enough (H : forall acc, Forall (fun e => masks e = []) acc -> StronglySorted starts_before acc ->
    StronglySorted starts_before (fold_left (fun acc x => insert_sorted x acc) l acc))
    by (apply H; constructor).
  induction Hl as [|x l Hx Hl IH]; intros acc Ha Hs; simpl; [done|].
  apply IH; [rewrite insert_sorted_perm; by constructor|by apply insert_sorted_sorted].
Qed.

(** Non-empty plain ranges in increasing order between two bounds. *)
Fixpoint chain (lo hi : Z) (l : list t) : Prop :=
  match l with
  | [] => True
  | r :: l => masks r = [] /\ intlvMatch r = 0 /\ lo <= _start r < _end r /\ _end r <= hi /\
              chain (_end r) hi l
  end.

Lemma intersects_plain self e : masks self = [] -> masks e = [] ->
  intersects self e = Ok (negb ((_end e <=? _start self) || (_end self <=? _start e))).
Proof.
  intros Hs He. apply interleaved_false in Hs, He. unfold intersects. rewrite Hs, He.
  by destruct (_ || _).
Qed.

Definition covers (a : Z) (l : list t) : Prop := exists r, r ∈ l /\ _start r <= a < _end r.

Lemma covers_cons a r l : covers a (r :: l) <-> _start r <= a < _end r \/ covers a l.
Proof.
  unfold covers. split.
  - intros (r' & Hr & Ha). apply elem_of_cons in Hr as [->|Hr]; eauto.
  - intros [Ha|(r' & Hr & Ha)]; [exists r|exists r']; rewrite elem_of_cons; auto.
Qed.

Lemma covers_nil a : ~ covers a [].
Proof. intros (r & Hr & _). by apply elem_of_nil in Hr. Qed.

Lemma covers_app a l l' : covers a (l ++ l') <-> covers a l \/ covers a l'.
Proof. unfold covers. setoid_rewrite elem_of_app. firstorder. Qed.

(** The invariant of the loop: what is still to be produced covers exactly the
    addresses from [next_start] on that no remaining range excludes. *)
Lemma exclude_loop_spec self es ns acc : masks self = [] -> _start self <= ns ->
  Forall (fun e => masks e = [] /\ _start e <= _end e) es -> StronglySorted starts_before es ->
  exists l, exclude_loop self ns es acc = Ok (acc ++ l) /\ chain ns (_end self) l /\
    forall a, covers a l <-> ns <= a < _end self /\ ~ covers a es.
Proof.
  intros Hself. revert ns acc. induction es as [|e es IH]; intros ns acc Hns He Hs; cbn [exclude_loop].
  { destruct (Z.ltb_spec ns (_end self)).
    - exists [mkRange ns (_end self)]. simpl. repeat split; try lia; try done;
        rewrite covers_cons in *; simpl in *; pose proof (covers_nil a); tauto || lia.
    - exists []. rewrite app_nil_r. split; [done|]. split; [done|].
      intros a. pose proof (covers_nil a). split; [done|lia]. }
  inversion He as [|? ? [Hm Hv] He']; subst. inversion Hs as [|? ? Hs' Hf]; subst.
  assert (interleaved e = false) as -> by by apply interleaved_false.
  cbn [negb]. rewrite check_true, bind_Ok, intersects_plain, bind_Ok by done.
  assert (Hlow : forall a, covers a es -> _start e <= a).
  { intros a (r & Hr & Ha). rewrite Forall_forall in Hf. specialize (Hf r Hr). simpl in Hf. lia. }
  rewrite negb_involutive.
  destruct (Z.leb_spec (_end e) (_start self)), (Z.leb_spec (_end self) (_start e)); cbn [orb];
    try (destruct (IH ns acc Hns He' Hs') as (l & -> & Hc & Ha); exists l;
         split; [done|]; split; [done|]; intros a; rewrite Ha, covers_cons; intuition lia).
  destruct (Z.leb_spec (_start e) ns).
  - destruct (Z.ltb_spec (_end e) (_end self)).
    + set (ns' := if ns <? _end e then _end e else ns).
      assert (Hns' : ns <= ns' /\ _end e <= ns' /\ (ns' = ns \/ ns' = _end e))
        by (unfold ns'; destruct (Z.ltb_spec ns (_end e)); lia).
      destruct (IH ns' acc ltac:(lia) He' Hs') as (l & -> & Hc & Ha). exists l.
      split; [done|]. split.
      * destruct l; [done|]. simpl in *. intuition lia.
      * intros a. rewrite Ha, covers_cons. intuition lia.
    + exists []. rewrite app_nil_r. split; [done|]. split; [done|]. intros a.
      rewrite covers_cons. pose proof (covers_nil a). intuition lia.
  - destruct (Z.ltb_spec (_end e) (_end self)).
    + destruct (IH (_end e) (acc ++ [mkRange ns (_start e)]) ltac:(lia) He' Hs') as (l & -> & Hc & Ha).
      exists (mkRange ns (_start e) :: l). rewrite <- app_assoc. split; [done|]. split.
      * simpl. repeat split; try lia. destruct l; [done|]. simpl in *. intuition lia.
      * intros a. rewrite !covers_cons, Ha. simpl. specialize (Hlow a).
        destruct (Z.lt_ge_cases a (_start e)), (Z.lt_ge_cases a (_end e)); intuition lia.
    + exists [mkRange ns (_start e)]. split; [done|]. split; [simpl; repeat split; lia|].
      intros a. rewrite !covers_cons. simpl. pose proof (covers_nil a). specialize (Hlow a).
      intuition lia.
Qed.

Lemma covers_perm a l l' : l ≡ₚ l' -> covers a l <-> covers a l'.
Proof. intros H. unfold covers. setoid_rewrite H. done. Qed.

Lemma exclude_spec self es : masks self = [] ->
  Forall (fun e => masks e = [] /\ _start e <= _end e) es ->
  exists l, exclude self es = Ok l /\ chain (_start self) (_end self) l /\
    forall a, covers a l <-> _start self <= a < _end self /\ ~ covers a es.
Proof.
  intros Hself He. unfold exclude.
  assert (interleaved self = false) as -> by by apply interleaved_false.
  cbn [negb]. rewrite check_true, bind_Ok.
  destruct (exclude_loop_spec self (sort es) (_start self) [] Hself ltac:(lia)) as (l & -> & Hc & Ha).
  - by rewrite sort_perm.
  - apply sort_sorted. eapply Forall_impl; [exact He|]. by intros ? [].
  - exists l. split; [done|]. split; [done|]. intros a. rewrite Ha.
    by rewrite (covers_perm a (sort es) es) by apply sort_perm.
Qed.

Lemma exclude_lists_loop_spec base es ret : Forall (fun r => masks r = []) base ->
  Forall (fun e => masks e = [] /\ _start e <= _end e) es ->
  exists l, exclude_lists_loop base es ret = Ok (ret ++ l) /\
    forall a, covers a l <-> covers a base /\ ~ covers a es.
Proof.
  intros Hb He. revert ret. induction Hb as [|r base Hr Hb IH]; intros ret; cbn [exclude_lists_loop].
  - exists []. rewrite app_nil_r. split; [done|]. intros a. pose proof (covers_nil a). tauto.
  - destruct (exclude_spec r es Hr He) as (l & -> & _ & Ha). rewrite bind_Ok.
    destruct (IH (ret ++ l)) as (l' & -> & Ha'). exists (l ++ l'). rewrite <- app_assoc.
    split; [done|]. intros a. rewrite covers_app, covers_cons, Ha, Ha'. tauto.
Qed.

(** Subtracting a list of plain ranges (in any order, overlapping or not, but
    each with start <= end) never fails. From one plain range the result is an
    increasing list of disjoint non-empty ranges inside it; from a list of
    ranges it is their concatenation. In both cases the addresses covered are
    exactly those of the base that no excluded range covers. *)
Theorem exclude_correct self base es : masks self = [] ->
  Forall (fun r => masks r = []) base ->
  Forall (fun e => masks e = [] /\ _start e <= _end e) es ->
  (exists l, exclude self es = Ok l /\ chain (_start self) (_end self) l /\
     forall a, covers a l <-> _start self <= a < _end self /\ ~ covers a es) /\
  (exists l, exclude_lists base es = Ok l /\
     forall a, covers a l <-> covers a base /\ ~ covers a es).
Proof.
  intros Hself Hb He. split; [by apply exclude_spec|]. unfold exclude_lists.
  destruct (exclude_lists_loop_spec base (sort es) [] Hb) as (l & -> & Ha); [by rewrite sort_perm|].
  exists l. split; [done|]. intros a. rewrite Ha.
  by rewrite (covers_perm a (sort es) es) by apply sort_perm.
Qed.

(** [operator&] of two plain ranges holds exactly the common addresses, with
    the canonical empty range [0, 0) when there are none. *)
Lemma inter_correct self r : masks self = [] -> masks r = [] -> exists i,
  inter self r = Ok i /\ masks i = [] /\
  (forall a, 0 <= a -> mem a i <-> mem a self /\ mem a r) /\
  ((forall a, mem a self -> mem a r -> False) -> i = mkRange 0 0).
Proof.
  intros Hs Hr. unfold inter.
  assert (interleaved self = false /\ interleaved r = false) as [-> ->] by
    (split; by apply interleaved_false). cbn [orb negb]. rewrite check_true, bind_Ok.
  destruct (Z.leb_spec (Z.min (_end self) (_end r)) (Z.max (_start self) (_start r))) as [Hle|Hlt];
    eexists; (split; [done|]); (split; [done|]); split.
  - intros a Ha. rewrite !mem_plain by done. simpl. lia.
  - done.
  - intros a Ha. rewrite !mem_plain by done. simpl. lia.
  - intros Hd. exfalso. apply (Hd (Z.max (_start self) (_start r))); rewrite mem_plain by done; lia.
Qed.

(** ** Instances of the theorems at concrete ranges *)

Lemma wf_mkRange s e : in_uw 64 s -> in_uw 64 e -> wf (mkRange s e).
Proof. intros Hs He. do 2 (split; [done|]). split; [constructor|]. done. Qed.

Lemma mkMerged_partition_witness :
  exists r, mkMerged [mk 0 256 [64] 0; mk 0 256 [64] 1] = Ok r /\ mem 70 r.
Proof.
  exists (mk 0 256 [] 0). split; [reflexivity|].
  destruct (mkMerged_partition [mk 0 256 [64] 0; mk 0 256 [64] 1] (mk 0 256 [] 0))
    as (_ & _ & Hm & _); [|simpl; lia|reflexivity|].
  { repeat constructor; simpl; try lia; done. }
  apply Hm. exists 1%nat, (mk 0 256 [64] 1). split; [done|]. split; [simpl; lia|].
  intros [|i] m; simpl; [|done]. intros [= <-]. reflexivity.
Defined.

Lemma intersects_correct_witness :
  intersects (mkRange 0 16) (mkRange 8 24) = Ok true /\
  exists a, mem a (mkRange 0 16) /\ mem a (mkRange 8 24).
Proof.
  split; [reflexivity|].
  destruct (intersects_correct (mkRange 0 16) (mkRange 8 24)) as [_ H];
    [apply wf_mkRange; split; lia|apply wf_mkRange; split; lia|simpl; lia|simpl; lia|].
  destruct (H true eq_refl) as [Ha|Ha]; [by left|done|].
  exists 8. rewrite !mem_plain by done. simpl. lia.
Defined.

Lemma isSubset_correct_witness :
  isSubset (mkRange 8 16) (mkRange 0 0) = Ok true /\ (forall a, 8 <= a < 16 -> 0 <= a < 2 ^ 64).
Proof.
  split; [reflexivity|].
  destruct (isSubset_correct (mkRange 8 16) (mkRange 0 0)) as (_ & H & _);
    [apply wf_mkRange; split; lia|apply wf_mkRange; split; lia|vm_compute; reflexivity|vm_compute; reflexivity|].
  destruct (H eq_refl eq_refl) as (b & E & Hb). apply Hb. vm_compute in E. by injection E.
Defined.

Lemma exclude_correct_witness :
  exists l, exclude (mkRange 0 100) [mkRange 60 70; mkRange 10 20] = Ok l /\
    covers 30 l /\ ~ covers 15 l.
Proof.
  destruct (exclude_correct (mkRange 0 100) [] [mkRange 60 70; mkRange 10 20])
    as [(l & E & _ & Hc) _]; [done|constructor|repeat constructor; simpl; lia|].
  exists l. split; [done|]. split.
  - apply Hc. simpl. split; [lia|]. rewrite !covers_cons. simpl.
    intros [?|[?|?%covers_nil]]; lia || done.
  - rewrite Hc. intros [_ Hn]. apply Hn. rewrite !covers_cons. simpl. lia.
Defined.
