(* ===== verification/AddrIntlv.v ===== *)
(** * Interleaving bits

    Correctness of [removeIntlvBits], [addIntlvBits] and [getOffset] of
    src/gem5/src/base/addr_range.hh, and of the legacy constructor that builds
    the masks from bit positions (definitions in [AddrRange]). *)

From S2P Require Import Prelude Bits AddrRange.
Import AddrRange.

(** ** Deleting and inserting bit positions

    The two loops seen on the bits of a word, a function from positions to
    booleans. *)
Definition delf (p : Z) (f : Z -> bool) : Z -> bool :=
  fun k => if k <? p then f k else f (k + 1).
Definition insf (p : Z) (f : Z -> bool) : Z -> bool :=
  fun k => if k <? p then f k else (k <? 64) && f (k - 1).

Fixpoint remf (i : Z) (ps : list Z) (f : Z -> bool) : Z -> bool :=
  match ps with [] => f | p :: ps => remf (i + 1) ps (delf (p - i) f) end.
Fixpoint addf (ps : list Z) (f : Z -> bool) : Z -> bool :=
  match ps with [] => f | p :: ps => addf ps (insf p f) end.

(** Agreement of two words outside a list of positions. *)
Definition agree (S : list Z) (f g : Z -> bool) : Prop :=
  forall k, 0 <= k -> k ∉ S -> f k = g k.

Lemma agree_trans S f g h : agree S f g -> agree S g h -> agree S f h.
Proof. intros H1 H2 k Hk Hn. rewrite H1 by done. by apply H2. Qed.

Lemma agree_weaken S S' f g : S ⊆ S' -> agree S f g -> agree S' f g.
Proof. intros Hs H k Hk Hn. apply H; [done|]. intros Hin. by apply Hn, Hs. Qed.

Lemma remf_ext i ps f g : (forall k, 0 <= k -> f k = g k) ->
  forall k, 0 <= k -> remf i ps f k = remf i ps g k.
Proof.
  revert i f g. induction ps as [|p ps IH]; intros i f g H k Hk; simpl; [by apply H|].
  apply IH; [|done]. intros j Hj. unfold delf. destruct (j <? p - i); apply H; lia.
Qed.

(** A deletion below all the others commutes with them. *)
Lemma remf_delf i ps d f : Forall (fun q => d < q - i) ps -> Sorted Z.lt ps -> 0 <= d ->
  forall k, 0 <= k -> remf (i + 1) ps (delf d f) k = delf d (remf i ps f) k.
Proof.
  revert i f. induction ps as [|q qs IH]; intros i f Hd Hs H0 k Hk; simpl; [done|].
  apply Sorted_StronglySorted in Hs; [|intros x y z; lia].
  inversion Hs as [|? ? Hs' Hq]; subst. inversion Hd as [|? ? Hdq Hdqs]; subst.
  rewrite <- (IH (i + 1) (delf (q - i) f)); [| |by apply StronglySorted_Sorted|done|done].
  - apply remf_ext; [|done]. intros j Hj. unfold delf.
    replace (q - (i + 1)) with (q - i - 1) by lia.
    destruct (Z.ltb_spec j d), (Z.ltb_spec j (q - i - 1)), (Z.ltb_spec (j + 1) (q - i)),
      (Z.ltb_spec j (q - i)), (Z.ltb_spec (j + 1) d); try lia; done.
  - eapply Forall_impl; [exact Hq|]. intros x Hx. simpl in *. lia.
Qed.

Lemma remf_high i ps f : (forall k, 64 <= k -> f k = false) ->
  forall k, 64 <= k -> remf i ps f k = false.
Proof.
  revert i f. induction ps as [|p ps IH]; intros i f H k Hk; simpl; [by apply H|].
  apply IH; [|done]. intros j Hj. unfold delf. destruct (j <? p - i); apply H; lia.
Qed.

Lemma addf_agree S ps f g : Sorted Z.lt ps -> Forall (fun p => 0 <= p) ps -> (forall s p, s ∈ S -> p ∈ ps -> s < p) ->
  agree S f g -> agree (S ++ ps) (addf ps f) (addf ps g).
Proof.
  revert S f g. induction ps as [|p ps IH]; intros S f g Hs H0 Hlt Ha; simpl; [by rewrite app_nil_r|].
  inversion H0 as [|? ? Hp0 H0']; subst.
  apply Sorted_StronglySorted in Hs; [|intros x y z; lia].
  inversion Hs as [|? ? Hs' Hp]; subst. rewrite Forall_forall in Hp.
  rewrite cons_middle, app_assoc. apply IH; [by apply StronglySorted_Sorted|done| |].
  - intros s q Hin Hq. apply elem_of_app in Hin as [Hin|Hin].
    + apply Hlt; [done|]. by apply elem_of_cons; right.
    + apply list_elem_of_singleton in Hin as ->. by apply Hp.
  - intros k Hk Hn. rewrite not_elem_of_app, list_elem_of_singleton in Hn. destruct Hn as [Hn1 Hn2].
    unfold insf. destruct (Z.ltb_spec k p); [by apply Ha|]. f_equal. apply Ha; [lia|].
    intros Hin. specialize (Hlt (k - 1) p Hin ltac:(apply elem_of_cons; by left)). lia.
Qed.

(** Inserting the deleted positions again restores every other bit. *)
Lemma addf_remf ps f : Sorted Z.lt ps -> Forall (fun p => 0 <= p) ps ->
  (forall k, 64 <= k -> f k = false) -> agree ps (addf ps (remf 0 ps f)) f.
Proof.
  intros Hs Hp Hf. induction ps as [|p ps IH]; simpl; [done|].
  inversion Hp as [|? ? Hp0 Hp']; subst.
  pose proof Hs as Hss. apply Sorted_StronglySorted in Hss; [|intros x y z; lia].
  inversion Hss as [|? ? Hs' Hlt]; subst.
  assert (Hs1 : Sorted Z.lt ps) by by apply StronglySorted_Sorted.
  eapply agree_trans; [|eapply agree_weaken; [|apply IH; done]; set_solver].
  apply (addf_agree [p]); [done|done| |].
  - intros s q Hin Hq. apply list_elem_of_singleton in Hin as ->.
    rewrite Forall_forall in Hlt. by apply Hlt.
  - intros k Hk Hn. rewrite list_elem_of_singleton in Hn. unfold insf.
    rewrite Z.sub_0_r. assert (Hlt' : Forall (fun q => p < q - 0) ps).
    { eapply Forall_impl; [exact Hlt|]. intros x Hx. simpl in *. lia. }
    destruct (Z.ltb_spec k p); rewrite (remf_delf 0 ps p f) by (done || lia); unfold delf.
    + by destruct (Z.ltb_spec k p); [|lia].
    + destruct (Z.ltb_spec (k - 1) p); [lia|]. rewrite Z.sub_add.
      destruct (Z.ltb_spec k 64); [done|]. symmetry. by apply remf_high.
Qed.

(** ** The loops compute these functions *)

Abbreviation bits_of := Z.testbit.

Lemma remove_step_spec i l a : in_uw 64 a -> 0 <= i <= l -> l < 64 ->
  exists a', remove_step i l a = Ok a' /\ in_uw 64 a' /\
    forall k, 0 <= k -> Z.testbit a' k = delf (l - i) (bits_of a) k.
Proof.
  intros Ha Hi Hl. unfold remove_step, delf.
  assert (Hsh : in_uw 64 (Z.shiftr a 1)) by (apply in_uw_shiftr; [lia|done]).
  assert (Hshb : forall k, 0 <= k -> Z.testbit (Z.shiftr a 1) k = Z.testbit a (k + 1))
    by (intros; apply Z.shiftr_spec; lia).
  destruct (Z.ltb_spec 0 l).
  2: { exists (Z.shiftr a 1). split; [done|]. split; [done|]. intros k Hk.
    rewrite Hshb by done. by destruct (Z.ltb_spec k (l - i)); [lia|]. }
  destruct (Z.eq_dec i l) as [->|Hne].
  - exists (Z.shiftr a 1). split; [|split; [done|]].
    + replace (u32 (l - l - 1)) with (2 ^ 32 - 1) by (by replace (l - l - 1) with (-1) by lia).
      unfold insertBits. rewrite check_true, bind_Ok.
      change (mask2 (2 ^ 32 - 1) 0) with 0. change (unot 64 0) with (2 ^ 64 - 1).
      unfold shl. cbn [Z.leb Z.ltb Z.compare andb]. rewrite bind_Ok, Z.land_0_r, Z.lor_0_r.
      by rewrite land_ones_uw, uw_small by (done || lia).
    + intros k Hk. rewrite Hshb by done. by destruct (Z.ltb_spec k (l - l)); [lia|].
  - rewrite (uw_small 32) by (split; lia).
    destruct (insertBits_total (Z.shiftr a 1) (l - i - 1) 0 a) as (a' & E & Hr);
      [done|lia|lia|].
    exists a'. split; [done|]. split; [done|]. intros k Hk.
    rewrite (insertBits_testbit (Z.shiftr a 1) (l - i - 1) 0 a a' k) by (done || lia).
    rewrite Hshb by done. zbits_cases; try done. cbn [andb]. f_equal. lia.
Qed.

Lemma remove_loop_spec i ps a : in_uw 64 a -> 0 <= i ->
  Forall (fun p => p < 64) ps -> Sorted Z.lt ps -> Forall (fun p => i <= p) ps ->
  exists a', remove_loop i ps a = Ok a' /\ in_uw 64 a' /\
    forall k, 0 <= k -> Z.testbit a' k = remf i ps (bits_of a) k.
Proof.
  revert i a. induction ps as [|p ps IH]; intros i a Ha Hi Hlt Hs Hge; [by exists a|].
  inversion Hlt; subst. inversion Hge; subst. cbn [remove_loop remf].
  apply Sorted_StronglySorted in Hs; [|intros x y z; lia]. inversion Hs as [|? ? Hs' Hp]; subst.
  destruct (remove_step_spec i p a) as (a1 & -> & Ha1 & Hb1); [done|lia|done|]. rewrite bind_Ok.
  destruct (IH (i + 1) a1) as (a' & -> & Ha' & Hb'); try done; [lia|by apply StronglySorted_Sorted| |].
  { eapply Forall_impl; [exact Hp|]. intros x Hx. simpl in *. lia. }
  exists a'. split; [done|]. split; [done|]. intros k Hk. rewrite Hb' by done.
  by apply remf_ext.
Qed.

Lemma add_step_spec l a : in_uw 64 a -> 0 <= l < 64 ->
  exists a', (if 0 <? l then insertBits (u64 (Z.shiftl a 1)) (u32 (l - 1)) 0 a
              else Ok (u64 (Z.shiftl a 1))) = Ok a' /\ in_uw 64 a' /\
    forall k, 0 <= k -> Z.testbit a' k = insf l (bits_of a) k.
Proof.
  intros Ha Hl. unfold insf.
  assert (Hsh : in_uw 64 (u64 (Z.shiftl a 1))) by (apply uw_range; lia).
  assert (Hshb : forall k, 0 <= k -> Z.testbit (u64 (Z.shiftl a 1)) k = (k <? 64) && Z.testbit a (k - 1)).
  { intros. rewrite testbit_uw, Z.shiftl_spec by lia. done. }
  destruct (Z.ltb_spec 0 l).
  - rewrite (uw_small 32) by (split; lia).
    destruct (insertBits_total (u64 (Z.shiftl a 1)) (l - 1) 0 a) as (a' & E & Hr);
      [done|lia|lia|].
    exists a'. split; [done|]. split; [done|]. intros k Hk.
    rewrite (insertBits_testbit (u64 (Z.shiftl a 1)) (l - 1) 0 a a' k) by (done || lia).
    rewrite Hshb by done.
    destruct (Z.leb_spec 0 k), (Z.leb_spec k (l - 1)), (Z.ltb_spec k l); try lia; [|done].
    cbn [andb]. by rewrite Z.sub_0_r.
  - exists (u64 (Z.shiftl a 1)). split; [done|]. split; [done|]. intros k Hk.
    rewrite Hshb by done. by destruct (Z.ltb_spec k l); [lia|].
Qed.

Lemma addf_pointwise ps f g : (forall k, f k = g k) -> forall k, addf ps f k = addf ps g k.
Proof.
  revert f g. induction ps as [|p ps IH]; intros f g H k; simpl; [done|].
  apply IH. intros j. unfold insf. by rewrite !H.
Qed.

Lemma add_loop_spec ps a : in_uw 64 a -> Forall (fun p => 0 <= p < 64) ps ->
  exists a', add_loop ps a = Ok a' /\ in_uw 64 a' /\
    forall k, Z.testbit a' k = addf ps (bits_of a) k.
Proof.
  intros Ha Hp. revert a Ha. induction Hp as [|p ps Hp Hps IH]; intros a Ha; [by exists a|].
  cbn [add_loop addf]. destruct (add_step_spec p a Ha Hp) as (a1 & -> & Ha1 & Hb1). rewrite bind_Ok.
  destruct (IH a1 Ha1) as (a' & -> & Ha' & Hb'). exists a'. split; [done|]. split; [done|].
  intros k. rewrite Hb'. apply addf_pointwise. intros j.
  destruct (Z.lt_ge_cases j 0); [|by apply Hb1].
  unfold insf. rewrite testbit_neg by done. destruct (Z.ltb_spec j p); [|lia].
  by rewrite testbit_neg.
Qed.

(** ** Restoring the selected bits *)

Lemma popCount_clear x l : 0 <= x -> 0 <= l ->
  popCount x = popCount (Z.land x (Z.lnot (2 ^ l))) + Z.b2z (Z.testbit x l).
Proof.
  intros Hx Hl. set (b := Z.testbit x l).
  assert (Hs : forall b', uw l x + 2 ^ l * (Z.b2z b' + 2 ^ 1 * Z.shiftr x (l + 1)) =
    Z.lor (Z.land x (Z.lnot (2 ^ l))) (Z.shiftl (Z.b2z b') l)).
  { intros b'. apply Z.bits_inj'. intros i Hi. rewrite testbit_digit by (lia || (apply uw_range; lia)).
    autorewrite with zbits. destruct (Z.ltb_spec i l); cbn [andb].
    - zbits_cases. cbn. by rewrite andb_true_r, orb_false_r.
    - rewrite testbit_digit by (try lia; destruct b'; split; simpl; lia).
      destruct (Z.ltb_spec (i - l) 1).
      + assert (i = l) as -> by lia. rewrite testbit_b2z, Z.sub_diag, Z.eqb_refl.
        rewrite Z.eqb_refl. by destruct b', (Z.testbit x l).
      + rewrite Z.shiftr_spec by lia. destruct (Z.eqb_spec l i); [lia|].
        destruct (Z.eqb_spec (i - l) 0); [lia|]. cbn. rewrite andb_true_r, orb_false_r.
        f_equal. lia. }
  assert (Hpc : forall b', popCount (Z.lor (Z.land x (Z.lnot (2 ^ l))) (Z.shiftl (Z.b2z b') l)) =
    popCount (uw l x) + (Z.b2z b' + popCount (Z.shiftr x (l + 1)))).
  { intros b'. pose proof (proj2 (Z.shiftr_nonneg x (l + 1)) Hx).
    rewrite <- Hs, popCount_split by (try apply uw_range; destruct b'; simpl; lia).
    change (2 ^ 1) with 2. by rewrite popCount_double. }
  assert (E1 : x = Z.lor (Z.land x (Z.lnot (2 ^ l))) (Z.shiftl (Z.b2z b) l)).
  { apply Z.bits_inj'. intros i Hi. autorewrite with zbits. subst b.
    destruct (Z.eqb_spec l i), (Z.eqb_spec (i - l) 0); try lia; subst; cbn [negb andb].
    - by destruct (Z.testbit x i).
    - by rewrite andb_true_r, orb_false_r. }
  rewrite E1 at 1. rewrite Hpc. pose proof (Hpc false) as Hf. simpl Z.b2z in Hf.
  rewrite Z.shiftl_0_l, Z.lor_0_r in Hf. lia.
Qed.

(** The geometric condition on the masks under which the low bits they select
    can be recomputed: distinct, small enough for the [int] shift of the code,
    and no mask holding the low bit of a later one. *)
Definition intlv_ok (r : t) : Prop :=
  Forall (fun m => m <> 0 /\ ctz64 m < 31) (masks r) /\
  NoDup (map ctz64 (masks r)) /\
  forall i j mi mj, (i < j)%nat -> masks r !! i = Some mi -> masks r !! j = Some mj ->
    Z.testbit mi (ctz64 mj) = false.

Lemma ctz64_unique m l : in_uw 64 m -> 0 <= l -> Z.testbit m l = true ->
  (forall k, 0 <= k < l -> Z.testbit m k = false) -> ctz64 m = l.
Proof.
  intros Hm Hl Hb Hlow. assert (m <> 0) by (intros ->; by rewrite Z.testbit_0_l in Hb).
  destruct (ctz64_spec m Hm ltac:(done)) as (Hc & Hcb & Hcl).
  destruct (Z.lt_trichotomy (ctz64 m) l) as [Hlt|[->|Hgt]]; [|done|].
  - rewrite Hlow in Hcb by lia. done.
  - rewrite Hcl in Hb by lia. done.
Qed.

Lemma match_bit_spec m i : in_uw 8 m -> 0 <= i < 8 ->
  match_bit m i = Ok (Z.b2z (Z.testbit m i)).
Proof.
  intros Hm Hi. unfold match_bit, shr.
  destruct (Z.leb_spec 0 i), (Z.ltb_spec i 32); try lia. cbn [andb]. rewrite bind_Ok. f_equal.
  change (mask 1) with (2 ^ 1 - 1). rewrite land_ones_uw by lia. zbits.
Qed.

Lemma lnot_int_bit lsb : 0 <= lsb < 31 ->
  exists one, shl 32 1 lsb = Ok one /\ u64 (Z.lnot (s32 one)) = unot 64 (2 ^ lsb).
Proof.
  intros Hl. unfold shl. destruct (Z.leb_spec 0 lsb), (Z.ltb_spec lsb 32); try lia. cbn [andb].
  eexists. split; [done|]. pose proof (Z.pow_lt_mono_r 2 lsb 31). pose proof (pow2_pos lsb).
  rewrite Z.shiftl_1_l, (uw_small 32), sw_small by (try split; simpl; lia). done.
Qed.

(** One iteration of the second loop recovers the low bit of its mask when
    the other bits under the mask are already right. *)
Lemma fix_step_spec r a b i m : wf r -> in_uw 64 a -> in_uw 64 b ->
  m <> 0 -> ctz64 m < 31 -> masks r !! i = Some m -> selects r a ->
  (forall k, 0 <= k -> k <> ctz64 m -> Z.testbit m k = true -> Z.testbit b k = Z.testbit a k) ->
  exists b', (let! intlv_bit := match_bit (intlvMatch r) (Z.of_nat i) in
     let! one := shl 32 1 (ctz64 m) in
     insertBit b (ctz64 m) (Z.lxor intlv_bit
       (popCount (Z.land (Z.land b m) (u64 (Z.lnot (s32 one))))))) = Ok b' /\
    in_uw 64 b' /\
    forall k, 0 <= k -> Z.testbit b' k = if k =? ctz64 m then Z.testbit a k else Z.testbit b k.
Proof.
  intros Hw Ha Hb Hm Hlt Hl Hsel Hbits.
  destruct (Hw) as (_ & _ & Hms & Hmt & Hn).
  assert (Hm64 : in_uw 64 m) by (rewrite Forall_forall in Hms; apply Hms; by eapply list_elem_of_lookup_2).
  destruct (ctz64_spec m Hm64 Hm) as (Hc & Hcb & _).
  pose proof (lookup_lt_Some _ _ _ Hl) as Hil. unfold size_masks in *.
  assert (Hmt8 : in_uw 8 (intlvMatch r)).
  { eapply in_uw_mono; [|split; apply Hmt]. lia. }
  rewrite match_bit_spec, bind_Ok by (done || lia).
  destruct (lnot_int_bit (ctz64 m)) as (one & -> & Hone); [lia|]. rewrite bind_Ok, Hone.
  assert (Emask : Z.land (Z.land b m) (unot 64 (2 ^ ctz64 m)) =
                  Z.land (Z.land a m) (Z.lnot (2 ^ ctz64 m))).
  { apply Z.bits_inj'. intros k Hk. autorewrite with zbits.
    destruct (Z.eqb_spec (ctz64 m) k) as [E|E]; cbn [negb]; [by rewrite !andb_false_r|].
    destruct (Z.testbit m k) eqn:Emk; [|by rewrite !andb_false_r].
    rewrite (Hbits k) by done. rewrite !andb_true_r.
    destruct (Z.ltb_spec k 64); zbits_high; by rewrite ?andb_true_r, ?andb_false_r. }
  rewrite Emask. set (mk := Z.land (Z.land a m) _).
  destruct (insertBits_total b (ctz64 m) (ctz64 m)
    (Z.lxor (Z.b2z (Z.testbit (intlvMatch r) (Z.of_nat i))) (popCount mk))) as (b' & E & Hr);
    [done|lia|lia|].
  exists b'. split; [exact E|]. split; [done|]. intros k Hk.
  rewrite (insertBits_testbit b (ctz64 m) (ctz64 m) _ b' k Hb ltac:(lia) ltac:(lia) Hk E).
  destruct (Z.eqb_spec k (ctz64 m)) as [->|Hne].
  2: { destruct (Z.leb_spec (ctz64 m) k), (Z.leb_spec k (ctz64 m)); cbn [andb]; done || lia. }
  rewrite Z.leb_refl. cbn [andb]. rewrite Z.sub_diag, Z.lxor_spec, testbit_b2z. cbn [Z.eqb andb].
  rewrite Z.bit0_odd, <- (Hsel i m Hl).
  assert (Hland : 0 <= Z.land a m) by (apply Z.land_nonneg; left; apply Ha).
  rewrite (popCount_clear (Z.land a m) (ctz64 m)) by lia. fold mk.
  rewrite Z.odd_add, Z.land_spec, Hcb, andb_true_r.
  by destruct (Z.odd (popCount mk)), (Z.testbit a (ctz64 m)).
Qed.

Lemma fix_loop_spec r a ms i b : wf r -> intlv_ok r -> in_uw 64 a -> in_uw 64 b -> selects r a ->
  drop i (masks r) = ms -> agree (map ctz64 ms) (bits_of b) (bits_of a) ->
  fix_loop (intlvMatch r) (Z.of_nat i) ms b = Ok a.
Proof.
  intros Hw (Hmk & Hnd & Htri) Ha Hb0 Hsel. revert i b Hb0.
  induction ms as [|m ms IH]; intros i b Hb Hd Hag; cbn [fix_loop].
  - f_equal. apply Z.bits_inj'. intros k Hk. apply Hag; [done|]. apply not_elem_of_nil.
  - assert (Hl : masks r !! i = Some m) by (rewrite <- (Nat.add_0_r i), <- lookup_drop, Hd; done).
    assert (Hd' : drop (S i) (masks r) = ms) by (rewrite <- Nat.add_1_r, <- drop_drop, Hd; done).
    rewrite Forall_forall in Hmk. destruct (Hmk m) as [Hm0 Hm31]; [by eapply list_elem_of_lookup_2|].
    destruct (fix_step_spec r a b i m) as (b' & E & Hb' & Hbb); try done.
    { intros k Hk Hne Hmb. apply Hag; [done|]. simpl. rewrite elem_of_cons. intros [?|Hin]; [done|].
      apply list_elem_of_In, in_map_iff in Hin as (mj & <- & Hin%list_elem_of_In).
      apply list_elem_of_lookup in Hin as (j & Hj). rewrite <- Hd', lookup_drop in Hj.
      rewrite (Htri i (S i + j)%nat m mj) in Hmb by (done || lia). done. }
    destruct (match_bit (intlvMatch r) (Z.of_nat i)) as [ib|]; [|done]. rewrite bind_Ok in *.
    destruct (shl 32 1 (ctz64 m)) as [one|]; [|done]. rewrite bind_Ok in *. rewrite E, bind_Ok.
    replace (Z.of_nat i + 1) with (Z.of_nat (S i)) by lia. apply IH; [done|done|].
    intros k Hk Hn. rewrite Hbb by done. destruct (Z.eqb_spec k (ctz64 m)) as [->|Hne]; [done|].
    apply Hag; [done|]. simpl. rewrite elem_of_cons. tauto.
Qed.

Lemma sorted_lsbs_spec r : wf r -> intlv_ok r ->
  Sorted Z.lt (sorted_lsbs r) /\ Forall (fun p => 0 <= p < 31) (sorted_lsbs r) /\
  (forall p, p ∈ sorted_lsbs r <-> p ∈ map ctz64 (masks r)).
Proof.
  intros (_ & _ & Hms & _) (Hmk & Hnd & _). unfold sorted_lsbs.
  pose proof (merge_sort_Permutation Z.le (map ctz64 (masks r))) as Hp.
  split; [|split].
  - assert (Hs : Sorted Z.le (merge_sort Z.le (map ctz64 (masks r))))
      by (apply Sorted_merge_sort; intros x y; lia).
    rewrite <- Hp in Hnd. revert Hs Hnd. generalize (merge_sort Z.le (map ctz64 (masks r))) as l.
    induction l as [|x l IH]; intros Hs Hnd; [constructor|].
    inversion Hs as [|? ? Hs' Hh]; subst. inversion Hnd as [|? ? Hx Hnd']; subst.
    constructor; [by apply IH|]. destruct Hh as [|y l]; constructor.
    assert (x <> y) by (intros ->; apply Hx; by constructor). lia.
  - rewrite Hp. apply Forall_map. apply Forall_forall. intros m Hm.
    rewrite Forall_forall in Hmk, Hms. destruct (Hmk m Hm) as [H0 H31].
    destruct (ctz64_spec m (Hms m Hm) H0). simpl. lia.
  - intros p. by rewrite Hp.
Qed.

Lemma add_remove_intlv r a :
  wf r -> intlv_ok r -> in_uw 64 a -> mem a r ->
  exists x, removeIntlvBits r a = Ok x /\ in_uw 64 x /\ addIntlvBits r x = Ok a.
Proof.
  intros Hw Hok Ha [_ Hsel]. unfold removeIntlvBits, addIntlvBits.
  destruct (interleaved r) eqn:Hi; cbn [negb]; [|by exists a].
  destruct (sorted_lsbs_spec r Hw Hok) as (Hs & Hp & Hin).
  assert (H0 : Forall (fun p => 0 <= p) (sorted_lsbs r)) by (eapply Forall_impl; [exact Hp|]; simpl; lia).
  destruct (remove_loop_spec 0 (sorted_lsbs r) a) as (x & -> & Hx & Hxb); try done.
  { eapply Forall_impl; [exact Hp|]. simpl. lia. }
  exists x. split; [done|]. split; [done|].
  destruct (add_loop_spec (sorted_lsbs r) x Hx) as (b & -> & Hb & Hbb).
  { eapply Forall_impl; [exact Hp|]. simpl. lia. }
  rewrite bind_Ok. apply (fix_loop_spec r a (masks r) 0); try done.
  assert (Hag : agree (sorted_lsbs r) (bits_of b) (bits_of a)).
  { eapply agree_trans; [|by apply addf_remf; [..|intros k Hk; apply (testbit_high 64); [done|lia]]].
    intros k Hk Hn. rewrite Hbb. apply (addf_agree [] (sorted_lsbs r)); try done.
    - intros s p Hs'. by apply elem_of_nil in Hs'.
    - intros j Hj _. by apply Hxb. }
  intros k Hk Hn. apply Hag; [done|]. by rewrite Hin.
Qed.

(** Adding the interleaving bits back after removing them restores every
    64-bit address of the range, so that no address of the range is lost or
    doubled by the flattening; neither step fails. *)
Theorem addIntlvBits_removeIntlvBits r a b :
  wf r -> intlv_ok r -> in_uw 64 a -> mem a r ->
  exists x, removeIntlvBits r a = Ok x /\ addIntlvBits r x = Ok a /\
    (in_uw 64 b -> mem b r -> removeIntlvBits r b = Ok x -> a = b).
Proof.
  intros Hw Hok Ha Hm. destruct (add_remove_intlv r a Hw Hok Ha Hm) as (x & Ex & Hx & Eax).
  exists x. split; [done|]. split; [done|]. intros Hb Hmb Eb.
  destruct (add_remove_intlv r b Hw Hok Hb Hmb) as (y & Ey & _ & Eby). congruence.
Qed.

(** [getOffset] maps the addresses of a range to distinct offsets, and any
    address outside its bounds to [MaxAddr]. *)
Theorem getOffset_injective r a b :
  wf r -> intlv_ok r -> in_uw 64 a -> in_uw 64 b -> mem a r ->
  (exists o, getOffset r a = Ok o /\ in_uw 64 o) /\
  (mem b r -> getOffset r a = getOffset r b -> a = b) /\
  (~ (_start r <= b < _end r) -> getOffset r b = Ok MaxAddr).
Proof.
  intros Hw Hok Ha Hb Hma.
  assert (Hin : forall c, mem c r -> in_range r c = true).
  { intros c [Hc _]. unfold in_range. apply andb_true_iff. rewrite Z.leb_le, Z.ltb_lt. lia. }
  assert (Hoff : exists y, in_uw 64 y /\ forall c, in_uw 64 c -> mem c r -> exists x,
    removeIntlvBits r c = Ok x /\ in_uw 64 x /\ getOffset r c = Ok (u64 (x - y))).
  { unfold getOffset. destruct (interleaved r) eqn:Hi.
    - destruct (sorted_lsbs_spec r Hw Hok) as (Hs & Hp & _).
      destruct (remove_loop_spec 0 (sorted_lsbs r) (_start r)) as (y & Ey & Hy & _);
        [apply Hw|lia|eapply Forall_impl; [exact Hp|]; simpl; lia|done|eapply Forall_impl; [exact Hp|]; simpl; lia|].
      exists y. split; [done|]. intros c Hc Hm.
      destruct (add_remove_intlv r c Hw Hok Hc Hm) as (x & Ex & Hx & _).
      exists x. rewrite (Hin c Hm), Ex. unfold removeIntlvBits. rewrite Hi. cbn [negb].
      by rewrite bind_Ok, Ey.
    - exists (_start r). split; [apply Hw|]. intros c Hc Hm. exists c. rewrite (Hin c Hm).
      unfold removeIntlvBits. by rewrite Hi. }
  destruct Hoff as (y & Hy & Hoff). destruct (Hoff a Ha Hma) as (x & Ex & Hx & Eo).
  split; [exists (u64 (x - y)); split; [done|apply uw_range; lia]|]. split.
  - intros Hmb E. destruct (Hoff b Hb Hmb) as (x' & Ex' & Hx' & Eo').
    assert (x = x') as ->.
    { rewrite Eo, Eo' in E. injection E as E. unfold uw, in_uw in *.
      apply (f_equal (fun z => (z + y) mod 2 ^ 64)) in E.
      rewrite !Zplus_mod_idemp_l, !Z.sub_add, !Z.mod_small in E by lia. done. }
    destruct (add_remove_intlv r a Hw Hok Ha Hma) as (z & Ez & _ & Eza).
    destruct (add_remove_intlv r b Hw Hok Hb Hmb) as (z' & Ez' & _ & Ezb).
    congruence.
  - intros Hn. unfold getOffset, in_range.
    destruct (Z.leb_spec (_start r) b), (Z.ltb_spec b (_end r)); try done. lia.
Qed.

(** ** The legacy constructor *)

(** The mask of bit [i] of the selector. *)
Definition selector_mask (hi xh nb i : Z) : Z :=
  let b1 := hi - (nb - 1 - i) in
  let b2 := xh - (nb - 1 - i) in
  if xh =? 0 then 2 ^ b1 else Z.lor (2 ^ b1) (2 ^ b2).

Lemma pow2_in_uw n w : 0 <= n < w -> in_uw w (2 ^ n).
Proof. intros. split; [apply Z.pow_nonneg; lia|apply Z.pow_lt_mono_r; lia]. Qed.

Section Legacy.
Context (start end_ hi xh : Z) (nbits : nat) (mt : Z).
Abbreviation nb := (Z.of_nat nbits).
Context (Hstart : in_uw 64 start) (Hend : in_uw 64 end_) (Hnb : (0 < nbits <= 8)%nat)
        (Hhi : nb - 1 <= hi < 64) (Hxh : xh = 0 \/ nb - 1 <= xh < 64 /\ nb <= Z.abs (hi - xh))
        (Hmt : 0 <= mt < 2 ^ nb).

Lemma legacy_mask_Ok j : j ∈ seq 0 nbits ->
  legacy_mask hi xh j = Ok (selector_mask hi xh nb (nb - 1 - Z.of_nat j)).
Proof.
  intros Hj%elem_of_seq. unfold legacy_mask, selector_mask, shl.
  rewrite (uw_small 8 (hi - _)) by (split; simpl; lia).
  destruct (Z.leb_spec 0 (hi - Z.of_nat j)), (Z.ltb_spec (hi - Z.of_nat j) 64); try lia.
  cbn [andb]. rewrite bind_Ok, !Z.shiftl_1_l. rewrite (uw_small 64 (2 ^ (hi - _))) by (apply pow2_in_uw; lia).
  destruct (Z.eqb_spec xh 0); cbn [negb].
  - repeat f_equal; lia.
  - rewrite (uw_small 8 (xh - _)) by (split; simpl; lia).
    destruct (Z.leb_spec 0 (xh - Z.of_nat j)), (Z.ltb_spec (xh - Z.of_nat j) 64); try lia.
    cbn [andb]. rewrite bind_Ok, uw_small by (apply pow2_in_uw; lia).
    repeat f_equal; lia.
Qed.

Definition legacy_masks : list Z :=
  map (fun i => selector_mask hi xh nb (Z.of_nat i)) (seq 0 nbits).

Lemma mkLegacy_Ok : mkLegacy start end_ hi xh nbits mt = Ok (mk start end_ legacy_masks mt).
Proof.
  unfold mkLegacy. destruct (Z.ltb_spec 0 nb); [|lia]. unfold shl.
  destruct (Z.leb_spec 0 nb), (Z.ltb_spec nb 64); try lia. cbn [andb]. rewrite bind_Ok.
  rewrite Z.shiftl_1_l, uw_small by (apply pow2_in_uw; lia).
  destruct (Z.leb_spec (2 ^ nb) mt); [lia|]. cbn [negb andb]. rewrite check_true, bind_Ok.
  assert ((if negb (xh =? 0) then
       if xh =? hi then Err Fatal
       else if hi <? xh then check Fatal (negb (xh - hi <? nb))
       else check Fatal (negb (hi - xh <? nb))
     else Ok tt) = Ok tt) as ->.
  { destruct (Z.eqb_spec xh 0); [done|]. cbn [negb]. destruct (Z.eqb_spec xh hi); [lia|].
    destruct (Z.ltb_spec hi xh).
    - destruct (Z.ltb_spec (xh - hi) nb); [lia|done].
    - destruct (Z.ltb_spec (hi - xh) nb); [lia|done]. }
  rewrite bind_Ok, (mapM_r_Ok _ (fun j => selector_mask hi xh nb (nb - 1 - Z.of_nat j)))
    by apply legacy_mask_Ok.
  rewrite bind_Ok. do 2 f_equal. unfold legacy_masks.
  apply list_eq. intros i. rewrite rev_alt. change (rev_append ?l []) with (reverse l).
  destruct (decide (i < nbits)%nat) as [Hi|Hi].
  - rewrite reverse_lookup by (rewrite length_map, length_seq; done).
    rewrite length_map, length_seq, !list_lookup_fmap.
    rewrite !lookup_seq_lt by lia. simpl. repeat f_equal. lia.
  - rewrite !lookup_ge_None_2; [done|rewrite length_map, length_seq; lia|].
    rewrite length_reverse, length_map, length_seq; lia.
Qed.

Lemma legacy_masks_lookup i m : legacy_masks !! i = Some m <->
  (i < nbits)%nat /\ m = selector_mask hi xh nb (Z.of_nat i).
Proof.
  unfold legacy_masks. rewrite list_lookup_fmap. destruct (decide (i < nbits)%nat).
  - rewrite lookup_seq_lt by lia. simpl. split; [intros [= <-]; done|]. by intros [_ ->].
  - rewrite lookup_seq_ge by lia. simpl. split; [done|lia].
Qed.

Lemma selector_mask_bit i k : 0 <= i < nb -> 0 <= k ->
  Z.testbit (selector_mask hi xh nb i) k =
  (k =? hi - (nb - 1 - i)) || (negb (xh =? 0) && (k =? xh - (nb - 1 - i))).
Proof.
  intros Hi Hk. unfold selector_mask. destruct (Z.eqb_spec xh 0).
  - rewrite Z.pow2_bits_eqb, orb_false_r by lia. apply Z.eqb_sym.
  - rewrite Z.lor_spec, !Z.pow2_bits_eqb by lia. cbn [negb andb].
    by rewrite (Z.eqb_sym (hi - _)), (Z.eqb_sym (xh - _)).
Qed.

Lemma popCount_pow2 a b : 0 <= b -> 0 <= a ->
  popCount (Z.land a (2 ^ b)) = Z.b2z (Z.testbit a b).
Proof.
  intros Hb Ha. assert (0 <= Z.land a (2 ^ b)) by (apply Z.land_nonneg; lia).
  rewrite (popCount_clear _ b) by done.
  rewrite Z.land_spec, Z.pow2_bits_true, andb_true_r by lia.
  replace (Z.land _ (Z.lnot _)) with 0; [done|]. symmetry. apply Z.bits_inj'. intros k Hk.
  autorewrite with zbits. by destruct (b =? k), (Z.testbit a k).
Qed.

Lemma selector_parity a i : 0 <= i < nb -> 0 <= a ->
  Z.odd (popCount (Z.land a (selector_mask hi xh nb i))) =
  xorb (Z.testbit a (hi - (nb - 1 - i)))
       (negb (xh =? 0) && Z.testbit a (xh - (nb - 1 - i))).
Proof.
  intros Hi Ha. unfold selector_mask. destruct (Z.eqb_spec xh 0).
  - rewrite popCount_pow2 by lia. cbn. by destruct (Z.testbit a _).
  - set (b1 := hi - _). set (b2 := xh - _).
    assert (0 <= Z.land a (Z.lor (2 ^ b1) (2 ^ b2))) by (apply Z.land_nonneg; lia).
    rewrite (popCount_clear _ b1) by lia.
    replace (Z.land (Z.land a (Z.lor (2 ^ b1) (2 ^ b2))) (Z.lnot (2 ^ b1)))
      with (Z.land a (2 ^ b2)).
    + rewrite popCount_pow2, Z.land_spec, Z.lor_spec, Z.pow2_bits_true by lia. cbn.
      by destruct (Z.testbit a b1), (Z.testbit a b2).
    + apply Z.bits_inj'. intros k Hk. autorewrite with zbits.
      destruct (Z.eqb_spec b1 k), (Z.eqb_spec b2 k); try lia; by destruct (Z.testbit a k).
Qed.

Lemma selector_mask_range i : 0 <= i < nb -> in_uw 64 (selector_mask hi xh nb i).
Proof.
  intros Hi. unfold selector_mask. destruct (Z.eqb_spec xh 0).
  - apply pow2_in_uw. lia.
  - apply uw_lor; [lia|apply pow2_in_uw; lia|apply pow2_in_uw; lia].
Qed.

Definition low_select : Z := if xh =? 0 then hi else Z.min hi xh.

Lemma selector_mask_ctz i : 0 <= i < nb ->
  ctz64 (selector_mask hi xh nb i) = low_select - (nb - 1 - i).
Proof.
  intros Hi. pose proof (selector_mask_bit i) as Hb. unfold low_select in *.
  apply ctz64_unique; [by apply selector_mask_range| | |].
  - destruct (Z.eqb_spec xh 0); lia.
  - rewrite Hb by (destruct (Z.eqb_spec xh 0); lia).
    destruct (Z.eqb_spec xh 0); cbn [negb andb]; [by rewrite Z.eqb_refl|].
    destruct (Z.min_spec hi xh) as [[_ ->]|[_ ->]]; rewrite Z.eqb_refl; [done|apply orb_true_r].
  - intros k Hk. rewrite Hb by lia. destruct (Z.eqb_spec xh 0); cbn [negb andb];
      zbits_cases; done.
Qed.

Lemma legacy_wf : wf (mk start end_ legacy_masks mt).
Proof.
  unfold wf, size_masks. simpl. unfold legacy_masks at 2 3. rewrite length_map, length_seq.
  repeat split; try apply Hstart; try apply Hend; try lia.
  apply Forall_lookup. intros i m Hm. apply legacy_masks_lookup in Hm as [Hi ->].
  apply selector_mask_range. lia.
Qed.

Lemma legacy_intlv_ok : low_select < 31 -> intlv_ok (mk start end_ legacy_masks mt).
Proof.
  intros Hlow. assert (Hlk : forall i m, legacy_masks !! i = Some m -> (i < nbits)%nat /\
    m = selector_mask hi xh nb (Z.of_nat i) /\ ctz64 m = low_select - (nb - 1 - Z.of_nat i)).
  { intros i m Hm. apply legacy_masks_lookup in Hm as [Hi ->]. rewrite selector_mask_ctz by lia. done. }
  split; [|split]; simpl.
  - apply Forall_lookup. intros i m Hm. destruct (Hlk i m Hm) as (Hi & E & ->). split; [|lia].
    intros ->. pose proof (selector_mask_bit (Z.of_nat i) (hi - (nb - 1 - Z.of_nat i))) as Hb.
    rewrite <- E, Z.testbit_0_l, Z.eqb_refl in Hb by lia. discriminate Hb; lia.
  - apply NoDup_alt. intros i j x Hi Hj. rewrite list_lookup_fmap in Hi, Hj.
    destruct (legacy_masks !! i) as [mi|] eqn:Ei; [|done].
    destruct (legacy_masks !! j) as [mj|] eqn:Ej; [|done]. simpl in *.
    destruct (Hlk i mi Ei) as (_ & _ & E1), (Hlk j mj Ej) as (_ & _ & E2). simplify_eq. lia.
  - intros i j mi mj Hij Hi Hj. destruct (Hlk i mi Hi) as (? & -> & _), (Hlk j mj Hj) as (? & _ & ->).
    unfold low_select. rewrite selector_mask_bit by (destruct (Z.eqb_spec xh 0); lia).
    destruct (Z.eqb_spec xh 0); cbn [negb andb]; zbits_cases; done.
Qed.

Lemma legacy_selects a : 0 <= a -> selects (mk start end_ legacy_masks mt) a <->
  Z.lxor (uw nb (Z.shiftr a (hi - (nb - 1))))
         (if xh =? 0 then 0 else uw nb (Z.shiftr a (xh - (nb - 1)))) = mt.
Proof.
  intros Ha.
  assert (Hbit : forall i, 0 <= i < nb -> Z.testbit (Z.lxor (uw nb (Z.shiftr a (hi - (nb - 1))))
         (if xh =? 0 then 0 else uw nb (Z.shiftr a (xh - (nb - 1))))) i =
    Z.odd (popCount (Z.land a (selector_mask hi xh nb i)))).
  { intros i Hi. rewrite selector_parity, Z.lxor_spec by lia.
    rewrite testbit_uw, Z.shiftr_spec by lia. destruct (Z.ltb_spec i nb); [|lia]. cbn [andb].
    f_equal; [f_equal; lia|]. destruct (Z.eqb_spec xh 0); cbn [negb andb]; [apply Z.testbit_0_l|].
    rewrite testbit_uw, Z.shiftr_spec by lia. destruct (Z.ltb_spec i nb); [|lia].
    cbn [andb]. f_equal. lia. }
  unfold selects. simpl. split.
  - intros Hs. apply Z.bits_inj'. intros i Hi. destruct (Z.ltb_spec i nb).
    + rewrite Hbit by lia. specialize (Hs (Z.to_nat i) (selector_mask hi xh nb i)).
      rewrite Z2Nat.id in Hs by lia. apply Hs, legacy_masks_lookup.
      rewrite Z2Nat.id by lia. split; [lia|done].
    + rewrite (testbit_high nb mt) by (done || lia). rewrite Z.lxor_spec, testbit_uw by lia.
      destruct (Z.ltb_spec i nb); [lia|]. cbn [andb xorb].
      destruct (Z.eqb_spec xh 0); [by rewrite Z.testbit_0_l|]. rewrite testbit_uw by lia.
      by destruct (Z.ltb_spec i nb); [lia|].
  - intros Hx i m Hm. apply legacy_masks_lookup in Hm as [Hi ->]. rewrite <- Hx. symmetry.
    apply Hbit. lia.
Qed.
End Legacy.

(** The legacy constructor with [nbits] interleaving bits that end at bit [hi]
    (and, for a hashed interleaving, as many xor bits that end at bit [xh])
    succeeds and selects the documented stripe: an address is in the range when
    it lies between the bounds and the interleaving field, xored with the xor
    field, equals the match value. The masks it builds satisfy the condition
    under which the interleaving bits can be removed and restored. *)
Theorem mkLegacy_correct start end_ hi xh (nbits : nat) mt :
  let nb := Z.of_nat nbits in
  in_uw 64 start -> in_uw 64 end_ -> (0 < nbits <= 8)%nat -> nb - 1 <= hi < 64 ->
  (xh = 0 \/ nb - 1 <= xh < 64 /\ nb <= Z.abs (hi - xh)) -> 0 <= mt < 2 ^ nb ->
  exists r, mkLegacy start end_ hi xh nbits mt = Ok r /\ wf r /\
    ((if xh =? 0 then hi else Z.min hi xh) < 31 -> intlv_ok r) /\
    forall a, 0 <= a -> contains r a = Ok true <-> start <= a < end_ /\
      Z.lxor (uw nb (Z.shiftr a (hi - (nb - 1))))
             (if xh =? 0 then 0 else uw nb (Z.shiftr a (xh - (nb - 1)))) = mt.
Proof.
  intros nb Hs He Hn Hhi Hxh Hmt. subst nb.
  exists (mk start end_ (legacy_masks hi xh nbits) mt).
  assert (Hw : wf (mk start end_ (legacy_masks hi xh nbits) mt)) by by apply legacy_wf.
  split; [by apply mkLegacy_Ok|]. split; [done|]. split; [by apply legacy_intlv_ok|].
  intros a Ha. rewrite contains_true by done. unfold mem. simpl.
  by rewrite <- (legacy_selects start end_).
Qed.

(** ** Instances of the theorems at concrete ranges *)

(** The odd stripe of a two-way interleaving at 64 bytes, hashed with bit 12. *)
Definition stripe_example : t := mk 0 65536 [64 + 4096] 1.

Lemma stripe_example_ok : wf stripe_example /\ intlv_ok stripe_example /\
  forall a, 0 <= a < 65536 -> Z.odd (popCount (Z.land a 4160)) = true -> mem a stripe_example.
Proof.
  split; [|split].
  - do 2 (split; [split; simpl; lia|]). split; [|done]. repeat constructor; lia.
  - split; [by repeat constructor|]. split; [apply NoDup_singleton|].
    intros i j mi mj Hij Hi Hj. apply lookup_lt_Some in Hj. simpl in Hj. lia.
  - intros a Ha Hp. split; [done|]. intros [|i] m; [|done]. intros [= <-]. exact Hp.
Qed.

Lemma addIntlvBits_removeIntlvBits_witness :
  exists x, removeIntlvBits stripe_example 0x47 = Ok x /\ addIntlvBits stripe_example x = Ok 0x47.
Proof.
  destruct stripe_example_ok as (Hw & Hok & Hm).
  destruct (addIntlvBits_removeIntlvBits stripe_example 0x47 0x47 Hw Hok) as (x & E & E' & _);
    [split; lia|apply Hm; [lia|reflexivity]|].
  by exists x.
Defined.

Lemma getOffset_injective_witness :
  getOffset stripe_example 0x47 = Ok 7 /\ getOffset stripe_example 70000 = Ok MaxAddr.
Proof.
  split; [reflexivity|]. destruct stripe_example_ok as (Hw & Hok & Hm).
  apply (getOffset_injective stripe_example 0x47 70000 Hw Hok); [split; lia|split; lia| |].
  - apply Hm; [lia|reflexivity].
  - simpl. lia.
Defined.

Lemma mkLegacy_correct_witness :
  exists r, mkLegacy 0 65536 6 12 1 1 = Ok r /\ intlv_ok r /\ contains r 0x47 = Ok true.
Proof.
  destruct (mkLegacy_correct 0 65536 6 12 1 1) as (r & E & _ & Hok & Hc);
    [split; lia|split; lia|lia|simpl; lia|right; simpl; lia|simpl; lia|].
  exists r. split; [done|]. split; [apply Hok; simpl; lia|]. apply Hc; [lia|]. split; [lia|reflexivity].
Defined.

(** ** Interleaving bits from bit 31 up *)

(** The bound on the lowest bit of a mask in [intlv_ok] is needed: [1 << lsb]
    in [addIntlvBits] and [combined_mask] in [granularity] are ints. With the
    lowest bit at 31 an address of the range is restored to another one; with
    the lowest bit at 32 or above both functions are undefined. *)
Theorem intlv_int_truncation :
  let hashed := mk 0 (2 ^ 40) [2 ^ 31 + 2 ^ 33] 0 in
  let high := mk 0 (2 ^ 40) [2 ^ 32] 1 in
  (contains hashed (2 ^ 31 + 2 ^ 33) = Ok true /\
   exists x, removeIntlvBits hashed (2 ^ 31 + 2 ^ 33) = Ok x /\ addIntlvBits hashed x = Ok (2 ^ 33)) /\
  (contains high (2 ^ 32) = Ok true /\
   (exists x, removeIntlvBits high (2 ^ 32) = Ok x /\ addIntlvBits high x = Err Undefined) /\
   granularity high = Err Undefined).
Proof.
  cbv zeta. split; (split; [by vm_compute|]).
  - exists (2 ^ 32). split; by vm_compute.
  - split; [exists 0; split; by vm_compute|by vm_compute].
Qed.
