(* ===== verification/AddrRangeMap.v ===== *)
(** * Address range maps

    Model of src/gem5/src/base/addr_range_map.hh: the ordered map from address
    ranges to values behind address decoding, with its most-recently-used
    cache of iterators. *)

From S2P Require Import Prelude Bits AddrRange.

Module AddrRangeMap.
Section AddrRangeMap.
Context {V : Type} (max_cache_size : nat).

(** The [std::map] is its sequence of nodes in key order. An iterator to a
    node is the node's key (keys are never changed); the past-the-end iterator
    is [None]. *)
Record state := mkState {
  tree : list (AddrRange.t * V);
  cache : list AddrRange.t;
}.

Definition keys (s : state) : list AddrRange.t := map fst (tree s).

(** Reading [it->first] through an iterator that no longer denotes a node is
    undefined. *)
Definition deref (s : state) (it : AddrRange.t) : result AddrRange.t :=
  if bool_decide (it ∈ keys s) then Ok it else Err Undefined.

(** [tree.upper_bound(r)]: the nodes that precede it, nearest first, and the
    nodes from it on. *)
Fixpoint split_upper (r : AddrRange.t) (before after : list AddrRange.t) :
    list AddrRange.t * list AddrRange.t :=
  match after with
  | [] => (before, [])
  | k :: ks => if AddrRange.ltb r k then (before, after) else split_upper r (k :: before) ks
  end.
Definition upper_bound (r : AddrRange.t) (s : state) := split_upper r [] (keys s).

Definition addNewEntryToCache (it : AddrRange.t) (s : state) : state :=
  if (max_cache_size =? 0)%nat then s
  else if (max_cache_size <=? length (cache s))%nat then
    mkState (tree s) (it :: take (length (cache s) - 1) (cache s))
  else mkState (tree s) (it :: cache s).

(** The cache scan of [find]: the first matching entry moves to the front. *)
Fixpoint cache_scan (s : state) (cond : AddrRange.t -> result bool)
    (seen rest : list AddrRange.t) : result (option (AddrRange.t * list AddrRange.t)) :=
  match rest with
  | [] => Ok None
  | it :: rest =>
      let! k := deref s it in
      let! b := cond k in
      if b then Ok (Some (it, it :: seen ++ rest))
      else cache_scan s cond (seen ++ [it]) rest
  end.

(** The [do]/[while] loop of [find], from [i] downwards. *)
Fixpoint down_loop (cond : AddrRange.t -> result bool) (i : AddrRange.t)
    (before : list AddrRange.t) : result (option AddrRange.t) :=
  let! b := cond i in
  if b then Ok (Some i) else
  match before with
  | [] => Ok None
  | next :: before =>
      if AddrRange.mergesWith next i then down_loop cond next before else Ok None
  end.

Definition find (r : AddrRange.t) (cond : AddrRange.t -> result bool) (s : state) :
    result (option AddrRange.t * state) :=
  let! hit := cache_scan s cond [] (cache s) in
  match hit with
  | Some (it, cache') => Ok (Some it, mkState (tree s) cache')
  | None =>
      let '(before, after) := upper_bound r s in
      let! found := (match after with [] => Ok false | next :: _ => cond next end) in
      match found, after, before with
      | true, next :: _, _ => Ok (Some next, addNewEntryToCache next s)
      | _, _, [] => Ok (None, s)
      | _, _, prev :: before =>
          let! res := down_loop cond prev before in
          match res with
          | Some i => Ok (Some i, addNewEntryToCache i s)
          | None => Ok (None, s)
          end
      end
  end.

(** [contains(const AddrRange &)], [contains(Addr)], [intersects]. *)
Definition contains (r : AddrRange.t) (s : state) : result (option AddrRange.t * state) :=
  find r (fun r1 => AddrRange.isSubset r r1) s.
Definition contains_addr (a : Z) (s : state) : result (option AddrRange.t * state) :=
  contains (AddrRange.RangeSize a 1) s.
Definition intersects (r : AddrRange.t) (s : state) : result (option AddrRange.t * state) :=
  find r (fun r1 => AddrRange.intersects r r1) s.

(** [std::map::insert]: no effect when an equivalent key is present. *)
Fixpoint tree_insert (r : AddrRange.t) (d : V) (l : list (AddrRange.t * V)) :
    AddrRange.t * list (AddrRange.t * V) :=
  match l with
  | [] => (r, [(r, d)])
  | (k, v) :: l' =>
      if AddrRange.ltb r k then (r, (r, d) :: l)
      else if AddrRange.ltb k r then
        let '(it, l'') := tree_insert r d l' in (it, (k, v) :: l'')
      else (k, l)
  end.

Definition insert (r : AddrRange.t) (d : V) (s : state) : result (option AddrRange.t * state) :=
  let! hs := intersects r s in
  let '(hit, s) := hs in
  match hit with
  | Some _ => Ok (None, s)
  | None =>
      let '(it, tree') := tree_insert r d (tree s) in
      Ok (Some it, mkState tree' (cache s))
  end.

(** [std::list::remove]. *)
Definition list_remove (it : AddrRange.t) (l : list AddrRange.t) : list AddrRange.t :=
  filter (fun k => k <> it) l.

(** [erase(p)]. *)
Definition erase (p : AddrRange.t) (s : state) : state :=
  mkState (filter (fun kv => kv.1 <> p) (tree s)) (list_remove p (cache s)).

(** [erase(p, q)] on the nodes from [p] up to, not including, [q]: each
    iteration removes [p] from the cache. *)
Fixpoint nodes_from (p : AddrRange.t) (q : option AddrRange.t) (l : list AddrRange.t)
    (inside : bool) : list AddrRange.t :=
  match l with
  | [] => []
  | k :: l =>
      let inside := inside || bool_decide (k = p) in
      if bool_decide (Some k = q) then []
      else if inside then k :: nodes_from p q l true else nodes_from p q l false
  end.
Definition erase_range (p : AddrRange.t) (q : option AddrRange.t) (s : state) : state :=
  let range := nodes_from p q (keys s) false in
  let cache' := fold_left (fun c _ => list_remove p c) range (cache s) in
  mkState (filter (fun kv => kv.1 ∉ range) (tree s)) cache'.

Definition clear (s : state) : state := mkState [] [].
Definition size (s : state) : nat := length (tree s).
Definition empty (s : state) : bool := match tree s with [] => true | _ => false end.

End AddrRangeMap.
Arguments state : clear implicits.
End AddrRangeMap.

Import AddrRangeMap.

(** ** Invariant

    Nodes are well-formed non-empty ranges in increasing order, two of which
    either lie apart or are different stripes of one interleaved range; every
    iterator of the cache denotes a node. *)
Definition entry_ok (k : AddrRange.t) : Prop :=
  AddrRange.wf k /\ AddrRange._start k < AddrRange._end k /\
  (AddrRange.interleaved k = true -> exists g, AddrRange.granularity k = Ok g).

Definition prec (k k' : AddrRange.t) : Prop :=
  AddrRange.mergesWith k k' = true /\ AddrRange.interleaved k = true /\
    AddrRange.intlvMatch k < AddrRange.intlvMatch k'
  \/ AddrRange._end k <= AddrRange._start k'.

Record inv {V} (s : state V) : Prop := {
  inv_entries : Forall entry_ok (keys s);
  inv_order : StronglySorted prec (keys s);
  inv_cache : Forall (fun k => k ∈ keys s) (cache s);
}.

Lemma mergesWith_sym k k' : AddrRange.mergesWith k k' = true -> AddrRange.mergesWith k' k = true.
Proof. rewrite !mergesWith_spec. intuition congruence. Qed.

Lemma mergesWith_trans k1 k2 k3 : AddrRange.mergesWith k1 k2 = true ->
  AddrRange.mergesWith k2 k3 = true -> AddrRange.mergesWith k1 k3 = true.
Proof. rewrite !mergesWith_spec. intuition congruence. Qed.

Lemma prec_start k k' : entry_ok k -> prec k k' -> AddrRange._start k <= AddrRange._start k'.
Proof.
  intros (_ & Hne & _) [(Hm & _ & _)|Hle]; [|lia]. apply mergesWith_spec in Hm. lia.
Qed.

(** An address is in at most one node. *)
Lemma prec_disjoint k k' a : AddrRange.wf k -> AddrRange.wf k' -> prec k k' ->
  AddrRange.mem a k -> AddrRange.mem a k' -> False.
Proof.
  intros Hw Hw' [(Hm & _ & Hlt)|Hle] [Hr Hs] [Hr' Hs']; [|lia].
  apply mergesWith_spec in Hm as (E1 & E2 & E3).
  destruct (sel_unique (AddrRange.masks k) a) as (m & _ & Hsel); [apply Hw|].
  destruct k as [s1 e1 m1 i1], k' as [s2 e2 m2 i2]. simpl in *. subst m2.
  destruct Hw as (_ & _ & _ & Hi1 & _), Hw' as (_ & _ & _ & Hi2 & _). simpl in *.
  rewrite Hsel in Hs, Hs' by done. lia.
Qed.

Lemma inv_unique {V} (s : state V) k k' a : inv s -> k ∈ keys s -> k' ∈ keys s ->
  AddrRange.mem a k -> AddrRange.mem a k' -> k = k'.
Proof.
  intros [He Ho _] Hk Hk' Hm Hm'.
  apply list_elem_of_lookup in Hk as (i & Hi), Hk' as (j & Hj).
  assert (Hwf : forall x, x ∈ keys s -> AddrRange.wf x).
  { intros x Hx. rewrite Forall_forall in He. by apply He. }
  assert (Hin : forall n x, keys s !! n = Some x -> AddrRange.wf x).
  { intros n x Hx. apply Hwf. by eapply list_elem_of_lookup_2. }
  destruct (Nat.lt_trichotomy i j) as [Hlt|[->|Hlt]]; [|congruence|]; exfalso.
  - eapply (prec_disjoint k k' a); eauto. by eapply (StronglySorted_lookup prec (keys s) i j).
  - eapply (prec_disjoint k' k a); eauto. by eapply (StronglySorted_lookup prec (keys s) j i).
Qed.

(** ** Lookup *)

Lemma split_upper_spec r before after b a :
  split_upper r before after = (b, a) ->
  rev b ++ a = rev before ++ after /\
  (Forall (fun k => AddrRange.ltb r k = false) before ->
   Forall (fun k => AddrRange.ltb r k = false) b) /\
  match a with [] => True | k :: _ => AddrRange.ltb r k = true end.
Proof.
  revert before. induction after as [|k after IH]; intros before; simpl.
  { intros [= <- <-]. done. }
  destruct (AddrRange.ltb r k) eqn:E; [intros [= <- <-]; done|].
  intros H. apply IH in H as (H1 & H2 & H3). split; [|split; [|done]].
  - rewrite H1. simpl. by rewrite <- app_assoc.
  - intros Hf. apply H2. by constructor.
Qed.

Section Find.
Context {V : Type} (max_cache_size : nat) (s : state V) (Hinv : inv s)
        (r : AddrRange.t) (cond : AddrRange.t -> result bool) (p : AddrRange.t -> bool).
Context (Hcond : forall k, k ∈ keys s -> cond k = Ok (p k)).

Lemma cache_scan_spec seen rest : Forall (fun k => k ∈ keys s) (seen ++ rest) ->
  exists hit, cache_scan s cond seen rest = Ok hit /\
    match hit with
    | Some (it, c) => it ∈ keys s /\ p it = true /\ Forall (fun k => k ∈ keys s) c
    | None => True
    end.
Proof.
  revert seen. induction rest as [|it rest IH]; intros seen Hf; simpl; [by eexists|].
  pose proof Hf as Hf'. rewrite Forall_app, Forall_cons in Hf'. destruct Hf' as (Hs & Hit & Hr).
  unfold deref. rewrite bool_decide_eq_true_2, bind_Ok, Hcond, bind_Ok by done.
  destruct (p it) eqn:Ep.
  - eexists. split; [done|]. split; [done|]. split; [done|].
    constructor; [done|]. by apply Forall_app.
  - apply IH. by rewrite <- app_assoc.
Qed.

Lemma down_loop_spec i before : i ∈ keys s -> Forall (fun k => k ∈ keys s) before ->
  StronglySorted (fun x y => prec y x) (i :: before) ->
  (forall k, k ∈ before -> p k = true -> AddrRange.mergesWith k i = true) ->
  exists hit, down_loop cond i before = Ok hit /\
    match hit with
    | Some k => k ∈ keys s /\ p k = true
    | None => forall k, k ∈ i :: before -> p k = false
    end.
Proof.
  revert i. induction before as [|next before IH]; intros i Hi Hb Hs Hg; cbn [down_loop];
    rewrite Hcond, bind_Ok by done; (destruct (p i) eqn:Ep; [by eexists|]).
  { eexists. split; [done|]. intros k Hk. by apply list_elem_of_singleton in Hk as ->. }
  apply StronglySorted_inv in Hs as [Hs Hf]. inversion Hb as [|? ? Hn Hb']; subst.
  inversion Hf as [|? ? Hni Hfi]; subst. destruct Hinv as [He _ _]. rewrite Forall_forall in He.
  destruct (AddrRange.mergesWith next i) eqn:Em.
  - destruct (IH next) as (hit & -> & Hhit); try done.
    { intros k Hk Hp. eapply mergesWith_trans; [apply Hg; [by constructor|done]|by apply mergesWith_sym]. }
    eexists. split; [done|]. destruct hit; [done|]. intros k Hk.
    apply elem_of_cons in Hk as [->|Hk]; [done|by apply Hhit].
  - eexists. split; [done|]. intros k Hk. apply elem_of_cons in Hk as [->|Hk]; [done|].
    destruct (p k) eqn:Epk; [exfalso|done].
    pose proof (Hg k Hk Epk) as Hmk. apply elem_of_cons in Hk as [->|Hk]; [congruence|].
    apply StronglySorted_inv in Hs as [_ Hfn]. rewrite Forall_forall in Hfn, Hb'.
    specialize (Hfn k Hk). pose proof (prec_start _ _ (He next Hn) Hni).
    apply mergesWith_spec in Hmk as (M1 & M2 & M3).
    destruct (He next Hn) as (_ & Hne & _). destruct (He k (Hb' k Hk)) as (_ & Hnk & _).
    destruct Hfn as [(Hm & _)|Hle]; [|lia]. apply mergesWith_spec in Hm as (N1 & N2 & N3).
    assert (AddrRange.mergesWith next i = true); [|congruence].
    apply mergesWith_spec. intuition congruence.
Qed.

Lemma cache_add_ok it : it ∈ keys s ->
  Forall (fun k => k ∈ keys s) (cache (addNewEntryToCache max_cache_size it s)) /\
  tree (addNewEntryToCache max_cache_size it s) = tree s.
Proof.
  intros Hit. destruct Hinv as [_ _ Hc]. unfold addNewEntryToCache.
  destruct (_ =? 0)%nat; [done|]. destruct (_ <=? _)%nat; simpl; (split; [constructor; [done|]|done]).
  - by apply Forall_take.
  - done.
Qed.

Lemma inv_with_cache (c : list AddrRange.t) t' : t' = tree s ->
  Forall (fun k => k ∈ keys s) c -> inv (mkState t' c).
Proof. intros -> Hc. destruct Hinv. by split. Qed.

(** [find] returns a node that satisfies the condition if there is one,
    whatever the cache holds, provided that the condition can only hold of the
    node that follows the key, or in the group of the one that precedes it. *)
Lemma find_spec :
  (forall b a, upper_bound r s = (b, a) ->
     (forall k0 a', a = k0 :: a' -> p k0 = false -> forall k, k ∈ a -> p k = false) /\
     (forall i b' k, b = i :: b' -> k ∈ b' -> p k = true -> AddrRange.mergesWith k i = true)) ->
  exists hit s', find max_cache_size r cond s = Ok (hit, s') /\ inv s' /\ tree s' = tree s /\
    match hit with
    | Some k => k ∈ keys s /\ p k = true
    | None => forall k, k ∈ keys s -> p k = false
    end.
Proof.
  intros Hub. unfold find.
  destruct (cache_scan_spec [] (cache s)) as (hit & -> & Hhit); [apply Hinv|]. rewrite bind_Ok.
  destruct hit as [[it c]|].
  { destruct Hhit as (Hit & Hp & Hc). eexists _, _. split; [done|].
    split; [by apply inv_with_cache|]. by split. }
  destruct (upper_bound r s) as [b a] eqn:Eub. destruct (Hub b a eq_refl) as [Ha Hb].
  apply split_upper_spec in Eub as (Hsplit & _ & _). simpl in Hsplit.
  assert (Hkeys : forall k, k ∈ keys s <-> k ∈ b \/ k ∈ a).
  { intros k. rewrite <- Hsplit, elem_of_app, elem_of_rev. done. }
  assert (Hfound : (match a with [] => Ok false | next :: _ => cond next end) =
    Ok (match a with [] => false | next :: _ => p next end)).
  { destruct a as [|k a]; [done|]. apply Hcond, Hkeys. right. by constructor. }
  rewrite Hfound, bind_Ok.
  assert (Hret : forall k, k ∈ keys s -> p k = true -> exists hit s',
    Ok (Some k, addNewEntryToCache max_cache_size k s) = Ok (hit, s') /\ inv s' /\ tree s' = tree s /\
    match hit with Some k => k ∈ keys s /\ p k = true | None => forall k, k ∈ keys s -> p k = false end).
  { intros k Hk Hpk. destruct (cache_add_ok k Hk) as [Hc Ht]. eexists _, _. split; [done|].
    split; [|done]. destruct (addNewEntryToCache _ _ _) as [t' c']. simpl in *. by apply inv_with_cache. }
  assert (Hdown : (forall k, k ∈ a -> p k = false) -> exists hit s',
    (match b with
     | [] => Ok (None, s)
     | prev :: before => rbind (down_loop cond prev before) (fun res =>
         match res with
         | Some i => Ok (Some i, addNewEntryToCache max_cache_size i s) | None => Ok (None, s) end)
     end) = Ok (hit, s') /\ inv s' /\ tree s' = tree s /\
    match hit with Some k => k ∈ keys s /\ p k = true | None => forall k, k ∈ keys s -> p k = false end).
  { intros Hna. destruct b as [|prev b].
    - eexists _, _. split; [done|]. split; [done|]. split; [done|]. intros k Hk.
      apply Hkeys in Hk as [Hk|Hk]; [by apply elem_of_nil in Hk|auto].
    - assert (Hs : StronglySorted (fun x y => prec y x) (prev :: b)).
      { pose proof (inv_order s Hinv) as Ho. rewrite <- Hsplit in Ho.
        apply StronglySorted_app_1_l in Ho. by apply StronglySorted_rev. }
      destruct (down_loop_spec prev b) as (hit & -> & Hh); try done.
      + apply Hkeys. left. by constructor.
      + apply Forall_forall. intros k Hk. apply Hkeys. left. by constructor.
      + intros k Hk Hpk. by eapply Hb.
      + rewrite bind_Ok. destruct hit as [k|]; [destruct Hh; by apply Hret|].
        eexists _, _. split; [done|]. split; [done|]. split; [done|]. intros k Hk.
        apply Hkeys in Hk as [Hk|Hk]; auto. }
  destruct a as [|next a].
  - apply Hdown. intros k Hk. by apply elem_of_nil in Hk.
  - destruct (p next) eqn:En.
    + apply Hret; [apply Hkeys; right; by constructor|done].
    + destruct b; apply Hdown; by eapply Ha.
Qed.
End Find.

(** The condition of an address lookup never fails and decides membership. *)
Lemma subset_addr_cond k a : entry_ok k -> 0 <= a < 2 ^ 64 - 1 ->
  exists b, AddrRange.isSubset (AddrRange.RangeSize a 1) k = Ok b /\ (b = true <-> AddrRange.mem a k).
Proof.
  intros (Hw & Hne & Hg) Ha. unfold AddrRange.isSubset, AddrRange.RangeSize.
  rewrite (uw_small 64 (a + 1)) by (split; lia). simpl AddrRange.interleaved. cbv iota.
  destruct (AddrRange.interleaved k) eqn:Hi; simpl.
  - rewrite (uw_small 64) by (split; lia). replace (a + 1 - 1) with a by lia.
    destruct (contains_spec k a Hw) as (b & Eb & Hb). rewrite Eb, bind_Ok.
    destruct b; cbn [negb]; [|by exists false].
    rewrite bind_Ok. cbn [negb]. destruct (Hg eq_refl) as (g & Eg). rewrite Eg, bind_Ok.
    apply granularity_spec in Eg as (lb & Hlb & -> & _); [|done].
    replace (a + 1 - a) with 1 by lia. exists true. split; [|done].
    f_equal. apply Z.leb_le. change (Z.shiftr (u64 1) _) with 1. pose proof (pow2_pos lb). lia.
  - destruct (Z.leb_spec (a + 1) a); [lia|].
    destruct (Z.leb_spec (AddrRange._end k) (AddrRange._start k)); [lia|].
    eexists. split; [done|]. apply interleaved_false in Hi. rewrite mem_plain by done.
    rewrite andb_true_iff, !Z.leb_le. lia.
Qed.

Lemma ltb_addr a k : AddrRange.ltb (AddrRange.RangeSize a 1) k = (a <? AddrRange._start k).
Proof.
  unfold AddrRange.ltb. simpl. destruct (Z.eqb_spec a (AddrRange._start k)) as [->|]; simpl; [|done].
  by rewrite Z.ltb_irrefl.
Qed.

Lemma order_start {V} (s : state V) l1 l2 x y : inv s -> keys s = l1 ++ l2 -> x ∈ l1 -> y ∈ l2 ->
  AddrRange._start x <= AddrRange._start y.
Proof.
  intros [He Ho _] E Hx Hy. rewrite E in *. apply prec_start.
  - rewrite Forall_app, !Forall_forall in He. by apply (proj1 He).
  - by eapply StronglySorted_app_1_elem_of.
Qed.

Lemma after_start {V} (s : state V) l k0 l2 y : inv s -> keys s = l ++ k0 :: l2 -> y ∈ k0 :: l2 ->
  AddrRange._start k0 <= AddrRange._start y.
Proof.
  intros Hi E Hy. apply elem_of_cons in Hy as [->|Hy]; [lia|].
  apply (order_start s (l ++ [k0]) l2); [done|by rewrite <- app_assoc|set_solver|done].
Qed.

(** C10: Address decoding: looking an address up never fails, changes nothing but
    the cache, and finds exactly the node that holds the address, plain or
    interleaved. The answer therefore does not depend on the cache. *)
Theorem contains_addr_correct {V} max_cache_size (s : state V) a :
  inv s -> 0 <= a < 2 ^ 64 - 1 ->
  exists hit s', contains_addr max_cache_size a s = Ok (hit, s') /\ inv s' /\ tree s' = tree s /\
    forall k, hit = Some k <-> k ∈ keys s /\ AddrRange.mem a k.
Proof.
  intros Hinv Ha. pose proof Hinv as [He Ho _]. rewrite Forall_forall in He.
  set (p := fun k => match AddrRange.isSubset (AddrRange.RangeSize a 1) k with
                     | Ok b => b | Err _ => false end).
  assert (Hp : forall k, k ∈ keys s ->
    AddrRange.isSubset (AddrRange.RangeSize a 1) k = Ok (p k) /\ (p k = true <-> AddrRange.mem a k)).
  { intros k Hk. unfold p. by destruct (subset_addr_cond k a (He k Hk) Ha) as (b & -> & Hb). }
  destruct (find_spec max_cache_size s Hinv (AddrRange.RangeSize a 1)
    (fun k => AddrRange.isSubset (AddrRange.RangeSize a 1) k) p) as (hit & s' & E & Hi' & Ht & Hhit).
  - intros k Hk. by apply Hp.
  - intros b af Eub. apply split_upper_spec in Eub as (Hsp & Hbf & Hafter). simpl in Hsp.
    specialize (Hbf ltac:(constructor)). rewrite Forall_forall in Hbf.
    assert (Hkeys : forall k, k ∈ keys s <-> k ∈ b \/ k ∈ af)
      by (intros k; by rewrite <- Hsp, elem_of_app, elem_of_rev).
    split.
    + intros k0 a' -> _ k Hk. rewrite ltb_addr in Hafter. apply Z.ltb_lt in Hafter.
      pose proof (after_start s (rev b) k0 a' k Hinv (eq_sym Hsp) Hk).
      destruct (p k) eqn:Ep; [|done]. apply Hp in Ep as [? _]; [lia|]. apply Hkeys. by right.
    + intros i b' k -> Hk Hpk. apply Hp in Hpk as [Hr _]; [|apply Hkeys; left; by constructor].
      assert (Hi : i ∈ i :: b') by by constructor. pose proof (Hbf i Hi) as Hlt.
      rewrite ltb_addr in Hlt. apply Z.ltb_ge in Hlt.
      assert (Hpr : prec k i).
      { simpl in Hsp. rewrite <- Hsp, <- app_assoc in Ho.
        eapply (StronglySorted_app_1_elem_of prec (rev b') ([i] ++ af)); [done|by apply elem_of_rev|by constructor]. }
      destruct Hpr as [(Hm & _)|Hle]; [done|lia].
  - exists hit, s'. split; [done|]. split; [done|]. split; [done|]. intros k. destruct hit as [k'|].
    + destruct Hhit as [Hk' Hpk']. apply Hp in Hpk'; [|done]. split; [by intros [= ->]|].
      intros [Hk Hm]. f_equal. by eapply (inv_unique s).
    + split; [done|]. intros [Hk Hm]. apply Hp in Hm; [|done]. rewrite Hhit in Hm; done.
Qed.

(** ** Insertion

    A new range is compatible with the nodes when it can be compared with
    each: it lies apart, both are plain, or both are stripes (of more than one
    address) of one interleaved range. Otherwise [intersects] panics. *)
Definition apart (r k : AddrRange.t) : Prop :=
  AddrRange._end r <= AddrRange._start k \/ AddrRange._end k <= AddrRange._start r.
Definition compatible (r k : AddrRange.t) : Prop :=
  apart r k \/
  AddrRange.masks r = [] /\ AddrRange.masks k = [] \/
  AddrRange.mergesWith r k = true /\ AddrRange.size k <> Ok 1.
Definition conflict (r k : AddrRange.t) : Prop :=
  r = k \/ AddrRange.masks r = [] /\ AddrRange.masks k = [] /\ ~ apart r k.

Lemma size_Ok k : AddrRange.wf k -> exists z, AddrRange.size k = Ok z.
Proof.
  intros (_ & _ & _ & _ & Hn). unfold AddrRange.size, shr.
  assert (0 <= AddrRange.size_masks (AddrRange.masks k)) by (unfold AddrRange.size_masks; lia).
  zbits_cases. simpl. by eexists.
Qed.

Lemma merges_eq r k : AddrRange.mergesWith r k = true ->
  AddrRange.intlvMatch r = AddrRange.intlvMatch k -> r = k.
Proof.
  intros (E1 & E2 & E3)%mergesWith_spec E4. destruct r, k. simpl in *. congruence.
Qed.

Lemma intersects_cond r k : entry_ok r -> entry_ok k -> compatible r k ->
  exists b, AddrRange.intersects r k = Ok b /\ (b = true <-> conflict r k).
Proof.
  intros (Hwr & Hner & _) (Hwk & Hnek & _) Hc. unfold AddrRange.intersects, conflict, apart.
  destruct (Z.leb_spec (AddrRange._end k) (AddrRange._start r));
    [|destruct (Z.leb_spec (AddrRange._end r) (AddrRange._start k))]; simpl;
    [exists false; split; [done|]; split; [done|intros [->|]; lia]..|].
  destruct Hc as [[]|[[Hr Hk]|[Hm Hs]]]; [lia|lia|..].
  - apply interleaved_false in Hr as Hir, Hk as Hik. rewrite Hir, Hik. simpl.
    exists true. split; [done|]. split; [|done]. intros _. right. repeat split; [done..|lia].
  - pose proof (proj1 (mergesWith_spec _ _) Hm) as (E1 & E2 & E3).
    destruct (size_Ok k Hwk) as (z & Ez).
    destruct (AddrRange.interleaved r) eqn:Hir; simpl.
    + rewrite Ez, bind_Ok. destruct (Z.eqb_spec z 1) as [->|]; [done|]. rewrite Hm.
      eexists. split; [done|]. rewrite Z.eqb_eq. split; [intros E; left; by apply merges_eq|].
      intros [->|[Hmr _]]; [done|]. apply interleaved_false in Hmr. congruence.
    + apply interleaved_false in Hir as Hmr. rewrite Hmr in E3.
      assert (Hik : AddrRange.interleaved k = false) by (apply interleaved_false; congruence).
      rewrite Hik. exists true. split; [done|]. split; [|done]. intros _. right.
      repeat split; [done|congruence|lia].
Qed.

(** A compatible range that conflicts with no node has a place in the order. *)
Lemma no_conflict_prec r k : entry_ok r -> entry_ok k -> compatible r k -> ~ conflict r k ->
  prec r k \/ prec k r.
Proof.
  intros Hr Hk Hc Hn. unfold prec.
  destruct Hc as [[]|[[Hmr Hmk]|[Hm Hs]]]; [by left; right|by right; right|..].
  - destruct (decide (apart r k)) as [[]|Ha]; [by left; right|by right; right|].
    destruct Hn. right. by repeat split.
  - pose proof (proj1 (mergesWith_spec _ _) Hm) as (E1 & E2 & E3).
    destruct (AddrRange.interleaved r) eqn:Hir.
    + assert (Hik : AddrRange.interleaved k = true).
      { unfold AddrRange.interleaved in *. congruence. }
      pose proof (mergesWith_sym _ _ Hm).
      destruct (Z.lt_trichotomy (AddrRange.intlvMatch r) (AddrRange.intlvMatch k)) as [|[|]];
        [by left; left| |by right; left].
      destruct Hn. left. by apply merges_eq.
    + apply interleaved_false in Hir as Hmr. destruct Hn. right. split; [done|].
      split; [congruence|]. destruct Hr as (_ & ? & _), Hk as (_ & ? & _). unfold apart. lia.
Qed.

Lemma prec_ltb k k' : entry_ok k -> entry_ok k' -> prec k k' ->
  AddrRange.ltb k k' = true /\ AddrRange.ltb k' k = false.
Proof.
  intros (_ & H1 & _) (_ & H2 & _) [(Hm & Hi & Hlt)|Hle]; unfold AddrRange.ltb.
  - apply mergesWith_spec in Hm as (E1 & E2 & E3).
    assert (AddrRange.interleaved k' = true) as Hi' by (unfold AddrRange.interleaved in *; congruence).
    rewrite E1, Z.eqb_refl, Hi, Hi'. simpl. split; [by apply Z.ltb_lt|apply Z.ltb_ge; lia].
  - destruct (Z.eqb_spec (AddrRange._start k) (AddrRange._start k')),
      (Z.eqb_spec (AddrRange._start k') (AddrRange._start k)); try lia. simpl.
    split; [apply Z.ltb_lt; lia|apply Z.ltb_ge; lia].
Qed.

Lemma ltb_false_start r k : AddrRange.ltb r k = false -> AddrRange._start k <= AddrRange._start r.
Proof.
  unfold AddrRange.ltb. destruct (Z.eqb_spec (AddrRange._start r) (AddrRange._start k)); simpl; [lia|].
  intros H. apply Z.ltb_ge in H. lia.
Qed.

Lemma plain_prec k k' : AddrRange.masks k = [] -> prec k k' -> AddrRange._end k <= AddrRange._start k'.
Proof. intros Hm%interleaved_false [(_ & Hi & _)|]; [congruence|done]. Qed.

(** Conflicts with nodes that follow the place of [r] start with the first. *)
Lemma conflict_after r k0 k : entry_ok r -> entry_ok k0 -> entry_ok k -> compatible r k0 ->
  AddrRange.ltb r k0 = true -> ~ conflict r k0 -> prec k0 k -> ~ conflict r k.
Proof.
  intros Hr H0 Hk Hc Hlt Hn Hp Hcf.
  destruct (no_conflict_prec r k0 Hr H0 Hc Hn) as [Hpr|Hpr].
  - destruct Hcf as [<-|(Hm & _ & Ha)].
    + apply prec_ltb in Hp as [_ ?]; [congruence|done..].
    + apply plain_prec in Hpr; [|done]. apply prec_start in Hp; [|done]. apply Ha. left. lia.
  - apply prec_ltb in Hpr as [_ ?]; [congruence|done..].
Qed.

(** Conflicts before the place of [r] are in the group of the last node. *)
Lemma conflict_before r i k : entry_ok i -> entry_ok k ->
  AddrRange.ltb r i = false -> prec k i -> conflict r k -> AddrRange.mergesWith k i = true.
Proof.
  intros Hi Hk Hlt Hp Hc. destruct Hc as [->|(Hm & Hmk & Ha)].
  - apply prec_ltb in Hp as [? _]; [congruence|done..].
  - apply plain_prec in Hp; [|done]. apply ltb_false_start in Hlt. destruct Ha. right. lia.
Qed.

Lemma prec_acyclic y r k : entry_ok y -> entry_ok r -> entry_ok k ->
  prec y r -> prec r k -> prec k y -> False.
Proof.
  intros Hy Hr Hk H1 H2 H3. pose proof (prec_start _ _ Hy H1). pose proof (prec_start _ _ Hr H2).
  pose proof (prec_start _ _ Hk H3). apply prec_ltb in H1 as [L1 _]; [|done..].
  apply prec_ltb in H2 as [L2 _]; [|done..]. apply prec_ltb in H3 as [L3 _]; [|done..].
  unfold AddrRange.ltb in *. revert L1 L2 L3.
  destruct (Z.eqb_spec (AddrRange._start y) (AddrRange._start r)); [|lia].
  destruct (Z.eqb_spec (AddrRange._start r) (AddrRange._start k)); [|lia].
  destruct (Z.eqb_spec (AddrRange._start k) (AddrRange._start y)); [|lia]. simpl.
  destruct (AddrRange.interleaved r), (AddrRange.interleaved k), (AddrRange.interleaved y); simpl;
    try done. rewrite !Z.ltb_lt. lia.
Qed.

Lemma tree_insert_spec {V} r (d : V) l :
  entry_ok r -> Forall (fun kv => entry_ok kv.1 /\ (prec r kv.1 \/ prec kv.1 r)) l ->
  StronglySorted prec (map fst l) ->
  exists l', tree_insert r d l = (r, l') /\ StronglySorted prec (map fst l') /\
    (forall kv, kv ∈ l' <-> kv = (r, d) \/ kv ∈ l).
Proof.
  intros Hr. induction l as [|[k v] l IH]; intros Hf Hs; simpl.
  { eexists. split; [done|]. split; [repeat constructor|]. set_solver. }
  inversion Hf as [|? ? [Hk Hp] Hf']; subst. apply StronglySorted_inv in Hs as [Hs Hfk]. simpl in *.
  destruct Hp as [Hp|Hp]; pose proof (fun a b => prec_ltb _ _ a b Hp) as [E1 E2];
    try done; rewrite ?E1, ?E2.
  - eexists. split; [done|]. split; [|intros kv; by rewrite elem_of_cons]. simpl. constructor; [by constructor|].
    constructor; [done|]. rewrite Forall_forall in Hfk |- *. intros y Hy. specialize (Hfk y Hy).
    apply list_elem_of_fmap in Hy as ([y' v'] & -> & Hy). rewrite Forall_forall in Hf'.
    destruct (Hf' _ Hy) as [Hey [|Hyr]]; [done|]. simpl in *.
    destruct (prec_acyclic y' r k); done.
  - destruct (IH Hf' Hs) as (l' & -> & Hs' & Hin). eexists. split; [done|]. split.
    + simpl. constructor; [done|]. rewrite Forall_forall in Hfk |- *. intros y Hy.
      apply list_elem_of_fmap in Hy as (yv & -> & Hy). apply Hin in Hy as [->|Hy]; [done|].
      apply Hfk, list_elem_of_fmap. by exists yv.
    + intros kv. rewrite !elem_of_cons, Hin. tauto.
Qed.

(** The search of an insertion decides whether some node conflicts. *)
Lemma intersects_map_spec {V} max_cache_size (s : state V) r :
  inv s -> entry_ok r -> Forall (compatible r) (keys s) ->
  exists hit s', intersects max_cache_size r s = Ok (hit, s') /\ inv s' /\ tree s' = tree s /\
    match hit with
    | Some k => k ∈ keys s /\ conflict r k
    | None => forall k, k ∈ keys s -> ~ conflict r k
    end.
Proof.
  intros Hinv Hr Hc. pose proof Hinv as [He Ho _]. rewrite Forall_forall in He, Hc.
  set (p := fun k => match AddrRange.intersects r k with Ok b => b | Err _ => false end).
  assert (Hp : forall k, k ∈ keys s ->
    AddrRange.intersects r k = Ok (p k) /\ (p k = true <-> conflict r k)).
  { intros k Hk. unfold p. by destruct (intersects_cond r k Hr (He k Hk) (Hc k Hk)) as (b & -> & Hb). }
  destruct (find_spec max_cache_size s Hinv r (fun k => AddrRange.intersects r k) p)
    as (hit & s' & E & Hi' & Ht & Hhit).
  - intros k Hk. by apply Hp.
  - intros b af Eub. apply split_upper_spec in Eub as (Hsp & Hbf & Hafter). simpl in Hsp.
    specialize (Hbf ltac:(constructor)). rewrite Forall_forall in Hbf.
    assert (Hkeys : forall k, k ∈ b \/ k ∈ af -> k ∈ keys s)
      by (intros k; by rewrite <- Hsp, elem_of_app, elem_of_rev).
    rewrite <- Hsp in Ho. apply StronglySorted_app in Ho as (Hba & Hsb & Hsa). split.
    + intros k0 a' -> Hp0 k Hk. assert (Hk0 : k0 ∈ keys s) by (apply Hkeys; right; by constructor).
      apply elem_of_cons in Hk as [->|Hk]; [done|].
      assert (Hks : k ∈ keys s) by (apply Hkeys; right; by constructor).
      apply StronglySorted_inv in Hsa as [_ Hf]. rewrite Forall_forall in Hf.
      apply not_true_iff_false. rewrite (proj2 (Hp k Hks)).
      apply (conflict_after r k0 k); auto. rewrite <- (proj2 (Hp k0 Hk0)). congruence.
    + intros i b' k -> Hk Hpk. assert (Hks : k ∈ keys s) by (apply Hkeys; left; by constructor).
      apply StronglySorted_rev, StronglySorted_inv in Hsb as [_ Hf]. rewrite Forall_forall in Hf.
      apply (conflict_before r i k); auto; [apply He, Hkeys; left; by constructor|
        apply Hbf; by constructor|by apply (proj2 (Hp k Hks))].
  - exists hit, s'. split; [done|]. split; [done|]. split; [done|]. destruct hit as [k|].
    + split; [apply Hhit|]. apply Hp; apply Hhit.
    + intros k Hk Hcf. apply Hp in Hcf; [|done]. rewrite Hhit in Hcf; done.
Qed.

(** C30: Inserting a compatible range never fails and keeps the invariant: a range
    that conflicts with a node is refused and the map keeps its contents; any
    other range becomes a node, and the other nodes stay. *)
Theorem insert_correct {V} max_cache_size (s : state V) r d :
  inv s -> entry_ok r -> Forall (compatible r) (keys s) ->
  exists res s', insert max_cache_size r d s = Ok (res, s') /\ inv s' /\
    (res = None <-> exists k, k ∈ keys s /\ conflict r k) /\
    match res with
    | None => tree s' = tree s
    | Some it => it = r /\ forall kv, kv ∈ tree s' <-> kv = (r, d) \/ kv ∈ tree s
    end.
Proof.
  intros Hinv Hr Hc. unfold insert.
  destruct (intersects_map_spec max_cache_size s r Hinv Hr Hc) as (hit & s' & -> & Hi' & Ht & Hhit).
  rewrite bind_Ok. destruct hit as [k|].
  { eexists None, s'. split; [done|]. split; [done|]. split; [|done]. split; [by eexists|done]. }
  destruct Hi' as [He Ho Hca]. unfold keys in He, Ho, Hca. rewrite Ht in He, Ho, Hca.
  destruct (tree_insert_spec r d (tree s) Hr) as (l' & E & Hs' & Hin); [|done|].
  { rewrite Forall_fmap, Forall_forall in He. rewrite Forall_forall in Hc.
    apply Forall_forall. intros kv Hkv.
    assert (kv.1 ∈ keys s) by (apply list_elem_of_fmap; by exists kv).
    split; [by apply He|]. apply no_conflict_prec; auto. by apply He. }
  rewrite Ht, E. eexists (Some r), _. split; [done|]. split; [|split; [|done]].
  - assert (Hk : forall k, k ∈ map fst l' <-> k = r \/ k ∈ keys s).
    { intros k. unfold keys. rewrite !list_elem_of_fmap. setoid_rewrite Hin. split.
      - intros (y & -> & [->|Hy]); [by left|right; by exists y].
      - intros [->|(y & -> & Hy)]; [exists (r, d); auto|exists y; auto]. }
    split; unfold keys; simpl; [|done|].
    + rewrite Forall_forall in He |- *. intros k [->|Hk']%Hk; [done|by apply He].
    + rewrite Forall_forall in Hca |- *. intros k Hk'. apply Hk. right. by apply Hca.
  - split; [done|]. intros (k & Hk & Hcf). by destruct (Hhit k Hk).
Qed.

(** ** Removal *)

Lemma filter_keys {V} (P : AddrRange.t -> Prop) `{forall k, Decision (P k)}
    `{forall kv : AddrRange.t * V, Decision (P kv.1)} (l : list (AddrRange.t * V)) :
  map fst (filter (fun kv => P kv.1) l) = filter P (map fst l).
Proof.
  induction l as [|[k v] l IH]; [done|]. simpl. rewrite !filter_cons. simpl.
  repeat case_decide; simpl in *; rewrite ?IH; tauto.
Qed.

(** [erase(p)] removes the node and no other, from the tree and from the
    cache, and keeps the invariant: no dangling iterator is left. *)
Theorem erase_correct {V} (s : state V) p :
  inv s -> inv (erase p s) /\
    forall kv, kv ∈ tree (erase p s) <-> kv ∈ tree s /\ kv.1 <> p.
Proof.
  intros [He Ho Hc]. unfold erase. split.
  - assert (Ek : keys (mkState (filter (fun kv => kv.1 <> p) (tree s)) (list_remove p (cache s))) =
      filter (fun k => k <> p) (keys s))
      by (unfold keys; simpl; apply (filter_keys (fun k => k <> p))).
    split; rewrite Ek; simpl.
    + by apply Forall_filter.
    + by apply StronglySorted_filter.
    + apply Forall_forall. intros k. unfold list_remove. rewrite !list_elem_of_filter.
      rewrite Forall_forall in Hc. intros [? ?]. auto.
  - intros kv. simpl. rewrite list_elem_of_filter. tauto.
Qed.

(** Insert two nodes, look the second up, erase both with [erase(p, q)], and
    look the same address up again. *)
Definition dangling_run : result (option AddrRange.t) :=
  let k1 := AddrRange.RangeSize 0 16 in
  let k2 := AddrRange.RangeSize 16 16 in
  let! r1 := insert 3 k1 1%nat (mkState [] []) in
  let! r2 := insert 3 k2 2%nat r1.2 in
  let! r3 := contains_addr 3 20 r2.2 in
  let s := erase_range k1 None r3.2 in
  let! r4 := contains_addr 3 20 s in
  Ok r4.1.

(** [erase(p, q)] leaves in the cache the iterators to all the erased nodes but
    the first: the last lookup of the sequence reads through a dangling one. *)
Theorem erase_range_dangling : dangling_run = Err Undefined.
Proof. vm_compute. reflexivity. Qed.

(** ** Instances of the theorems at a concrete map *)

(** A plain range followed by the two stripes of an interleaved one. *)
Definition map_example : state nat :=
  mkState [(AddrRange.mk 0 4096 [] 0, 0%nat); (AddrRange.mk 4096 8192 [64] 0, 1%nat);
           (AddrRange.mk 4096 8192 [64] 1, 2%nat)] [AddrRange.mk 4096 8192 [64] 1].

Lemma entry_mk s e ms mt g : in_uw 64 s -> in_uw 64 e -> s < e -> Forall (in_uw 64) ms ->
  0 <= mt < 2 ^ AddrRange.size_masks ms -> AddrRange.size_masks ms <= 8 ->
  AddrRange.granularity (AddrRange.mk s e ms mt) = Ok g -> entry_ok (AddrRange.mk s e ms mt).
Proof. intros. split; [done|]. split; [done|]. intros _. by exists g. Qed.

Ltac entry :=
  eapply entry_mk; [split; lia|split; lia|lia|repeat constructor; lia|done|done|reflexivity].

Lemma map_example_inv : inv map_example.
Proof.
  split.
  - do 3 (apply Forall_cons; split; [entry|]). constructor.
  - repeat (apply SSorted_cons || apply SSorted_nil || apply Forall_cons_2 || apply Forall_nil_2);
      try (right; simpl; lia). left. done.
  - apply Forall_singleton, (list_elem_of_lookup_2 _ 2). done.
Qed.

Lemma contains_addr_correct_witness :
  exists s', contains_addr 3 4160 map_example = Ok (Some (AddrRange.mk 4096 8192 [64] 1), s') /\ inv s'.
Proof.
  destruct (contains_addr_correct 3 map_example 4160 map_example_inv ltac:(lia))
    as (hit & s' & E & Hi & _ & Hk).
  exists s'. split; [|done]. rewrite E. do 2 f_equal. apply Hk.
  split; [by apply (list_elem_of_lookup_2 _ 2)|]. split; [simpl; lia|]. intros [|i] m; [|done]. intros [= <-]. reflexivity.
Defined.

Lemma insert_correct_witness :
  exists s', insert 3 (AddrRange.mk 8192 8256 [] 0) 3%nat map_example =
    Ok (Some (AddrRange.mk 8192 8256 [] 0), s') /\ inv s'.
Proof.
  destruct (insert_correct 3 map_example (AddrRange.mk 8192 8256 [] 0) 3%nat map_example_inv)
    as (res & s' & E & Hi & _); [entry| |].
  { do 3 (apply Forall_cons; split; [left; right; simpl; lia|]). constructor. }
  exists s'. split; [|done]. rewrite E. vm_compute in E. by injection E as <- _.
Defined.

Lemma erase_correct_witness : inv (erase (AddrRange.mk 4096 8192 [64] 1) map_example).
Proof. apply (erase_correct map_example), map_example_inv. Defined.
