(* ===== verification/EventQueue.v ===== *)
(** * Events and the event queue

    Model of src/gem5/src/sim/eventq.hh and eventq.cc: the linked list of
    linked lists of events, on a heap of event objects. The operations are
    those of the source, pointer assignment by pointer assignment; they refine
    the abstract queue [aq], a list of bins. *)

From S2P Require Import Prelude.

Module EventQueue.

(** Event objects are named by their address. *)
Abbreviation ptr := positive.

(** [class Event]. [queue] names the event queue the event belongs to. *)
Record event := mkEvent {
  nextBin : option ptr;
  nextInBin : option ptr;
  _when : Z;
  _priority : Z;
  flags : Z;
  queue : option nat;
}.

#[global] Instance event_eq_dec : EqDecision event.
Proof. solve_decision. Defined.

Abbreviation heap := (gmap ptr event).

Definition set_nextBin (p : option ptr) (e : event) : event :=
  mkEvent p (nextInBin e) (_when e) (_priority e) (flags e) (queue e).
Definition set_nextInBin (p : option ptr) (e : event) : event :=
  mkEvent (nextBin e) p (_when e) (_priority e) (flags e) (queue e).
Definition set_flags (f : Z) (e : event) : event :=
  mkEvent (nextBin e) (nextInBin e) (_when e) (_priority e) f (queue e).

(** [class EventBase]: the flags. *)
Definition PublicRead : Z := 0x003f.
Definition PublicWrite : Z := 0x001d.
Definition Squashed : Z := 0x0001.
Definition Scheduled : Z := 0x0002.
Definition Managed : Z := 0x0004.
Definition IsExitEvent : Z := 0x0010.
Definition IsMainQueue : Z := 0x0020.
Definition Initialized : Z := 0x7a40.
Definition InitMask : Z := 0xffc0.

(** [Flags<unsigned short>]. *)
Definition isSet (f mask : Z) : bool := negb (Z.land f mask =? 0).
Definition noneSet (f mask : Z) : bool := Z.land f mask =? 0.
Definition fset (f mask : Z) : Z := Z.lor f mask.
Definition fclear (f mask : Z) : Z := Z.land f (unot 16 mask).

Definition scheduled (e : event) : bool := isSet (flags e) Scheduled.
Definition squashed (e : event) : bool := isSet (flags e) Squashed.
Definition isExitEvent (e : event) : bool := isSet (flags e) IsExitEvent.
Definition isManaged (e : event) : bool := isSet (flags e) Managed.
Definition initialized (e : event) : bool := Z.land (flags e) InitMask =? Initialized.

(** [Event(p, f)]. *)
Definition newEvent (p f : Z) : result event :=
  guard! noneSet f (unot 16 PublicWrite);
  Ok (mkEvent None None 0 p (Z.lor Initialized f) None).

(** [setWhen], [squash], [setFlags], [clearFlags]. *)
Definition setWhen (when : Z) (q : nat) (e : event) : event :=
  mkEvent (nextBin e) (nextInBin e) when (_priority e) (flags e) (Some q).
Definition squash (e : event) : event := set_flags (fset (flags e) Squashed) e.
Definition setFlags (f : Z) (e : event) : result event :=
  guard! noneSet f (unot 16 PublicWrite); Ok (set_flags (fset (flags e) f) e).
Definition clearFlags (f : Z) (e : event) : result event :=
  guard! noneSet f (unot 16 PublicWrite); Ok (set_flags (fclear (flags e) f) e).

(** The comparison operators of events. *)
Definition ltb (l r : event) : bool :=
  (_when l <? _when r) || ((_when l =? _when r) && (_priority l <? _priority r)).
Definition gtb (l r : event) : bool :=
  (_when r <? _when l) || ((_when l =? _when r) && (_priority r <? _priority l)).
Definition leb (l r : event) : bool :=
  (_when l <? _when r) || ((_when l =? _when r) && (_priority l <=? _priority r)).
Definition geb (l r : event) : bool :=
  (_when r <? _when l) || ((_when l =? _when r) && (_priority r <=? _priority l)).
Definition eqb (l r : event) : bool := (_when l =? _when r) && (_priority l =? _priority r).
Definition neqb (l r : event) : bool :=
  negb (_when l =? _when r) || negb (_priority l =? _priority r).

(** Reading an object through a pointer; there is none at a freed address. *)
Definition get (h : heap) (p : ptr) : result event :=
  match h !! p with Some e => Ok e | None => Err Undefined end.
Definition upd (f : event -> event) (h : heap) (p : ptr) : result heap :=
  let! e := get h p in Ok (<[p := f e]> h).

(** [Event::insertBefore]; the returned pointer is [event]. *)
Definition insertBefore (h : heap) (event : ptr) (curr : option ptr) : result heap :=
  let! e := get h event in
  match curr with
  | None => Ok (<[event := set_nextInBin None (set_nextBin None e)]> h)
  | Some c =>
      let! ce := get h c in
      if ltb e ce then Ok (<[event := set_nextInBin None (set_nextBin (Some c) e)]> h)
      else Ok (<[event := set_nextInBin (Some c) (set_nextBin (nextBin ce) e)]> h)
  end.

(** The loop of [insert] and of [remove] over the tops of the bins. *)
Fixpoint find_bin (fuel : nat) (h : heap) (e : event) (prev : ptr) (curr : option ptr) :
    result (ptr * option ptr) :=
  match curr with
  | None => Ok (prev, None)
  | Some c =>
      let! ce := get h c in
      if ltb ce e then
        match fuel with
        | O => Err OutOfFuel
        | S fuel => find_bin fuel h e c (nextBin ce)
        end
      else Ok (prev, Some c)
  end.

(** [EventQueue::insert]: the heap and the head of the queue afterwards. *)
Definition insert (h : heap) (head : option ptr) (event : ptr) : result (heap * option ptr) :=
  match head with
  | None => let! h := insertBefore h event None in Ok (h, Some event)
  | Some hd =>
      let! e := get h event in
      let! he := get h hd in
      if leb e he then
        let! h := insertBefore h event (Some hd) in Ok (h, Some event)
      else
        let! pc := find_bin (base.size h) h e hd (nextBin he) in
        let! h := insertBefore h event pc.2 in
        let! h := upd (set_nextBin (Some event)) h pc.1 in
        Ok (h, Some hd)
  end.

(** The loop of [removeItem]: the predecessor of [event] in the bin. *)
Fixpoint find_in_bin (fuel : nat) (h : heap) (event curr : ptr) (next : option ptr) : result ptr :=
  match next with
  | None => Err Panic
  | Some n =>
      if bool_decide (event = n) then Ok curr
      else
        match fuel with
        | O => Err OutOfFuel
        | S fuel => let! ne := get h n in find_in_bin fuel h event n (nextInBin ne)
        end
  end.

(** [Event::removeItem]: the heap and the new top of the bin. *)
Definition removeItem (h : heap) (event top : ptr) : result (heap * option ptr) :=
  let! te := get h top in
  if bool_decide (event = top) then
    match nextInBin te with
    | None => Ok (h, nextBin te)
    | Some next => let! h := upd (set_nextBin (nextBin te)) h next in Ok (h, Some next)
    end
  else
    let! curr := find_in_bin (base.size h) h event top (nextInBin te) in
    let! ne := get h event in
    let! h := upd (set_nextInBin (nextInBin ne)) h curr in
    Ok (h, Some top).

(** [EventQueue::remove] on queue [this]. *)
Definition remove (this : nat) (h : heap) (head : option ptr) (event : ptr) :
    result (heap * option ptr) :=
  match head with
  | None => Err Panic
  | Some hd =>
      let! e := get h event in
      guard! bool_decide (queue e = Some this);
      let! he := get h hd in
      if eqb he e then removeItem h event hd
      else
        let! pc := find_bin (base.size h) h e hd (nextBin he) in
        match pc.2 with
        | None => Err Panic
        | Some curr =>
            let! ce := get h curr in
            if neqb ce e then Err Panic
            else
              let! hp := removeItem h event curr in
              let! h := upd (set_nextBin hp.2) hp.1 pc.1 in
              Ok (h, Some hd)
        end
  end.

(** [class EventQueue], with the event objects it points to. *)
Record state := mkState {
  self : nat;
  events : heap;
  head : option ptr;
  _curTick : Z;
  async_queue : list ptr;
}.

Definition with_events (h : heap) (s : state) : state :=
  mkState (self s) h (head s) (_curTick s) (async_queue s).
Definition with_queue (hp : heap * option ptr) (s : state) : state :=
  mkState (self s) hp.1 hp.2 (_curTick s) (async_queue s).
Definition setCurTick (newVal : Z) (s : state) : state :=
  mkState (self s) (events s) (head s) newVal (async_queue s).

(** [EventQueue(n)]; the events exist independently of the queue. *)
Definition newQueue (this : nat) (h : heap) : state := mkState this h None 0 [].

(** Changing one event of the state. *)
Definition upd_event (f : event -> event) (s : state) (p : ptr) : result state :=
  let! h := upd f (events s) p in Ok (with_events h s).

(** [release]: with the default [releaseImpl], an event that manages its own
    life is deleted when it is not scheduled. [acquire] has no effect. *)
Definition release (s : state) (event : ptr) : result state :=
  let! e := get (events s) event in
  if isManaged e then
    if negb (scheduled e) then Ok (with_events (base.delete event (events s)) s) else Ok s
  else Ok s.
Definition acquire (s : state) (event : ptr) : result state :=
  let! _ := get (events s) event in Ok s.

Definition asyncInsert (s : state) (event : ptr) : state :=
  mkState (self s) (events s) (head s) (_curTick s) (async_queue s ++ [event]).

Definition empty (s : state) : bool := match head s with None => true | Some _ => false end.

Definition nextTick (s : state) : result Z :=
  match head s with
  | None => Err Undefined
  | Some hd => let! e := get (events s) hd in Ok (_when e)
  end.

Definition insert_event (s : state) (event : ptr) : result state :=
  let! hp := insert (events s) (head s) event in Ok (with_queue hp s).
Definition remove_event (s : state) (event : ptr) : result state :=
  let! hp := remove (self s) (events s) (head s) event in Ok (with_queue hp s).

(** The global variables the queue operations read. *)
Record globals := mkGlobals { inParallelMode : bool; curEventQueue : nat }.

Section Operations.
Context (g : globals).

Definition other_thread (s : state) : bool := negb (self s =? curEventQueue g)%nat.

Definition schedule (s : state) (event : ptr) (when : Z) (global : bool) : result state :=
  guard! _curTick s <=? when;
  let! e := get (events s) event in
  guard! negb (scheduled e);
  guard! initialized e;
  let! s := upd_event (setWhen when (self s)) s event in
  let! s := (if inParallelMode g && (other_thread s || global)
             then Ok (asyncInsert s event) else insert_event s event) in
  let! s := upd_event (fun e => set_flags (fset (flags e) Scheduled) e) s event in
  acquire s event.

Definition deschedule (s : state) (event : ptr) : result state :=
  let! e := get (events s) event in
  guard! scheduled e;
  guard! initialized e;
  guard! negb (inParallelMode g) || negb (other_thread s);
  let! s := remove_event s event in
  let! s := upd_event (fun e => set_flags (fclear (flags e) Squashed) e) s event in
  let! s := upd_event (fun e => set_flags (fclear (flags e) Scheduled) e) s event in
  release s event.

Definition reschedule (s : state) (event : ptr) (when : Z) (always : bool) : result state :=
  guard! _curTick s <=? when;
  let! e := get (events s) event in
  guard! always || scheduled e;
  guard! initialized e;
  guard! negb (inParallelMode g) || negb (other_thread s);
  let! s := (if scheduled e then remove_event s event else acquire s event) in
  let! s := upd_event (setWhen when (self s)) s event in
  let! s := insert_event s event in
  let! s := upd_event (fun e => set_flags (fclear (flags e) Squashed) e) s event in
  upd_event (fun e => set_flags (fset (flags e) Scheduled) e) s event.

(** [handleAsyncInsertions]. *)
Fixpoint async_loop (s : state) (q : list ptr) : result state :=
  match q with
  | [] => Ok s
  | event :: q =>
      let! s := insert_event s event in
      async_loop (mkState (self s) (events s) (head s) (_curTick s) q) q
  end.
Definition handleAsyncInsertions (s : state) : result state :=
  guard! negb (other_thread s);
  async_loop s (async_queue s).

(** The destructor: deschedule the head until the queue is empty. *)
Fixpoint drain (fuel : nat) (s : state) : result state :=
  match head s with
  | None => Ok s
  | Some hd =>
      match fuel with
      | O => Err OutOfFuel
      | S fuel => let! s := deschedule s hd in drain fuel s
      end
  end.

Section Service.
(** [process()] of the event objects. *)
Context (process : ptr -> state -> result state).

(** Unlinking the head. *)
Definition pop (s : state) (event : ptr) : result state :=
  let! s := upd_event (fun e => set_flags (fclear (flags e) Scheduled) e) s event in
  let! e := get (events s) event in
  match nextInBin e with
  | Some next =>
      let! h := upd (set_nextBin (nextBin e)) (events s) next in Ok (with_queue (h, Some next) s)
  | None => Ok (with_queue (events s, nextBin e) s)
  end.

(** [serviceOne]: the returned pointer is the exit event, if any. *)
Definition serviceOne (s : state) : result (option ptr * state) :=
  match head s with
  | None => Err Undefined
  | Some event =>
      let! s := pop s event in
      let! e := get (events s) event in
      if negb (squashed e) then
        let! s := process event (setCurTick (_when e) s) in
        let! e := get (events s) event in
        if isExitEvent e then
          guard! negb (isManaged e) || negb (isSet (flags e) IsMainQueue);
          Ok (Some event, s)
        else let! s := release s event in Ok (None, s)
      else
        let! s := upd_event (fun e => set_flags (fclear (flags e) Squashed) e) s event in
        let! s := release s event in Ok (None, s)
  end.

(** [serviceEvents]. *)
Fixpoint service_loop (fuel : nat) (when : Z) (s : state) : result state :=
  if empty s then Ok s
  else
    let! t := nextTick s in
    if when <? t then Ok s
    else
      match fuel with
      | O => Err OutOfFuel
      | S fuel => let! r := serviceOne s in service_loop fuel when r.2
      end.
Definition serviceEvents (fuel : nat) (when : Z) (s : state) : result state :=
  let! s := service_loop fuel when s in Ok (setCurTick when s).

End Service.
End Operations.

(** [debugVerify]: the inner and the outer loop; [None] is a reported error. *)
Fixpoint verify_bin (fuel : nat) (h : heap) (p : option ptr) (time prio : Z) (seen : gset ptr) :
    result (option (Z * Z * gset ptr)) :=
  match p with
  | None => Ok (Some (time, prio, seen))
  | Some x =>
      let! e := get h x in
      if _when e <? time then Ok None
      else if (_when e =? time) && (_priority e <? prio) then Ok None
      else if bool_decide (x ∈ seen) then Ok None
      else
        match fuel with
        | O => Err OutOfFuel
        | S fuel => verify_bin fuel h (nextInBin e) (_when e) (_priority e) ({[x]} ∪ seen)
        end
  end.
Fixpoint verify_bins (fuel : nat) (h : heap) (p : option ptr) (time prio : Z) (seen : gset ptr) :
    result bool :=
  match p with
  | None => Ok true
  | Some x =>
      let! r := verify_bin (base.size h) h p time prio seen in
      match r with
      | None => Ok false
      | Some (time, prio, seen) =>
          match fuel with
          | O => Err OutOfFuel
          | S fuel => let! e := get h x in verify_bins fuel h (nextBin e) time prio seen
          end
      end
  end.
Definition debugVerify (s : state) : result bool :=
  verify_bins (base.size (events s)) (events s) (head s) 0 0 ∅.

(** [replaceHead]. *)
Definition replaceHead (p : option ptr) (s : state) : option ptr * state :=
  (head s, with_queue (events s, p) s).

(** [serialize] and [unserialize]: the scalars of a checkpoint section; the
    flags are written as a [short]. *)
Record checkpoint := mkCheckpoint { cp_when : Z; cp_priority : Z; cp_flags : Z }.
Definition serialize (e : event) : checkpoint :=
  mkCheckpoint (_when e) (_priority e) (sw 16 (flags e)).
Definition unserialize (cp : checkpoint) (e : event) : result event :=
  guard! negb (scheduled e);
  guard! initialized e;
  let f := fset (u16 (cp_flags cp)) Initialized in
  let f := (if isSet f Scheduled && negb (isSet f Squashed)
            then fclear f (Z.lor Squashed Scheduled) else f) in
  Ok (mkEvent (nextBin e) (nextInBin e) (cp_when cp) (cp_priority cp) f (queue e)).

(** [checkpointReschedule]. *)
Definition checkpointReschedule (s : state) (event : ptr) : result state :=
  let! e := get (events s) event in
  if isSet (flags e) Scheduled then insert_event s event else Ok s.

(** [UNSERIALIZE_EVENT]. *)
Definition unserialize_event (cp : checkpoint) (s : state) (event : ptr) : result state :=
  let! e := get (events s) event in
  let! e' := unserialize cp e in
  checkpointReschedule (with_events (<[event := e']> (events s)) s) event.

End EventQueue.

Import EventQueue.

(** ** The abstract queue

    A bin holds the events of one time and priority, the last one scheduled
    first; the bins are in increasing order. *)
Abbreviation key := (Z * Z)%type.
Abbreviation aq := (list (key * list ptr)).

Definition ekey (e : event) : key := (_when e, _priority e).
Definition kltb (k1 k2 : key) : bool :=
  (k1.1 <? k2.1) || ((k1.1 =? k2.1) && (k1.2 <? k2.2)).
Definition klt (k1 k2 : key) : Prop := k1.1 < k2.1 \/ k1.1 = k2.1 /\ k1.2 < k2.2.

Definition elems (q : aq) : list ptr := concat (map snd q).
Definition flat (q : aq) : list (key * ptr) := flat_map (fun b => map (pair b.1) b.2) q.

Fixpoint a_insert (k : key) (x : ptr) (q : aq) : aq :=
  match q with
  | [] => [(k, [x])]
  | (k', l) :: q' =>
      if kltb k k' then (k, [x]) :: q
      else if kltb k' k then (k', l) :: a_insert k x q'
      else (k', x :: l) :: q'
  end.

Definition cons_bin (k : key) (l : list ptr) (q : aq) : aq :=
  match l with [] => q | _ => (k, l) :: q end.

Fixpoint a_remove (k : key) (x : ptr) (q : aq) : aq :=
  match q with
  | [] => []
  | (k', l) :: q' =>
      if kltb k' k then (k', l) :: a_remove k x q'
      else cons_bin k' (filter (fun y => y <> x) l) q'
  end.

(** ** Representation of the abstract queue in the heap

    Only the [nextBin] pointer of the top event of a bin is meaningful; those
    of the events below it may be stale. *)
Fixpoint chain (h : heap) (p : option ptr) (l : list ptr) : Prop :=
  match l with
  | [] => p = None
  | x :: l => p = Some x /\ exists e, h !! x = Some e /\ chain h (nextInBin e) l
  end.

Definition has_key (h : heap) (k : key) (x : ptr) : Prop :=
  exists e, h !! x = Some e /\ ekey e = k.

Fixpoint bins (h : heap) (p : option ptr) (q : aq) : Prop :=
  match q with
  | [] => p = None
  | (k, l) :: q =>
      exists x e, p = Some x /\ h !! x = Some e /\ chain h (Some x) l /\
        Forall (has_key h k) l /\ bins h (nextBin e) q
  end.

(** The fields other than the links. *)
Definition data (e : event) : Z * Z * Z * option nat := (_when e, _priority e, flags e, queue e).
Definition frame (h h' : heap) : Prop := forall y, data <$> h' !! y = data <$> h !! y.
Definition agree_off (l : list ptr) (h h' : heap) : Prop := forall y, y ∉ l -> h' !! y = h !! y.

Lemma kltb_spec k1 k2 : kltb k1 k2 = true <-> klt k1 k2.
Proof.
  unfold kltb, klt. rewrite orb_true_iff, andb_true_iff, !Z.ltb_lt, Z.eqb_eq. done.
Qed.

Lemma kltb_false k1 k2 : kltb k1 k2 = false -> k1 = k2 \/ klt k2 k1.
Proof.
  intros H. destruct k1 as [a b], k2 as [c d]. unfold kltb, klt in *. simpl in *.
  apply orb_false_iff in H as [H1 H2]. apply Z.ltb_ge in H1.
  apply andb_false_iff in H2 as [H2|H2]; [apply Z.eqb_neq in H2; lia|apply Z.ltb_ge in H2].
  destruct (Z.eq_dec a c); [|lia]. destruct (Z.eq_dec b d); [left; by subst|lia].
Qed.

Lemma klt_irrefl k : ~ klt k k.
Proof. unfold klt. lia. Qed.

Lemma kltb_irrefl k : kltb k k = false.
Proof. apply not_true_iff_false. rewrite kltb_spec. apply klt_irrefl. Qed.

Lemma klt_trans k1 k2 k3 : klt k1 k2 -> klt k2 k3 -> klt k1 k3.
Proof. unfold klt. lia. Qed.

Lemma klt_false k1 k2 : klt k1 k2 -> kltb k2 k1 = false.
Proof.
  intros H. apply not_true_iff_false. rewrite kltb_spec. intros H'.
  by apply (klt_irrefl k1), (klt_trans k1 k2).
Qed.

Lemma leb_key e1 e2 : leb e1 e2 = negb (kltb (ekey e2) (ekey e1)).
Proof.
  unfold leb, kltb, ekey. simpl. rewrite (Z.eqb_sym (_when e2)).
  destruct (Z.ltb_spec (_when e1) (_when e2)), (Z.ltb_spec (_when e2) (_when e1)),
    (Z.eqb_spec (_when e1) (_when e2)); try lia; simpl; try done.
Qed.

Lemma eqb_key e1 e2 : eqb e1 e2 = bool_decide (ekey e1 = ekey e2).
Proof.
  unfold eqb, ekey. case_bool_decide as H.
  - injection H as -> ->. by rewrite !Z.eqb_refl.
  - apply not_true_iff_false. rewrite andb_true_iff, !Z.eqb_eq. intros [E1 E2]. apply H. congruence.
Qed.

Lemma neqb_key e1 e2 : neqb e1 e2 = negb (eqb e1 e2).
Proof. unfold neqb, eqb. by destruct (_when e1 =? _when e2), (_priority e1 =? _priority e2). Qed.

Lemma get_Ok h p e : h !! p = Some e -> get h p = Ok e.
Proof. unfold get. by intros ->. Qed.

Lemma upd_Ok f h p e : h !! p = Some e -> upd f h p = Ok (<[p := f e]> h).
Proof. intros H. unfold upd. by rewrite (get_Ok _ _ _ H). Qed.

Lemma frame_refl h : frame h h.
Proof. done. Qed.

Lemma frame_trans h1 h2 h3 : frame h1 h2 -> frame h2 h3 -> frame h1 h3.
Proof. intros H1 H2 y. by rewrite H2, H1. Qed.

Lemma frame_upd h x e e' : h !! x = Some e -> data e' = data e -> frame h (<[x := e']> h).
Proof.
  intros Hx Hd y. destruct (decide (y = x)) as [->|Hne].
  - rewrite lookup_insert_eq, Hx. simpl. by f_equal.
  - by rewrite lookup_insert_ne.
Qed.

Lemma frame_lookup h h' x e : frame h h' -> h !! x = Some e ->
  exists e', h' !! x = Some e' /\ data e' = data e.
Proof.
  intros Hf Hx. specialize (Hf x). rewrite Hx in Hf. simpl in Hf.
  destruct (h' !! x) as [e'|]; [|done]. exists e'. split; [done|]. by apply (inj Some).
Qed.

Lemma data_ekey e e' : data e' = data e -> ekey e' = ekey e.
Proof. unfold data, ekey. congruence. Qed.

Lemma frame_key h h' k l : frame h h' -> Forall (has_key h k) l -> Forall (has_key h' k) l.
Proof.
  intros Hf Hl. eapply Forall_impl; [exact Hl|]. intros x (e & Hx & Hk).
  destruct (frame_lookup _ _ _ _ Hf Hx) as (e' & Hx' & Hd). exists e'. split; [done|].
  by rewrite (data_ekey _ _ Hd).
Qed.

Lemma agree_off_trans l h1 h2 h3 : agree_off l h1 h2 -> agree_off l h2 h3 -> agree_off l h1 h3.
Proof. intros H1 H2 y Hy. by rewrite H2, H1. Qed.

Lemma agree_off_upd l h x e : x ∈ l -> agree_off l h (<[x := e]> h).
Proof. intros Hx y Hy. rewrite lookup_insert_ne; [done|]. by intros ->. Qed.

Lemma agree_off_mono l l' h h' : (forall y, y ∈ l -> y ∈ l') -> agree_off l h h' -> agree_off l' h h'.
Proof. intros Hs Ha y Hy. apply Ha. intros Hl. by apply Hy, Hs. Qed.

Lemma chain_ext h h' p l : (forall y, y ∈ l -> nextInBin <$> h' !! y = nextInBin <$> h !! y) ->
  chain h p l -> chain h' p l.
Proof.
  revert p. induction l as [|x l IH]; intros p Hx; simpl; [done|].
  intros [-> (e & He & Hc)]. split; [done|].
  pose proof (Hx x ltac:(by constructor)) as Hn. rewrite He in Hn. simpl in Hn.
  destruct (h' !! x) as [e'|]; [|done]. injection Hn as Hn. exists e'. split; [done|].
  rewrite Hn. apply IH; [|done]. intros y Hy. apply Hx. by constructor.
Qed.

Lemma elems_cons k l q : elems ((k, l) :: q) = l ++ elems q.
Proof. done. Qed.

(** The fields [bins] depends on. *)
Definition links (e : event) : option ptr * option ptr * (Z * Z) := (nextBin e, nextInBin e, ekey e).

Lemma bins_links h h' p q : (forall y, y ∈ elems q -> links <$> h' !! y = links <$> h !! y) ->
  bins h p q -> bins h' p q.
Proof.
  assert (Hl : forall y e, links <$> h' !! y = links <$> h !! y -> h !! y = Some e ->
    exists e', h' !! y = Some e' /\ nextBin e' = nextBin e /\ nextInBin e' = nextInBin e /\ ekey e' = ekey e).
  { intros y e Hy He. rewrite He in Hy. destruct (h' !! y) as [e'|]; [|done]. exists e'.
    unfold links in Hy. simpl in Hy. by injection Hy as ? ? ? ?; repeat split; unfold ekey; congruence. }
  revert p. induction q as [|[k l] q IH]; intros p Hx; simpl; [done|].
  setoid_rewrite elem_of_app in Hx. intros (x & e & -> & He & Hc & Hk & Hb).
  assert (x ∈ l) by (destruct l; [done|]; destruct Hc as [[= ->] _]; by constructor).
  destruct (Hl x e) as (e' & He' & Hn & _ & _); [auto|done|].
  exists x, e'. split; [done|]. split; [done|]. split; [|split].
  - eapply chain_ext; [|done]. intros y Hy. specialize (Hx y (or_introl Hy)).
    destruct (h !! y) as [ey|] eqn:Ey.
    + destruct (Hl y ey) as (ey' & -> & _ & Hn' & _); [congruence|done|]. simpl. by rewrite Hn'.
    + by destruct (h' !! y).
  - rewrite Forall_forall in Hk |- *. intros y Hy. destruct (Hk y Hy) as (ey & Hey & Hky).
    destruct (Hl y ey) as (ey' & Hey' & _ & _ & Hky'); [auto|done|]. exists ey'. split; [done|congruence].
  - rewrite Hn. apply IH; [|done]. auto.
Qed.

Lemma bins_ext h h' p q : (forall y, y ∈ elems q -> h' !! y = h !! y) -> bins h p q -> bins h' p q.
Proof. intros Hx. apply bins_links. intros y Hy. by rewrite Hx. Qed.

Lemma bins_lookup h p q x : bins h p q -> x ∈ elems q -> exists e k l,
  h !! x = Some e /\ ekey e = k /\ (k, l) ∈ q /\ x ∈ l.
Proof.
  revert p. induction q as [|[k l] q IH]; intros p; simpl; [intros _ ?%elem_of_nil; done|].
  intros (t & e & _ & _ & _ & Hk & Hb) Hx. rewrite elems_cons, elem_of_app in Hx.
  destruct Hx as [Hx|Hx].
  - rewrite Forall_forall in Hk. destruct (Hk x Hx) as (e' & He' & Hk'). exists e', k, l.
    repeat split; auto. by constructor.
  - destruct (IH _ Hb Hx) as (e' & k' & l' & He & Hk' & Hin & Hl). exists e', k', l'.
    repeat split; auto. by constructor.
Qed.

Definition sorted (q : aq) : Prop := StronglySorted klt (map fst q).

Lemma sorted_cons_inv k l q : sorted ((k, l) :: q) -> sorted q /\ Forall (klt k) (map fst q).
Proof. intros H. by apply StronglySorted_inv in H. Qed.

(** The key of the top of a bin is the key of the bin. *)
Lemma bins_top h t k l q : bins h (Some t) ((k, l) :: q) ->
  exists te l', h !! t = Some te /\ ekey te = k /\ l = t :: l' /\ chain h (nextInBin te) l' /\
    Forall (has_key h k) l /\ bins h (nextBin te) q.
Proof.
  intros (t' & te & [= <-] & Ht & Hc & Hk & Hb). destruct l as [|t' l]; [done|].
  destruct Hc as [[= <-] (e & He & Hc)]. rewrite Ht in He. injection He as <-.
  exists te, l. split; [done|]. split; [|done]. inversion Hk as [|? ? (e' & He' & Hk')]. congruence.
Qed.

Lemma bins_mk h t te k l q : h !! t = Some te -> chain h (nextInBin te) l ->
  Forall (has_key h k) (t :: l) -> bins h (nextBin te) q -> bins h (Some t) ((k, t :: l) :: q).
Proof. intros Ht Hc Hk Hb. exists t, te. repeat split; auto. by exists te. Qed.

(** ** Insertion *)

(** [insertBefore] at the place of the event, where no earlier bin remains. *)
Lemma insertBefore_spec h x e c q : h !! x = Some e -> x ∉ elems q -> bins h c q ->
  match q with [] => True | (k, _) :: _ => kltb k (ekey e) = false end ->
  exists h', insertBefore h x c = Ok h' /\ bins h' (Some x) (a_insert (ekey e) x q) /\
    frame h h' /\ agree_off [x] h h'.
Proof.
  intros Hx Hn Hb Hk. unfold insertBefore. rewrite (get_Ok _ _ _ Hx), bind_Ok.
  assert (Hnew : forall nb ni, let e' := set_nextInBin ni (set_nextBin nb e) in
    frame h (<[x := e']> h) /\ agree_off [x] h (<[x := e']> h) /\
    has_key (<[x := e']> h) (ekey e) x /\ (forall p, bins h p q -> bins (<[x := e']> h) p q)).
  { intros nb ni e'. split; [by apply (frame_upd _ _ e)|]. split; [apply agree_off_upd; set_solver|].
    split; [exists e'; by rewrite lookup_insert_eq|]. intros p. apply bins_ext.
    intros y Hy. rewrite lookup_insert_ne; [done|]. by intros ->. }
  destruct q as [|[k l] q]; simpl in Hb.
  - subst c. destruct (Hnew None None) as (Hf & Ha & Hkx & _). eexists. split; [done|].
    split; [|done]. eapply bins_mk; [apply lookup_insert_eq|done|by constructor|done].
  - pose proof Hb as (t & te0 & -> & _). pose proof Hb as Hb0.
    apply bins_top in Hb as (te & l' & Ht & Hte & -> & Hc & Hkl & Hb).
    rewrite (get_Ok _ _ _ Ht), bind_Ok. change (ltb e te) with (kltb (ekey e) (ekey te)).
    rewrite Hte. simpl a_insert. rewrite Hk. destruct (kltb (ekey e) k) eqn:El.
    + destruct (Hnew (Some t) None) as (Hf & Ha & Hkx & Hbx). eexists. split; [done|].
      split; [|done]. eapply bins_mk; [apply lookup_insert_eq|done|by constructor|by apply Hbx].
    + apply kltb_false in El as [<-|El%kltb_spec]; [|congruence].
      destruct (Hnew (nextBin te) (Some t)) as (Hf & Ha & Hkx & Hbx). eexists. split; [done|].
      split; [|done]. destruct (Hbx _ Hb0) as (t' & te' & [= <-] & _ & Hc' & Hkl' & _).
      eapply bins_mk; [apply lookup_insert_eq|exact Hc'|by constructor|]. simpl nextBin.
      eapply bins_ext; [|exact Hb]. intros y Hy. rewrite lookup_insert_ne; [done|]. intros <-.
      apply Hn. rewrite elems_cons. apply elem_of_app. by right.
Qed.

(** Linking a changed rest of the queue below an unchanged or relinked top. *)
Lemma bins_relink h h' t te te' k l q : frame h h' -> agree_off q h h' ->
  h !! t = Some te -> h' !! t = Some te' -> nextInBin te' = nextInBin te ->
  (forall y, y ∈ l -> y ∉ q) -> chain h (nextInBin te) l -> Forall (has_key h k) (t :: l) ->
  forall r, bins h' (nextBin te') r -> bins h' (Some t) ((k, t :: l) :: r).
Proof.
  intros Hf Ha Ht Ht' Hn Hl Hc Hk r Hr. eapply bins_mk; [done| |by eapply frame_key|done].
  rewrite Hn. eapply chain_ext; [|done]. intros y Hy. rewrite Ha; auto.
Qed.

Lemma a_insert_elems k x q : elems (a_insert k x q) ≡ₚ x :: elems q.
Proof.
  induction q as [|[k' l] q IH]; simpl; [done|].
  destruct (kltb k k'); [done|]. destruct (kltb k' k); rewrite !elems_cons; [|done].
  rewrite IH. by rewrite Permutation_middle.
Qed.

(** The part of [insert] after the test of the head. *)
Definition insert_tail (fuel : nat) (h : heap) (e : event) (x p : ptr) (c : option ptr) : result heap :=
  let! pc := find_bin fuel h e p c in
  let! h := insertBefore h x pc.2 in
  upd (set_nextBin (Some x)) h pc.1.

Abbreviation insert_tail_post h h' x p pe pe' rest rest' :=
  (h' !! p = Some pe' /\ nextInBin pe' = nextInBin pe /\ bins h' (nextBin pe') rest' /\
   frame h h' /\ agree_off (x :: p :: elems rest) h h').

Lemma insert_here h x e p pe fuel rest : h !! x = Some e -> h !! p = Some pe ->
  NoDup (x :: p :: elems rest) -> bins h (nextBin pe) rest ->
  match rest with [] => True | (k, _) :: _ => kltb k (ekey e) = false end ->
  exists h' pe', insert_tail fuel h e x p (nextBin pe) = Ok h' /\
    insert_tail_post h h' x p pe pe' rest (a_insert (ekey e) x rest).
Proof.
  intros Hx Hp Hnd Hb Hk. rewrite !NoDup_cons, not_elem_of_cons in Hnd. destruct Hnd as ([? ?] & ? & ?).
  assert (Hstop : find_bin fuel h e p (nextBin pe) = Ok (p, nextBin pe)).
  { destruct rest as [|[k l] rest]; [simpl in Hb; rewrite Hb; by destruct fuel|].
    pose proof Hb as (t & te & Et & _). rewrite Et in Hb |- *.
    apply bins_top in Hb as (te' & l' & Ht & Hkt & _).
    destruct fuel; simpl; rewrite (get_Ok _ _ _ Ht), bind_Ok;
      change (ltb te' e) with (kltb (ekey te') (ekey e)); by rewrite Hkt, Hk. }
  unfold insert_tail. rewrite Hstop, bind_Ok.
  destruct (insertBefore_spec h x e (nextBin pe) rest) as (h1 & E1 & Hb1 & Hf1 & Ha1); [done..|].
  simpl. rewrite E1, bind_Ok.
  assert (Hp1 : h1 !! p = Some pe) by (rewrite Ha1; [done|]; by rewrite list_elem_of_singleton).
  rewrite (upd_Ok _ _ _ _ Hp1). eexists _, (set_nextBin (Some x) pe). split; [done|].
  rewrite lookup_insert_eq. split; [done|]. split; [done|]. split; [|split].
  - eapply bins_ext; [|exact Hb1]. intros y Hy. rewrite lookup_insert_ne; [done|]. intros <-.
    rewrite a_insert_elems, elem_of_cons in Hy. by destruct Hy.
  - eapply frame_trans; [exact Hf1|]. by apply (frame_upd _ _ pe).
  - eapply agree_off_trans; [eapply agree_off_mono; [|exact Ha1]|apply agree_off_upd]; set_solver +.
Qed.

Lemma insert_tail_spec h x e rest : h !! x = Some e -> forall fuel p pe,
  h !! p = Some pe -> NoDup (x :: p :: elems rest) -> bins h (nextBin pe) rest ->
  (length rest <= fuel)%nat ->
  exists h' pe', insert_tail fuel h e x p (nextBin pe) = Ok h' /\
    insert_tail_post h h' x p pe pe' rest (a_insert (ekey e) x rest).
Proof.
  intros Hx. induction rest as [|[k l] rest IH]; intros fuel p pe Hp Hnd Hb Hfuel.
  { by apply insert_here. }
  destruct (kltb k (ekey e)) eqn:Ek; [|by apply insert_here].
  pose proof Hb as (t & te0 & Et & _). rewrite Et in Hb.
  apply bins_top in Hb as (te & l' & Ht & Hk & -> & Hc & Hkl & Hbr).
  destruct fuel as [|fuel]; simpl in Hfuel; [lia|]. rewrite elems_cons in Hnd. simpl in Hnd.
  assert (Hoff : forall y, y ∈ p :: l' -> y ∉ x :: t :: elems rest).
  { rewrite !NoDup_cons, NoDup_app in Hnd. set_solver +Hnd. }
  destruct (IH fuel t te) as (h' & te' & E & Ht' & Hn' & Hb' & Hf & Ha); [done| |done|lia|].
  { rewrite !NoDup_cons, NoDup_app in Hnd. rewrite !NoDup_cons. set_solver +Hnd. }
  exists h', pe. unfold insert_tail. rewrite Et. simpl.
  rewrite (get_Ok _ _ _ Ht), bind_Ok. change (ltb te e) with (kltb (ekey te) (ekey e)).
  rewrite Hk, Ek. split; [exact E|].
  split; [rewrite Ha; [done|apply Hoff; by left]|].
  split; [done|]. split; [|split; [done|]].
  - rewrite (klt_false k) by by apply kltb_spec.
    eapply bins_relink; eauto. intros y Hy. apply Hoff. by constructor.
  - eapply agree_off_mono; [|exact Ha]. rewrite elems_cons. set_solver +.
Qed.

(** The number of events of a queue is at most the number of objects, which is
    the fuel of the loops. *)
Lemma elems_size h l : NoDup l -> (forall y, y ∈ l -> is_Some (h !! y)) ->
  (length l <= base.size (h : heap))%nat.
Proof.
  intros Hnd Hin. rewrite <- (size_list_to_set (C := gset ptr) l) by done.
  rewrite <- (size_dom (D := gset ptr)). apply subseteq_size. intros y Hy.
  apply elem_of_dom, Hin. by apply elem_of_list_to_set in Hy.
Qed.

Lemma bins_elems h p q y : bins h p q -> y ∈ elems q -> is_Some (h !! y).
Proof. intros Hb Hy. destruct (bins_lookup _ _ _ _ Hb Hy) as (e & _ & _ & -> & _). done. Qed.

Lemma bins_length h p q : bins h p q -> (length q <= length (elems q))%nat.
Proof.
  revert p. induction q as [|[k l] q IH]; intros p; [done|]. rewrite elems_cons.
  intros (x & e & _ & _ & Hc & _ & Hb). rewrite length_app. specialize (IH _ Hb).
  destruct l; [done|]. simpl. lia.
Qed.

Lemma bins_fuel h p q : bins h p q -> NoDup (elems q) -> (length q <= base.size h)%nat.
Proof.
  intros Hb Hnd. pose proof (bins_length _ _ _ Hb).
  pose proof (elems_size h (elems q) Hnd (fun y => bins_elems _ _ _ y Hb)). lia.
Qed.

Lemma insert_spec h hd x e q : h !! x = Some e -> bins h hd q -> NoDup (x :: elems q) ->
  exists h' hd', insert h hd x = Ok (h', hd') /\ bins h' hd' (a_insert (ekey e) x q) /\
    frame h h' /\ agree_off (x :: elems q) h h'.
Proof.
  intros Hx Hb Hnd. unfold insert. pose proof Hnd as [Hn Hnd']%NoDup_cons.
  destruct q as [|[k l] q].
  { rewrite Hb. destruct (insertBefore_spec h x e None [] Hx Hn eq_refl I) as (h' & -> & H). by exists h', (Some x). }
  pose proof Hb as (t & te0 & -> & _). pose proof Hb as Hb0.
  apply bins_top in Hb as (te & l' & Ht & Hte & -> & Hc & Hkl & Hb).
  rewrite (get_Ok _ _ _ Hx), (get_Ok _ _ _ Ht), !bind_Ok, leb_key, Hte.
  destruct (kltb k (ekey e)) eqn:Ek; simpl negb; cbv iota.
  - rewrite elems_cons in *. simpl in Hnd, Hnd', Hn |- *.
    destruct (insert_tail_spec h x e q Hx (base.size h) t te Ht)
      as (h' & te' & E & Ht' & Hn' & Hb' & Hf & Ha); [|done| |].
    { rewrite !NoDup_cons, NoDup_app in Hnd. rewrite !NoDup_cons. set_solver +Hnd. }
    { pose proof (bins_fuel _ _ _ Hb0 ltac:(done)). simpl in *. lia. }
    exists h', (Some t). unfold insert_tail in E.
    apply bind_Ok_inv in E as (pc & -> & (h1 & E1 & E2)%bind_Ok_inv).
    rewrite bind_Ok, E1, bind_Ok, E2, bind_Ok, (klt_false k), Ek by by apply kltb_spec.
    split; [done|]. split; [|split; [done|]].
    + eapply bins_relink; eauto. rewrite !NoDup_cons, NoDup_app in Hnd. set_solver +Hnd.
    + eapply agree_off_mono; [|exact Ha]. set_solver +.
  - destruct (insertBefore_spec h x e (Some t) _ Hx Hn Hb0 Ek) as (h' & -> & Hb' & Hf & Ha).
    exists h', (Some x). split; [done|]. split; [done|]. split; [done|].
    eapply agree_off_mono; [|exact Ha]. set_solver +.
Qed.

Lemma a_insert_keys k x q : forall k', k' ∈ map fst (a_insert k x q) -> k' = k \/ k' ∈ map fst q.
Proof.
  induction q as [|[k1 l] q IH]; intros k'; simpl; [by rewrite list_elem_of_singleton; left|].
  destruct (kltb k k1); simpl; [by rewrite elem_of_cons|].
  destruct (kltb k1 k); simpl; [|by right]. rewrite !elem_of_cons. intros [?|?%IH]; tauto.
Qed.

Lemma a_insert_sorted k x q : sorted q -> sorted (a_insert k x q).
Proof.
  unfold sorted. induction q as [|[k1 l] q IH]; intros Hs; simpl; [repeat constructor|].
  pose proof (StronglySorted_inv Hs) as [Hs' Hf]. simpl in *.
  destruct (kltb k k1) eqn:E1; simpl.
  - apply kltb_spec in E1. constructor; [done|]. constructor; [done|].
    eapply Forall_impl; [exact Hf|]. intros k2. by apply klt_trans.
  - destruct (kltb k1 k) eqn:E2; simpl; [|done]. apply kltb_spec in E2.
    constructor; [by apply IH|]. rewrite Forall_forall in Hf |- *.
    intros k2 [->|Hk2]%a_insert_keys; auto.
Qed.

Lemma flat_cons k l q : flat ((k, l) :: q) = map (pair k) l ++ flat q.
Proof. done. Qed.

(** The service order: an inserted event comes after every event of a smaller
    key and before all the others, those of its own key included. *)
Lemma a_insert_flat k x q : sorted q -> exists pre post,
  flat q = pre ++ post /\ flat (a_insert k x q) = pre ++ (k, x) :: post /\
  Forall (fun y => klt y.1 k) pre /\ Forall (fun y => ~ klt y.1 k) post.
Proof.
  induction q as [|[k1 l] q IH]; intros Hs; simpl.
  { exists [], []. repeat split; constructor. }
  apply sorted_cons_inv in Hs as [Hs Hf].
  assert (Hpost : ~ klt k1 k -> Forall (fun y => ~ klt y.1 k) (map (pair k1) l ++ flat q)).
  { intros Hk. rewrite Forall_forall in Hf. apply Forall_forall. intros y [Hy|Hy]%elem_of_app.
    - by apply list_elem_of_fmap in Hy as (z & -> & _).
    - unfold flat in Hy. apply list_elem_of_In, in_flat_map in Hy as ([k2 l2] & Hin & Hy).
      apply in_map_iff in Hy as (z & <- & _). intros Hlt. apply Hk. eapply klt_trans; [|exact Hlt].
      apply Hf, list_elem_of_fmap. exists (k2, l2). split; [done|]. by apply list_elem_of_In. }
  destruct (kltb k k1) eqn:E1.
  - exists [], (map (pair k1) l ++ flat q). repeat split; [constructor|]. apply Hpost.
    apply kltb_spec in E1. intros E2. by apply (klt_irrefl k), (klt_trans k k1).
  - destruct (kltb k1 k) eqn:E2.
    + destruct (IH Hs) as (pre & post & Hq & Hi & Hp1 & Hp2).
      exists (map (pair k1) l ++ pre), post. rewrite flat_cons, Hi, Hq, <- !app_assoc. repeat split; [|done].
      apply Forall_app. split; [|done]. apply Forall_fmap, Forall_forall. intros. by apply kltb_spec.
    + apply kltb_false in E1 as [<-|E1%kltb_spec]; [|congruence].
      exists [], (map (pair k) l ++ flat q). repeat split; [constructor|].
      apply Hpost, klt_irrefl.
Qed.

(** ** Removal *)

Abbreviation drop_elem x l := (filter (fun y : ptr => y <> x) l).

Lemma drop_notin x (l : list ptr) : x ∉ l -> drop_elem x l = l.
Proof.
  induction l as [|y l IH]; [done|]. rewrite not_elem_of_cons. intros [Hne Hn].
  rewrite filter_cons_True by congruence. by rewrite IH.
Qed.

Lemma drop_head x (l : list ptr) : x ∉ l -> drop_elem x (x :: l) = l.
Proof. intros Hn. rewrite filter_cons_False by tauto. by apply drop_notin. Qed.

(** Unlinking an event below the top [c] of a chain. *)
Definition unlink (fuel : nat) (h : heap) (x c : ptr) (n : option ptr) : result heap :=
  let! curr := find_in_bin fuel h x c n in
  let! ne := get h x in
  upd (set_nextInBin (nextInBin ne)) h curr.

Lemma unlink_spec h x l : x ∈ l -> forall fuel c ce, h !! c = Some ce ->
  chain h (nextInBin ce) l -> NoDup (c :: l) -> (length l <= fuel)%nat ->
  exists h', unlink fuel h x c (nextInBin ce) = Ok h' /\ chain h' (Some c) (c :: drop_elem x l) /\
    (forall y, nextBin <$> h' !! y = nextBin <$> h !! y) /\ frame h h' /\ agree_off (c :: l) h h'.
Proof.
  induction l as [|n l IH]; intros Hx fuel c ce Hc Hl Hnd Hfuel; [by apply elem_of_nil in Hx|].
  destruct Hl as [En (ne & Hne & Hl)]. unfold unlink. rewrite En.
  pose proof Hnd as [Hcn [Hnl Hnd']%NoDup_cons]%NoDup_cons. apply not_elem_of_cons in Hcn as [Hcn Hcl].
  destruct (decide (x = n)) as [->|Hxn].
  - assert (find_in_bin fuel h n c (Some n) = Ok c) as ->
      by (destruct fuel; simpl; by rewrite bool_decide_eq_true_2).
    rewrite bind_Ok, (get_Ok _ _ _ Hne), bind_Ok, (upd_Ok _ _ _ _ Hc). eexists. split; [done|].
    split; [|split; [|split]].
    + rewrite drop_head by done. split; [done|]. eexists. split; [apply lookup_insert_eq|]. simpl.
      eapply chain_ext; [|exact Hl]. intros y Hy. rewrite lookup_insert_ne; [done|]. by intros <-.
    + intros y. destruct (decide (y = c)) as [->|]; [by rewrite lookup_insert_eq, Hc|].
      by rewrite lookup_insert_ne.
    + by apply (frame_upd _ _ ce).
    + apply agree_off_upd. by left.
  - apply elem_of_cons in Hx as [Hx|Hx]; [done|]. destruct fuel as [|fuel]; simpl in Hfuel; [lia|].
    simpl. rewrite bool_decide_eq_false_2, (get_Ok _ _ _ Hne), bind_Ok by done.
    destruct (IH Hx fuel n ne Hne Hl) as (h' & E & Hch & Hnb & Hf & Ha); [by apply NoDup_cons|lia|].
    exists h'. split; [exact E|]. split; [|split; [done|split; [done|]]].
    + rewrite filter_cons_True by congruence. split; [done|]. exists ce.
      split; [rewrite Ha; [done|]; by rewrite not_elem_of_cons|]. rewrite En. exact Hch.
    + eapply agree_off_mono; [|exact Ha]. set_solver +.
Qed.

Lemma Forall_drop_elem (P : ptr -> Prop) x l : Forall P l -> Forall P (drop_elem x l).
Proof. rewrite !Forall_forall. intros Hl y [_ Hy]%list_elem_of_filter. auto. Qed.

Lemma removeItem_spec h t k l q x : bins h (Some t) ((k, l) :: q) -> x ∈ l -> NoDup (l ++ elems q) ->
  exists h' p, removeItem h x t = Ok (h', p) /\ bins h' p (cons_bin k (drop_elem x l) q) /\
    frame h h' /\ agree_off l h h'.
Proof.
  intros Hb Hx Hnd. pose proof Hb as Hb0.
  apply bins_top in Hb as (te & l' & Ht & Hte & -> & Hc & Hkl & Hb).
  assert (Hlq : forall y, y ∈ elems q -> y ∉ t :: l') by (apply NoDup_app in Hnd; set_solver +Hnd).
  apply NoDup_app in Hnd as ([Htl Hnd]%NoDup_cons & _ & _).
  unfold removeItem. rewrite (get_Ok _ _ _ Ht), bind_Ok. case_bool_decide as Heq.
  - subst x. rewrite drop_head by done. destruct l' as [|n l'].
    + simpl in Hc. rewrite Hc. exists h, (nextBin te). repeat split; auto.
    + destruct Hc as [-> (ne & Hne & Hc)]. rewrite (upd_Ok _ _ _ _ Hne), bind_Ok.
      eexists _, (Some n). split; [done|]. apply NoDup_cons in Hnd as [Hnl _].
      assert (Hf : frame h (<[n:=set_nextBin (nextBin te) ne]> h)) by by apply (frame_upd _ _ ne).
      split; [|split; [done|apply agree_off_upd; by right; left]].
      eapply bins_mk; [apply lookup_insert_eq| |eapply frame_key; [done|by inversion Hkl]|].
      * eapply chain_ext; [|exact Hc]. intros y Hy. rewrite lookup_insert_ne; [done|]. by intros <-.
      * simpl. eapply bins_ext; [|exact Hb]. intros y Hy. rewrite lookup_insert_ne; [done|].
        intros <-. apply (Hlq n Hy). by right; left.
  - apply elem_of_cons in Hx as [Hx|Hx]; [done|].
    assert (Hsz : (length l' <= base.size h)%nat).
    { apply elems_size; [done|]. intros y Hy. apply (bins_elems _ _ _ y Hb0).
      rewrite elems_cons. apply elem_of_app. left. by right. }
    destruct (unlink_spec h x l' Hx (base.size h) t te Ht Hc) as (h' & E & Hch & Hnb & Hf & Ha);
      [by apply NoDup_cons|done|].
    unfold unlink in E. apply bind_Ok_inv in E as (c & -> & (xe & Hxe & E)%bind_Ok_inv).
    rewrite bind_Ok, Hxe, bind_Ok, E, bind_Ok. exists h', (Some t). split; [done|].
    split; [|done]. rewrite filter_cons_True by congruence. destruct Hch as [_ (te' & Ht' & Hch)].
    eapply bins_mk; [done|done| |].
    + eapply frame_key; [done|]. apply Forall_cons in Hkl as [Hkt Hkl].
      constructor; [done|by apply Forall_drop_elem].
    + specialize (Hnb t). rewrite Ht, Ht' in Hnb. injection Hnb as ->.
      eapply bins_ext; [|exact Hb]. intros y Hy. rewrite Ha; auto.
Qed.

(** The part of [remove] after the test of the head. *)
Definition remove_tail (fuel : nat) (h : heap) (e : event) (x p : ptr) (c : option ptr) : result heap :=
  let! pc := find_bin fuel h e p c in
  match pc.2 with
  | None => Err Panic
  | Some curr =>
      let! ce := get h curr in
      if neqb ce e then Err Panic
      else let! hp := removeItem h x curr in upd (set_nextBin hp.2) hp.1 pc.1
  end.

(** The bin of an event of the queue is the bin of its key. *)
Lemma elems_key h p k l q x e : bins h p ((k, l) :: q) -> h !! x = Some e ->
  x ∈ elems ((k, l) :: q) -> sorted ((k, l) :: q) ->
  (ekey e = k /\ x ∈ l) \/ (klt k (ekey e) /\ x ∈ elems q).
Proof.
  intros (t & te & _ & _ & _ & Hkl & Hb) Hx Hin [_ Hf]%sorted_cons_inv.
  rewrite elems_cons, elem_of_app in Hin. destruct Hin as [Hin|Hin].
  - left. split; [|done]. rewrite Forall_forall in Hkl. destruct (Hkl x Hin) as (e' & He' & <-). congruence.
  - right. split; [|done]. destruct (bins_lookup _ _ _ _ Hb Hin) as (e' & k' & l' & He' & Hk' & Hin' & _).
    rewrite Hx in He'. injection He' as <-. rewrite Hk'. rewrite Forall_forall in Hf.
    apply Hf, list_elem_of_fmap. by exists (k', l').
Qed.

Lemma cons_bin_elems k l q : elems (cons_bin k l q) = l ++ elems q.
Proof. by destruct l. Qed.

Lemma remove_tail_spec h x e rest : h !! x = Some e -> forall fuel p pe,
  h !! p = Some pe -> NoDup (p :: elems rest) -> bins h (nextBin pe) rest -> sorted rest ->
  x ∈ elems rest -> (length rest <= fuel)%nat ->
  exists h' pe', remove_tail fuel h e x p (nextBin pe) = Ok h' /\ h' !! p = Some pe' /\
    nextInBin pe' = nextInBin pe /\ bins h' (nextBin pe') (a_remove (ekey e) x rest) /\
    frame h h' /\ agree_off (p :: elems rest) h h'.
Proof.
  intros Hx. induction rest as [|[k l] rest IH]; intros fuel p pe Hp Hnd Hb Hs Hin Hfuel.
  { by apply elem_of_nil in Hin. }
  pose proof (elems_key _ _ _ _ _ _ _ Hb Hx Hin Hs) as Hkey.
  pose proof Hb as (t & te0 & Et & _). rewrite Et in Hb |- *. pose proof Hb as Hb0.
  apply bins_top in Hb as (te & l' & Ht & Hk & -> & Hc & Hkl & Hbr).
  rewrite elems_cons in Hnd. pose proof Hnd as [Hpn Hnd']%NoDup_cons. unfold remove_tail.
  destruct Hkey as [[Hke Hxl]|[Hlt Hxr]].
  - assert (find_bin fuel h e p (Some t) = Ok (p, Some t)) as ->.
    { destruct fuel; simpl; rewrite (get_Ok _ _ _ Ht), bind_Ok;
        change (ltb te e) with (kltb (ekey te) (ekey e)); by rewrite Hk, Hke, kltb_irrefl. }
    rewrite bind_Ok. simpl snd. cbv iota. rewrite (get_Ok _ _ _ Ht), bind_Ok, neqb_key, eqb_key.
    rewrite bool_decide_eq_true_2 by congruence. simpl negb. cbv iota.
    destruct (removeItem_spec h t k _ rest x Hb0 Hxl Hnd') as (h1 & p1 & -> & Hb1 & Hf1 & Ha1).
    rewrite bind_Ok. simpl fst. simpl snd.
    assert (Hp1 : h1 !! p = Some pe).
    { rewrite Ha1; [done|]. intros ?. apply Hpn, elem_of_app. by left. }
    rewrite (upd_Ok _ _ _ _ Hp1). eexists _, (set_nextBin p1 pe). split; [done|].
    rewrite lookup_insert_eq. split; [done|]. split; [done|]. split; [|split].
    + cbn [a_remove]. rewrite Hke, kltb_irrefl.
      eapply bins_ext; [|exact Hb1]. intros y Hy. rewrite lookup_insert_ne; [done|]. intros <-.
      apply Hpn. rewrite cons_bin_elems, elem_of_app, list_elem_of_filter in Hy. rewrite elem_of_app. tauto.
    + eapply frame_trans; [exact Hf1|]. by apply (frame_upd _ _ pe).
    + eapply agree_off_trans; [eapply agree_off_mono; [|exact Ha1]|apply agree_off_upd]; set_solver +.
  - destruct fuel as [|fuel]; simpl in Hfuel; [lia|]. simpl in Hnd.
    destruct (IH fuel t te Ht) as (h' & te' & E & Ht' & Hn' & Hb' & Hf & Ha);
      [| done | by apply sorted_cons_inv in Hs as [? _] | done | lia |].
    { rewrite !NoDup_cons, NoDup_app in Hnd. rewrite NoDup_cons. set_solver +Hnd. }
    assert (Hoff : forall y, y ∈ p :: l' -> y ∉ t :: elems rest).
    { rewrite !NoDup_cons, NoDup_app in Hnd. set_solver +Hnd. }
    exists h', pe. simpl. rewrite (get_Ok _ _ _ Ht), bind_Ok.
    change (ltb te e) with (kltb (ekey te) (ekey e)).
    rewrite Hk, (proj2 (kltb_spec k (ekey e)) Hlt). split; [exact E|].
    split; [rewrite Ha; [done|apply Hoff; by left]|]. split; [done|]. split; [|split; [done|]].
    + rewrite Et. eapply bins_relink; eauto. intros y Hy. apply Hoff. by constructor.
    + eapply agree_off_mono; [|exact Ha]. set_solver +.
Qed.

Lemma remove_spec this h hd x e q : h !! x = Some e -> bins h hd q -> NoDup (elems q) -> sorted q ->
  x ∈ elems q -> queue e = Some this ->
  exists h' hd', remove this h hd x = Ok (h', hd') /\ bins h' hd' (a_remove (ekey e) x q) /\
    frame h h' /\ agree_off (elems q) h h'.
Proof.
  intros Hx Hb Hnd Hs Hin Hq. destruct q as [|[k l] q]; [by apply elem_of_nil in Hin|].
  pose proof (elems_key _ _ _ _ _ _ _ Hb Hx Hin Hs) as Hkey.
  pose proof Hb as (t & te0 & -> & _). pose proof Hb as Hb0. unfold remove.
  apply bins_top in Hb as (te & l' & Ht & Hk & -> & Hc & Hkl & Hbr).
  rewrite (get_Ok _ _ _ Hx), bind_Ok, bool_decide_eq_true_2, check_true, bind_Ok by done.
  rewrite (get_Ok _ _ _ Ht), bind_Ok, eqb_key, Hk. destruct Hkey as [[Hke Hxl]|[Hlt Hxr]].
  - rewrite bool_decide_eq_true_2 by done.
    destruct (removeItem_spec h t k _ q x Hb0 Hxl Hnd) as (h1 & p1 & E1 & Hb1 & Hf1 & Ha1).
    exists h1, p1. rewrite E1. split; [done|]. split; [|split; [done|]].
    + cbn [a_remove]. by rewrite Hke, kltb_irrefl.
    + eapply agree_off_mono; [|exact Ha1]. intros y Hy. rewrite elems_cons, elem_of_app. by left.
  - rewrite bool_decide_eq_false_2 by (intros Heq; rewrite Heq in Hlt; by apply klt_irrefl in Hlt).
    rewrite elems_cons in Hnd. simpl in Hnd.
    destruct (remove_tail_spec h x e q Hx (base.size h) t te Ht)
      as (h' & te' & E & Ht' & Hn' & Hb' & Hf & Ha);
      [|done|by apply sorted_cons_inv in Hs as [? _]|done| |].
    { rewrite NoDup_cons, NoDup_app in Hnd. rewrite NoDup_cons. set_solver +Hnd. }
    { pose proof (bins_fuel _ _ _ Hb0 ltac:(done)). simpl in *. lia. }
    exists h', (Some t). unfold remove_tail in E. apply bind_Ok_inv in E as (pc & -> & E).
    rewrite bind_Ok. destruct pc.2 as [c|]; [|done].
    apply bind_Ok_inv in E as (ce & -> & E). rewrite bind_Ok. destruct (neqb ce e); [done|].
    apply bind_Ok_inv in E as (hp & -> & E). rewrite bind_Ok, E, bind_Ok. split; [done|].
    split; [|split; [done|]].
    + cbn [a_remove]. rewrite (proj2 (kltb_spec k (ekey e)) Hlt). eapply bins_relink; eauto.
      rewrite NoDup_cons, NoDup_app in Hnd. set_solver +Hnd.
    + eapply agree_off_mono; [|exact Ha]. rewrite elems_cons. set_solver +.
Qed.

(** Removing an event that is not on the queue stops at the panic. *)
Lemma find_in_bin_absent h x l : x ∉ l -> forall fuel c n, chain h n l -> (length l <= fuel)%nat ->
  find_in_bin fuel h x c n = Err Panic.
Proof.
  induction l as [|y l IH]; intros Hx fuel c n Hc Hf; simpl in Hc.
  { subst n. by destruct fuel. }
  destruct Hc as [-> (e & He & Hc)]. rewrite not_elem_of_cons in Hx. destruct Hx as [Hne Hx].
  destruct fuel as [|fuel]; simpl in Hf; [lia|]. simpl. rewrite bool_decide_eq_false_2 by done.
  rewrite (get_Ok _ _ _ He), bind_Ok. apply IH; [done|done|lia].
Qed.

Lemma removeItem_absent h t k l q x : bins h (Some t) ((k, l) :: q) -> NoDup (l ++ elems q) ->
  x ∉ l -> removeItem h x t = Err Panic.
Proof.
  intros Hb Hnd Hx. pose proof Hb as Hb0.
  apply bins_top in Hb as (te & l' & Ht & Hte & -> & Hc & Hkl & Hb).
  unfold removeItem. rewrite (get_Ok _ _ _ Ht), bind_Ok.
  rewrite not_elem_of_cons in Hx. destruct Hx as [Hne Hx]. rewrite bool_decide_eq_false_2 by done.
  rewrite (find_in_bin_absent h x l'); [done|done|done|].
  apply elems_size; [by apply NoDup_app in Hnd as ([_ ?]%NoDup_cons & _)|].
  intros y Hy. apply (bins_elems _ _ _ y Hb0). rewrite elems_cons. apply elem_of_app. left. by right.
Qed.

Lemma remove_tail_absent h x e rest : forall fuel p c,
  bins h c rest -> NoDup (elems rest) -> x ∉ elems rest -> (length rest <= fuel)%nat ->
  remove_tail fuel h e x p c = Err Panic.
Proof.
  induction rest as [|[k l] rest IH]; intros fuel p c Hb Hnd Hx Hfuel; unfold remove_tail.
  { simpl in Hb. subst c. by destruct fuel. }
  pose proof Hb as (t & te0 & -> & _). pose proof Hb as Hb0.
  apply bins_top in Hb as (te & l' & Ht & Hk & -> & Hc & Hkl & Hbr).
  destruct fuel as [|fuel]; simpl in Hfuel; [lia|]. simpl. rewrite (get_Ok _ _ _ Ht), bind_Ok.
  rewrite elems_cons in Hnd, Hx. rewrite elem_of_app in Hx.
  destruct (ltb te e).
  - apply IH; [done|by apply NoDup_app in Hnd as (_ & _ & ?)|tauto|lia].
  - rewrite bind_Ok. simpl. rewrite (get_Ok _ _ _ Ht), bind_Ok. destruct (neqb te e); [done|].
    rewrite (removeItem_absent h t k (t :: l') rest x Hb0 Hnd); [done|tauto].
Qed.

Lemma remove_absent this h hd x e q : h !! x = Some e -> bins h hd q -> NoDup (elems q) ->
  x ∉ elems q -> queue e = Some this -> remove this h hd x = Err Panic.
Proof.
  intros Hx Hb Hnd Hin Hq. unfold remove. destruct q as [|[k l] q]; [simpl in Hb; by subst hd|].
  pose proof Hb as (t & te0 & -> & _). pose proof Hb as Hb0.
  apply bins_top in Hb as (te & l' & Ht & Hk & -> & Hc & Hkl & Hbr).
  rewrite (get_Ok _ _ _ Hx), bind_Ok, bool_decide_eq_true_2, check_true, bind_Ok by done.
  rewrite (get_Ok _ _ _ Ht), bind_Ok. pose proof (bins_fuel _ _ _ Hb0 Hnd) as Hfuel. simpl in Hfuel.
  rewrite elems_cons in Hin, Hnd. rewrite elem_of_app in Hin. destruct (eqb te e).
  - rewrite (removeItem_absent h t k (t :: l') q x Hb0 Hnd); [done|tauto].
  - pose proof (remove_tail_absent h x e q (base.size h) t (nextBin te) Hbr) as E.
    specialize (E ltac:(by apply NoDup_app in Hnd as (_ & _ & ?)) ltac:(tauto) ltac:(lia)).
    revert E. unfold remove_tail.
    destruct (find_bin _ _ _ _ _) as [[p' [c|]]|err]; rewrite ?bind_Ok; [|done|by intros [= ->]].
    simpl. destruct (get h c) as [ce|err]; rewrite ?bind_Ok; [|by intros [= ->]].
    destruct (neqb ce e); [done|].
    destruct (removeItem h x c) as [hp|err]; rewrite ?bind_Ok; [|by intros [= ->]].
    by intros ->.
Qed.

Lemma a_remove_sorted k x q : sorted q -> sorted (a_remove k x q) /\
  forall k', k' ∈ map fst (a_remove k x q) -> k' ∈ map fst q.
Proof.
  unfold sorted. induction q as [|[k1 l] q IH]; intros Hs; simpl; [done|].
  pose proof (StronglySorted_inv Hs) as [Hs' Hf]. simpl in *. destruct (IH Hs') as [IH1 IH2].
  destruct (kltb k1 k); simpl.
  - split; [|intros k'; rewrite !elem_of_cons; intros [?|?]; auto].
    constructor; [done|]. rewrite Forall_forall in Hf |- *. auto.
  - destruct (drop_elem x l); simpl; [|by split]. split; [done|]. by right.
Qed.

(** Removal takes exactly the event out of the service order. *)
Lemma a_remove_flat h p q x e : bins h p q -> sorted q -> NoDup (elems q) -> h !! x = Some e ->
  x ∈ elems q -> flat (a_remove (ekey e) x q) = filter (fun y => y.2 <> x) (flat q).
Proof.
  assert (Hmap : forall k l, filter (fun y => y.2 <> x) (map (pair k) l) = map (@pair key ptr k) (drop_elem x l)).
  { intros k l. induction l as [|y l IH]; [done|]. simpl. rewrite !filter_cons. simpl.
    destruct (decide (y <> x)); simpl; by rewrite IH. }
  revert p. induction q as [|[k l] q IH]; intros p Hb Hs Hnd Hx Hin; [by apply elem_of_nil in Hin|].
  pose proof (elems_key _ _ _ _ _ _ _ Hb Hx Hin Hs) as Hkey. cbn [a_remove].
  rewrite flat_cons, filter_app, Hmap. rewrite elems_cons in Hnd. apply NoDup_app in Hnd as (Hl & Hd & Hnd).
  destruct Hb as (t & te & _ & _ & _ & Hkl & Hb). destruct Hkey as [[Hke Hxl]|[Hlt Hxr]].
  - rewrite Hke, kltb_irrefl.
    assert (Hq : filter (fun y : key * ptr => y.2 <> x) (flat q) = flat q).
    { assert (Hn : x ∉ elems q) by by apply Hd. clear -Hn Hmap. induction q as [|[k2 l2] q IH]; [done|].
      rewrite elems_cons, elem_of_app in Hn. rewrite flat_cons, filter_app, Hmap, drop_notin, IH by tauto. done. }
    rewrite Hq. by destruct (drop_elem x l).
  - rewrite (proj2 (kltb_spec k (ekey e)) Hlt), flat_cons, drop_notin by (intros ?; by apply (Hd x)).
    f_equal. apply sorted_cons_inv in Hs as [Hs _]. by apply (IH (nextBin te)).
Qed.

Lemma flat_elems q : map snd (flat q) = elems q.
Proof.
  induction q as [|[k l] q IH]; [done|]. rewrite flat_cons, elems_cons, map_app, IH. f_equal.
  rewrite map_map. apply map_id.
Qed.

Lemma a_remove_elems h p q x e : bins h p q -> sorted q -> NoDup (elems q) -> h !! x = Some e ->
  x ∈ elems q -> elems (a_remove (ekey e) x q) = drop_elem x (elems q).
Proof.
  intros. rewrite <- !flat_elems, (a_remove_flat h p) by done.
  induction (flat q) as [|[k y] f IH]; [done|]. simpl. rewrite !filter_cons. simpl.
  destruct (decide (y <> x)); simpl; by rewrite IH.
Qed.
