(* ===== verification/EventOps.v ===== *)
(** * Operations of the event queue

    What [schedule], [deschedule], [reschedule], [serviceOne], [serviceEvents],
    the asynchronous insertions and the destructor of
    src/gem5/src/sim/eventq.{hh,cc} do to the abstract queue, the invariant they
    keep, and the interface of the [process()] methods of the events. *)

From S2P Require Import Prelude EventQueue.
Import EventQueue.EventQueue.

(** ** Flags *)

Lemma isSet_fset f m n : isSet (fset f m) n = isSet f n || isSet m n.
Proof.
  unfold isSet, fset. rewrite Z.land_lor_distr_l.
  destruct (Z.eqb_spec (Z.land f n) 0) as [->|H1], (Z.eqb_spec (Z.land m n) 0) as [->|H2]; simpl.
  - done.
  - rewrite Z.lor_0_l. by destruct (Z.eqb_spec (Z.land m n) 0).
  - rewrite Z.lor_0_r. by destruct (Z.eqb_spec (Z.land f n) 0).
  - destruct (Z.eqb_spec (Z.lor (Z.land f n) (Z.land m n)) 0) as [H|]; [|done].
    by apply Z.lor_eq_0_iff in H as [? _].
Qed.

Lemma isSet_fclear f m n : Z.land (unot 16 m) n = 0 -> isSet (fclear f m) n = false.
Proof. intros H. unfold isSet, fclear. rewrite <- Z.land_assoc, H, Z.land_0_r. done. Qed.

Lemma isSet_fclear_other f m n : Z.land (unot 16 m) n = n -> isSet (fclear f m) n = isSet f n.
Proof. intros H. unfold isSet, fclear. by rewrite <- Z.land_assoc, H. Qed.

(** The initialization pattern of the upper flag bits, with the main queue
    flag clear. *)
Definition SaneMask : Z := 0xffe0.
Definition sane (e : event) : bool := Z.land (flags e) SaneMask =? Initialized.

Lemma sane_initialized e : sane e = true -> initialized e = true /\ isSet (flags e) IsMainQueue = false.
Proof.
  unfold sane, initialized, isSet. intros H%Z.eqb_eq.
  assert (Hm : forall m, Z.land SaneMask m = m -> Z.land (flags e) m = Z.land Initialized m).
  { intros m Hm. by rewrite <- H, <- Z.land_assoc, Hm. }
  by rewrite !Hm.
Qed.

Lemma init_fset f m : Z.land m SaneMask = 0 -> Z.land (fset f m) SaneMask = Z.land f SaneMask.
Proof. intros H. unfold fset. by rewrite Z.land_lor_distr_l, H, Z.lor_0_r. Qed.

Lemma init_fclear f m : Z.land (unot 16 m) SaneMask = SaneMask ->
  Z.land (fclear f m) SaneMask = Z.land f SaneMask.
Proof. intros H. unfold fclear. by rewrite <- Z.land_assoc, H. Qed.

(** The changes the operations make to the flags of one event. *)
Definition mark (e : event) : event := set_flags (fset (flags e) Scheduled) e.
Definition unmark (e : event) : event := set_flags (fclear (flags e) Scheduled) e.
Definition unsquash (e : event) : event := set_flags (fclear (flags e) Squashed) e.

Lemma mark_scheduled e : scheduled (mark e) = true.
Proof. unfold scheduled, mark. simpl. rewrite isSet_fset. apply orb_true_r. Qed.
Lemma unmark_scheduled e : scheduled (unmark e) = false.
Proof. by apply isSet_fclear. Qed.
Lemma unsquash_scheduled e : scheduled (unsquash e) = scheduled e.
Proof. by apply isSet_fclear_other. Qed.
Lemma unmark_squashed e : squashed (unmark e) = squashed e.
Proof. by apply isSet_fclear_other. Qed.
Lemma unsquash_squashed e : squashed (unsquash e) = false.
Proof. by apply isSet_fclear. Qed.
Lemma unmark_managed e : isManaged (unmark e) = isManaged e.
Proof. by apply isSet_fclear_other. Qed.
Lemma unsquash_managed e : isManaged (unsquash e) = isManaged e.
Proof. by apply isSet_fclear_other. Qed.
Lemma mark_sane e : sane (mark e) = sane e.
Proof. unfold sane, mark. simpl. by rewrite init_fset. Qed.
Lemma unmark_sane e : sane (unmark e) = sane e.
Proof. unfold sane, unmark. simpl. by rewrite init_fclear. Qed.
Lemma unsquash_sane e : sane (unsquash e) = sane e.
Proof. unfold sane, unsquash. simpl. by rewrite init_fclear. Qed.

Create Rewrite HintDb eflags.
#[export] Hint Rewrite mark_scheduled unmark_scheduled unsquash_scheduled unmark_squashed
  unsquash_squashed unmark_managed unsquash_managed mark_sane unmark_sane
  unsquash_sane : eflags.

(** ** Invariant of a queue and its events

    The heap holds the abstract queue; the events that are marked as scheduled
    on this queue are exactly those in its bins and those waiting in the
    asynchronous list, without repetition; all events are
    initialized and none has the main queue flag, which nothing sets. *)
Record inv (s : state) (q : aq) : Prop := {
  i_bins : bins (events s) (head s) q;
  i_sorted : sorted q;
  i_nodup : NoDup (elems q ++ async_queue s);
  i_sched : forall x, x ∈ elems q ++ async_queue s <->
    exists e, events s !! x = Some e /\ scheduled e = true /\ queue e = Some (self s);
  i_init : forall x e, events s !! x = Some e -> sane e = true;
}.

(** No event of the queue lies in the past. *)
Definition timely (s : state) (q : aq) : Prop := Forall (fun b => _curTick s <= b.1.1) q.

Lemma i_initialized s q x e : inv s q -> events s !! x = Some e -> initialized e = true.
Proof. intros Hi Hx. by apply sane_initialized, (i_init _ _ Hi x). Qed.

Lemma inv_nodup s q : inv s q -> NoDup (elems q).
Proof. intros Hi. by apply i_nodup, NoDup_app in Hi as (? & _ & _). Qed.

Lemma inv_off s q x e : inv s q -> events s !! x = Some e -> scheduled e = false ->
  x ∉ elems q ++ async_queue s.
Proof.
  intros Hi Hx Hs Hin. apply (i_sched _ _ Hi) in Hin as (e' & He' & Hs' & _). congruence.
Qed.

Lemma inv_on s q x : inv s q -> x ∈ elems q ++ async_queue s ->
  exists e, events s !! x = Some e /\ scheduled e = true /\ queue e = Some (self s).
Proof. intros Hi. apply (i_sched _ _ Hi). Qed.

(** Data of all events but one is unchanged. *)
Definition others (x : ptr) (h h' : heap) : Prop :=
  forall y, y <> x -> data <$> h' !! y = data <$> h !! y.

Lemma others_frame x h h' : frame h h' -> others x h h'.
Proof. intros Hf y _. apply Hf. Qed.

Lemma others_trans x h1 h2 h3 : others x h1 h2 -> others x h2 h3 -> others x h1 h3.
Proof. intros H1 H2 y Hy. by rewrite H2, H1. Qed.

Lemma others_insert x h e : others x h (<[x := e]> h).
Proof. intros y Hy. by rewrite lookup_insert_ne. Qed.

Lemma others_delete x (h : heap) : others x h (base.delete x h).
Proof. intros y Hy. by rewrite lookup_delete_ne. Qed.

Lemma upd_event_Ok f s x e : events s !! x = Some e ->
  upd_event f s x = Ok (with_events (<[x := f e]> (events s)) s).
Proof. intros Hx. unfold upd_event. by rewrite (upd_Ok _ _ _ _ Hx). Qed.

(** Building the invariant of a state that differs from an old one at [x]. *)
Lemma inv_update s q s' q' x : inv s q -> others x (events s) (events s') -> self s' = self s ->
  bins (events s') (head s') q' -> sorted q' -> NoDup (elems q' ++ async_queue s') ->
  (forall y, y <> x -> y ∈ elems q' ++ async_queue s' <-> y ∈ elems q ++ async_queue s) ->
  (x ∈ elems q' ++ async_queue s' <->
    exists e, events s' !! x = Some e /\ scheduled e = true /\ queue e = Some (self s)) ->
  (forall e, events s' !! x = Some e -> sane e = true) -> inv s' q'.
Proof.
  intros Hi Ho Hself Hb Hs Hnd Hy Hx Hinit.
  assert (Hd : forall y, y <> x -> forall e', events s' !! y = Some e' ->
    exists e, events s !! y = Some e /\ flags e = flags e' /\ queue e = queue e').
  { intros y Hne e' He'. specialize (Ho y Hne). rewrite He' in Ho. simpl in Ho.
    destruct (events s !! y) as [e|]; [|done]. exists e. split; [done|].
    apply (inj Some) in Ho. unfold data in Ho. split; congruence. }
  assert (Hd' : forall y, y <> x -> forall e, events s !! y = Some e ->
    exists e', events s' !! y = Some e' /\ flags e = flags e' /\ queue e = queue e').
  { intros y Hne e He. specialize (Ho y Hne). rewrite He in Ho. simpl in Ho.
    destruct (events s' !! y) as [e'|]; [|done]. exists e'. split; [done|].
    apply (inj Some) in Ho. unfold data in Ho. split; congruence. }
  split; [done|done|done| |].
  - intros y. destruct (decide (y = x)) as [->|Hne]; [by rewrite Hself|].
    rewrite (Hy y Hne), (i_sched _ _ Hi), Hself. split; intros (e & He & Hsc & Hq).
    + destruct (Hd' y Hne e He) as (e' & He' & Hf & Hq'). exists e'. unfold scheduled in *.
      split; [done|]. split; congruence.
    + destruct (Hd y Hne e He) as (e' & He' & Hf & Hq'). exists e'. unfold scheduled in *.
      split; [done|]. split; congruence.
  - intros y e He. destruct (decide (y = x)) as [->|Hne]; [by apply Hinit|].
    destruct (Hd y Hne e He) as (e' & He' & Hf & _). unfold sane. rewrite <- Hf.
    by apply (i_init _ _ Hi y).
Qed.

(** The queue representation survives a change to an event that is not in it,
    and a change of the flags or the queue of one that is. *)
Lemma bins_upd_off h p q x e' : bins h p q -> x ∉ elems q -> bins (<[x := e']> h) p q.
Proof.
  intros Hb Hx. eapply bins_ext; [|exact Hb]. intros y Hy. rewrite lookup_insert_ne; [done|]. by intros <-.
Qed.

Lemma bins_upd_links h p q x e e' : bins h p q -> h !! x = Some e -> links e' = links e ->
  bins (<[x := e']> h) p q.
Proof.
  intros Hb Hx Hl. eapply bins_links; [|exact Hb]. intros y _.
  destruct (decide (y = x)) as [->|]; [|by rewrite lookup_insert_ne].
  rewrite lookup_insert_eq, Hx. simpl. by f_equal.
Qed.

Lemma insert_event_spec s x e q : events s !! x = Some e -> bins (events s) (head s) q ->
  NoDup (x :: elems q) ->
  exists h' hd', insert_event s x = Ok (with_queue (h', hd') s) /\ bins h' hd' (a_insert (ekey e) x q) /\
    frame (events s) h'.
Proof.
  intros Hx Hb Hnd. unfold insert_event.
  destruct (insert_spec _ _ _ _ _ Hx Hb Hnd) as (h' & hd' & -> & Hb' & Hf & _). by exists h', hd'.
Qed.

Lemma remove_event_spec s x e q : inv s q -> events s !! x = Some e -> x ∈ elems q ->
  exists h' hd', remove_event s x = Ok (with_queue (h', hd') s) /\ bins h' hd' (a_remove (ekey e) x q) /\
    frame (events s) h'.
Proof.
  intros Hi Hx Hin. destruct (inv_on s q x Hi) as (e' & He' & _ & Hq); [apply elem_of_app; by left|].
  rewrite Hx in He'. injection He' as <-. unfold remove_event.
  destruct (remove_spec (self s) _ _ _ _ _ Hx (i_bins _ _ Hi) (inv_nodup _ _ Hi) (i_sorted _ _ Hi) Hin Hq)
    as (h' & hd' & -> & Hb' & Hf & _). by exists h', hd'.
Qed.

Definition direct (g : globals) (s : state) (global : bool) : bool :=
  negb (inParallelMode g && (other_thread g s || global)).

(** Marking the event once it is linked into the queue or the asynchronous list. *)
Lemma mark_spec s q s2 q' x e e1 : inv s q -> x ∉ elems q ++ async_queue s ->
  sane e1 = true -> queue e1 = Some (self s) -> flags e1 = flags e ->
  self s2 = self s -> _curTick s2 = _curTick s ->
  frame (<[x := e1]> (events s)) (events s2) -> bins (events s2) (head s2) q' -> sorted q' ->
  elems q' ++ async_queue s2 ≡ₚ x :: elems q ++ async_queue s ->
  exists s' e', upd_event (fun e => set_flags (fset (flags e) Scheduled) e) s2 x = Ok s' /\ inv s' q' /\
    _curTick s' = _curTick s /\ self s' = self s /\ async_queue s' = async_queue s2 /\
    others x (events s) (events s') /\ events s' !! x = Some e' /\
    data e' = (_when e1, _priority e1, fset (flags e) Scheduled, Some (self s)).
Proof.
  intros Hi Hoff Hin1 Hq1 Hfl Hself Ht Hf Hb Hs Hp.
  destruct (frame_lookup _ _ x e1 Hf) as (e2 & He2 & Hd2); [apply lookup_insert_eq|].
  unfold data in Hd2. injection Hd2 as Hd1 Hd3 Hd4 Hd5.
  rewrite (upd_event_Ok _ _ _ _ He2). eexists _, _. split; [done|].
  assert (Hoth : others x (events s) (<[x := mark e2]> (events s2))).
  { eapply others_trans; [apply (others_insert x _ e1)|].
    eapply others_trans; [by apply others_frame|]. apply others_insert. }
  split; [|simpl; rewrite lookup_insert_eq; repeat split; auto; unfold data; simpl; congruence].
  apply (inv_update s q (with_events (<[x := mark e2]> (events s2)) s2) q' x Hi Hoth); simpl;
    [done|by apply (bins_upd_links _ _ _ _ e2)|done| | | |].
  - rewrite Hp. apply NoDup_cons. split; [done|]. apply Hi.
  - intros y Hne. rewrite Hp, elem_of_cons. tauto.
  - rewrite Hp, lookup_insert_eq. split; [|by left]. intros _. eexists. split; [done|].
    split; [apply (mark_scheduled e2)|]. simpl. congruence.
  - intros e' He'. rewrite lookup_insert_eq in He'. injection He' as <-. fold (mark e2).
    rewrite mark_sane. unfold sane in *. by rewrite Hd4.
Qed.

Lemma acquire_Ok s x e : events s !! x = Some e -> acquire s x = Ok s.
Proof. intros Hx. unfold acquire. by rewrite (get_Ok _ _ _ Hx). Qed.

Lemma schedule_spec g s q x e when global : inv s q -> events s !! x = Some e ->
  scheduled e = false -> _curTick s <= when ->
  exists s' e', schedule g s x when global = Ok s' /\
    inv s' (if direct g s global then a_insert (when, _priority e) x q else q) /\
    _curTick s' = _curTick s /\ self s' = self s /\
    async_queue s' = async_queue s ++ (if direct g s global then [] else [x]) /\
    others x (events s) (events s') /\ events s' !! x = Some e' /\
    data e' = (when, _priority e, fset (flags e) Scheduled, Some (self s)).
Proof.
  intros Hi Hx Hsc Hw. pose proof (inv_off _ _ _ _ Hi Hx Hsc) as Hoff.
  assert (Hoffq : x ∉ elems q) by (intros ?; apply Hoff, elem_of_app; by left).
  unfold schedule. rewrite (proj2 (Z.leb_le _ _) Hw), check_true, bind_Ok.
  rewrite (get_Ok _ _ _ Hx), bind_Ok, Hsc, (i_initialized _ _ _ _ Hi Hx). simpl negb.
  rewrite check_true, !bind_Ok. rewrite (upd_event_Ok _ _ _ _ Hx), bind_Ok.
  set (e1 := setWhen when (self s) e). set (h1 := <[x := e1]> (events s)).
  assert (Hx1 : h1 !! x = Some e1) by apply lookup_insert_eq.
  assert (Hb1 : bins h1 (head s) q) by (apply bins_upd_off; [apply Hi|done]).
  assert (Hin1 : sane e1 = true) by apply (i_init _ _ Hi _ _ Hx).
  unfold direct. change (other_thread g (with_events h1 s)) with (other_thread g s).
  destruct (inParallelMode g && (other_thread g s || global)); simpl negb; cbv iota.
  - rewrite bind_Ok.
    destruct (mark_spec s q (asyncInsert (with_events h1 s) x) q x e e1) as (s' & e' & E & Hi' & Ht & Hself & Hr);
      try done; [apply Hi| |].
    { simpl. rewrite app_assoc. by rewrite <- Permutation_cons_append. }
    exists s', e'. rewrite E, bind_Ok. split; [|done]. eapply acquire_Ok. apply Hr.
  - destruct (insert_event_spec (with_events h1 s) x e1 q Hx1 Hb1) as (h2 & hd2 & E2 & Hb2 & Hf2).
    { apply NoDup_cons. split; [done|by apply (inv_nodup s)]. }
    rewrite E2, bind_Ok.
    destruct (mark_spec s q (with_queue (h2, hd2) (with_events h1 s)) (a_insert (when, _priority e) x q) x e e1)
      as (s' & e' & E & Hi' & Ht & Hself & Hr); try done.
    { apply a_insert_sorted, Hi. }
    { simpl. by rewrite a_insert_elems. }
    exists s', e'. rewrite app_nil_r, E, bind_Ok. split; [|done]. eapply acquire_Ok. apply Hr.
Qed.

(** ** Taking an event off the queue *)

Lemma drop_elem_nodup x (l : list ptr) : NoDup l -> NoDup (drop_elem x l).
Proof. apply NoDup_filter. Qed.

Lemma inv_unlink s q s' q' x : inv s q -> x ∈ elems q -> others x (events s) (events s') ->
  self s' = self s -> async_queue s' = async_queue s -> bins (events s') (head s') q' -> sorted q' ->
  elems q' = drop_elem x (elems q) ->
  (forall e, events s' !! x = Some e -> scheduled e = false /\ sane e = true) -> inv s' q'.
Proof.
  intros Hi Hin Ho Hself Hasync Hb Hs He Hx.
  pose proof (i_nodup _ _ Hi) as (Hnd1 & Hd & Hnd2)%NoDup_app.
  assert (Hmem : forall y, y ∈ elems q' ++ async_queue s' <-> y <> x /\ y ∈ elems q ++ async_queue s).
  { intros y. rewrite He, Hasync, !elem_of_app, list_elem_of_filter. specialize (Hd x Hin).
    split; [|tauto]. intros [?|Hy]; [tauto|]. split; [by intros ->|tauto]. }
  apply (inv_update s q s' q' x); auto.
  - rewrite He, Hasync. apply NoDup_app. split; [by apply drop_elem_nodup|]. split; [|done].
    intros y [_ Hy]%list_elem_of_filter. by apply Hd.
  - intros y Hne. rewrite Hmem. tauto.
  - rewrite Hmem. split; [tauto|]. intros (e & Hxe & Hsc & _). apply Hx in Hxe as [? _]. congruence.
  - intros e Hxe. by apply Hx.
Qed.

Lemma bins_delete h p q x : bins h p q -> x ∉ elems q -> bins (base.delete x h) p q.
Proof.
  intros Hb Hx. eapply bins_ext; [|exact Hb]. intros y Hy. rewrite lookup_delete_ne; [done|]. by intros <-.
Qed.

(** Releasing an unscheduled event off the queue deletes it when it is managed. *)
Lemma release_spec s q x e : inv s q -> events s !! x = Some e -> scheduled e = false ->
  exists s', release s x = Ok s' /\ inv s' q /\ _curTick s' = _curTick s /\ self s' = self s /\
    async_queue s' = async_queue s /\ others x (events s) (events s') /\
    events s' !! x = if isManaged e then None else Some e.
Proof.
  intros Hi Hx Hsc. pose proof (inv_off _ _ _ _ Hi Hx Hsc) as Hoff.
  unfold release. rewrite (get_Ok _ _ _ Hx), bind_Ok, Hsc. destruct (isManaged e); simpl negb; cbv iota.
  - eexists. split; [done|]. simpl. rewrite lookup_delete_eq.
    split; [|by repeat split; try apply others_delete].
    apply (inv_update s q (with_events (base.delete x (events s)) s) q x Hi); simpl; auto.
    + apply others_delete.
    + apply bins_delete; [apply Hi|]. intros ?. apply Hoff, elem_of_app. by left.
    + apply Hi.
    + apply Hi.
    + split; [done|]. rewrite lookup_delete_eq. by intros (? & ? & _).
    + intros e'. by rewrite lookup_delete_eq.
  - exists s. split; [done|]. split; [done|]. repeat split; auto.
Qed.

Lemma deschedule_spec g s q x e : inv s q -> events s !! x = Some e -> x ∈ elems q ->
  negb (inParallelMode g) || negb (other_thread g s) = true ->
  exists s', deschedule g s x = Ok s' /\ inv s' (a_remove (ekey e) x q) /\
    _curTick s' = _curTick s /\ self s' = self s /\ async_queue s' = async_queue s /\
    others x (events s) (events s') /\
    if isManaged e then events s' !! x = None
    else exists e', events s' !! x = Some e' /\ scheduled e' = false /\ squashed e' = false /\ ekey e' = ekey e.
Proof.
  intros Hi Hx Hin Hg. unfold deschedule.
  destruct (inv_on s q x Hi) as (e0 & He0 & Hsc & Hq); [apply elem_of_app; by left|].
  rewrite Hx in He0. injection He0 as <-.
  rewrite (get_Ok _ _ _ Hx), bind_Ok, Hsc, (i_initialized _ _ _ _ Hi Hx), Hg, !check_true, !bind_Ok.
  destruct (remove_event_spec s x e q Hi Hx Hin) as (h1 & hd1 & -> & Hb1 & Hf1). rewrite bind_Ok.
  destruct (frame_lookup _ _ _ _ Hf1 Hx) as (e1 & He1 & Hd1). unfold data in Hd1. injection Hd1 as D1 D2 D3 D4.
  rewrite (upd_event_Ok _ _ x e1) by done. rewrite bind_Ok. fold (unsquash e1).
  rewrite (upd_event_Ok _ _ x (unsquash e1)) by apply lookup_insert_eq. rewrite bind_Ok. simpl with_events.
  fold (unmark (unsquash e1)). set (e3 := unmark (unsquash e1)). simpl events.
  set (s3 := with_events _ _). assert (Hx3 : events s3 !! x = Some e3) by apply lookup_insert_eq.
  assert (Hsc3 : scheduled e3 = false) by apply unmark_scheduled.
  assert (Ho3 : others x (events s) (events s3)).
  { eapply others_trans; [by apply others_frame|]. simpl.
    eapply others_trans; [apply (others_insert x _ (unsquash e1))|]. apply others_insert. }
  assert (Hi3 : inv s3 (a_remove (ekey e) x q)).
  { apply (inv_unlink s q s3 _ x Hi Hin Ho3); [done|done| | | |].
    - simpl. apply (bins_upd_links _ _ _ _ (unsquash e1)); [|apply lookup_insert_eq|done].
      by apply (bins_upd_links _ _ _ _ e1).
    - apply a_remove_sorted, Hi.
    - apply (a_remove_elems (events s) (head s)); auto; [apply Hi|apply Hi|by apply (inv_nodup s)].
    - intros e' He'. rewrite Hx3 in He'. injection He' as <-. split; [done|].
      unfold e3. rewrite unmark_sane, unsquash_sane. unfold sane.
      rewrite D3. by apply (i_init _ _ Hi x). }
  destruct (release_spec s3 _ x e3 Hi3 Hx3 Hsc3) as (s' & E & Hi' & Ht & Hse & Ha & Ho & Hx').
  exists s'. split; [exact E|]. split; [done|]. split; [done|]. split; [done|]. split; [done|].
  split; [by eapply others_trans|]. unfold e3 in Hx'.
  rewrite unmark_managed, unsquash_managed in Hx'. unfold isManaged in *. rewrite D3 in Hx'.
  destruct (isSet (flags e) Managed); [done|]. exists e3. split; [done|]. split; [done|].
  split; [unfold e3; by rewrite unmark_squashed, unsquash_squashed|]. unfold ekey, e3. simpl. congruence.
Qed.

(** ** Rescheduling *)

Lemma frame_of_others x h h' e' e1 : others x h h' -> h' !! x = Some e' -> data e' = data e1 ->
  frame (<[x := e1]> h) h'.
Proof.
  intros Ho Hx Hd y. destruct (decide (y = x)) as [->|Hne].
  - rewrite lookup_insert_eq, Hx. simpl. by f_equal.
  - rewrite lookup_insert_ne by done. by apply Ho.
Qed.

(** The second half of [reschedule], once the event is off the queue. *)
Lemma requeue_spec sb qb s1 x e1 when : inv sb qb -> x ∉ elems qb ++ async_queue sb ->
  others x (events sb) (events s1) -> events s1 !! x = Some e1 -> sane e1 = true ->
  bins (events s1) (head s1) qb -> self s1 = self sb -> _curTick s1 = _curTick sb ->
  async_queue s1 = async_queue sb ->
  exists s' e', rbind (upd_event (setWhen when (self s1)) s1 x) (fun s =>
      rbind (insert_event s x) (fun s =>
      rbind (upd_event (fun e => set_flags (fclear (flags e) Squashed) e) s x) (fun s =>
      upd_event (fun e => set_flags (fset (flags e) Scheduled) e) s x))) = Ok s' /\
    inv s' (a_insert (when, _priority e1) x qb) /\ _curTick s' = _curTick sb /\ self s' = self sb /\
    async_queue s' = async_queue sb /\ others x (events sb) (events s') /\ events s' !! x = Some e' /\
    data e' = (when, _priority e1, fset (fclear (flags e1) Squashed) Scheduled, Some (self sb)).
Proof.
  intros Hi Hoff Ho Hx Hin Hb Hself Ht Ha.
  assert (Hoffq : x ∉ elems qb) by (intros ?; apply Hoff, elem_of_app; by left).
  rewrite (upd_event_Ok _ _ _ _ Hx), bind_Ok. set (e2 := setWhen when (self s1) e1).
  set (s2 := with_events _ s1). assert (Hx2 : events s2 !! x = Some e2) by apply lookup_insert_eq.
  destruct (insert_event_spec s2 x e2 qb Hx2) as (h3 & hd3 & -> & Hb3 & Hf3).
  { by apply bins_upd_off. }
  { apply NoDup_cons. split; [done|by apply (inv_nodup sb)]. }
  rewrite bind_Ok. destruct (frame_lookup _ _ _ _ Hf3 Hx2) as (e3 & He3 & Hd3).
  rewrite (upd_event_Ok _ _ x e3) by done. rewrite bind_Ok. fold (unsquash e3).
  set (s4 := with_events _ _). assert (Hd4 : data (unsquash e3) = data (unsquash e2)).
  { unfold data in *. simpl in *. congruence. }
  destruct (mark_spec sb qb s4 (a_insert (when, _priority e1) x qb) x (unsquash e2) (unsquash e2))
    as (s' & e' & E & Hi' & Ht' & Hse' & Ha' & Ho' & Hx' & Hd'); auto; simpl.
  - by rewrite unsquash_sane.
  - congruence.
  - eapply frame_of_others; [|apply lookup_insert_eq|done].
    eapply others_trans; [exact Ho|]. eapply others_trans; [apply (others_insert x _ e2)|].
    eapply others_trans; [by apply others_frame|]. apply others_insert.
  - by apply (bins_upd_links _ _ _ _ e3).
  - apply a_insert_sorted, Hi.
  - by rewrite a_insert_elems, Ha.
  - exists s', e'. split; [exact E|]. split; [done|]. split; [done|]. split; [done|].
    split; [rewrite Ha'; exact Ha|]. done.
Qed.

Lemma reschedule_spec g s q x e when always : inv s q -> events s !! x = Some e ->
  (scheduled e = true -> x ∈ elems q) -> always || scheduled e = true -> _curTick s <= when ->
  negb (inParallelMode g) || negb (other_thread g s) = true ->
  exists s' e', reschedule g s x when always = Ok s' /\
    inv s' (a_insert (when, _priority e) x (if scheduled e then a_remove (ekey e) x q else q)) /\
    _curTick s' = _curTick s /\ self s' = self s /\ async_queue s' = async_queue s /\
    others x (events s) (events s') /\ events s' !! x = Some e' /\
    data e' = (when, _priority e, fset (fclear (flags e) Squashed) Scheduled, Some (self s)).
Proof.
  intros Hi Hx Hon Hal Hw Hg. unfold reschedule.
  rewrite (proj2 (Z.leb_le _ _) Hw), check_true, bind_Ok, (get_Ok _ _ _ Hx), bind_Ok.
  rewrite Hal, (i_initialized _ _ _ _ Hi Hx), Hg, !check_true, !bind_Ok.
  destruct (scheduled e) eqn:Hsc.
  - specialize (Hon eq_refl).
    destruct (remove_event_spec s x e q Hi Hx Hon) as (h1 & hd1 & -> & Hb1 & Hf1). rewrite bind_Ok.
    destruct (frame_lookup _ _ _ _ Hf1 Hx) as (e1 & He1 & Hd1). unfold data in Hd1. injection Hd1 as D1 D2 D3 D4.
    assert (Hin1 : sane e1 = true)
      by (unfold sane; rewrite D3; by apply (i_init _ _ Hi x)).
    assert (Hel : elems (a_remove (ekey e) x q) = drop_elem x (elems q)).
    { apply (a_remove_elems (events s) (head s)); auto; [apply Hi|apply Hi|by apply (inv_nodup s)]. }
    set (sb := with_queue (<[x := unmark e1]> h1, hd1) s).
    assert (Hib : inv sb (a_remove (ekey e) x q)).
    { apply (inv_unlink s q sb _ x Hi Hon); [|done|done| | |done|].
      - eapply others_trans; [by apply others_frame|]. apply others_insert.
      - by apply (bins_upd_links _ _ _ _ e1).
      - apply a_remove_sorted, Hi.
      - intros e' He'. simpl in He'. rewrite lookup_insert_eq in He'. injection He' as <-.
        by rewrite unmark_scheduled, unmark_sane. }
    destruct (requeue_spec sb _ (with_queue (h1, hd1) s) x e1 when Hib) as (s' & e' & E & Hi' & Ht & Hse & Ha & Ho & Hx' & Hd');
      auto.
    { apply (inv_off sb _ x (unmark e1) Hib); [apply lookup_insert_eq|apply unmark_scheduled]. }
    { intros y Hne. simpl. by rewrite lookup_insert_ne. }
    exists s', e'. rewrite D2, D3 in *. split; [exact E|]. repeat (split; [done|]). split; [|done].
    eapply others_trans; [|exact Ho]. eapply others_trans; [by apply others_frame|]. apply others_insert.
  - rewrite (acquire_Ok _ _ _ Hx), bind_Ok.
    destruct (requeue_spec s q s x e when Hi) as (s' & e' & E & Hr); auto.
    + by apply (inv_off s q x e).
    + done.
    + by apply (i_init _ _ Hi x).
    + apply Hi.
    + by exists s', e'.
Qed.

(** ** Service *)

(** A state in which the top event of the first bin is unlinked and unmarked. *)
Lemma inv_popped s k x l q e s1 e1 : inv s ((k, x :: l) :: q) -> events s !! x = Some e ->
  self s1 = self s -> async_queue s1 = async_queue s ->
  frame (<[x := unmark e]> (events s)) (events s1) -> events s1 !! x = Some e1 ->
  bins (events s1) (head s1) (cons_bin k l q) ->
  inv s1 (cons_bin k l q) /\ others x (events s) (events s1) /\ data e1 = data (unmark e).
Proof.
  intros Hi Hx Hself Ha Hf Hx1 Hb. pose proof (inv_nodup _ _ Hi) as [Hn Hnd]%NoDup_cons.
  assert (Ho : others x (events s) (events s1)).
  { eapply others_trans; [apply (others_insert x _ (unmark e))|]. by apply others_frame. }
  assert (Hd : data e1 = data (unmark e)).
  { specialize (Hf x). rewrite Hx1, lookup_insert_eq in Hf. by apply (inj Some) in Hf. }
  split; [|done]. apply (inv_unlink s _ s1 _ x Hi); auto.
  - rewrite elems_cons. by left.
  - apply i_sorted in Hi as Hs. destruct l; simpl; [|done]. by apply sorted_cons_inv in Hs as [? _].
  - rewrite cons_bin_elems, elems_cons. simpl app. by rewrite drop_head.
  - intros e' He'. rewrite Hx1 in He'. injection He' as <-. unfold data in Hd. injection Hd as _ _ Hfl _.
    unfold scheduled, sane. rewrite Hfl. split; [apply (unmark_scheduled e)|].
    change (sane (unmark e) = true). rewrite unmark_sane. by apply (i_init _ _ Hi x).
Qed.

(** The bins after the next event of the bin has taken over the link. *)
Lemma bins_popped h k x e n ne l q nb : h !! n = Some ne -> chain h (nextInBin ne) l ->
  Forall (has_key h k) (n :: l) -> bins h nb q -> NoDup (x :: n :: l ++ elems q) ->
  bins (<[n := set_nextBin nb ne]> (<[x := unmark e]> h)) (Some n) ((k, n :: l) :: q).
Proof.
  intros Hne Hc Hkl Hb [Hx [Hn _]%NoDup_cons]%NoDup_cons.
  rewrite not_elem_of_cons, not_elem_of_app in Hx. rewrite not_elem_of_app in Hn.
  assert (Hsame : forall y, y ∈ l ++ elems q -> (<[n := set_nextBin nb ne]> (<[x := unmark e]> h)) !! y = h !! y).
  { intros y Hy%elem_of_app. rewrite !lookup_insert_ne; [done| |]; intros <-; tauto. }
  eapply bins_mk; [apply lookup_insert_eq| | |].
  - eapply chain_ext; [|exact Hc]. intros y Hy. rewrite Hsame; [done|]. apply elem_of_app. by left.
  - apply Forall_cons in Hkl as [(e' & He' & Hk') Hkl]. constructor.
    + eexists. split; [apply lookup_insert_eq|]. rewrite Hne in He'. by injection He' as ->.
    + rewrite Forall_forall in Hkl |- *. intros y Hy. destruct (Hkl y Hy) as (ey & Hey & Hky).
      exists ey. rewrite Hsame; [done|]. apply elem_of_app. by left.
  - simpl. eapply bins_ext; [|exact Hb]. intros y Hy. rewrite Hsame; [done|]. apply elem_of_app. by right.
Qed.

Lemma pop_spec s k x l q e : inv s ((k, x :: l) :: q) -> events s !! x = Some e ->
  head s = Some x /\ ekey e = k /\
  exists s1 e1, pop s x = Ok s1 /\ inv s1 (cons_bin k l q) /\ _curTick s1 = _curTick s /\
    self s1 = self s /\ async_queue s1 = async_queue s /\ others x (events s) (events s1) /\
    events s1 !! x = Some e1 /\ data e1 = data (unmark e).
Proof.
  intros Hi Hx. pose proof (i_bins _ _ Hi) as Hb. pose proof (inv_nodup _ _ Hi) as Hnd.
  rewrite elems_cons in Hnd. simpl in Hnd. pose proof Hnd as [Hn _]%NoDup_cons.
  assert (Hhd : head s = Some x).
  { pose proof Hb as (t & te & -> & _ & Hc & _). destruct Hc as [[= ->] _]. done. }
  rewrite Hhd in Hb. apply bins_top in Hb as (te & l' & Ht & Hk & [= <-] & Hc & Hkl & Hb).
  rewrite Hx in Ht. injection Ht as <-. split; [done|]. split; [done|].
  unfold pop. rewrite (upd_event_Ok _ _ _ _ Hx), bind_Ok. fold (unmark e).
  rewrite (get_Ok _ x (unmark e)) by apply lookup_insert_eq. rewrite bind_Ok. cbn [nextInBin unmark set_flags].
  set (h1 := <[x := unmark e]> (events s)). change (events (with_events h1 s)) with h1.
  destruct l as [|n l].
  - simpl in Hc. rewrite Hc. eexists _, (unmark e). split; [done|].
    destruct (inv_popped s k x [] q e (with_queue (h1, nextBin e) (with_events h1 s)) (unmark e))
      as (Hi' & Ho & Hd); auto; [done|apply lookup_insert_eq|by apply bins_upd_off|].
    do 4 (split; [done|]). split; [done|]. split; [apply lookup_insert_eq|done].
  - destruct Hc as [-> (ne & Hne & Hc)]. assert (Hnx : x <> n) by (intros ->; apply Hn; by left).
    assert (Hn1 : h1 !! n = Some ne) by (unfold h1; by rewrite lookup_insert_ne).
    rewrite (upd_Ok _ _ _ _ Hn1), bind_Ok. eexists _, (unmark e). split; [done|].
    assert (Hx2 : (<[n := set_nextBin (nextBin e) ne]> h1) !! x = Some (unmark e)).
    { rewrite lookup_insert_ne by done. apply lookup_insert_eq. }
    destruct (inv_popped s k x (n :: l) q e
      (with_queue (<[n := set_nextBin (nextBin e) ne]> h1, Some n) (with_events h1 s)) (unmark e))
      as (Hi' & Ho & Hd); auto.
    + by apply (frame_upd _ _ ne).
    + apply Forall_cons in Hkl as [_ Hkl]. by apply bins_popped.
    + do 4 (split; [done|]). by repeat (split; [done|]).
Qed.

(** *** The interface of [process()]

    What the event queue relies on in the [process()] methods: the queue
    operations they call keep the invariant, they do not turn the clock, and
    the event object itself survives its own call. *)
Class EventBody (process : ptr -> state -> result state) := {
  body_keeps : forall x s q s', inv s q -> timely s q -> process x s = Ok s' ->
    (exists q', inv s' q' /\ timely s' q') /\ _curTick s' = _curTick s /\ is_Some (events s' !! x);
}.

Lemma release_inv s q x : inv s q -> is_Some (events s !! x) ->
  exists s', release s x = Ok s' /\ inv s' q /\ _curTick s' = _curTick s.
Proof.
  intros Hi [e He]. destruct (scheduled e) eqn:Hsc.
  - unfold release. rewrite (get_Ok _ _ _ He), bind_Ok, Hsc. exists s. by destruct (isManaged e).
  - destruct (release_spec s q x e Hi He Hsc) as (s' & E & Hi' & Ht & _). by exists s'.
Qed.

Lemma timely_mono s s' q : timely s q -> _curTick s' = _curTick s -> timely s' q.
Proof. unfold timely. by intros H ->. Qed.

Lemma timely_cons_bin s k l q : _curTick s <= k.1 -> timely s q -> timely s (cons_bin k l q).
Proof. intros Hk Hq. destruct l; [done|]. by constructor. Qed.

Lemma sorted_first k l q : sorted ((k, l) :: q) -> Forall (fun b => k.1 <= b.1.1) q.
Proof.
  intros [_ Hf]%sorted_cons_inv. rewrite Forall_forall in Hf. apply Forall_forall. intros b Hb.
  assert (Hk : klt k b.1) by (apply Hf, list_elem_of_fmap; by exists b). unfold klt in Hk. lia.
Qed.

(** What [serviceOne] does once the event has been processed. *)
Definition after_process (x : ptr) (s : state) : result (option ptr * state) :=
  let! e := get (events s) x in
  if isExitEvent e then
    guard! negb (isManaged e) || negb (isSet (flags e) IsMainQueue);
    Ok (Some x, s)
  else let! s := release s x in Ok (None, s).

Lemma after_process_spec x s q r s' : inv s q -> after_process x s = Ok (r, s') ->
  inv s' q /\ _curTick s' = _curTick s /\ (r = None \/ r = Some x).
Proof.
  intros Hi E. unfold after_process in E. apply bind_Ok_inv in E as (e & He & E).
  destruct (isExitEvent e); apply bind_Ok_inv in E as (u & E0 & [= <- <-]); [by auto|].
  unfold get in He. destruct (events s !! x) as [e'|] eqn:Hx; [|done].
  destruct (release_inv s q x Hi) as (s1 & E1 & Hi1 & Ht1); [by eexists|].
  rewrite E0 in E1. injection E1 as <-. auto.
Qed.

Lemma serviceOne_spec process s k x l q e : inv s ((k, x :: l) :: q) -> timely s ((k, x :: l) :: q) ->
  events s !! x = Some e -> head s = Some x /\
  if squashed e then
    exists s', serviceOne process s = Ok (None, s') /\ inv s' (cons_bin k l q) /\
      timely s' (cons_bin k l q) /\ _curTick s' = _curTick s
  else
    exists s1 e1, serviceOne process s = rbind (process x s1) (after_process x) /\
      inv s1 (cons_bin k l q) /\ timely s1 (cons_bin k l q) /\ _curTick s1 = k.1 /\
      events s1 !! x = Some e1 /\ data e1 = data (unmark e).
Proof.
  intros Hi Hti Hx. apply Forall_cons in Hti as [Htk Htq]. simpl in Htk.
  destruct (pop_spec s k x l q e Hi Hx) as (Hhd & Hk & s1 & e1 & E1 & Hi1 & Ht1 & Hse1 & Ha1 & Ho1 & Hx1 & Hd1).
  split; [done|]. unfold serviceOne. rewrite Hhd, E1, bind_Ok, (get_Ok _ _ _ Hx1), bind_Ok.
  pose proof Hd1 as Hd1'. unfold data in Hd1'. injection Hd1' as D1 D2 D3 D4. simpl in D1, D2, D3, D4.
  assert (squashed e1 = squashed e) as ->.
  { rewrite <- (unmark_squashed e). unfold squashed. by rewrite D3. }
  destruct (squashed e); simpl negb; cbv iota.
  - rewrite (upd_event_Ok _ _ _ _ Hx1), bind_Ok. fold (unsquash e1).
    set (s2 := with_events _ s1). assert (Hx2 : events s2 !! x = Some (unsquash e1)) by apply lookup_insert_eq.
    assert (Hsc1 : scheduled e1 = false).
    { rewrite <- (unmark_scheduled e). unfold scheduled. by rewrite D3. }
    assert (Hi2 : inv s2 (cons_bin k l q)).
    { apply (inv_update s1 (cons_bin k l q) s2 _ x Hi1); auto.
      - apply others_insert.
      - apply (bins_upd_links _ _ _ _ e1); [apply Hi1|done|done].
      - apply Hi1.
      - apply Hi1.
      - split; [intros Hin; by destruct (inv_off _ _ _ _ Hi1 Hx1 Hsc1)|].
        rewrite Hx2. intros (e' & [= <-] & Hsc & _). rewrite unsquash_scheduled in Hsc. congruence.
      - rewrite Hx2. intros e' [= <-]. rewrite unsquash_sane. by apply (i_init _ _ Hi1 x). }
    destruct (release_inv s2 _ x Hi2) as (s' & -> & Hi' & Ht'); [by eexists|].
    exists s'. split; [done|]. split; [done|]. assert (_curTick s' = _curTick s) by (rewrite Ht'; exact Ht1).
    split; [|done]. eapply timely_mono; [|done]. by apply timely_cons_bin.
  - exists (setCurTick (_when e1) s1), e1. split; [done|].
    split; [by destruct Hi1; split|]. split; [|split; [|done]].
    + apply i_sorted, sorted_first in Hi. subst k. simpl in Hi.
      apply timely_cons_bin; [simpl; lia|]. eapply Forall_impl; [exact Hi|]. intros b. simpl. lia.
    + simpl. subst k. simpl. done.
Qed.
