(* ===== verification/EventService.v ===== *)
(** * Service loops, reachability and checkpoints of the event queue

    The theorems on src/gem5/src/sim/eventq.{hh,cc}: the service order and
    termination of [serviceEvents], the invariant of every reachable state,
    the asynchronous insertions, the destructor, the self check and the
    checkpointed form of an event. *)

From S2P Require Import Prelude EventQueue EventOps.
Import EventQueue.EventQueue.

(** ** The service loop *)

(** The number of queued events at or before a time. *)
Definition pending (when : Z) (q : aq) : nat := length (filter (fun y => y.1.1 <= when) (flat q)).

(** A [process()] that, before the given time, schedules no more events than
    it takes off: the condition under which the loop ends. *)
Class QuietBody (when : Z) (process : ptr -> state -> result state) := {
  quiet : forall x s q e, inv s q -> timely s q -> events s !! x = Some e -> scheduled e = false ->
    exists s' q', process x s = Ok s' /\ inv s' q' /\ timely s' q' /\
      (pending when q' <= pending when q)%nat /\ is_Some (events s' !! x);
}.

Lemma pending_cons when k x l q :
  pending when ((k, x :: l) :: q) = ((if (k.1 <=? when)%Z then 1 else 0) + pending when (cons_bin k l q))%nat.
Proof.
  unfold pending. rewrite flat_cons. simpl. rewrite filter_cons. simpl.
  assert (flat (cons_bin k l q) = map (pair k) l ++ flat q) as -> by by destruct l.
  destruct (decide (k.1 <= when)), (Z.leb_spec k.1 when); try lia; done.
Qed.

(** The head of a non-empty queue is the top of its first bin. *)
Lemma inv_head s q x : inv s q -> head s = Some x -> exists k l q' e,
  q = (k, x :: l) :: q' /\ events s !! x = Some e /\ ekey e = k.
Proof.
  intros Hi Hh. pose proof (i_bins _ _ Hi) as Hb. rewrite Hh in Hb.
  destruct q as [|[k l] q]; [done|]. apply bins_top in Hb as (te & l' & Ht & Hk & -> & _).
  by exists k, l', q, te.
Qed.

Lemma inv_head_None s q : inv s q -> head s = None -> q = [].
Proof.
  intros Hi Hh. pose proof (i_bins _ _ Hi) as Hb. rewrite Hh in Hb.
  destruct q as [|[k l] q]; [done|]. by destruct Hb as (x & e & ? & _).
Qed.

Lemma nextTick_spec s x e : head s = Some x -> events s !! x = Some e -> nextTick s = Ok (_when e).
Proof. intros Hh Hx. unfold nextTick. rewrite Hh, (get_Ok _ _ _ Hx). done. Qed.

(** One service keeps the invariant and never turns the clock back. *)
Lemma serviceOne_inv process `{!EventBody process} s q r s' : inv s q -> timely s q ->
  serviceOne process s = Ok (r, s') ->
  exists q', inv s' q' /\ timely s' q' /\ _curTick s <= _curTick s'.
Proof.
  intros Hi Ht E. destruct (head s) as [x|] eqn:Hh; [|unfold serviceOne in E; by rewrite Hh in E].
  destruct (inv_head s q x Hi Hh) as (k & l & q1 & e & -> & Hx & Hk).
  destruct (serviceOne_spec process s k x l q1 e Hi Ht Hx) as [_ Hs].
  apply Forall_cons in Ht as [Htk _]. simpl in Htk. destruct (squashed e).
  - destruct Hs as (s2 & E2 & Hi2 & Ht2 & Hc2). rewrite E2 in E. injection E as <- <-.
    exists (cons_bin k l q1). split; [done|]. split; [done|]. lia.
  - destruct Hs as (s1 & e1 & E1 & Hi1 & Ht1 & Hc1 & _). rewrite E1 in E.
    apply bind_Ok_inv in E as (s2 & Ep & E).
    destruct (body_keeps x s1 _ s2 Hi1 Ht1 Ep) as ((q2 & Hi2 & Ht2) & Hc2 & _).
    destruct (after_process_spec x s2 q2 r s' Hi2 E) as (Hi' & Hc' & _).
    exists q2. split; [done|]. split; [by eapply timely_mono|]. lia.
Qed.

Lemma service_loop_inv process `{!EventBody process} fuel when s q s' : inv s q -> timely s q ->
  service_loop process fuel when s = Ok s' ->
  exists q', inv s' q' /\ timely s' q' /\ Forall (fun b => when < b.1.1) q'.
Proof.
  revert s q. induction fuel as [|fuel IH]; intros s q Hi Ht E; simpl in E; unfold empty in E.
  all: destruct (head s) as [x|] eqn:Hh;
    [|injection E as <-; pose proof (inv_head_None s q Hi Hh) as ->; exists []; by split_and!].
  all: destruct (inv_head s q x Hi Hh) as (k & l & q1 & e & -> & Hx & Hk).
  all: rewrite (nextTick_spec s x e Hh Hx), bind_Ok in E; destruct (Z.ltb_spec when (_when e)).
  all: try (injection E as <-; eexists; split; [done|]; split; [done|];
    constructor; [subst k; simpl; lia|]; apply i_sorted, sorted_first in Hi;
    eapply Forall_impl; [exact Hi|]; subst k; simpl; intros b; lia).
  - done.
  - apply bind_Ok_inv in E as ([r s1] & E1 & E).
    destruct (serviceOne_inv process s _ r s1 Hi Ht E1) as (q2 & Hi2 & Ht2 & _). by apply (IH s1 q2).
Qed.

(** C8: Servicing up to a time, with any well-behaved [process()]: when the loop
    ends, the clock shows that time, every event that is left lies after it,
    and the queue is well formed. *)
Theorem serviceEvents_correct process `{!EventBody process} fuel when s q s' :
  inv s q -> timely s q -> serviceEvents process fuel when s = Ok s' ->
  exists q', inv s' q' /\ timely s' q' /\ _curTick s' = when /\ Forall (fun b => when < b.1.1) q'.
Proof.
  intros Hi Ht E. unfold serviceEvents in E. apply bind_Ok_inv in E as (s1 & E1 & [= <-]).
  destruct (service_loop_inv process fuel when s q s1 Hi Ht E1) as (q' & Hi' & Ht' & Hf).
  exists q'. split; [by destruct Hi'; split|]. split; [|done].
  eapply Forall_impl; [exact Hf|]. simpl. intros b. lia.
Qed.

Lemma serviceOne_quiet process when `{!QuietBody when process} s k x l q e :
  inv s ((k, x :: l) :: q) -> timely s ((k, x :: l) :: q) -> events s !! x = Some e ->
  exists r s' q', serviceOne process s = Ok (r, s') /\ inv s' q' /\ timely s' q' /\
    (pending when q' <= pending when (cons_bin k l q))%nat.
Proof.
  intros Hi Ht Hx. destruct (serviceOne_spec process s k x l q e Hi Ht Hx) as [_ Hs].
  destruct (squashed e).
  - destruct Hs as (s' & E & Hi' & Ht' & _). by exists None, s', (cons_bin k l q).
  - destruct Hs as (s1 & e1 & -> & Hi1 & Ht1 & _ & Hx1 & Hd1).
    destruct (quiet x s1 _ e1 Hi1 Ht1 Hx1) as (s2 & q2 & -> & Hi2 & Ht2 & Hp & e2 & Hx2).
    { unfold data in Hd1. injection Hd1 as _ _ Hfl _. unfold scheduled. rewrite Hfl.
      apply (unmark_scheduled e). }
    rewrite bind_Ok. unfold after_process. rewrite (get_Ok _ _ _ Hx2), bind_Ok.
    destruct (isExitEvent e2).
    + pose proof (sane_initialized e2 (i_init _ _ Hi2 x e2 Hx2)) as [_ ->].
      rewrite orb_true_r, check_true, bind_Ok. by exists (Some x), s2, q2.
    + destruct (release_inv s2 q2 x Hi2) as (s' & -> & Hi' & Hc'); [by eexists|]. rewrite bind_Ok.
      exists None, s', q2. split; [done|]. split; [done|]. split; [by eapply timely_mono|done].
Qed.

(** C18: Termination: with a [process()] that is quiet up to the given time, as
    many iterations as there are events up to it are enough. *)
Theorem serviceEvents_terminates process when `{!QuietBody when process} fuel s q :
  inv s q -> timely s q -> (pending when q <= fuel)%nat ->
  exists s', serviceEvents process fuel when s = Ok s' /\ _curTick s' = when.
Proof.
  intros Hi Ht Hp. unfold serviceEvents.
  assert (Hl : exists s', service_loop process fuel when s = Ok s').
  { revert s q Hi Ht Hp. induction fuel as [|fuel IH]; intros s q Hi Ht Hp; simpl; unfold empty.
    all: destruct (head s) as [x|] eqn:Hh; [|by eexists].
    all: destruct (inv_head s q x Hi Hh) as (k & l & q1 & e & -> & Hx & Hk).
    all: rewrite (nextTick_spec s x e Hh Hx), bind_Ok; destruct (Z.ltb_spec when (_when e)); [by eexists|].
    all: rewrite pending_cons in Hp; subst k; simpl in Hp; destruct (Z.leb_spec (_when e) when); try lia.
    destruct (serviceOne_quiet process when s _ x l q1 e Hi Ht Hx) as (r & s1 & q2 & -> & Hi2 & Ht2 & Hp2).
    rewrite bind_Ok. apply (IH s1 q2); [done|done|]. simpl in *. lia. }
  destruct Hl as (s' & ->). by eexists.
Qed.

(** ** Reachable states

    The public operations on a queue in a serial simulation, as steps. *)
Section Reach.
Context (g : globals) (process : ptr -> state -> result state).

Inductive step : state -> state -> Prop :=
| step_new s x p f e :
    events s !! x = None -> newEvent p f = Ok e ->
    step s (with_events (<[x := e]> (events s)) s)
| step_schedule s x when global s' : schedule g s x when global = Ok s' -> step s s'
| step_deschedule s x s' : deschedule g s x = Ok s' -> step s s'
| step_reschedule s x when always s' : reschedule g s x when always = Ok s' -> step s s'
| step_squash s x e :
    events s !! x = Some e -> step s (with_events (<[x := squash e]> (events s)) s)
| step_serviceOne s r s' : serviceOne process s = Ok (r, s') -> step s s'
| step_serviceEvents s fuel when s' :
    serviceEvents process fuel when s = Ok s' -> step s s'.

End Reach.

Lemma timely_keys s q : timely s q <-> forall k, k ∈ map fst q -> _curTick s <= k.1.
Proof.
  unfold timely. rewrite Forall_forall. split.
  - intros H k ([k' l] & -> & Hin)%list_elem_of_fmap. by apply (H (k', l)).
  - intros H [k l] Hin. apply H, list_elem_of_fmap. by exists (k, l).
Qed.

Lemma timely_insert s q k x : timely s q -> _curTick s <= k.1 -> timely s (a_insert k x q).
Proof.
  rewrite !timely_keys. intros Hq Hk k' [->|Hk']%a_insert_keys; [done|by apply Hq].
Qed.

Lemma timely_remove s q k x : sorted q -> timely s q -> timely s (a_remove k x q).
Proof.
  rewrite !timely_keys. intros Hs Hq k' Hk'. apply Hq. by apply (a_remove_sorted k x q Hs).
Qed.

(** An event that can be removed is in a bin. *)
Lemma remove_on s q x e s' : inv s q -> events s !! x = Some e -> scheduled e = true ->
  remove_event s x = Ok s' -> x ∈ elems q.
Proof.
  intros Hi Hx Hsc E. unfold remove_event in E. apply bind_Ok_inv in E as (hp & E & _).
  destruct (decide (x ∈ elems q)) as [|Hn]; [done|exfalso].
  assert (Hq : queue e = Some (self s)).
  { unfold remove in E. destruct (head s); [|done]. rewrite (get_Ok _ _ _ Hx), bind_Ok in E.
    apply bind_Ok_inv in E as (u & Hu & _). destruct u. apply check_Ok, bool_decide_eq_true in Hu. done. }
  rewrite (remove_absent (self s) _ _ x e q Hx (i_bins _ _ Hi) (inv_nodup _ _ Hi) Hn Hq) in E. done.
Qed.

Definition inv_timely (s : state) : Prop := exists q, inv s q /\ timely s q.

Lemma schedule_inv g s q x when global s' : inParallelMode g = false -> inv s q -> timely s q ->
  schedule g s x when global = Ok s' ->
  inv_timely s' /\ _curTick s' = _curTick s.
Proof.
  intros Hg Hi Ht E. pose proof E as E0. unfold schedule in E0.
  apply bind_Ok_inv in E0 as ([] & Hw%check_Ok%Z.leb_le & E0).
  apply bind_Ok_inv in E0 as (e & He & E0). apply bind_Ok_inv in E0 as ([] & Hsc%check_Ok%negb_true_iff & _).
  unfold get in He. destruct (events s !! x) as [e'|] eqn:Hx; [|done]. injection He as ->.
  destruct (schedule_spec g s q x e when global Hi Hx Hsc Hw) as (s1 & e1 & E1 & Hi1 & Ht1 & _).
  rewrite E in E1. injection E1 as <-. unfold direct in Hi1. rewrite Hg in Hi1. simpl in Hi1.
  split; [|done]. eexists. split; [done|]. eapply timely_mono; [|done]. by apply timely_insert.
Qed.

Lemma deschedule_inv g s q x s' : inv s q -> timely s q ->
  deschedule g s x = Ok s' ->
  inv_timely s' /\ _curTick s' = _curTick s.
Proof.
  intros Hi Ht E. pose proof E as E0. unfold deschedule in E0.
  apply bind_Ok_inv in E0 as (e & He & E0). unfold get in He.
  destruct (events s !! x) as [e'|] eqn:Hx; [|done]. injection He as ->.
  apply bind_Ok_inv in E0 as ([] & Hsc%check_Ok & E0). apply bind_Ok_inv in E0 as ([] & _ & E0).
  apply bind_Ok_inv in E0 as ([] & Hth%check_Ok & E0). apply bind_Ok_inv in E0 as (s1 & Hrm & _).
  pose proof (remove_on s q x e s1 Hi Hx Hsc Hrm) as Hin.
  destruct (deschedule_spec g s q x e Hi Hx Hin Hth) as (s2 & E2 & Hi2 & Ht2 & _).
  rewrite E in E2. injection E2 as <-. split; [|done]. eexists. split; [done|].
  eapply timely_mono; [|done]. apply timely_remove; [apply Hi|done].
Qed.

Lemma reschedule_inv g s q x when always s' : inv s q -> timely s q ->
  reschedule g s x when always = Ok s' ->
  inv_timely s' /\ _curTick s' = _curTick s.
Proof.
  intros Hi Ht E. pose proof E as E0. unfold reschedule in E0.
  apply bind_Ok_inv in E0 as ([] & Hw%check_Ok%Z.leb_le & E0).
  apply bind_Ok_inv in E0 as (e & He & E0). unfold get in He.
  destruct (events s !! x) as [e'|] eqn:Hx; [|done]. injection He as ->.
  apply bind_Ok_inv in E0 as ([] & Hal%check_Ok & E0). apply bind_Ok_inv in E0 as ([] & _ & E0).
  apply bind_Ok_inv in E0 as ([] & Hth%check_Ok & E0). apply bind_Ok_inv in E0 as (s1 & Hrm & _).
  assert (Hin : scheduled e = true -> x ∈ elems q).
  { intros Hsc. rewrite Hsc in Hrm. by apply (remove_on s q x e s1). }
  destruct (reschedule_spec g s q x e when always Hi Hx Hin Hal Hw Hth) as (s2 & e2 & E2 & Hi2 & Ht2 & _).
  rewrite E in E2. injection E2 as <-. split; [|done]. eexists. split; [done|]. eapply timely_mono; [|done].
  apply timely_insert; [|done]. destruct (scheduled e); [|done]. apply timely_remove; [apply Hi|done].
Qed.

(** Changing an event without touching its links, its Scheduled mark, its queue. *)
Lemma inv_touch s q x e e' : inv s q -> events s !! x = Some e -> links e' = links e ->
  scheduled e' = scheduled e -> queue e' = queue e -> sane e' = true ->
  inv (with_events (<[x := e']> (events s)) s) q.
Proof.
  intros Hi Hx Hl Hsc Hq Hin. apply (inv_update s q _ q x Hi); auto; simpl.
  - apply others_insert.
  - apply (bins_upd_links _ _ _ _ e); [apply Hi|done|done].
  - apply Hi.
  - apply Hi.
  - rewrite (i_sched _ _ Hi). rewrite lookup_insert_eq. split.
    + intros (e0 & He0 & Hs0 & Hq0). rewrite Hx in He0. injection He0 as <-. exists e'. split; [done|].
      split; congruence.
    + intros (e0 & [= <-] & Hs0 & Hq0). exists e. split; [done|]. split; congruence.
  - intros e0. rewrite lookup_insert_eq. by intros [= <-].
Qed.

Lemma newEvent_spec p f e : newEvent p f = Ok e -> scheduled e = false /\ sane e = true.
Proof.
  unfold newEvent. intros ([] & Hf%check_Ok & [= <-])%bind_Ok_inv. unfold noneSet in Hf. apply Z.eqb_eq in Hf.
  assert (Hb : forall m, Z.land (unot 16 PublicWrite) m = m -> Z.land f m = 0).
  { intros m Hm. rewrite <- Hm, Z.land_assoc, Hf. apply Z.land_0_l. }
  unfold scheduled, sane, isSet. simpl. rewrite !Z.land_lor_distr_l, !Hb by done. done.
Qed.

Lemma inv_new s q x p f e : inv s q -> events s !! x = None -> newEvent p f = Ok e ->
  inv (with_events (<[x := e]> (events s)) s) q.
Proof.
  intros Hi Hx [Hsc Hin]%newEvent_spec.
  assert (Hoff : x ∉ elems q ++ async_queue s).
  { intros (e' & He' & _)%(i_sched _ _ Hi). congruence. }
  apply (inv_update s q _ q x Hi); auto; simpl.
  - apply others_insert.
  - apply bins_upd_off; [apply Hi|]. intros ?. apply Hoff, elem_of_app. by left.
  - apply Hi.
  - apply Hi.
  - rewrite lookup_insert_eq. split; [done|]. intros (e0 & [= <-] & Hs0 & _). congruence.
  - intros e0. rewrite lookup_insert_eq. by intros [= <-].
Qed.

Lemma inv_newQueue this : inv (newQueue this ∅) [].
Proof.
  split; simpl; try done; try constructor.
  - by intros ?%elem_of_nil.
  - intros (e & He & _). by rewrite lookup_empty in He.
Qed.

Lemma step_inv g process `{!EventBody process} s s' : inParallelMode g = false ->
  step g process s s' -> inv_timely s -> inv_timely s'.
Proof.
  intros Hg Hst (q & Hi & Ht). destruct Hst.
  - exists q. split; [by eapply inv_new|]. by eapply timely_mono.
  - by eapply (schedule_inv g s q).
  - by eapply (deschedule_inv g s q).
  - by eapply (reschedule_inv g s q).
  - exists q. split; [|by eapply timely_mono]. apply (inv_touch s q x e); auto.
    + unfold scheduled, squash. simpl. rewrite isSet_fset. apply orb_false_r.
    + unfold sane, squash. simpl. rewrite init_fset by done. by apply (i_init _ _ Hi x).
  - destruct (serviceOne_inv process s q r s' Hi Ht) as (q' & Hi' & Ht' & _); [done|]. by exists q'.
  - unfold serviceEvents in H. apply bind_Ok_inv in H as (s1 & E1 & [= <-]).
    destruct (service_loop_inv process fuel when s q s1 Hi Ht E1) as (q' & Hi' & Ht' & Hf).
    exists q'. split; [by destruct Hi'; split|]. eapply Forall_impl; [exact Hf|]. simpl. intros b. lia.
Qed.

(** *** Serial simulations

    In a serial simulation every event is inserted at once: the list of
    asynchronous insertions stays as it is. The bodies of the events see the
    same queue, so they must keep to this as well. *)
Class SerialBody (process : ptr -> state -> result state) := {
  #[global] serial_body :: EventBody process;
  body_async : forall x s s', process x s = Ok s' -> async_queue s' = async_queue s;
}.

Lemma upd_event_async f s x s' : upd_event f s x = Ok s' -> async_queue s' = async_queue s.
Proof. unfold upd_event. by intros (h & _ & [= <-])%bind_Ok_inv. Qed.

Lemma release_async s x s' : release s x = Ok s' -> async_queue s' = async_queue s.
Proof.
  unfold release. intros (e & _ & E)%bind_Ok_inv.
  destruct (isManaged e); [destruct (scheduled e)|]; by injection E as <-.
Qed.

Lemma acquire_async s x s' : acquire s x = Ok s' -> async_queue s' = async_queue s.
Proof. unfold acquire. by intros (e & _ & [= <-])%bind_Ok_inv. Qed.

Lemma insert_event_async s x s' : insert_event s x = Ok s' -> async_queue s' = async_queue s.
Proof. unfold insert_event. by intros (h & _ & [= <-])%bind_Ok_inv. Qed.

Lemma remove_event_async s x s' : remove_event s x = Ok s' -> async_queue s' = async_queue s.
Proof. unfold remove_event. by intros (h & _ & [= <-])%bind_Ok_inv. Qed.

Lemma pop_async s x s' : pop s x = Ok s' -> async_queue s' = async_queue s.
Proof.
  unfold pop. intros (s1 & <-%upd_event_async & (e & _ & E)%bind_Ok_inv)%bind_Ok_inv.
  destruct (nextInBin e); [apply bind_Ok_inv in E as (h & _ & E)|]; by injection E as <-.
Qed.

Lemma schedule_async g s x when global s' : inParallelMode g = false ->
  schedule g s x when global = Ok s' -> async_queue s' = async_queue s.
Proof.
  intros Hg (? & _ & (e & _ & (? & _ & (? & _ & (s1 & <-%upd_event_async & E)
    %bind_Ok_inv)%bind_Ok_inv)%bind_Ok_inv)%bind_Ok_inv)%bind_Ok_inv.
  rewrite Hg in E. simpl in E. apply bind_Ok_inv in E as (s2 & <-%insert_event_async & E).
  by apply bind_Ok_inv in E as (s3 & <-%upd_event_async & ->%acquire_async).
Qed.

Lemma deschedule_async g s x s' : deschedule g s x = Ok s' -> async_queue s' = async_queue s.
Proof.
  intros (e & _ & (? & _ & (? & _ & (? & _ & (s1 & <-%remove_event_async & E)
    %bind_Ok_inv)%bind_Ok_inv)%bind_Ok_inv)%bind_Ok_inv)%bind_Ok_inv.
  apply bind_Ok_inv in E as (s2 & <-%upd_event_async & E).
  by apply bind_Ok_inv in E as (s3 & <-%upd_event_async & ->%release_async).
Qed.

Lemma reschedule_async g s x when always s' :
  reschedule g s x when always = Ok s' -> async_queue s' = async_queue s.
Proof.
  intros (? & _ & (e & _ & (? & _ & (? & _ & (? & _ & (s1 & E1 & E)
    %bind_Ok_inv)%bind_Ok_inv)%bind_Ok_inv)%bind_Ok_inv)%bind_Ok_inv)%bind_Ok_inv.
  assert (async_queue s1 = async_queue s) as <-.
  { destruct (scheduled e); [by apply remove_event_async in E1|by apply acquire_async in E1]. }
  apply bind_Ok_inv in E as (s2 & <-%upd_event_async & E).
  apply bind_Ok_inv in E as (s3 & <-%insert_event_async & E).
  by apply bind_Ok_inv in E as (s4 & <-%upd_event_async & ->%upd_event_async).
Qed.

Lemma serviceOne_async process `{!SerialBody process} s r s' :
  serviceOne process s = Ok (r, s') -> async_queue s' = async_queue s.
Proof.
  unfold serviceOne. destruct (head s) as [x|]; [|done].
  intros (s1 & <-%pop_async & (e & _ & E)%bind_Ok_inv)%bind_Ok_inv. destruct (squashed e); simpl in E.
  - apply bind_Ok_inv in E as (s2 & <-%upd_event_async & E).
    by apply bind_Ok_inv in E as (s3 & <-%release_async & [= _ <-]).
  - apply bind_Ok_inv in E as (s2 & E2%(body_async (process:=process)) & E). simpl in E2. rewrite <- E2.
    apply bind_Ok_inv in E as (e' & _ & E).
    destruct (isExitEvent e'); apply bind_Ok_inv in E as (s3 & E3 & [= _ <-]); [done|by apply release_async in E3].
Qed.

Lemma service_loop_async process `{!SerialBody process} fuel when s s' :
  service_loop process fuel when s = Ok s' -> async_queue s' = async_queue s.
Proof.
  revert s. induction fuel as [|fuel IH]; intros s E; simpl in E; (destruct (empty s); [by injection E as <-|]);
    apply bind_Ok_inv in E as (t & _ & E); (destruct (when <? t); [by injection E as <-|]); [done|].
  apply bind_Ok_inv in E as ([r s1] & <-%(serviceOne_async process) & E). by apply IH.
Qed.

Lemma step_async g process `{!SerialBody process} s s' : inParallelMode g = false ->
  step g process s s' -> async_queue s' = async_queue s.
Proof.
  intros Hg Hst. destruct Hst as [| ? ? ? ? ? E| ? ? ? E| ? ? ? ? ? E| | ? ? ? E| ? ? ? ? E]; [done| | | |done| |].
  - by eapply schedule_async.
  - by eapply deschedule_async.
  - by eapply reschedule_async.
  - by eapply serviceOne_async.
  - unfold serviceEvents in E. by apply bind_Ok_inv in E as (s1 & <-%(service_loop_async process) & [= <-]).
Qed.

(** C1: Every state a serial simulation reaches from an empty queue, whatever the
    order of the operations and whatever the events do, is well formed: the
    linked bins represent a list of bins that is sorted by time and priority
    ([inv]) and none of which lies in the past ([timely]), no event waits for an
    asynchronous insertion, and the events in the bins are exactly those marked
    as scheduled on this queue, each of them in one place only. *)
Theorem reachable_inv g process `{!SerialBody process} this s :
  inParallelMode g = false -> rtc (step g process) (newQueue this ∅) s ->
  exists q, inv s q /\ timely s q /\ async_queue s = [] /\ NoDup (elems q) /\
    forall x, x ∈ elems q <->
      exists e, events s !! x = Some e /\ scheduled e = true /\ queue e = Some (self s).
Proof.
  intros Hg Hr. assert (H0 : inv_timely s /\ async_queue s = []).
  { assert (H0 : inv_timely (newQueue this ∅) /\ async_queue (newQueue this ∅) = []).
    { split; [|done]. exists []. split; [apply inv_newQueue|constructor]. }
    revert H0. induction Hr as [|s1 s2 s3 Hst _ IH]; [done|].
    intros [Hi Ha]. apply IH. split; [by eapply (step_inv g process s1)|]. rewrite <- Ha. by eapply (step_async g process s1). }
  destruct H0 as [(q & Hi & Ht) Ha]. exists q. pose proof (i_nodup _ _ Hi) as Hnd.
  pose proof (i_sched _ _ Hi) as Hs. rewrite Ha, app_nil_r in Hnd. rewrite Ha, app_nil_r in Hs. by auto.
Qed.

(** ** Contracts of the operations *)

(** C27: Scheduling an idle event at or after the current time marks it, gives it
    its time and changes no other event. Called by the thread of the queue (or in
    a serial simulation, and not for a global event) it puts the event into the
    service order after the events of smaller time and priority and before all
    the others, so that equal ones are served last in, first out. From another
    thread, or for a global event, in parallel mode the service order is kept and
    the event goes to the end of the asynchronous list. Scheduling in the past, or
    an event that is already scheduled, stops at an assertion. *)
Theorem schedule_correct g s q x e when global :
  inv s q -> events s !! x = Some e ->
  if (_curTick s <=? when) && negb (scheduled e) then
    exists s' q' e', schedule g s x when global = Ok s' /\ inv s' q' /\
      _curTick s' = _curTick s /\ others x (events s) (events s') /\
      events s' !! x = Some e' /\ scheduled e' = true /\ _when e' = when /\
      _priority e' = _priority e /\
      if inParallelMode g && (other_thread g s || global) then
        flat q' = flat q /\ async_queue s' = async_queue s ++ [x]
      else
        async_queue s' = async_queue s /\
        exists pre post, flat q = pre ++ post /\ flat q' = pre ++ ((when, _priority e), x) :: post /\
          Forall (fun y => klt y.1 (when, _priority e)) pre /\
          Forall (fun y => ~ klt y.1 (when, _priority e)) post
  else schedule g s x when global = Err AssertFail.
Proof.
  intros Hi Hx. destruct (Z.leb_spec (_curTick s) when) as [Hw|Hw]; simpl.
  - destruct (scheduled e) eqn:Hsc; simpl.
    + unfold schedule. rewrite (proj2 (Z.leb_le _ _) Hw), check_true, bind_Ok.
      by rewrite (get_Ok _ _ _ Hx), bind_Ok, Hsc.
    + destruct (schedule_spec g s q x e when global Hi Hx Hsc Hw)
        as (s' & e' & E & Hi' & Ht & _ & Ha & Ho & Hx' & Hdata).
      eexists s', _, e'. unfold data in Hdata. injection Hdata as D1 D2 D3 D4.
      split; [exact E|]. split; [exact Hi'|]. split; [done|]. split; [done|]. split; [done|].
      split; [unfold scheduled; rewrite D3, isSet_fset; apply orb_true_r|]. split; [done|]. split; [done|].
      unfold direct in *. destruct (inParallelMode g && (other_thread g s || global)); simpl in *; [done|].
      rewrite app_nil_r in Ha. split; [done|].
      destruct (a_insert_flat (when, _priority e) x q (i_sorted _ _ Hi)) as (pre & post & H1 & H2 & H3 & H4).
      by exists pre, post.
  - unfold schedule. by rewrite (proj2 (Z.leb_gt _ _) Hw).
Qed.

(** Descheduling a queued event takes exactly that event out of the service
    order and clears its marks, or deletes it when it manages its own life.
    Descheduling an event that is not scheduled, or that is scheduled on another
    queue, stops at an assertion (at the panic of [remove] when this queue is
    empty), and one that still waits in the asynchronous list at that panic. *)
Theorem deschedule_correct g s q x e :
  inv s q -> events s !! x = Some e -> inParallelMode g = false ->
  if negb (scheduled e) then deschedule g s x = Err AssertFail
  else if negb (bool_decide (queue e = Some (self s))) then
    deschedule g s x = Err (if empty s then Panic else AssertFail)
  else if negb (bool_decide (x ∈ elems q)) then deschedule g s x = Err Panic
  else
    exists s' q', deschedule g s x = Ok s' /\ inv s' q' /\
      flat q' = filter (fun y => y.2 <> x) (flat q) /\ _curTick s' = _curTick s /\
      others x (events s) (events s') /\
      if isManaged e then events s' !! x = None
      else exists e', events s' !! x = Some e' /\ scheduled e' = false /\ squashed e' = false.
Proof.
  intros Hi Hx Hg. destruct (scheduled e) eqn:Hsc; simpl.
  2: { unfold deschedule. by rewrite (get_Ok _ _ _ Hx), bind_Ok, Hsc. }
  assert (Hpre : deschedule g s x = rbind (remove_event s x) (fun s =>
    rbind (upd_event (fun e => set_flags (fclear (flags e) Squashed) e) s x) (fun s =>
    rbind (upd_event (fun e => set_flags (fclear (flags e) Scheduled) e) s x) (fun s => release s x)))).
  { unfold deschedule. by rewrite (get_Ok _ _ _ Hx), bind_Ok, Hsc, (i_initialized _ _ _ _ Hi Hx), Hg, !check_true. }
  case_bool_decide as Hq; simpl.
  2: { rewrite Hpre. unfold remove_event, remove, empty. destruct (head s); [|done].
       by rewrite (get_Ok _ _ _ Hx), bind_Ok, bool_decide_eq_false_2. }
  case_bool_decide as Hin; simpl.
  - destruct (deschedule_spec g s q x e Hi Hx Hin) as (s' & E & Hi' & Ht & _ & _ & Ho & Hm); [by rewrite Hg|].
    exists s', (a_remove (ekey e) x q). split_and!; auto.
    + apply (a_remove_flat (events s) (head s)); auto; [apply Hi|apply Hi|by apply (inv_nodup s)].
    + destruct (isManaged e); [done|]. destruct Hm as (e' & ? & ? & ? & _). by exists e'.
  - rewrite Hpre. unfold remove_event.
    by rewrite (remove_absent (self s) _ _ x e q Hx (i_bins _ _ Hi) (inv_nodup _ _ Hi) Hin Hq).
Qed.

(** Rescheduling moves an event: it is taken out of the service order, if it
    was there, and inserted again as a newly scheduled one. *)
Theorem reschedule_correct g s q x e when always :
  inv s q -> events s !! x = Some e -> inParallelMode g = false ->
  (scheduled e = true -> x ∈ elems q) ->
  if (_curTick s <=? when) && (always || scheduled e) then
    exists s' q' e' pre post, reschedule g s x when always = Ok s' /\ inv s' q' /\
      filter (fun y => y.2 <> x) (flat q) = pre ++ post /\
      flat q' = pre ++ ((when, _priority e), x) :: post /\
      Forall (fun y => klt y.1 (when, _priority e)) pre /\
      Forall (fun y => ~ klt y.1 (when, _priority e)) post /\
      others x (events s) (events s') /\
      events s' !! x = Some e' /\ scheduled e' = true /\ squashed e' = false /\ _when e' = when
  else reschedule g s x when always = Err AssertFail.
Proof.
  intros Hi Hx Hg Hon. destruct (Z.leb_spec (_curTick s) when) as [Hw|Hw]; simpl.
  2: { unfold reschedule. by rewrite (proj2 (Z.leb_gt _ _) Hw). }
  destruct (always || scheduled e) eqn:Hal.
  2: { unfold reschedule. rewrite (proj2 (Z.leb_le _ _) Hw), check_true, bind_Ok.
       by rewrite (get_Ok _ _ _ Hx), bind_Ok, Hal. }
  destruct (reschedule_spec g s q x e when always Hi Hx Hon Hal Hw) as (s' & e' & E & Hi' & Ht & _ & _ & Ho & Hx' & Hd);
    [by rewrite Hg|].
  set (q1 := if scheduled e then a_remove (ekey e) x q else q) in *.
  assert (Hf : flat q1 = filter (fun y => y.2 <> x) (flat q) /\ sorted q1).
  { unfold q1. destruct (scheduled e) eqn:Hsc.
    - split; [|apply a_remove_sorted, Hi].
      apply (a_remove_flat (events s) (head s)); auto; [apply Hi|apply Hi|by apply (inv_nodup s)].
    - split; [|apply Hi]. pose proof (inv_off _ _ _ _ Hi Hx Hsc) as Hn. rewrite elem_of_app, <- flat_elems in Hn.
      clear -Hn. induction (flat q) as [|[k y] l IH]; [done|]. simpl in Hn. rewrite elem_of_cons in Hn.
      rewrite filter_cons_True by (simpl; intros ->; tauto). rewrite <- IH; [done|tauto]. }
  destruct Hf as [Hf Hs1].
  destruct (a_insert_flat (when, _priority e) x q1 Hs1) as (pre & post & H1 & H2 & H3 & H4).
  exists s', (a_insert (when, _priority e) x q1), e', pre, post. unfold data in Hd.
  injection Hd as D1 D2 D3 D4. rewrite <- Hf. split_and!; auto.
  - unfold scheduled. rewrite D3, isSet_fset. apply orb_true_r.
  - unfold squashed. rewrite D3, isSet_fset, isSet_fclear; done.
Qed.

(** [serviceOne] serves the first event of the service order, whose time and
    priority no other queued event precedes. A squashed event is only dropped.
    Any other one is processed with the clock at its time, already unlinked and
    unmarked, in a well-formed queue without events of the past. *)
Theorem serviceOne_correct process s q x e :
  inv s q -> timely s q -> head s = Some x -> events s !! x = Some e ->
  exists rest q1, flat q = (ekey e, x) :: rest /\ flat q1 = rest /\
    Forall (fun y => ~ klt y.1 (ekey e)) rest /\
    if squashed e then
      exists s', serviceOne process s = Ok (None, s') /\ inv s' q1 /\ timely s' q1 /\
        _curTick s' = _curTick s
    else
      exists s1 e1, serviceOne process s = rbind (process x s1) (after_process x) /\
        inv s1 q1 /\ timely s1 q1 /\ _curTick s1 = _when e /\
        events s1 !! x = Some e1 /\ scheduled e1 = false.
Proof.
  intros Hi Ht Hh Hx. destruct (inv_head s q x Hi Hh) as (k & l & q' & e' & -> & Hx' & Hk).
  rewrite Hx in Hx'. injection Hx' as <-. exists (map (pair k) l ++ flat q'), (cons_bin k l q').
  split; [rewrite flat_cons; by rewrite Hk|]. split; [by destruct l|]. split.
  - rewrite Hk. apply i_sorted, sorted_cons_inv in Hi as [_ Hf]. apply Forall_app. split.
    + apply Forall_fmap, Forall_forall. intros y _. apply klt_irrefl.
    + rewrite Forall_forall in Hf. apply Forall_forall. intros [k2 y] Hy.
      unfold flat in Hy. apply list_elem_of_In, in_flat_map in Hy as ([k3 l3] & Hin & Hy).
      apply in_map_iff in Hy as (z & [= <- <-] & _). intros Hlt. apply (klt_irrefl k3).
      eapply klt_trans; [exact Hlt|]. apply Hf, list_elem_of_fmap. exists (k3, l3).
      split; [done|]. by apply list_elem_of_In.
  - destruct (serviceOne_spec process s k x l q' e Hi Ht Hx) as [_ Hs]. destruct (squashed e); [done|].
    destruct Hs as (s1 & e1 & E & Hi1 & Ht1 & Hc1 & Hx1 & Hd1). exists s1, e1. split_and!; auto.
    + rewrite Hc1, <- Hk. done.
    + unfold data in Hd1. injection Hd1 as _ _ Hfl _. unfold scheduled. rewrite Hfl.
      apply (unmark_scheduled e).
Qed.

(** ** Asynchronous insertions *)

Lemma inv_frame s q s' q' : inv s q -> frame (events s) (events s') -> self s' = self s ->
  bins (events s') (head s') q' -> sorted q' ->
  elems q' ++ async_queue s' ≡ₚ elems q ++ async_queue s -> inv s' q'.
Proof.
  intros Hi Hf Hself Hb Hs Hp.
  assert (Hfl : forall h h' x e, frame h h' -> h !! x = Some e -> exists e', h' !! x = Some e' /\
    scheduled e' = scheduled e /\ sane e' = sane e /\ queue e' = queue e).
  { intros h h' x e Hfr Hx. destruct (frame_lookup _ _ _ _ Hfr Hx) as (e' & He' & Hd). exists e'.
    unfold data in Hd. injection Hd as _ _ D3 D4. unfold scheduled, sane. by rewrite D3. }
  assert (Hf' : frame (events s') (events s)) by (intros y; symmetry; apply Hf).
  split; [done|done| | |].
  - rewrite Hp. apply Hi.
  - intros x. rewrite Hp, (i_sched _ _ Hi), Hself. split; intros (e & He & Hsc & Hq).
    + destruct (Hfl _ _ _ _ Hf He) as (e' & He' & E1 & _ & E3). exists e'. by rewrite E1, E3.
    + destruct (Hfl _ _ _ _ Hf' He) as (e' & He' & E1 & _ & E3). exists e'. by rewrite E1, E3.
  - intros x e He. destruct (Hfl _ _ _ _ Hf' He) as (e' & He' & _ & E2 & _). rewrite <- E2.
    by apply (i_init _ _ Hi x).
Qed.

(** The time and priority an event has been given. *)
Definition akey (h : heap) (x : ptr) : key :=
  match h !! x with Some e => ekey e | None => (0, 0) end.

Lemma akey_frame h h' x : frame h h' -> akey h' x = akey h x.
Proof.
  intros Hf. specialize (Hf x). unfold akey. destruct (h !! x) as [e|], (h' !! x) as [e'|]; try done.
  apply (inj Some) in Hf. by apply data_ekey.
Qed.

Lemma async_loop_spec l s q : inv s q -> async_queue s = l ->
  exists s', async_loop s l = Ok s' /\ async_queue s' = [] /\ frame (events s) (events s') /\
    inv s' (fold_left (fun q x => a_insert (akey (events s) x) x q) l q) /\ _curTick s' = _curTick s.
Proof.
  revert s q. induction l as [|x l IH]; intros s q Hi Ha; simpl.
  { by exists s. }
  destruct (inv_on s q x Hi) as (e & Hx & _); [rewrite Ha; apply elem_of_app; right; by left|].
  pose proof (i_nodup _ _ Hi) as Hnd. rewrite Ha in Hnd.
  destruct (insert_event_spec s x e q Hx (i_bins _ _ Hi)) as (h1 & hd1 & -> & Hb1 & Hf1).
  { apply NoDup_app in Hnd as (H1 & H2 & _). apply NoDup_cons. split; [|done]. intros Hin.
    apply (H2 x Hin). by left. }
  rewrite bind_Ok. simpl. set (s1 := mkState (self s) h1 hd1 (_curTick s) l).
  assert (akey (events s) x = ekey e) as -> by (unfold akey; by rewrite Hx).
  destruct (IH s1 (a_insert (ekey e) x q)) as (s' & E & Ha' & Hf' & Hi' & Ht'); [|done|].
  { apply (inv_frame s q s1 _ Hi); auto; [apply a_insert_sorted, Hi|]. simpl.
    rewrite a_insert_elems, Ha. simpl. by rewrite Permutation_middle. }
  exists s'. split; [exact E|]. split; [done|]. split; [by eapply frame_trans|]. split; [|done].
  replace (fold_left (fun q x => a_insert (akey (events s) x) x q) l (a_insert (ekey e) x q))
    with (fold_left (fun q x => a_insert (akey (events s1) x) x q) l (a_insert (ekey e) x q)); [done|].
  generalize (a_insert (ekey e) x q). clear -Hf1. induction l as [|y l IHl]; intros q0; [done|].
  simpl. by rewrite (akey_frame _ _ y Hf1), IHl.
Qed.

(** The owner of the queue moves every event that other threads have scheduled
    into the queue, in the order of their arrival, and empties the list; any
    other thread stops at the assertion. *)
Theorem handleAsyncInsertions_correct g s q : inv s q ->
  if other_thread g s then handleAsyncInsertions g s = Err AssertFail
  else exists s', handleAsyncInsertions g s = Ok s' /\ async_queue s' = [] /\
    inv s' (fold_left (fun q x => a_insert (akey (events s) x) x q) (async_queue s) q) /\
    frame (events s) (events s') /\ _curTick s' = _curTick s.
Proof.
  intros Hi. unfold handleAsyncInsertions. destruct (other_thread g s); [done|].
  simpl. destruct (async_loop_spec (async_queue s) s q Hi eq_refl) as (s' & E & Ha & Hf & Hi' & Ht).
  by exists s'.
Qed.
