(* ===== verification/EventCheck.v ===== *)
(** * Destructor, self check and checkpoints of the event queue

    The rest of src/gem5/src/sim/eventq.{hh,cc}: [~EventQueue], [debugVerify],
    [serialize]/[unserialize]; and event bodies written as scripts of queue
    operations, which implement the interface [EventBody]. *)

From S2P Require Import Prelude EventQueue EventOps EventService.
Import EventQueue.EventQueue.

(** ** The destructor *)

(** The destructor ends after as many steps as there are queued events, with
    an empty queue; no event that was not waiting in the asynchronous list is
    left marked as scheduled on this queue. *)
Theorem drain_correct g s q : inv s q -> inParallelMode g = false ->
  exists s', drain g (length (elems q)) s = Ok s' /\ head s' = None /\
    forall x e, events s' !! x = Some e -> scheduled e = true -> queue e = Some (self s) ->
      x ∈ async_queue s.
Proof.
  intros Hi Hg. remember (length (elems q)) as n eqn:Hn. revert s q Hi Hn.
  induction n as [|n IH]; intros s q Hi Hn; simpl; destruct (head s) as [x|] eqn:Hh.
  - destruct (inv_head s q x Hi Hh) as (k & l & q1 & e & -> & _). simpl in Hn. lia.
  - exists s. split; [done|]. split; [done|]. intros x e Hx Hsc Hq.
    rewrite (inv_head_None s q Hi Hh) in Hi.
    assert (Hin : x ∈ elems [] ++ async_queue s) by (apply (i_sched _ _ Hi); by exists e). done.
  - destruct (inv_head s q x Hi Hh) as (k & l & q1 & e & -> & Hx & Hk).
    assert (Hin : x ∈ elems ((k, x :: l) :: q1)) by (rewrite elems_cons; by left).
    destruct (deschedule_spec g s _ x e Hi Hx Hin) as (s1 & -> & Hi1 & _ & Hse & Ha & _); [by rewrite Hg|].
    rewrite bind_Ok, <- Hse, <- Ha. apply (IH s1 _ Hi1).
    rewrite (a_remove_elems (events s) (head s)); auto; [|apply Hi|apply Hi|by apply (inv_nodup s)].
    apply inv_nodup in Hi. rewrite elems_cons in *. simpl in *. apply NoDup_cons in Hi as [Hxn _].
    rewrite drop_head by done. lia.
  - pose proof (inv_head_None s q Hi Hh) as ->. done.
Qed.

(** ** The self check *)

Lemma verify_bin_spec h k l : forall p fuel time prio seen, chain h p l -> Forall (has_key h k) l ->
  ~ klt k (time, prio) -> NoDup l -> (forall y, y ∈ l -> y ∉ seen) -> (length l <= fuel)%nat ->
  exists seen', verify_bin fuel h p time prio seen =
      Ok (Some (match l with [] => (time, prio) | _ => k end, seen')) /\
    forall y, y ∈ seen' <-> y ∈ l \/ y ∈ seen.
Proof.
  induction l as [|x l IH]; intros p fuel time prio seen Hc Hk Hlt Hnd Hd Hfuel; simpl in Hc.
  { subst p. exists seen. split; [by destruct fuel|]. intros y. rewrite elem_of_nil. tauto. }
  destruct Hc as [-> (e & Hx & Hc)]. destruct fuel as [|fuel]; simpl in Hfuel; [lia|].
  apply Forall_cons in Hk as [(e' & Hx' & Hk) Hkl]. rewrite Hx in Hx'. injection Hx' as <-.
  apply NoDup_cons in Hnd as [Hn Hnd]. simpl. rewrite (get_Ok _ _ _ Hx), bind_Ok.
  assert ((_when e <? time) = false /\ (_when e =? time) && (_priority e <? prio) = false) as [-> ->].
  { unfold klt in Hlt. subst k. simpl in Hlt. split; [apply Z.ltb_ge; lia|].
    apply andb_false_iff. rewrite Z.eqb_neq, Z.ltb_ge. lia. }
  rewrite bool_decide_eq_false_2 by (apply Hd; by left).
  destruct (IH (nextInBin e) fuel (_when e) (_priority e) ({[x]} ∪ seen)) as (seen' & -> & Hs); auto.
  - subst k. apply klt_irrefl.
  - intros y Hy. rewrite elem_of_union, elem_of_singleton. intros [->|Hy']; [done|].
    by apply (Hd y); [right|].
  - lia.
  - exists seen'. split.
    + subst k. by destruct l.
    + intros y. rewrite Hs, elem_of_union, elem_of_singleton, elem_of_cons. tauto.
Qed.

Lemma verify_bins_spec h q : forall p fuel time prio seen, bins h p q -> sorted q ->
  NoDup (elems q) -> (forall y, y ∈ elems q -> y ∉ seen) -> (length q <= fuel)%nat ->
  match q with [] => True | (k, _) :: _ => ~ klt k (time, prio) end ->
  verify_bins fuel h p time prio seen = Ok true.
Proof.
  induction q as [|[k l] q IH]; intros p fuel time prio seen Hb Hs Hnd Hd Hfuel Hk.
  { simpl in Hb. subst p. by destruct fuel. }
  pose proof Hb as (t & te0 & -> & _). pose proof Hb as Hb0.
  apply bins_top in Hb as (te & l' & Ht & Hte & -> & Hc & Hkl & Hb).
  destruct fuel as [|fuel]; simpl in Hfuel; [lia|]. cbn [verify_bins].
  rewrite elems_cons in Hnd, Hd. setoid_rewrite elem_of_app in Hd.
  pose proof Hnd as (Hnl & Hdis & Hnq)%NoDup_app.
  destruct (verify_bin_spec h k (t :: l') (Some t) (base.size h) time prio seen) as (seen' & -> & Hs'); auto.
  - split; [done|]. by exists te.
  - apply elems_size; [done|]. intros y Hy. apply (bins_elems _ _ _ y Hb0). apply elem_of_app. by left.
  - rewrite bind_Ok. destruct k as [kt kp]. rewrite (get_Ok _ _ _ Ht), bind_Ok.
    apply sorted_cons_inv in Hs as [Hs Hf]. apply IH; [done|done|done| |lia|].
    + intros y Hy. rewrite Hs'. intros [Hy'|Hy']; [by apply (Hdis y)|]. by apply (Hd y); [right|].
    + destruct q as [|[k2 l2] q]; [done|]. apply Forall_cons in Hf as [Hlt _]. intros Hlt'.
      apply (klt_irrefl (kt, kp)). by eapply klt_trans.
Qed.

(** [debugVerify] ends, and accepts every well-formed queue, except that it
    takes an event of negative priority at tick 0 for a priority inversion. *)
Theorem debugVerify_correct s q : inv s q -> Forall (fun b => 0 <= b.1.1) q ->
  debugVerify s = Ok (match q with
                      | (k, _) :: _ => negb ((k.1 =? 0) && (k.2 <? 0))
                      | [] => true
                      end).
Proof.
  intros Hi Hpos. unfold debugVerify. pose proof (inv_nodup _ _ Hi) as Hnd.
  pose proof (bins_fuel _ _ _ (i_bins _ _ Hi) Hnd) as Hfuel.
  destruct q as [|[k l] q].
  { by rewrite (verify_bins_spec (events s) [] (head s)); try done; try apply Hi. }
  apply Forall_cons in Hpos as [Hk _]. simpl in Hk.
  destruct ((k.1 =? 0) && (k.2 <? 0)) eqn:Ez; simpl.
  - apply andb_true_iff in Ez as [Ez1%Z.eqb_eq Ez2%Z.ltb_lt]. pose proof (i_bins _ _ Hi) as Hb.
    pose proof Hb as (t & te0 & Eh & _). rewrite Eh in Hb |- *.
    apply bins_top in Hb as (te & l' & Ht & Hte & -> & _).
    destruct (base.size (events s)) as [|n] eqn:En; simpl in Hfuel; [lia|].
    cbn [verify_bins]. rewrite En. cbn [verify_bin]. rewrite (get_Ok _ _ _ Ht), bind_Ok. subst k. simpl in *. rewrite Ez1, Z.ltb_irrefl, Z.eqb_refl.
    by rewrite (proj2 (Z.ltb_lt _ _) Ez2).
  - apply (verify_bins_spec _ ((k, l) :: q)); auto; try apply Hi; [done|].
    unfold klt. simpl. intros [?|[E1 E2]]; [lia|].
    by rewrite (proj2 (Z.eqb_eq _ _) E1), (proj2 (Z.ltb_lt _ _) E2) in Ez.
Qed.

(** ** Checkpoints *)

Lemma u16_sw f : in_uw 16 f -> u16 (sw 16 f) = f.
Proof.
  intros Hf. unfold sw, uw. rewrite Zminus_mod_idemp_l. replace (f + 2 ^ (16 - 1) - 2 ^ (16 - 1)) with f by lia.
  by apply Z.mod_small.
Qed.

Lemma fset_initialized e : initialized e = true -> fset (flags e) Initialized = flags e.
Proof.
  unfold initialized, fset. intros H%Z.eqb_eq. rewrite <- H. zbits.
Qed.

Definition restored_flags (e : event) : Z :=
  if scheduled e && negb (squashed e) then fclear (flags e) (Z.lor Squashed Scheduled) else flags e.

Lemma unserialize_serialize e e0 : in_uw 16 (flags e) -> initialized e = true ->
  scheduled e0 = false -> initialized e0 = true ->
  unserialize (serialize e) e0 =
    Ok (mkEvent (nextBin e0) (nextInBin e0) (_when e) (_priority e) (restored_flags e) (queue e0)).
Proof.
  intros Hf He Hs0 H0. unfold unserialize. rewrite Hs0, H0. simpl. rewrite u16_sw by done.
  by rewrite (fset_initialized e He).
Qed.

(** The checkpointed form of an event restores its time, its priority and its
    flags into an idle event object, whose links are kept; the flags lose the
    mark of a pending event, and an event that was squashed while scheduled
    comes back with both marks. *)
Theorem checkpoint_roundtrip e e0 : in_uw 16 (flags e) -> initialized e = true ->
  scheduled e0 = false -> initialized e0 = true ->
  exists e', unserialize (serialize e) e0 = Ok e' /\ ekey e' = ekey e /\ initialized e' = true /\
    nextBin e' = nextBin e0 /\ nextInBin e' = nextInBin e0 /\ isManaged e' = isManaged e /\
    scheduled e' = (scheduled e && squashed e) /\ squashed e' = squashed e.
Proof.
  intros Hf He Hs0 H0. rewrite unserialize_serialize by done. eexists. split; [done|].
  assert (Hc : forall m, Z.land (unot 16 (Z.lor Squashed Scheduled)) m = m ->
    Z.land (fclear (flags e) (Z.lor Squashed Scheduled)) m = Z.land (flags e) m).
  { intros m Hm. unfold fclear. by rewrite <- Z.land_assoc, Hm. }
  unfold initialized, isManaged, scheduled, squashed, restored_flags in *. simpl.
  unfold scheduled, squashed. unfold isSet in *.
  destruct (negb (Z.land (flags e) Scheduled =? 0)) eqn:Es,
    (negb (Z.land (flags e) Squashed =? 0)) eqn:Eq; simpl; split_and!; auto; rewrite ?Hc by done; auto.
  all: by apply isSet_fclear.
Qed.

(** C35: [UNSERIALIZE_EVENT] reschedules the wrong events: an event that was pending
    when the checkpoint was taken is not put back on the queue, which keeps its
    head and stays as it was; one that had been squashed is. *)
Theorem unserialize_event_inverted s q x e0 e :
  inv s q -> events s !! x = Some e0 -> scheduled e0 = false ->
  in_uw 16 (flags e) -> sane e = true -> scheduled e = true ->
  exists s', unserialize_event (serialize e) s x = Ok s' /\
    if squashed e then bins (events s') (head s') (a_insert (ekey e) x q)
    else inv s' q /\ x ∉ elems q.
Proof.
  intros Hi Hx Hs0 Hf He Hs. unfold unserialize_event. rewrite (get_Ok _ _ _ Hx), bind_Ok.
  rewrite unserialize_serialize; [|done|by apply sane_initialized|done|by apply (i_initialized s q x)]. rewrite bind_Ok.
  set (e' := mkEvent _ _ _ _ _ _). unfold checkpointReschedule.
  rewrite (get_Ok _ x e') by apply lookup_insert_eq. rewrite bind_Ok.
  pose proof (inv_off _ _ _ _ Hi Hx Hs0) as Hoff.
  assert (Hoffq : x ∉ elems q) by (intros ?; apply Hoff, elem_of_app; by left).
  assert (Hfl : flags e' = if squashed e then flags e else fclear (flags e) (Z.lor Squashed Scheduled)).
  { simpl. unfold restored_flags. rewrite Hs. by destruct (squashed e). }
  rewrite Hfl. destruct (squashed e).
  - unfold scheduled in Hs. rewrite Hs.
    destruct (insert_event_spec (with_events (<[x := e']> (events s)) s) x e' q) as (h & hd & E & Hb & _).
    + apply lookup_insert_eq.
    + apply bins_upd_off; [apply Hi|done].
    + apply NoDup_cons. split; [done|by apply (inv_nodup s)].
    + rewrite E. by eexists.
  - rewrite isSet_fclear by done. eexists. split; [done|]. split; [|done].
    apply (inv_update s q _ q x Hi); auto; simpl.
    + apply others_insert.
    + apply bins_upd_off; [apply Hi|done].
    + apply Hi.
    + apply Hi.
    + split; [done|]. rewrite lookup_insert_eq. intros (e1 & [= <-] & Hs1 & _).
      unfold scheduled in Hs1. by rewrite Hfl, isSet_fclear in Hs1.
    + rewrite lookup_insert_eq. intros e1 [= <-]. unfold sane.
      rewrite Hfl, init_fclear by done. exact He.
Qed.
