(* ===== verification/EventExamples.v ===== *)
(** * Event bodies and a concrete simulation

    Event bodies that act on the queue through its public operations implement
    the interfaces [EventBody] and [QuietBody]; a small queue on which the
    theorems about src/gem5/src/sim/eventq.{hh,cc} are instantiated. *)

From S2P Require Import Prelude EventQueue EventOps EventService EventCheck.
Import EventQueue.EventQueue.

(** ** Bodies as scripts of queue operations *)

Inductive op :=
| OSchedule (x : ptr) (when : Z)
| ODeschedule (x : ptr)
| OReschedule (x : ptr) (when : Z) (always : bool).

Definition serial : globals := mkGlobals false 0.

Definition run_op (s : state) (o : op) : result state :=
  match o with
  | OSchedule x when => schedule serial s x when false
  | ODeschedule x => deschedule serial s x
  | OReschedule x when always => reschedule serial s x when always
  end.

(** The operations an event performs may depend on the state; afterwards its
    object must still be there. *)
Definition scripted (script : ptr -> state -> list op) (x : ptr) (s : state) : result state :=
  let! s' := foldM_r run_op s (script x s) in
  let! _ := get (events s') x in
  Ok s'.

#[global] Instance scripted_body script : EventBody (scripted script).
Proof.
  split. intros x s q s' Hi Ht (s1 & E & (e & He & [= <-])%bind_Ok_inv)%bind_Ok_inv.
  unfold get in He. destruct (events s1 !! x) as [e'|]; [|done].
  enough (inv_timely s1 /\ _curTick s1 = _curTick s) as [Hit Htk] by done.
  clear He. assert (Hit : inv_timely s) by by exists q. clear q Hi Ht.
  revert E. generalize (script x s). intros l E. revert s E Hit. induction l as [|o l IH]; simpl; intros s E Hit.
  { by injection E as <-. }
  apply bind_Ok_inv in E as (s2 & E2 & E). destruct Hit as (q & Hi & Ht).
  assert (Hstep : inv_timely s2 /\ _curTick s2 = _curTick s).
  { destruct o; simpl in E2;
      [by eapply (schedule_inv serial s q)|by eapply (deschedule_inv serial s q)|
       by eapply (reschedule_inv serial s q)]. }
  destruct Hstep as [Hit2 Htk2]. rewrite <- Htk2. by apply IH.
Qed.

Lemma run_op_async s o s' : run_op s o = Ok s' -> async_queue s' = async_queue s.
Proof.
  destruct o; simpl; intros E; [by eapply (schedule_async serial)|by eapply deschedule_async|by eapply reschedule_async].
Qed.

#[global] Instance scripted_serial script : SerialBody (scripted script).
Proof.
  split; [apply _|]. intros x s s' (s1 & E & (e & _ & [= <-])%bind_Ok_inv)%bind_Ok_inv.
  revert E. generalize (script x s). intros l. revert s. induction l as [|o l IH]; simpl; intros s E.
  { by injection E as <-. }
  apply bind_Ok_inv in E as (s2 & <-%run_op_async & E). by apply IH.
Qed.

(** An event that puts itself back after the given time. *)
Definition requeue (when : Z) (x : ptr) (s : state) : result state :=
  reschedule serial s x (Z.max (when + 1) (_curTick s)) true.

Lemma pending_insert when k x q : sorted q -> when < k.1 -> pending when (a_insert k x q) = pending when q.
Proof.
  intros Hs Hk. destruct (a_insert_flat k x q Hs) as (pre & post & E1 & E2 & _).
  unfold pending. rewrite E1, E2, !filter_app, filter_cons_False by (simpl; lia). done.
Qed.

#[global] Instance requeue_quiet when : QuietBody when (requeue when).
Proof.
  split. intros x s q e Hi Ht Hx Hsc.
  destruct (reschedule_spec serial s q x e (Z.max (when + 1) (_curTick s)) true Hi Hx)
    as (s' & e' & E & Hi' & Htk & _ & _ & _ & Hx' & _); [congruence|done|lia|done|].
  rewrite Hsc in Hi'. eexists s', _. split; [exact E|]. split; [exact Hi'|]. split; [|split; [|done]].
  - eapply timely_mono; [|done]. apply timely_insert; [done|simpl; lia].
  - rewrite pending_insert; [done|apply Hi|simpl; lia].
Qed.

(** ** A queue with three pending events and an idle one *)

Definition mk_event (p f : Z) : event := mkEvent None None 0 p (Z.lor Initialized f) None.

Definition example_heap : heap :=
  <[1%positive := mk_event 0 0]> (<[2%positive := mk_event (-1) 0]>
  (<[3%positive := mk_event 0 Managed]> (<[4%positive := mk_event 5 0]> ∅))).

Definition run_ops (s : state) (l : list op) : result state := foldM_r run_op s l.

(** Events 1 and 3 at tick 10 and priority 0, event 2 at tick 10 and priority -1. *)
Definition example : state :=
  match run_ops (newQueue 0 example_heap) [OSchedule 1 10; OSchedule 3 10; OSchedule 2 10] with
  | Ok s => s
  | Err _ => newQueue 0 ∅
  end.

Lemma run_ops_inv l s s' : inv_timely s -> run_ops s l = Ok s' -> inv_timely s'.
Proof.
  revert s. induction l as [|o l IH]; intros s (q & Hi & Ht) E; simpl in E.
  { injection E as <-. by exists q. }
  apply bind_Ok_inv in E as (s1 & E1 & E). apply (IH s1); [|done].
  destruct o; simpl in E1; [by eapply (schedule_inv serial s q)|by eapply (deschedule_inv serial s q)|
       by eapply (reschedule_inv serial s q)].
Qed.

Lemma inv_new_heap this h x p f e : inv (newQueue this h) [] -> h !! x = None ->
  newEvent p f = Ok e -> inv (newQueue this (<[x := e]> h)) [].
Proof. intros Hi Hx E. exact (inv_new (newQueue this h) [] x p f e Hi Hx E). Qed.

Lemma example_heap_inv : inv_timely (newQueue 0 example_heap).
Proof.
  exists []. split; [|constructor]. unfold example_heap.
  apply (inv_new_heap _ _ _ 0 0); [|reflexivity|reflexivity].
  apply (inv_new_heap _ _ _ (-1) 0); [|reflexivity|reflexivity].
  apply (inv_new_heap _ _ _ 0 Managed); [|reflexivity|reflexivity].
  apply (inv_new_heap _ _ _ 5 0); [|reflexivity|reflexivity].
  apply inv_newQueue.
Qed.

Lemma example_run :
  run_ops (newQueue 0 example_heap) [OSchedule 1 10; OSchedule 3 10; OSchedule 2 10] = Ok example.
Proof. vm_compute. reflexivity. Qed.

Lemma example_inv : inv_timely example.
Proof. eapply run_ops_inv; [apply example_heap_inv|apply example_run]. Qed.

(** ** Instances of the theorems *)

Definition ok {A} (r : result A) : option A := match r with Ok x => Some x | Err _ => None end.

(** Three events are created; 1 and 2 are scheduled at ticks 10 and 5, 1 is moved
    to tick 7, and the event that comes first is served: it schedules event 3 at
    tick 6, which [serviceEvents] serves when it runs up to that tick. *)
Definition reach_script (x : ptr) (s : state) : list op :=
  if bool_decide (x = 2%positive) then [OSchedule 3 6] else [].

Definition reach_ops : list op := [OSchedule 1 10; OSchedule 2 5; OReschedule 1 7 false].

Definition reach_heap : heap := <[3%positive := mk_event 0 0]> (<[2%positive := mk_event 0 0]>
  (<[1%positive := mk_event 0 0]> ∅)).

Definition reach_sched : state := default (newQueue 0 ∅) (ok (run_ops (newQueue 0 reach_heap) reach_ops)).

Definition reach_first : state :=
  default (newQueue 0 ∅) (snd <$> ok (serviceOne (scripted reach_script) reach_sched)).

Definition reach_end : state :=
  default (newQueue 0 ∅) (ok (serviceEvents (scripted reach_script) 3 6 reach_first)).

Lemma reach_runs :
  run_ops (newQueue 0 reach_heap) reach_ops = Ok reach_sched /\
  serviceOne (scripted reach_script) reach_sched = Ok (None, reach_first) /\
  serviceEvents (scripted reach_script) 3 6 reach_first = Ok reach_end.
Proof. split_and!; vm_compute; reflexivity. Qed.

Lemma run_ops_steps process l s s' : run_ops s l = Ok s' -> rtc (step serial process) s s'.
Proof.
  revert s. induction l as [|o l IH]; intros s E; simpl in E.
  { injection E as <-. apply rtc_refl. }
  apply bind_Ok_inv in E as (s1 & E1 & E). eapply rtc_l; [|by apply IH].
  destruct o; simpl in E1; [by eapply step_schedule|by eapply step_deschedule|by eapply step_reschedule].
Qed.

Lemma reach_steps : rtc (step serial (scripted reach_script)) (newQueue 0 ∅) reach_end.
Proof.
  eapply rtc_l; [by eapply (step_new _ _ (newQueue 0 ∅) 1 0 0)|].
  eapply rtc_l; [by eapply (step_new _ _ _ 2 0 0)|].
  eapply rtc_l; [by eapply (step_new _ _ _ 3 0 0)|].
  change (with_events _ _) with (newQueue 0 reach_heap).
  destruct reach_runs as (E1 & E2 & E3). etransitivity; [by eapply run_ops_steps|].
  eapply rtc_l; [by eapply step_serviceOne|]. eapply rtc_l; [by eapply step_serviceEvents|]. apply rtc_refl.
Qed.

(** Afterwards the queue holds event 1 alone. *)
Lemma reachable_inv_witness :
  _curTick reach_end = 6 /\
  exists q, inv reach_end q /\ timely reach_end q /\ async_queue reach_end = [] /\
    1%positive ∈ elems q /\ 2%positive ∉ elems q /\ 3%positive ∉ elems q.
Proof.
  split; [reflexivity|].
  destruct (reachable_inv serial (scripted reach_script) 0 reach_end) as (q & Hi & Ht & Ha & _ & Hs);
    [reflexivity|apply reach_steps|].
  exists q. split; [exact Hi|]. split; [exact Ht|]. split; [exact Ha|]. rewrite !Hs. split.
  - eexists. split; [reflexivity|]. split; reflexivity.
  - split; intros (e & He & Hsc & _); vm_compute in He; injection He as <-; discriminate Hsc.
Defined.

(** Two queues in parallel mode; the calling thread owns queue 1. *)
Definition parallel : globals := mkGlobals true 1.

Lemma schedule_correct_witness :
  (exists s', schedule serial example 4 10 false = Ok s' /\ async_queue s' = []) /\
  (exists s', schedule parallel example 4 10 false = Ok s' /\ async_queue s' = [4%positive]).
Proof.
  destruct example_inv as (q & Hi & _). split.
  - destruct (schedule_correct serial example q 4 (mk_event 5 0) 10 false Hi)
      as (s' & q' & e' & E & _ & _ & _ & _ & _ & _ & _ & Ha & _); [reflexivity|]. by exists s'.
  - destruct (schedule_correct parallel example q 4 (mk_event 5 0) 10 false Hi)
      as (s' & q' & e' & E & _ & _ & _ & _ & _ & _ & _ & _ & Ha); [reflexivity|]. by exists s'.
Defined.

Lemma deschedule_correct_witness : exists s', deschedule serial example 3 = Ok s' /\ events s' !! 3%positive = None.
Proof.
  destruct example_inv as (q & Hi & _).
  assert (Hin : 3%positive ∈ elems q ++ async_queue example).
  { apply (i_sched _ _ Hi). eexists. by split. }
  assert (Hin' : 3%positive ∈ elems q) by (apply elem_of_app in Hin as [?|?]; [done|by apply elem_of_nil in H]).
  pose proof (deschedule_correct serial example q 3 _ Hi eq_refl eq_refl) as H.
  rewrite (bool_decide_eq_true_2 _ Hin') in H. simpl in H.
  destruct H as (s' & q' & E & _ & _ & _ & _ & Hd). by exists s'.
Defined.

Lemma reschedule_correct_witness : exists s', reschedule serial example 4 30 true = Ok s'.
Proof.
  destruct example_inv as (q & Hi & _).
  destruct (reschedule_correct serial example q 4 (mk_event 5 0) 30 true Hi)
    as (s' & q' & e' & pre & post & E & _); [reflexivity|reflexivity|done|]. by exists s'.
Defined.

Lemma serviceOne_correct_witness : exists s' : state, _curTick s' = 10 /\ inv_timely s'.
Proof.
  destruct example_inv as (q & Hi & Ht).
  destruct (serviceOne_correct (requeue 15) example q 2 _ Hi Ht eq_refl eq_refl)
    as (rest & q1 & _ & _ & _ & (s1 & e1 & _ & Hi1 & Ht1 & Hc & _)).
  exists s1. split; [exact Hc|]. by exists q1.
Defined.

(** Event 2 moves event 1 to tick 20; event 1 would put itself to tick 30. *)
Definition example_script (x : ptr) (s : state) : list op :=
  if bool_decide (x = 2%positive) then [OReschedule 1 20 false]
  else if bool_decide (x = 1%positive) then [OSchedule 1 30] else [].

Lemma serviceEvents_correct_witness :
  exists s', serviceEvents (scripted example_script) 5 15 example = Ok s' /\ _curTick s' = 15 /\ inv_timely s'.
Proof.
  destruct example_inv as (q & Hi & Ht).
  destruct (serviceEvents (scripted example_script) 5 15 example) as [s'|err] eqn:E; [|vm_compute in E; done].
  destruct (serviceEvents_correct (scripted example_script) 5 15 example q s' Hi Ht E)
    as (q' & Hi' & Ht' & Hc & _).
  exists s'. split; [done|]. split; [done|]. by exists q'.
Defined.

Lemma serviceEvents_terminates_witness :
  exists n s', serviceEvents (requeue 15) n 15 example = Ok s' /\ _curTick s' = 15.
Proof.
  destruct example_inv as (q & Hi & Ht). exists (pending 15 q).
  exact (serviceEvents_terminates (requeue 15) 15 (pending 15 q) example q Hi Ht ltac:(lia)).
Defined.

Lemma handleAsyncInsertions_correct_witness :
  exists s', handleAsyncInsertions serial example = Ok s' /\ async_queue s' = [].
Proof.
  destruct example_inv as (q & Hi & Ht).
  destruct (handleAsyncInsertions_correct serial example q Hi) as (s' & E & Ha & _). by exists s'.
Defined.

Lemma drain_correct_witness : exists n s', drain serial n example = Ok s' /\ head s' = None.
Proof.
  destruct example_inv as (q & Hi & Ht).
  destruct (drain_correct serial example q Hi eq_refl) as (s' & E & Hh & _). by exists (length (elems q)), s'.
Defined.

Lemma debugVerify_correct_witness : exists b, debugVerify example = Ok b.
Proof.
  destruct example_inv as (q & Hi & Ht). eexists. apply (debugVerify_correct example q Hi).
  eapply Forall_impl; [exact Ht|]. intros b. change (_curTick example) with 0. done.
Defined.

Lemma checkpoint_roundtrip_witness :
  exists e', unserialize (serialize (mark (mk_event 5 0))) (mk_event 0 0) = Ok e' /\ scheduled e' = false.
Proof.
  destruct (checkpoint_roundtrip (mark (mk_event 5 0)) (mk_event 0 0))
    as (e' & E & _ & _ & _ & _ & _ & Hs & _); [split; vm_compute; [discriminate|reflexivity]|reflexivity..|].
  exists e'. split; [exact E|]. rewrite Hs. reflexivity.
Defined.

Lemma unserialize_event_inverted_witness :
  exists s', unserialize_event (serialize (mark (mk_event 5 0))) example 4 = Ok s'.
Proof.
  destruct example_inv as (q & Hi & Ht).
  destruct (unserialize_event_inverted example q 4 (mk_event 5 0) (mark (mk_event 5 0)) Hi)
    as (s' & E & _); [reflexivity|reflexivity|split; vm_compute; [discriminate|reflexivity]|reflexivity..|].
  by exists s'.
Defined.
