(* ===== verification/Tables.v ===== *)
(** * Tables indexed by masked words

    Lemmas for the predictors: tables whose size is a power of two, read at an
    index that a mask keeps in range. *)

From S2P Require Import Prelude Bits.

Lemma masked_index k a : 0 <= k <= 32 -> 0 <= a -> u32 (Z.land a (2 ^ k - 1)) = uw k a.
Proof.
  intros Hk Ha. rewrite land_ones_uw by lia. apply uw_small. eapply in_uw_mono; [|apply uw_range]; lia.
Qed.

Lemma masked_range k a : 0 <= k -> 0 <= Z.land a (2 ^ k - 1) < 2 ^ k.
Proof. intros Hk. rewrite land_ones_uw by lia. by apply uw_range. Qed.

Lemma shr_Ok w x n : 0 <= n < w -> shr w x n = Ok (Z.shiftr x n).
Proof. intros Hn. unfold shr. destruct (Z.leb_spec 0 n), (Z.ltb_spec n w); try lia. done. Qed.

Lemma bits_eq n x y : in_uw n x -> in_uw n y -> 0 <= n ->
  (forall i, 0 <= i < n -> Z.testbit x i = Z.testbit y i) -> x = y.
Proof.
  intros Hx Hy Hn Hb. apply Z.bits_inj'. intros i Hi. destruct (Z.lt_ge_cases i n); [by apply Hb|].
  rewrite (testbit_high n x), (testbit_high n y) by (done || lia). done.
Qed.

Lemma vget_len {A} (l : list A) n i : Z.of_nat (length l) = n -> 0 <= i < n -> exists x, vget l i = Ok x.
Proof. intros <- Hi. destruct (vget_Ok l i Hi) as (x & E & _). by exists x. Qed.

Lemma vget_fmap {A B} (f : A -> B) l i : vget (f <$> l) i = let! x := vget l i in Ok (f x).
Proof. unfold vget. rewrite list_lookup_fmap. destruct (0 <=? i); [|done]. by destruct (l !! _). Qed.

(** The size of a table, a power of two below 2^32. *)
Definition table_size (n : Z) : Prop := exists k, 0 <= k < 32 /\ n = 2 ^ k.

Lemma isPowerOf2_table n : in_uw 32 n -> isPowerOf2 n = true -> table_size n.
Proof.
  intros Hn Hp. apply isPowerOf2_spec in Hp as (k & Hk & ->); [|eapply in_uw_mono; eauto; lia].
  exists k. split; [|done]. destruct Hn as [_ Hn]. apply Z.pow_lt_mono_r_iff in Hn; lia.
Qed.

Lemma table_mask n : table_size n -> exists k, 0 <= k < 32 /\ n = 2 ^ k /\ u32 (n - 1) = 2 ^ k - 1 /\ 0 < n.
Proof.
  intros (k & Hk & ->). exists k. pose proof (pow2_pos k). pose proof (Z.pow_lt_mono_r 2 k 32).
  split_and!; try done; try lia. apply uw_small. unfold in_uw. lia.
Qed.
