(* ===== verification/SatCounter.v ===== *)
(** * Saturating counters

    Model of src/gem5/src/base/sat_counter.hh, for an unsigned value type of
    [w] bits (8, 16, 32 or 64). *)

From S2P Require Import Prelude.

Module SatCounter.

(** [GenericSatCounter<T>]. *)
Record t := mkCounter {
  initialVal : Z;
  maxVal : Z;
  counter : Z;
}.

#[global] Instance t_eq_dec : EqDecision t.
Proof. solve_decision. Defined.

Definition with_counter (v : Z) (c : t) : t := mkCounter (initialVal c) (maxVal c) v.

(** [GenericSatCounter(bits, initial_val)]: the maximum is computed before the
    number of bits is checked. *)
Definition new (w bits initial_val : Z) : result t :=
  let! one := shl 64 1 bits in
  let max := uw w (one - 1) in
  let! _ := check Fatal (negb (w <? bits)) in
  let! _ := check Fatal (negb (max <? initial_val)) in
  Ok (mkCounter initial_val max initial_val).

(** [operator++] and [operator--]. *)
Definition incr (c : t) : t := if counter c <? maxVal c then with_counter (counter c + 1) c else c.
Definition decr (c : t) : t := if 0 <? counter c then with_counter (counter c - 1) c else c.

(** The width an operand of type [T] is promoted to. *)
Definition promoted (w : Z) : Z := Z.max 32 w.

(** [operator>>=] and [operator<<=]. *)
Definition shr_assign (w : Z) (c : t) (shift : Z) : result t :=
  guard! 0 <=? shift;
  let! v := shr (promoted w) (counter c) shift in
  Ok (with_counter (uw w v) c).
Definition shl_assign (w : Z) (c : t) (shift : Z) : result t :=
  guard! 0 <=? shift;
  let! v := shl (promoted w) (counter c) shift in
  let c := with_counter (uw w v) c in
  Ok (if maxVal c <? counter c then with_counter (maxVal c) c else c).

(** The branches of [operator+=] and [operator-=] for a value that is not
    negative, and the operators; negating the least [long long] overflows. *)
Definition add_nonneg (c : t) (value : Z) : t :=
  if value <=? maxVal c - counter c then with_counter (counter c + value) c
  else with_counter (maxVal c) c.
Definition sub_nonneg (c : t) (value : Z) : t :=
  if value <? counter c then with_counter (counter c - value) c else with_counter 0 c.
Definition negate (value : Z) : result Z :=
  if value =? - 2 ^ 63 then Err Undefined else Ok (- value).
Definition add_assign (c : t) (value : Z) : result t :=
  if 0 <=? value then Ok (add_nonneg c value)
  else let! v := negate value in Ok (sub_nonneg c v).
Definition sub_assign (c : t) (value : Z) : result t :=
  if 0 <=? value then Ok (sub_nonneg c value)
  else let! v := negate value in Ok (add_nonneg c v).

Definition reset (c : t) : t := with_counter (initialVal c) c.
Definition isSaturated (c : t) : bool := counter c =? maxVal c.

(** [saturate]: the amount added, and the counter. *)
Definition saturate (c : t) : Z * t := (maxVal c - counter c, with_counter (maxVal c) c).

End SatCounter.

Import SatCounter.

(** The class invariant. *)
Definition wf (w : Z) (c : t) : Prop :=
  0 <= counter c <= maxVal c /\ 0 <= initialVal c <= maxVal c /\ maxVal c < 2 ^ w.

Definition clamp (c : t) (v : Z) : t := with_counter (Z.max 0 (Z.min (maxVal c) v)) c.

Lemma clamp_wf w c v : wf w c -> wf w (clamp c v).
Proof. unfold wf. simpl. lia. Qed.

Lemma incr_clamp w c : wf w c -> incr c = clamp c (counter c + 1).
Proof.
  intros ((? & ?) & _). unfold incr, clamp. destruct c as [i m v]; simpl in *. unfold with_counter. simpl.
  destruct (Z.ltb_spec v m); f_equal; lia.
Qed.

Lemma decr_clamp w c : wf w c -> decr c = clamp c (counter c - 1).
Proof.
  intros ((? & ?) & _). unfold decr, clamp. destruct c as [i m v]; simpl in *. unfold with_counter. simpl.
  destruct (Z.ltb_spec 0 v); f_equal; lia.
Qed.

Lemma incr_wf w c : wf w c -> wf w (incr c).
Proof. intros H. rewrite (incr_clamp w) by done. by apply clamp_wf. Qed.
Lemma decr_wf w c : wf w c -> wf w (decr c).
Proof. intros H. rewrite (decr_clamp w) by done. by apply clamp_wf. Qed.
#[export] Hint Resolve incr_wf decr_wf : gem5.

Lemma incr_max c : maxVal (incr c) = maxVal c.
Proof. unfold incr. by destruct (_ <? _). Qed.
Lemma decr_max c : maxVal (decr c) = maxVal c.
Proof. unfold decr. by destruct (_ <? _). Qed.

Lemma new_wf w bits v c : 0 < w <= 64 -> 0 <= v -> new w bits v = Ok c ->
  wf w c /\ counter c = v /\ maxVal c = 2 ^ bits - 1 /\ bits <= w.
Proof.
  intros Hw Hv E. unfold new, shl in E.
  destruct (Z.leb_spec 0 bits), (Z.ltb_spec bits 64); cbn [andb] in E; try done. rewrite bind_Ok in E.
  rewrite Z.shiftl_1_l, (uw_small 64) in E
    by (split; [apply Z.pow_nonneg; lia|apply Z.pow_lt_mono_r; lia]).
  apply bind_Ok_inv in E as ([] & Hb%check_Ok%negb_true_iff%Z.ltb_ge & E).
  pose proof (pow2_pos bits). pose proof (Z.pow_le_mono_r 2 bits w).
  rewrite (uw_small w) in E by (split; lia).
  apply bind_Ok_inv in E as ([] & Hi%check_Ok%negb_true_iff%Z.ltb_ge & [= <-]).
  unfold wf. simpl. lia.
Qed.

(** C40: A counter stays between zero and its maximum under every operation, and
    each operation moves it by the amount it says, clamped to that interval;
    shifts do so as long as the shifted value fits the type. Adding the least
    [long long] is undefined. *)
Theorem sat_counter_correct w c v : w = 8 \/ w = 16 \/ w = 32 \/ w = 64 -> wf w c -> in_sw 64 v ->
  incr c = clamp c (counter c + 1) /\ decr c = clamp c (counter c - 1) /\
  (v <> - 2 ^ 63 -> add_assign c v = Ok (clamp c (counter c + v)) /\
                    sub_assign c v = Ok (clamp c (counter c - v))) /\
  (0 <= v < w -> shr_assign w c v = Ok (clamp c (Z.shiftr (counter c) v)) /\
     (Z.shiftl (counter c) v < 2 ^ w -> shl_assign w c v = Ok (clamp c (Z.shiftl (counter c) v)))) /\
  (add_assign c (- 2 ^ 63) = Err Undefined) /\
  reset c = clamp c (initialVal c) /\ (saturate c).2 = clamp c (counter c + (saturate c).1).
Proof.
  intros Hw Hc Hv. split; [by apply (incr_clamp w)|]. split; [by apply (decr_clamp w)|].
  destruct Hc as ((Hc0 & Hc1) & (Hi0 & Hi1) & Hm). unfold in_sw in Hv. simpl in Hv.
  destruct c as [i m n]. simpl in *. unfold clamp, with_counter. simpl.
  split; [|split; [|split; [done|split; unfold reset, saturate, with_counter; simpl; f_equal; lia]]].
  - intros Hne. unfold add_assign, sub_assign, negate, add_nonneg, sub_nonneg, with_counter.
    rewrite (proj2 (Z.eqb_neq _ _) Hne). clear Hv Hm Hne. cbn [rbind initialVal maxVal counter].
    destruct (Z.leb_spec 0 v); split;
      repeat match goal with
      | |- context [?a <=? ?b] => destruct (Z.leb_spec a b)
      | |- context [?a <? ?b] => destruct (Z.ltb_spec a b)
      end; do 2 f_equal; lia.
  - intros Hs. pose proof (pow2_pos v ltac:(lia)) as Hp.
    assert (Hpw : v < promoted w) by (unfold promoted; lia).
    assert (Hr : 0 <= Z.shiftr n v <= n).
    { rewrite Z.shiftr_div_pow2 by lia. split; [apply Z.div_pos; lia|]. apply Z.div_le_upper_bound; nia. }
    assert (Hl : 0 <= Z.shiftl n v) by (apply Z.shiftl_nonneg; lia). split.
    + unfold shr_assign, shr, with_counter. simpl.
      destruct (Z.leb_spec 0 v), (Z.ltb_spec v (promoted w)); try lia. simpl.
      rewrite (uw_small w) by (split; lia). do 2 f_equal. lia.
    + intros Hfit. unfold shl_assign, shl, with_counter. simpl.
      destruct (Z.leb_spec 0 v), (Z.ltb_spec v (promoted w)); try lia. simpl.
      pose proof (Z.pow_le_mono_r 2 w (promoted w) ltac:(lia) ltac:(unfold promoted; lia)).
      rewrite (uw_small (promoted w)), (uw_small w) by (split; lia).
      destruct (Z.ltb_spec m (Z.shiftl n v)); do 2 f_equal; lia.
Qed.

(** [operator<<=] compares with the maximum after the value has been truncated
    to its type: a full-width counter can drop to zero instead of saturating. *)
Theorem shl_assign_wraps :
  exists c c', new 8 8 128 = Ok c /\ shl_assign 8 c 1 = Ok c' /\ counter c' = 0 /\ maxVal c' = 255.
Proof. exists (mkCounter 128 255 128), (mkCounter 128 255 0). by split_and!. Qed.

Lemma sat_counter_correct_witness :
  exists c, new 8 2 1 = Ok c /\ add_assign c 5 = Ok (mkCounter 1 3 3).
Proof.
  exists (mkCounter 1 3 1). split; [reflexivity|].
  destruct (sat_counter_correct 8 (mkCounter 1 3 1) 5) as (_ & _ & H & _);
    [auto|repeat split; simpl; lia|split; simpl; lia|].
  destruct (H ltac:(done)) as [-> _]. reflexivity.
Defined.
