(* ===== verification/BranchDir.v ===== *)
(** * Branch direction predictors

    Model of the conditional branch predictors of src/gem5/src/cpu/pred:
    2bit_local.{hh,cc}, bi_mode.{hh,cc} and tournament.{hh,cc}, behind the
    interface that bpred_unit.hh declares for them (the pure virtual functions
    [lookup], [updateHistories], [update], [squash]). *)

From S2P Require Import Prelude Bits SatCounter.
Import SatCounter.SatCounter.

(** The interface: [S] is the state of a predictor, [H] the record it hands
    out for a branch in flight ([void *bp_history], null being [None]). *)
Class DirPredictor (S H : Type) := {
  dp_lookup : Z -> Z -> S -> result (bool * option H);
  dp_updateHistories : Z -> Z -> bool -> bool -> option H -> S -> result (option H * S);
  dp_update : Z -> Z -> bool -> option H -> bool -> S -> result (option H * S);
  dp_squash : Z -> option H -> S -> result (option H * S);
}.

(** [counter++] or [counter--]. *)
Definition bump (taken : bool) (c : SatCounter.t) : SatCounter.t := if taken then incr c else decr c.

(** ** The two-bit local predictor *)
Module LocalBP.

Record t := mk {
  localPredictorSize : Z;
  localCtrBits : Z;
  localPredictorSets : Z;
  localCtrs : list SatCounter.t;
  indexMask : Z;
  instShiftAmt : Z;
}.

Definition new (localPredictorSize localCtrBits instShiftAmt : Z) : result t :=
  let! sets := (if localCtrBits =? 0 then Err Undefined else Ok (localPredictorSize / localCtrBits)) in
  let! c := SatCounter.new 8 localCtrBits 0 in
  let! _ := check Fatal (isPowerOf2 localPredictorSize) in
  let! _ := check Fatal (isPowerOf2 sets) in
  Ok (mk localPredictorSize localCtrBits sets (replicate (Z.to_nat sets) c) (u32 (sets - 1)) instShiftAmt).

Definition getPrediction (p : t) (count : Z) : result bool :=
  let! v := shr 32 count (u32 (localCtrBits p - 1)) in Ok (negb (v =? 0)).

Definition getLocalIndex (p : t) (branch_addr : Z) : result Z :=
  let! a := shr 64 branch_addr (instShiftAmt p) in Ok (u32 (Z.land a (indexMask p))).

Definition lookup (tid branch_addr : Z) (p : t) : result (bool * option unit) :=
  let! idx := getLocalIndex p branch_addr in
  let! c := vget (localCtrs p) idx in
  let! taken := getPrediction p (counter c) in
  Ok (taken, None).

Definition updateHistories (tid pc : Z) (uncond taken : bool) (bp_history : option unit) (p : t) :
    result (option unit * t) := Ok (bp_history, p).

Definition with_ctrs (cs : list SatCounter.t) (p : t) : t :=
  mk (localPredictorSize p) (localCtrBits p) (localPredictorSets p) cs (indexMask p) (instShiftAmt p).

Definition update (tid branch_addr : Z) (taken : bool) (bp_history : option unit) (squashed : bool) (p : t) :
    result (option unit * t) :=
  guard! match bp_history with None => true | Some _ => false end;
  if squashed then Ok (bp_history, p)
  else
    let! idx := getLocalIndex p branch_addr in
    let! cs := vupd (bump taken) (localCtrs p) idx in
    Ok (bp_history, with_ctrs cs p).

Definition squash (tid : Z) (bp_history : option unit) (p : t) : result (option unit * t) :=
  guard! match bp_history with None => true | Some _ => false end; Ok (bp_history, p).

End LocalBP.

#[export] Instance LocalBP_pred : DirPredictor LocalBP.t unit := {|
  dp_lookup := LocalBP.lookup;
  dp_updateHistories := LocalBP.updateHistories;
  dp_update := LocalBP.update;
  dp_squash := LocalBP.squash;
|}.

(** ** The bi-mode predictor *)
Module BiModeBP.

Record history := mkHistory {
  h_globalHistoryReg : Z;
  takenUsed : bool;
  takenPred : bool;
  notTakenPred : bool;
  finalPred : bool;
}.

Record t := mk {
  globalHistoryReg : list Z;
  globalHistoryBits : Z;
  historyRegisterMask : Z;
  choicePredictorSize : Z;
  choiceHistoryMask : Z;
  globalPredictorSize : Z;
  globalHistoryMask : Z;
  choiceCounters : list SatCounter.t;
  takenCounters : list SatCounter.t;
  notTakenCounters : list SatCounter.t;
  choiceThreshold : Z;
  takenThreshold : Z;
  notTakenThreshold : Z;
  instShiftAmt : Z;
}.

(** [(1ULL << (bits - 1)) - 1], in an [unsigned]. *)
Definition threshold (bits : Z) : result Z :=
  let! one := shl 64 1 (u32 (bits - 1)) in Ok (u32 (one - 1)).

Definition new (numThreads choicePredictorSize choiceCtrBits globalPredictorSize globalCtrBits
    instShiftAmt : Z) : result t :=
  let! gbits := ceilLog2 4 globalPredictorSize in
  let! cc := SatCounter.new 8 choiceCtrBits 0 in
  let! gc := SatCounter.new 8 globalCtrBits 0 in
  let! _ := check Fatal (isPowerOf2 choicePredictorSize) in
  let! _ := check Fatal (isPowerOf2 globalPredictorSize) in
  let! ct := threshold choiceCtrBits in
  let! gt := threshold globalCtrBits in
  Ok (mk (replicate (Z.to_nat numThreads) 0) gbits (u32 (mask gbits))
         choicePredictorSize (u32 (choicePredictorSize - 1))
         globalPredictorSize (u32 (globalPredictorSize - 1))
         (replicate (Z.to_nat choicePredictorSize) cc)
         (replicate (Z.to_nat globalPredictorSize) gc)
         (replicate (Z.to_nat globalPredictorSize) gc) ct gt gt instShiftAmt).

Definition with_reg (r : list Z) (p : t) : t :=
  mk r (globalHistoryBits p) (historyRegisterMask p) (choicePredictorSize p) (choiceHistoryMask p)
     (globalPredictorSize p) (globalHistoryMask p) (choiceCounters p) (takenCounters p)
     (notTakenCounters p) (choiceThreshold p) (takenThreshold p) (notTakenThreshold p) (instShiftAmt p).
Definition with_counters (c tk nt : list SatCounter.t) (p : t) : t :=
  mk (globalHistoryReg p) (globalHistoryBits p) (historyRegisterMask p) (choicePredictorSize p)
     (choiceHistoryMask p) (globalPredictorSize p) (globalHistoryMask p) c tk nt
     (choiceThreshold p) (takenThreshold p) (notTakenThreshold p) (instShiftAmt p).

Definition uncondBranch (tid pc : Z) (p : t) : result history :=
  let! r := vget (globalHistoryReg p) tid in Ok (mkHistory r true true true true).

Definition updateGlobalHistReg (tid : Z) (taken : bool) (p : t) : result t :=
  let! r := vget (globalHistoryReg p) tid in
  let r := (if taken then Z.lor (u32 (Z.shiftl r 1)) 1 else u32 (Z.shiftl r 1)) in
  let! regs := vset (globalHistoryReg p) tid (Z.land r (historyRegisterMask p)) in
  Ok (with_reg regs p).

Definition updateHistories (tid pc : Z) (uncond taken : bool) (bp_history : option history) (p : t) :
    result (option history * t) :=
  guard! uncond || match bp_history with None => false | Some _ => true end;
  let! h := (if uncond then let! h := uncondBranch tid pc p in Ok (Some h) else Ok bp_history) in
  let! p := updateGlobalHistReg tid taken p in
  Ok (h, p).

Definition squash (tid : Z) (bp_history : option history) (p : t) : result (option history * t) :=
  match bp_history with
  | None => Err Undefined
  | Some h =>
      let! regs := vset (globalHistoryReg p) tid (h_globalHistoryReg h) in
      Ok (None, with_reg regs p)
  end.

(** The two indices; the first operand of [^] is an [Addr]. *)
Definition choiceHistoryIdx (p : t) (branchAddr : Z) : result Z :=
  let! a := shr 64 branchAddr (instShiftAmt p) in Ok (u32 (Z.land a (choiceHistoryMask p))).
Definition globalHistoryIdx (p : t) (branchAddr reg : Z) : result Z :=
  let! a := shr 64 branchAddr (instShiftAmt p) in
  Ok (u32 (Z.land (Z.lxor a reg) (globalHistoryMask p))).

Definition lookup (tid branchAddr : Z) (p : t) : result (bool * option history) :=
  let! ci := choiceHistoryIdx p branchAddr in
  let! reg := vget (globalHistoryReg p) tid in
  let! gi := globalHistoryIdx p branchAddr reg in
  guard! ci <? choicePredictorSize p;
  guard! gi <? globalPredictorSize p;
  let! cc := vget (choiceCounters p) ci in
  let! tc := vget (takenCounters p) gi in
  let! nc := vget (notTakenCounters p) gi in
  let choicePrediction := choiceThreshold p <? counter cc in
  let takenGHBPrediction := takenThreshold p <? counter tc in
  let notTakenGHBPrediction := notTakenThreshold p <? counter nc in
  let finalPrediction := (if choicePrediction then takenGHBPrediction else notTakenGHBPrediction) in
  Ok (finalPrediction,
      Some (mkHistory reg choicePrediction takenGHBPrediction notTakenGHBPrediction finalPrediction)).

Definition update (tid branchAddr : Z) (taken : bool) (bp_history : option history) (squashed : bool) (p : t) :
    result (option history * t) :=
  match bp_history with
  | None => Err AssertFail
  | Some h =>
      if squashed then
        let! regs := vset (globalHistoryReg p) tid
          (Z.lor (u32 (Z.shiftl (h_globalHistoryReg h) 1)) (Z.b2z taken)) in
        Ok (Some h, with_reg regs p)
      else
        let! ci := choiceHistoryIdx p branchAddr in
        let! gi := globalHistoryIdx p branchAddr (h_globalHistoryReg h) in
        guard! ci <? choicePredictorSize p;
        guard! gi <? globalPredictorSize p;
        let! tk := (if takenUsed h then vupd (bump taken) (takenCounters p) gi else Ok (takenCounters p)) in
        let! nt := (if takenUsed h then Ok (notTakenCounters p)
                    else vupd (bump taken) (notTakenCounters p) gi) in
        let! cs := (if eqb (finalPred h) taken then
                      if eqb (finalPred h) (takenUsed h) then vupd (bump taken) (choiceCounters p) ci
                      else Ok (choiceCounters p)
                    else vupd (bump taken) (choiceCounters p) ci) in
        Ok (None, with_counters cs tk nt p)
  end.

End BiModeBP.

#[export] Instance BiModeBP_pred : DirPredictor BiModeBP.t BiModeBP.history := {|
  dp_lookup := BiModeBP.lookup;
  dp_updateHistories := BiModeBP.updateHistories;
  dp_update := BiModeBP.update;
  dp_squash := BiModeBP.squash;
|}.

(** ** The tournament predictor *)
Module TournamentBP.

Record history := mkHistory {
  h_globalHistory : Z;
  h_localHistoryIdx : Z;
  h_localHistory : Z;
  localPredTaken : bool;
  globalPredTaken : bool;
  globalUsed : bool;
}.

Record t := mk {
  localPredictorSize : Z;
  localPredictorMask : Z;
  localCtrs : list SatCounter.t;
  localHistoryTable : list Z;
  localHistoryTableSize : Z;
  globalPredictorSize : Z;
  globalCtrs : list SatCounter.t;
  globalHistory : list Z;
  globalHistoryMask : Z;
  choiceHistoryMask : Z;
  historyRegisterMask : Z;
  choicePredictorSize : Z;
  choiceCtrs : list SatCounter.t;
  localThreshold : Z;
  globalThreshold : Z;
  choiceThreshold : Z;
  instShiftAmt : Z;
}.

(** [invalidPredictorIndex], an int of value -1, as an [unsigned]. *)
Definition invalidPredictorIndex : Z := u32 (-1).

Definition new (numThreads localPredictorSize localCtrBits localHistoryTableSize globalPredictorSize
    globalCtrBits choicePredictorSize choiceCtrBits instShiftAmt : Z) : result t :=
  let! lc := SatCounter.new 8 localCtrBits 0 in
  let! lbits := ceilLog2 4 localPredictorSize in
  let! gc := SatCounter.new 8 globalCtrBits 0 in
  let! glog := ceilLog2 4 globalPredictorSize in
  let! clog := ceilLog2 4 choicePredictorSize in
  let gbits := (if clog <? glog then glog else clog) in
  let! cc := SatCounter.new 8 choiceCtrBits 0 in
  let! _ := check Fatal (isPowerOf2 localPredictorSize) in
  let! _ := check Fatal (isPowerOf2 globalPredictorSize) in
  let! _ := check Fatal (isPowerOf2 localHistoryTableSize) in
  let! _ := check Fatal (isPowerOf2 choicePredictorSize) in
  let globalHistoryMask := u32 (globalPredictorSize - 1) in
  let choiceHistoryMask := u32 (choicePredictorSize - 1) in
  let historyRegisterMask := u32 (mask gbits) in
  let! _ := check Fatal (negb (historyRegisterMask <? globalHistoryMask)) in
  let! _ := check Fatal (negb (historyRegisterMask <? choiceHistoryMask)) in
  let! lt := BiModeBP.threshold localCtrBits in
  let! gt := BiModeBP.threshold globalCtrBits in
  let! ct := BiModeBP.threshold choiceCtrBits in
  Ok (mk localPredictorSize (u32 (mask lbits)) (replicate (Z.to_nat localPredictorSize) lc)
         (replicate (Z.to_nat localHistoryTableSize) 0) localHistoryTableSize
         globalPredictorSize (replicate (Z.to_nat globalPredictorSize) gc)
         (replicate (Z.to_nat numThreads) 0) globalHistoryMask choiceHistoryMask historyRegisterMask
         choicePredictorSize (replicate (Z.to_nat choicePredictorSize) cc) lt gt ct instShiftAmt).

Definition with_histories (lt gh : list Z) (p : t) : t :=
  mk (localPredictorSize p) (localPredictorMask p) (localCtrs p) lt (localHistoryTableSize p)
     (globalPredictorSize p) (globalCtrs p) gh (globalHistoryMask p) (choiceHistoryMask p)
     (historyRegisterMask p) (choicePredictorSize p) (choiceCtrs p) (localThreshold p)
     (globalThreshold p) (choiceThreshold p) (instShiftAmt p).
Definition with_counters (lc gc cc : list SatCounter.t) (p : t) : t :=
  mk (localPredictorSize p) (localPredictorMask p) lc (localHistoryTable p) (localHistoryTableSize p)
     (globalPredictorSize p) gc (globalHistory p) (globalHistoryMask p) (choiceHistoryMask p)
     (historyRegisterMask p) (choicePredictorSize p) cc (localThreshold p)
     (globalThreshold p) (choiceThreshold p) (instShiftAmt p).

Definition calcLocHistIdx (p : t) (branch_addr : Z) : result Z :=
  let! a := shr 64 branch_addr (instShiftAmt p) in
  Ok (u32 (Z.land a (u32 (localHistoryTableSize p - 1)))).

(** [(h << 1) | taken] on an [unsigned]. *)
Definition shift_in (h : Z) (taken : bool) : Z := Z.lor (u32 (Z.shiftl h 1)) (Z.b2z taken).

Definition updateGlobalHist (tid : Z) (taken : bool) (p : t) : result t :=
  let! g := vget (globalHistory p) tid in
  let! gh := vset (globalHistory p) tid (Z.land (shift_in g taken) (historyRegisterMask p)) in
  Ok (with_histories (localHistoryTable p) gh p).

Definition updateLocalHist (local_history_idx : Z) (taken : bool) (p : t) : result t :=
  let! l := vget (localHistoryTable p) local_history_idx in
  let! lt := vset (localHistoryTable p) local_history_idx (shift_in l taken) in
  Ok (with_histories lt (globalHistory p) p).

Definition lookup (tid pc : Z) (p : t) : result (bool * option history) :=
  let! lhi := calcLocHistIdx p pc in
  let! l := vget (localHistoryTable p) lhi in
  let lpi := Z.land l (localPredictorMask p) in
  let! lc := vget (localCtrs p) lpi in
  let local_prediction := localThreshold p <? counter lc in
  let! g := vget (globalHistory p) tid in
  let! gc := vget (globalCtrs p) (Z.land g (globalHistoryMask p)) in
  let global_prediction := globalThreshold p <? counter gc in
  let! cc := vget (choiceCtrs p) (Z.land g (choiceHistoryMask p)) in
  let choice_prediction := choiceThreshold p <? counter cc in
  guard! lhi <? localHistoryTableSize p;
  Ok (if choice_prediction then global_prediction else local_prediction,
      Some (mkHistory g lhi lpi local_prediction global_prediction choice_prediction)).

Definition updateHistories (tid pc : Z) (uncond taken : bool) (bp_history : option history) (p : t) :
    result (option history * t) :=
  guard! uncond || match bp_history with None => false | Some _ => true end;
  let! h := (if uncond then
               let! g := vget (globalHistory p) tid in
               Ok (Some (mkHistory g invalidPredictorIndex invalidPredictorIndex true true true))
             else Ok bp_history) in
  let! p := updateGlobalHist tid taken p in
  if uncond then Ok (h, p)
  else
    match h with
    | None => Err Undefined
    | Some hi => let! p := updateLocalHist (h_localHistoryIdx hi) taken p in Ok (h, p)
    end.

Definition update (tid pc : Z) (taken : bool) (bp_history : option history) (squashed : bool) (p : t) :
    result (option history * t) :=
  match bp_history with
  | None => Err AssertFail
  | Some h =>
      let! lhi := calcLocHistIdx p pc in
      guard! lhi <? localHistoryTableSize p;
      let old_local_pred_valid := negb (h_localHistory h =? invalidPredictorIndex) in
      if squashed then
        let! gh := vset (globalHistory p) tid
          (Z.land (shift_in (h_globalHistory h) taken) (historyRegisterMask p)) in
        let! lt := (if old_local_pred_valid
                    then vset (localHistoryTable p) lhi (shift_in (h_localHistory h) taken)
                    else Ok (localHistoryTable p)) in
        Ok (Some h, with_histories lt gh p)
      else
        let old_local_pred_index := Z.land (h_localHistory h) (localPredictorMask p) in
        guard! old_local_pred_index <? localPredictorSize p;
        let ci := Z.land (h_globalHistory h) (choiceHistoryMask p) in
        let! cc :=
          (if negb (eqb (localPredTaken h) (globalPredTaken h)) && old_local_pred_valid then
             if eqb (localPredTaken h) taken then vupd decr (choiceCtrs p) ci
             else if eqb (globalPredTaken h) taken then vupd incr (choiceCtrs p) ci
             else Ok (choiceCtrs p)
           else Ok (choiceCtrs p)) in
        let! gc := vupd (bump taken) (globalCtrs p) (Z.land (h_globalHistory h) (globalHistoryMask p)) in
        let! lc := (if old_local_pred_valid then vupd (bump taken) (localCtrs p) old_local_pred_index
                    else Ok (localCtrs p)) in
        Ok (None, with_counters lc gc cc p)
  end.

Definition squash (tid : Z) (bp_history : option history) (p : t) : result (option history * t) :=
  match bp_history with
  | None => Err Undefined
  | Some h =>
      let! gh := vset (globalHistory p) tid (h_globalHistory h) in
      let! lt := (if negb (h_localHistoryIdx h =? invalidPredictorIndex)
                  then vset (localHistoryTable p) (h_localHistoryIdx h) (h_localHistory h)
                  else Ok (localHistoryTable p)) in
      Ok (None, with_histories lt gh p)
  end.

End TournamentBP.

#[export] Instance TournamentBP_pred : DirPredictor TournamentBP.t TournamentBP.history := {|
  dp_lookup := TournamentBP.lookup;
  dp_updateHistories := TournamentBP.updateHistories;
  dp_update := TournamentBP.update;
  dp_squash := TournamentBP.squash;
|}.
