(* ===== verification/BranchLaws.v ===== *)
(** * What the branch unit relies on in a direction predictor

    The laws of the predictor interface ([DirLaws]): lookups and updates stay
    inside of the tables, and the speculative update of the histories that
    follows a lookup is undone by [squash]. They are stated up to an
    equivalence of predictor states, since the tournament predictor restores
    only the bits of a local history that its mask keeps. The three predictors
    of BranchDir are shown to have the laws. *)

From S2P Require Import Prelude Bits Tables SatCounter BranchDir.
Import SatCounter.SatCounter.

Class DirLaws (S H : Type) `{DirPredictor S H} := {
  (** The invariant, the sizes that no operation changes, and the threads and
      the histories that fit them. *)
  dl_wf : S -> Prop;
  dl_shape : S -> list Z;
  dl_tid : S -> Z -> Prop;
  dl_hist : S -> option H -> Prop;
  (** States that predict alike. *)
  dl_equiv : relation S;
  dl_equivalence :: Equivalence dl_equiv;
  dl_tid_shape p q tid : dl_shape p = dl_shape q -> dl_tid p tid -> dl_tid q tid;
  dl_hist_shape p q h : dl_shape p = dl_shape q -> dl_hist p h -> dl_hist q h;
  dl_equiv_shape p q : dl_equiv p q -> dl_shape p = dl_shape q;
  dl_lookup_total tid pc p : dl_wf p -> dl_tid p tid -> in_uw 64 pc ->
    exists (b : bool) (h : option H), dp_lookup tid pc p = Ok (b, h);
  dl_lookup_proper tid pc p q : dl_equiv p q ->
    dp_lookup (H:=H) tid pc p = dp_lookup tid pc q;
  (** The histories move on speculatively and [squash] takes them back. *)
  dl_speculate tid pc (uncond taken : bool) p (h : option H) : dl_wf p ->
    dl_tid p tid -> in_uw 64 pc ->
    (if uncond then h = None else exists b : bool, dp_lookup tid pc p = Ok (b, h)) ->
    exists (h' : option H) (p' : S), dp_updateHistories tid pc uncond taken h p = Ok (h', p') /\
      dl_wf p' /\ dl_shape p' = dl_shape p /\ dl_hist p' h' /\
      forall q', dl_equiv q' p' -> exists q : S, dp_squash tid h' q' = Ok (None, q) /\ dl_equiv q p;
  dl_squash tid p h : dl_wf p -> dl_tid p tid -> dl_hist p h ->
    exists p' : S, dp_squash tid h p = Ok (None, p') /\ dl_wf p' /\ dl_shape p' = dl_shape p;
  dl_update tid pc taken (squashed : bool) p h : dl_wf p ->
    dl_tid p tid -> in_uw 64 pc ->
    dl_hist p h -> exists (h' : option H) (p' : S), dp_update tid pc taken h squashed p = Ok (h', p') /\
      dl_wf p' /\ dl_shape p' = dl_shape p /\ h' = (if squashed then h else None);
}.

(** ** Tables of counters *)

(** A table of counters that are all counters of eight bits at most. *)
Definition table_wf (n : Z) (l : list SatCounter.t) : Prop :=
  Z.of_nat (length l) = n /\ Forall (wf 8) l.

Lemma table_new n c : 0 <= n -> wf 8 c -> table_wf n (replicate (Z.to_nat n) c).
Proof.
  intros Hn Hc. split; [rewrite length_replicate; lia|]. by apply Forall_replicate.
Qed.

Lemma bump_wf b c : wf 8 c -> wf 8 (bump b c).
Proof. destruct b; simpl; [apply incr_wf|apply decr_wf]. Qed.

Lemma vupd_table f n l i : (forall c, wf 8 c -> wf 8 (f c)) -> table_wf n l -> 0 <= i < n ->
  exists l', vupd f l i = Ok l' /\ table_wf n l'.
Proof.
  intros Hf [<- Hl] Hi. destruct (vupd_Ok f l i Hi) as (c & Hc & E). eexists. split; [done|].
  split; [by rewrite length_insert|]. apply Forall_insert; [done|]. apply Hf. by eapply Forall_lookup_1.
Qed.
#[export] Hint Resolve bump_wf incr_wf decr_wf : gem5.

(** ** The two-bit local predictor *)
Section Local.
Import LocalBP.

Definition local_wf (p : t) : Prop :=
  table_size (localPredictorSets p) /\ indexMask p = localPredictorSets p - 1 /\
  0 <= instShiftAmt p < 64 /\ 1 <= localCtrBits p <= 8 /\
  table_wf (localPredictorSets p) (localCtrs p) /\
  Forall (fun c => maxVal c = 2 ^ localCtrBits p - 1) (localCtrs p).

Lemma local_new_wf size bits shift p : in_uw 32 size -> in_uw 32 bits -> 0 <= shift < 64 ->
  new size bits shift = Ok p -> local_wf p.
Proof.
  unfold new. intros Hs Hb Hsh E. destruct (Z.eqb_spec bits 0); [done|]. ok_inv.
  assert (H0 : 0 < bits) by (unfold in_uw in Hb; lia).
  assert (Hd : in_uw 32 (size / bits)).
  { unfold in_uw in *. split; [apply Z.div_pos; lia|]. pose proof (Z.div_le_upper_bound size bits size H0). nia. }
  subst p r. unfold local_wf. simpl.
  apply new_wf in E1 as (Hw & _ & Hm & Hle); [|lia..].
  apply (isPowerOf2_table _ Hd) in E3.
  destruct (table_mask _ E3) as (k & Hk & Ek & Em & Hpos).
  split_and!; try done; try lia.
  - apply table_new; [lia|done].
  - by apply Forall_replicate.
Qed.

Lemma getLocalIndex_Ok p pc : local_wf p -> in_uw 64 pc ->
  exists idx, getLocalIndex p pc = Ok idx /\ 0 <= idx < localPredictorSets p.
Proof.
  intros ((k & Hk & Hs) & Hm & Hsh & _) Hpc. unfold getLocalIndex. rewrite shr_Ok by done. rewrite bind_Ok.
  eexists. split; [done|]. rewrite Hm, Hs, masked_index; [|lia|apply (in_uw_shiftr 64); [lia|done]].
  apply uw_range. lia.
Qed.

(** The prediction is the most significant bit of the counter. *)
Lemma getPrediction_msb p c : 1 <= localCtrBits p <= 8 -> in_uw (localCtrBits p) c ->
  getPrediction p c = Ok (2 ^ (localCtrBits p - 1) <=? c).
Proof.
  intros Hb Hc. unfold getPrediction. rewrite uw_small by (unfold in_uw; lia).
  rewrite shr_Ok by lia. rewrite bind_Ok. f_equal. unfold in_uw in Hc.
  pose proof (pow2_pos (localCtrBits p - 1) ltac:(lia)).
  pose proof (shiftr_zero_iff c (localCtrBits p - 1) ltac:(lia) ltac:(lia)) as Hz.
  destruct (Z.eqb_spec (Z.shiftr c (localCtrBits p - 1)) 0), (Z.leb_spec (2 ^ (localCtrBits p - 1)) c);
    simpl; try done; lia.
Qed.

Lemma local_counter p i : local_wf p -> 0 <= i < localPredictorSets p ->
  exists c, vget (localCtrs p) i = Ok c /\ localCtrs p !! Z.to_nat i = Some c /\
    in_uw (localCtrBits p) (counter c) /\ maxVal c = 2 ^ localCtrBits p - 1.
Proof.
  intros (_ & _ & _ & _ & [Hl Hw] & Hm) Hi. rewrite <- Hl in Hi. destruct (vget_Ok _ _ Hi) as (c & E & Hc).
  exists c. split_and!; try done; [|by eapply (Forall_lookup_1 _ _ _ _ Hm)].
  pose proof (Forall_lookup_1 _ _ _ _ Hw Hc) as (Hr & _).
  pose proof (Forall_lookup_1 _ _ _ _ Hm Hc) as Hmax. simpl in Hmax. unfold in_uw. lia.
Qed.

Lemma local_update_wf p cs i c b : local_wf p -> localCtrs p !! i = Some c ->
  cs = <[i := bump b c]> (localCtrs p) -> local_wf (with_ctrs cs p).
Proof.
  intros (Hs & Him & Hsh & Hb & [Hl Hw] & Hm) Hc ->. unfold local_wf. simpl. split_and!; try done; try lia.
  - split; [by rewrite length_insert|]. apply Forall_insert; [done|]. apply bump_wf. by eapply Forall_lookup_1.
  - apply Forall_insert; [done|]. pose proof (Forall_lookup_1 _ _ _ _ Hm Hc) as Hmax.
    destruct b; simpl; [by rewrite incr_max|by rewrite decr_max].
Qed.
End Local.

#[export, program] Instance LocalBP_laws : DirLaws LocalBP.t unit := {|
  dl_wf := local_wf;
  dl_shape _ := [];
  dl_tid _ _ := True;
  dl_hist _ h := h = None;
  dl_equiv := eq;
|}.
Next Obligation. done. Qed.
Next Obligation. done. Qed.
Next Obligation. done. Qed.
Next Obligation.
  intros tid pc p Hp _ Hpc. cbn. unfold LocalBP.lookup.
  destruct (getLocalIndex_Ok p pc Hp Hpc) as (i & -> & Hi). rewrite bind_Ok.
  destruct (local_counter p i Hp Hi) as (c & -> & _ & Hc & _). rewrite bind_Ok.
  rewrite getPrediction_msb; [eauto|apply Hp|done].
Qed.
Next Obligation. by intros tid pc p q ->. Qed.
Next Obligation.
  intros tid pc uncond taken p h Hp _ Hpc Hh. exists h, p. cbn.
  assert (h = None) as ->.
  { destruct uncond; [done|]. destruct Hh as (b & Hb). cbn in Hb. unfold LocalBP.lookup in Hb. by ok_inv. }
  split_and!; try done. intros q' ->. by exists p.
Qed.
Next Obligation. intros tid p h Hp _ ->. by exists p. Qed.
Next Obligation.
  intros tid pc taken squashed p h Hp _ Hpc ->. cbn. unfold LocalBP.update. cbn [check rbind].
  destruct squashed; [by exists None, p|].
  destruct (getLocalIndex_Ok p pc Hp Hpc) as (i & -> & Hi). rewrite bind_Ok.
  destruct (local_counter p i Hp Hi) as (c & E & Hc & _). unfold vupd. rewrite E, bind_Ok.
  rewrite vset_Ok by (rewrite (proj1 (proj1 (proj2 (proj2 (proj2 (proj2 Hp)))))); done).
  eexists None, _. split_and!; try done. by eapply local_update_wf.
Qed.

(** ** The bi-mode predictor *)
Section BiMode.
Import BiModeBP.

Definition bimode_wf (p : t) : Prop :=
  table_size (choicePredictorSize p) /\ choiceHistoryMask p = choicePredictorSize p - 1 /\
  table_size (globalPredictorSize p) /\ globalHistoryMask p = globalPredictorSize p - 1 /\
  0 <= instShiftAmt p < 64 /\ in_uw 32 (historyRegisterMask p) /\
  table_wf (choicePredictorSize p) (choiceCounters p) /\
  table_wf (globalPredictorSize p) (takenCounters p) /\
  table_wf (globalPredictorSize p) (notTakenCounters p) /\
  Forall (in_uw 32) (globalHistoryReg p).

Definition bimode_hist (h : option history) : Prop :=
  exists r, h = Some r /\ in_uw 32 (h_globalHistoryReg r).

Lemma bimode_new_wf threads csize cbits gsize gbits shift p :
  in_uw 32 csize -> in_uw 32 gsize -> 0 <= shift < 64 ->
  new threads csize cbits gsize gbits shift = Ok p -> bimode_wf p.
Proof.
  unfold new. intros Hcs Hgs Hsh E. ok_inv. subst p. unfold bimode_wf. simpl.
  apply new_wf in E1 as (Hcw & _); [|lia..]. apply new_wf in E2 as (Hgw & _); [|lia..].
  apply (isPowerOf2_table _ Hcs) in E3. apply (isPowerOf2_table _ Hgs) in E4.
  destruct (table_mask _ E3) as (k & _ & Ek & Em & Hpos), (table_mask _ E4) as (k' & _ & Ek' & Em' & Hpos').
  split_and!; try lia; try done; try (apply table_new; [lia|done]); try (apply uw_range; lia).
  by apply Forall_replicate.
Qed.

Lemma choiceHistoryIdx_Ok p pc : bimode_wf p -> in_uw 64 pc ->
  exists idx, choiceHistoryIdx p pc = Ok idx /\ 0 <= idx < choicePredictorSize p.
Proof.
  intros ((k & Hk & Hs) & Hm & _ & _ & Hsh & _) Hpc. unfold choiceHistoryIdx. rewrite shr_Ok, bind_Ok by done.
  eexists. split; [done|]. rewrite Hm, Hs, masked_index; [|lia|apply (in_uw_shiftr 64); [lia|done]].
  apply uw_range. lia.
Qed.

Lemma globalHistoryIdx_Ok p pc r : bimode_wf p -> in_uw 64 pc -> in_uw 32 r ->
  exists idx, globalHistoryIdx p pc r = Ok idx /\ 0 <= idx < globalPredictorSize p.
Proof.
  intros (_ & _ & (k & Hk & Hs) & Hm & Hsh & _) Hpc Hr. unfold globalHistoryIdx. rewrite shr_Ok, bind_Ok by done.
  eexists. split; [done|]. rewrite Hm, Hs, masked_index; [apply uw_range; lia|lia|].
  apply Z.lxor_nonneg. pose proof (in_uw_shiftr 64 pc (instShiftAmt p) ltac:(lia) Hpc).
  unfold in_uw in *. lia.
Qed.

Lemma bimode_reg p tid : bimode_wf p -> 0 <= tid < Z.of_nat (length (globalHistoryReg p)) ->
  exists r, vget (globalHistoryReg p) tid = Ok r /\ globalHistoryReg p !! Z.to_nat tid = Some r /\ in_uw 32 r.
Proof.
  intros Hp Ht. destruct (vget_Ok _ _ Ht) as (r & E & Hr). exists r. split_and!; try done.
  destruct Hp as (_ & _ & _ & _ & _ & _ & _ & _ & _ & Hf). by eapply Forall_lookup_1.
Qed.

Lemma bimode_with_reg p i r : bimode_wf p -> in_uw 32 r ->
  bimode_wf (with_reg (<[i := r]> (globalHistoryReg p)) p).
Proof.
  intros (H1 & H2 & H3 & H4 & H5 & H6 & H7 & H8 & H9 & Hf) Hr. unfold bimode_wf. simpl.
  split_and!; try done; try lia. by apply Forall_insert.
Qed.

(** The pattern of a lookup that succeeds. *)
Lemma bimode_lookup p tid pc : bimode_wf p -> 0 <= tid < Z.of_nat (length (globalHistoryReg p)) ->
  in_uw 64 pc -> exists b h, lookup tid pc p = Ok (b, Some h) /\
    globalHistoryReg p !! Z.to_nat tid = Some (h_globalHistoryReg h) /\ in_uw 32 (h_globalHistoryReg h).
Proof.
  intros Hp Ht Hpc. unfold lookup. destruct (choiceHistoryIdx_Ok p pc Hp Hpc) as (ci & -> & Hci).
  rewrite bind_Ok. destruct (bimode_reg p tid Hp Ht) as (r & -> & Hr & Hr32). rewrite bind_Ok.
  destruct (globalHistoryIdx_Ok p pc r Hp Hpc Hr32) as (gi & -> & Hgi). rewrite bind_Ok.
  rewrite (proj2 (Z.ltb_lt ci _)), (proj2 (Z.ltb_lt gi _)) by lia. cbn [check rbind].
  destruct Hp as (_ & _ & _ & _ & _ & _ & [Hc _] & [Ht' _] & [Hn _] & _).
  destruct (vget_len _ _ ci Hc Hci) as (cc & ->), (vget_len _ _ gi Ht' Hgi) as (tc & ->),
    (vget_len _ _ gi Hn Hgi) as (nc & ->). rewrite !bind_Ok. by eexists _, _.
Qed.
End BiMode.

Lemma lor_b2z_range w x b : 0 < w -> in_uw w x -> in_uw w (Z.lor x (Z.b2z b)).
Proof.
  intros Hw Hx. apply uw_lor; [lia|done|]. pose proof (Z.pow_le_mono_r 2 1 w). unfold in_uw.
  destruct b; simpl in *; lia.
Qed.

Lemma bimode_updateGlobalHistReg p tid b : bimode_wf p ->
  0 <= tid < Z.of_nat (length (BiModeBP.globalHistoryReg p)) ->
  exists r, BiModeBP.updateGlobalHistReg tid b p =
      Ok (BiModeBP.with_reg (<[Z.to_nat tid := r]> (BiModeBP.globalHistoryReg p)) p) /\ in_uw 32 r.
Proof.
  intros Hp Ht. unfold BiModeBP.updateGlobalHistReg.
  destruct (bimode_reg p tid Hp Ht) as (r & -> & Hr & Hr32). rewrite bind_Ok, vset_Ok, bind_Ok by done.
  eexists. split; [done|]. apply uw_land_r; [lia|]. apply Hp.
Qed.

(** Squashing puts the register back that the history recorded. *)
Lemma bimode_undo p tid b h : bimode_wf p -> 0 <= tid < Z.of_nat (length (BiModeBP.globalHistoryReg p)) ->
  BiModeBP.globalHistoryReg p !! Z.to_nat tid = Some (BiModeBP.h_globalHistoryReg h) ->
  exists p', BiModeBP.updateGlobalHistReg tid b p = Ok p' /\ bimode_wf p' /\
    length (BiModeBP.globalHistoryReg p') = length (BiModeBP.globalHistoryReg p) /\
    BiModeBP.squash tid (Some h) p' = Ok (None, p).
Proof.
  intros Hp Ht Hh. destruct (bimode_updateGlobalHistReg p tid b Hp Ht) as (r & E & Hr).
  eexists. split; [done|]. split; [by apply bimode_with_reg|]. cbn. rewrite length_insert. split; [done|].
  rewrite vset_Ok, bind_Ok by by rewrite length_insert.
  rewrite list_insert_insert_eq, list_insert_id by done. by destruct p.
Qed.

Lemma bimode_update_total p tid pc taken h : bimode_wf p ->
  0 <= tid < Z.of_nat (length (BiModeBP.globalHistoryReg p)) -> in_uw 64 pc ->
  in_uw 32 (BiModeBP.h_globalHistoryReg h) ->
  exists p', BiModeBP.update tid pc taken (Some h) false p = Ok (None, p') /\ bimode_wf p' /\
    length (BiModeBP.globalHistoryReg p') = length (BiModeBP.globalHistoryReg p).
Proof.
  intros Hp Ht Hpc Hh. unfold BiModeBP.update.
  destruct (choiceHistoryIdx_Ok p pc Hp Hpc) as (ci & -> & Hci). rewrite bind_Ok.
  destruct (globalHistoryIdx_Ok p pc _ Hp Hpc Hh) as (gi & -> & Hgi). rewrite bind_Ok.
  rewrite (proj2 (Z.ltb_lt ci _)), (proj2 (Z.ltb_lt gi _)) by lia. cbn [check rbind].
  destruct Hp as (H1 & H2 & H3 & H4 & H5 & H6 & H7 & H8 & H9 & H10).
  destruct (vupd_table _ _ _ gi (bump_wf taken) H8 Hgi) as (tk & Etk & Htk).
  destruct (vupd_table _ _ _ gi (bump_wf taken) H9 Hgi) as (nt & Ent & Hnt).
  destruct (vupd_table _ _ _ ci (bump_wf taken) H7 Hci) as (cs & Ecs & Hcs).
  rewrite Etk, Ent, Ecs.
  destruct (eqb (BiModeBP.finalPred h) (BiModeBP.takenUsed h)), (BiModeBP.takenUsed h),
    (eqb (BiModeBP.finalPred h) taken);
    rewrite !bind_Ok; (eexists; split; [done|]); split; try done; unfold bimode_wf; simpl; split_and!; done || lia.
Qed.

#[export, program] Instance BiModeBP_laws : DirLaws BiModeBP.t BiModeBP.history := {|
  dl_wf := bimode_wf;
  dl_shape p := [Z.of_nat (length (BiModeBP.globalHistoryReg p))];
  dl_tid p tid := 0 <= tid < Z.of_nat (length (BiModeBP.globalHistoryReg p));
  dl_hist _ := bimode_hist;
  dl_equiv := eq;
|}.
Next Obligation. cbn. intros p q tid [= E] Ht. lia. Qed.
Next Obligation. done. Qed.
Next Obligation. by intros p q ->. Qed.
Next Obligation.
  intros tid pc p Hp Ht Hpc. destruct (bimode_lookup p tid pc Hp Ht Hpc) as (b & h & E & _). by eexists _, _.
Qed.
Next Obligation. by intros tid pc p q ->. Qed.
Next Obligation.
  intros tid pc uncond taken p h Hp Ht Hpc Hh. cbn.
  assert (exists hi, (if uncond then let! h := BiModeBP.uncondBranch tid pc p in Ok (Some h) else Ok h) = Ok (Some hi) /\
    (uncond || match h with None => false | Some _ => true end) = true /\
    BiModeBP.globalHistoryReg p !! Z.to_nat tid = Some (BiModeBP.h_globalHistoryReg hi) /\
    in_uw 32 (BiModeBP.h_globalHistoryReg hi)) as (hi & Ehi & Eg & Hlk & H32).
  { destruct uncond.
    - unfold BiModeBP.uncondBranch. destruct (bimode_reg p tid Hp Ht) as (r & -> & Hr & H32). by eexists.
    - destruct Hh as (b & Hb). destruct (bimode_lookup p tid pc Hp Ht Hpc) as (b' & hi & E & Hr & H32).
      cbn in Hb. rewrite E in Hb. injection Hb as -> <-. by eexists. }
  unfold BiModeBP.updateHistories. rewrite Eg, Ehi. cbn [check rbind].
  destruct (bimode_undo p tid taken hi Hp Ht Hlk) as (p' & -> & Hp' & Hlen & Hsq). rewrite bind_Ok.
  exists (Some hi), p'. rewrite Hlen. split_and!; try done; [by eexists|]. intros q' ->. by exists p.
Qed.
Next Obligation.
  intros tid p h Hp Ht (r & -> & Hr). cbn. rewrite vset_Ok, bind_Ok by done. eexists. split; [done|].
  cbn. rewrite length_insert. split; [by apply bimode_with_reg|done].
Qed.
Next Obligation.
  intros tid pc taken squashed p h Hp Ht Hpc (r & -> & Hr). destruct squashed.
  - cbn. rewrite vset_Ok, bind_Ok by done. eexists _, _. split; [done|]. cbn. rewrite length_insert.
    split_and!; try done. apply bimode_with_reg; [done|]. apply lor_b2z_range; [lia|]. apply uw_range. lia.
  - destruct (bimode_update_total p tid pc taken r Hp Ht Hpc Hr) as (p' & E & Hp' & Hl).
    exists None, p'. rewrite Hl. done.
Qed.

(** ** The tournament predictor *)
Section Tournament.
Import TournamentBP.

Definition tournament_wf (p : t) : Prop :=
  table_size (localPredictorSize p) /\ localPredictorMask p = localPredictorSize p - 1 /\
  table_size (localHistoryTableSize p) /\ Z.of_nat (length (localHistoryTable p)) = localHistoryTableSize p /\
  table_size (globalPredictorSize p) /\ globalHistoryMask p = globalPredictorSize p - 1 /\
  table_size (choicePredictorSize p) /\ choiceHistoryMask p = choicePredictorSize p - 1 /\
  0 <= instShiftAmt p < 64 /\ in_uw 32 (historyRegisterMask p) /\
  table_wf (localPredictorSize p) (localCtrs p) /\ table_wf (globalPredictorSize p) (globalCtrs p) /\
  table_wf (choicePredictorSize p) (choiceCtrs p) /\
  Forall (in_uw 32) (localHistoryTable p) /\ Forall (in_uw 32) (globalHistory p).

Definition threads (p : t) : Z := Z.of_nat (length (globalHistory p)).

Definition tournament_hist (p : t) (h : option history) : Prop :=
  exists r, h = Some r /\ in_uw 32 (h_globalHistory r) /\
    (h_localHistoryIdx r = invalidPredictorIndex /\ h_localHistory r = invalidPredictorIndex \/
     0 <= h_localHistoryIdx r < Z.of_nat (length (localHistoryTable p)) /\
     0 <= h_localHistory r < localPredictorSize p).

(** Local histories count only up to the mask. *)
Definition masked (p : t) (l : list Z) : list Z := (fun x => Z.land x (localPredictorMask p)) <$> l.
Definition norm (p : t) : t := with_histories (masked p (localHistoryTable p)) (globalHistory p) p.

Lemma ceilLog2_pow2 k : 0 <= k < 32 -> ceilLog2 4 (2 ^ k) = Ok k.
Proof.
  intros Hk. unfold ceilLog2. pose proof (pow2_pos k ltac:(lia)).
  rewrite (proj2 (Z.ltb_lt 0 _)), check_true, bind_Ok by done. destruct (Z.eqb_spec (2 ^ k) 1) as [E|E].
  - destruct (Z.eq_dec k 0) as [->|]; [done|]. pose proof (Z.pow_lt_mono_r 2 0 k). lia.
  - assert (0 < k) by (destruct (Z.eq_dec k 0) as [->|]; [done|lia]).
    pose proof (Z.pow_le_mono_r 2 1 k ltac:(lia) ltac:(lia)). pose proof (Z.pow_lt_mono_r 2 k 32).
    rewrite floorLog2_log2 by (auto || (simpl; lia)). rewrite bind_Ok. f_equal.
    replace (2 ^ k - 1) with (Z.pred (2 ^ k)) by lia. rewrite Z.log2_pred_pow2 by lia. lia.
Qed.

Lemma tournament_new_wf threads lsize lbits lht gsize gbits csize cbits shift p :
  in_uw 32 lsize -> in_uw 32 lht -> in_uw 32 gsize -> in_uw 32 csize -> 0 <= shift < 64 ->
  new threads lsize lbits lht gsize gbits csize cbits shift = Ok p -> tournament_wf p.
Proof.
  unfold new. intros Hls Hlh Hgs Hcs Hsh E. ok_inv. subst p. unfold tournament_wf. simpl.
  apply new_wf in E0 as (Hw0 & _), E2 as (Hw2 & _), E5 as (Hw5 & _); [|lia..].
  repeat match goal with
  | H : in_uw 32 ?n, E : isPowerOf2 ?n = true |- _ => apply (isPowerOf2_table _ H) in E;
      let k := fresh "k" in let Hk := fresh "Hk" in let Em := fresh "Em" in
      destruct (table_mask _ E) as (k & Hk & ? & Em & ?)
  end.
  assert (Hm : u32 (mask r0) = lsize - 1).
  { match goal with H : lsize = 2 ^ ?k |- _ => rewrite H in E1; rewrite ceilLog2_pow2 in E1 by lia end.
    injection E1 as <-. rewrite mask_small by lia. congruence. }
  split_and!; try lia; try done; try (apply table_new; [lia|done]); try (apply uw_range; lia);
    try (by apply Forall_replicate). rewrite length_replicate. lia.
Qed.

Lemma invalid_not_index n i : table_size n -> 0 <= i < n -> (i =? invalidPredictorIndex) = false.
Proof.
  intros (k & Hk & ->) Hi. apply Z.eqb_neq. pose proof (Z.pow_le_mono_r 2 k 31 ltac:(lia) ltac:(lia)).
  assert (invalidPredictorIndex = 2 ^ 32 - 1) as -> by done. lia.
Qed.

Lemma masked_length p l : length (masked p l) = length l.
Proof. apply length_fmap. Qed.

Lemma masked_idemp p l : masked p (masked p l) = masked p l.
Proof.
  unfold masked. rewrite <- list_fmap_compose. apply list_fmap_ext. intros _ x _. simpl.
  by rewrite <- Z.land_assoc, Z.land_diag.
Qed.

Lemma lookup_norm tid pc p : lookup tid pc (norm p) = lookup tid pc p.
Proof.
  unfold lookup. change (calcLocHistIdx (norm p) pc) with (calcLocHistIdx p pc).
  destruct (calcLocHistIdx p pc) as [i|]; [|done]. rewrite !bind_Ok.
  change (localHistoryTable (norm p)) with (masked p (localHistoryTable p)).
  unfold masked. rewrite vget_fmap. destruct (vget (localHistoryTable p) i) as [x|]; [|done].
  rewrite !bind_Ok. change (localPredictorMask (norm p)) with (localPredictorMask p).
  by rewrite <- Z.land_assoc, Z.land_diag.
Qed.

Lemma calcLocHistIdx_Ok p pc : tournament_wf p -> in_uw 64 pc ->
  exists i, calcLocHistIdx p pc = Ok i /\ 0 <= i < localHistoryTableSize p.
Proof.
  intros (_ & _ & Hs & _ & _ & _ & _ & _ & Hsh & _) Hpc. unfold calcLocHistIdx.
  destruct (table_mask _ Hs) as (k & Hk & Ek & Em & _). rewrite shr_Ok, bind_Ok by done.
  eexists. split; [done|]. rewrite Em, Ek, masked_index; [|lia|apply (in_uw_shiftr 64); [lia|done]].
  apply uw_range. lia.
Qed.

Lemma tournament_globals p tid : tournament_wf p -> 0 <= tid < threads p ->
  exists g, vget (globalHistory p) tid = Ok g /\ globalHistory p !! Z.to_nat tid = Some g /\ in_uw 32 g.
Proof.
  intros Hp Ht. destruct (vget_Ok _ _ Ht) as (g & E & Hg). exists g. split_and!; try done.
  destruct Hp as (_ & _ & _ & _ & _ & _ & _ & _ & _ & _ & _ & _ & _ & _ & Hf). by eapply Forall_lookup_1.
Qed.

Lemma tournament_lookup p tid pc : tournament_wf p -> 0 <= tid < threads p -> in_uw 64 pc ->
  exists b h, lookup tid pc p = Ok (b, Some h) /\ tournament_hist p (Some h) /\
    globalHistory p !! Z.to_nat tid = Some (h_globalHistory h) /\
    0 <= h_localHistoryIdx h < Z.of_nat (length (localHistoryTable p)) /\
    exists l, localHistoryTable p !! Z.to_nat (h_localHistoryIdx h) = Some l /\
      h_localHistory h = Z.land l (localPredictorMask p).
Proof.
  intros Hp Ht Hpc. unfold lookup. destruct (calcLocHistIdx_Ok p pc Hp Hpc) as (i & -> & Hi). rewrite bind_Ok.
  destruct (tournament_globals p tid Hp Ht) as (g & -> & Hg & Hg32).
  destruct Hp as (H1 & H2 & H3 & H4 & H5 & H6 & H7 & H8 & _ & _ & [H9 _] & [H10 _] & [H11 _] & _).
  assert (Hi' : 0 <= i < Z.of_nat (length (localHistoryTable p))) by lia.
  destruct (vget_Ok _ _ Hi') as (l & -> & Hl). rewrite bind_Ok.
  destruct H1 as (k1 & Hk1 & E1), H5 as (k5 & Hk5 & E5), H7 as (k7 & Hk7 & E7).
  pose proof (masked_range k1 l ltac:(lia)) as R1. rewrite <- E1, <- H2 in R1.
  pose proof (masked_range k5 g ltac:(lia)) as R5. rewrite <- E5, <- H6 in R5.
  pose proof (masked_range k7 g ltac:(lia)) as R7. rewrite <- E7, <- H8 in R7.
  destruct (vget_len _ _ _ H9 R1) as (lc & ->). rewrite !bind_Ok.
  destruct (vget_len _ _ _ H10 R5) as (gc & ->). rewrite bind_Ok.
  destruct (vget_len _ _ _ H11 R7) as (cc & ->). rewrite bind_Ok, (proj2 (Z.ltb_lt i _)) by lia.
  cbn [check rbind].
  eexists _, _. split; [done|]. split_and!; try done; cbn; try lia; [|by exists l].
  eexists. split; [done|]. split; [done|]. right. done.
Qed.

(** What [squash] makes of a state. *)
Definition undo (tid : Z) (h : history) (p : t) : t :=
  with_histories
    (if negb (h_localHistoryIdx h =? invalidPredictorIndex)
     then <[Z.to_nat (h_localHistoryIdx h) := h_localHistory h]> (localHistoryTable p)
     else localHistoryTable p)
    (<[Z.to_nat tid := h_globalHistory h]> (globalHistory p)) p.

Lemma squash_undo tid h p : tournament_wf p -> 0 <= tid < threads p -> tournament_hist p (Some h) ->
  squash tid (Some h) p = Ok (None, undo tid h p).
Proof.
  intros Hp Ht (r & [= <-] & _ & Hr). unfold squash, undo. rewrite vset_Ok, bind_Ok by done.
  destruct Hp as (_ & _ & Hs & Hl & _).
  destruct Hr as [[-> _]|[Hi _]]; [done|]. rewrite (invalid_not_index _ _ Hs) by lia. simpl.
  by rewrite vset_Ok by done.
Qed.

Lemma norm_undo tid h p : norm (undo tid h (norm p)) = norm (undo tid h p).
Proof.
  unfold norm at 1 3. cbn. unfold with_histories. cbn. f_equal.
  destruct (negb _); unfold masked; cbn; [|apply masked_idemp].
  rewrite !list_fmap_insert. f_equal. apply masked_idemp.
Qed.

Lemma norm_undo_proper tid h p q : norm p = norm q -> norm (undo tid h p) = norm (undo tid h q).
Proof. intros E. by rewrite <- (norm_undo tid h p), E, norm_undo. Qed.

Lemma with_histories_id p : with_histories (localHistoryTable p) (globalHistory p) p = p.
Proof. by destruct p. Qed.

Lemma norm_shape p q : norm p = norm q ->
  length (globalHistory p) = length (globalHistory q) /\
  length (localHistoryTable p) = length (localHistoryTable q) /\ localPredictorSize p = localPredictorSize q.
Proof.
  intros E. split; [|split].
  - apply (f_equal globalHistory) in E. cbn in E. by rewrite E.
  - rewrite <- (masked_length p (localHistoryTable p)), <- (masked_length q (localHistoryTable q)).
    apply (f_equal localHistoryTable) in E. cbn in E. by rewrite E.
  - by apply (f_equal localPredictorSize) in E.
Qed.

Lemma norm_table p q lt gh : norm p = norm q -> masked p lt = masked q (localHistoryTable q) ->
  gh = globalHistory q -> norm (with_histories lt gh p) = norm q.
Proof.
  intros E El ->. unfold norm in *. unfold with_histories in *. cbn in *. unfold masked in *. cbn in *.
  injection E as E1 E2 E3 E4 E5 E6 E7 E8 E9 E10 E11 E12 E13 E14 E15 E16 E17. by f_equal.
Qed.

(** The states before and after a speculative update of the histories. *)
Lemma tournament_with_histories p lt gh : tournament_wf p ->
  length lt = length (localHistoryTable p) -> Forall (in_uw 32) lt -> Forall (in_uw 32) gh ->
  tournament_wf (with_histories lt gh p).
Proof.
  intros (H1 & H2 & H3 & H4 & H5 & H6 & H7 & H8 & H9 & H10 & H11 & H12 & H13 & _ & _) Hl Hlt Hgh.
  unfold tournament_wf. cbn. rewrite Hl. split_and!; done || lia.
Qed.

Lemma shift_in_range h b : in_uw 32 (shift_in h b).
Proof. apply lor_b2z_range; [lia|]. apply uw_range. lia. Qed.

(** Every history is restored up to the mask. *)
Lemma tournament_undo p tid h lt gh : tournament_wf p -> 0 <= tid < threads p ->
  globalHistory p !! Z.to_nat tid = Some (h_globalHistory h) ->
  (h_localHistoryIdx h = invalidPredictorIndex /\ lt = localHistoryTable p \/
   0 <= h_localHistoryIdx h < Z.of_nat (length (localHistoryTable p)) /\
   (exists x, lt = <[Z.to_nat (h_localHistoryIdx h) := x]> (localHistoryTable p)) /\
   exists l, localHistoryTable p !! Z.to_nat (h_localHistoryIdx h) = Some l /\
      h_localHistory h = Z.land l (localPredictorMask p)) ->
  (exists g, gh = <[Z.to_nat tid := g]> (globalHistory p)) ->
  norm (undo tid h (with_histories lt gh p)) = norm p.
Proof.
  intros Hp Ht Hg Hlt (g & ->). unfold undo. cbn. rewrite list_insert_insert_eq, (list_insert_id (globalHistory p)) by done.
  change (norm (with_histories ?a ?b (with_histories lt _ p))) with (norm (with_histories a b p)).
  apply norm_table; [done| |done].
  destruct Hlt as [[-> ->]|(Hi & (x & ->) & l & Hl & ->)]; [done|].
  rewrite (invalid_not_index (localHistoryTableSize p)); [|apply Hp|].
  - cbn. rewrite list_insert_insert_eq. unfold masked. rewrite list_fmap_insert.
    apply list_insert_id. rewrite list_lookup_fmap, Hl. cbn. by rewrite <- Z.land_assoc, Z.land_diag.
  - destruct Hp as (_ & _ & _ & <- & _). done.
Qed.


Lemma tournament_with_counters p lc gc cc : tournament_wf p -> table_wf (localPredictorSize p) lc ->
  table_wf (globalPredictorSize p) gc -> table_wf (choicePredictorSize p) cc ->
  tournament_wf (with_counters lc gc cc p).
Proof.
  intros (H1 & H2 & H3 & H4 & H5 & H6 & H7 & H8 & H9 & H10 & _ & _ & _ & H11 & H12) Hl Hg Hc.
  unfold tournament_wf. cbn. split_and!; done || lia.
Qed.

Lemma tournament_masked p h g : tournament_wf p ->
  0 <= Z.land h (localPredictorMask p) < localPredictorSize p /\
  0 <= Z.land g (globalHistoryMask p) < globalPredictorSize p /\
  0 <= Z.land g (choiceHistoryMask p) < choicePredictorSize p.
Proof.
  intros ((k1 & Hk1 & E1) & -> & _ & _ & (k2 & Hk2 & E2) & -> & (k3 & Hk3 & E3) & -> & _).
  rewrite E1, E2, E3. split_and!; apply masked_range; lia.
Qed.

Lemma tournament_choice p h taken g : tournament_wf p -> exists cc, table_wf (choicePredictorSize p) cc /\
  (if negb (eqb (localPredTaken h) (globalPredTaken h)) && g
   then if eqb (localPredTaken h) taken
        then vupd decr (choiceCtrs p) (Z.land (h_globalHistory h) (choiceHistoryMask p))
        else if eqb (globalPredTaken h) taken
             then vupd incr (choiceCtrs p) (Z.land (h_globalHistory h) (choiceHistoryMask p))
             else Ok (choiceCtrs p)
   else Ok (choiceCtrs p)) = Ok cc.
Proof.
  intros Hp. destruct (tournament_masked p 0 (h_globalHistory h) Hp) as (_ & _ & Hr).
  assert (Hc : table_wf (choicePredictorSize p) (choiceCtrs p)) by apply Hp.
  destruct (vupd_table decr _ _ _ (decr_wf 8) Hc Hr) as (l1 & E1 & Hl1).
  destruct (vupd_table incr _ _ _ (incr_wf 8) Hc Hr) as (l2 & E2 & Hl2).
  rewrite E1, E2. destruct (negb _ && g), (eqb (localPredTaken h) taken), (eqb (globalPredTaken h) taken);
    (eexists; split; [|reflexivity]; done).
Qed.

Lemma tournament_train p tid pc taken h : tournament_wf p -> in_uw 64 pc ->
  exists lc gc cc, update tid pc taken (Some h) false p = Ok (None, with_counters lc gc cc p) /\
    tournament_wf (with_counters lc gc cc p).
Proof.
  intros Hp Hpc. unfold update. destruct (calcLocHistIdx_Ok p pc Hp Hpc) as (i & -> & Hi).
  destruct (tournament_masked p (h_localHistory h) (h_globalHistory h) Hp) as (H1 & H2 & _).
  rewrite bind_Ok, (proj2 (Z.ltb_lt i _)), (proj2 (Z.ltb_lt (Z.land _ _) _)) by lia. cbn [check rbind].
  destruct (tournament_choice p h taken (negb (h_localHistory h =? invalidPredictorIndex)) Hp) as (cc & Hcc & ->).
  rewrite bind_Ok.
  assert (Hg : table_wf (globalPredictorSize p) (globalCtrs p)) by apply Hp.
  assert (Hl : table_wf (localPredictorSize p) (localCtrs p)) by apply Hp.
  destruct (vupd_table _ _ _ _ (bump_wf taken) Hg H2) as (gc & -> & Hgc). rewrite bind_Ok.
  destruct (vupd_table _ _ _ _ (bump_wf taken) Hl H1) as (lc & -> & Hlc).
  destruct (negb _); rewrite bind_Ok; eexists _, _, _; (split; [done|]); by apply tournament_with_counters.
Qed.

Lemma tournament_correct p tid pc taken h : tournament_wf p -> 0 <= tid < threads p -> in_uw 64 pc ->
  exists lt gh, update tid pc taken (Some h) true p = Ok (Some h, with_histories lt gh p) /\
    tournament_wf (with_histories lt gh p) /\ length lt = length (localHistoryTable p) /\
    length gh = length (globalHistory p).
Proof.
  intros Hp Ht Hpc. unfold update. destruct (calcLocHistIdx_Ok p pc Hp Hpc) as (i & -> & Hi).
  assert (Hi' : 0 <= i < Z.of_nat (length (localHistoryTable p)))
    by (destruct Hp as (_ & _ & _ & E & _); lia).
  rewrite bind_Ok, (proj2 (Z.ltb_lt i _)) by lia. cbn [check rbind]. rewrite vset_Ok, bind_Ok by done.
  destruct Hp as (Hp1 & Hp). pose proof (conj Hp1 Hp : tournament_wf p) as Hw.
  assert (Hlt : Forall (in_uw 32) (localHistoryTable p)) by apply Hw.
  assert (Hgh : Forall (in_uw 32) (globalHistory p)) by apply Hw.
  assert (Hg : in_uw 32 (Z.land (shift_in (h_globalHistory h) taken) (historyRegisterMask p))).
  { apply uw_land_l; [lia|apply shift_in_range]. }
  destruct (negb _); [rewrite vset_Ok by done|]; rewrite bind_Ok; eexists _, _; (split; [done|]);
    rewrite ?length_insert; split_and!; try done;
    apply tournament_with_histories; rewrite ?length_insert; try done; try (by apply Forall_insert).
  apply Forall_insert; [done|apply shift_in_range].
Qed.

End Tournament.

(** The histories after [updateHistories], and the record it leaves. *)
Lemma tournament_speculate tid pc (uncond taken : bool) p h : tournament_wf p ->
  0 <= tid < threads p -> in_uw 64 pc ->
  (if uncond then h = None else exists b : bool, TournamentBP.lookup tid pc p = Ok (b, h)) ->
  exists hi lt gh, TournamentBP.updateHistories tid pc uncond taken h p =
      Ok (Some hi, TournamentBP.with_histories lt gh p) /\
    tournament_wf (TournamentBP.with_histories lt gh p) /\ tournament_hist p (Some hi) /\
    length lt = length (TournamentBP.localHistoryTable p) /\ length gh = length (TournamentBP.globalHistory p) /\
    norm (undo tid hi (TournamentBP.with_histories lt gh p)) = norm p.
Proof.
  intros Hp Ht Hpc Hh. unfold TournamentBP.updateHistories, TournamentBP.updateGlobalHist.
  destruct (tournament_globals p tid Hp Ht) as (g & Eg & Hg & Hg32).
  assert (Hlt : Forall (in_uw 32) (TournamentBP.localHistoryTable p)) by apply Hp.
  assert (Hgh : Forall (in_uw 32) (TournamentBP.globalHistory p)) by apply Hp.
  pose proof (shift_in_range g taken) as Hs.
  apply (uw_land_l 32 _ (TournamentBP.historyRegisterMask p)) in Hs; [|lia].
  destruct uncond.
  - subst h. cbn [orb check rbind]. rewrite Eg, !bind_Ok, vset_Ok, bind_Ok by done.
    eexists _, _, _. split; [done|]. rewrite length_insert. split_and!; try done.
    + apply tournament_with_histories; try done. by apply Forall_insert.
    + eexists. split; [done|]. split; [done|]. by left.
    + apply tournament_undo; [done..| |by eexists]. by left.
  - destruct Hh as (b & Hb).
    destruct (tournament_lookup p tid pc Hp Ht Hpc) as (b' & hi & E & Hhi & Hg' & Hi & l & Hl & Hm).
    rewrite E in Hb. injection Hb as -> <-. cbn [orb check rbind]. rewrite Eg, !bind_Ok, vset_Ok, bind_Ok by done.
    rewrite bind_Ok. unfold TournamentBP.updateLocalHist. cbn [TournamentBP.localHistoryTable TournamentBP.with_histories].
    rewrite (vget_lookup _ _ l), bind_Ok, vset_Ok, !bind_Ok by (done || lia).
    eexists _, _, _. split; [done|]. cbn. rewrite !length_insert. split_and!; try done.
    + change (tournament_wf (TournamentBP.with_histories
        (<[Z.to_nat (TournamentBP.h_localHistoryIdx hi) := TournamentBP.shift_in l taken]>
           (TournamentBP.localHistoryTable p))
        (<[Z.to_nat tid := Z.land (TournamentBP.shift_in g taken) (TournamentBP.historyRegisterMask p)]>
           (TournamentBP.globalHistory p)) p)).
      apply tournament_with_histories; rewrite ?length_insert; try done; apply Forall_insert; try done.
      apply shift_in_range.
    + apply (tournament_undo p tid hi _ _ Hp Ht Hg'); [|by eexists]. right. split; [done|].
      split; [by eexists|]. by exists l.
Qed.

#[export, program] Instance TournamentBP_laws : DirLaws TournamentBP.t TournamentBP.history := {|
  dl_wf := tournament_wf;
  dl_shape p := [threads p; Z.of_nat (length (TournamentBP.localHistoryTable p));
                 TournamentBP.localPredictorSize p];
  dl_tid p tid := 0 <= tid < threads p;
  dl_hist := tournament_hist;
  dl_equiv p q := norm p = norm q;
|}.
Next Obligation. split; [by intros ?|by intros ??|intros ???; congruence]. Qed.
Next Obligation. cbn. intros p q tid [= E1 E2 E3] Ht. lia. Qed.
Next Obligation. cbn. intros p q h [= E1 E2 E3] (r & -> & Hg & Hr). exists r. split; [done|]. split; [done|]. lia. Qed.
Next Obligation. cbn. intros p q E. unfold threads. by destruct (norm_shape p q E) as (-> & -> & ->). Qed.
Next Obligation.
  intros tid pc p Hp Ht Hpc. destruct (tournament_lookup p tid pc Hp Ht Hpc) as (b & h & E & _). by eexists _, _.
Qed.
Next Obligation. cbn. intros tid pc p q E. by rewrite <- (lookup_norm tid pc p), E, lookup_norm. Qed.
Next Obligation.
  intros tid pc uncond taken p h Hp Ht Hpc Hh. cbn in *.
  destruct (tournament_speculate tid pc uncond taken p h Hp Ht Hpc Hh)
    as (hi & lt & gh & E & Hw & Hhi & Hl & Hg & Hu).
  exists (Some hi), (TournamentBP.with_histories lt gh p). rewrite E. unfold threads in *. cbn. rewrite Hl, Hg.
  split_and!; try done.
  - destruct Hhi as (r & ? & ? & Hr). exists r. cbn. by rewrite Hl.
  - intros q' Hq. exists (undo tid hi q'). split; [|by rewrite (norm_undo_proper _ _ _ _ Hq)].
    destruct (norm_shape _ _ Hq) as (E1 & E2 & E3). cbn in E1, E2, E3.
    unfold TournamentBP.squash, undo. rewrite vset_Ok, bind_Ok by lia.
    destruct Hhi as (r & [= <-] & _ & Hr). destruct Hp as (_ & _ & Hs & Hlen & _).
    destruct Hr as [[-> _]|[Hi _]]; [done|]. rewrite (invalid_not_index _ _ Hs) by lia.
    cbn [negb]. by rewrite vset_Ok by lia.
Qed.
Next Obligation.
  intros tid p h Hp Ht Hh. pose proof Hh as (r & -> & Hg & Hr).
  exists (undo tid r p). split; [by apply squash_undo|]. unfold threads, undo. cbn in *. rewrite length_insert.
  assert (Hlt : Forall (in_uw 32) (TournamentBP.localHistoryTable p)) by apply Hp.
  assert (Hgh : Forall (in_uw 32) (TournamentBP.globalHistory p)) by apply Hp.
  assert (Hlp : forall x, 0 <= x < TournamentBP.localPredictorSize p -> in_uw 32 x).
  { intros x Hx. destruct Hp as ((k & Hk & E) & _). rewrite E in Hx. apply (in_uw_mono k); [lia|done]. }
  destruct Hr as [[-> _]|[Hi Hv]]; cbn [negb].
  - split; [|done]. apply tournament_with_histories; try done. by apply Forall_insert.
  - destruct (negb _); rewrite ?length_insert; (split; [|done]); apply tournament_with_histories;
      rewrite ?length_insert; try done; apply Forall_insert; auto.
Qed.
Next Obligation.
  intros tid pc taken squashed p h Hp Ht Hpc (r & -> & Hg & Hr). destruct squashed.
  - destruct (tournament_correct p tid pc taken r Hp Ht Hpc) as (lt & gh & E & Hw & Hl & Hgl).
    eexists _, _. split; [exact E|]. unfold threads. cbn. rewrite Hl, Hgl. done.
  - destruct (tournament_train p tid pc taken r Hp Hpc) as (lc & gc & cc & E & Hw).
    eexists _, _. split; [exact E|done].
Qed.
