(* ===== verification/Ras.v ===== *)
(** * The return address stack

    Model of src/gem5/src/cpu/pred/ras.{hh,cc} and of the branch types of
    branch_type.hh. A program counter ([PCStateBase]) is a value of the type
    [P]; an empty [unique_ptr] is [None]. Statistics are left out. *)

From S2P Require Import Prelude Bits.

(** [enums::BranchType], and the flags of a static instruction that
    [getBranchType] reads. *)
Inductive BranchType :=
| NoBranch | Return | CallDirect | CallIndirect
| DirectCond | DirectUncond | IndirectCond | IndirectUncond.

#[global] Instance BranchType_eq_dec : EqDecision BranchType.
Proof. solve_decision. Defined.

Record StaticInst := mkInst {
  isReturn : bool;
  isCall : bool;
  isDirectCtrl : bool;
  isIndirectCtrl : bool;
  isCondCtrl : bool;
  isUncondCtrl : bool;
}.

Definition getBranchType (inst : StaticInst) : BranchType :=
  if isReturn inst then Return
  else if isCall inst then if isDirectCtrl inst then CallDirect else CallIndirect
  else if isDirectCtrl inst then if isCondCtrl inst then DirectCond else DirectUncond
  else if isIndirectCtrl inst then if isCondCtrl inst then IndirectCond else IndirectUncond
  else NoBranch.

Module AddrStack.
Section AddrStack.
Context {P : Type}.

Record t := mk {
  addrStack : list (option P);
  numEntries : Z;
  usedEntries : Z;
  tos : Z;
}.

Definition reset (s : t) : t := mk (addrStack s) (numEntries s) 0 0.
Definition init (numEntries : Z) : t := reset (mk (replicate (Z.to_nat numEntries) None) numEntries 0 0).

Definition top (s : t) : result (option P) := vget (addrStack s) (tos s).

Definition incrTos (s : t) : t :=
  let tos := u32 (tos s + 1) in
  mk (addrStack s) (numEntries s) (usedEntries s) (if tos =? numEntries s then 0 else tos).
Definition decrTos (s : t) : t :=
  mk (addrStack s) (numEntries s) (usedEntries s)
     (if tos s =? 0 then u32 (numEntries s - 1) else tos s - 1).

(** [if (usedEntries != numEntries) ++usedEntries]. *)
Definition bumpUsed (s : t) : t :=
  if negb (usedEntries s =? numEntries s)
  then mk (addrStack s) (numEntries s) (u32 (usedEntries s + 1)) (tos s) else s.
Definition setTop (p : option P) (s : t) : result t :=
  let! l := vset (addrStack s) (tos s) p in Ok (mk l (numEntries s) (usedEntries s) (tos s)).

Definition push (return_addr : P) (s : t) : result t :=
  let s := incrTos s in
  let! s := setTop (Some return_addr) s in
  Ok (bumpUsed s).

Definition pop (s : t) : t :=
  decrTos (if 0 <? usedEntries s then mk (addrStack s) (numEntries s) (usedEntries s - 1) (tos s) else s).

Definition restore (_tos : Z) (restored : option P) (s : t) : result t :=
  let s := mk (addrStack s) (numEntries s) (usedEntries s) _tos in
  let! s := setTop restored s in
  Ok (bumpUsed s).

End AddrStack.
Arguments t : clear implicits.
End AddrStack.

Module ReturnAddrStack.
Section ReturnAddrStack.
Context {P : Type}.

(** [RASHistory]. *)
Record history := mkHistory {
  pushed : bool;
  poped : bool;
  ras_entry : option P;
  h_tos : Z;
}.

(** [addrStacks], one stack for each thread. *)
Definition new (numThreads numEntries : Z) : list (AddrStack.t P) :=
  replicate (Z.to_nat numThreads) (AddrStack.init numEntries).
Definition reset (r : list (AddrStack.t P)) : list (AddrStack.t P) := AddrStack.reset <$> r.

Definition makeRASHistory : history := mkHistory false false None 0.

Definition push (tid : Z) (pc : P) (ras_history : option history) (r : list (AddrStack.t P)) :
    result (option history * list (AddrStack.t P)) :=
  let h := default makeRASHistory ras_history in
  let! s := vget r tid in
  let! s := AddrStack.push pc s in
  let! r := vset r tid s in
  Ok (Some (mkHistory true (poped h) (ras_entry h) (h_tos h)), r).

Definition pop (tid : Z) (ras_history : option history) (r : list (AddrStack.t P)) :
    result (option P * option history * list (AddrStack.t P)) :=
  let h := default makeRASHistory ras_history in
  let! s := vget r tid in
  let! e := AddrStack.top s in
  let! r := vset r tid (AddrStack.pop s) in
  Ok (e, Some (mkHistory (pushed h) true e (AddrStack.tos s)), r).

Definition squash (tid : Z) (ras_history : option history) (r : list (AddrStack.t P)) :
    result (option history * list (AddrStack.t P)) :=
  match ras_history with
  | None => Ok (None, r)
  | Some h =>
      let! r := (if pushed h then vupd AddrStack.pop r tid else Ok r) in
      let! r := (if poped h then
                   let! s := vget r tid in
                   let! s := AddrStack.restore (h_tos h) (ras_entry h) s in
                   vset r tid s
                 else Ok r) in
      Ok (None, r)
  end.

Definition commit (brType : BranchType) (ras_history : option history) : result (option history) :=
  match brType with
  | Return | CallDirect | CallIndirect => Ok None
  | _ => guard! match ras_history with None => true | Some _ => false end; Ok ras_history
  end.

End ReturnAddrStack.
Arguments history : clear implicits.
End ReturnAddrStack.

Import AddrStack.

Section Theory.
Context {P : Type}.
Implicit Types (s : t P) (r : list (t P)).

(** The invariant of one stack. *)
Definition ras_wf s : Prop :=
  0 < numEntries s < 2 ^ 32 /\ Z.of_nat (length (addrStack s)) = numEntries s /\
  0 <= usedEntries s <= numEntries s /\ 0 <= tos s < numEntries s.

Lemma init_wf n : 0 < n < 2 ^ 32 -> ras_wf (init n).
Proof. intros Hn. unfold ras_wf. simpl. rewrite length_replicate. lia. Qed.

(** The entry [i] places below the top. *)
Definition slot s (i : nat) : option P :=
  default None (addrStack s !! Z.to_nat ((tos s - Z.of_nat i) mod numEntries s)).

(** The entries in use, the top first. *)
Definition view s : list (option P) := slot s <$> seq 0 (Z.to_nat (usedEntries s)).

Lemma incrTos_tos s : ras_wf s -> tos (incrTos s) = (tos s + 1) mod numEntries s.
Proof.
  intros (Hn & Hl & Hu & Ht). simpl. rewrite uw_small by (unfold in_uw; lia).
  destruct (Z.eqb_spec (tos s + 1) (numEntries s)) as [E|E].
  - rewrite E. symmetry. apply Z_mod_same_full.
  - rewrite Z.mod_small; lia.
Qed.

Lemma decrTos_tos s : ras_wf s -> tos (decrTos s) = (tos s - 1) mod numEntries s.
Proof.
  intros (Hn & Hl & Hu & Ht). simpl. rewrite uw_small by (unfold in_uw; lia).
  destruct (Z.eqb_spec (tos s) 0) as [E|E].
  - rewrite E. apply (Z.mod_unique _ _ (-1)); lia.
  - rewrite Z.mod_small; lia.
Qed.

Lemma stack_pop_spec s : ras_wf s -> ras_wf (pop s) /\ numEntries (pop s) = numEntries s /\
  tos (pop s) = (tos s - 1) mod numEntries s /\ addrStack (pop s) = addrStack s /\
  usedEntries (pop s) = Z.max 0 (usedEntries s - 1).
Proof.
  intros Hs. pose proof (decrTos_tos s Hs) as Hd. destruct Hs as (Hn & Hl & Hu & Ht).
  pose proof (Z.mod_pos_bound (tos s - 1) (numEntries s) ltac:(lia)). unfold pop, ras_wf.
  destruct (Z.ltb_spec 0 (usedEntries s)); simpl in *; rewrite Hd; split_and!; done || lia.
Qed.

Lemma bumpUsed_used s : ras_wf s -> ras_wf (bumpUsed s) /\
  bumpUsed s = mk (addrStack s) (numEntries s) (Z.min (numEntries s) (usedEntries s + 1)) (tos s).
Proof.
  intros (Hn & Hl & Hu & Ht). unfold bumpUsed, ras_wf.
  destruct (Z.eqb_spec (usedEntries s) (numEntries s)) as [E|E]; simpl.
  - split; [lia|]. rewrite Z.min_l by lia. destruct s. simpl in *. by subst.
  - rewrite uw_small by (unfold in_uw; lia). rewrite Z.min_r by lia. split; [lia|done].
Qed.

Lemma push_spec s x : ras_wf s -> exists s', push x s = Ok s' /\ ras_wf s' /\
  numEntries s' = numEntries s /\ tos s' = (tos s + 1) mod numEntries s /\
  addrStack s' = <[Z.to_nat ((tos s + 1) mod numEntries s) := Some x]> (addrStack s) /\
  usedEntries s' = Z.min (numEntries s) (usedEntries s + 1).
Proof.
  intros Hs. unfold push, setTop. pose proof (incrTos_tos s Hs) as Hi. destruct Hs as (Hn & Hl & Hu & Ht).
  pose proof (Z.mod_pos_bound (tos s + 1) (numEntries s) ltac:(lia)).
  rewrite Hi, vset_Ok by (simpl; lia). rewrite !bind_Ok. eexists. split; [done|].
  match goal with |- context [bumpUsed ?x] => destruct (bumpUsed_used x) as [Hw ->] end.
  - unfold ras_wf. simpl in *. rewrite length_insert. lia.
  - split_and!; try done. unfold ras_wf in *. simpl in *. rewrite length_insert in *. lia.
Qed.

Lemma restore_spec s i x : ras_wf s -> 0 <= i < numEntries s -> exists s', restore i x s = Ok s' /\ ras_wf s' /\
  s' = mk (<[Z.to_nat i := x]> (addrStack s)) (numEntries s) (Z.min (numEntries s) (usedEntries s + 1)) i.
Proof.
  intros (Hn & Hl & Hu & Ht) Hi. unfold restore, setTop. simpl. rewrite vset_Ok by lia. rewrite !bind_Ok.
  eexists. split; [done|].
  match goal with |- context [bumpUsed ?x] => destruct (bumpUsed_used x) as [Hw ->] end.
  - unfold ras_wf. simpl. rewrite length_insert. lia.
  - split; [|done]. unfold ras_wf in *. simpl in *. rewrite length_insert in *. lia.
Qed.

Lemma view_length s : length (view s) = Z.to_nat (usedEntries s).
Proof. unfold view. by rewrite length_fmap, length_seq. Qed.

Lemma view_lookup s i : (i < Z.to_nat (usedEntries s))%nat -> view s !! i = Some (slot s i).
Proof. intros Hi. unfold view. by rewrite list_lookup_fmap, (lookup_seq_lt 0) by done. Qed.

Lemma top_slot s : ras_wf s -> top s = Ok (slot s 0).
Proof.
  intros (Hn & Hl & Hu & Ht). unfold top, slot. rewrite <- Hl in Ht. destruct (vget_Ok _ _ Ht) as (x & -> & E).
  rewrite Z.sub_0_r, Z.mod_small by lia. by rewrite E.
Qed.

Lemma mod_shift_neq n a i j : 0 < n -> 0 < i - j < n -> (a - i) mod n <> (a - j) mod n.
Proof.
  intros Hn Hij E. assert (((a - j) - (a - i)) mod n = 0) as E0 by (by rewrite Zminus_mod, E, Z.sub_diag).
  replace (a - j - (a - i)) with (i - j) in E0 by lia. rewrite Z.mod_small in E0; lia.
Qed.

Lemma slot_push s s' x i : ras_wf s -> push x s = Ok s' -> (i < Z.to_nat (numEntries s))%nat ->
  slot s' i = match i with O => Some x | S j => slot s j end.
Proof.
  intros Hs E Hi. destruct (push_spec s x Hs) as (s'' & E' & _ & En & Et & Ea & _).
  rewrite E in E'. injection E' as <-. unfold slot. rewrite En, Et, Ea.
  destruct Hs as (Hn & Hl & Hu & Ht). pose proof (Z.mod_pos_bound (tos s + 1) (numEntries s) ltac:(lia)) as Hm.
  rewrite Zminus_mod_idemp_l. destruct i as [|i].
  - rewrite Z.sub_0_r, list_lookup_insert_eq by lia. done.
  - replace (tos s + 1 - Z.of_nat (S i)) with (tos s - Z.of_nat i) by lia.
    rewrite list_lookup_insert_ne; [done|].
    pose proof (Z.mod_pos_bound (tos s - Z.of_nat i) (numEntries s) ltac:(lia)).
    pose proof (mod_shift_neq (numEntries s) (tos s) (Z.of_nat i) (-1) ltac:(lia) ltac:(lia)) as Hne.
    replace (tos s - -1) with (tos s + 1) in Hne by lia. lia.
Qed.

Lemma slot_pop s i : ras_wf s -> slot (pop s) i = slot s (S i).
Proof.
  intros Hs. destruct (stack_pop_spec s Hs) as (_ & En & Et & Ea & _). unfold slot. rewrite En, Et, Ea.
  rewrite Zminus_mod_idemp_l. do 4 f_equal. lia.
Qed.

Lemma view_push s s' x : ras_wf s -> push x s = Ok s' ->
  view s' = take (Z.to_nat (numEntries s)) (Some x :: view s).
Proof.
  intros Hs E. destruct (push_spec s x Hs) as (s'' & E' & _ & En & _ & _ & Eu).
  rewrite E in E'. injection E' as <-. pose proof Hs as (Hn & Hl & Hu & Ht).
  apply list_eq_same_length with (n := Z.to_nat (usedEntries s')); [|apply view_length|].
  - rewrite length_take. simpl. rewrite view_length, Eu. lia.
  - intros i y z Hi. rewrite Eu in Hi. rewrite view_lookup by lia. rewrite lookup_take_lt by lia.
    rewrite (slot_push s s' x i) by (done || lia). destruct i as [|i]; simpl; [congruence|].
    rewrite view_lookup by lia. congruence.
Qed.

Lemma view_pop s : ras_wf s -> view (pop s) = tail (view s).
Proof.
  intros Hs. destruct (stack_pop_spec s Hs) as (_ & _ & _ & _ & Eu).
  apply list_eq_same_length with (n := Z.to_nat (usedEntries (pop s))); [|apply view_length|].
  - pose proof (view_length s). destruct (view s); simpl in *; lia.
  - intros i y z Hi. rewrite Eu in Hi. rewrite view_lookup by lia. rewrite slot_pop by done.
    rewrite lookup_tail, view_lookup by lia. congruence.
Qed.
(** ** Undoing a stack operation

    [agree k]: same position, and the same [k] entries at the top. *)
Definition agree (k : nat) s s' : Prop :=
  numEntries s = numEntries s' /\ tos s = tos s' /\ forall i, (i < k)%nat -> slot s i = slot s' i.

Lemma agree_refl k s : agree k s s.
Proof. done. Qed.

Lemma agree_mono k k' s s' : (k' <= k)%nat -> agree k s s' -> agree k' s s'.
Proof. intros Hk (? & ? & Ha). split_and!; try done. intros i Hi. apply Ha. lia. Qed.

Lemma push_undo k s s1 s1' x : ras_wf s -> ras_wf s1' -> push x s = Ok s1 ->
  (k <= Z.to_nat (numEntries s))%nat -> agree k s1' s1 -> agree (k - 1) (pop s1') s.
Proof.
  intros Hs Hs1 E Hk (En & Et & Ha). destruct (push_spec s x Hs) as (s'' & E' & _ & En' & Et' & _).
  rewrite E in E'. injection E' as <-. destruct (stack_pop_spec s1' Hs1) as (_ & Pn & Pt & _).
  split; [congruence|]. split.
  - rewrite Pt, En, Et, En', Et'. destruct Hs as (? & _ & _ & Ht). rewrite Zminus_mod_idemp_l.
    rewrite Z.add_simpl_r. apply Z.mod_small. lia.
  - intros i Hi. rewrite slot_pop, Ha by (done || lia). by rewrite (slot_push s s1 x (S i)) by (done || lia).
Qed.

Lemma pop_undo k s s1' s2 : ras_wf s -> ras_wf s1' -> agree k s1' (pop s) ->
  restore (tos s) (slot s 0) s1' = Ok s2 -> agree (Nat.min (Z.to_nat (numEntries s)) (S k)) s2 s.
Proof.
  intros Hs Hs1 (En & Et & Ha) E. destruct (stack_pop_spec s Hs) as (_ & Pn & Pt & _).
  pose proof Hs as (Hn & Hl & Hu & Ht). pose proof Hs1 as (_ & Hl1 & _).
  destruct (restore_spec s1' (tos s) (slot s 0) Hs1) as (s2' & E' & _ & Es); [lia|].
  rewrite E in E'. injection E' as <-. subst s2. split_and!; simpl; [congruence|done|].
  intros [|i] Hi; unfold slot at 1; simpl; rewrite En, Pn.
  - rewrite Z.sub_0_r, Z.mod_small, list_lookup_insert_eq by lia. done.
  - pose proof (Z.mod_pos_bound (tos s - Z.of_nat (S i)) (numEntries s) ltac:(lia)).
    pose proof (mod_shift_neq (numEntries s) (tos s) (Z.of_nat (S i)) 0 ltac:(lia) ltac:(lia)) as Hne.
    rewrite Z.sub_0_r, (Z.mod_small (tos s)) in Hne by lia.
    rewrite list_lookup_insert_ne by lia. rewrite <- slot_pop, <- Ha by (done || lia).
    unfold slot. rewrite En, Pn, Et, Pt, Zminus_mod_idemp_l. do 4 f_equal. lia.
Qed.

(** A pop from a stack in use is undone exactly. *)
Lemma pop_restore_exact s : ras_wf s -> 0 < usedEntries s -> restore (tos s) (slot s 0) (pop s) = Ok s.
Proof.
  intros Hs Hpos. destruct (stack_pop_spec s Hs) as (Hw & Pn & Pt & Pa & Pu). pose proof Hs as (Hn & Hl & Hu & Ht).
  destruct (restore_spec (pop s) (tos s) (slot s 0) Hw) as (s2 & -> & _ & ->); [lia|].
  rewrite Pn, Pa, Pu. f_equal. rewrite list_insert_id.
  - rewrite Z.min_r by lia. replace (Z.max 0 (usedEntries s - 1) + 1) with (usedEntries s) by lia. by destruct s.
  - unfold slot. rewrite Z.sub_0_r, Z.mod_small by lia.
    destruct (lookup_lt_is_Some_2 (addrStack s) (Z.to_nat (tos s))) as (x & Hx); [lia|]. by rewrite Hx.
Qed.

(** A push is undone as far as the entries go that it did not drop. *)
Lemma push_pop_view s s1 x : ras_wf s -> push x s = Ok s1 ->
  tos (pop s1) = tos s /\ view (pop s1) = take (Z.to_nat (numEntries s) - 1) (view s).
Proof.
  intros Hs E. destruct (push_spec s x Hs) as (s'' & E' & Hw & _). rewrite E in E'. injection E' as <-.
  pose proof Hs as (Hn & _). split.
  - apply (push_undo 0 s s1 s1 x); try done; lia.
  - rewrite view_pop, (view_push s s1 x) by done. destruct (Z.to_nat (numEntries s)) as [|n] eqn:En; [lia|].
    simpl. by rewrite Nat.sub_0_r.
Qed.

End Theory.

(** ** The stacks of all threads *)
Section Threads.
Context {P : Type}.
Implicit Types (s : t P) (r : list (t P)).
Abbreviation rpush := (@ReturnAddrStack.push P).
Abbreviation rpop := (@ReturnAddrStack.pop P).
Abbreviation rsquash := (@ReturnAddrStack.squash P).

Definition ras_ok (n : Z) r : Prop := Forall (fun s => ras_wf s /\ numEntries s = n) r.

Definition ras_tid r (tid : Z) : Prop := 0 <= tid < Z.of_nat (length r).

(** Histories whose saved position fits the stacks. *)
Definition ras_hist (n : Z) (h : option (ReturnAddrStack.history P)) : Prop :=
  match h with
  | None => True
  | Some h => ReturnAddrStack.poped h = true -> 0 <= ReturnAddrStack.h_tos h < n
  end.

(** Two states that differ at most in the stack of [tid], and there agree in
    the position and in the [k] entries at the top. *)
Definition ras_agree (k : nat) (tid : Z) r r' : Prop :=
  length r = length r' /\ (forall j, j <> Z.to_nat tid -> r !! j = r' !! j) /\
  exists s s', r !! Z.to_nat tid = Some s /\ r' !! Z.to_nat tid = Some s' /\ agree k s s'.

Lemma ras_new_ok threads n : 0 < n < 2 ^ 32 -> ras_ok n (ReturnAddrStack.new threads n).
Proof. intros Hn. apply Forall_replicate. split; [by apply init_wf|done]. Qed.

Lemma ras_get n r tid : ras_ok n r -> ras_tid r tid ->
  exists s, vget r tid = Ok s /\ r !! Z.to_nat tid = Some s /\ ras_wf s /\ numEntries s = n.
Proof.
  intros Hr Ht. destruct (vget_Ok r tid Ht) as (s & E & Hs). exists s. split; [done|]. split; [done|].
  apply (Forall_lookup_1 _ _ _ _ Hr Hs).
Qed.

Lemma ras_set n r i s : ras_ok n r -> ras_wf s -> numEntries s = n -> ras_ok n (<[i := s]> r).
Proof. intros Hr Hs Hn. by apply Forall_insert. Qed.

Lemma ras_agree_set k tid r r' s s' : ras_tid r tid -> length r = length r' ->
  (forall j, j <> Z.to_nat tid -> r !! j = r' !! j) -> r' !! Z.to_nat tid = Some s' ->
  agree k s s' -> ras_agree k tid (<[Z.to_nat tid := s]> r) r'.
Proof.
  intros Ht Hl Hj Hs Ha. split; [by rewrite length_insert|]. split.
  - intros j Hne. rewrite list_lookup_insert_ne by done. by apply Hj.
  - exists s, s'. rewrite list_lookup_insert_eq by (unfold ras_tid in Ht; lia). done.
Qed.

Lemma ras_agree_insert k tid r r' x : ras_tid r tid -> ras_agree k tid r' (<[Z.to_nat tid := x]> r) ->
  length r' = length r /\ (forall j, j <> Z.to_nat tid -> r' !! j = r !! j) /\
  exists s', r' !! Z.to_nat tid = Some s' /\ agree k s' x.
Proof.
  intros Ht (Hl & Hj & s' & s'' & Hs' & Hs'' & Ha). rewrite length_insert in Hl. split; [done|]. split.
  - intros j Hne. rewrite Hj by done. by rewrite list_lookup_insert_ne by done.
  - exists s'. split; [done|]. rewrite list_lookup_insert_eq in Hs'' by (unfold ras_tid in Ht; lia).
    by injection Hs'' as <-.
Qed.

Lemma ras_push_undo n r tid x : ras_ok n r -> ras_tid r tid ->
  exists h r1, rpush tid x None r = Ok (Some h, r1) /\ ras_hist n (Some h) /\ ras_ok n r1 /\
    length r1 = length r /\
    forall k r1', ras_ok n r1' -> (k <= Z.to_nat n)%nat -> ras_agree k tid r1' r1 ->
      exists r2, rsquash tid (Some h) r1' = Ok (None, r2) /\ ras_ok n r2 /\ ras_agree (k - 1) tid r2 r.
Proof.
  intros Hr Ht. destruct (ras_get n r tid Hr Ht) as (s & E & Hs & Hw & Hn).
  destruct (push_spec s x Hw) as (s1 & Ep & Hw1 & Hn1 & _).
  unfold ReturnAddrStack.push. rewrite E, bind_Ok, Ep, bind_Ok, vset_Ok, bind_Ok by done.
  eexists _, _. split; [done|]. split; [done|]. split; [apply ras_set; congruence|].
  split; [apply length_insert|]. intros k r1' Hr1 Hk Ha.
  apply ras_agree_insert in Ha as (Hl & Hj & s1' & Hs1 & Ha); [|done].
  destruct (Forall_lookup_1 _ _ _ _ Hr1 Hs1) as [Hw1' Hn1'].
  destruct (stack_pop_spec s1' Hw1') as (Hwp & Hnp & _). unfold ras_tid in Ht.
  unfold ReturnAddrStack.squash, vupd. cbn [ReturnAddrStack.pushed ReturnAddrStack.poped].
  rewrite (vget_lookup _ _ s1') by (done || lia). rewrite bind_Ok, vset_Ok, bind_Ok by lia.
  eexists. split; [done|]. split; [apply ras_set; congruence|].
  eapply ras_agree_set; try done; [unfold ras_tid; lia|]. eapply push_undo; try done. by rewrite Hn.
Qed.

Lemma ras_pop_undo n r tid : ras_ok n r -> ras_tid r tid ->
  exists e h r1, rpop tid None r = Ok (e, Some h, r1) /\ ras_hist n (Some h) /\ ras_ok n r1 /\
    length r1 = length r /\
    forall k r1', ras_ok n r1' -> ras_agree k tid r1' r1 ->
      exists r2, rsquash tid (Some h) r1' = Ok (None, r2) /\ ras_ok n r2 /\
        ras_agree (Nat.min (Z.to_nat n) (S k)) tid r2 r.
Proof.
  intros Hr Ht. destruct (ras_get n r tid Hr Ht) as (s & E & Hs & Hw & Hn).
  destruct (stack_pop_spec s Hw) as (Hwp & Hnp & _). pose proof Hw as (_ & _ & _ & Htos).
  unfold ReturnAddrStack.pop. rewrite E, bind_Ok, (top_slot s Hw), bind_Ok, vset_Ok, bind_Ok by done.
  eexists _, _, _. split; [done|]. split; [intros _; simpl; lia|]. split; [apply ras_set; congruence|].
  split; [apply length_insert|]. intros k r1' Hr1 Ha.
  apply ras_agree_insert in Ha as (Hl & Hj & s1' & Hs1 & Ha); [|done].
  destruct (Forall_lookup_1 _ _ _ _ Hr1 Hs1) as [Hw1' Hn1']. unfold ras_tid in Ht.
  unfold ReturnAddrStack.squash. cbn. rewrite (vget_lookup _ _ s1') by (done || lia). rewrite bind_Ok.
  destruct (restore_spec s1' (tos s) (slot s 0) Hw1') as (s2 & Er & Hw2 & Es2); [lia|].
  rewrite Er, bind_Ok, vset_Ok, bind_Ok by lia. eexists. split; [done|].
  split; [apply ras_set; [done..|by subst s2]|].
  eapply ras_agree_set; try done; [unfold ras_tid; lia|]. rewrite <- Hn. apply (pop_undo k s s1' s2); done.
Qed.

Lemma ras_squash_ok n r tid h : ras_ok n r -> ras_tid r tid -> ras_hist n h ->
  exists r', rsquash tid h r = Ok (None, r') /\ ras_ok n r' /\ length r' = length r.
Proof.
  intros Hr Ht Hh. destruct h as [h|]; [|by exists r]. unfold ReturnAddrStack.squash.
  assert (exists r1, (if ReturnAddrStack.pushed h then vupd pop r tid else Ok r) = Ok r1 /\ ras_ok n r1 /\
    length r1 = length r) as (r1 & -> & Hr1 & Hl1).
  { destruct (ReturnAddrStack.pushed h); [|by exists r].
    destruct (ras_get n r tid Hr Ht) as (s & E & Hs & Hw & Hn). unfold vupd. rewrite E, bind_Ok, vset_Ok by done.
    destruct (stack_pop_spec s Hw) as (Hwp & Hnp & _). eexists. split; [done|].
    split; [apply ras_set; congruence|apply length_insert]. }
  rewrite bind_Ok. unfold ras_tid in *. rewrite <- Hl1 in Ht. destruct (ReturnAddrStack.poped h) eqn:Ep.
  - destruct (ras_get n r1 tid Hr1 Ht) as (s & E & Hs & Hw & Hn). rewrite E, bind_Ok.
    destruct (restore_spec s (ReturnAddrStack.h_tos h) (ReturnAddrStack.ras_entry h) Hw) as (s2 & -> & Hw2 & ->).
    { rewrite Hn. by apply Hh. }
    rewrite bind_Ok, vset_Ok, bind_Ok by done. eexists. split; [done|].
    split; [by apply ras_set|by rewrite length_insert].
  - rewrite bind_Ok. by exists r1.
Qed.

End Threads.

(** C34: The circular buffer implements a stack of at most [numEntries] addresses:
    [push] puts one on top and drops the oldest one of a full stack, [pop]
    removes the top one, and [top] returns it when there is one. *)
Theorem ras_refines_stack {P} (s : t P) (x : P) : ras_wf s ->
  (exists s', push x s = Ok s' /\ ras_wf s' /\
     view s' = take (Z.to_nat (numEntries s)) (Some x :: view s)) /\
  (ras_wf (pop s) /\ view (pop s) = tail (view s)) /\
  (forall y l, view s = y :: l -> top s = Ok y).
Proof.
  intros Hs. destruct (push_spec s x Hs) as (s' & E & Hw & _). split_and!.
  - exists s'. split; [done|]. split; [done|]. by apply view_push.
  - by apply stack_pop_spec.
  - by apply view_pop.
  - intros y l Hv. rewrite (top_slot s Hs). f_equal.
    pose proof (view_length s) as Hl. rewrite Hv in Hl. simpl in Hl.
    pose proof (view_lookup s 0 ltac:(lia)) as H0. rewrite Hv in H0. simpl in H0. congruence.
Qed.

Lemma rpop_inv {P} n (r : list (t P)) tid s e h r1 : ras_ok n r -> ras_tid r tid ->
  r !! Z.to_nat tid = Some s -> ReturnAddrStack.pop tid None r = Ok (e, h, r1) ->
  ras_wf s /\ r1 = <[Z.to_nat tid := pop s]> r /\
  h = Some (ReturnAddrStack.mkHistory false true (slot s 0) (tos s)).
Proof.
  intros Hr Ht Hs E. destruct (Forall_lookup_1 _ _ _ _ Hr Hs) as [Hw Hn].
  unfold ReturnAddrStack.pop in E. rewrite (vget_lookup r tid s), bind_Ok in E by (done || apply Ht).
  rewrite (top_slot s Hw), bind_Ok, vset_Ok, bind_Ok in E by done. by injection E as <- <- <-.
Qed.

Lemma rpush_inv {P} n (r : list (t P)) tid s x h r1 : ras_ok n r -> ras_tid r tid ->
  r !! Z.to_nat tid = Some s -> ReturnAddrStack.push tid x None r = Ok (h, r1) ->
  ras_wf s /\ numEntries s = n /\ h = Some (ReturnAddrStack.mkHistory true false None 0) /\
  exists s1, push x s = Ok s1 /\ r1 = <[Z.to_nat tid := s1]> r.
Proof.
  intros Hr Ht Hs E. destruct (Forall_lookup_1 _ _ _ _ Hr Hs) as [Hw Hn].
  unfold ReturnAddrStack.push in E. rewrite (vget_lookup r tid s), bind_Ok in E by (done || apply Ht).
  destruct (push_spec s x Hw) as (s1 & Ep & _). rewrite Ep, bind_Ok, vset_Ok, bind_Ok in E by done.
  injection E as <- <-. split_and!; try done. by exists s1.
Qed.

(** Squashing a speculative return restores every stack exactly, entries and
    counts included, if the stack was in use. Squashing a speculative call
    restores the position and all entries, except the oldest one if the call
    found the stack full. *)
Theorem ras_squash_undoes {P} n (r : list (t P)) tid s x : ras_ok n r -> ras_tid r tid ->
  r !! Z.to_nat tid = Some s ->
  (0 < usedEntries s -> forall e h r1, ReturnAddrStack.pop tid None r = Ok (e, h, r1) ->
     ReturnAddrStack.squash tid h r1 = Ok (None, r)) /\
  (forall h r1, ReturnAddrStack.push tid x None r = Ok (h, r1) ->
     exists s2, ReturnAddrStack.squash tid h r1 = Ok (None, <[Z.to_nat tid := s2]> r) /\
       tos s2 = tos s /\ view s2 = take (Z.to_nat n - 1) (view s)).
Proof.
  intros Hr Ht Hs. split.
  - intros Hu e h r1 E. destruct (rpop_inv _ _ _ _ _ _ _ Hr Ht Hs E) as (Hw & -> & ->).
    unfold ras_tid in Ht. cbn. rewrite (vget_lookup _ _ (pop s)), bind_Ok by
      (lia || (rewrite list_lookup_insert_eq by lia; done)).
    rewrite (pop_restore_exact s Hw Hu), bind_Ok, vset_Ok by (rewrite length_insert; lia).
    by rewrite bind_Ok, list_insert_insert_eq, list_insert_id.
  - intros h r1 E. destruct (rpush_inv _ _ _ _ _ _ _ Hr Ht Hs E) as (Hw & <- & -> & s1 & Ep & ->).
    unfold ras_tid in Ht. cbn. unfold vupd. rewrite (vget_lookup _ _ s1), bind_Ok by
      (lia || (rewrite list_lookup_insert_eq by lia; done)).
    rewrite vset_Ok, !bind_Ok by (rewrite length_insert; lia). exists (pop s1).
    rewrite list_insert_insert_eq. split; [done|]. by apply (push_pop_view s s1 x).
Qed.

(** A stack of three entries for each of two threads. *)
Definition ras_example : list (t Z) := ReturnAddrStack.new 2 3.

Lemma ras_refines_stack_witness : exists s', push 7 (init (P:=Z) 2) = Ok s' /\ view s' = [Some 7].
Proof.
  destruct (ras_refines_stack (init (P:=Z) 2) 7 ltac:(by apply init_wf)) as ((s' & E & _ & Hv) & _).
  exists s'. split; [exact E|exact Hv].
Defined.

Lemma ras_squash_undoes_witness :
  exists h r1 s2, ReturnAddrStack.push 1 7 None ras_example = Ok (h, r1) /\
    ReturnAddrStack.squash 1 h r1 = Ok (None, <[1%nat := s2]> ras_example) /\ tos s2 = 0 /\ view s2 = [].
Proof.
  destruct (ras_squash_undoes 3 ras_example 1 (init 3) 7 ltac:(by apply ras_new_ok)
    ltac:(unfold ras_tid; simpl; lia) eq_refl) as (_ & H).
  destruct (H _ _ eq_refl) as (s2 & E & Et & Ev).
  eexists _, _, s2. split; [reflexivity|]. split; [exact E|]. split; [exact Et|exact Ev].
Defined.
