(* ===== verification/Indirect.v ===== *)
(** * The indirect target predictor

    Model of src/gem5/src/cpu/pred/simple_indirect.{hh,cc}, behind the
    interface of indirect.hh. [rand()] is a value passed to [update]. *)

From S2P Require Import Prelude Bits Tables Ras.

(** The interface: [I] is the state of a predictor and [IH] the record of a
    branch in flight; a target is a [P], and [iaddr] is its [instAddr()]. *)
Class IndirectPred (P I IH : Type) := {
  ip_lookup : Z -> Z -> Z -> option IH -> I -> result (option P * option IH);
  ip_update : Z -> Z -> Z -> bool -> bool -> P -> BranchType -> Z -> option IH -> I -> result (option IH * I);
  ip_squash : Z -> Z -> option IH -> I -> result (option IH * I);
  ip_commit : Z -> Z -> option IH -> I -> result (option IH * I);
}.

(** [PCStateBase::instAddr], an address of 64 bits. *)
Class InstAddr (P : Type) := {
  instAddr : P -> Z;
  instAddr_range p : in_uw 64 (instAddr p);
}.

Module SimpleIndirect.
Section SimpleIndirect.
Context {P : Type} `{InstAddr P}.

Record IPredEntry := mkEntry { e_tag : Z; target : option P }.
Record HistoryEntry := mkHistEntry { pcAddr : Z; targetAddr : Z; seqNum : Z }.
Record ThreadInfo := mkInfo { pathHist : list HistoryEntry; ghr : Z }.

(** [IndirectHistory]; a field that its constructor leaves uninitialised is
    [None] until it is assigned. *)
Record history := mkHistory {
  h_pcAddr : Z;
  set_index : option Z;
  tag : option Z;
  h_ghr : Z;
  was_indirect : bool;
}.

Record t := mk {
  hashGHR : bool;
  hashTargets : bool;
  numSets : Z;
  numWays : Z;
  tagBits : Z;
  pathLength : Z;
  speculativePathLength : Z;
  instShift : Z;
  ghrMask : Z;
  targetCache : list (list IPredEntry);
  threadInfo : list ThreadInfo;
}.

(** [(1 << bits) - 1] on an [int]. *)
Definition int_mask (bits : Z) : result Z :=
  if (0 <=? bits) && (bits <? 31) then Ok (2 ^ bits - 1) else Err Undefined.

Definition new (hashGHR hashTargets : bool) (numSets numWays tagBits pathLength speculativePathLength
    instShift ghrNumBits numThreads : Z) : result t :=
  let! ghrMask := int_mask ghrNumBits in
  let! _ := check Panic (isPowerOf2 numSets) in
  let! _ := check Fatal (negb (32 <? ghrNumBits)) in
  Ok (mk hashGHR hashTargets numSets numWays tagBits pathLength speculativePathLength instShift ghrMask
         (replicate (Z.to_nat numSets) (replicate (Z.to_nat numWays) (mkEntry 0 None)))
         (replicate (Z.to_nat numThreads) (mkInfo [] 0))).

Definition with_threads (ti : list ThreadInfo) (p : t) : t :=
  mk (hashGHR p) (hashTargets p) (numSets p) (numWays p) (tagBits p) (pathLength p)
     (speculativePathLength p) (instShift p) (ghrMask p) (targetCache p) ti.
Definition with_cache (tc : list (list IPredEntry)) (p : t) : t :=
  mk (hashGHR p) (hashTargets p) (numSets p) (numWays p) (tagBits p) (pathLength p)
     (speculativePathLength p) (instShift p) (ghrMask p) tc (threadInfo p).

(** [reset] clears the histories and the tags, but not the targets. *)
Definition reset (p : t) : t :=
  with_cache (map (map (fun e => mkEntry 0 (target e))) (targetCache p))
    (with_threads (map (fun _ => mkInfo [] 0) (threadInfo p)) p).

Definition genIndirectInfo (tid : Z) (p : t) : result history :=
  let! ti := vget (threadInfo p) tid in
  Ok (mkHistory (2 ^ 64 - 1) None None (ghr ti) false).

Definition updateDirectionInfo (tid : Z) (taken : bool) (p : t) : result t :=
  let! ti := vget (threadInfo p) tid in
  let g := Z.land (Z.lor (u32 (Z.shiftl (ghr ti) 1)) (Z.b2z taken)) (ghrMask p) in
  let! tis := vset (threadInfo p) tid (mkInfo (pathHist ti) g) in
  Ok (with_threads tis p).

(** The loop of [getSetIndex] over the last [pathLength] entries, the youngest
    first; [path] is the history from its end. *)
Fixpoint hash_path (instShift hash_shift pathLength p : Z) (path : list HistoryEntry) (hash : Z) : result Z :=
  match path with
  | [] => Ok hash
  | e :: path =>
      if p <? pathLength then
        let! a := shr 64 (targetAddr e) (u32 (instShift + u32 (p * hash_shift))) in
        hash_path instShift hash_shift pathLength (p + 1) path (Z.lxor hash a)
      else Ok hash
  end.

Definition getSetIndex (br_addr tid : Z) (p : t) : result Z :=
  let! hash := shr 64 br_addr (instShift p) in
  let! ti := vget (threadInfo p) tid in
  let hash := (if hashGHR p then Z.lxor hash (ghr ti) else hash) in
  let! hash := (if hashTargets p then
                  let! l := floorLog2 4 (numSets p) in
                  let! hash_shift := (if pathLength p =? 0 then Err Undefined else Ok (l / pathLength p)) in
                  hash_path (instShift p) hash_shift (pathLength p) 0 (rev (pathHist ti)) hash
                else Ok hash) in
  Ok (Z.land hash (u32 (numSets p - 1))).

Definition getTag (br_addr : Z) (p : t) : result Z :=
  let! a := shr 64 br_addr (instShift p) in
  let! m := int_mask (tagBits p) in
  Ok (Z.land a m).

(** The first way with the tag and a target. *)
Definition find_way (tg : Z) (iset : list IPredEntry) : option P :=
  match list_find (fun e => e_tag e = tg /\ target e <> None) iset with
  | Some (_, e) => target e
  | None => None
  end.

Definition lookup (tid sn pc : Z) (i_history : option history) (p : t) : result (option P * option history) :=
  guard! match i_history with None => true | Some _ => false end;
  let! h := genIndirectInfo tid p in
  let! idx := getSetIndex pc tid p in
  let! tg := getTag pc p in
  guard! idx <? numSets p;
  let! iset := vget (targetCache p) idx in
  Ok (find_way tg iset, Some (mkHistory pc (Some idx) (Some tg) (h_ghr h) true)).

(** [while (pathHist.size() >= pathLength + speculativePathLength) pop_front()],
    which has undefined behaviour once the history is empty. *)
Fixpoint trim (limit : Z) (path : list HistoryEntry) : result (list HistoryEntry) :=
  if limit <=? Z.of_nat (length path)
  then match path with [] => Err Undefined | _ :: path => trim limit path end
  else Ok path.

Definition commit (tid sn : Z) (i_history : option history) (p : t) : result (option history * t) :=
  match i_history with
  | None => Ok (None, p)
  | Some _ =>
      let! ti := vget (threadInfo p) tid in
      let! path := trim (u32 (pathLength p + speculativePathLength p)) (pathHist ti) in
      let! tis := vset (threadInfo p) tid (mkInfo path (ghr ti)) in
      Ok (None, with_threads tis p)
  end.

Definition isIndirectNoReturn (type : BranchType) : bool :=
  match type with CallIndirect | IndirectUncond | IndirectCond => true | _ => false end.

(** [if (!pathHist.empty()) pathHist.pop_back()]. *)
Definition pop_back (path : list HistoryEntry) : list HistoryEntry := removelast path.

Definition recordTarget (tid sn : Z) (tgt : P) (h : history) (rnd : Z) (p : t) : result t :=
  let! ti := vget (threadInfo p) tid in
  guard! match pathHist ti with [] => false | _ => true end;
  guard! was_indirect h;
  match set_index h, tag h with
  | Some idx, Some tg =>
      guard! idx <? numSets p;
      let! iset := vget (targetCache p) idx in
      let! iset :=
        match list_find (fun e => e_tag e = tg) iset with
        | Some (i, e) => Ok (<[i := mkEntry tg (Some tgt)]> iset)
        | None =>
            let! w := (if numWays p =? 0 then Err Undefined else Ok (rnd mod numWays p)) in
            vset iset w (mkEntry tg (Some tgt))
        end in
      let! tc := vset (targetCache p) idx iset in
      Ok (with_cache tc p)
  | _, _ => Err Undefined
  end.

Definition update (tid sn pc : Z) (squash taken : bool) (tgt : P) (br_type : BranchType) (rnd : Z)
    (i_history : option history) (p : t) : result (option history * t) :=
  let! h := match i_history with None => genIndirectInfo tid p | Some h => Ok h end in
  let ind := isIndirectNoReturn br_type in
  let h := mkHistory (h_pcAddr h) (set_index h) (tag h) (h_ghr h) ind in
  let! hp := (if squash then
                let! ti := vget (threadInfo p) tid in
                let ti := mkInfo (if ind then pop_back (pathHist ti) else pathHist ti) (h_ghr h) in
                let! tis := vset (threadInfo p) tid ti in
                let p := with_threads tis p in
                if ind then
                  let! idx := getSetIndex (h_pcAddr h) tid p in
                  let! tg := getTag (h_pcAddr h) p in
                  Ok (mkHistory (h_pcAddr h) (Some idx) (Some tg) (h_ghr h) ind, p)
                else Ok (h, p)
              else Ok (h, p)) in
  let '(h, p) := hp in
  let! p := (if ind then
               let! ti := vget (threadInfo p) tid in
               let! tis := vset (threadInfo p) tid
                 (mkInfo (pathHist ti ++ [mkHistEntry (h_pcAddr h) (instAddr tgt) sn]) (ghr ti)) in
               Ok (with_threads tis p)
             else Ok p) in
  let! p := updateDirectionInfo tid taken p in
  let! p := (if squash && ind && taken then recordTarget tid sn tgt h rnd p else Ok p) in
  Ok (Some h, p).

Definition squash (tid sn : Z) (i_history : option history) (p : t) : result (option history * t) :=
  match i_history with
  | None => Ok (None, p)
  | Some h =>
      let! ti := vget (threadInfo p) tid in
      let! tis := vset (threadInfo p) tid
        (mkInfo (if was_indirect h then pop_back (pathHist ti) else pathHist ti) (h_ghr h)) in
      Ok (None, with_threads tis p)
  end.

End SimpleIndirect.
Arguments t : clear implicits.
End SimpleIndirect.

#[export] Instance SimpleIndirect_pred `{InstAddr P} :
  IndirectPred P (SimpleIndirect.t P) SimpleIndirect.history := {|
  ip_lookup := SimpleIndirect.lookup;
  ip_update := SimpleIndirect.update;
  ip_squash := SimpleIndirect.squash;
  ip_commit := SimpleIndirect.commit;
|}.

(** ** The laws the branch unit relies on *)
Class IndLaws (P I IH : Type) `{InstAddr P, IndirectPred P I IH} := {
  il_wf : I -> Prop;
  il_tid : I -> Z -> Prop;
  il_hist : option IH -> Prop;
  il_lookup_total tid sn pc (i : I) : il_wf i -> il_tid i tid -> in_uw 64 pc ->
    exists (e : option P) (h : option IH), ip_lookup tid sn pc None i = Ok (e, h);
  il_speculate tid sn pc taken (tgt : P) ty rnd (h : option IH) (i : I) : il_wf i -> il_tid i tid ->
    in_uw 64 pc -> in_uw 64 (instAddr tgt) ->
    h = None \/ (exists e : option P, ip_lookup tid sn pc None i = Ok (e, h)) ->
    exists (h' : option IH) (i' : I), ip_update tid sn pc false taken tgt ty rnd h i = Ok (h', i') /\
      il_wf i' /\ (forall t, il_tid i t -> il_tid i' t) /\ il_hist h' /\
      forall sn', ip_squash tid sn' h' i' = Ok (None, i);
  il_squash tid sn (h : option IH) (i : I) : il_wf i -> il_tid i tid -> il_hist h ->
    exists i' : I, ip_squash tid sn h i = Ok (None, i') /\ il_wf i' /\ (forall t, il_tid i t -> il_tid i' t);
  il_commit tid sn (h : option IH) (i : I) : il_wf i -> il_tid i tid -> il_hist h ->
    exists i' : I, ip_commit tid sn h i = Ok (None, i') /\ il_wf i' /\ (forall t, il_tid i t -> il_tid i' t);
  il_correct tid sn pc taken (tgt : P) ty rnd (h : option IH) (i : I) : il_wf i -> il_tid i tid ->
    in_uw 64 pc -> in_uw 64 (instAddr tgt) -> 0 <= rnd -> il_hist h ->
    exists (h' : option IH) (i' : I), ip_update tid sn pc true taken tgt ty rnd h i = Ok (h', i') /\
      il_wf i' /\ (forall t, il_tid i t -> il_tid i' t) /\ il_hist h';
}.

Section SimpleIndirectLaws.
Import SimpleIndirect.
Context {P : Type} `{InstAddr P}.
Implicit Types (p : t P).

Definition info_wf (ti : ThreadInfo) : Prop :=
  in_uw 32 (ghr ti) /\ Forall (fun e => in_uw 64 (targetAddr e)) (pathHist ti).

Definition indirect_wf p : Prop :=
  table_size (numSets p) /\ Z.of_nat (length (targetCache p)) = numSets p /\
  Forall (fun s => Z.of_nat (length s) = numWays p) (targetCache p) /\ 0 < numWays p /\
  0 <= tagBits p < 31 /\ 0 <= instShift p <= 32 /\ 0 < pathLength p < 2 ^ 32 /\
  0 < u32 (pathLength p + speculativePathLength p) /\ in_uw 32 (ghrMask p) /\
  Forall info_wf (threadInfo p).

Definition indirect_tid p (tid : Z) : Prop := 0 <= tid < Z.of_nat (length (threadInfo p)).

Definition indirect_hist (h : option history) : Prop :=
  match h with None => True | Some h => in_uw 64 (h_pcAddr h) /\ in_uw 32 (h_ghr h) end.

Lemma indirect_new_wf hg ht sets ways tb pl spl sh gb threads p :
  in_uw 32 sets -> 0 < ways -> 0 <= tb < 31 -> 0 <= sh <= 32 -> 0 < pl < 2 ^ 32 ->
  0 < u32 (pl + spl) -> new hg ht sets ways tb pl spl sh gb threads = Ok p -> indirect_wf p.
Proof.
  intros Hs Hw Htb Hsh Hpl Hspl E. unfold new, int_mask in E.
  destruct (Z.leb_spec 0 gb), (Z.ltb_spec gb 31); try done. cbn [andb] in E. ok_inv. subst p. subst r.
  apply (isPowerOf2_table _ Hs) in E1. destruct (table_mask _ E1) as (k & Hk & Ek & _ & Hpos).
  unfold indirect_wf. cbn. rewrite length_replicate. split_and!; try done; try lia.
  - apply Forall_replicate. rewrite length_replicate. lia.
  - pose proof (pow2_pos gb ltac:(lia)). pose proof (Z.pow_lt_mono_r 2 gb 32). unfold in_uw. lia.
  - apply Forall_replicate. by split.
Qed.

Lemma info_get p tid : indirect_wf p -> indirect_tid p tid ->
  exists ti, vget (threadInfo p) tid = Ok ti /\ threadInfo p !! Z.to_nat tid = Some ti /\ info_wf ti.
Proof.
  intros Hp Ht. destruct (vget_Ok _ _ Ht) as (ti & E & Hti). exists ti. split_and!; try done.
  destruct Hp as (_ & _ & _ & _ & _ & _ & _ & _ & _ & Hf). by eapply Forall_lookup_1.
Qed.

Lemma indirect_with_threads p tid ti : indirect_wf p -> info_wf ti ->
  indirect_wf (with_threads (<[Z.to_nat tid := ti]> (threadInfo p)) p) /\
  forall t, indirect_tid p t -> indirect_tid (with_threads (<[Z.to_nat tid := ti]> (threadInfo p)) p) t.
Proof.
  intros (H1 & H2 & H3 & H4 & H5 & H6 & H7 & H8 & H9 & Hf) Hti. split.
  - unfold indirect_wf. cbn. split_and!; try done; try lia. by apply Forall_insert.
  - unfold indirect_tid. cbn. by rewrite length_insert.
Qed.

Lemma getTag_Ok p a : indirect_wf p -> exists tg, getTag a p = Ok tg.
Proof.
  intros (_ & _ & _ & _ & Htb & Hsh & _). unfold getTag, int_mask. rewrite shr_Ok, bind_Ok by lia.
  destruct (Z.leb_spec 0 (tagBits p)), (Z.ltb_spec (tagBits p) 31); try lia. by eexists.
Qed.

Lemma hash_path_Ok sh hs pl l i path hash : 0 <= sh <= 32 -> 0 <= l < 32 -> 0 < pl -> hs = l / pl -> 0 <= i ->
  exists r, hash_path sh hs pl i path hash = Ok r.
Proof.
  intros Hsh Hl Hpl Hhs. revert i hash. induction path as [|e path IH]; intros i hash Hi; simpl; [by eexists|].
  destruct (Z.ltb_spec i pl); [|by eexists].
  assert (0 <= i * hs <= l).
  { subst hs. pose proof (Z.mul_div_le l pl Hpl). pose proof (Z.div_pos l pl). nia. }
  rewrite (uw_small 32 (i * hs)), (uw_small 32), shr_Ok, bind_Ok by (unfold in_uw; lia). apply IH. lia.
Qed.

Lemma getSetIndex_Ok p a tid : indirect_wf p -> indirect_tid p tid ->
  exists i, getSetIndex a tid p = Ok i /\ 0 <= i < numSets p.
Proof.
  intros Hp Ht. unfold getSetIndex. destruct (info_get p tid Hp Ht) as (ti & -> & _ & _).
  destruct Hp as (Hs & _ & _ & _ & _ & Hsh & Hpl & _). rewrite shr_Ok, !bind_Ok by lia.
  destruct (table_mask _ Hs) as (k & Hk & Ek & Em & Hpos). rewrite Em.
  assert (forall hash, exists r, (if hashTargets p then
      let! l := floorLog2 4 (numSets p) in
      let! hash_shift := (if pathLength p =? 0 then Err Undefined else Ok (l / pathLength p)) in
      hash_path (instShift p) hash_shift (pathLength p) 0 (rev (pathHist ti)) hash else Ok hash) = Ok r) as Hh.
  { intros hash. destruct (hashTargets p); [|by eexists].
    assert (0 < numSets p < 2 ^ (8 * 4)).
    { split; [done|]. rewrite Ek. apply Z.pow_lt_mono_r; lia. }
    rewrite floorLog2_log2, bind_Ok by auto. destruct (Z.eqb_spec (pathLength p) 0); [lia|]. rewrite bind_Ok.
    eapply (hash_path_Ok _ _ _ (Z.log2 (numSets p))); try done; try lia.
    rewrite Ek, Z.log2_pow2; lia. }
  destruct (Hh (if hashGHR p then Z.lxor (Z.shiftr a (instShift p)) (ghr ti) else Z.shiftr a (instShift p)))
    as (r & ->). rewrite bind_Ok. eexists. split; [done|]. rewrite Ek. apply masked_range. lia.
Qed.

(** Writing the information of one thread. *)
Definition put (tid : Z) (ti : ThreadInfo) p : t P := with_threads (<[Z.to_nat tid := ti]> (threadInfo p)) p.

Lemma put_get p tid ti : indirect_tid p tid -> vget (threadInfo (put tid ti p)) tid = Ok ti.
Proof.
  unfold indirect_tid. intros Ht. apply vget_lookup; [lia|]. cbn. rewrite list_lookup_insert_eq by lia. done.
Qed.

Lemma put_set p tid ti : indirect_tid p tid ->
  vset (threadInfo p) tid ti = Ok (threadInfo (put tid ti p)).
Proof. intros Ht. by rewrite vset_Ok. Qed.

Lemma put_put p tid ti ti' : put tid ti' (put tid ti p) = put tid ti' p.
Proof. unfold put. cbn. by rewrite list_insert_insert_eq. Qed.

Lemma put_id p tid ti : threadInfo p !! Z.to_nat tid = Some ti -> put tid ti p = p.
Proof. intros E. unfold put. rewrite list_insert_id by done. by destruct p. Qed.

Lemma put_tid p tid ti t : indirect_tid p t -> indirect_tid (put tid ti p) t.
Proof. unfold indirect_tid. cbn. by rewrite length_insert. Qed.

Lemma with_threads_put p tid ti : with_threads (threadInfo (put tid ti p)) p = put tid ti p.
Proof. done. Qed.

Definition shifted (p : t P) (ti : ThreadInfo) (taken : bool) : Z :=
  Z.land (Z.lor (u32 (Z.shiftl (ghr ti) 1)) (Z.b2z taken)) (ghrMask p).

Lemma updateDirectionInfo_put p tid ti taken : indirect_tid p tid -> vget (threadInfo p) tid = Ok ti ->
  updateDirectionInfo tid taken p = Ok (put tid (mkInfo (pathHist ti) (shifted p ti taken)) p).
Proof.
  intros Ht E. unfold updateDirectionInfo. rewrite E, bind_Ok, put_set, bind_Ok by done. done.
Qed.

(** The entry that an indirect branch leaves in the path history. *)
Definition entry_of (ty : BranchType) (h : history) (tgt : P) (sn : Z) : list HistoryEntry :=
  if isIndirectNoReturn ty then [mkHistEntry (h_pcAddr h) (instAddr tgt) sn] else [].

Definition as_type (ty : BranchType) (h : history) : history :=
  mkHistory (h_pcAddr h) (set_index h) (tag h) (h_ghr h) (isIndirectNoReturn ty).

Lemma update_speculative p tid sn pc taken tgt ty rnd h hi ti : indirect_tid p tid ->
  vget (threadInfo p) tid = Ok ti ->
  match h with None => genIndirectInfo tid p | Some h => Ok h end = Ok hi ->
  update tid sn pc false taken tgt ty rnd h p =
    Ok (Some (as_type ty hi),
        put tid (mkInfo (pathHist ti ++ entry_of ty hi tgt sn) (shifted p ti taken)) p).
Proof.
  intros Ht E Eh. unfold update. rewrite Eh, bind_Ok. cbn [andb rbind]. unfold entry_of.
  destruct (isIndirectNoReturn ty) eqn:Ety.
  - rewrite E, bind_Ok, put_set, !bind_Ok by done. cbn [h_pcAddr]. rewrite with_threads_put.
    rewrite (updateDirectionInfo_put _ _ (mkInfo (pathHist ti ++ [mkHistEntry (h_pcAddr hi) (instAddr tgt) sn]) (ghr ti)));
      [|by apply put_tid|by apply put_get].
    rewrite !bind_Ok, put_put. unfold as_type. by rewrite Ety.
  - rewrite bind_Ok, (updateDirectionInfo_put _ _ ti), !bind_Ok, app_nil_r by done.
    unfold as_type. by rewrite Ety.
Qed.

Lemma removelast_last {A} (l : list A) x : removelast (l ++ [x]) = l.
Proof. by rewrite removelast_app, app_nil_r. Qed.

(** The speculative update is taken back by [squash]. *)
Lemma squash_put p tid sn ti ty hi tgt sn' g : indirect_tid p tid -> threadInfo p !! Z.to_nat tid = Some ti ->
  h_ghr hi = ghr ti ->
  squash tid sn (Some (as_type ty hi)) (put tid (mkInfo (pathHist ti ++ entry_of ty hi tgt sn') g) p) =
    Ok (None, p).
Proof.
  intros Ht E Eg. unfold squash. rewrite put_get, bind_Ok, put_set, bind_Ok, with_threads_put by (done || by apply put_tid).
  rewrite put_put. cbn. rewrite Eg. unfold entry_of, pop_back.
  assert ((if isIndirectNoReturn ty
    then removelast (pathHist ti ++ (if isIndirectNoReturn ty then [mkHistEntry (h_pcAddr hi) (instAddr tgt) sn'] else []))
    else pathHist ti ++ (if isIndirectNoReturn ty then [mkHistEntry (h_pcAddr hi) (instAddr tgt) sn'] else []))
    = pathHist ti) as ->.
  { destruct (isIndirectNoReturn ty); [apply removelast_last|apply app_nil_r]. }
  rewrite put_id; [done|]. rewrite E. by destruct ti.
Qed.

Lemma lookup_Ok p tid sn pc : indirect_wf p -> indirect_tid p tid ->
  exists e idx tg ti, lookup tid sn pc None p = Ok (e, Some (mkHistory pc (Some idx) (Some tg) (ghr ti) true)) /\
    vget (threadInfo p) tid = Ok ti.
Proof.
  intros Hp Ht. unfold lookup, genIndirectInfo. destruct (info_get p tid Hp Ht) as (ti & E & _).
  destruct (getSetIndex_Ok p pc tid Hp Ht) as (i & Ei & Hi), (getTag_Ok p pc Hp) as (tg & Etg).
  rewrite check_true, bind_Ok, E, !bind_Ok, Ei, bind_Ok, Etg, bind_Ok.
  rewrite (proj2 (Z.ltb_lt i _)), check_true, bind_Ok by lia. destruct Hp as (_ & Hl & _).
  destruct (vget_len _ _ i Hl Hi) as (s & ->). rewrite bind_Ok. by eexists _, _, _, _.
Qed.

Lemma trim_Ok limit path : 0 < limit ->
  exists l1 l2, path = l1 ++ l2 /\ trim limit path = Ok l2 /\ Z.of_nat (length l2) < limit.
Proof.
  intros Hl. induction path as [|e path (l1 & l2 & E & Et & Hlt)]; cbn [trim].
  - destruct (Z.leb_spec limit (Z.of_nat (@length HistoryEntry []))); simpl in *; [lia|]. by exists [], [].
  - destruct (Z.leb_spec limit (Z.of_nat (length (e :: path)))).
    + exists (e :: l1), l2. split; [by rewrite E|done].
    + exists [], (e :: path). done.
Qed.

Lemma recordTarget_Ok p tid sn tgt h rnd ti idx tg : indirect_wf p -> vget (threadInfo p) tid = Ok ti ->
  pathHist ti <> [] -> was_indirect h = true -> set_index h = Some idx -> tag h = Some tg ->
  0 <= idx < numSets p -> 0 <= rnd ->
  exists tc, recordTarget tid sn tgt h rnd p = Ok (with_cache tc p) /\ indirect_wf (with_cache tc p).
Proof.
  intros (H1 & Hl & Hw & Hpos & H5 & H6 & H7 & H8 & H9 & Hf) E Hne Hind Hidx Htg Hi Hr.
  unfold recordTarget. rewrite E, bind_Ok, Hind, Hidx, Htg.
  assert (match pathHist ti with [] => false | _ => true end = true) as -> by (by destruct (pathHist ti)).
  rewrite (proj2 (Z.ltb_lt idx _)), !check_true, !bind_Ok by lia.
  rewrite <- Hl in Hi. destruct (vget_Ok _ _ Hi) as (s & -> & Hs). rewrite bind_Ok.
  pose proof (Forall_lookup_1 _ _ _ _ Hw Hs) as Hlen. simpl in Hlen.
  assert (exists s', match list_find (fun e => e_tag e = tg) s with
        | Some (i, e) => Ok (<[i := mkEntry tg (Some tgt)]> s)
        | None => let! w := (if numWays p =? 0 then Err Undefined else Ok (rnd mod numWays p)) in
                  vset s w (mkEntry tg (Some tgt))
        end = Ok s' /\ Z.of_nat (length s') = numWays p) as (s' & -> & Hlen').
  { destruct (list_find _ s) as [[i e]|]; [eexists; split; [done|]; by rewrite length_insert|].
    destruct (Z.eqb_spec (numWays p) 0); [lia|]. pose proof (Z.mod_pos_bound rnd (numWays p) Hpos).
    rewrite bind_Ok, vset_Ok by lia. eexists. split; [done|]. by rewrite length_insert. }
  rewrite bind_Ok, vset_Ok, bind_Ok by done. eexists. split; [done|]. unfold indirect_wf. cbn.
  rewrite length_insert. split_and!; try done; try lia. by apply Forall_insert.
Qed.

Lemma info_wf_shifted p ti path taken : indirect_wf p -> Forall (fun e => in_uw 64 (targetAddr e)) path ->
  info_wf (mkInfo path (shifted p ti taken)).
Proof. intros Hp Hf. split; [|done]. cbn. apply uw_land_r; [lia|]. apply Hp. Qed.

Lemma entry_of_wf ty h tgt sn : in_uw 64 (instAddr tgt) ->
  Forall (fun e => in_uw 64 (targetAddr e)) (entry_of ty h tgt sn).
Proof. intros Ht. unfold entry_of. destruct (isIndirectNoReturn ty); repeat constructor; apply Ht. Qed.

Lemma Forall_removelast {A} (Q : A -> Prop) l : Forall Q l -> Forall Q (removelast l).
Proof.
  induction 1 as [|x l Hx Hl IH]; [done|]. cbn. destruct l; [done|]. by constructor.
Qed.

Lemma squash_Ok p tid sn h : indirect_wf p -> indirect_tid p tid -> indirect_hist h ->
  exists p', squash tid sn h p = Ok (None, p') /\ indirect_wf p' /\ forall t, indirect_tid p t -> indirect_tid p' t.
Proof.
  intros Hp Ht Hh. destruct h as [h|]; [|by exists p]. unfold squash.
  destruct (info_get p tid Hp Ht) as (ti & -> & _ & [Hg Hf]). rewrite bind_Ok, put_set, bind_Ok by done.
  eexists. split; [done|]. apply indirect_with_threads; [done|]. split; [apply Hh|]. cbn.
  destruct (was_indirect h); [by apply Forall_removelast|done].
Qed.

Lemma commit_Ok p tid sn h : indirect_wf p -> indirect_tid p tid ->
  exists p', commit tid sn h p = Ok (None, p') /\ indirect_wf p' /\ forall t, indirect_tid p t -> indirect_tid p' t.
Proof.
  intros Hp Ht. destruct h as [h|]; [|by exists p]. unfold commit.
  destruct (info_get p tid Hp Ht) as (ti & -> & _ & [Hg Hf]). rewrite bind_Ok.
  destruct (trim_Ok (u32 (pathLength p + speculativePathLength p)) (pathHist ti)) as (l1 & l2 & E & -> & _);
    [apply Hp|]. rewrite bind_Ok, put_set, bind_Ok by done.
  eexists. split; [done|]. apply indirect_with_threads; [done|]. split; [done|]. cbn.
  rewrite E in Hf. by apply Forall_app in Hf as [_ Hf].
Qed.

(** A correction: the histories are taken back to the point before the branch,
    index and tag are computed there, and the branch is recorded again. *)
Definition rewound (ty : BranchType) (hi : history) (ti : ThreadInfo) : ThreadInfo :=
  mkInfo (if isIndirectNoReturn ty then pop_back (pathHist ti) else pathHist ti) (h_ghr hi).

Definition recorded p (ty : BranchType) (hi : history) (ti : ThreadInfo) (tgt : P) (sn : Z) (taken : bool) :
    ThreadInfo :=
  mkInfo (pathHist (rewound ty hi ti) ++ entry_of ty hi tgt sn) (shifted p (rewound ty hi ti) taken).

Lemma update_correcting p tid sn pc taken tgt ty rnd h hi ti idx tg : indirect_tid p tid ->
  vget (threadInfo p) tid = Ok ti ->
  match h with None => genIndirectInfo tid p | Some h => Ok h end = Ok hi ->
  getSetIndex (h_pcAddr hi) tid (put tid (rewound ty hi ti) p) = Ok idx -> getTag (h_pcAddr hi) p = Ok tg ->
  update tid sn pc true taken tgt ty rnd h p =
    if isIndirectNoReturn ty then
      let h' := mkHistory (h_pcAddr hi) (Some idx) (Some tg) (h_ghr hi) true in
      let p' := put tid (recorded p ty hi ti tgt sn taken) p in
      let! p' := (if taken then recordTarget tid sn tgt h' rnd p' else Ok p') in Ok (Some h', p')
    else Ok (Some (as_type ty hi), put tid (recorded p ty hi ti tgt sn taken) p).
Proof.
  intros Ht E Eh Ei Eg. unfold update. rewrite Eh, bind_Ok, E, bind_Ok.
  change (mkInfo (if isIndirectNoReturn ty then _ else _) _) with (rewound ty hi ti).
  rewrite put_set, bind_Ok, with_threads_put by done.
  assert (Ht' : indirect_tid (put tid (rewound ty hi ti) p) tid) by (by apply put_tid).
  unfold recorded, entry_of, as_type. destruct (isIndirectNoReturn ty) eqn:Ety.
  - cbn [h_pcAddr]. rewrite Ei, bind_Ok. change (getTag (h_pcAddr hi) (put _ _ _)) with (getTag (h_pcAddr hi) p).
    rewrite Eg, !bind_Ok, put_get, bind_Ok, put_set, !bind_Ok, with_threads_put, put_put by done. cbn [h_pcAddr].
    erewrite updateDirectionInfo_put; [|by apply put_tid|by apply put_get]. rewrite bind_Ok, put_put. cbn [andb].
    by destruct taken.
  - rewrite !bind_Ok. erewrite updateDirectionInfo_put; [|done|by apply put_get].
    rewrite !bind_Ok, put_put, app_nil_r. done.
Qed.

Lemma correct_Ok p tid sn pc taken tgt ty rnd h : indirect_wf p -> indirect_tid p tid ->
  in_uw 64 (instAddr tgt) -> 0 <= rnd -> indirect_hist h ->
  exists h' p', update tid sn pc true taken tgt ty rnd h p = Ok (h', p') /\ indirect_wf p' /\
    (forall t, indirect_tid p t -> indirect_tid p' t) /\ indirect_hist h'.
Proof.
  intros Hp Ht Htgt Hr Hh. destruct (info_get p tid Hp Ht) as (ti & E & _ & [Hg Hf]).
  assert (exists hi, match h with None => genIndirectInfo tid p | Some h => Ok h end = Ok hi /\
    in_uw 64 (h_pcAddr hi) /\ in_uw 32 (h_ghr hi)) as (hi & Ehi & Hpc & Hgh).
  { destruct h as [h|]; [by exists h|]. unfold genIndirectInfo. rewrite E, bind_Ok. eexists. split; [done|].
    split; [by unfold in_uw; cbn|done]. }
  assert (Hrw : info_wf (rewound ty hi ti)).
  { split; [done|]. cbn. destruct (isIndirectNoReturn ty); [by apply Forall_removelast|done]. }
  assert (Hrec : info_wf (recorded p ty hi ti tgt sn taken)).
  { apply info_wf_shifted; [done|]. apply Forall_app. split; [apply Hrw|by apply entry_of_wf]. }
  destruct (indirect_with_threads p tid _ Hp Hrw) as [Hp0 _].
  destruct (getSetIndex_Ok _ (h_pcAddr hi) tid Hp0 (put_tid _ _ _ _ Ht)) as (idx & Ei & Hi).
  destruct (getTag_Ok p (h_pcAddr hi) Hp) as (tg & Etg).
  erewrite update_correcting by done. destruct (indirect_with_threads p tid _ Hp Hrec) as [Hp1 Ht1].
  destruct (isIndirectNoReturn ty) eqn:Ety; [|by eexists _, _].
  destruct taken; [|by eexists _, _]. cbv zeta.
  edestruct (recordTarget_Ok (put tid (recorded p ty hi ti tgt sn true) p) tid sn tgt
    (mkHistory (h_pcAddr hi) (Some idx) (Some tg) (h_ghr hi) true) rnd) as (tc & -> & Hw); try done.
  - by apply put_get.
  - cbn. unfold entry_of. rewrite Ety. by destruct (pop_back _).
  - rewrite bind_Ok. by eexists _, _.
Qed.

End SimpleIndirectLaws.

#[export, program] Instance SimpleIndirect_laws `{InstAddr P} :
  IndLaws P (SimpleIndirect.t P) SimpleIndirect.history := {|
  il_wf := indirect_wf;
  il_tid := indirect_tid;
  il_hist := indirect_hist;
|}.
Next Obligation.
  intros P HP tid sn pc i Hi Ht Hpc. destruct (lookup_Ok i tid sn pc Hi Ht) as (e & idx & tg & ti & E & _).
  by eexists _, _.
Qed.
Next Obligation.
  intros P HP tid sn pc taken tgt ty rnd h i Hi Ht Hpc Htgt Hh.
  destruct (info_get i tid Hi Ht) as (ti & E & El & [Hg Hf]).
  assert (exists hi, match h with None => SimpleIndirect.genIndirectInfo tid i | Some h => Ok h end = Ok hi /\
    in_uw 64 (SimpleIndirect.h_pcAddr hi) /\ SimpleIndirect.h_ghr hi = SimpleIndirect.ghr ti)
    as (hi & Ehi & Hpca & Hgh).
  { destruct Hh as [->|(e & Hl)].
    - unfold SimpleIndirect.genIndirectInfo. rewrite E, bind_Ok. eexists. split; [done|]. split; [by unfold in_uw; cbn|done].
    - destruct (lookup_Ok i tid sn pc Hi Ht) as (e' & idx & tg & ti' & Hl' & E').
      change (SimpleIndirect.lookup tid sn pc None i = Ok (e, h)) in Hl. rewrite Hl' in Hl. injection Hl as -> <-. rewrite E in E'. injection E' as <-. by eexists. }
  cbn [ip_update SimpleIndirect_pred]. rewrite (update_speculative i tid sn pc taken tgt ty rnd h hi ti Ht E Ehi).
  eexists _, _. split; [done|].
  destruct (indirect_with_threads i tid (SimpleIndirect.mkInfo (SimpleIndirect.pathHist ti ++ entry_of ty hi tgt sn)
    (shifted i ti taken)) Hi) as [Hw Htd].
  { apply info_wf_shifted; [done|]. apply Forall_app. split; [done|by apply entry_of_wf]. }
  split; [exact Hw|]. split; [exact Htd|]. split; [split; [done|by cbn; rewrite Hgh]|].
  intros sn'. by apply squash_put.
Qed.
Next Obligation. intros P HP tid sn h i Hi Ht Hh. by apply squash_Ok. Qed.
Next Obligation. intros P HP tid sn h i Hi Ht Hh. by apply commit_Ok. Qed.
Next Obligation. intros P HP tid sn pc taken tgt ty rnd h i Hi Ht _ Htgt Hr Hh. by apply correct_Ok. Qed.

Section Learning.
Import SimpleIndirect.
Context {P : Type} `{InstAddr P}.
Implicit Types (p : t P).

(** The set after [recordTarget]. *)
Definition record_set (tg : Z) (tgt : P) (w : Z) (s : list IPredEntry) : list IPredEntry :=
  match list_find (fun e => e_tag e = tg) s with
  | Some (i, _) => <[i := mkEntry tg (Some tgt)]> s
  | None => <[Z.to_nat w := mkEntry tg (Some tgt)]> s
  end.

Lemma find_way_first (tg : Z) (tgt : P) i s : (i < length s)%nat ->
  (forall j e, (j < i)%nat -> s !! j = Some e -> e_tag e <> tg) ->
  find_way tg (<[i := mkEntry tg (Some tgt)]> s) = Some tgt.
Proof.
  intros Hi Hlt. unfold find_way.
  assert (list_find (fun e => e_tag e = tg /\ target e <> None) (<[i := mkEntry tg (Some tgt)]> s) =
    Some (i, mkEntry tg (Some tgt))) as ->; [|done].
  apply list_find_Some. split; [by rewrite list_lookup_insert_eq|]. split; [done|].
  intros j y Hj Hlt' [Ht _]. rewrite list_lookup_insert_ne in Hj by lia. by apply (Hlt j y).
Qed.

Lemma find_way_record tg tgt w s : 0 <= w < Z.of_nat (length s) -> find_way tg (record_set tg tgt w s) = Some tgt.
Proof.
  intros Hw. unfold record_set. destruct (list_find _ s) as [[i e]|] eqn:E.
  - apply list_find_Some in E as (Hi & Ht & Hlt). apply find_way_first; [by eapply lookup_lt_Some|].
    intros j e' Hj He'. by eapply Hlt.
  - apply find_way_first; [lia|]. intros j e _ He Ht. apply list_find_None in E.
    eapply (Forall_lookup_1 _ _ _ _ E He). done.
Qed.

Lemma recordTarget_record p tid sn tgt h rnd ti idx tg s : indirect_wf p -> vget (threadInfo p) tid = Ok ti ->
  pathHist ti <> [] -> was_indirect h = true -> set_index h = Some idx -> tag h = Some tg ->
  0 <= idx < numSets p -> targetCache p !! Z.to_nat idx = Some s ->
  recordTarget tid sn tgt h rnd p =
    Ok (with_cache (<[Z.to_nat idx := record_set tg tgt (rnd mod numWays p) s]> (targetCache p)) p).
Proof.
  intros (H1 & Hl & Hw & Hpos & _) E Hne Hind Hidx Htg Hi Hs.
  unfold recordTarget. rewrite E, bind_Ok, Hind, Hidx, Htg.
  assert (match pathHist ti with [] => false | _ => true end = true) as -> by (by destruct (pathHist ti)).
  rewrite (proj2 (Z.ltb_lt idx _)), !check_true, !bind_Ok by lia.
  rewrite (vget_lookup _ _ s), bind_Ok by (done || lia).
  pose proof (Forall_lookup_1 _ _ _ _ Hw Hs) as Hlen. simpl in Hlen.
  unfold record_set. destruct (list_find _ s) as [[i e]|].
  - by rewrite bind_Ok, vset_Ok, bind_Ok by lia.
  - destruct (Z.eqb_spec (numWays p) 0); [lia|]. pose proof (Z.mod_pos_bound rnd (numWays p) Hpos).
    by rewrite bind_Ok, vset_Ok, bind_Ok, vset_Ok, bind_Ok by lia.
Qed.

Lemma put_with_cache p tid ti tc : put tid ti (with_cache tc p) = with_cache tc (put tid ti p).
Proof. done. Qed.

(** The correction of a taken indirect branch teaches its target: a lookup of
    the same address with the histories as they were before the branch then
    returns it, whatever way the replacement chose. *)
Theorem indirect_correction_learns p tid sn sn' pc tgt ty rnd hi : indirect_wf p -> indirect_tid p tid ->
  in_uw 64 (instAddr tgt) -> indirect_hist (Some hi) -> isIndirectNoReturn ty = true -> h_pcAddr hi = pc ->
  exists h' p' ti ti', update tid sn pc true true tgt ty rnd (Some hi) p = Ok (Some h', p') /\
    threadInfo p !! Z.to_nat tid = Some ti /\ ti' = mkInfo (pop_back (pathHist ti)) (h_ghr hi) /\
    exists h2, lookup tid sn' pc None (put tid ti' p') = Ok (Some tgt, h2).
Proof.
  intros Hp Ht Htgt [Hpc Hgh] Hty <-. destruct (info_get p tid Hp Ht) as (ti & E & El & [Hg Hf]).
  assert (Hrw : info_wf (rewound ty hi ti)).
  { split; [done|]. cbn. rewrite Hty. by apply Forall_removelast. }
  assert (Hrec : info_wf (recorded p ty hi ti tgt sn true)).
  { apply info_wf_shifted; [done|]. apply Forall_app. split; [apply Hrw|by apply entry_of_wf]. }
  destruct (indirect_with_threads p tid _ Hp Hrw) as [Hp0 _].
  destruct (indirect_with_threads p tid _ Hp Hrec) as [Hp1 _].
  destruct (getSetIndex_Ok _ (h_pcAddr hi) tid Hp0 (put_tid _ _ _ _ Ht)) as (idx & Ei & Hi).
  destruct (getTag_Ok p (h_pcAddr hi) Hp) as (tg & Etg).
  rewrite (update_correcting p tid sn (h_pcAddr hi) true tgt ty rnd (Some hi) hi ti idx tg) by done.
  rewrite Hty. cbv zeta. pose proof Hp as (_ & Hl & Hw & Hpos & _). cbn in Hi.
  destruct (lookup_lt_is_Some_2 (targetCache p) (Z.to_nat idx)) as (s & Hs); [lia|].
  pose proof (Forall_lookup_1 _ _ _ _ Hw Hs) as Hlen. simpl in Hlen.
  erewrite recordTarget_record; try done; [|by apply put_get|cbn; unfold entry_of; rewrite Hty; by destruct (pop_back _)].
  rewrite bind_Ok. eexists _, _, ti, (rewound ty hi ti). split; [done|]. split; [done|].
  split; [unfold rewound; by rewrite Hty|].
  rewrite put_with_cache, put_put.
  match goal with |- context [with_cache ?tc _] => set (tc' := tc) end. unfold lookup, genIndirectInfo. rewrite check_true, bind_Ok.
  change (threadInfo (with_cache tc' ?q)) with (threadInfo q). rewrite put_get, !bind_Ok by done.
  change (getSetIndex ?a tid (with_cache tc' ?q)) with (getSetIndex a tid q).
  change (getSetIndex (h_pcAddr hi) tid (put tid (rewound ty hi ti) p) = Ok idx) in Ei. rewrite Ei, bind_Ok.
  change (getTag ?a (with_cache tc' _)) with (getTag a p). rewrite Etg, bind_Ok. cbn.
  rewrite (proj2 (Z.ltb_lt idx _)), check_true, bind_Ok by lia. subst tc'. cbn.
  erewrite vget_lookup; [|lia|rewrite list_lookup_insert_eq by lia; done].
  rewrite bind_Ok, find_way_record; [by eexists|]. rewrite Hlen. by apply Z.mod_pos_bound.
Qed.
End Learning.

(** Program counters that are just an address. *)
#[export, program] Instance Z_instAddr : InstAddr Z := {| instAddr x := u64 x |}.
Next Obligation. intros p. apply uw_range. lia. Qed.

(** Four sets of two ways for one thread, without hashing. *)
Definition indirect_example : result (SimpleIndirect.t Z) :=
  SimpleIndirect.new false false 4 2 16 3 256 2 13 1.

Definition indirect_state : SimpleIndirect.t Z :=
  match indirect_example with Ok p => p | Err _ => SimpleIndirect.mk false false 0 0 0 0 0 0 0 [] [] end.

Lemma indirect_state_wf : indirect_wf indirect_state.
Proof. by eapply (indirect_new_wf false false 4 2 16 3 256 2 13 1). Qed.

Lemma indirect_correction_learns_witness : exists h' p' h2,
  SimpleIndirect.update 0 5 0x1000 true true 0x2000 IndirectUncond 0
    (Some (SimpleIndirect.mkHistory 0x1000 None None 0 true)) indirect_state = Ok (Some h', p') /\
  SimpleIndirect.lookup 0 6 0x1000 None (put 0 (SimpleIndirect.mkInfo [] 0) p') = Ok (Some 0x2000, h2).
Proof.
  destruct (indirect_correction_learns indirect_state 0 5 6 0x1000 0x2000 IndirectUncond 0
    (SimpleIndirect.mkHistory 0x1000 None None 0 true) indirect_state_wf
    ltac:(by split; vm_compute) ltac:(by split; vm_compute) ltac:(by repeat split; vm_compute)
    eq_refl eq_refl) as (h' & p' & ti & ti' & E & Hti & Hti' & h2 & El).
  exists h', p', h2. split; [exact E|]. subst ti'. injection Hti as <-. exact El.
Defined.

(** A branch that was predicted without a lookup (a BTB miss, or a direction
    predicted as not taken) has a history made by [update], which does not
    record the address of the branch. Its correction files the target under
    the address [MaxAddr]: the next lookup of the branch misses, and the one of
    [MaxAddr] hits, although nothing else happened in between. *)
Theorem indirect_unknown_pc : exists h1 p1 h2 p2 h3 h4,
  SimpleIndirect.update 0 5 0x1000 false false 0x1004 IndirectUncond 0 None indirect_state = Ok (h1, p1) /\
  SimpleIndirect.update 0 5 0x1000 true true 0x2000 IndirectUncond 0 h1 p1 = Ok (h2, p2) /\
  SimpleIndirect.lookup 0 6 0x1000 None p2 = Ok (None, h3) /\
  SimpleIndirect.lookup 0 6 (2 ^ 64 - 1) None p2 = Ok (Some 0x2000, h4).
Proof.
  eexists _, _, _, _, _, _. split; [vm_compute; reflexivity|]. split; [vm_compute; reflexivity|].
  split; vm_compute; reflexivity.
Qed.
