(* ===== verification/BPredUnit.v ===== *)
(** * The branch prediction unit

    Model of src/gem5/src/cpu/pred/bpred_unit.{hh,cc}: prediction, commit and
    squash of branches, over the interfaces of the direction predictor
    ([DirPredictor]), the indirect predictor ([IndirectPred]) and the branch
    target buffer ([TargetBuffer]), and the return address stack of Ras.
    Statistics, probe points and debug output are left out. *)

From S2P Require Import Prelude Bits BranchDir Ras Indirect.

(** A branch instruction: its flags, and the two operations on program
    counters that the architecture supplies. *)
Record BranchInst (P : Type) := mkBranchInst {
  flags : StaticInst;
  buildRetPC : P -> P -> P;
  advancePC : P -> P;
}.
Arguments mkBranchInst {P} _ _ _.
Arguments flags {P} _.
Arguments buildRetPC {P} _ _ _.
Arguments advancePC {P} _ _.

(** The interface of btb.hh that the unit uses; [now] is [curTick()] and [rnd] the
    random numbers that the replacement policy of the buffer draws. *)
Class TargetBuffer (P B : Type) := {
  btb_lookup : forall (now tid pc : Z) (type : BranchType), B -> result (option P * B);
  btb_update : forall (now : Z) (rnd : nat -> Z) (tid pc : Z) (target : P) (type : BranchType) (inst : BranchInst P), B -> result B;
}.

(** What the unit's operations read of the simulation around it: the time, and
    the random numbers that the indirect predictor and the buffer draw. *)
Record env := mkEnv { now : Z; ind_rnd : Z; btb_rnd : nat -> Z }.

Inductive TargetProvider := NoTarget | BTB | RAS | IndirectTarget.

Module BPredUnit.
Section BPredUnit.
Context {P S H I IH B : Type}.
Context `{InstAddr P, DirPredictor S H, IndirectPred P I IH, TargetBuffer P B}.

Record PredictorHistory := mkHist {
  seqNum : Z;
  pc : Z;
  inst : BranchInst P;
  predTaken : bool;
  actuallyTaken : bool;
  condPred : bool;
  btbHit : bool;
  targetProvider : TargetProvider;
  mispredict : bool;
  target : option P;
  bpHistory : option H;
  indirectHistory : option IH;
  rasHistory : option (ReturnAddrStack.history P);
}.

(** Members that are functions of the instruction. *)
Definition type (h : PredictorHistory) : BranchType := getBranchType (flags (inst h)).
Definition call (h : PredictorHistory) : bool := isCall (flags (inst h)).
Definition uncond (h : PredictorHistory) : bool := isUncondCtrl (flags (inst h)).

(** [~PredictorHistory]. *)
Definition destroy (h : PredictorHistory) : result unit :=
  guard! match bpHistory h with None => true | Some _ => false end;
  guard! match indirectHistory h with None => true | Some _ => false end;
  guard! match rasHistory h with None => true | Some _ => false end;
  Ok tt.

Record t := mk {
  requiresBTBHit : bool;
  predHist : list (list PredictorHistory);
  dir : S;
  btb : B;
  ras : option (list (AddrStack.t P));
  iPred : option I;
}.

Definition with_hist (ph : list (list PredictorHistory)) (u : t) : t :=
  mk (requiresBTBHit u) ph (dir u) (btb u) (ras u) (iPred u).

Definition new (numThreads : Z) (requiresBTBHit : bool) (d : S) (b : B) (r : option (list (AddrStack.t P)))
    (i : option I) : t :=
  mk requiresBTBHit (replicate (Z.to_nat numThreads) []) d b r i.

Definition drainSanityCheck (u : t) : result unit :=
  foldM_r (fun _ (ph : list PredictorHistory) => check AssertFail (match ph with [] => true | _ => false end))
    tt (predHist u).

(** The parts of the internal [predict]: each returns what it found and the
    state of the component it used. *)
Definition predict_direction (i : BranchInst P) (pc : P) (tid : Z) (d : S) : result (bool * option H) :=
  if isUncondCtrl (flags i) then Ok (true, None) else dp_lookup tid (instAddr pc) d.

Definition predict_ras (i : BranchInst P) (pc : P) (tid : Z) (detected : bool)
    (r : option (list (AddrStack.t P))) :
    result (option P * option (ReturnAddrStack.history P) * option (list (AddrStack.t P))) :=
  match r with
  | Some stacks =>
      if detected then
        if isCall (flags i) then
          let! hr := ReturnAddrStack.push tid (buildRetPC i pc pc) None stacks in
          Ok (None, hr.1, Some hr.2)
        else if isReturn (flags i) then
          let! ehr := ReturnAddrStack.pop tid None stacks in
          Ok (ehr.1.1, ehr.1.2, Some ehr.2)
        else Ok (None, None, r)
      else Ok (None, None, r)
  | None => Ok (None, None, r)
  end.

Definition predict_indirect (i : BranchInst P) (sn : Z) (pc : P) (tid : Z) (taken detected : bool)
    (ip : option I) : result (option P * option IH) :=
  match ip with
  | Some p =>
      if taken && detected && isIndirectCtrl (flags i) && negb (isReturn (flags i))
      then ip_lookup tid sn (instAddr pc) None p else Ok (None, None)
  | None => Ok (None, None)
  end.

(** The target and who provided it; later providers override earlier ones. *)
Definition choose_target (taken : bool) (btb_t ras_t ind_t : option P) : TargetProvider * option P :=
  let c := match btb_t with Some x => if taken then (BTB, Some x) else (NoTarget, None) | None => (NoTarget, None) end in
  let c := match ras_t with Some x => (RAS, Some x) | None => c end in
  match ind_t with Some x => (IndirectTarget, Some x) | None => c end.

(** [iPred->update], if there is an indirect predictor. *)
Definition ind_update (tid sn a : Z) (squash taken : bool) (tgt : P) (ty : BranchType) (rnd : Z)
    (h : option IH) (ip : option I) : result (option IH * option I) :=
  match ip with
  | Some p => let! hp := ip_update tid sn a squash taken tgt ty rnd h p in Ok (hp.1, Some hp.2)
  | None => Ok (h, None)
  end.

(** The internal [predict]: the direction, the next program counter, the
    history record and the new state. *)
Definition predict_inner (i : BranchInst P) (sn : Z) (pc : P) (tid : Z) (e : env) (u : t) :
    result (bool * P * PredictorHistory * t) :=
  let brType := getBranchType (flags i) in
  let! db := predict_direction i pc tid (dir u) in
  let '(cond, bh) := db in
  let! bb := btb_lookup (now e) tid (instAddr pc) brType (btb u) in
  let '(btb_target, btb') := bb in
  let hit := match btb_target with Some _ => true | None => false end in
  let detected := hit || negb (requiresBTBHit u) in
  let! rr := predict_ras i pc tid detected (ras u) in
  let '(ras_target, rh, ras') := rr in
  let! ii := predict_indirect i sn pc tid cond detected (iPred u) in
  let '(ind_target, ih) := ii in
  let '(prov, tgt) := choose_target cond btb_target ras_target ind_target in
  let '(taken, tgt) := match tgt with Some x => (cond, x) | None => (false, advancePC i pc) end in
  let! dh := dp_updateHistories tid (instAddr pc) (isUncondCtrl (flags i)) taken bh (dir u) in
  let '(bh, dir') := dh in
  let! hi := ind_update tid sn (instAddr pc) false taken tgt brType (ind_rnd e) ih (iPred u) in
  let '(ih, iPred') := hi in
  Ok (taken, tgt,
      mkHist sn (instAddr pc) i taken taken cond hit prov false (Some tgt) bh ih rh,
      mk (requiresBTBHit u) (predHist u) dir' btb' ras' iPred').

Definition predict (i : BranchInst P) (sn : Z) (pc : P) (tid : Z) (e : env) (u : t) : result (bool * P * t) :=
  let! r := predict_inner i sn pc tid e u in
  let '(taken, pc', hist, u) := r in
  let! ph := vget (predHist u) tid in
  let! phs := vset (predHist u) tid (hist :: ph) in
  Ok (taken, pc', with_hist phs u).

(** [commitBranch]: the histories that are left and the state. *)
Definition commitBranch (tid : Z) (h : PredictorHistory) (u : t) : result (PredictorHistory * t) :=
  let! bd := dp_update tid (pc h) (actuallyTaken h) (bpHistory h) false (dir u) in
  let! ii := match iPred u with
             | Some p => let! hp := ip_commit tid (seqNum h) (indirectHistory h) p in Ok (hp.1, Some hp.2)
             | None => Ok (indirectHistory h, None)
             end in
  let! rh := match ras u with
             | Some _ => ReturnAddrStack.commit (type h) (rasHistory h)
             | None => Ok (rasHistory h)
             end in
  Ok (mkHist (seqNum h) (pc h) (inst h) (predTaken h) (actuallyTaken h) (condPred h) (btbHit h)
        (targetProvider h) (mispredict h) (target h) bd.1 ii.1 rh,
      mk (requiresBTBHit u) (predHist u) bd.2 (btb u) (ras u) ii.2).

(** The loop of [update], from the oldest branch on. *)
Fixpoint commit_loop (done_sn tid : Z) (oldest_first : list PredictorHistory) (u : t) :
    result (list PredictorHistory * t) :=
  match oldest_first with
  | [] => Ok ([], u)
  | h :: rest =>
      if seqNum h <=? done_sn then
        let! hu := commitBranch tid h u in
        let! _ := destroy hu.1 in
        commit_loop done_sn tid rest hu.2
      else Ok (h :: rest, u)
  end.

Definition update (done_sn tid : Z) (u : t) : result t :=
  let! ph := vget (predHist u) tid in
  let! lu := commit_loop done_sn tid (rev ph) u in
  let! phs := vset (predHist lu.2) tid (rev lu.1) in
  Ok (with_hist phs lu.2).

(** The first two steps of [squashHistory]. *)
Definition squash_ras (tid : Z) (rh : option (ReturnAddrStack.history P)) (r : option (list (AddrStack.t P))) :
    result (option (ReturnAddrStack.history P) * option (list (AddrStack.t P))) :=
  match rh with
  | Some _ =>
      match r with
      | Some r => let! hr := ReturnAddrStack.squash tid rh r in Ok (hr.1, Some hr.2)
      | None => Err AssertFail
      end
  | None => Ok (None, r)
  end.
Definition squash_ind (tid sn : Z) (ih : option IH) (ip : option I) : result (option IH * option I) :=
  match ip with
  | Some p => let! hp := ip_squash tid sn ih p in Ok (hp.1, Some hp.2)
  | None => Ok (ih, None)
  end.

Definition squashHistory (tid : Z) (h : PredictorHistory) (u : t) : result (PredictorHistory * t) :=
  let! rr := squash_ras tid (rasHistory h) (ras u) in
  let! ii := squash_ind tid (seqNum h) (indirectHistory h) (iPred u) in
  let! bd := dp_squash tid (bpHistory h) (dir u) in
  Ok (mkHist (seqNum h) (pc h) (inst h) (predTaken h) (actuallyTaken h) (condPred h) (btbHit h)
        (targetProvider h) (mispredict h) (target h) bd.1 ii.1 rr.1,
      mk (requiresBTBHit u) (predHist u) bd.2 (btb u) rr.2 ii.2).

(** The loop of [squash], from the youngest branch on. *)
Fixpoint squash_loop (squashed_sn tid : Z) (ph : list PredictorHistory) (u : t) :
    result (list PredictorHistory * t) :=
  match ph with
  | [] => Ok ([], u)
  | h :: rest =>
      if squashed_sn <? seqNum h then
        let! hu := squashHistory tid h u in
        let! _ := destroy hu.1 in
        squash_loop squashed_sn tid rest hu.2
      else Ok (h :: rest, u)
  end.

Definition squash (squashed_sn tid : Z) (u : t) : result t :=
  let! ph := vget (predHist u) tid in
  let! lu := squash_loop squashed_sn tid ph u in
  let! phs := vset (predHist lu.2) tid lu.1 in
  Ok (with_hist phs lu.2).

(** The correction of the stack for the mispredicted branch. *)
Definition correct_ras (tid : Z) (h : PredictorHistory) (corr_target : P) (actually_taken : bool)
    (r : list (AddrStack.t P)) : result (option (ReturnAddrStack.history P) * list (AddrStack.t P)) :=
  match rasHistory h with
  | None =>
      if actually_taken then
        let! hr := (if decide (type h = Return) then
                      let! ehr := ReturnAddrStack.pop tid None r in Ok (ehr.1.2, ehr.2)
                    else Ok (None, r)) in
        if call h
        then ReturnAddrStack.push tid (buildRetPC (inst h) corr_target corr_target) hr.1 hr.2
        else Ok hr
      else Ok (None, r)
  | Some rh => if actually_taken then Ok (Some rh, r) else ReturnAddrStack.squash tid (Some rh) r
  end.

(** The correction of the mispredicted branch [h], the youngest one left. *)
Definition correct_branch (squashed_sn : Z) (corr_target : P) (actually_taken : bool) (tid : Z) (e : env)
    (h : PredictorHistory) (rest : list PredictorHistory) (u : t) : result t :=
  let! bd := dp_update tid (pc h) actually_taken (bpHistory h) true (dir u) in
  let! ii := ind_update tid squashed_sn (pc h) true actually_taken corr_target (type h) (ind_rnd e)
               (indirectHistory h) (iPred u) in
  let! rr := match ras u with
             | Some r => let! hr := correct_ras tid h corr_target actually_taken r in Ok (hr.1, Some hr.2)
             | None => Ok (rasHistory h, None)
             end in
  let! b := (if actually_taken &&
               (requiresBTBHit u || isDirectCtrl (flags (inst h)) ||
                (match iPred u with None => true | Some _ => false end && negb (isReturn (flags (inst h)))))
             then btb_update (now e) (btb_rnd e) tid (pc h) corr_target (type h) (inst h) (btb u) else Ok (btb u)) in
  let h' := mkHist (seqNum h) (pc h) (inst h) (predTaken h) actually_taken (condPred h) (btbHit h)
              (targetProvider h) true (Some corr_target) bd.1 ii.1 rr.1 in
  let! phs := vset (predHist u) tid (h' :: rest) in
  Ok (mk (requiresBTBHit u) phs bd.2 b rr.2 ii.2).

(** [squash] of a mispredicted branch, with its correction. *)
Definition squash_correct (squashed_sn : Z) (corr_target : P) (actually_taken : bool) (tid : Z) (e : env) (u : t) :
    result t :=
  let! u := squash squashed_sn tid u in
  let! ph := vget (predHist u) tid in
  match ph with
  | [] => Ok u
  | h :: rest => correct_branch squashed_sn corr_target actually_taken tid e h rest u
  end.

End BPredUnit.
Arguments t : clear implicits.
End BPredUnit.
