(* ===== verification/BPredLaws.v ===== *)
(** * The branch prediction unit: invariant and recovery

    Theorems about BPredUnit, proved against the laws of its components: every
    operation of a well-formed unit succeeds and keeps it well formed, commits
    and squashes remove exactly the branches they should, and squashing a
    sequence of speculative predictions takes the unit back to where it was. *)

From S2P Require Import Prelude Bits Tables SatCounter BranchDir BranchLaws Ras Indirect BPredUnit.
Import BPredUnit.BPredUnit.

Class BtbLaws (P B : Type) `{TargetBuffer P B} := {
  (** A buffer for threads 0 to [T - 1]. *)
  bl_wf : forall (T : Z) (b : B), Prop;
  bl_lookup now T tid pc ty (b : B) : bl_wf T b -> 0 <= tid < T -> in_uw 64 pc ->
    exists (x : option P) (b' : B), btb_lookup now tid pc ty b = Ok (x, b') /\ bl_wf T b';
  bl_update now rnd T tid pc (tgt : P) ty (i : BranchInst P) (b : B) : bl_wf T b -> 0 <= tid < T -> in_uw 64 pc ->
    exists b' : B, btb_update now rnd tid pc tgt ty i b = Ok b' /\ bl_wf T b';
}.

Section Laws.
Context {P S H I IH B : Type}.
Context `{InstAddr P, DirPredictor S H, IndirectPred P I IH, TargetBuffer P B}.
Context `{!DirLaws S H, !IndLaws P I IH, !BtbLaws P B}.
(** [n] entries in each return address stack, [T] threads. *)
Context (n T : Z).
Abbreviation stacks := (option (list (AddrStack.t P))).
Abbreviation hist := (@PredictorHistory P H IH).
Abbreviation unit_t := (BPredUnit.t P S H I IH B).

(** Present and absent components stay what they are. *)
Definition same_kind {A} (x y : option A) : Prop :=
  match x, y with Some _, Some _ | None, None => True | _, _ => False end.

(** ** The return address stack of the unit *)
Definition ras_inv (r : stacks) : Prop :=
  match r with Some r => ras_ok n r /\ Z.of_nat (length r) = T | None => True end.

Definition ras_rel (k : nat) (tid : Z) (v r : stacks) : Prop :=
  match v, r with
  | Some v, Some r => ras_agree k tid v r
  | None, None => True
  | _, _ => False
  end.

(** A stack history that fits the unit, and the instruction it is for. *)
Definition ras_fits (i : StaticInst) (rh : option (ReturnAddrStack.history P)) (r : stacks) : Prop :=
  match r with
  | Some _ => ras_hist n rh /\ (rh <> None -> isCall i = true \/ isReturn i = true)
  | None => rh = None
  end.

Lemma ras_agree_mono k k' tid (v r : list (AddrStack.t P)) : (k' <= k)%nat ->
  ras_agree k tid v r -> ras_agree k' tid v r.
Proof.
  intros Hk (Hl & Hj & s & s' & Hs & Hs' & Ha). split; [done|]. split; [done|].
  exists s, s'. split; [done|]. split; [done|]. by eapply agree_mono.
Qed.

Lemma ras_rel_mono k k' tid v r : (k' <= k)%nat -> ras_rel k tid v r -> ras_rel k' tid v r.
Proof. intros Hk. destruct v, r; try done. by apply ras_agree_mono. Qed.

Lemma ras_rel_refl k tid r : 0 <= tid < T -> ras_inv r -> ras_rel k tid r r.
Proof.
  intros Ht Hr. destruct r as [r|]; [|done]. destruct Hr as [Hr Hl]. split; [done|]. split; [done|].
  destruct (lookup_lt_is_Some_2 r (Z.to_nat tid)) as (s & Hs); [lia|]. exists s, s. done.
Qed.

Lemma ras_squash_spec tid i rh r : 0 <= tid < T -> ras_inv r -> ras_fits i rh r ->
  exists r', squash_ras tid rh r = Ok (None, r') /\ ras_inv r' /\ same_kind r r'.
Proof.
  intros Ht Hr Hf. unfold squash_ras. destruct rh as [rh|]; [|by exists r; destruct r].
  destruct r as [r|]; [|done]. destruct Hr as [Hr Hl], Hf as [Hf _].
  destruct (ras_squash_ok n r tid (Some rh) Hr) as (r' & -> & Hr' & Hl'); [unfold ras_tid; lia|done|].
  rewrite bind_Ok. eexists. split; [done|]. split; [split; [done|]; cbn; lia|done].
Qed.

Lemma predict_ras_spec (i : BranchInst P) pc tid det r : 0 <= tid < T -> ras_inv r ->
  exists tgt rh r', predict_ras i pc tid det r = Ok (tgt, rh, r') /\ ras_inv r' /\
    ras_fits (flags i) rh r' /\ same_kind r r' /\
    forall k v, ras_inv v -> (k <= Z.to_nat n)%nat -> ras_rel k tid v r' ->
      exists v', squash_ras tid rh v = Ok (None, v') /\ ras_inv v' /\
        ras_rel (k - (if isCall (flags i) then 1 else 0)) tid v' r.
Proof.
  intros Ht Hr.
  assert (Hnone : exists tgt rh r', Ok (None : option P, None, r) = Ok (tgt, rh, r') /\ ras_inv r' /\
    ras_fits (flags i) rh r' /\ same_kind r r' /\
    forall k v, ras_inv v -> (k <= Z.to_nat n)%nat -> ras_rel k tid v r' ->
      exists v', squash_ras tid rh v = Ok (None, v') /\ ras_inv v' /\
        ras_rel (k - (if isCall (flags i) then 1 else 0)) tid v' r).
  { exists (None : option P), None, r. split; [done|]. split; [done|]. split; [by destruct r|]. split; [by destruct r|].
    intros k v Hv Hk Hrel. exists v. split; [done|]. split; [done|]. eapply ras_rel_mono; [|done]. lia. }
  unfold predict_ras. destruct r as [r|]; [|done]. destruct det; [|done]. pose proof Hr as [Hok Hl].
  destruct (isCall (flags i)) eqn:Ec; [|destruct (isReturn (flags i)) eqn:Er; [|done]]; clear Hnone.
  - destruct (ras_push_undo n r tid (buildRetPC i pc pc) Hok) as (h & r1 & -> & Hh & Hr1 & Hl1 & Hu);
      [unfold ras_tid; lia|].
    rewrite bind_Ok. eexists _, _, _. split; [done|]. split; [split; [done|]; cbn; lia|].
    split; [split; [done|]; auto|]. split; [done|]. intros k v Hv Hk Hrel.
    destruct v as [v|]; [|done]. destruct Hv as [Hv Hlv]. destruct (Hu k v Hv Hk Hrel) as (r2 & Es & Hr2 & Ha).
    cbn. cbn in Es. rewrite Es, bind_Ok. eexists. split; [done|]. split; [|done]. split; [done|].
    destruct Ha as (Hlen & _). cbn. lia.
  - destruct (ras_pop_undo n r tid Hok) as (e & h & r1 & -> & Hh & Hr1 & Hl1 & Hu); [unfold ras_tid; lia|].
    rewrite bind_Ok. eexists _, _, _. split; [done|]. split; [split; [done|]; cbn; lia|].
    split; [split; [done|]; auto|]. split; [done|]. intros k v Hv Hk Hrel.
    destruct v as [v|]; [|done]. destruct Hv as [Hv Hlv]. destruct (Hu k v Hv Hrel) as (r2 & Es & Hr2 & Ha).
    cbn. cbn in Es. rewrite Es, bind_Ok. eexists. split; [done|]. split; [split; [done|]; destruct Ha as (Hlen & _); cbn; lia|].
    eapply ras_agree_mono; [|done]. lia.
Qed.


(** ** The indirect predictor of the unit *)
Definition ind_inv (ip : option I) : Prop :=
  match ip with Some p => il_wf p /\ forall tid, 0 <= tid < T -> il_tid p tid | None => True end.

Definition ind_fits (ih : option IH) (ip : option I) : Prop :=
  match ip with Some _ => il_hist ih | None => ih = None end.

Lemma predict_ind_spec (i : BranchInst P) sn pc tid taken det ip : 0 <= tid < T -> ind_inv ip ->
  exists tgt ih, predict_indirect i sn pc tid taken det ip = Ok (tgt, ih) /\
    forall taken' tgt' ty rnd, exists ih' ip',
      ind_update tid sn (instAddr pc) false taken' tgt' ty rnd ih ip = Ok (ih', ip') /\
      ind_inv ip' /\ ind_fits ih' ip' /\ same_kind ip ip' /\ forall sn', squash_ind tid sn' ih' ip' = Ok (None, ip).
Proof.
  intros Ht Hi. destruct ip as [p|]; [|by eexists None, None; split; [done|]; intros; eexists _, _].
  destruct Hi as [Hw Htid]. pose proof (Htid tid Ht) as Hp.
  assert (exists (tgt : option P) (ih : option IH), predict_indirect i sn pc tid taken det (Some p) = Ok (tgt, ih) /\
    (ih = None \/ exists e : option P, ip_lookup tid sn (instAddr pc) None p = Ok (e, ih)))
    as (tgt & ih & E & Hih).
  { cbn. destruct (_ && _); [|by eexists None, None; split; [done|]; left].
    destruct (il_lookup_total tid sn (instAddr pc) p Hw Hp (instAddr_range pc)) as (e & h & E).
    exists e, h. split; [done|]. right. by exists e. }
  exists tgt, ih. split; [done|]. intros taken' tgt' ty rnd.
  destruct (il_speculate tid sn (instAddr pc) taken' tgt' ty rnd ih p Hw Hp (instAddr_range _) (instAddr_range _) Hih)
    as (h' & p' & Eu & Hw' & Htid' & Hh' & Hs).
  cbn [ind_update]. rewrite Eu, bind_Ok. eexists _, _. split; [done|]. split; [split; [done|]; auto|].
  split; [done|]. split; [done|]. intros sn'. cbn [squash_ind snd fst]. by rewrite Hs, bind_Ok.
Qed.

(** ** The invariant of the unit *)
Record core_inv (u : unit_t) : Prop := {
  ci_dir : dl_wf (dir u);
  ci_tid tid : 0 <= tid < T -> dl_tid (dir u) tid;
  ci_btb : bl_wf T (btb u);
  ci_ras : ras_inv (ras u);
  ci_ind : ind_inv (iPred u);
}.

Definition hist_ok (u : unit_t) (h : hist) : Prop :=
  in_uw 64 (pc h) /\ dl_hist (dir u) (bpHistory h) /\ ind_fits (indirectHistory h) (iPred u) /\
  ras_fits (flags (inst h)) (rasHistory h) (ras u).

(** The branches of a thread, the youngest first, each with a larger sequence
    number than the ones after it. *)
Definition thread_ok (u : unit_t) (ph : list hist) : Prop :=
  Forall (hist_ok u) ph /\ StronglySorted (fun a b => seqNum b < seqNum a) ph.

Definition unit_inv (u : unit_t) : Prop :=
  core_inv u /\ Z.of_nat (length (predHist u)) = T /\ Forall (thread_ok u) (predHist u).

(** States for which the same histories fit. *)
Definition compat (u u' : unit_t) : Prop :=
  dl_shape (dir u) = dl_shape (dir u') /\ same_kind (ras u) (ras u') /\ same_kind (iPred u) (iPred u').

Lemma compat_refl u : compat u u.
Proof. split; [done|]. unfold same_kind. by destruct (ras u), (iPred u). Qed.

Lemma compat_trans u1 u2 u3 : compat u1 u2 -> compat u2 u3 -> compat u1 u3.
Proof.
  intros (Hd & Hr & Hi) (Hd' & Hr' & Hi'). split; [congruence|].
  unfold same_kind in *. destruct (ras u1), (ras u2), (ras u3), (iPred u1), (iPred u2), (iPred u3); done.
Qed.

Lemma hist_ok_compat u u' h : compat u u' -> hist_ok u h -> hist_ok u' h.
Proof.
  intros (Hd & Hr & Hi) (Hpc & Hb & Hih & Hrh). split; [done|]. split; [by eapply dl_hist_shape|].
  unfold ind_fits, ras_fits, same_kind in *. destruct (ras u), (ras u'), (iPred u), (iPred u'); done.
Qed.

Lemma thread_ok_compat u u' ph : compat u u' -> thread_ok u ph -> thread_ok u' ph.
Proof.
  intros Hc [Hf Hs]. split; [|done]. eapply Forall_impl; [done|]. intros h Hh. by eapply hist_ok_compat.
Qed.

(** Two units alike for the thread [tid]: the direction predictor up to its
    equivalence, the same indirect predictor, and the stack down to [k] entries. *)
Definition rel (k : nat) (tid : Z) (v u : unit_t) : Prop :=
  dl_equiv (dir v) (dir u) /\ iPred v = iPred u /\ ras_inv (ras v) /\ ras_rel k tid (ras v) (ras u).

Definition calls (i : BranchInst P) : nat := if isCall (flags i) then 1 else 0.

Lemma predict_inner_spec i sn pc tid e u : core_inv u -> 0 <= tid < T ->
  exists taken tgt h u1, predict_inner i sn pc tid e u = Ok (taken, tgt, h, u1) /\
    core_inv u1 /\ compat u u1 /\ predHist u1 = predHist u /\ hist_ok u1 h /\
    (seqNum h = sn /\ BPredUnit.pc h = instAddr pc /\ predTaken h = taken /\ target h = Some tgt) /\
    forall k v, (k <= Z.to_nat n)%nat -> rel k tid v u1 -> exists h' v', squashHistory tid h v = Ok (h', v') /\
      destroy h' = Ok tt /\ predHist v' = predHist v /\ rel (k - calls i) tid v' u.
Proof.
  intros [Hd Htid Hb Hr Hi] Ht. unfold predict_inner.
  assert (exists c bh, predict_direction i pc tid (dir u) = Ok (c, bh) /\
    (if isUncondCtrl (flags i) then bh = None else exists b, dp_lookup tid (instAddr pc) (dir u) = Ok (b, bh)))
    as (c & bh & -> & Hbh).
  { unfold predict_direction. destruct (isUncondCtrl (flags i)); [by eexists _, _|].
    destruct (dl_lookup_total tid (instAddr pc) (dir u) Hd (Htid tid Ht) (instAddr_range pc)) as (b & h & E).
    exists b, h. split; [done|]. by exists b. }
  rewrite bind_Ok. cbn beta iota.
  destruct (bl_lookup (now e) T tid (instAddr pc) (getBranchType (flags i)) (btb u) Hb Ht (instAddr_range pc))
    as (bt & b' & -> & Hb'). rewrite bind_Ok. cbn beta iota zeta.
  match goal with |- context [predict_ras i pc tid ?d _] =>
    destruct (predict_ras_spec i pc tid d (ras u) Ht Hr) as (rt & rh & r' & -> & Hr' & Hrf & Hrs & Hru) end.
  rewrite bind_Ok. cbn beta iota.
  match goal with |- context [predict_indirect i sn pc tid ?a ?d _] =>
    destruct (predict_ind_spec i sn pc tid a d (iPred u) Ht Hi) as (it & ih & -> & Hiu) end.
  rewrite bind_Ok. cbn beta iota.
  destruct (choose_target c bt rt it) as [prov tgt].
  set (tt' := match tgt with Some x => (c, x) | None => (false, advancePC i pc) end). destruct tt' as [taken tgt'].
  destruct (dl_speculate tid (instAddr pc) (isUncondCtrl (flags i)) taken (dir u) bh Hd (Htid tid Ht)
    (instAddr_range pc) Hbh) as (bh' & d' & -> & Hd' & Hsh & Hbh' & Hdu). rewrite bind_Ok. cbn beta iota.
  destruct (Hiu taken tgt' (getBranchType (flags i)) (ind_rnd e)) as (ih' & ip' & -> & Hi' & Hif & Hik & Hiu').
  rewrite bind_Ok. cbn beta iota. eexists _, _, _, _. split; [done|].
  split; [split; try done; intros t' Ht'; eapply dl_tid_shape; [symmetry; exact Hsh|auto]|].
  split; [done|].
  split; [done|]. split; [split; [apply instAddr_range|done]|]. split; [done|].
  intros k v Hk (Ev & Ei & Hrv & Hrr). cbn in Ev, Ei, Hrr.
  destruct (Hru k (ras v) Hrv Hk Hrr) as (v' & Es & Hv' & Hrel').
  destruct (Hdu (dir v) Ev) as (q & Eq & Hq).
  unfold squashHistory. cbn [rasHistory indirectHistory bpHistory seqNum].
  rewrite Es, bind_Ok, Ei, Hiu', bind_Ok, Eq, bind_Ok. eexists _, _. split; [done|]. split; [done|].
  split; [done|]. split; [done|]. split; [done|]. done.
Qed.


(** ** Removing one branch *)
Lemma dir_step u d' : core_inv u -> dl_wf d' -> dl_shape d' = dl_shape (dir u) ->
  forall tid, 0 <= tid < T -> dl_tid d' tid.
Proof. intros Hu Hd Hs tid Ht. eapply dl_tid_shape; [symmetry; exact Hs|]. by apply (ci_tid u Hu). Qed.

Lemma squash_ind_spec tid sn ih ip : 0 <= tid < T -> ind_inv ip -> ind_fits ih ip ->
  exists ip', squash_ind tid sn ih ip = Ok (None, ip') /\ ind_inv ip' /\ same_kind ip ip'.
Proof.
  intros Ht Hi Hf. destruct ip as [p|]; [|cbn in Hf; subst ih; by exists None]. destruct Hi as [Hw Htid].
  destruct (il_squash tid sn ih p Hw (Htid tid Ht) Hf) as (p' & E & Hw' & Ht').
  cbn [squash_ind]. rewrite E, bind_Ok. eexists. split; [done|]. split; [split; [done|]; auto|done].
Qed.

Lemma squashHistory_spec tid h u : core_inv u -> 0 <= tid < T -> hist_ok u h ->
  exists h' u', squashHistory tid h u = Ok (h', u') /\ destroy h' = Ok tt /\ core_inv u' /\ compat u u' /\
    predHist u' = predHist u.
Proof.
  intros Hu Ht (Hpc & Hb & Hi & Hr). unfold squashHistory.
  destruct (ras_squash_spec tid _ _ _ Ht (ci_ras u Hu) Hr) as (r' & -> & Hr' & Hrk). rewrite bind_Ok.
  destruct (squash_ind_spec tid (seqNum h) _ _ Ht (ci_ind u Hu) Hi) as (ip' & -> & Hi' & Hik). rewrite bind_Ok.
  destruct (dl_squash tid (dir u) _ (ci_dir u Hu) (ci_tid u Hu tid Ht) Hb) as (d' & -> & Hd' & Hs). rewrite bind_Ok.
  eexists _, _. split; [done|]. split; [done|]. split; [|by split; [split|]; cbn; rewrite ?Hs].
  split; cbn; try done; [by eapply dir_step|apply (ci_btb u Hu)].
Qed.

Lemma commit_ras_spec (h : hist) r : ras_fits (flags (inst h)) (rasHistory h) r ->
  match r with Some _ => ReturnAddrStack.commit (type h) (rasHistory h) | None => Ok (rasHistory h) end = Ok None.
Proof.
  intros Hf. destruct r as [r|]; [|cbn in Hf; by rewrite Hf]. destruct Hf as [_ Hf].
  unfold type. destruct (rasHistory h) as [rh|].
  - unfold getBranchType. destruct (Hf ltac:(done)) as [E|E]; rewrite E; [|done]. destruct (isReturn _); [done|]. by destruct (isDirectCtrl _).
  - by destruct (getBranchType _).
Qed.

Lemma commitBranch_spec tid h u : core_inv u -> 0 <= tid < T -> hist_ok u h ->
  exists h' u', commitBranch tid h u = Ok (h', u') /\ destroy h' = Ok tt /\ core_inv u' /\ compat u u' /\
    predHist u' = predHist u /\ ras u' = ras u.
Proof.
  intros Hu Ht (Hpc & Hb & Hi & Hr). unfold commitBranch.
  destruct (dl_update tid (pc h) (actuallyTaken h) false (dir u) _ (ci_dir u Hu) (ci_tid u Hu tid Ht) Hpc Hb)
    as (bh & d' & -> & Hd' & Hs & ->). rewrite bind_Ok.
  assert (exists ip', match iPred u with
    | Some p => let! hp := ip_commit tid (seqNum h) (indirectHistory h) p in Ok (hp.1, Some hp.2)
    | None => Ok (indirectHistory h, None) end = Ok (None, ip') /\ ind_inv ip' /\ same_kind (iPred u) ip')
    as (ip' & -> & Hi' & Hik).
  { pose proof (ci_ind u Hu) as Hind. destruct (iPred u) as [p|]; [|cbn in Hi; rewrite Hi; by exists None].
    destruct Hind as [Hw Htid]. destruct (il_commit tid (seqNum h) _ p Hw (Htid tid Ht) Hi) as (p' & E & Hw' & Ht').
    rewrite E, bind_Ok. eexists. split; [done|]. split; [split; [done|]; auto|done]. }
  rewrite bind_Ok, commit_ras_spec, bind_Ok by done. eexists _, _. split; [done|]. split; [done|].
  split; [split; cbn; try done; [by eapply dir_step|apply (ci_btb u Hu)|apply (ci_ras u Hu)]|].
  split; [|done]. split; [by cbn; rewrite Hs|]. split; [by cbn; destruct (ras u)|done].
Qed.

(** ** The loops *)
Lemma squash_loop_spec s tid ph u : core_inv u -> 0 <= tid < T -> thread_ok u ph ->
  exists u', squash_loop s tid ph u = Ok (filter (fun h => seqNum h <= s) ph, u') /\ core_inv u' /\ compat u u' /\
    predHist u' = predHist u.
Proof.
  intros Hu Ht. revert u Hu. induction ph as [|h ph IHp]; intros u Hu [Hf Hs]; cbn [squash_loop].
  - exists u. split; [done|]. split; [done|]. split; [apply compat_refl|done].
  - apply Forall_cons in Hf as [Hh Hf]. apply StronglySorted_inv in Hs as [Hs Hlt].
    destruct (Z.ltb_spec s (seqNum h)).
    + destruct (squashHistory_spec tid h u Hu Ht Hh) as (h' & u1 & E & Ed & Hu1 & Hc1 & Hp1).
      rewrite E, bind_Ok. cbn [fst snd]. rewrite Ed, bind_Ok.
      destruct (IHp u1 Hu1) as (u' & -> & Hu' & Hc' & Hp'); [by eapply thread_ok_compat; [|split]|].
      exists u'. rewrite filter_cons_False by lia. split; [done|]. split; [done|].
      split; [by eapply compat_trans|congruence].
    + exists u. rewrite filter_cons_True by lia. rewrite filter_all; [|eapply Forall_impl; [done|]; cbn; lia].
      split; [done|]. split; [done|]. split; [apply compat_refl|done].
Qed.

Lemma commit_loop_spec d tid ph u : core_inv u -> 0 <= tid < T -> Forall (hist_ok u) ph ->
  StronglySorted (fun a b => seqNum a < seqNum b) ph ->
  exists u', commit_loop d tid ph u = Ok (filter (fun h => d < seqNum h) ph, u') /\ core_inv u' /\ compat u u' /\
    predHist u' = predHist u.
Proof.
  intros Hu Ht. revert u Hu. induction ph as [|h ph IHp]; intros u Hu Hf Hs; cbn [commit_loop].
  - exists u. split; [done|]. split; [done|]. split; [apply compat_refl|done].
  - apply Forall_cons in Hf as [Hh Hf]. apply StronglySorted_inv in Hs as [Hs Hlt].
    destruct (Z.leb_spec (seqNum h) d).
    + destruct (commitBranch_spec tid h u Hu Ht Hh) as (h' & u1 & E & Ed & Hu1 & Hc1 & Hp1 & _).
      rewrite E, bind_Ok. cbn [fst snd]. rewrite Ed, bind_Ok.
      destruct (IHp u1 Hu1) as (u' & -> & Hu' & Hc' & Hp'); [|done|].
      { eapply Forall_impl; [exact Hf|]. intros x Hx. by eapply hist_ok_compat. }
      exists u'. rewrite filter_cons_False by lia. split; [done|]. split; [done|].
      split; [by eapply compat_trans|congruence].
    + exists u. rewrite filter_cons_True by lia. rewrite filter_all; [|eapply Forall_impl; [done|]; cbn; lia].
      split; [done|]. split; [done|]. split; [apply compat_refl|done].
Qed.

(** ** Whole operations *)
Lemma core_with_hist u phs : core_inv u -> core_inv (with_hist phs u).
Proof. intros [? ? ? ? ?]. by split. Qed.

Lemma unit_inv_set u u' tid ph : unit_inv u -> core_inv u' -> compat u u' -> predHist u' = predHist u ->
  thread_ok u' ph -> unit_inv (with_hist (<[Z.to_nat tid := ph]> (predHist u')) u').
Proof.
  intros (Hu & Hl & Hf) Hu' Hc Hp Hph. split; [by apply core_with_hist|]. cbn. rewrite Hp, length_insert.
  split; [done|]. apply Forall_insert.
  - eapply Forall_impl; [exact Hf|]. intros x Hx. by apply (thread_ok_compat u u').
  - exact Hph.
Qed.

Lemma unit_thread u tid : unit_inv u -> 0 <= tid < T ->
  exists ph, vget (predHist u) tid = Ok ph /\ predHist u !! Z.to_nat tid = Some ph /\ thread_ok u ph.
Proof.
  intros (Hu & Hl & Hf) Ht. rewrite <- Hl in Ht. destruct (vget_Ok _ _ Ht) as (ph & E & Hph).
  exists ph. split; [done|]. split; [done|]. by eapply Forall_lookup_1.
Qed.

Lemma thread_ok_filter u ph (Q : hist -> Prop) `{forall x, Decision (Q x)} : thread_ok u ph -> thread_ok u (filter Q ph).
Proof.
  intros [Hf Hs]. split; [by apply Forall_filter|]. induction Hs as [|x l Hs IHs Hx]; [constructor|].
  apply Forall_cons in Hf as [_ Hf]. rewrite filter_cons. destruct (decide (Q x)); [|by apply IHs].
  constructor; [by apply IHs|]. by apply Forall_filter.
Qed.

Lemma predict_spec i sn pc tid e u ph : unit_inv u -> 0 <= tid < T ->
  predHist u !! Z.to_nat tid = Some ph -> Forall (fun h => seqNum h < sn) ph ->
  exists taken pc' h u', predict i sn pc tid e u = Ok (taken, pc', u') /\ unit_inv u' /\ compat u u' /\
    predHist u' = <[Z.to_nat tid := h :: ph]> (predHist u) /\
    (seqNum h = sn /\ BPredUnit.pc h = instAddr pc /\ predTaken h = taken /\ target h = Some pc') /\
    forall k v, (k <= Z.to_nat n)%nat -> rel k tid v u' -> exists h' v', squashHistory tid h v = Ok (h', v') /\
      destroy h' = Ok tt /\ predHist v' = predHist v /\ rel (k - calls i) tid v' u.
Proof.
  intros Hu Ht Hph Hsn. pose proof Hu as (Hc & Hl & Hf). unfold predict.
  destruct (predict_inner_spec i sn pc tid e u Hc Ht)
    as (taken & tgt & h & u1 & -> & Hu1 & Hc1 & Hp1 & Hh & Hfields & Hundo).
  rewrite bind_Ok. cbn beta iota. rewrite Hp1, (vget_lookup _ _ ph), bind_Ok, vset_Ok, bind_Ok by (done || lia).
  eexists _, _, _, _. split; [done|].
  pose proof (unit_inv_set u u1 tid (h :: ph) Hu Hu1 Hc1 Hp1) as Hw. rewrite Hp1 in Hw.
  split; [apply Hw|split; [done|]; split; [done|]; split; [done|]; exact Hundo].
  destruct (Forall_lookup_1 _ _ _ _ Hf Hph) as [Hphf Hphs]. split.
  - constructor; [done|]. eapply Forall_impl; [exact Hphf|]. intros x Hx. by apply (hist_ok_compat u u1).
  - constructor; [done|]. eapply Forall_impl; [exact Hsn|]. intros x Hx. cbn in *. lia.
Qed.

Lemma squash_spec s tid u ph : unit_inv u -> 0 <= tid < T -> predHist u !! Z.to_nat tid = Some ph ->
  exists u', squash s tid u = Ok u' /\ unit_inv u' /\ compat u u' /\
    predHist u' = <[Z.to_nat tid := filter (fun h => seqNum h <= s) ph]> (predHist u).
Proof.
  intros Hu Ht Hph. pose proof Hu as (Hc & Hl & Hf). unfold squash.
  rewrite (vget_lookup _ _ ph), bind_Ok by (done || lia). pose proof (Forall_lookup_1 _ _ _ _ Hf Hph) as Hok.
  destruct (squash_loop_spec s tid ph u Hc Ht Hok) as (u' & -> & Hu' & Hc' & Hp'). rewrite bind_Ok. cbn [fst snd].
  rewrite vset_Ok, bind_Ok by (rewrite Hp'; lia). eexists. split; [done|].
  split; [|split; [done|by cbn; rewrite Hp']]. apply (unit_inv_set u); try done.
  apply thread_ok_filter. by eapply thread_ok_compat.
Qed.

(** ** Sequences of predictions *)

(** A branch to predict: the instruction, its sequence number, its program
    counter and what the prediction reads of the simulation. *)
Definition branch : Type := BranchInst P * Z * P * env.

Fixpoint predicts (tid : Z) (l : list branch) (u : unit_t) : result unit_t :=
  match l with
  | [] => Ok u
  | (i, sn, pc, e) :: l => let! r := predict i sn pc tid e u in predicts tid l r.2
  end.

(** Sequence numbers that grow from [s] on. *)
Fixpoint increasing (s : Z) (l : list branch) : Prop :=
  match l with [] => True | (_, sn, _, _) :: l => s < sn /\ increasing sn l end.

Fixpoint call_count (l : list branch) : nat :=
  match l with [] => 0 | (i, _, _, _) :: l => calls i + call_count l end.

Lemma predicts_spec tid l u s ph : unit_inv u -> 0 <= tid < T ->
  predHist u !! Z.to_nat tid = Some ph -> Forall (fun h => seqNum h <= s) ph -> increasing s l ->
  exists u' new, predicts tid l u = Ok u' /\ unit_inv u' /\
    predHist u' = <[Z.to_nat tid := new ++ ph]> (predHist u) /\
    forall k v s0 rest, (k <= Z.to_nat n)%nat -> s0 <= s -> rel k tid v u' ->
      exists v', squash_loop s0 tid (new ++ rest) v = squash_loop s0 tid rest v' /\
        predHist v' = predHist v /\ rel (k - call_count l) tid v' u.
Proof.
  revert u s ph. induction l as [|[[[i sn] pc] e] l IHl]; intros u s ph Hu Ht Hph Hs Hinc; cbn [predicts increasing] in *.
  - exists u, []. split; [done|]. split; [done|]. split; [by rewrite list_insert_id|].
    intros k v s0 rest Hk Hs0 Hrel. exists v. cbn. rewrite Nat.sub_0_r. done.
  - destruct Hinc as [Hlt Hinc]. pose proof Hu as (_ & Hlen & _).
    destruct (predict_spec i sn pc tid e u ph Hu Ht Hph) as
      (taken & pc' & h & u1 & E & Hu1 & Hc1 & Hp1 & (Hsn & _) & Hundo).
    { eapply Forall_impl; [exact Hs|]. cbn. lia. }
    rewrite E, bind_Ok. cbn [snd].
    destruct (IHl u1 sn (h :: ph) Hu1 Ht) as (u2 & new & -> & Hu2 & Hp2 & Hrun); [| |done|].
    + rewrite Hp1, list_lookup_insert_eq by lia. done.
    + constructor; [lia|]. eapply Forall_impl; [exact Hs|]. cbn. lia.
    + exists u2, (new ++ [h]). split; [done|]. split; [done|].
      split; [by rewrite Hp2, Hp1, list_insert_insert_eq, <- app_assoc|].
      intros k v s0 rest Hk Hs0 Hrel. rewrite <- app_assoc.
      destruct (Hrun k v s0 ([h] ++ rest) Hk ltac:(lia) Hrel) as (v1 & -> & Hv1 & Hrel1).
      destruct (Hundo (k - call_count l)%nat v1 ltac:(lia) Hrel1) as (h' & v2 & E2 & Ed & Hv2 & Hrel2).
      exists v2. cbn [app squash_loop]. rewrite (proj2 (Z.ltb_lt s0 (seqNum h))) by lia.
      rewrite E2, bind_Ok. cbn [fst snd]. rewrite Ed, bind_Ok. split; [done|]. split; [congruence|].
      cbn [call_count]. replace (k - (calls i + call_count l))%nat with (k - call_count l - calls i)%nat by lia. done.
Qed.

Lemma rel_refl k tid u : unit_inv u -> 0 <= tid < T -> rel k tid u u.
Proof.
  intros (Hu & _) Ht. split; [reflexivity|]. split; [done|]. split; [apply (ci_ras u Hu)|].
  apply ras_rel_refl; [done|apply (ci_ras u Hu)].
Qed.

Lemma squash_predicts tid l u s ph : unit_inv u -> 0 <= tid < T ->
  predHist u !! Z.to_nat tid = Some ph -> Forall (fun h => seqNum h <= s) ph -> increasing s l ->
  exists u1 u2, predicts tid l u = Ok u1 /\ squash s tid u1 = Ok u2 /\ unit_inv u2 /\
    predHist u2 = predHist u /\ rel (Z.to_nat n - call_count l) tid u2 u.
Proof.
  intros Hu Ht Hph Hs Hinc. pose proof Hu as (_ & Hlen & _).
  destruct (predicts_spec tid l u s ph Hu Ht Hph Hs Hinc) as (u1 & new & E1 & Hu1 & Hp1 & Hrun).
  assert (Hph1 : predHist u1 !! Z.to_nat tid = Some (new ++ ph)).
  { rewrite Hp1, list_lookup_insert_eq by lia. done. }
  destruct (squash_spec s tid u1 _ Hu1 Ht Hph1) as (u2 & E2 & Hu2 & _ & Hp2).
  exists u1, u2. split; [done|]. split; [done|]. split; [done|].
  destruct (Hrun (Z.to_nat n) u1 s ph ltac:(lia) ltac:(lia) (rel_refl _ _ _ Hu1 Ht)) as (v & Ev & Hv & Hrel).
  assert (Hstop : squash_loop s tid ph v = Ok (ph, v)).
  { destruct ph as [|h ph]; [done|]. cbn. apply Forall_cons in Hs as [Hh _].
    rewrite (proj2 (Z.ltb_ge s (seqNum h))) by lia. done. }
  rewrite Hstop in Ev. unfold squash in E2. rewrite (vget_lookup _ _ (new ++ ph)), bind_Ok in E2 by (done || lia).
  rewrite Ev, bind_Ok, vset_Ok, bind_Ok in E2 by (cbn; rewrite Hv, Hp1, length_insert; lia).
  injection E2 as <-. split; [|done]. cbn. by rewrite Hv, Hp1, list_insert_insert_eq, list_insert_id.
Qed.

(** ** The correction of a mispredicted branch *)
Lemma ras_push_ok tid x rh (r : list (AddrStack.t P)) : ras_ok n r -> Z.of_nat (length r) = T -> 0 <= tid < T ->
  ras_hist n rh -> exists h r', ReturnAddrStack.push tid x rh r = Ok (Some h, r') /\
    ras_inv (Some r') /\ ras_hist n (Some h).
Proof.
  intros Hr Hl Ht Hh. destruct (ras_get n r tid Hr) as (s & E & Hs & Hw & Hn); [unfold ras_tid; lia|].
  destruct (push_spec s x Hw) as (s' & Ep & Hw' & Hn' & _). unfold ReturnAddrStack.push.
  rewrite E, bind_Ok, Ep, bind_Ok, vset_Ok, bind_Ok by lia. eexists _, _. split; [done|].
  split; [split; [apply ras_set; congruence|by rewrite length_insert]|].
  destruct rh as [rh|]; [exact Hh|done].
Qed.

Lemma getBranchType_return i : getBranchType i = Return <-> isReturn i = true.
Proof.
  unfold getBranchType. destruct (isReturn i); [done|]. split; [|done].
  by destruct (isCall i), (isDirectCtrl i), (isCondCtrl i), (isIndirectCtrl i).
Qed.

Lemma correct_ras_spec tid (h : hist) ct taken r : 0 <= tid < T -> ras_inv (Some r) ->
  ras_fits (flags (inst h)) (rasHistory h) (Some r) ->
  exists rh' r', correct_ras tid h ct taken r = Ok (rh', r') /\ ras_inv (Some r') /\
    ras_fits (flags (inst h)) rh' (Some r').
Proof.
  intros Ht Hr Hf. unfold correct_ras. pose proof Hr as [Hok Hl]. pose proof Hf as [Hh Hcr].
  destruct (rasHistory h) as [rh|] eqn:Erh.
  - destruct taken; [by eexists _, _|].
    destruct (ras_squash_ok n r tid (Some rh) Hok) as (r' & -> & Hr' & Hl'); [unfold ras_tid; lia|done|].
    eexists _, _. split; [done|]. split; [split; [done|]; lia|done].
  - destruct taken; [|by eexists _, _].
    assert (exists rh1 r1, (if decide (type h = Return) then
        let! ehr := ReturnAddrStack.pop tid None r in Ok (ehr.1.2, ehr.2) else Ok (None, r)) = Ok (rh1, r1) /\
      ras_ok n r1 /\ Z.of_nat (length r1) = T /\ ras_hist n rh1 /\
      (rh1 <> None -> isReturn (flags (inst h)) = true)) as (rh1 & r1 & -> & Hr1 & Hl1 & Hh1 & Hret).
    { destruct (decide (type h = Return)) as [Ety|]; [|by eexists _, _].
      destruct (ras_pop_undo n r tid Hok) as (e & hh & r1 & -> & Hh1 & Hr1 & Hl1 & _); [unfold ras_tid; lia|].
      eexists _, _. split; [done|]. cbn. rewrite Hl1. split; [done|]. split; [done|]. split; [done|].
      intros _. by apply getBranchType_return. }
    rewrite bind_Ok. cbn [fst snd]. destruct (call h) eqn:Ec.
    + destruct (ras_push_ok tid (buildRetPC (inst h) ct ct) rh1 r1 Hr1 Hl1 Ht Hh1) as (h2 & r2 & -> & Hr2 & Hh2).
      eexists _, _. split; [done|]. split; [done|]. split; [done|]. intros _. left. exact Ec.
    + eexists _, _. split; [done|]. split; [done|]. split; [done|]. intros Hne. right. auto.
Qed.

Lemma ind_correct_spec tid sn a taken tgt ty rnd ih ip : 0 <= tid < T -> ind_inv ip -> ind_fits ih ip ->
  in_uw 64 a -> 0 <= rnd ->
  exists ih' ip', ind_update tid sn a true taken tgt ty rnd ih ip = Ok (ih', ip') /\ ind_inv ip' /\
    ind_fits ih' ip' /\ same_kind ip ip'.
Proof.
  intros Ht Hi Hf Ha Hr. destruct ip as [p|]; [|by eexists _, _]. destruct Hi as [Hw Htid].
  destruct (il_correct tid sn a taken tgt ty rnd ih p Hw (Htid tid Ht) Ha (instAddr_range tgt) Hr Hf)
    as (h' & p' & E & Hw' & Ht' & Hh'). cbn [ind_update]. rewrite E, bind_Ok.
  eexists _, _. split; [done|]. split; [split; [done|]; auto|done].
Qed.

(** The record of the corrected branch. *)
Definition corrected (h h' : hist) (corr_target : P) (taken : bool) : Prop :=
  seqNum h' = seqNum h /\ pc h' = pc h /\ inst h' = inst h /\ predTaken h' = predTaken h /\
  actuallyTaken h' = taken /\ mispredict h' = true /\ target h' = Some corr_target.

Lemma correct_front tid ct taken e s u h ph : unit_inv u -> 0 <= tid < T -> 0 <= ind_rnd e ->
  predHist u !! Z.to_nat tid = Some (h :: ph) ->
  exists u' h', correct_branch s ct taken tid e h ph u = Ok u' /\
    unit_inv u' /\ corrected h h' ct taken /\ predHist u' = <[Z.to_nat tid := h' :: ph]> (predHist u).
Proof.
  intros Hu Ht Hrnd Hph. pose proof Hu as (Hc & Hl & Hf). unfold correct_branch.
  destruct (Forall_lookup_1 _ _ _ _ Hf Hph) as [Hall Hsort]. apply Forall_cons in Hall as [(Hpc & Hb & Hi & Hr) Hall].
  destruct (dl_update tid (pc h) taken true (dir u) _ (ci_dir u Hc) (ci_tid u Hc tid Ht) Hpc Hb)
    as (bh & d' & -> & Hd' & Hs & ->). rewrite bind_Ok.
  destruct (ind_correct_spec tid s (pc h) taken ct (type h) (ind_rnd e) _ _ Ht (ci_ind u Hc) Hi Hpc Hrnd)
    as (ih' & ip' & -> & Hi' & Hif' & Hik). rewrite bind_Ok.
  assert (exists rh' r', match ras u with
      | Some r => let! hr := correct_ras tid h ct taken r in Ok (hr.1, Some hr.2)
      | None => Ok (rasHistory h, None) end = Ok (rh', r') /\ ras_inv r' /\
      ras_fits (flags (inst h)) rh' r' /\ same_kind (ras u) r') as (rh' & r' & -> & Hr' & Hrf' & Hrk).
  { pose proof (ci_ras u Hc) as Hri. destruct (ras u) as [r|]; [|by eexists _, _].
    destruct (correct_ras_spec tid h ct taken r Ht Hri Hr) as (rh' & r' & -> & Hr' & Hrf').
    rewrite bind_Ok. by eexists _, _. }
  rewrite bind_Ok. match goal with |- context [if ?c then btb_update _ _ _ _ _ _ _ _ else _] =>
    assert (exists b', (if c then btb_update (now e) (btb_rnd e) tid (pc h) ct (type h) (inst h) (btb u) else Ok (btb u)) = Ok b' /\ bl_wf T b')
      as (b' & -> & Hb') end.
  { destruct (_ && _); [apply (bl_update (now e) (btb_rnd e) T tid (pc h) ct (type h) (inst h) (btb u) (ci_btb u Hc) Ht Hpc)|].
    exists (btb u). split; [done|apply (ci_btb u Hc)]. }
  rewrite bind_Ok. cbn [fst snd]. cbv zeta. rewrite vset_Ok, bind_Ok by lia.
  set (h' := mkHist _ _ _ _ _ _ _ _ _ _ _ _ _). set (u1 := mk (requiresBTBHit u) (predHist u) d' b' r' ip').
  assert (Hu1 : core_inv u1) by (split; cbn; try done; by eapply dir_step).
  assert (Hcm : compat u u1) by (split; [by cbn; rewrite Hs|done]).
  exists (with_hist (<[Z.to_nat tid := h' :: ph]> (predHist u1)) u1), h'.
  split; [done|]. split; [|split; [done|done]]. apply (unit_inv_set u u1); try done. split.
  - constructor; [split; [done|]; split; [|done]|].
    + eapply dl_hist_shape; [|exact Hb]. by cbn; rewrite Hs.
    + eapply Forall_impl; [exact Hall|]. intros x Hx. by apply (hist_ok_compat u u1).
  - apply StronglySorted_inv in Hsort as [Hsort Hlt]. by constructor.
Qed.

(** ** The theorems *)

(** C22: Predicting a branch of a well-formed unit succeeds, with no assertion
    failing and no table read out of range, and keeps the unit well formed; the
    branch becomes the youngest of its thread, with the predicted direction and
    the next program counter in its record. *)
Theorem bpred_predict_correct i sn pc0 tid e u ph : unit_inv u -> 0 <= tid < T ->
  predHist u !! Z.to_nat tid = Some ph -> Forall (fun h => seqNum h < sn) ph ->
  exists taken pc' h u', predict i sn pc0 tid e u = Ok (taken, pc', u') /\ unit_inv u' /\
    predHist u' = <[Z.to_nat tid := h :: ph]> (predHist u) /\
    seqNum h = sn /\ pc h = instAddr pc0 /\ predTaken h = taken /\ target h = Some pc'.
Proof.
  intros Hu Ht Hph Hs. destruct (predict_spec i sn pc0 tid e u ph Hu Ht Hph Hs)
    as (taken & pc' & h & u' & E & Hu' & _ & Hp & Hfields & _).
  exists taken, pc', h, u'. done.
Qed.

(** Committing up to a sequence number trains the predictors, removes exactly
    the branches up to that number from the thread and leaves no history
    behind (the destructor of each record would fail otherwise). *)
Theorem bpred_commit_correct done_sn tid u ph : unit_inv u -> 0 <= tid < T ->
  predHist u !! Z.to_nat tid = Some ph ->
  exists u', update done_sn tid u = Ok u' /\ unit_inv u' /\
    predHist u' = <[Z.to_nat tid := filter (fun h => done_sn < seqNum h) ph]> (predHist u).
Proof.
  intros Hu Ht Hph. pose proof Hu as (Hc & Hl & Hf). unfold update.
  rewrite (vget_lookup _ _ ph), bind_Ok by (done || lia). destruct (Forall_lookup_1 _ _ _ _ Hf Hph) as [Hok Hs].
  destruct (commit_loop_spec done_sn tid (rev ph) u Hc Ht) as (u' & -> & Hu' & Hc' & Hp').
  - apply Forall_forall. intros x Hx. apply (proj1 (Forall_forall _ _) Hok). by apply elem_of_rev.
  - apply StronglySorted_rev'. done.
  - rewrite bind_Ok. cbn [fst snd]. rewrite vset_Ok, bind_Ok by (rewrite Hp'; lia). eexists. split; [done|].
    rewrite filter_rev, rev_involutive. split; [|by cbn; rewrite Hp'].
    apply (unit_inv_set u); try done. apply thread_ok_filter. by eapply thread_ok_compat.
Qed.

(** C29: Squashing removes exactly the branches after the given sequence number. *)
Theorem bpred_squash_correct s tid u ph : unit_inv u -> 0 <= tid < T -> predHist u !! Z.to_nat tid = Some ph ->
  exists u', squash s tid u = Ok u' /\ unit_inv u' /\
    predHist u' = <[Z.to_nat tid := filter (fun h => seqNum h <= s) ph]> (predHist u).
Proof.
  intros Hu Ht Hph. destruct (squash_spec s tid u ph Hu Ht Hph) as (u' & E & Hu' & _ & Hp). by exists u'.
Qed.

(** The squash that corrects a misprediction removes the younger branches and
    records the outcome and the target in the youngest one left, if any. *)
Theorem bpred_mispredict_correct s ct taken tid e u ph : unit_inv u -> 0 <= tid < T -> 0 <= ind_rnd e ->
  predHist u !! Z.to_nat tid = Some ph ->
  exists u', squash_correct s ct taken tid e u = Ok u' /\ unit_inv u' /\
    match filter (fun h => seqNum h <= s) ph with
    | [] => predHist u' = <[Z.to_nat tid := []]> (predHist u)
    | h :: rest => exists h', corrected h h' ct taken /\
        predHist u' = <[Z.to_nat tid := h' :: rest]> (predHist u)
    end.
Proof.
  intros Hu Ht Hr Hph. destruct (squash_spec s tid u ph Hu Ht Hph) as (u1 & E & Hu1 & _ & Hp1).
  pose proof Hu as (_ & Hlen & _). unfold squash_correct. rewrite E, bind_Ok.
  assert (Hl : predHist u1 !! Z.to_nat tid = Some (filter (fun h => seqNum h <= s) ph)).
  { rewrite Hp1, list_lookup_insert_eq by lia. done. }
  rewrite (vget_lookup _ _ _ (proj1 Ht) Hl), bind_Ok. revert Hl Hp1.
  destruct (filter _ ph) as [|h rest]; intros Hl Hp1; [by exists u1|].
  destruct (correct_front tid ct taken e s u1 h rest Hu1 Ht Hr Hl) as (u' & h' & -> & Hu' & Hcor & Hp').
  exists u'. split; [done|]. split; [done|]. exists h'. split; [done|]. by rewrite Hp', Hp1, list_insert_insert_eq.
Qed.

(** C9: Recovery: predict any number of branches, then squash back to before the
    first of them. The records of the thread are the ones it had, the direction
    predictor is in a state equivalent to the one before (and so predicts the
    same), the indirect predictor is exactly as before, and the return address
    stack has its position back and all entries from the top down, less one for
    each call predicted in between. *)
Theorem bpred_speculation_undone tid l u s ph : unit_inv u -> 0 <= tid < T ->
  predHist u !! Z.to_nat tid = Some ph -> Forall (fun h => seqNum h <= s) ph -> increasing s l ->
  exists u1 u2, predicts tid l u = Ok u1 /\ squash s tid u1 = Ok u2 /\ unit_inv u2 /\
    predHist u2 = predHist u /\ dl_equiv (dir u2) (dir u) /\ iPred u2 = iPred u /\
    ras_rel (Z.to_nat n - call_count l) tid (ras u2) (ras u).
Proof.
  intros Hu Ht Hph Hs Hinc. destruct (squash_predicts tid l u s ph Hu Ht Hph Hs Hinc)
    as (u1 & u2 & E1 & E2 & Hu2 & Hp & Hd & Hi & _ & Hr).
  exists u1, u2. done.
Qed.

End Laws.
