(* ===== verification/Replacement.v ===== *)
(** * Cache replacement policies

    Model of the policies under src/gem5/src/mem/cache/replacement_policies that
    keep their data per entry: lru_rp, bip_rp, weighted_lru_rp, mru_rp, fifo_rp,
    second_chance_rp, lfu_rp, random_rp and brrip_rp, behind the interface of
    base.hh. The tree policy is in TreePLRU. *)

From S2P Require Import Prelude Bits SatCounter.

(** The interface: [G] is the state of the policy object and [D] the data of one
    entry. [tick] stands for [curTick()] and [rnd] for what the random number
    generator returns. [getVictim] returns the position of the victim among the
    candidates and the data of the candidates after the search. *)
Class ReplPolicy (G D : Type) := {
  rp_instantiateEntry : G -> result (D * G);
  rp_invalidate : D -> G -> result (D * G);
  rp_touch : Z -> D -> G -> result (D * G);
  rp_reset : Z -> Z -> D -> G -> result (D * G);
  rp_getVictim : Z -> list D -> G -> result (nat * list D * G);
}.

(** The loop over the candidates shared by several policies: [i] is the position
    of the head of [cs], and [better c v] replaces the victim [v] by [c]. *)
Fixpoint scan {D} (better : D -> D -> bool) (cs : list D) (i : nat) (victim : nat * D) : nat * D :=
  match cs with
  | [] => victim
  | c :: cs => scan better cs (S i) (if better c victim.2 then (i, c) else victim)
  end.

(** [candidates[0]], after the assertion that there is one. *)
Definition first {D} (cs : list D) : result D :=
  match cs with [] => Err AssertFail | c :: _ => Ok c end.

(** The first candidate with a property. *)
Fixpoint find_from {D} (f : D -> bool) (cs : list D) (i : nat) : option nat :=
  match cs with [] => None | c :: cs => if f c then Some i else find_from f cs (S i) end.

(** ** Least recently used *)
Module LRU.
Record data := mk { lastTouchTick : Z }.

Definition instantiateEntry (g : unit) : result (data * unit) := Ok (mk 0, g).
Definition invalidate (d : data) (g : unit) : result (data * unit) := Ok (mk 0, g).
Definition touch (tick : Z) (d : data) (g : unit) : result (data * unit) := Ok (mk tick, g).
Definition reset (tick rnd : Z) (d : data) (g : unit) : result (data * unit) := Ok (mk tick, g).

Definition older (c v : data) : bool := lastTouchTick c <? lastTouchTick v.
Definition getVictim (rnd : Z) (cs : list data) (g : unit) : result (nat * list data * unit) :=
  let! c0 := first cs in
  Ok ((scan older cs 0 (0%nat, c0)).1, cs, g).
End LRU.

(** ** Bimodal insertion: [btp] is the probability, in percent, of an insertion
    as most recently used; [rnd] is drawn from 1 to 100. *)
Module BIP.
Definition reset (tick rnd : Z) (d : LRU.data) (btp : Z) : result (LRU.data * Z) :=
  Ok (LRU.mk (if rnd <=? btp then tick else 1), btp).
Definition lift {A} (r : result (A * unit)) (btp : Z) : result (A * Z) := let! x := r in Ok (x.1, btp).
End BIP.

(** ** Weighted LRU *)
Module WeightedLRU.
Record data := mk { lastTouchTick : Z; last_occ_ptr : Z }.

Definition instantiateEntry (g : unit) : result (data * unit) := Ok (mk 0 0, g).
Definition invalidate (d : data) (g : unit) : result (data * unit) := Ok (mk 0 (last_occ_ptr d), g).
Definition touch (tick : Z) (d : data) (g : unit) : result (data * unit) := Ok (mk tick (last_occ_ptr d), g).
Definition touch_occupancy (tick occupancy : Z) (d : data) (g : unit) : result (data * unit) :=
  Ok (mk tick occupancy, g).
Definition reset (tick rnd : Z) (d : data) (g : unit) : result (data * unit) := Ok (mk tick (last_occ_ptr d), g).

Definition lighter (c v : data) : bool :=
  if last_occ_ptr c <? last_occ_ptr v then true
  else if last_occ_ptr c =? last_occ_ptr v then lastTouchTick c <? lastTouchTick v
  else false.
Definition getVictim (rnd : Z) (cs : list data) (g : unit) : result (nat * list data * unit) :=
  let! c0 := first cs in
  Ok ((scan lighter cs 0 (0%nat, c0)).1, cs, g).
End WeightedLRU.

(** ** Most recently used *)
Module MRU.
Record data := mk { lastTouchTick : Z }.

Definition instantiateEntry (g : unit) : result (data * unit) := Ok (mk 0, g).
Definition invalidate (d : data) (g : unit) : result (data * unit) := Ok (mk 0, g).
Definition touch (tick : Z) (d : data) (g : unit) : result (data * unit) := Ok (mk tick, g).
Definition reset (tick rnd : Z) (d : data) (g : unit) : result (data * unit) := Ok (mk tick, g).

(** The loop stops at an entry that was never touched. *)
Fixpoint search (cs : list data) (i : nat) (victim : nat * data) : nat * data :=
  match cs with
  | [] => victim
  | c :: cs =>
      if lastTouchTick c =? 0 then (i, c)
      else search cs (S i) (if lastTouchTick victim.2 <? lastTouchTick c then (i, c) else victim)
  end.
Definition getVictim (rnd : Z) (cs : list data) (g : unit) : result (nat * list data * unit) :=
  let! c0 := first cs in
  Ok ((search cs 0 (0%nat, c0)).1, cs, g).
End MRU.

(** ** First in, first out: the state is the counter [timeTicks], which the
    constructor of the class does not initialise. *)
Module FIFO.
Record data := mk { tickInserted : Z }.

Definition instantiateEntry (timeTicks : Z) : result (data * Z) := Ok (mk 0, timeTicks).
Definition invalidate (d : data) (timeTicks : Z) : result (data * Z) :=
  let timeTicks := u64 (timeTicks + 1) in Ok (mk timeTicks, timeTicks).
Definition touch (tick : Z) (d : data) (timeTicks : Z) : result (data * Z) := Ok (d, timeTicks).
Definition reset (tick rnd : Z) (d : data) (timeTicks : Z) : result (data * Z) :=
  let timeTicks := u64 (timeTicks + 1) in Ok (mk timeTicks, timeTicks).

Definition older (c v : data) : bool := tickInserted c <? tickInserted v.
Definition getVictim (rnd : Z) (cs : list data) (timeTicks : Z) : result (nat * list data * Z) :=
  let! c0 := first cs in
  Ok ((scan older cs 0 (0%nat, c0)).1, cs, timeTicks).
End FIFO.

(** ** Second chance, a FIFO whose entries may be inserted again once *)
Module SecondChance.
Record data := mk { tickInserted : Z; hasSecondChance : bool }.

Definition instantiateEntry (timeTicks : Z) : result (data * Z) := Ok (mk 0 false, timeTicks).
Definition useSecondChance (d : data) (timeTicks : Z) : data * Z :=
  let timeTicks := u64 (timeTicks + 1) in (mk timeTicks false, timeTicks).
Definition invalidate (d : data) (timeTicks : Z) : result (data * Z) :=
  let timeTicks := u64 (timeTicks + 1) in Ok (mk timeTicks false, timeTicks).
Definition touch (tick : Z) (d : data) (timeTicks : Z) : result (data * Z) :=
  Ok (mk (tickInserted d) true, timeTicks).
Definition reset (tick rnd : Z) (d : data) (timeTicks : Z) : result (data * Z) :=
  let timeTicks := u64 (timeTicks + 1) in Ok (mk timeTicks false, timeTicks).

Definition older (c v : data) : bool := tickInserted c <? tickInserted v.
Definition invalid (d : data) : bool := (tickInserted d =? 0) && negb (hasSecondChance d).

(** The loop [while (search_victim)], with a bound on its rounds. *)
Fixpoint search (fuel : nat) (cs : list data) (timeTicks : Z) : result (nat * list data * Z) :=
  match fuel with
  | O => Err OutOfFuel
  | S fuel =>
      let! c0 := first cs in
      let '(i, v) := scan older cs 0 (0%nat, c0) in
      if hasSecondChance v then
        let '(v, timeTicks) := useSecondChance v timeTicks in
        search fuel (<[i := v]> cs) timeTicks
      else Ok (i, cs, timeTicks)
  end.

(** Every round uses up a second chance. *)
Definition getVictim (rnd : Z) (cs : list data) (timeTicks : Z) : result (nat * list data * Z) :=
  let! _ := first cs in
  match find_from invalid cs 0 with
  | Some i => Ok (i, cs, timeTicks)
  | None => search (S (length cs)) cs timeTicks
  end.
End SecondChance.

(** ** Least frequently used *)
Module LFU.
Record data := mk { refCount : Z }.

Definition instantiateEntry (g : unit) : result (data * unit) := Ok (mk 0, g).
Definition invalidate (d : data) (g : unit) : result (data * unit) := Ok (mk 0, g).
Definition touch (tick : Z) (d : data) (g : unit) : result (data * unit) := Ok (mk (u32 (refCount d + 1)), g).
Definition reset (tick rnd : Z) (d : data) (g : unit) : result (data * unit) := Ok (mk 1, g).

Definition rarer (c v : data) : bool := refCount c <? refCount v.
Definition getVictim (rnd : Z) (cs : list data) (g : unit) : result (nat * list data * unit) :=
  let! c0 := first cs in
  Ok ((scan rarer cs 0 (0%nat, c0)).1, cs, g).
End LFU.

(** ** Random: [rnd] is drawn from 0 to the number of candidates less one *)
Module RandomRP.
Record data := mk { valid : bool }.

Definition instantiateEntry (g : unit) : result (data * unit) := Ok (mk false, g).
Definition invalidate (d : data) (g : unit) : result (data * unit) := Ok (mk false, g).
Definition touch (tick : Z) (d : data) (g : unit) : result (data * unit) := Ok (d, g).
Definition reset (tick rnd : Z) (d : data) (g : unit) : result (data * unit) := Ok (mk true, g).

Definition getVictim (rnd : Z) (cs : list data) (g : unit) : result (nat * list data * unit) :=
  let! _ := first cs in
  let! _ := vget cs rnd in
  Ok (default (Z.to_nat rnd) (find_from (fun d => negb (valid d)) cs 0), cs, g).
End RandomRP.

(** ** Bimodal re-reference interval prediction *)
Module BRRIP.
Record data := mk { rrpv : SatCounter.t; valid : bool }.
Record policy := mkPolicy { numRRPVBits : Z; hitPriority : bool; btp : Z }.

Definition new (num_bits : Z) (hit_priority : bool) (btp : Z) : result policy :=
  let! _ := check Fatal (negb (num_bits <=? 0)) in Ok (mkPolicy num_bits hit_priority btp).

Definition instantiateEntry (g : policy) : result (data * policy) :=
  let! c := SatCounter.new 8 (numRRPVBits g) 0 in Ok (mk c false, g).
Definition invalidate (d : data) (g : policy) : result (data * policy) := Ok (mk (rrpv d) false, g).
Definition touch (tick : Z) (d : data) (g : policy) : result (data * policy) :=
  Ok (mk (if hitPriority g then SatCounter.reset (rrpv d) else SatCounter.decr (rrpv d)) (valid d), g).
Definition reset (tick rnd : Z) (d : data) (g : policy) : result (data * policy) :=
  let r := (SatCounter.saturate (rrpv d)).2 in
  Ok (mk (if rnd <=? btp g then SatCounter.decr r else r) true, g).

(** The search: the first invalid entry ends it. *)
Fixpoint search (cs : list data) (i : nat) (victim : nat * data) : nat * data * bool :=
  match cs with
  | [] => (victim, false)
  | c :: cs =>
      if negb (valid c) then (i, c, true)
      else search cs (S i) (if SatCounter.counter (rrpv victim.2) <? SatCounter.counter (rrpv c)
                            then (i, c) else victim)
  end.

(** [rrpv += diff]. *)
Definition age (diff : Z) (d : data) : result data :=
  let! r := SatCounter.add_assign (rrpv d) diff in Ok (mk r (valid d)).

Definition getVictim (rnd : Z) (cs : list data) (g : policy) : result (nat * list data * policy) :=
  let! c0 := first cs in
  let '(i, v, found) := search cs 0 (0%nat, c0) in
  if (found : bool) then Ok (i, cs, g)
  else
    let '(diff, r) := SatCounter.saturate (rrpv v) in
    let cs := <[i := mk r (valid v)]> cs in
    if 0 <? diff then let! cs := mapM_r (age diff) cs in Ok (i, cs, g) else Ok (i, cs, g).
End BRRIP.

#[export] Instance LRU_policy : ReplPolicy unit LRU.data := {|
  rp_instantiateEntry := LRU.instantiateEntry; rp_invalidate := LRU.invalidate; rp_touch := LRU.touch;
  rp_reset := LRU.reset; rp_getVictim := LRU.getVictim |}.
#[export] Instance BIP_policy : ReplPolicy Z LRU.data := {|
  rp_instantiateEntry btp := BIP.lift (LRU.instantiateEntry tt) btp;
  rp_invalidate d btp := BIP.lift (LRU.invalidate d tt) btp;
  rp_touch tick d btp := BIP.lift (LRU.touch tick d tt) btp;
  rp_reset := BIP.reset;
  rp_getVictim rnd cs btp := BIP.lift (LRU.getVictim rnd cs tt) btp |}.
#[export] Instance WeightedLRU_policy : ReplPolicy unit WeightedLRU.data := {|
  rp_instantiateEntry := WeightedLRU.instantiateEntry; rp_invalidate := WeightedLRU.invalidate;
  rp_touch := WeightedLRU.touch; rp_reset := WeightedLRU.reset; rp_getVictim := WeightedLRU.getVictim |}.
#[export] Instance MRU_policy : ReplPolicy unit MRU.data := {|
  rp_instantiateEntry := MRU.instantiateEntry; rp_invalidate := MRU.invalidate; rp_touch := MRU.touch;
  rp_reset := MRU.reset; rp_getVictim := MRU.getVictim |}.
#[export] Instance FIFO_policy : ReplPolicy Z FIFO.data := {|
  rp_instantiateEntry := FIFO.instantiateEntry; rp_invalidate := FIFO.invalidate; rp_touch := FIFO.touch;
  rp_reset := FIFO.reset; rp_getVictim := FIFO.getVictim |}.
#[export] Instance SecondChance_policy : ReplPolicy Z SecondChance.data := {|
  rp_instantiateEntry := SecondChance.instantiateEntry; rp_invalidate := SecondChance.invalidate;
  rp_touch := SecondChance.touch; rp_reset := SecondChance.reset; rp_getVictim := SecondChance.getVictim |}.
#[export] Instance LFU_policy : ReplPolicy unit LFU.data := {|
  rp_instantiateEntry := LFU.instantiateEntry; rp_invalidate := LFU.invalidate; rp_touch := LFU.touch;
  rp_reset := LFU.reset; rp_getVictim := LFU.getVictim |}.
#[export] Instance RandomRP_policy : ReplPolicy unit RandomRP.data := {|
  rp_instantiateEntry := RandomRP.instantiateEntry; rp_invalidate := RandomRP.invalidate;
  rp_touch := RandomRP.touch; rp_reset := RandomRP.reset; rp_getVictim := RandomRP.getVictim |}.
#[export] Instance BRRIP_policy : ReplPolicy BRRIP.policy BRRIP.data := {|
  rp_instantiateEntry := BRRIP.instantiateEntry; rp_invalidate := BRRIP.invalidate; rp_touch := BRRIP.touch;
  rp_reset := BRRIP.reset; rp_getVictim := BRRIP.getVictim |}.
