(* ===== verification/ReplLaws.v ===== *)
(** * Replacement policies: laws and victims

    [ReplLaws] is what a cache relies on in a replacement policy: no operation
    fails, and the victim is one of the candidates. Beyond that, the theorems
    say which candidate each policy chooses. *)

From S2P Require Import Prelude Bits SatCounter Replacement.
Import SatCounter.SatCounter.

Class ReplLaws (G D : Type) `{ReplPolicy G D} := {
  (** The data of a set of candidates, and the growth of the policy state. *)
  rl_set : G -> list D -> Prop;
  rl_le : relation G;
  rl_le_preorder :: PreOrder rl_le;
  rl_set_mono g g' ds : rl_le g g' -> rl_set g ds -> rl_set g' ds;
  rl_invalidate g ds i d : rl_set g ds -> ds !! i = Some d ->
    exists (d' : D) (g' : G), rp_invalidate d g = Ok (d', g') /\ rl_le g g' /\ rl_set g' (<[i := d']> ds);
  rl_touch tick g ds i d : rl_set g ds -> ds !! i = Some d ->
    exists (d' : D) (g' : G), rp_touch tick d g = Ok (d', g') /\ rl_le g g' /\ rl_set g' (<[i := d']> ds);
  rl_reset tick rnd g ds i d : rl_set g ds -> ds !! i = Some d ->
    exists (d' : D) (g' : G), rp_reset tick rnd d g = Ok (d', g') /\ rl_le g g' /\ rl_set g' (<[i := d']> ds);
  rl_victim rnd g ds : rl_set g ds -> 0 <= rnd < Z.of_nat (length ds) ->
    exists (v : nat) (ds' : list D) (g' : G), rp_getVictim rnd ds g = Ok (v, ds', g') /\
      (v < length ds)%nat /\ length ds' = length ds /\ rl_le g g' /\ rl_set g' ds';
}.

(** ** The scan for the best candidate *)
Section Scan.
Context {D : Type} (key : D -> Z) (better : D -> D -> bool).
Hypothesis Hbetter : forall c v, better c v = (key c <? key v).

(** [v] is the first of the candidates with the least key. *)
Definition first_least (cs : list D) (i : nat) (v : D) : Prop :=
  cs !! i = Some v /\ forall j c, cs !! j = Some c -> key v <= key c /\ ((j < i)%nat -> key v < key c).

Lemma scan_least pre cs i v : first_least pre i v ->
  first_least (pre ++ cs) (scan better cs (length pre) (i, v)).1 (scan better cs (length pre) (i, v)).2.
Proof.
  revert pre i v. induction cs as [|c cs IH]; intros pre i v Hv; cbn [scan]; [by rewrite app_nil_r|].
  rewrite Hbetter. cbn [snd].
  replace (pre ++ c :: cs) with ((pre ++ [c]) ++ cs) by by rewrite <- app_assoc.
  replace (S (length pre)) with (length (pre ++ [c])) by (rewrite length_app; cbn; lia).
  destruct Hv as [Hi Hv]. assert (Hlt := lookup_lt_Some _ _ _ Hi).
  destruct (Z.ltb_spec (key c) (key v)); apply IH.
  - split; [by rewrite lookup_app_r, Nat.sub_diag by lia|]. intros j x Hx.
    apply lookup_app_Some in Hx as [Hx|[Hl Hx]].
    + apply Hv in Hx as [Hx _]. lia.
    + apply list_lookup_singleton_Some in Hx as [Hj <-]. split; [lia|]. lia.
  - split; [by rewrite lookup_app_l|]. intros j x Hx. apply lookup_app_Some in Hx as [Hx|[Hl Hx]]; [by apply Hv|].
    apply list_lookup_singleton_Some in Hx as [Hj <-]. split; [lia|]. lia.
Qed.

Lemma scan_first_least c0 cs :
  first_least (c0 :: cs) (scan better (c0 :: cs) 0 (0%nat, c0)).1 (scan better (c0 :: cs) 0 (0%nat, c0)).2.
Proof.
  cbn [scan]. rewrite Hbetter. cbn [snd]. rewrite Z.ltb_irrefl.
  apply (scan_least [c0]). split; [done|]. intros j c Hj.
  apply list_lookup_singleton_Some in Hj as [-> <-]. split; lia.
Qed.
End Scan.

Lemma scan_lookup {D} (better : D -> D -> bool) pre cs i v : pre !! i = Some v ->
  (pre ++ cs) !! (scan better cs (length pre) (i, v)).1 = Some (scan better cs (length pre) (i, v)).2.
Proof.
  revert pre i v. induction cs as [|c cs IH]; intros pre i v Hi; cbn [scan]; [by rewrite app_nil_r|].
  replace (pre ++ c :: cs) with ((pre ++ [c]) ++ cs) by by rewrite <- app_assoc.
  replace (S (length pre)) with (length (pre ++ [c])) by (rewrite length_app; cbn; lia).
  assert (Hlt := lookup_lt_Some _ _ _ Hi). destruct (better c _); apply IH.
  - by rewrite lookup_app_r, Nat.sub_diag by lia.
  - by rewrite lookup_app_l.
Qed.

(** Every scan ends at a candidate. *)
Lemma scan_candidate {D} (better : D -> D -> bool) c0 cs i v :
  scan better (c0 :: cs) 0 (0%nat, c0) = (i, v) -> (c0 :: cs) !! i = Some v.
Proof.
  intros E. cbn [scan] in E. assert ((if better c0 c0 then (0%nat, c0) else (0%nat, c0)) = (0%nat, c0)) as E0
    by (by destruct (better c0 c0)). cbn [snd] in E. rewrite E0 in E.
  pose proof (scan_lookup better [c0] cs 0 c0 eq_refl) as Hl. change (length [c0]) with 1%nat in Hl.
  by rewrite E in Hl.
Qed.

(** ** Policies without a state and without failures *)
Section Simple.
Context {G D : Type} `{ReplPolicy G D} (ok : G -> D -> Prop).
Hypothesis Hmono : forall g g' d, ok g d -> ok g' d.
Hypothesis Hinv : forall g d, ok g d -> exists d' g', rp_invalidate d g = Ok (d', g') /\ ok g' d'.
Hypothesis Htouch : forall t g d, ok g d -> exists d' g', rp_touch t d g = Ok (d', g') /\ ok g' d'.
Hypothesis Hreset : forall t r g d, ok g d -> exists d' g', rp_reset t r d g = Ok (d', g') /\ ok g' d'.
Hypothesis Hvictim : forall r g ds, Forall (ok g) ds -> 0 <= r < Z.of_nat (length ds) ->
  exists v ds' g', rp_getVictim r ds g = Ok (v, ds', g') /\ (v < length ds)%nat /\ length ds' = length ds /\
    Forall (ok g') ds'.

Lemma simple_step g g' ds i d' : Forall (ok g) ds -> ok g' d' -> Forall (ok g') (<[i := d']> ds).
Proof. intros Hf Hd. apply Forall_insert; [|done]. eapply Forall_impl; [done|]. intros x. apply Hmono. Qed.

Definition simple_laws : ReplLaws G D.
Proof.
  refine {| rl_set g ds := Forall (ok g) ds; rl_le _ _ := True |}.
  - by split.
  - intros g g' ds _ Hf. eapply Forall_impl; [done|]. intros x. apply Hmono.
  - intros g ds i d Hf Hd. destruct (Hinv g d (Forall_lookup_1 _ _ _ _ Hf Hd)) as (d' & g' & E & Hok).
    exists d', g'. split; [done|]. split; [done|]. by eapply simple_step.
  - intros t g ds i d Hf Hd. destruct (Htouch t g d (Forall_lookup_1 _ _ _ _ Hf Hd)) as (d' & g' & E & Hok).
    exists d', g'. split; [done|]. split; [done|]. by eapply simple_step.
  - intros t r g ds i d Hf Hd. destruct (Hreset t r g d (Forall_lookup_1 _ _ _ _ Hf Hd)) as (d' & g' & E & Hok).
    exists d', g'. split; [done|]. split; [done|]. by eapply simple_step.
  - intros r g ds Hf Hr. destruct (Hvictim r g ds Hf Hr) as (v & ds' & g' & E & Hv & Hl & Hf').
    by exists v, ds', g'.
Defined.
End Simple.

Lemma scan_victim {D} (better : D -> D -> bool) cs r : 0 <= r < Z.of_nat (length cs) ->
  exists c0, first cs = Ok c0 /\ ((scan better cs 0 (0%nat, c0)).1 < length cs)%nat.
Proof.
  intros Hr. destruct cs as [|c0 cs]; [cbn in Hr; lia|]. exists c0. split; [done|].
  destruct (scan better (c0 :: cs) 0 (0%nat, c0)) as [i v] eqn:E. apply scan_candidate in E.
  by apply lookup_lt_Some in E.
Qed.

Lemma Forall_True {A} (l : list A) : Forall (fun _ => True) l.
Proof. by induction l; constructor. Qed.

(** Policies whose data is never malformed and whose victim comes from a scan. *)
Ltac scan_laws better :=
  apply (simple_laws (fun _ _ => True)); try done; try (intros; by do 2 eexists);
  [let r := fresh "r" in let g := fresh "g" in let ds := fresh "ds" in let Hr := fresh "Hr" in
   intros r g ds _ Hr; destruct (scan_victim better ds r Hr) as (c0 & E & Hv);
   exists (scan better ds 0 (0%nat, c0)).1, ds, g; cbn -[scan];
   unfold LRU.getVictim, WeightedLRU.getVictim, FIFO.getVictim, LFU.getVictim; rewrite E;
   split; [done|]; split; [done|]; split; [done|]; apply Forall_True].

#[export] Instance LRU_laws : ReplLaws unit LRU.data.
Proof. scan_laws LRU.older. Defined.
#[export] Instance BIP_laws : ReplLaws Z LRU.data.
Proof. scan_laws LRU.older. Defined.
#[export] Instance WeightedLRU_laws : ReplLaws unit WeightedLRU.data.
Proof. scan_laws WeightedLRU.lighter. Defined.
#[export] Instance FIFO_laws : ReplLaws Z FIFO.data.
Proof. scan_laws FIFO.older. Defined.
#[export] Instance LFU_laws : ReplLaws unit LFU.data.
Proof. scan_laws LFU.rarer. Defined.

Lemma find_from_Some {D} (f : D -> bool) cs i k : find_from f cs i = Some k ->
  exists j c, k = (i + j)%nat /\ cs !! j = Some c /\ f c = true /\
    forall j' c', (j' < j)%nat -> cs !! j' = Some c' -> f c' = false.
Proof.
  revert i. induction cs as [|c cs IH]; intros i E; cbn in E; [done|]. destruct (f c) eqn:Ef.
  - injection E as <-. exists 0%nat, c. split; [lia|]. split; [done|]. split; [done|]. lia.
  - apply IH in E as (j & c1 & -> & Hj & Hf & Hlt). exists (S j), c1. split; [lia|]. split; [done|].
    split; [done|]. intros [|j'] c' Hlt' Hc'; cbn in Hc'; [congruence|]. eapply Hlt; [|done]. lia.
Qed.

Lemma find_from_None {D} (f : D -> bool) cs i : find_from f cs i = None -> Forall (fun c => f c = false) cs.
Proof.
  revert i. induction cs as [|c cs IH]; intros i E; cbn in E; [constructor|].
  destruct (f c) eqn:Ef; [done|]. constructor; [done|]. by eapply IH.
Qed.

(** The search of the random policy and of MRU. *)
Lemma mru_search_candidate pre cs i v : pre !! i = Some v ->
  (pre ++ cs) !! (MRU.search cs (length pre) (i, v)).1 = Some (MRU.search cs (length pre) (i, v)).2.
Proof.
  revert pre i v. induction cs as [|c cs IH]; intros pre i v Hi; cbn [MRU.search]; [by rewrite app_nil_r|].
  destruct (MRU.lastTouchTick c =? 0); [cbn; by rewrite lookup_app_r, Nat.sub_diag by lia|].
  replace (pre ++ c :: cs) with ((pre ++ [c]) ++ cs) by by rewrite <- app_assoc.
  replace (S (length pre)) with (length (pre ++ [c])) by (rewrite length_app; cbn; lia).
  assert (Hlt := lookup_lt_Some _ _ _ Hi). destruct (_ <? _); apply IH.
  - by rewrite lookup_app_r, Nat.sub_diag by lia.
  - by rewrite lookup_app_l.
Qed.

Lemma mru_search_lt c0 cs : ((MRU.search (c0 :: cs) 0 (0%nat, c0)).1 < length (c0 :: cs))%nat.
Proof.
  cbn [MRU.search]. destruct (_ =? 0); [cbn; lia|]. cbn [snd]. rewrite Z.ltb_irrefl.
  pose proof (mru_search_candidate [c0] cs 0 c0 eq_refl) as Hl. by apply lookup_lt_Some in Hl.
Qed.

#[export] Instance MRU_laws : ReplLaws unit MRU.data.
Proof.
  apply (simple_laws (fun _ _ => True)); try done; try (intros; by do 2 eexists).
  intros r g ds _ Hr. destruct ds as [|c0 ds]; [cbn in Hr; lia|].
  eexists _, _, _. split; [done|]. split; [apply mru_search_lt|]. split; [done|apply Forall_True].
Defined.

#[export] Instance RandomRP_laws : ReplLaws unit RandomRP.data.
Proof.
  apply (simple_laws (fun _ _ => True)); try done; try (intros; by do 2 eexists).
  intros r g ds _ Hr. cbn. unfold RandomRP.getVictim. destruct ds as [|c0 ds]; [cbn in Hr; lia|].
  destruct (vget_Ok (c0 :: ds) r Hr) as (x & E & _). cbn [first rbind]. rewrite E, bind_Ok.
  eexists _, _, _. split; [done|]. split; [|split; [done|apply Forall_True]].
  destruct (find_from _ _ 0) as [k|] eqn:Ef; cbn [default]; [|lia].
  apply find_from_Some in Ef as (j & c & -> & Hj & _). by apply lookup_lt_Some in Hj.
Defined.

(** ** Second chance *)
Section SecondChanceLaws.
Import SecondChance.

Definition chances (cs : list data) : nat := length (filter (fun c => hasSecondChance c = true) cs).

Lemma chances_insert cs i v v' : cs !! i = Some v -> hasSecondChance v = true -> hasSecondChance v' = false ->
  S (chances (<[i := v']> cs)) = chances cs.
Proof.
  unfold chances. revert i. induction cs as [|c cs IH]; intros i Hi Hv Hv'; [done|]. destruct i as [|i]; cbn in Hi.
  - injection Hi as ->. cbn [insert list_insert]. rewrite !filter_cons.
    rewrite decide_False, decide_True by congruence. done.
  - change (<[S i := v']> (c :: cs)) with (c :: <[i := v']> cs). specialize (IH i Hi Hv Hv'). rewrite !filter_cons.
    destruct (decide (hasSecondChance c = true)); cbn [length]; lia.
Qed.

Lemma chances_le cs : (chances cs <= length cs)%nat.
Proof. unfold chances. apply length_filter. Qed.

(** What the loop finds: the oldest entry after all entries older than it have
    used their second chance; entries without one are left alone. *)
Lemma search_spec fuel cs t : cs <> [] -> (chances cs < fuel)%nat ->
  exists i cs' t' v, search fuel cs t = Ok (i, cs', t') /\ length cs' = length cs /\
    first_least tickInserted cs' i v /\ hasSecondChance v = false /\
    forall j c, cs !! j = Some c -> hasSecondChance c = false -> cs' !! j = Some c.
Proof.
  revert cs t. induction fuel as [|fuel IH]; intros cs t Hne Hf; [lia|]. cbn [search].
  destruct cs as [|c0 cs]; [done|]. cbn [first rbind].
  pose proof (scan_first_least tickInserted older (fun c v => eq_refl) c0 cs) as Hl.
  destruct (scan older (c0 :: cs) 0 (0%nat, c0)) as [i v]. cbn [fst snd] in Hl.
  destruct (hasSecondChance v) eqn:Ev; [|by exists i, (c0 :: cs), t, v].
  destruct Hl as [Hi _]. cbn [useSecondChance].
  pose proof (chances_insert (c0 :: cs) i v (mk (u64 (t + 1)) false) Hi Ev eq_refl) as Hc.
  edestruct (IH (<[i := mk (u64 (t + 1)) false]> (c0 :: cs)) (u64 (t + 1))) as
    (k & cs' & t' & v' & E & Hlen & Hfl & Hv' & Hkeep).
  - intros E. apply (f_equal length) in E. rewrite length_insert in E. done.
  - lia.
  - exists k, cs', t', v'. split; [done|]. rewrite length_insert in Hlen. split; [done|]. split; [done|].
    split; [done|]. intros j c Hj Hc'. apply Hkeep; [|done]. rewrite list_lookup_insert_ne; [done|].
    intros ->. rewrite Hi in Hj. congruence.
Qed.
End SecondChanceLaws.

#[export] Instance SecondChance_laws : ReplLaws Z SecondChance.data.
Proof.
  apply (simple_laws (fun _ _ => True)); try done; try (intros; by do 2 eexists).
  intros r g ds _ Hr. cbn. unfold SecondChance.getVictim. destruct ds as [|c0 ds]; [cbn in Hr; lia|].
  cbn [first rbind]. destruct (find_from _ _ 0) as [k|] eqn:Ef.
  - eexists _, _, _. split; [done|]. split; [|split; [done|apply Forall_True]].
    apply find_from_Some in Ef as (j & c & -> & Hj & _). by apply lookup_lt_Some in Hj.
  - destruct (search_spec (S (length (c0 :: ds))) (c0 :: ds) g) as (i & cs' & t' & v & E & Hl & (Hi & _) & _);
      [done|pose proof (chances_le (c0 :: ds)); lia|].
    exists i, cs', t'. split; [exact E|]. split; [apply lookup_lt_Some in Hi; by rewrite <- Hl|].
    split; [done|apply Forall_True].
Defined.

(** ** Re-reference interval prediction *)
Section BRRIPLaws.
Import BRRIP.

Definition value (d : data) : Z := counter (rrpv d).

Definition first_greatest (cs : list data) (i : nat) (v : data) : Prop :=
  cs !! i = Some v /\ forall j c, cs !! j = Some c -> value c <= value v /\ ((j < i)%nat -> value c < value v).

Lemma search_spec_brrip pre cs i v : Forall (fun c => valid c = true) pre -> first_greatest pre i v ->
  match search cs (length pre) (i, v) with
  | (k, w, true) => (pre ++ cs) !! k = Some w /\ valid w = false /\
      forall j c, (j < k)%nat -> (pre ++ cs) !! j = Some c -> valid c = true
  | (k, w, false) => Forall (fun c => valid c = true) (pre ++ cs) /\ first_greatest (pre ++ cs) k w
  end.
Proof.
  revert pre i v. induction cs as [|c cs IH]; intros pre i v Hval Hv; cbn [search]; [by rewrite app_nil_r|].
  destruct (valid c) eqn:Ec; cbn [negb].
  - replace (pre ++ c :: cs) with ((pre ++ [c]) ++ cs) by by rewrite <- app_assoc.
    replace (S (length pre)) with (length (pre ++ [c])) by (rewrite length_app; cbn; lia).
    destruct Hv as [Hi Hv]. assert (Hlt := lookup_lt_Some _ _ _ Hi). cbn [snd].
    destruct (Z.ltb_spec (counter (rrpv v)) (counter (rrpv c))); apply IH; try (apply Forall_app; split; [done|by constructor]).
    + split; [by rewrite lookup_app_r, Nat.sub_diag by lia|]. intros j x Hx. unfold value in *.
      apply lookup_app_Some in Hx as [Hx|[Hl Hx]].
      * apply Hv in Hx as [Hx _]. lia.
      * apply list_lookup_singleton_Some in Hx as [Hj <-]. split; lia.
    + split; [by rewrite lookup_app_l|]. intros j x Hx. unfold value in *.
      apply lookup_app_Some in Hx as [Hx|[Hl Hx]]; [by apply Hv|].
      apply list_lookup_singleton_Some in Hx as [Hj <-]. split; lia.
  - split; [by rewrite lookup_app_r, Nat.sub_diag by lia|]. split; [done|].
    intros j x Hj Hx. rewrite lookup_app_l in Hx by done. by apply (Forall_lookup_1 _ _ _ _ Hval Hx).
Qed.

Lemma search_from_first c0 cs : match search (c0 :: cs) 0 (0%nat, c0) with
  | (k, w, true) => (c0 :: cs) !! k = Some w /\ valid w = false /\
      forall j c, (j < k)%nat -> (c0 :: cs) !! j = Some c -> valid c = true
  | (k, w, false) => Forall (fun c => valid c = true) (c0 :: cs) /\ first_greatest (c0 :: cs) k w
  end.
Proof.
  cbn [search]. destruct (valid c0) eqn:E; cbn [negb]; [|split; [done|]; split; [done|]; lia].
  cbn [snd]. rewrite Z.ltb_irrefl. apply (search_spec_brrip [c0] cs 0 c0).
  - by constructor.
  - split; [done|]. intros j c Hj. apply list_lookup_singleton_Some in Hj as [-> <-]. split; lia.
Qed.

Lemma age_spec diff d : wf 8 (rrpv d) -> 0 <= diff < 2 ^ 63 ->
  age diff d = Ok (mk (clamp (rrpv d) (value d + diff)) (valid d)).
Proof.
  intros ((? & ?) & _) Hd. unfold age, add_assign, add_nonneg, value, clamp.
  rewrite (proj2 (Z.leb_le 0 diff)) by lia. rewrite bind_Ok. unfold with_counter.
  destruct (Z.leb_spec diff (maxVal (rrpv d) - counter (rrpv d))); do 3 f_equal; lia.
Qed.

Lemma mapM_r_map {A B} (f : A -> result B) (g : A -> B) l : Forall (fun x => f x = Ok (g x)) l ->
  mapM_r f l = Ok (map g l).
Proof. induction 1 as [|x l Hx Hl IH]; [done|]. cbn. by rewrite Hx, bind_Ok, IH, bind_Ok. Qed.

Lemma map_fix {A} (f : A -> A) l : Forall (fun x => f x = x) l -> map f l = l.
Proof. induction 1 as [|x l Hx Hl IH]; [done|]. cbn. by rewrite Hx, IH. Qed.

(** The data after a search that found no invalid entry: all values grow by what
    the victim lacked. *)
Definition aged (diff : Z) (d : data) : data := mk (clamp (rrpv d) (value d + diff)) (valid d).

Lemma getVictim_valid r c0 cs g i v : Forall (fun d => wf 8 (rrpv d)) (c0 :: cs) ->
  search (c0 :: cs) 0 (0%nat, c0) = (i, v, false) -> (c0 :: cs) !! i = Some v ->
  getVictim r (c0 :: cs) g = Ok (i, map (aged (maxVal (rrpv v) - value v)) (c0 :: cs), g).
Proof.
  intros Hw E Hi. unfold getVictim. cbn [first rbind]. rewrite E. cbn [saturate].
  pose proof (Forall_lookup_1 _ _ _ _ Hw Hi) as Hv. set (diff := maxVal (rrpv v) - counter (rrpv v)).
  change (maxVal (rrpv v) - value v) with diff.
  destruct Hv as ((Hv0 & Hv1) & Hv2 & Hv3). fold (value v) in *.
  assert (Hsat : aged diff (mk (with_counter (maxVal (rrpv v)) (rrpv v)) (valid v)) = aged diff v).
  { unfold aged, clamp, value, with_counter. cbn. do 2 f_equal. unfold diff, value in *. lia. }
  assert (Hmap : map (aged diff) (<[i := mk (with_counter (maxVal (rrpv v)) (rrpv v)) (valid v)]> (c0 :: cs)) =
                 map (aged diff) (c0 :: cs)).
  { change (map ?f ?l) with (f <$> l). rewrite list_fmap_insert. apply list_insert_id.
    rewrite list_lookup_fmap, Hi. cbn [fmap option_fmap option_map]. by rewrite Hsat. }
  destruct (Z.ltb_spec 0 diff).
  - rewrite (mapM_r_map _ (aged diff)); [by rewrite bind_Ok, Hmap|].
    apply Forall_insert.
    + eapply Forall_impl; [exact Hw|]. intros d Hd. apply age_spec; [done|]. unfold diff, value in *. lia.
    + apply age_spec; [|unfold diff, value in *; lia]. unfold wf. cbn. lia.
  - assert (diff = 0) as E0 by (unfold diff, value in *; lia). rewrite <- Hmap, E0. do 3 f_equal.
    symmetry. apply map_fix. apply Forall_insert.
    + eapply Forall_impl; [exact Hw|]. intros d ((? & ?) & _). unfold aged, clamp, with_counter, value.
      destruct d as [[a b c] w]. cbn in *. do 2 f_equal. lia.
    + unfold aged, clamp, with_counter, value. cbn. do 2 f_equal. lia.
Qed.
End BRRIPLaws.

#[export] Instance BRRIP_laws : ReplLaws BRRIP.policy BRRIP.data.
Proof.
  apply (simple_laws (fun _ d => wf 8 (BRRIP.rrpv d))); try done.
  - intros g d Hd. by do 2 eexists.
  - intros t g d Hd. do 2 eexists. split; [done|]. cbn. destruct (BRRIP.hitPriority g); [|by apply decr_wf].
    unfold wf, reset in *. cbn. lia.
  - intros t r g d Hd. do 2 eexists. split; [done|]. cbn.
    assert (wf 8 (with_counter (maxVal (BRRIP.rrpv d)) (BRRIP.rrpv d))) by (unfold wf in *; cbn; lia).
    destruct (_ <=? _); [by apply decr_wf|done].
  - intros r g ds Hw Hr. destruct ds as [|c0 cs]; [cbn in Hr; lia|].
    pose proof (search_from_first c0 cs) as Hs. cbn [rp_getVictim BRRIP_policy].
    destruct (BRRIP.search (c0 :: cs) 0 (0%nat, c0)) as [[i v] []] eqn:E.
    + destruct Hs as (Hi & _). exists i, (c0 :: cs), g. unfold BRRIP.getVictim. cbn [first rbind]. rewrite E.
      split; [done|]. split; [by apply lookup_lt_Some in Hi|done].
    + destruct Hs as (_ & Hi & _). eexists i, _, g. rewrite (getVictim_valid r c0 cs g i v Hw E Hi).
      split; [done|]. split; [by apply lookup_lt_Some in Hi|]. split; [apply length_map|].
      change (map ?f ?l) with (f <$> l). apply Forall_fmap. eapply Forall_impl; [exact Hw|]. intros d Hd.
      cbn. by apply clamp_wf.
Defined.

(** ** Which candidate a policy chooses *)

(** [order] lists the entries in use from the least to the most recently used
    one; the entries that are not in it are free (never used, or invalidated). *)
Record recency (ds : list LRU.data) (order : list nat) : Prop := {
  rec_nodup : NoDup order;
  rec_ticks : Forall (fun d => 0 <= LRU.lastTouchTick d) ds;
  rec_used : forall i, i ∈ order <-> exists d, ds !! i = Some d /\ 0 < LRU.lastTouchTick d;
  rec_sorted : StronglySorted (fun i j => forall d e, ds !! i = Some d -> ds !! j = Some e ->
    LRU.lastTouchTick d < LRU.lastTouchTick e) order;
}.

(** Using and freeing entry [i]. *)
Definition free (i : nat) (order : list nat) : list nat := filter (fun j => j <> i) order.
Definition use (i : nat) (order : list nat) : list nat := free i order ++ [i].

(** The first free entry, if there is one. *)
Definition first_free (n : nat) (order : list nat) : option nat :=
  head (filter (fun i => i ∉ order) (seq 0 n)).

Lemma StronglySorted_weaken {A} (R R' : A -> A -> Prop) l :
  (forall x y, x ∈ l -> y ∈ l -> R x y -> R' x y) -> StronglySorted R l -> StronglySorted R' l.
Proof.
  intros HR Hs. induction Hs as [|x l Hs IH Hx]; [constructor|]. constructor.
  - apply IH. intros a b Ha Hb. apply HR; by constructor.
  - apply Forall_forall. intros y Hy. apply HR; [by constructor|by constructor|]. by apply (proj1 (Forall_forall _ _) Hx).
Qed.

Lemma elem_of_free i j order : j ∈ free i order <-> j <> i /\ j ∈ order.
Proof. unfold free. by rewrite list_elem_of_filter. Qed.

Lemma free_sorted ds order i d' : recency ds order ->
  StronglySorted (fun a b => forall d e, <[i := d']> ds !! a = Some d -> <[i := d']> ds !! b = Some e ->
    LRU.lastTouchTick d < LRU.lastTouchTick e) (free i order).
Proof.
  intros Hr. pose proof (StronglySorted_filter _ (fun j => j <> i) _ (rec_sorted _ _ Hr)) as Hs.
  eapply StronglySorted_weaken; [|exact Hs]. intros x y Hx Hy HR d e Hd He.
  apply list_elem_of_filter in Hx as [Hx _], Hy as [Hy _].
  rewrite list_lookup_insert_ne in Hd, He by done. by apply (HR d e).
Qed.

Lemma recency_use ds order i t : recency ds order -> (i < length ds)%nat -> 0 < t ->
  Forall (fun d => LRU.lastTouchTick d < t) ds -> recency (<[i := LRU.mk t]> ds) (use i order).
Proof.
  intros Hr Hi H0 Ht. split.
  - apply NoDup_app. split; [apply NoDup_filter, Hr|]. split; [|apply NoDup_singleton].
    intros x [Hne _]%elem_of_free Hx%list_elem_of_singleton. done.
  - apply Forall_insert; [apply Hr|cbn; lia].
  - intros j. unfold use. rewrite elem_of_app, elem_of_free, list_elem_of_singleton, (rec_used _ _ Hr).
    destruct (decide (j = i)) as [->|Hne].
    + rewrite list_lookup_insert_eq by done. split; [intros _; by eexists|by right].
    + rewrite list_lookup_insert_ne by done. naive_solver.
  - apply StronglySorted_app. split; [|split; [by apply free_sorted|by repeat constructor]].
    intros x y [Hne _]%elem_of_free ->%list_elem_of_singleton d e Hd He.
    rewrite list_lookup_insert_eq in He by done. injection He as <-.
    rewrite list_lookup_insert_ne in Hd by done. apply (Forall_lookup_1 _ _ _ _ Ht Hd).
Qed.

Lemma recency_free ds order i : recency ds order -> (i < length ds)%nat ->
  recency (<[i := LRU.mk 0]> ds) (free i order).
Proof.
  intros Hr Hi. split.
  - apply NoDup_filter, Hr.
  - apply Forall_insert; [apply Hr|done].
  - intros j. rewrite elem_of_free, (rec_used _ _ Hr). destruct (decide (j = i)) as [->|Hne].
    + rewrite list_lookup_insert_eq by done. split; [by intros [? _]|]. intros (d & [= <-] & Hd). cbn in Hd. lia.
    + rewrite list_lookup_insert_ne by done. naive_solver.
  - by apply free_sorted.
Qed.

Lemma recency_new ds order : recency ds order -> recency (ds ++ [LRU.mk 0]) order.
Proof.
  intros Hr. split; [apply Hr| | |].
  - apply Forall_app. split; [apply Hr|by repeat constructor].
  - intros i. rewrite (rec_used _ _ Hr). split; intros (d & Hd & Ht).
    + exists d. split; [by apply lookup_app_l_Some|done].
    + apply lookup_app_Some in Hd as [Hd|[_ Hd]]; [by exists d|].
      apply list_lookup_singleton_Some in Hd as [_ <-]. cbn in Ht. lia.
  - eapply StronglySorted_weaken; [|apply (rec_sorted _ _ Hr)]. intros x y Hx Hy HR d e Hd He.
    apply (rec_used _ _ Hr) in Hx as (d' & Hd' & _), Hy as (e' & He' & _).
    rewrite (lookup_app_l_Some _ _ _ _ Hd') in Hd. rewrite (lookup_app_l_Some _ _ _ _ He') in He.
    injection Hd as <-. injection He as <-. by apply (HR d' e').
Qed.

(** The head of a filtered interval is its first element with the property. *)
Lemma head_filter_seq (P : nat -> Prop) `{!forall i, Decision (P i)} a n i :
  (a <= i < a + n)%nat -> P i -> (forall j, (a <= j < i)%nat -> ~ P j) -> head (filter P (seq a n)) = Some i.
Proof.
  revert a. induction n as [|n IH]; intros a Hi Hp Hj; [lia|]. cbn [seq].
  destruct (decide (i = a)) as [->|Hne]; [by rewrite filter_cons_True|].
  rewrite filter_cons_False by (apply Hj; lia). apply IH; [lia|done|]. intros j Hlt. apply Hj. lia.
Qed.

Lemma head_filter_none (P : nat -> Prop) `{!forall i, Decision (P i)} a n :
  (forall j, (a <= j < a + n)%nat -> ~ P j) -> head (filter P (seq a n)) = None.
Proof.
  revert a. induction n as [|n IH]; intros a Hj; [done|]. cbn [seq].
  rewrite filter_cons_False by (apply Hj; lia). apply IH. intros j Hlt. apply Hj. lia.
Qed.

(** The entry with the least time of all is the first free one, or else the
    least recently used one. *)
Lemma recency_victim ds order i v : recency ds order -> first_least LRU.lastTouchTick ds i v ->
  Some i = match first_free (length ds) order with Some j => Some j | None => head order end.
Proof.
  intros Hr [Hi Hleast]. pose proof (lookup_lt_Some _ _ _ Hi) as Hlt. unfold first_free.
  pose proof (Forall_lookup_1 _ _ _ _ (rec_ticks _ _ Hr) Hi) as Hv. cbn in Hv.
  destruct (decide (LRU.lastTouchTick v = 0)) as [H0|H0].
  - rewrite (head_filter_seq _ 0 (length ds) i); [done|lia| |].
    + rewrite (rec_used _ _ Hr), Hi. intros (d & [= <-] & Hd). lia.
    + intros j Hj Hn. apply Hn, (rec_used _ _ Hr).
      destruct (lookup_lt_is_Some_2 ds j) as (d & Hd); [lia|]. exists d. split; [done|].
      pose proof (Hleast j d Hd). pose proof (Forall_lookup_1 _ _ _ _ (rec_ticks _ _ Hr) Hd) as Hd0. cbn in Hd0. lia.
  - rewrite head_filter_none.
    2: { intros j Hj Hn. apply Hn, (rec_used _ _ Hr). destruct (lookup_lt_is_Some_2 ds j) as (d & Hd); [lia|].
         exists d. split; [done|]. pose proof (Hleast j d Hd). lia. }
    assert (Hin : i ∈ order) by (apply (rec_used _ _ Hr); exists v; split; [done|lia]).
    pose proof (rec_sorted _ _ Hr) as Hs. pose proof (rec_used _ _ Hr) as Hu.
    destruct order as [|h order]; [by apply not_elem_of_nil in Hin|]. cbn [head]. f_equal.
    apply elem_of_cons in Hin as [->|Hin]; [done|]. apply StronglySorted_inv in Hs as [_ Hh].
    destruct (proj1 (Hu h)) as (e & He & _); [by left|]. rewrite Forall_forall in Hh.
    pose proof (Hh i Hin e v He Hi). pose proof (Hleast h e He). lia.
Qed.

(** C33: LRU refines a list of the entries in use in the order of their last use,
    together with the free entries. A new entry is free. A touch or a reset at a
    time later than all others makes the entry the most recently used one and
    leaves the order of the others; an invalidation frees the entry. The victim is
    the first free entry, and the least recently used one when there is none. *)
Theorem lru_refines_recency ds order : recency ds order ->
  (exists d', LRU.instantiateEntry tt = Ok (d', tt) /\ recency (ds ++ [d']) order) /\
  (forall i d t rnd, ds !! i = Some d -> 0 < t -> Forall (fun d => LRU.lastTouchTick d < t) ds ->
     (exists d', LRU.touch t d tt = Ok (d', tt) /\ recency (<[i := d']> ds) (use i order)) /\
     (exists d', LRU.reset t rnd d tt = Ok (d', tt) /\ recency (<[i := d']> ds) (use i order))) /\
  (forall i d, ds !! i = Some d ->
     exists d', LRU.invalidate d tt = Ok (d', tt) /\ recency (<[i := d']> ds) (free i order)) /\
  (forall rnd, ds <> [] -> exists v, LRU.getVictim rnd ds tt = Ok (v, ds, tt) /\
     Some v = match first_free (length ds) order with Some i => Some i | None => head order end).
Proof.
  intros Hr. split; [exists (LRU.mk 0); split; [done|by apply recency_new]|]. split; [|split].
  - intros i d t rnd Hi%lookup_lt_Some H0 Ht.
    split; exists (LRU.mk t); (split; [done|by apply recency_use]).
  - intros i d Hi%lookup_lt_Some. exists (LRU.mk 0). split; [done|by apply recency_free].
  - intros rnd Hne. destruct ds as [|d0 ds']; [done|]. eexists. split; [done|].
    pose proof (scan_first_least LRU.lastTouchTick LRU.older (fun c v => eq_refl) d0 ds') as Hl.
    by eapply recency_victim.
Qed.

(** Entry 1 of three entries in use is the least recently used one; when entry 2
    is invalidated it goes first. *)
Lemma lru_refines_recency_witness :
  (exists v, LRU.getVictim 0 [LRU.mk 5; LRU.mk 3; LRU.mk 9] tt = Ok (v, [LRU.mk 5; LRU.mk 3; LRU.mk 9], tt) /\
     v = 1%nat) /\
  exists d', LRU.invalidate (LRU.mk 9) tt = Ok (d', tt) /\
    recency [LRU.mk 5; LRU.mk 3; d'] [1; 0]%nat.
Proof.
  destruct (lru_refines_recency [LRU.mk 5; LRU.mk 3; LRU.mk 9] [1; 0; 2]%nat) as (_ & _ & Hd & Hv).
  - split.
    + apply (bool_decide_unpack _). reflexivity.
    + repeat constructor; cbn; lia.
    + intros i. split.
      * rewrite !elem_of_cons. intros [->|[->|[->|Hi%not_elem_of_nil]]]; [..|done]; eexists; (split; [reflexivity|cbn; lia]).
      * destruct i as [|[|[|i]]]; intros (d & Hd & _); by repeat constructor.
    + repeat constructor; intros d e; cbn; intros [= <-] [= <-]; cbn; lia.
  - destruct (Hv 0 ltac:(discriminate)) as (v & E & Hh). split.
    + exists v. split; [exact E|]. injection Hh as ->. reflexivity.
    + exact (Hd 2%nat (LRU.mk 9) eq_refl).
Defined.

(** FIFO and LFU evict the first of the candidates with the least insertion
    count, respectively the least number of references. *)
Theorem fifo_lfu_victims (fs : list FIFO.data) (ls : list LFU.data) rnd ticks : fs <> [] -> ls <> [] ->
  (exists i v, FIFO.getVictim rnd fs ticks = Ok (i, fs, ticks) /\ first_least FIFO.tickInserted fs i v) /\
  (exists i v, LFU.getVictim rnd ls tt = Ok (i, ls, tt) /\ first_least LFU.refCount ls i v).
Proof.
  intros Hf Hl. destruct fs as [|f0 fs], ls as [|l0 ls]; try done. split.
  - eexists _, _. split; [done|]. apply (scan_first_least FIFO.tickInserted FIFO.older (fun c v => eq_refl)).
  - eexists _, _. split; [done|]. apply (scan_first_least LFU.refCount LFU.rarer (fun c v => eq_refl)).
Qed.

Lemma fifo_lfu_victims_witness : exists i v,
  FIFO.getVictim 0 [FIFO.mk 7; FIFO.mk 2] 7 = Ok (i, [FIFO.mk 7; FIFO.mk 2], 7) /\
  first_least FIFO.tickInserted [FIFO.mk 7; FIFO.mk 2] i v.
Proof.
  apply (fifo_lfu_victims [FIFO.mk 7; FIFO.mk 2] [LFU.mk 1] 0 7); discriminate.
Defined.

(** Second chance always ends its search. Without a never-inserted candidate, the
    victim is the oldest entry once all second chances of older entries have been
    used, has none left itself, and entries without one are not changed. *)
Theorem second_chance_victim cs rnd ticks : cs <> [] ->
  exists i cs' ticks' v, SecondChance.getVictim rnd cs ticks = Ok (i, cs', ticks') /\ cs' !! i = Some v /\
    SecondChance.hasSecondChance v = false /\
    (forall j c, cs !! j = Some c -> SecondChance.hasSecondChance c = false -> cs' !! j = Some c) /\
    if decide (Exists (fun c => SecondChance.invalid c = true) cs)
    then SecondChance.invalid v = true /\ cs' = cs
    else first_least SecondChance.tickInserted cs' i v.
Proof.
  intros Hne. unfold SecondChance.getVictim. destruct cs as [|c0 cs]; [done|]. cbn [first rbind].
  destruct (find_from SecondChance.invalid (c0 :: cs) 0) as [k|] eqn:Ef.
  - apply find_from_Some in Ef as (j & c & -> & Hj & Hc & _). exists (0 + j)%nat, (c0 :: cs), ticks, c.
    split; [done|]. split; [done|]. split.
    { unfold SecondChance.invalid in Hc. apply andb_true_iff in Hc as [_ Hc]. by apply negb_true_iff in Hc. }
    split; [done|]. rewrite decide_True; [done|]. apply Exists_exists. exists c. split; [|done].
    by eapply list_elem_of_lookup_2.
  - destruct (search_spec (S (length (c0 :: cs))) (c0 :: cs) ticks) as (i & cs' & t' & v & E & Hl & Hfl & Hv & Hk);
      [done|pose proof (chances_le (c0 :: cs)); lia|].
    exists i, cs', t', v. split; [done|]. split; [apply Hfl|]. split; [done|]. split; [done|].
    rewrite decide_False; [done|]. intros Hex. apply find_from_None in Ef.
    apply Exists_exists in Hex as (c & Hc & Hi). rewrite Forall_forall in Ef. rewrite (Ef c Hc) in Hi. done.
Qed.

Lemma second_chance_victim_witness :
  exists i cs' t' v, SecondChance.getVictim 0 [SecondChance.mk 1 true; SecondChance.mk 2 false] 2 = Ok (i, cs', t') /\
    cs' !! i = Some v /\ SecondChance.hasSecondChance v = false.
Proof.
  destruct (second_chance_victim [SecondChance.mk 1 true; SecondChance.mk 2 false] 0 2 ltac:(discriminate))
    as (i & cs' & t' & v & E & Hv & Hs & _).
  exists i, cs', t', v. split; [exact E|]. split; [exact Hv|exact Hs].
Defined.

(** BRRIP evicts the first invalid candidate. If there is none, it evicts the
    first one of the largest re-reference value, and then all values have grown
    by the same amount, the one that brings the victim to the maximum. *)
Theorem brrip_victim cs rnd g bits : cs <> [] ->
  Forall (fun d => wf 8 (BRRIP.rrpv d) /\ maxVal (BRRIP.rrpv d) = 2 ^ bits - 1) cs ->
  exists i v cs', BRRIP.getVictim rnd cs g = Ok (i, cs', g) /\ cs !! i = Some v /\
    if decide (Exists (fun d => BRRIP.valid d = false) cs)
    then BRRIP.valid v = false /\ cs' = cs /\
         forall j c, (j < i)%nat -> cs !! j = Some c -> BRRIP.valid c = true
    else first_greatest cs i v /\
         map value cs' = map (fun d => value d + (2 ^ bits - 1 - value v)) cs.
Proof.
  intros Hne Hw. destruct cs as [|c0 cs]; [done|].
  assert (Hw8 : Forall (fun d => wf 8 (BRRIP.rrpv d)) (c0 :: cs)) by (eapply Forall_impl; [exact Hw|]; by intros d [Hd _]).
  pose proof (search_from_first c0 cs) as Hs.
  destruct (BRRIP.search (c0 :: cs) 0 (0%nat, c0)) as [[i v] []] eqn:E.
  - destruct Hs as (Hi & Hv & Hlt). exists i, v, (c0 :: cs). unfold BRRIP.getVictim. cbn [first rbind]. rewrite E.
    split; [done|]. split; [done|]. rewrite decide_True; [done|]. apply Exists_exists. exists v.
    split; [by eapply list_elem_of_lookup_2|done].
  - destruct Hs as (Hall & Hg). pose proof Hg as [Hi Hmax]. eexists i, v, _.
    rewrite (getVictim_valid rnd c0 cs g i v Hw8 E Hi). split; [done|]. split; [done|].
    rewrite decide_False.
    + split; [done|]. rewrite map_map. apply map_ext_in. intros d Hd%list_elem_of_In.
      apply list_elem_of_lookup in Hd as (j & Hj). destruct (Hmax j d Hj) as [Hle _].
      pose proof (Forall_lookup_1 _ _ _ _ Hw Hj) as [((Hd0 & _) & _) Hdm].
      pose proof (Forall_lookup_1 _ _ _ _ Hw Hi) as [((_ & Hv1) & _) Hvm].
      unfold value, aged, clamp in *. cbn. unfold value in *. lia.
    + intros Hex. apply Exists_exists in Hex as (c & Hc & Hi'). rewrite Forall_forall in Hall.
      rewrite (Hall c Hc) in Hi'. done.
Qed.

Definition brrip_example : list BRRIP.data :=
  [BRRIP.mk (mkCounter 0 3 1) true; BRRIP.mk (mkCounter 0 3 2) true].

Lemma brrip_victim_witness : exists i v cs',
  BRRIP.getVictim 0 brrip_example (BRRIP.mkPolicy 2 true 3) = Ok (i, cs', BRRIP.mkPolicy 2 true 3) /\
  first_greatest brrip_example i v /\ map value cs' = [2; 3].
Proof.
  destruct (brrip_victim brrip_example 0 (BRRIP.mkPolicy 2 true 3) 2 ltac:(discriminate)) as (i & v & cs' & E & Hi & H).
  - repeat constructor; cbn; lia.
  - rewrite decide_False in H by (intros Hx; repeat (apply Exists_cons in Hx as [?|Hx]; [discriminate|]); inversion Hx).
    destruct H as [Hg Hm]. exists i, v, cs'. split; [exact E|]. split; [exact Hg|]. injection E as <- <-. reflexivity.
Defined.

(** Invalidating a FIFO entry gives it the youngest insertion count, so the
    victim is then an entry that is still valid: of two entries inserted in
    order, invalidating the first makes the second the victim. *)
Theorem fifo_invalidated_entry_kept : exists d0 d1 d0' t1 t2 t3,
  FIFO.reset 0 0 (FIFO.mk 0) 0 = Ok (d0, t1) /\ FIFO.reset 0 0 (FIFO.mk 0) t1 = Ok (d1, t2) /\
  FIFO.invalidate d0 t2 = Ok (d0', t3) /\ FIFO.getVictim 0 [d0'; d1] t3 = Ok (1%nat, [d0'; d1], t3).
Proof. eexists _, _, _, _, _, _. split; [reflexivity|]. split; [reflexivity|]. split; reflexivity. Qed.
