(* ===== verification/TreePLRU.v ===== *)
(** * Tree pseudo-LRU replacement

    Model of src/gem5/src/mem/cache/replacement_policies/tree_plru_rp.{hh,cc}.
    The trees, which are shared by the entries of a set, live in the state of
    the policy; an entry holds the number of its tree and its leaf. *)

From S2P Require Import Prelude Bits Tables SatCounter Replacement ReplLaws.

Module TreePLRU.

(** [(index - 1) / 2] on [uint64_t]; the conversion through [std::floor] is
    exact for the indices of a tree of less than 2^53 nodes. *)
Definition parentIndex (index : Z) : Z := u64 (index - 1) / 2.
Definition leftSubtreeIndex (index : Z) : Z := u64 (2 * index + 1).
Definition rightSubtreeIndex (index : Z) : Z := u64 (2 * index + 2).
Definition isRightSubtree (index : Z) : bool := index mod 2 =? 0.

Record data := mk { index : Z; tree : nat }.

Record policy := mkPolicy {
  numLeaves : Z;
  count : Z;
  treeInstance : nat;
  trees : list (list bool);
}.

Definition new (num_leaves : Z) : result policy :=
  let! _ := check Fatal (negb (num_leaves <? 1)) in Ok (mkPolicy num_leaves 0 0 []).

(** [tree->at(i) = b] and [tree->at(i)]. *)
Definition at_set (t : list bool) (i : Z) (b : bool) : result (list bool) :=
  if (0 <=? i) && (i <? Z.of_nat (length t)) then Ok (<[Z.to_nat i := b]> t) else Err Throw.
Definition at_get (t : list bool) (i : Z) : result bool :=
  match t !! Z.to_nat i with Some b => Ok b | None => Err Throw end.

(** The loop of [invalidate] ([toward]) and of [touch], from the leaf up: every
    node is made to point towards, or away from, the node it was reached from. *)
Fixpoint climb (fuel : nat) (toward : bool) (tree_index : Z) (t : list bool) : result (list bool) :=
  match fuel with
  | O => Err OutOfFuel
  | S fuel =>
      let right := isRightSubtree tree_index in
      let tree_index := parentIndex tree_index in
      let! t := at_set t tree_index (if toward then right else negb right) in
      if tree_index =? 0 then Ok t else climb fuel toward tree_index t
  end.

(** The loop of [getVictim], from the root down. *)
Fixpoint descend (fuel : nat) (tree_index : Z) (t : list bool) : result Z :=
  if tree_index <? Z.of_nat (length t) then
    match fuel with
    | O => Err OutOfFuel
    | S fuel =>
        let! b := at_get t tree_index in
        descend fuel (if b then rightSubtreeIndex tree_index else leftSubtreeIndex tree_index) t
    end
  else Ok tree_index.

(** A climb visits fewer nodes than the index it starts from, a descent at most
    all nodes of the tree. *)
Definition update_tree (toward : bool) (d : data) (g : policy) : result (data * policy) :=
  match trees g !! tree d with
  | None => Err Undefined
  | Some t =>
      let! t := climb (S (Z.to_nat (index d))) toward (index d) t in
      Ok (d, mkPolicy (numLeaves g) (count g) (treeInstance g) (<[tree d := t]> (trees g)))
  end.

Definition invalidate (d : data) (g : policy) : result (data * policy) := update_tree true d g.
Definition touch (tick : Z) (d : data) (g : policy) : result (data * policy) := update_tree false d g.
Definition reset (tick rnd : Z) (d : data) (g : policy) : result (data * policy) := touch tick d g.

Definition getVictim (rnd : Z) (cs : list data) (g : policy) : result (nat * list data * policy) :=
  let! c0 := first cs in
  match trees g !! tree c0 with
  | None => Err Undefined
  | Some t =>
      let! tree_index := descend (length t) 0 t in
      let i := u64 (tree_index - u64 (numLeaves g - 1)) in
      if i <? Z.of_nat (length cs) then Ok (Z.to_nat i, cs, g) else Err Throw
  end.

Definition instantiateEntry (g : policy) : result (data * policy) :=
  let fresh := count g mod numLeaves g =? 0 in
  let ts := (if fresh then trees g ++ [replicate (Z.to_nat (numLeaves g - 1)) false] else trees g) in
  let inst := (if fresh then length (trees g) else treeInstance g) in
  Ok (mk (u64 (count g mod numLeaves g + numLeaves g - 1)) inst,
      mkPolicy (numLeaves g) (u64 (count g + 1)) inst ts).

End TreePLRU.

#[export] Instance TreePLRU_policy : ReplPolicy TreePLRU.policy TreePLRU.data := {|
  rp_instantiateEntry := TreePLRU.instantiateEntry; rp_invalidate := TreePLRU.invalidate;
  rp_touch := TreePLRU.touch; rp_reset := TreePLRU.reset; rp_getVictim := TreePLRU.getVictim |}.

Import TreePLRU.

(** ** Nodes and paths

    Indices below 2^53, where no arithmetic of the tree wraps. *)
Definition node (x : Z) : Prop := 0 <= x < 2 ^ 53.

Lemma parentIndex_spec x : 0 < x -> node x -> parentIndex x = (x - 1) / 2 /\ 0 <= parentIndex x < x /\
  x = (if isRightSubtree x then 2 * parentIndex x + 2 else 2 * parentIndex x + 1).
Proof.
  unfold node, parentIndex, isRightSubtree. intros Hx Hn. rewrite uw_small by (unfold in_uw; lia).
  split; [done|]. pose proof (Z.div_mod (x - 1) 2 ltac:(lia)). pose proof (Z.mod_pos_bound (x - 1) 2 ltac:(lia)).
  pose proof (Z.div_mod x 2 ltac:(lia)). pose proof (Z.mod_pos_bound x 2 ltac:(lia)).
  split; [lia|]. destruct (Z.eqb_spec (x mod 2) 0); lia.
Qed.

(** The nodes from [l] up to the root. *)
Inductive path (l : Z) : Z -> Prop :=
| path_here : path l l
| path_up x : path l x -> 0 < x -> path l (parentIndex x).

Lemma path_range l x : node l -> path l x -> 0 <= x <= l.
Proof.
  intros Hl Hp. induction Hp as [|x Hp IH Hx]; [unfold node in Hl; lia|].
  destruct (parentIndex_spec x Hx) as (_ & ? & _); [unfold node in *; lia|lia].
Qed.

Lemma path_node l x : node l -> path l x -> node x.
Proof. intros Hl Hp. apply path_range in Hp; [|done]. unfold node in *. lia. Qed.

Lemma path_root l x : node l -> path l x -> path l 0.
Proof.
  intros Hl. remember (Z.to_nat x) as n eqn:En. revert x En.
  induction n as [n IH] using lt_wf_ind; intros x -> Hp.
  pose proof (path_range l x Hl Hp). destruct (Z.eq_dec x 0) as [->|Hx]; [done|].
  destruct (parentIndex_spec x ltac:(lia) (path_node l x Hl Hp)) as (_ & Hlt & _).
  eapply (IH (Z.to_nat (parentIndex x))); [lia|done|]. apply path_up; [done|lia].
Qed.

Lemma path_trans l x y : path l x -> path x y -> path l y.
Proof. intros Hp Hq. induction Hq as [|y Hq IH Hy]; [done|]. by apply path_up. Qed.

Lemma path_step x y : path x y -> x <> y -> 0 < x /\ path (parentIndex x) y.
Proof.
  intros Hp. induction Hp as [|z Hp IH Hz]; intros Hne; [done|].
  destruct (Z.eq_dec x z) as [->|Hxz]; [split; [done|constructor]|].
  destruct (IH Hxz) as [Hx Hp']. split; [done|]. by apply path_up.
Qed.

Lemma path_linear l x y : path l x -> path l y -> path x y \/ path y x.
Proof.
  intros Hx. revert y. induction Hx as [|x Hx IH Hpos]; intros y Hy; [by left|].
  destruct (IH y Hy) as [Hxy|Hyx]; [|right; by apply path_up].
  destruct (Z.eq_dec x y) as [->|Hne]; [right; apply path_up; [constructor|done]|].
  left. by apply path_step in Hxy as [_ ?].
Qed.

(** Siblings are not both on a path. *)
Lemma path_sibling l x y : node l -> path l x -> path l y -> 0 < x -> 0 < y -> parentIndex x = parentIndex y -> x = y.
Proof.
  intros Hl Hx Hy Hx0 Hy0 E. destruct (Z.eq_dec x y) as [|Hne]; [done|exfalso].
  pose proof (path_node l x Hl Hx) as Hnx. pose proof (path_node l y Hl Hy) as Hny.
  destruct (parentIndex_spec x Hx0 Hnx) as (_ & Hrx & _), (parentIndex_spec y Hy0 Hny) as (_ & Hry & _).
  destruct (path_linear l x y Hx Hy) as [Hp|Hp]; apply path_step in Hp as [_ Hp]; try done;
    (apply path_range in Hp; [lia|unfold node in *; lia]).
Qed.

(** ** The loops *)
Lemma at_set_Ok t i b : 0 <= i < Z.of_nat (length t) -> at_set t i b = Ok (<[Z.to_nat i := b]> t).
Proof. intros Hi. unfold at_set. destruct (Z.leb_spec 0 i), (Z.ltb_spec i (Z.of_nat (length t))); try lia. done. Qed.

(** After a climb from [c], each node above points as asked, and the nodes from
    [c] on are not changed. *)
Lemma climb_spec fuel toward c t : 0 < c -> node c -> parentIndex c < Z.of_nat (length t) ->
  (Z.to_nat c <= fuel)%nat ->
  exists t', climb fuel toward c t = Ok t' /\ length t' = length t /\
    (forall y, c <= y -> t' !! Z.to_nat y = t !! Z.to_nat y) /\
    forall x, path c x -> 0 < x ->
      t' !! Z.to_nat (parentIndex x) = Some (if toward then isRightSubtree x else negb (isRightSubtree x)).
Proof.
  revert c t. induction fuel as [|fuel IH]; intros c t Hc Hn Hp Hf; [lia|]. cbn [climb].
  destruct (parentIndex_spec c Hc Hn) as (_ & Hr & _).
  rewrite at_set_Ok, bind_Ok by lia. set (b := if toward then _ else _).
  destruct (Z.eqb_spec (parentIndex c) 0) as [E0|Hne].
  - eexists. split; [done|]. split; [apply length_insert|]. split.
    + intros y Hy. rewrite list_lookup_insert_ne by lia. done.
    + intros x Hx Hx0. destruct (Z.eq_dec c x) as [<-|Hcx]; [by rewrite list_lookup_insert_eq by lia|].
      apply path_step in Hx as [_ Hx]; [|done]. rewrite E0 in Hx.
      apply path_range in Hx; [lia|unfold node; lia].
  - destruct (IH (parentIndex c) (<[Z.to_nat (parentIndex c) := b]> t)) as (t' & -> & Hl & Hk & Hpt);
      [lia|unfold node in *; lia| |lia|].
    + rewrite length_insert.
      destruct (parentIndex_spec (parentIndex c) ltac:(lia) ltac:(unfold node in *; lia)) as (_ & ? & _). lia.
    + exists t'. rewrite length_insert in Hl. split; [done|]. split; [done|]. split.
      * intros y Hy. rewrite Hk by lia. rewrite list_lookup_insert_ne by lia. done.
      * intros x Hx Hx0. destruct (Z.eq_dec c x) as [<-|Hcx].
        -- rewrite Hk by lia. by rewrite list_lookup_insert_eq by lia.
        -- apply path_step in Hx as [_ Hx]; [|done]. by apply Hpt.
Qed.

(** One step of the descent goes to a child. *)
Lemma child_spec x (b : bool) : node x -> 2 * x + 2 < 2 ^ 53 ->
  let y := (if b then rightSubtreeIndex x else leftSubtreeIndex x) in
  0 < y /\ x < y /\ node y /\ parentIndex y = x /\ isRightSubtree y = b /\ y <= 2 * x + 2.
Proof.
  unfold node, rightSubtreeIndex, leftSubtreeIndex. intros Hx Hb.
  rewrite !uw_small by (unfold in_uw; lia). cbv zeta.
  assert (Hy : node (if b then 2 * x + 2 else 2 * x + 1)) by (unfold node; destruct b; lia).
  destruct (parentIndex_spec (if b then 2 * x + 2 else 2 * x + 1)) as (_ & Hr & Hp); [destruct b; lia|done|].
  unfold node in Hy. destruct b, (isRightSubtree _) eqn:E in Hp; rewrite ?E in *;
    (split_and!; [lia|lia|lia|lia|lia| |lia]); try done; lia.
Qed.

(** The descent from [x] ends at a leaf below [x], past the nodes of the tree. *)
Lemma descend_spec fuel x t : node x -> x <= 2 * Z.of_nat (length t) -> Z.of_nat (length t) < 2 ^ 51 ->
  (length t <= fuel + Z.to_nat x)%nat ->
  exists l, descend fuel x t = Ok l /\ node l /\ path l x /\ Z.of_nat (length t) <= l <= 2 * Z.of_nat (length t).
Proof.
  revert x. induction fuel as [|fuel IH]; intros x Hx Hle Hsz Hf; cbn [descend].
  - destruct (Z.ltb_spec x (Z.of_nat (length t))) as [Hlt|Hge]; [unfold node in Hx; lia|].
    exists x. split; [done|]. split; [done|]. split; [constructor|lia].
  - destruct (Z.ltb_spec x (Z.of_nat (length t))) as [Hlt|Hge].
    + destruct (lookup_lt_is_Some_2 t (Z.to_nat x)) as (b & Hb); [unfold node in Hx; lia|].
      unfold at_get. rewrite Hb, bind_Ok.
      destruct (child_spec x b Hx) as (Hy0 & Hxy & Hy & Hpar & _ & Hyle); [lia|].
      set (y := if b then _ else _) in *. destruct (IH y Hy) as (l & E & Hl & Hp & Hr); [lia|lia|lia|].
      exists l. split; [done|]. split; [done|]. split; [|done]. rewrite <- Hpar. by apply path_up.
    + exists x. split; [done|]. split; [done|]. split; [constructor|lia].
Qed.

Lemma path_child l x : path l x -> x <> l -> exists y, path l y /\ 0 < y /\ parentIndex y = x.
Proof. intros Hp Hne. inversion Hp as [|y Hy Hy0 E]; [done|]. by exists y. Qed.

Lemma child_of y : 0 < y -> node y -> 2 * parentIndex y + 2 < 2 ^ 53 ->
  (if isRightSubtree y then rightSubtreeIndex (parentIndex y) else leftSubtreeIndex (parentIndex y)) = y.
Proof.
  intros Hy Hn Hb. destruct (parentIndex_spec y Hy Hn) as (_ & Hr & E).
  unfold rightSubtreeIndex, leftSubtreeIndex. rewrite !uw_small by (unfold in_uw; lia).
  destruct (isRightSubtree y); lia.
Qed.

(** A tree that points to the leaf [l] from the root down leads to it. *)
Lemma descend_toward fuel x t l : node l -> Z.of_nat (length t) <= l <= 2 * Z.of_nat (length t) ->
  Z.of_nat (length t) < 2 ^ 51 -> path l x -> (length t <= fuel + Z.to_nat x)%nat ->
  (forall y, path l y -> 0 < y -> t !! Z.to_nat (parentIndex y) = Some (isRightSubtree y)) ->
  descend fuel x t = Ok l.
Proof.
  intros Hl Hlr Hsz Hp Hf Hpt. revert x Hp Hf. induction fuel as [|fuel IH]; intros x Hp Hf;
    pose proof (path_range l x Hl Hp) as Hx; cbn [descend].
  all: destruct (Z.ltb_spec x (Z.of_nat (length t))) as [Hlt|Hge]; [try lia|].
  all: try (destruct (Z.eq_dec x l) as [->|Hne]; [done|exfalso];
    destruct (path_child l x Hp Hne) as (y & Hy & Hy0 & <-); pose proof (path_range l y Hl Hy);
    destruct (parentIndex_spec y Hy0 (path_node l y Hl Hy)) as (_ & _ & E); destruct (isRightSubtree y); lia).
  destruct (path_child l x Hp ltac:(lia)) as (y & Hy & Hy0 & <-).
  unfold at_get. rewrite (Hpt y Hy Hy0), bind_Ok, child_of; [|done|by eapply path_node|lia].
  apply IH; [done|]. destruct (parentIndex_spec y Hy0 (path_node l y Hl Hy)) as (_ & Hr & _). lia.
Qed.

(** A tree that points away from [l] at every node above it leads elsewhere. *)
Lemma descend_away t l r : node l -> 0 < l -> l <= 2 * Z.of_nat (length t) -> Z.of_nat (length t) < 2 ^ 51 ->
  (forall y, path l y -> 0 < y -> t !! Z.to_nat (parentIndex y) = Some (negb (isRightSubtree y))) ->
  descend (length t) 0 t = Ok r -> r <> l.
Proof.
  intros Hl Hl0 Hlr Hsz Hpt E ->.
  destruct (path_child l 0 (path_root l l Hl (path_here l)) ltac:(lia)) as (y & Hy & Hy0 & Hpy).
  pose proof (Hpt y Hy Hy0) as Hb. rewrite Hpy in Hb. destruct (length t) as [|n] eqn:Elen; [lia|].
  cbn [descend] in E. rewrite Elen in E. destruct (Z.ltb_spec 0 (Z.of_nat (S n))); [|lia].
  unfold at_get in E. rewrite Hb, bind_Ok in E.
  destruct (child_spec 0 (negb (isRightSubtree y))) as (Hz0 & _ & Hz & Hpz & Hrz & Hz2); [unfold node; lia|lia|].
  set (z := if negb _ then _ else _) in *.
  destruct (descend_spec n z t Hz) as (r & E' & _ & Hp & _); [lia|lia|lia|].
  rewrite E in E'. injection E' as <-.
  assert (z = y) as Ezy by (eapply (path_sibling l); try done; congruence).
  rewrite Ezy in Hrz. by destruct (isRightSubtree y).
Qed.

(** ** Sets of entries *)

(** The entries of a set share a tree, each with its own leaf. *)
Definition plru_set (g : policy) (ds : list data) : Prop :=
  2 <= numLeaves g < 2 ^ 50 /\ Z.of_nat (length ds) = numLeaves g /\
  exists k t, trees g !! k = Some t /\ Z.of_nat (length t) = numLeaves g - 1 /\
    forall i d, ds !! i = Some d -> d = mk (numLeaves g - 1 + Z.of_nat i) k.

Definition plru_le (g g' : policy) : Prop :=
  numLeaves g' = numLeaves g /\
  forall k t, trees g !! k = Some t -> exists t', trees g' !! k = Some t' /\ length t' = length t.

Lemma plru_le_preorder : PreOrder plru_le.
Proof.
  split; [by intros g; split; eauto|]. intros g1 g2 g3 [N1 H1] [N2 H2]. split; [congruence|].
  intros k t Ht. destruct (H1 k t Ht) as (t1 & Ht1 & E1). destruct (H2 k t1 Ht1) as (t2 & Ht2 & E2).
  exists t2. split; [done|congruence].
Qed.

Lemma plru_set_mono g g' ds : plru_le g g' -> plru_set g ds -> plru_set g' ds.
Proof.
  intros [N Hle] (Hn & Hl & k & t & Ht & Hlt & Hd). rewrite <- N in *. split; [done|]. split; [done|].
  destruct (Hle k t Ht) as (t' & Ht' & E). exists k, t'. split; [done|]. split; [lia|done].
Qed.

Lemma leaf_node g ds i d : plru_set g ds -> ds !! i = Some d ->
  node (index d) /\ 0 < index d /\ parentIndex (index d) < numLeaves g - 1 /\
  numLeaves g - 1 <= index d <= 2 * (numLeaves g - 1) /\ index d = numLeaves g - 1 + Z.of_nat i.
Proof.
  intros (Hn & Hl & k & t & _ & _ & Hd) Hi. pose proof (lookup_lt_Some _ _ _ Hi). apply Hd in Hi as ->. cbn [index].
  assert (node (numLeaves g - 1 + Z.of_nat i)) as Hnode by (unfold node; lia).
  destruct (parentIndex_spec (numLeaves g - 1 + Z.of_nat i) ltac:(lia) Hnode) as (_ & ? & E).
  split_and!; try done; try lia. destruct (isRightSubtree _); lia.
Qed.

(** An update of a tree of the set. *)
Lemma update_tree_spec toward g ds i d : plru_set g ds -> ds !! i = Some d ->
  exists g' t', update_tree toward d g = Ok (d, g') /\ plru_le g g' /\ plru_set g' ds /\
    numLeaves g' = numLeaves g /\ trees g' !! tree d = Some t' /\ Z.of_nat (length t') = numLeaves g - 1 /\
    forall x, path (index d) x -> 0 < x ->
      t' !! Z.to_nat (parentIndex x) = Some (if toward then isRightSubtree x else negb (isRightSubtree x)).
Proof.
  intros Hs Hi. destruct (leaf_node g ds i d Hs Hi) as (Hnode & Hpos & Hpar & Hr & _).
  pose proof Hs as (Hn & Hl & k & t & Ht & Hlt & Hd). assert (Hk : tree d = k) by (by rewrite (Hd i d Hi)).
  unfold update_tree. rewrite Hk, Ht.
  destruct (climb_spec (S (Z.to_nat (index d))) toward (index d) t Hpos Hnode) as (t' & -> & Hl' & _ & Hpt); [lia|lia|].
  rewrite bind_Ok. assert (Hkl := lookup_lt_Some _ _ _ Ht).
  assert (Hle : plru_le g (mkPolicy (numLeaves g) (count g) (treeInstance g) (<[k := t']> (trees g)))).
  { split; [done|]. cbn. intros k1 t1 Ht1. destruct (Nat.eq_dec k1 k) as [->|Hne].
    - rewrite list_lookup_insert_eq by done. exists t'. split; [done|]. congruence.
    - rewrite list_lookup_insert_ne by done. by exists t1. }
  eexists _, t'. split; [done|]. split; [done|]. split; [by eapply plru_set_mono|]. cbn.
  rewrite list_lookup_insert_eq by done. split_and!; try done. lia.
Qed.

Lemma getVictim_spec rnd g ds d0 t : plru_set g ds -> ds !! 0%nat = Some d0 -> trees g !! tree d0 = Some t ->
  Z.of_nat (length t) = numLeaves g - 1 ->
  exists r, descend (length t) 0 t = Ok r /\ numLeaves g - 1 <= r <= 2 * (numLeaves g - 1) /\
    getVictim rnd ds g = Ok (Z.to_nat (r - (numLeaves g - 1)), ds, g).
Proof.
  intros (Hn & Hl & _) H0 Ht Hlt.
  destruct (descend_spec (length t) 0 t) as (r & E & _ & _ & Hr); [unfold node; lia|lia|lia|lia|].
  exists r. split; [done|]. split; [lia|]. unfold getVictim. destruct ds as [|d ds]; [done|]. injection H0 as ->.
  cbn [first rbind]. rewrite Ht, E, bind_Ok. rewrite (uw_small 64 (numLeaves g - 1)), uw_small by (unfold in_uw; lia).
  destruct (Z.ltb_spec (r - (numLeaves g - 1)) (Z.of_nat (length (d0 :: ds)))); [done|lia].
Qed.

#[export] Instance TreePLRU_laws : ReplLaws policy data.
Proof.
  refine {| rl_set := plru_set; rl_le := plru_le; rl_le_preorder := plru_le_preorder; rl_set_mono := plru_set_mono |}.
  - intros g ds i d Hs Hi. destruct (update_tree_spec true g ds i d Hs Hi) as (g' & t' & E & Hle & Hs' & _).
    exists d, g'. rewrite list_insert_id by done. done.
  - intros tick g ds i d Hs Hi. destruct (update_tree_spec false g ds i d Hs Hi) as (g' & t' & E & Hle & Hs' & _).
    exists d, g'. rewrite list_insert_id by done. done.
  - intros tick rnd g ds i d Hs Hi. destruct (update_tree_spec false g ds i d Hs Hi) as (g' & t' & E & Hle & Hs' & _).
    exists d, g'. rewrite list_insert_id by done. done.
  - intros r g ds Hs Hr. pose proof Hs as (Hn & Hl & k & t & Ht & Hlt & Hd).
    destruct (lookup_lt_is_Some_2 ds 0) as (d0 & H0); [lia|].
    assert (tree d0 = k) as Hk by (by rewrite (Hd 0%nat d0 H0)). rewrite <- Hk in Ht.
    destruct (getVictim_spec r g ds d0 t Hs H0 Ht Hlt) as (x & _ & Hx & E).
    exists (Z.to_nat (x - (numLeaves g - 1))), ds, g. split; [exact E|]. split; [lia|]. split; [done|].
    split; [apply plru_le_preorder|done].
Defined.

(** The victim is always one of the candidates. After an entry is invalidated it
    is the next victim, and after it is touched (or inserted) it is not, for any
    number of leaves from two on, powers of two or not. *)
Theorem tree_plru_victims g ds i d tick rnd : plru_set g ds -> ds !! i = Some d ->
  (exists v, getVictim rnd ds g = Ok (v, ds, g) /\ (v < length ds)%nat) /\
  (exists g', invalidate d g = Ok (d, g') /\ getVictim rnd ds g' = Ok (i, ds, g')) /\
  (exists g' v, touch tick d g = Ok (d, g') /\ getVictim rnd ds g' = Ok (v, ds, g') /\
     (v < length ds)%nat /\ v <> i).
Proof.
  intros Hs Hi. destruct (leaf_node g ds i d Hs Hi) as (Hnode & Hpos & Hpar & Hr & Ei).
  pose proof Hs as (Hn & Hl & k & t & Ht & Hlt & Hd).
  destruct (lookup_lt_is_Some_2 ds 0) as (d0 & H0); [lia|].
  assert (Hk0 : tree d0 = k) by (by rewrite (Hd 0%nat d0 H0)). assert (Hk : tree d = k) by (by rewrite (Hd i d Hi)).
  split; [|split].
  - rewrite <- Hk0 in Ht. destruct (getVictim_spec rnd g ds d0 t Hs H0 Ht Hlt) as (x & _ & Hx & E).
    eexists. split; [exact E|]. lia.
  - destruct (update_tree_spec true g ds i d Hs Hi) as (g' & t' & E & Hle & Hs' & Hn' & Ht' & Hlt' & Hpt).
    exists g'. split; [done|]. rewrite Hk, <- Hk0 in Ht'. rewrite <- Hn' in Hlt'.
    destruct (getVictim_spec rnd g' ds d0 t' Hs' H0 Ht' Hlt') as (x & Ex & Hx & ->).
    rewrite (descend_toward _ 0 t' (index d)) in Ex; try done; [|lia|lia|by eapply path_root, path_here|lia].
    injection Ex as <-. do 3 f_equal. lia.
  - destruct (update_tree_spec false g ds i d Hs Hi) as (g' & t' & E & Hle & Hs' & Hn' & Ht' & Hlt' & Hpt).
    rewrite Hk, <- Hk0 in Ht'. rewrite <- Hn' in Hlt'.
    destruct (getVictim_spec rnd g' ds d0 t' Hs' H0 Ht' Hlt') as (x & Ex & Hx & Ev).
    exists g', (Z.to_nat (x - (numLeaves g' - 1))). split; [done|]. split; [done|]. split; [lia|].
    pose proof (descend_away t' (index d) x Hnode Hpos ltac:(lia) ltac:(lia) Hpt Ex). lia.
Qed.

(** Three entries that share a tree. *)
Definition plru_example : policy := mkPolicy 3 3 0 [[false; false]].
Definition plru_entries : list data := [mk 2 0; mk 3 0; mk 4 0].

Lemma tree_plru_victims_witness : exists g' v, touch 7 (mk 3 0) plru_example = Ok (mk 3 0, g') /\
  getVictim 0 plru_entries g' = Ok (v, plru_entries, g') /\ (v < 3)%nat /\ v <> 1%nat.
Proof.
  apply (tree_plru_victims plru_example plru_entries 1 (mk 3 0) 7 0); [|reflexivity].
  split; [cbn; lia|]. split; [reflexivity|]. exists 0%nat, [false; false]. split; [reflexivity|].
  split; [reflexivity|]. intros [|[|[|i]]] d; cbn; intros [= <-]; reflexivity.
Defined.

(** A policy with a single leaf passes the check of the constructor, but has a
    tree without nodes: the first insertion ends in an exception. *)
Theorem tree_plru_one_leaf : exists g d g', new 1 = Ok g /\ instantiateEntry g = Ok (d, g') /\
  reset 0 0 d g' = Err Throw.
Proof. eexists _, _, _. split; [reflexivity|]. split; [reflexivity|]. vm_compute. reflexivity. Qed.
