(* ===== verification/Indexing.v ===== *)
(** * Cache indexing policies

    Model of src/gem5/src/mem/cache/tags/indexing_policies: base.hh,
    set_associative.{hh,cc} and skewed_associative.{hh,cc}. The tables of
    pointers are left out: the entry of a set and a way is the one with the index
    [set * assoc + way], as [setEntry] places it. *)

From S2P Require Import Prelude Bits Tables.

(** [IndexingPolicyTemplate]. *)
Module Indexing.
Record t := mk {
  assoc : Z;
  numSets : Z;
  setShift : Z;
  setMask : Z;
  tagShift : Z;
}.

Definition new (assoc num_entries set_shift : Z) : result t :=
  let! numSets := (if assoc =? 0 then Err Undefined else Ok (num_entries / assoc)) in
  let! l := floorLog2 4 numSets in
  let! _ := check Fatal (isPowerOf2 numSets) in
  let! _ := check Fatal (negb (assoc <=? 0)) in
  Ok (mk assoc numSets set_shift (u32 (numSets - 1)) (set_shift + l)).

(** [setEntry]: the set and the way of the entry with this index. *)
Definition setEntry (p : t) (index : Z) : result (Z * Z) :=
  let! _ := (if assoc p =? 0 then Err Undefined else Ok tt) in
  let set := u32 (index / assoc p) in
  let way := u32 (index mod assoc p) in
  guard! set <? numSets p; Ok (set, way).

(** The index of the entry at a set and a way ([sets[set][way]]). *)
Definition entry_at (p : t) (set way : Z) : result Z :=
  if (0 <=? set) && (set <? numSets p) && (0 <=? way) && (way <? assoc p)
  then Ok (set * assoc p + way) else Err Undefined.

Definition extractTag (p : t) (addr : Z) : result Z := shr 64 addr (tagShift p).
End Indexing.

Import Indexing.

Module SetAssociative.
(** [SetAssociative(p)]: [size] and [entry_size] in bytes. *)
Definition new (assoc size entry_size : Z) : result t :=
  let! n := (if entry_size =? 0 then Err Undefined else Ok (size / entry_size)) in
  let! s := floorLog2 4 entry_size in
  Indexing.new assoc (u32 n) s.

Definition extractSet (p : t) (addr : Z) : result Z :=
  let! a := shr 64 addr (setShift p) in Ok (u32 (Z.land a (setMask p))).

(** The set of the entry is a [uint32_t], and so is the shifted value. *)
Definition regenerateAddr (p : t) (tag set : Z) : result Z :=
  let! hi := shl 64 tag (tagShift p) in
  let! lo := shl 32 set (setShift p) in
  Ok (Z.lor hi lo).

Definition getPossibleEntries (p : t) (addr : Z) : result (list Z) :=
  let! set := extractSet p addr in
  if set <? numSets p
  then mapM_r (fun w => entry_at p set (Z.of_nat w)) (seq 0 (Z.to_nat (assoc p))) else Err Undefined.
End SetAssociative.

Module SkewedAssociative.
(** The policy with its [msbShift]. *)
Record skewed := mkSkewed { base : t; msbShift : Z }.

Definition new (assoc size entry_size : Z) : result skewed :=
  let! b := SetAssociative.new assoc size entry_size in
  let! l := floorLog2 4 (numSets b) in
  let msb := l - 1 in
  let! _ := check Panic (negb (64 <? setShift b + 2 * (msb + 1))) in
  let! _ := check Fatal (negb (numSets b <=? 2)) in
  Ok (mkSkewed b msb).

Definition hash (p : skewed) (addr : Z) : result Z :=
  let! lsb := bit addr 0 in
  let! msb := bit addr (msbShift p) in
  let xor_bit := Z.lxor msb lsb in
  insertBit (Z.shiftr addr 1) (msbShift p) xor_bit.

Definition dehash (p : skewed) (addr : Z) : result Z :=
  let! msb := bit addr (msbShift p - 1) in
  let! xor_bit := bit addr (msbShift p) in
  let lsb := Z.lxor msb xor_bit in
  let addr_no_msb := mbits addr (msbShift p - 1) 0 in
  insertBit (u64 (Z.shiftl addr_no_msb 1)) 0 lsb.

(** [f] applied [n] times. *)
Fixpoint iterate (n : nat) (f : Z -> result Z) (x : Z) : result Z :=
  match n with O => Ok x | S n => let! y := f x in iterate n f y end.

(** The two parts of an address that the skewing functions use. *)
Definition parts (p : skewed) (addr : Z) : result (Z * Z) :=
  let! addr1 := bits addr (msbShift p) 0 in
  let! addr2 := bits addr (2 * (msbShift p + 1) - 1) (msbShift p + 1) in
  Ok (addr1, addr2).

(** [f1 ^ f2 ^ y] for two calls of the hash functions. *)
Definition mix (f1 f2 : result Z) (y : Z) : result Z :=
  let! a := f1 in let! b := f2 in Ok (Z.lxor (Z.lxor a b) y).

Definition skew (p : skewed) (addr way : Z) : result Z :=
  let! a := parts p addr in
  let '(addr1, addr2) := a in
  let! addr1 :=
    match way mod 8 with
    | 0 => mix (hash p addr1) (hash p addr2) addr2
    | 1 => mix (hash p addr1) (hash p addr2) addr1
    | 2 => mix (hash p addr1) (dehash p addr2) addr2
    | 3 => mix (hash p addr1) (dehash p addr2) addr1
    | 4 => mix (dehash p addr1) (hash p addr2) addr2
    | 5 => mix (dehash p addr1) (hash p addr2) addr1
    | 6 => mix (dehash p addr1) (dehash p addr2) addr2
    | 7 => mix (dehash p addr1) (dehash p addr2) addr1
    | _ => Err Panic
    end in
  iterate (Z.to_nat (way / 8)) (hash p) addr1.

Definition deskew (p : skewed) (addr way : Z) : result Z :=
  let! a := parts p addr in
  let '(addr1, addr2) := a in
  let! addr1 := iterate (Z.to_nat (way / 8)) (dehash p) addr1 in
  match way mod 8 with
  | 0 => let! x := mix (Ok addr1) (hash p addr2) addr2 in dehash p x
  | 1 => let! x := mix (Ok addr1) (hash p addr2) 0 in iterate (Z.to_nat (msbShift p)) (hash p) x
  | 2 => let! x := mix (Ok addr1) (dehash p addr2) addr2 in dehash p x
  | 3 => let! x := mix (Ok addr1) (dehash p addr2) 0 in iterate (Z.to_nat (msbShift p)) (hash p) x
  | 4 => let! x := mix (Ok addr1) (hash p addr2) addr2 in hash p x
  | 5 => let! x := mix (Ok addr1) (hash p addr2) 0 in iterate (S (Z.to_nat (msbShift p))) (hash p) x
  | 6 => let! x := mix (Ok addr1) (dehash p addr2) addr2 in hash p x
  | 7 => let! x := mix (Ok addr1) (dehash p addr2) 0 in iterate (S (Z.to_nat (msbShift p))) (hash p) x
  | _ => Err Panic
  end.

Definition extractSet (p : skewed) (addr way : Z) : result Z :=
  let! a := shr 64 addr (setShift (base p)) in
  let! s := skew p a way in
  Ok (u32 (Z.land s (setMask (base p)))).

Definition regenerateAddr (p : skewed) (tag set way : Z) : result Z :=
  let! hi := shl 64 tag (msbShift p + 1) in
  let! d := deskew p (Z.lor hi set) way in
  let! hi := shl 64 tag (tagShift (base p)) in
  let! lo := shl 64 (Z.land d (setMask (base p))) (setShift (base p)) in
  Ok (Z.lor hi lo).

Definition getPossibleEntries (p : skewed) (addr : Z) : result (list Z) :=
  mapM_r (fun w => let! s := extractSet p addr (Z.of_nat w) in entry_at (base p) s (Z.of_nat w))
    (seq 0 (Z.to_nat (assoc (base p)))).
End SkewedAssociative.

Import SkewedAssociative.

(** ** The hash function and its inverse on words of [n] bits

    [n] is [msbShift + 1]. [turn] shifts right and puts the exclusive or of the
    outer bits on top; [unturn] takes that back. *)
Definition turn (n x : Z) : Z :=
  Z.lor (Z.shiftr x 1) (Z.shiftl (Z.b2z (xorb (Z.testbit x (n - 1)) (Z.testbit x 0))) (n - 1)).
Definition unturn (n x : Z) : Z :=
  Z.lor (Z.shiftl (uw (n - 1) x) 1) (Z.b2z (xorb (Z.testbit x (n - 2)) (Z.testbit x (n - 1)))).

Lemma turn_bit n x i : 1 <= n -> in_uw n x -> 0 <= i ->
  Z.testbit (turn n x) i =
    if i =? n - 1 then xorb (Z.testbit x (n - 1)) (Z.testbit x 0) else Z.testbit x (i + 1).
Proof.
  intros Hn Hx Hi. unfold turn. rewrite Z.lor_spec, Z.shiftr_spec by lia.
  destruct (Z.eqb_spec i (n - 1)) as [->|Hne].
  - rewrite (testbit_high n x (n - 1 + 1) Hx) by lia. rewrite Z.shiftl_spec, testbit_b2z, Z.sub_diag by lia. done.
  - rewrite Z.shiftl_spec, testbit_b2z by lia. destruct (Z.eqb_spec (i - (n - 1)) 0); [lia|]. by rewrite orb_false_r.
Qed.

Lemma unturn_bit n x i : 2 <= n -> 0 <= i ->
  Z.testbit (unturn n x) i =
    if i =? 0 then xorb (Z.testbit x (n - 2)) (Z.testbit x (n - 1)) else (i <? n) && Z.testbit x (i - 1).
Proof.
  intros Hn Hi. unfold unturn. rewrite Z.lor_spec, Z.shiftl_spec, testbit_b2z by lia.
  destruct (Z.eqb_spec i 0) as [->|Hne].
  - rewrite testbit_neg by lia. done.
  - rewrite testbit_uw by lia. rewrite orb_false_r. f_equal. destruct (Z.ltb_spec (i - 1) (n - 1)), (Z.ltb_spec i n); lia.
Qed.

Lemma turn_range n x : 1 <= n -> in_uw n x -> in_uw n (turn n x).
Proof.
  intros Hn Hx. apply in_uw_bits; [lia| |].
  - apply Z.lor_nonneg. split; [apply Z.shiftr_nonneg, Hx|]. apply Z.shiftl_nonneg. by destruct (xorb _ _).
  - intros i Hi. rewrite turn_bit by (done || lia). destruct (Z.eqb_spec i (n - 1)); [lia|].
    apply (testbit_high n); [done|lia].
Qed.

Lemma unturn_range n x : 2 <= n -> in_uw n (unturn n x).
Proof.
  intros Hn. apply in_uw_bits; [lia| |].
  - apply Z.lor_nonneg. split; [apply Z.shiftl_nonneg; apply (uw_range (n - 1)); lia|]. by destruct (xorb _ _).
  - intros i Hi. rewrite unturn_bit by lia. destruct (Z.eqb_spec i 0); [lia|].
    destruct (Z.ltb_spec i n); [lia|done].
Qed.

Lemma unturn_turn n x : 2 <= n -> in_uw n x -> unturn n (turn n x) = x.
Proof.
  intros Hn Hx. apply (bits_eq n); [by apply unturn_range|done|lia|]. intros i Hi.
  rewrite unturn_bit, !turn_bit by (done || lia). rewrite Z.eqb_refl.
  destruct (Z.eqb_spec i 0) as [->|], (Z.eqb_spec (n - 2) (n - 1)); try lia.
  - replace (n - 2 + 1) with (n - 1) by lia. by destruct (Z.testbit x (n - 1)), (Z.testbit x 0).
  - destruct (Z.ltb_spec i n); [|lia]. rewrite turn_bit by (done || lia).
    destruct (Z.eqb_spec (i - 1) (n - 1)); [lia|]. cbn [andb]. by replace (i - 1 + 1) with i by lia.
Qed.

Lemma turn_unturn n x : 2 <= n -> in_uw n x -> turn n (unturn n x) = x.
Proof.
  intros Hn Hx. pose proof (unturn_range n x Hn) as Hu. apply (bits_eq n); [by apply turn_range; [lia|]|done|lia|].
  intros i Hi. rewrite turn_bit, !unturn_bit by (done || lia). cbn [Z.eqb].
  destruct (Z.eqb_spec (n - 1) 0), (Z.eqb_spec (i + 1) 0), (Z.eqb_spec i (n - 1)) as [->|]; try lia.
  - destruct (Z.ltb_spec (n - 1) n); [|lia]. replace (n - 1 - 1) with (n - 2) by lia.
    by destruct (Z.testbit x (n - 1)), (Z.testbit x (n - 2)).
  - destruct (Z.ltb_spec (i + 1) n); [|lia]. cbn [andb]. f_equal. lia.
Qed.

Lemma lxor_range n x y : 0 <= n -> in_uw n x -> in_uw n y -> in_uw n (Z.lxor x y).
Proof.
  intros Hn Hx Hy. apply in_uw_bits; [lia|apply Z.lxor_nonneg; unfold in_uw in *; lia|].
  intros i Hi. rewrite Z.lxor_spec, (testbit_high n x), (testbit_high n y) by (done || lia). done.
Qed.

Lemma turn_lxor n x y : 1 <= n -> in_uw n x -> in_uw n y -> turn n (Z.lxor x y) = Z.lxor (turn n x) (turn n y).
Proof.
  intros Hn Hx Hy. apply (bits_eq n); try lia.
  - apply turn_range; [lia|]. apply lxor_range; [lia|done|done].
  - apply lxor_range; [lia|by apply turn_range..].
  - intros i Hi. rewrite Z.lxor_spec, !turn_bit, !Z.lxor_spec by (done || lia || (apply lxor_range; done || lia)).
    destruct (i =? n - 1); [|done].
    by destruct (Z.testbit x (n - 1)), (Z.testbit y (n - 1)), (Z.testbit x 0), (Z.testbit y 0).
Qed.

(** [k] turns. *)
Definition turns (n : Z) (k : nat) (x : Z) : Z := Nat.iter k (turn n) x.

Lemma turns_S n k x : turns n (S k) x = turn n (turns n k x).
Proof. done. Qed.

Lemma turns_range n k x : 1 <= n -> in_uw n x -> in_uw n (turns n k x).
Proof. intros Hn Hx. induction k as [|k IH]; [done|]. rewrite turns_S. by apply turn_range. Qed.

Lemma turns_lxor n k x y : 1 <= n -> in_uw n x -> in_uw n y ->
  turns n k (Z.lxor x y) = Z.lxor (turns n k x) (turns n k y).
Proof.
  intros Hn Hx Hy. induction k as [|k IH]; [done|]. rewrite !turns_S, IH. apply turn_lxor; [done|by apply turns_range..].
Qed.

Lemma turns_shift n k x : turns n k (turn n x) = turns n (S k) x.
Proof. induction k as [|k IH]; [done|]. by rewrite !turns_S, IH. Qed.

(** Bits move down one place with each turn. *)
Lemma turns_bit n k d x i : 1 <= n -> in_uw n x -> 0 <= i -> i + Z.of_nat d < n ->
  Z.testbit (turns n (d + k) x) i = Z.testbit (turns n k x) (i + Z.of_nat d).
Proof.
  intros Hn Hx. revert i. induction d as [|d IH]; intros i Hi Hd; [f_equal; lia|].
  cbn [Nat.add]. rewrite turns_S, turn_bit by (done || lia || by apply turns_range). destruct (Z.eqb_spec i (n - 1)); [lia|].
  rewrite IH by lia. f_equal. lia.
Qed.

(** The characteristic polynomial of [turn]: [turn^n = turn^(n-1) + 1]. *)
Lemma turns_characteristic n x : 2 <= n -> in_uw n x ->
  Z.lxor (turns n (Z.to_nat n) x) (turns n (Z.to_nat (n - 1)) x) = x.
Proof.
  intros Hn Hx. apply (bits_eq n); [|done|lia|].
  - apply lxor_range; [lia|apply turns_range; [lia|done]..].
  - intros i Hi. rewrite Z.lxor_spec.
    replace (Z.to_nat n) with (Z.to_nat (n - 1 - i) + S (Z.to_nat i))%nat by lia.
    replace (Z.to_nat (n - 1)) with (Z.to_nat (n - 1 - i) + Z.to_nat i)%nat by lia.
    rewrite !turns_bit by (done || lia). replace (i + Z.of_nat (Z.to_nat (n - 1 - i))) with (n - 1) by lia.
    assert (in_uw n (turns n (Z.to_nat i) x)) by (apply turns_range; [lia|done]).
    rewrite turns_S, turn_bit by (done || lia). rewrite Z.eqb_refl.
    pose proof (turns_bit n 0 (Z.to_nat i) x 0 ltac:(lia) Hx ltac:(lia) ltac:(lia)) as E.
    rewrite Nat.add_0_r in E. rewrite E. change (turns n 0 x) with x. replace (0 + Z.of_nat (Z.to_nat i)) with i by lia.
    by destruct (Z.testbit (turns n (Z.to_nat i) x) (n - 1)), (Z.testbit x i).
Qed.

(** ** The hash functions of the code *)

Lemma insertBit_bit v k b r i : in_uw 64 v -> 0 <= k < 64 -> 0 <= i ->
  insertBit v k (Z.b2z b) = Ok r -> Z.testbit r i = if i =? k then b else Z.testbit v i.
Proof.
  intros Hv Hk Hi E. rewrite (insertBits_testbit v k k (Z.b2z b) r i) by (done || lia).
  destruct (Z.eqb_spec i k) as [->|].
  - rewrite Z.leb_refl. cbn [andb]. rewrite Z.sub_diag. by destruct b.
  - destruct (Z.leb_spec k i), (Z.leb_spec i k); try done; lia.
Qed.

Lemma b2z_lxor a b : Z.lxor (Z.b2z a) (Z.b2z b) = Z.b2z (xorb a b).
Proof. by destruct a, b. Qed.

Section Hash.
Context (p : skewed) (n : Z).
Hypothesis Hn : 2 <= n <= 32.
Hypothesis Hp : msbShift p = n - 1.

Lemma in_uw_64 x : in_uw n x -> in_uw 64 x.
Proof using Hn. apply in_uw_mono. lia. Qed.

Lemma hash_turn x : in_uw n x -> hash p x = Ok (turn n x).
Proof using Hn Hp.
  intros Hx. pose proof (in_uw_64 x Hx) as H64. unfold hash.
  rewrite !bit_Ok, !bind_Ok, Hp, b2z_lxor by lia.
  assert (Hs : in_uw 64 (Z.shiftr x 1)) by (apply in_uw_shiftr; [lia|done]).
  destruct (insertBits_total (Z.shiftr x 1) (n - 1) (n - 1)
    (Z.b2z (xorb (Z.testbit x (n - 1)) (Z.testbit x 0))) Hs) as (r & E & Hr); [lia..|].
  unfold insertBit. rewrite E. f_equal. apply Z.bits_inj'. intros i Hi.
  rewrite (insertBit_bit _ (n - 1) _ _ i Hs ltac:(lia) Hi E), Z.shiftr_spec by lia.
  by rewrite turn_bit by (done || lia).
Qed.

Lemma dehash_unturn x : in_uw n x -> dehash p x = Ok (unturn n x).
Proof using Hn Hp.
  intros Hx. pose proof (in_uw_64 x Hx) as H64. unfold dehash.
  rewrite !bit_Ok, !bind_Ok, Hp, b2z_lxor by lia. replace (n - 1 - 1) with (n - 2) by lia.
  set (v := u64 _). assert (Hs : in_uw 64 v) by (apply uw_range; lia).
  destruct (insertBits_total v 0 0
    (Z.b2z (xorb (Z.testbit x (n - 2)) (Z.testbit x (n - 1)))) Hs) as (r & E & Hr); [lia..|].
  unfold insertBit. rewrite E. f_equal. apply Z.bits_inj'. intros i Hi.
  rewrite (insertBit_bit _ 0 _ _ i Hs ltac:(lia) Hi E), unturn_bit by lia.
  destruct (Z.eqb_spec i 0) as [|Hi0]; [done|]. subst v. unfold mbits.
  rewrite (uw_small 32) by (split; lia). rewrite testbit_uw, Z.shiftl_spec by lia.
  autorewrite with zbits. zbits_cases; zbits_finish.
Qed.

Lemma iterate_hash k x : in_uw n x -> iterate k (hash p) x = Ok (turns n k x).
Proof using Hn Hp.
  revert x. induction k as [|k IH]; intros x Hx; [done|]. cbn [iterate].
  rewrite hash_turn, bind_Ok, IH by (done || (apply turn_range; done || lia)). by rewrite turns_shift.
Qed.

Lemma iterate_dehash k x : in_uw n x -> iterate k (dehash p) (turns n k x) = Ok x.
Proof using Hn Hp.
  intros Hx. induction k as [|k IH]; [done|]. cbn [iterate].
  assert (in_uw n (turns n k x)) by (apply turns_range; [lia|done]).
  rewrite turns_S, dehash_unturn, bind_Ok, unturn_turn by (done || lia || (apply turn_range; done || lia)). exact IH.
Qed.

Lemma mix_even x y a : mix (Ok (Z.lxor (Z.lxor x y) a)) (Ok y) a = Ok x.
Proof using. unfold mix. rewrite !bind_Ok. f_equal. apply Z.bits_inj'. intros i _. rewrite !Z.lxor_spec.
  by destruct (Z.testbit x i), (Z.testbit y i), (Z.testbit a i). Qed.

Lemma mix_odd x y a : mix (Ok (Z.lxor (Z.lxor x y) a)) (Ok y) 0 = Ok (Z.lxor x a).
Proof using. unfold mix. rewrite !bind_Ok. f_equal. apply Z.bits_inj'. intros i _. rewrite !Z.lxor_spec, Z.testbit_0_l.
  by destruct (Z.testbit x i), (Z.testbit y i), (Z.testbit a i). Qed.

(** Turning [x + turn x] the number of times the code does gives [x]. *)
Lemma unmix_turn x : in_uw n x -> iterate (Z.to_nat (n - 1)) (hash p) (Z.lxor (turn n x) x) = Ok x.
Proof using Hn Hp.
  intros Hx. assert (in_uw n (turn n x)) by (apply turn_range; done || lia).
  rewrite iterate_hash by (apply lxor_range; done || lia).
  rewrite turns_lxor, turns_shift by (done || lia). replace (S (Z.to_nat (n - 1))) with (Z.to_nat n) by lia.
  by rewrite turns_characteristic by (done || lia).
Qed.

Lemma unmix_unturn x : in_uw n x -> iterate (S (Z.to_nat (n - 1))) (hash p) (Z.lxor (unturn n x) x) = Ok x.
Proof using Hn Hp.
  intros Hx. assert (in_uw n (unturn n x)) by (apply unturn_range; done || lia).
  cbn [iterate]. rewrite hash_turn, bind_Ok by (apply lxor_range; done || lia).
  rewrite turn_lxor, turn_unturn, Z.lxor_comm by (done || lia). by apply unmix_turn.
Qed.

(** The skewing function of a way is undone by [deskew] of the same way. *)
Lemma deskew_skew addr a1 a2 way :
  in_uw n a1 -> in_uw n a2 -> 0 <= way -> parts p addr = Ok (a1, a2) ->
  exists s, skew p addr way = Ok s /\ in_uw n s /\
    forall addr', parts p addr' = Ok (s, a2) -> deskew p addr' way = Ok a1.
Proof using Hn Hp.
  intros H1 H2 Hw Ha.
  assert (Ht : forall x, in_uw n x -> in_uw n (turn n x)) by (intros; apply turn_range; done || lia).
  assert (Hu : forall x, in_uw n x -> in_uw n (unturn n x)) by (intros; apply unturn_range; lia).
  assert (Hx : forall x y, in_uw n x -> in_uw n y -> in_uw n (Z.lxor x y)) by (intros; apply lxor_range; done || lia).
  unfold skew, deskew. rewrite Ha, bind_Ok, Hp.
  rewrite !hash_turn, !dehash_unturn by done. unfold mix at 1 2 3 4 5 6 7 8. rewrite !bind_Ok.
  pose proof (Z.mod_pos_bound way 8 ltac:(lia)).
  assert (way mod 8 = 0 \/ way mod 8 = 1 \/ way mod 8 = 2 \/ way mod 8 = 3 \/ way mod 8 = 4 \/
    way mod 8 = 5 \/ way mod 8 = 6 \/ way mod 8 = 7) as D by lia.
  destruct D as [->|[->|[->|[->|[->|[->|[->| ->]]]]]]]; rewrite bind_Ok, iterate_hash by auto;
    (eexists; split; [done|]; split; [apply turns_range; [lia|auto]|]; intros addr' ->;
     rewrite bind_Ok, iterate_dehash, bind_Ok by auto;
     rewrite ?hash_turn, ?dehash_unturn by done; rewrite ?mix_even, ?mix_odd, bind_Ok;
     rewrite ?unmix_turn, ?unmix_unturn by done; rewrite ?dehash_unturn, ?hash_turn by auto;
     rewrite ?unturn_turn, ?turn_unturn by (done || lia); done).
Qed.
End Hash.

(** ** What the constructors establish *)

(** A policy of [2^k] sets. *)
Record geometry (p : t) (k : Z) : Prop := {
  geo_k : 0 <= k < 32;
  geo_sets : numSets p = 2 ^ k;
  geo_mask : setMask p = 2 ^ k - 1;
  geo_tag : tagShift p = setShift p + k;
  geo_shift : 0 <= setShift p;
  geo_assoc : 0 < assoc p;
}.

Lemma new_geometry a n s p : 0 <= a -> in_uw 32 n -> 0 <= s -> Indexing.new a n s = Ok p ->
  exists k, geometry p k /\ assoc p = a /\ setShift p = s /\ numSets p = n / a.
Proof.
  intros Ha Hn Hs H. unfold Indexing.new in H. destruct (Z.eqb_spec a 0); [done|]. rewrite bind_Ok in H.
  assert (Hr : in_uw 32 (n / a)).
  { unfold in_uw in *. split; [apply Z.div_pos; lia|]. apply Z.div_lt_upper_bound; nia. }
  ok_inv. subst p. cbn. apply isPowerOf2_table in E0; [|done].
  destruct (table_mask _ E0) as (k & Hk & Ek & Em & Hpos). exists k.
  rewrite floorLog2_log2 in E by (auto; unfold in_uw in Hr; lia). injection E as <-.
  split; [|done]. constructor; cbn; try done; try lia. rewrite Ek, Z.log2_pow2 by lia. done.
Qed.

Lemma set_new_geometry a size es p : 0 <= a -> in_uw 31 es ->
  SetAssociative.new a size es = Ok p ->
  exists k, geometry p k /\ assoc p = a /\ 0 < es /\ setShift p = Z.log2 es /\ numSets p = u32 (size / es) / a.
Proof.
  intros Ha He H. unfold SetAssociative.new in H. destruct (Z.eqb_spec es 0); [done|]. rewrite bind_Ok in H.
  unfold in_uw in He. rewrite floorLog2_log2, bind_Ok in H by (auto; lia).
  apply new_geometry in H as (k & G & -> & -> & ->); [|done|apply uw_range; lia|apply Z.log2_nonneg].
  exists k. split_and!; try done. lia.
Qed.

(** Every set and way has one entry, and [setEntry] puts it there. *)
Lemma entry_at_setEntry p k set way : geometry p k -> 0 <= set < numSets p -> 0 <= way < assoc p -> assoc p < 2 ^ 32 ->
  entry_at p set way = Ok (set * assoc p + way) /\ setEntry p (set * assoc p + way) = Ok (set, way).
Proof.
  intros G Hs Hw Ha. unfold entry_at, setEntry.
  destruct (Z.leb_spec 0 set), (Z.ltb_spec set (numSets p)), (Z.leb_spec 0 way), (Z.ltb_spec way (assoc p)); try lia.
  cbn [andb]. split; [done|]. destruct (Z.eqb_spec (assoc p) 0); [lia|]. rewrite bind_Ok.
  pose proof (Z.pow_lt_mono_r 2 k 32 ltac:(lia) ltac:(lia) ltac:(apply G)). pose proof (geo_sets _ _ G).
  rewrite Z.div_add_l, (Z.add_comm _ way), Z.mod_add by lia. rewrite (Z.div_small way), (Z.mod_small way) by lia.
  rewrite Z.add_0_r, (uw_small 32 set), (uw_small 32 way) by (split; lia).
  destruct (Z.ltb_spec set (numSets p)); [done|lia].
Qed.

(** Block-aligned addresses: the bits above [s] kept. *)
Definition block (s addr : Z) : Z := Z.shiftl (Z.shiftr addr s) s.

Lemma tag_set_block s k addr : 0 <= s -> 0 <= k -> s + k <= 64 -> in_uw 64 addr ->
  Z.lor (u64 (Z.shiftl (Z.shiftr addr (s + k)) (s + k))) (Z.shiftl (uw k (Z.shiftr addr s)) s) = block s addr.
Proof.
  intros Hs Hk H64 Ha. unfold block. apply Z.bits_inj'. intros i Hi.
  rewrite Z.lor_spec, testbit_uw by lia. rewrite !Z.shiftl_spec by lia.
  destruct (Z.lt_ge_cases i s); [rewrite !Z.testbit_neg_r by lia; by rewrite andb_false_r|].
  rewrite testbit_uw, (Z.shiftr_spec addr s) by lia. replace (i - s + s) with i by lia.
  destruct (Z.ltb_spec (i - s) k); [rewrite (Z.testbit_neg_r _ (i - (s + k))) by lia; by rewrite andb_false_r|].
  rewrite Z.shiftr_spec by lia. replace (i - (s + k) + (s + k)) with i by lia. rewrite orb_false_r.
  destruct (Z.ltb_spec i 64); [done|]. by rewrite (testbit_high 64 addr).
Qed.

(** The entries of an address: one in each way. *)
Lemma mapM_entries p k (f : Z -> result Z) (g : Z -> Z) (l : list nat) :
  geometry p k -> assoc p < 2 ^ 32 ->
  (forall w, (w ∈ l)%nat -> Z.of_nat w < assoc p) ->
  (forall w, 0 <= w < assoc p -> f w = Ok (g w) /\ 0 <= g w < numSets p) ->
  mapM_r (fun w => let! s := f (Z.of_nat w) in entry_at p s (Z.of_nat w)) l =
    Ok ((fun w => g (Z.of_nat w) * assoc p + Z.of_nat w) <$> l).
Proof.
  intros G Ha Hl Hf. induction l as [|w l IH]; [done|]. cbn [mapM_r].
  destruct (Hf (Z.of_nat w)) as [E Hg]; [split; [lia|apply Hl; set_solver]|].
  rewrite E, bind_Ok. destruct (entry_at_setEntry p k (g (Z.of_nat w)) (Z.of_nat w)) as [-> _]; try done.
  { split; [lia|apply Hl; set_solver]. }
  rewrite bind_Ok, IH; [done|]. intros v Hv. apply Hl. set_solver.
Qed.

(** The two fields of [k] bits that the skewing functions read. *)
Lemma parts_Ok p k a : msbShift p = k - 1 -> 1 <= k <= 32 -> parts p a = Ok (uw k a, uw k (Z.shiftr a k)).
Proof.
  intros Hm Hk. unfold parts. rewrite Hm, !bits_Ok, !bind_Ok, Z.shiftr_0_r by lia.
  replace (k - 1 - 0 + 1) with k by lia. replace (k - 1 + 1) with k by lia.
  by replace (2 * k - 1 - k + 1) with k by lia.
Qed.

Lemma parts_join p k tag s : msbShift p = k - 1 -> 1 <= k <= 32 -> in_uw k s ->
  parts p (Z.lor (u64 (Z.shiftl tag k)) s) = Ok (s, uw k tag).
Proof.
  intros Hm Hk Hs. rewrite (parts_Ok p k) by done. f_equal. f_equal.
  - apply (bits_eq k); [apply uw_range; lia|done|lia|]. intros i Hi. rewrite testbit_uw by lia.
    destruct (Z.ltb_spec i k); [|lia]. cbn [andb]. rewrite Z.lor_spec, testbit_uw, Z.shiftl_spec by lia.
    rewrite (Z.testbit_neg_r _ (i - k)) by lia. by rewrite andb_false_r.
  - apply (bits_eq k); [apply uw_range; lia..|lia|]. intros i Hi. rewrite !testbit_uw by lia.
    destruct (Z.ltb_spec i k); [|lia]. cbn [andb]. rewrite Z.shiftr_spec by lia.
    rewrite Z.lor_spec, testbit_uw, Z.shiftl_spec by lia.
    rewrite (testbit_high k s) by (done || lia). destruct (Z.ltb_spec (i + k) 64); [|lia].
    rewrite orb_false_r. cbn [andb]. f_equal. lia.
Qed.

Lemma field_shl_small w k s x : 0 <= k -> 0 <= s -> s + k <= w -> in_uw k x -> uw w (Z.shiftl x s) = Z.shiftl x s.
Proof.
  intros Hk Hs Hw Hx. apply uw_small. unfold in_uw in *. rewrite Z.shiftl_mul_pow2 by lia.
  pose proof (pow2_pos s Hs). split; [nia|]. apply Z.lt_le_trans with (2 ^ k * 2 ^ s); [nia|].
  rewrite <- Z.pow_add_r by lia. apply Z.pow_le_mono_r; lia.
Qed.

(** The set of an address in each way of a skewed cache, and back. *)
Lemma skewed_set p k addr way : geometry (base p) k -> msbShift p = k - 1 -> 2 <= k -> setShift (base p) + 2 * k <= 64 ->
  in_uw 64 addr -> 0 <= way ->
  exists s, extractSet p addr way = Ok s /\ in_uw k s /\
    regenerateAddr p (Z.shiftr addr (tagShift (base p))) s way = Ok (block (setShift (base p)) addr).
Proof.
  intros G Hm Hk H64 Ha Hw. destruct G as [Gk Gs Gm Gt Gsh Ga].
  set (s0 := setShift (base p)) in *. unfold extractSet, regenerateAddr. fold s0.
  rewrite shr_Ok, bind_Ok by lia. set (a := Z.shiftr addr s0).
  destruct (deskew_skew p k ltac:(lia) Hm a (uw k a) (uw k (Z.shiftr a k)) way) as (s & -> & Hs & Hd); try done;
    [apply uw_range; lia..|by apply parts_Ok; lia|].
  exists s. rewrite bind_Ok, Gm. rewrite land_ones_uw, (uw_small k s) by (done || lia).
  split; [f_equal; apply uw_small; by eapply in_uw_mono; [|done]; lia|]. split; [done|].
  rewrite Hm, Gt. replace (k - 1 + 1) with k by lia. rewrite shl_Ok, bind_Ok by lia.
  rewrite Hd, bind_Ok.
  - rewrite !shl_Ok, !bind_Ok by lia. f_equal. rewrite land_ones_uw by lia.
    rewrite (uw_small k (uw k a)), (field_shl_small 64 k s0 (uw k a)) by (lia || (apply uw_range; lia)).
    apply tag_set_block; done || lia.
  - rewrite (parts_join p k) by (done || lia). subst a. by rewrite Z.shiftr_shiftr by lia.
Qed.

Lemma skewed_new_geometry a size es p : 0 <= a -> in_uw 31 es -> SkewedAssociative.new a size es = Ok p ->
  exists k, geometry (base p) k /\ msbShift p = k - 1 /\ 2 <= k /\ setShift (base p) + 2 * k <= 64 /\ assoc (base p) = a.
Proof.
  intros Ha He H. unfold SkewedAssociative.new in H. ok_inv. subst p. cbn.
  apply set_new_geometry in E as (k & G & Ea & Hes & Es & En); [|done..].
  pose proof (geo_k _ _ G). pose proof (Z.pow_lt_mono_r 2 k 32). pose proof (pow2_pos k ltac:(lia)).
  rewrite (geo_sets _ _ G), floorLog2_log2 in E0 by (auto; lia). rewrite Z.log2_pow2 in E0 by lia. injection E0 as <-.
  exists k. split; [done|]. split; [done|]. apply negb_true_iff in E1, E2. apply Z.ltb_ge in E1. apply Z.leb_gt in E2.
  rewrite (geo_sets _ _ G) in E2. split; [|split; [lia|done]].
  destruct (Z.le_gt_cases 2 k); [done|]. assert (k = 0 \/ k = 1) as [-> | ->] by lia; lia.
Qed.

(** An address's entries: one per way, distinct, at the set [g] gives for it. *)
Lemma entries_spec p k (g : Z -> Z) : geometry p k -> assoc p < 2 ^ 32 ->
  (forall w, 0 <= w < assoc p -> 0 <= g w < numSets p) ->
  let l := (fun w => g (Z.of_nat w) * assoc p + Z.of_nat w) <$> seq 0 (Z.to_nat (assoc p)) in
  Z.of_nat (length l) = assoc p /\ NoDup l /\
  forall w, 0 <= w < assoc p -> exists e, l !! Z.to_nat w = Some e /\ setEntry p e = Ok (g w, w).
Proof.
  intros G Ha Hg l. pose proof (geo_assoc _ _ G). subst l. split; [rewrite length_fmap, length_seq; lia|]. split.
  - apply NoDup_fmap_2_strong; [|apply NoDup_seq]. intros v w Hv Hw E. apply elem_of_seq in Hv, Hw.
    apply (f_equal (fun x => x mod assoc p)) in E. rewrite !(Z.add_comm (_ * _)), !Z.mod_add, !Z.mod_small in E by lia. lia.
  - intros w Hw. exists (g w * assoc p + w). split.
    + rewrite list_lookup_fmap, lookup_seq_lt by lia. cbn. do 2 f_equal; [|lia]. do 2 f_equal. lia.
    + by apply (entry_at_setEntry p k); [|apply Hg| |].
Qed.

Definition value {A} (d : A) (r : result A) : A := match r with Ok x => x | Err _ => d end.

Lemma tag_Ok p k addr : geometry p k -> tagShift p < 64 -> extractTag p addr = Ok (Z.shiftr addr (tagShift p)).
Proof. intros G H. unfold extractTag. apply shr_Ok. pose proof (geo_tag _ _ G). destruct G. lia. Qed.

(** C32: skewed-associative indexing is sound: an address has one entry in every
    way, all different, each recorded by [setEntry] at the set the way's skewing
    function gives; and from the tag and any of these positions
    [regenerateAddr] recovers the block address, for any number of ways. *)
Theorem skewed_indexing_correct a size es p addr :
  in_uw 32 a -> in_uw 31 es -> SkewedAssociative.new a size es = Ok p -> in_uw 64 addr ->
  exists tag l, extractTag (base p) addr = Ok tag /\ SkewedAssociative.getPossibleEntries p addr = Ok l /\
    Z.of_nat (length l) = a /\ NoDup l /\
    forall way, 0 <= way < a -> exists e set,
      l !! Z.to_nat way = Some e /\ setEntry (base p) e = Ok (set, way) /\
      SkewedAssociative.extractSet p addr way = Ok set /\
      SkewedAssociative.regenerateAddr p tag set way = Ok (block (setShift (base p)) addr).
Proof.
  intros Ha He Hp Haddr. destruct (skewed_new_geometry a size es p) as (k & G & Hm & Hk & H64 & <-); [apply Ha|done..|].
  set (g := fun w => value 0 (extractSet p addr w)).
  assert (Hg : forall w, 0 <= w < assoc (base p) -> extractSet p addr w = Ok (g w) /\ 0 <= g w < numSets (base p) /\
    regenerateAddr p (Z.shiftr addr (tagShift (base p))) (g w) w = Ok (block (setShift (base p)) addr)).
  { intros w Hw. destruct (skewed_set p k addr w) as (s & Es & Hs & Hr); try done; [lia|].
    unfold g. rewrite Es. cbn. rewrite (geo_sets _ _ G). done. }
  pose proof (geo_tag _ _ G). pose proof (geo_k _ _ G).
  destruct (entries_spec (base p) k g) as (Hlen & Hnd & Hpos); [done|apply Ha|intros w Hw; by apply Hg|].
  eexists _, _. split; [apply (tag_Ok _ k); [done|lia]|]. split.
  { apply (mapM_entries (base p) k (extractSet p addr) g); [done|apply Ha| |intros w Hw; by split; apply Hg].
    intros w Hw%elem_of_seq. lia. }
  split; [done|]. split; [done|]. intros way Hway. destruct (Hpos way Hway) as (e & Ee & Hset).
  destruct (Hg way Hway) as (Es & _ & Hr). by exists e, (g way).
Qed.

Lemma skewed_indexing_correct_witness :
  exists p tag l, SkewedAssociative.new 16 65536 64 = Ok p /\ extractTag (base p) 0x12345678 = Ok tag /\
    SkewedAssociative.getPossibleEntries p 0x12345678 = Ok l /\ NoDup l.
Proof.
  destruct (SkewedAssociative.new 16 65536 64) as [p|] eqn:E; [|vm_compute in E; discriminate E].
  destruct (skewed_indexing_correct 16 65536 64 p 0x12345678) as (tag & l & H1 & H2 & _ & H4 & _);
    [split; lia..|exact E|split; lia|]. by exists p, tag, l.
Defined.

(** The set of an address in a set-associative cache, and back. *)
Lemma set_assoc_set p k addr : geometry p k -> setShift p < 64 -> in_uw 64 addr ->
  exists s, SetAssociative.extractSet p addr = Ok s /\ in_uw k s /\
    (tagShift p <= 32 -> setShift p < 32 ->
     SetAssociative.regenerateAddr p (Z.shiftr addr (tagShift p)) s = Ok (block (setShift p) addr)).
Proof.
  intros [Gk Gs Gm Gt Gsh Ga] Hs Ha. unfold SetAssociative.extractSet, SetAssociative.regenerateAddr.
  assert (Hu : in_uw k (uw k (Z.shiftr addr (setShift p)))) by (apply uw_range; lia).
  exists (uw k (Z.shiftr addr (setShift p))). rewrite shr_Ok, bind_Ok, Gm, masked_index by (lia || (apply Z.shiftr_nonneg; apply Ha)).
  split; [done|]. split; [done|]. intros H32 Hs32. rewrite !shl_Ok, !bind_Ok, Gt by lia.
  rewrite (field_shl_small 32 k) by (done || lia). f_equal. apply tag_set_block; done || lia.
Qed.

(** set-associative indexing is sound: an address has the [assoc] entries of
    one set, all different and recorded by [setEntry] at that set and their way;
    and from the tag and the position [regenerateAddr] recovers the block
    address, provided the set field ends within the low 32 bits (the shift of
    the set number is a 32-bit one). *)
Theorem set_indexing_correct a size es p addr :
  in_uw 32 a -> in_uw 31 es -> SetAssociative.new a size es = Ok p -> in_uw 64 addr -> tagShift p <= 32 ->
  exists tag l set, extractTag p addr = Ok tag /\ SetAssociative.getPossibleEntries p addr = Ok l /\
    SetAssociative.extractSet p addr = Ok set /\ Z.of_nat (length l) = a /\ NoDup l /\
    SetAssociative.regenerateAddr p tag set = Ok (block (setShift p) addr) /\
    forall way, 0 <= way < a -> exists e, l !! Z.to_nat way = Some e /\ setEntry p e = Ok (set, way).
Proof.
  intros Ha He Hp Haddr H32. destruct (set_new_geometry a size es p) as (k & G & <- & Hes & Hss & _); [apply Ha|done..|].
  assert (Hs31 : setShift p < 31) by (rewrite Hss; apply Z.log2_lt_pow2; [done|apply He]).
  destruct (set_assoc_set p k addr) as (s & Es & Hs & Hr); [done|lia|done|].
  assert (Hs' : 0 <= s < numSets p) by by rewrite (geo_sets _ _ G).
  destruct (entries_spec p k (fun _ => s)) as (Hlen & Hnd & Hpos); [done|apply Ha|done|].
  eexists _, _, s. split; [apply (tag_Ok _ k); [done|lia]|]. split.
  { unfold SetAssociative.getPossibleEntries. rewrite Es, bind_Ok. destruct (Z.ltb_spec s (numSets p)); [|lia].
    apply (mapM_entries p k (fun _ => Ok s) (fun _ => s)); [done|apply Ha| |done].
    intros w Hw%elem_of_seq. pose proof (geo_assoc _ _ G). lia. }
  split_and!; try done. apply Hr; lia.
Qed.

Lemma set_indexing_correct_witness :
  exists p tag l set, SetAssociative.new 8 32768 64 = Ok p /\ extractTag p 0xdeadbeef = Ok tag /\
    SetAssociative.getPossibleEntries p 0xdeadbeef = Ok l /\ NoDup l /\
    SetAssociative.regenerateAddr p tag set = Ok (block 6 0xdeadbeef).
Proof.
  destruct (SetAssociative.new 8 32768 64) as [p|] eqn:E; [|vm_compute in E; discriminate E].
  assert (Hp : tagShift p <= 32 /\ setShift p = 6) by (vm_compute in E; injection E as <-; done).
  destruct (set_indexing_correct 8 32768 64 p 0xdeadbeef) as (tag & l & set & H1 & H2 & _ & _ & H4 & H5 & _);
    [split; lia..|exact E|split; lia|apply Hp|]. exists p, tag, l, set. rewrite (proj2 Hp) in H5. done.
Defined.

(** in a cache of 2^27 sets of 64-byte blocks the 32-bit shift of the set
    number loses bits: the block at 2^32 has set 2^26 and tag 0, and the address
    regenerated from them is 0. *)
Theorem set_regenerate_truncates :
  exists p, SetAssociative.new 1 (2 ^ 33) 64 = Ok p /\ extractTag p (2 ^ 32) = Ok 0 /\
    SetAssociative.extractSet p (2 ^ 32) = Ok (2 ^ 26) /\ SetAssociative.regenerateAddr p 0 (2 ^ 26) = Ok 0.
Proof. eexists. split; [vm_compute; reflexivity|]. by vm_compute. Qed.
