(* ===== verification/AssocCache.v ===== *)
(** * Associative containers

    Model of src/gem5/src/base/cache/associative_cache.hh and cache_entry.hh: a
    vector of tagged entries, placed by an indexing policy and replaced by a
    replacement policy, both behind their interfaces. An entry is known by its
    index in the vector. *)

From S2P Require Import Prelude Bits Tables Replacement ReplLaws.

(** What the container uses of its indexing policy [X], for keys [K] and tags
    [T]: [setEntry], [getPossibleEntries], the tag extractor and the tag of an
    invalid entry. *)
Class CacheKey (K X T : Type) := {
  ck_setEntry : X -> Z -> result (Z * Z);
  ck_possible : X -> K -> result (list Z);
  ck_tag : X -> K -> result T;
  ck_none : T;
}.

Module CacheEntry.
Section CacheEntry.
Context {K X T V : Type} `{!EqDecision T, !CacheKey K X T}.

(** A tagged entry with the members [payload] of the class derived from it. *)
Record t := mk { valid : bool; tag : T; payload : V }.

Definition new (v : V) : t := mk false ck_none v.

Definition matches (x : X) (key : K) (e : t) : result bool :=
  if valid e then let! g := ck_tag x key in Ok (bool_decide (tag e = g)) else Ok false.

(** [insert], with the assertion of [setValid]. *)
Definition insert (x : X) (key : K) (e : t) : result t :=
  guard! negb (valid e);
  let! g := ck_tag x key in Ok (mk true g (payload e)).

Definition invalidate (e : t) : t := mk false ck_none (payload e).
End CacheEntry.
Arguments t : clear implicits.
End CacheEntry.

Module AssociativeCache.
Section AssociativeCache.
Context {K X T V G D : Type} `{!EqDecision T, !CacheKey K X T, !ReplPolicy G D}.

(** The entries and their replacement data, which the code keeps in the base
    class of the entry. *)
Record t := mk {
  associativity : Z;
  replPolicy : G;
  indexingPolicy : X;
  entries : list (CacheEntry.t T V);
  replacementData : list D;
}.

(** The loop of [initParams], from entry [entry_idx] on. *)
Fixpoint init_loop (n : nat) (entry_idx : Z) (x : X) (g : G) : result (list D * G) :=
  match n with
  | O => Ok ([], g)
  | S n =>
      let! _ := ck_setEntry x entry_idx in
      let! dg := rp_instantiateEntry g in
      let! r := init_loop n (entry_idx + 1) x dg.2 in
      Ok (dg.1 :: r.1, r.2)
  end.

Definition new (num_entries assoc : Z) (g : G) (x : X) (init_val : V) : result t :=
  let! _ := (if assoc =? 0 then Err Undefined else Ok tt) in
  let! _ := check Fatal (num_entries mod assoc =? 0) in
  let! r := init_loop (Z.to_nat num_entries) 0 x g in
  Ok (mk assoc r.2 x (replicate (Z.to_nat num_entries) (CacheEntry.new (K := K) (X := X) init_val)) r.1).

Definition with_entry (i : Z) (e : CacheEntry.t T V) (d : D) (g : G) (c : t) : result t :=
  let! es := vset (entries c) i e in
  let! ds := vset (replacementData c) i d in
  Ok (mk (associativity c) g (indexingPolicy c) es ds).

(** [invalidate(entry)]. *)
Definition invalidate (i : Z) (c : t) : result t :=
  let! e := vget (entries c) i in
  let! d := vget (replacementData c) i in
  let! dg := rp_invalidate d (replPolicy c) in
  with_entry i (CacheEntry.invalidate (K := K) (X := X) e) dg.1 dg.2 c.

(** The loop of [clear] over the entries from [i] on. *)
Fixpoint clear_loop (n : nat) (i : Z) (c : t) : result t :=
  match n with O => Ok c | S n => let! c := invalidate i c in clear_loop n (i + 1) c end.
Definition clear (c : t) : result t := clear_loop (length (entries c)) 0 c.

(** The loop of [findEntry] over the candidates. *)
Fixpoint find_loop (key : K) (candidates : list Z) (c : t) : result (option Z) :=
  match candidates with
  | [] => Ok None
  | i :: candidates =>
      let! e := vget (entries c) i in
      let! m := CacheEntry.matches (indexingPolicy c) key e in
      if m : bool then Ok (Some i) else find_loop key candidates c
  end.

Definition findEntry (key : K) (c : t) : result (option Z) :=
  let! candidates := ck_possible (indexingPolicy c) key in find_loop key candidates c.

(** [accessEntry(entry)] and [accessEntry(key)]. *)
Definition accessEntry_at (tick : Z) (i : Z) (c : t) : result t :=
  let! e := vget (entries c) i in
  let! d := vget (replacementData c) i in
  let! dg := rp_touch tick d (replPolicy c) in
  with_entry i e dg.1 dg.2 c.

Definition accessEntry (tick : Z) (key : K) (c : t) : result (option Z * t) :=
  let! entry := findEntry key c in
  match entry with
  | Some i => let! c := accessEntry_at tick i c in Ok (Some i, c)
  | None => Ok (None, c)
  end.

(** The replacement data of the candidates written back after the search. *)
Fixpoint write_back (candidates : list Z) (ds : list D) (all : list D) : result (list D) :=
  match candidates, ds with
  | i :: candidates, d :: ds => let! all := vset all i d in write_back candidates ds all
  | _, _ => Ok all
  end.

(** [findVictim]; [rnd] is the random number the policy draws, which the
    generator maps into the range of the candidates. *)
Definition findVictim (rnd : Z) (key : K) (c : t) : result (Z * t) :=
  let! candidates := ck_possible (indexingPolicy c) key in
  let! ds := mapM_r (vget (replacementData c)) candidates in
  let! r := rp_getVictim (rnd mod Z.of_nat (length candidates)) ds (replPolicy c) in
  let '(v, ds, g) := r in
  let! all := write_back candidates ds (replacementData c) in
  let! victim := vget candidates (Z.of_nat v) in
  let! c := invalidate victim (mk (associativity c) g (indexingPolicy c) (entries c) all) in
  Ok (victim, c).

Definition insertEntry (tick rnd : Z) (key : K) (i : Z) (c : t) : result t :=
  let! e := vget (entries c) i in
  let! e := CacheEntry.insert (indexingPolicy c) key e in
  let! d := vget (replacementData c) i in
  let! dg := rp_reset tick rnd d (replPolicy c) in
  with_entry i e dg.1 dg.2 c.
End AssociativeCache.
Arguments t : clear implicits.
End AssociativeCache.

Import AssociativeCache.

(** What the container relies on in its indexing policy, for a policy over [N]
    entries: every key has candidates, all different, and two keys share all or
    none of them. *)
Class KeyLaws (K X T : Type) `{CacheKey K X T} := {
  kl_wf : forall (x : X) (N : Z), Prop;
  kl_key : forall (x : X) (k : K), Prop;
  kl_setEntry x N i : kl_wf x N -> 0 <= i < N -> exists p, ck_setEntry x i = Ok p;
  kl_possible x N k : kl_wf x N -> kl_key x k ->
    exists l, ck_possible x k = Ok l /\ l <> [] /\ NoDup l /\ Forall (fun i => 0 <= i < N) l;
  kl_partition x N k k' l l' i : kl_wf x N -> ck_possible x k = Ok l -> ck_possible x k' = Ok l' ->
    i ∈ l -> i ∈ l' -> l = l';
  kl_cover x N i : kl_wf x N -> 0 <= i < N -> exists k l, kl_key x k /\ ck_possible x k = Ok l /\ i ∈ l;
  kl_tag x N k : kl_wf x N -> kl_key x k -> exists t, ck_tag x k = Ok t;
}.

(** ** The data of the candidates *)
Definition picks {D} (ds : list D) (l : list Z) (cs : list D) : Prop :=
  Forall2 (fun i d => ds !! Z.to_nat i = Some d) l cs.

Section Picks.
Context {D : Type}.
Implicit Types (ds cs : list D) (l : list Z).

Lemma picks_total ds l : Forall (fun i => 0 <= i < Z.of_nat (length ds)) l ->
  exists cs, picks ds l cs /\ mapM_r (vget ds) l = Ok cs.
Proof.
  induction 1 as [|i l Hi _ (cs & Hcs & E)]; [by exists []; split; [constructor|]|].
  destruct (vget_Ok ds i Hi) as (d & Ed & Hd). exists (d :: cs). split; [by constructor|].
  cbn [mapM_r]. by rewrite Ed, bind_Ok, E.
Qed.

Lemma picks_lookup ds l cs j i : picks ds l cs -> l !! j = Some i -> exists d, cs !! j = Some d /\ ds !! Z.to_nat i = Some d.
Proof. intros Hp Hj. destruct (Forall2_lookup_l _ _ _ _ _ Hp Hj) as (d & Hd & E). by exists d. Qed.

Lemma picks_unique ds l cs cs' : picks ds l cs -> picks ds l cs' -> cs = cs'.
Proof.
  intros Hp. revert cs'. induction Hp as [|i d l cs E Hp IH]; intros cs' Hp'; inversion Hp'; subst; [done|].
  f_equal; [congruence|auto].
Qed.

(** Indices in range and the positions of a list without repetitions. *)
Lemma nodup_pos l j j' i i' : NoDup l -> Forall (fun i => 0 <= i) l -> l !! j = Some i -> l !! j' = Some i' ->
  j <> j' -> Z.to_nat i <> Z.to_nat i'.
Proof.
  intros Hnd Hpos Hj Hj' Hne Ei. pose proof (Forall_lookup_1 _ _ _ _ Hpos Hj). pose proof (Forall_lookup_1 _ _ _ _ Hpos Hj').
  apply Hne. eapply NoDup_lookup; [done|exact Hj|]. rewrite Hj'. f_equal. cbn in *. lia.
Qed.

Lemma picks_insert ds l cs j i d : picks ds l cs -> NoDup l -> Forall (fun i => 0 <= i) l -> l !! j = Some i ->
  picks (<[Z.to_nat i := d]> ds) l (<[j := d]> cs).
Proof.
  intros Hp Hnd Hpos Hj. apply Forall2_same_length_lookup_2; [by rewrite length_insert; apply (Forall2_length _ _ _ Hp)|].
  intros j' i' d' Hi' Hd'. destruct (decide (j' = j)) as [->|Hne].
  - rewrite Hj in Hi'. injection Hi' as <-. destruct (picks_lookup _ _ _ _ _ Hp Hj) as (d0 & Hd0 & E).
    apply lookup_lt_Some in Hd0, E. rewrite list_lookup_insert_eq in Hd' by done. injection Hd' as <-.
    by rewrite list_lookup_insert_eq.
  - rewrite list_lookup_insert_ne in Hd' by done. rewrite list_lookup_insert_ne by (by eapply nodup_pos).
    destruct (picks_lookup _ _ _ _ _ Hp Hi') as (d0 & Hd0 & E). congruence.
Qed.

Lemma picks_other ds l cs i d : picks ds l cs -> Forall (fun i => 0 <= i) l -> 0 <= i -> i ∉ l ->
  picks (<[Z.to_nat i := d]> ds) l cs.
Proof.
  intros Hp Hpos Hi Hnot. induction Hp as [|i' d' l cs E Hp IH]; [constructor|].
  apply Forall_cons in Hpos as [Hi' Hpos]. apply not_elem_of_cons in Hnot as [Hne Hnot].
  constructor; [|by apply IH]. rewrite list_lookup_insert_ne; [done|]. lia.
Qed.

Lemma write_back_spec l cs ds : NoDup l -> Forall (fun i => 0 <= i < Z.of_nat (length ds)) l -> length cs = length l ->
  exists all, write_back l cs ds = Ok all /\ length all = length ds /\ picks all l cs /\
    forall l' cs', picks ds l' cs' -> Forall (fun i => 0 <= i) l' -> (forall i, i ∈ l -> i ∉ l') -> picks all l' cs'.
Proof.
  revert cs ds. induction l as [|i l IH]; intros [|d cs] ds Hnd Hr Hl; try done.
  { exists ds. split; [done|]. split; [done|]. split; [constructor|auto]. }
  apply NoDup_cons in Hnd as [Hi Hnd]. apply Forall_cons in Hr as [Hir Hr]. cbn [write_back].
  rewrite vset_Ok, bind_Ok by done.
  destruct (IH cs (<[Z.to_nat i := d]> ds)) as (all & E & Hlen & Hp & Hother);
    [done|by rewrite length_insert|cbn in Hl; lia|].
  exists all. rewrite length_insert in Hlen. split; [done|]. split; [done|]. split.
  - constructor; [|done].
    assert (Hone : picks all [i] [d]).
    { apply Hother; [|constructor; [lia|done]|].
      - constructor; [|constructor]. rewrite list_lookup_insert_eq by lia. done.
      - intros i' Hi' ->%list_elem_of_singleton. done. }
    by apply Forall2_cons_1 in Hone as [? _].
  - intros l' cs' Hp' Hpos' Hdis. apply Hother; [|done|].
    + apply picks_other; [done..|lia|]. apply Hdis. set_solver.
    + intros i' Hi'. apply Hdis. set_solver.
Qed.
End Picks.

Section Laws.
Context {K X T V G D : Type} `{!EqDecision T, !CacheKey K X T, !ReplPolicy G D, !KeyLaws K X T, !ReplLaws G D}.
Abbreviation cache := (AssociativeCache.t X T V G D).
Implicit Types (c : cache) (k : K) (l : list Z).

(** The invariant: [N] entries with their replacement data, and data that the
    policy accepts in every set. *)
Record cache_inv (N : Z) c : Prop := {
  in_wf : kl_wf (indexingPolicy c) N;
  in_entries : Z.of_nat (length (entries c)) = N;
  in_data : Z.of_nat (length (replacementData c)) = N;
  in_sets k l : kl_key (indexingPolicy c) k -> ck_possible (indexingPolicy c) k = Ok l ->
    exists cs, picks (replacementData c) l cs /\ rl_set (replPolicy c) cs;
}.

Lemma possible_range N x k l : kl_wf x N -> kl_key x k -> ck_possible x k = Ok l ->
  NoDup l /\ l <> [] /\ Forall (fun i => 0 <= i < N) l /\ Forall (fun i => 0 <= i) l.
Proof.
  intros Hw Hk E. destruct (kl_possible x N k Hw Hk) as (l' & E' & Hne & Hnd & Hr). rewrite E in E'. injection E' as <-.
  split_and!; try done. eapply Forall_impl; [exact Hr|]. cbn. lia.
Qed.

(** An entry of the set of [k] updated along with its replacement data. *)
Lemma with_entry_inv N c k l cs j i e d g : cache_inv N c -> kl_key (indexingPolicy c) k ->
  ck_possible (indexingPolicy c) k = Ok l -> picks (replacementData c) l cs -> l !! j = Some i ->
  rl_le (replPolicy c) g -> rl_set g (<[j := d]> cs) ->
  exists c', with_entry i e d g c = Ok c' /\ cache_inv N c' /\
    entries c' = <[Z.to_nat i := e]> (entries c) /\ indexingPolicy c' = indexingPolicy c /\
    associativity c' = associativity c.
Proof.
  intros [Hw He Hd Hs] Hk El Hp Hj Hle Hset. destruct (possible_range N _ k l Hw Hk El) as (Hnd & _ & Hr & Hpos).
  pose proof (Forall_lookup_1 _ _ _ _ Hr Hj) as Hi. cbn in Hi. unfold with_entry.
  rewrite vset_Ok, bind_Ok, vset_Ok, bind_Ok by lia. eexists. split; [done|]. split; [|done].
  constructor; cbn; rewrite ?length_insert; try done. intros k' l' Hk' El'.
  destruct (decide (i ∈ l')) as [Hin|Hout].
  - assert (l' = l) as -> by (eapply (kl_partition _ N k' k); eauto using list_elem_of_lookup_2).
    exists (<[j := d]> cs). split; [by apply picks_insert|done].
  - destruct (Hs k' l' Hk' El') as (cs' & Hp' & Hset'). exists cs'. split; [|by eapply rl_set_mono].
    destruct (possible_range N _ k' l' Hw Hk' El') as (_ & _ & _ & Hpos'). apply picks_other; try done. lia.
Qed.

(** Entry [i] holds key [k]. *)
Definition holds c k (i : Z) : Prop := exists l t e,
  ck_possible (indexingPolicy c) k = Ok l /\ ck_tag (indexingPolicy c) k = Ok t /\ i ∈ l /\
  entries c !! Z.to_nat i = Some e /\ CacheEntry.valid e = true /\ CacheEntry.tag e = t.

(** No key is held twice. *)
Definition unique c : Prop := forall k i j, kl_key (indexingPolicy c) k -> holds c k i -> holds c k j -> i = j.

(** Keys that the container does not tell apart. *)
Definition alias (x : X) k k' : Prop :=
  ck_possible x k = ck_possible x k' /\ ck_tag x k = ck_tag x k'.

Lemma matches_spec x k t (e : CacheEntry.t T V) : ck_tag x k = Ok t ->
  CacheEntry.matches x k e = Ok (CacheEntry.valid e && bool_decide (CacheEntry.tag e = t)).
Proof. intros E. unfold CacheEntry.matches. rewrite E. by destruct (CacheEntry.valid e). Qed.

Lemma find_loop_spec N c k t l : Z.of_nat (length (entries c)) = N -> Forall (fun i => 0 <= i < N) l ->
  ck_tag (indexingPolicy c) k = Ok t ->
  exists r, find_loop k l c = Ok r /\
    match r with
    | Some i => i ∈ l /\ exists e, entries c !! Z.to_nat i = Some e /\ CacheEntry.valid e = true /\ CacheEntry.tag e = t
    | None => forall i e, i ∈ l -> entries c !! Z.to_nat i = Some e -> ~ (CacheEntry.valid e = true /\ CacheEntry.tag e = t)
    end.
Proof.
  intros HN Hr Ht. induction l as [|i l IH]; cbn [find_loop].
  - exists None. split; [done|]. intros i e Hi. by apply not_elem_of_nil in Hi.
  - apply Forall_cons in Hr as [Hi Hr]. destruct (vget_Ok (entries c) i ltac:(lia)) as (e & -> & He). rewrite bind_Ok.
    rewrite (matches_spec _ _ t), bind_Ok by done.
    destruct (CacheEntry.valid e && bool_decide (CacheEntry.tag e = t)) eqn:Em.
    + apply andb_true_iff in Em as [Ev Et%bool_decide_eq_true]. exists (Some i). split; [done|].
      split; [set_solver|]. by exists e.
    + destruct (IH Hr) as (r & -> & Hres). exists r. split; [done|]. destruct r as [i'|].
      * destruct Hres as [Hin Hres]. split; [set_solver|done].
      * intros i' e' [->|Hin]%elem_of_cons He' [Ev Et]; [|by eapply Hres].
        rewrite He in He'. injection He' as <-. rewrite Ev, bool_decide_eq_true_2 in Em; done.
Qed.

(** [findEntry] is total; it finds a key exactly when an entry holds it. *)
Lemma findEntry_spec N c k : cache_inv N c -> kl_key (indexingPolicy c) k ->
  exists r, findEntry k c = Ok r /\ match r with Some i => holds c k i | None => forall i, ~ holds c k i end.
Proof.
  intros [Hw He _ _] Hk. destruct (kl_possible _ N k Hw Hk) as (l & El & _ & _ & Hr).
  destruct (kl_tag _ N k Hw Hk) as (t & Et). unfold findEntry. rewrite El, bind_Ok.
  destruct (find_loop_spec N c k t l He Hr Et) as (r & -> & Hres). exists r. split; [done|]. destruct r as [i|].
  - destruct Hres as (Hin & e & He' & Ev & Etag). by exists l, t, e.
  - intros i (l' & t' & e & El' & Et' & Hin & He' & Ev & Etag). rewrite El in El'. rewrite Et in Et'.
    injection El' as <-. injection Et' as <-. by eapply Hres.
Qed.

Lemma findEntry_holds N c k i : cache_inv N c -> unique c -> kl_key (indexingPolicy c) k ->
  findEntry k c = Ok (Some i) <-> holds c k i.
Proof.
  intros Hc Hu Hk. destruct (findEntry_spec N c k Hc Hk) as (r & -> & Hr). split.
  - intros [= ->]. done.
  - intros Hi. destruct r as [j|]; [|by apply Hr in Hi]. by rewrite (Hu k j i Hk Hr Hi).
Qed.

Lemma findEntry_none N c k : cache_inv N c -> kl_key (indexingPolicy c) k ->
  findEntry k c = Ok None <-> forall i, ~ holds c k i.
Proof.
  intros Hc Hk. destruct (findEntry_spec N c k Hc Hk) as (r & -> & Hr). split.
  - intros [= ->]. done.
  - intros Hn. destruct r as [j|]; [|done]. by apply Hn in Hr.
Qed.

(** Every entry is in the set of some key, with its data. *)
Lemma entry_data N c i : cache_inv N c -> 0 <= i < N ->
  exists k l cs j d e, kl_key (indexingPolicy c) k /\ ck_possible (indexingPolicy c) k = Ok l /\
    picks (replacementData c) l cs /\ rl_set (replPolicy c) cs /\ l !! j = Some i /\ cs !! j = Some d /\
    vget (replacementData c) i = Ok d /\ vget (entries c) i = Ok e /\ entries c !! Z.to_nat i = Some e.
Proof.
  intros [Hw He Hd Hs] Hi. destruct (kl_cover _ N i Hw Hi) as (k & l & Hk & El & Hin).
  destruct (Hs k l Hk El) as (cs & Hp & Hset). apply list_elem_of_lookup in Hin as (j & Hj).
  destruct (picks_lookup _ _ _ _ _ Hp Hj) as (d & Hd' & Ed).
  destruct (vget_Ok (entries c) i ltac:(lia)) as (e & Ee & Ee').
  exists k, l, cs, j, d, e. split_and!; try done. apply vget_lookup; [lia|done].
Qed.

Lemma invalidate_spec N c i : cache_inv N c -> 0 <= i < N ->
  exists e c', entries c !! Z.to_nat i = Some e /\ invalidate i c = Ok c' /\ cache_inv N c' /\
    entries c' = <[Z.to_nat i := CacheEntry.invalidate (K := K) (X := X) e]> (entries c) /\
    indexingPolicy c' = indexingPolicy c.
Proof.
  intros Hc Hi. destruct (entry_data N c i Hc Hi) as (k & l & cs & j & d & e & Hk & El & Hp & Hset & Hj & Hd & Ed & Ee & Ee').
  destruct (rl_invalidate _ cs j d Hset Hd) as (d' & g' & E & Hle & Hset').
  destruct (with_entry_inv N c k l cs j i (CacheEntry.invalidate (K := K) (X := X) e) d' g') as (c' & Ec & Hc' & Hes & Hx & _); try done.
  exists e, c'. unfold invalidate. rewrite Ee, bind_Ok, Ed, bind_Ok, E, bind_Ok. done.
Qed.

Lemma access_at_spec N tick c i : cache_inv N c -> 0 <= i < N ->
  exists c', accessEntry_at tick i c = Ok c' /\ cache_inv N c' /\ entries c' = entries c /\
    indexingPolicy c' = indexingPolicy c.
Proof.
  intros Hc Hi. destruct (entry_data N c i Hc Hi) as (k & l & cs & j & d & e & Hk & El & Hp & Hset & Hj & Hd & Ed & Ee & Ee').
  destruct (rl_touch tick _ cs j d Hset Hd) as (d' & g' & E & Hle & Hset').
  destruct (with_entry_inv N c k l cs j i e d' g') as (c' & Ec & Hc' & Hes & Hx & _); try done.
  exists c'. unfold accessEntry_at. rewrite Ee, bind_Ok, Ed, bind_Ok, E, bind_Ok. rewrite list_insert_id in Hes by done. done.
Qed.

Lemma insertEntry_spec N tick rnd c k t i e : cache_inv N c -> 0 <= i < N -> ck_tag (indexingPolicy c) k = Ok t ->
  entries c !! Z.to_nat i = Some e -> CacheEntry.valid e = false ->
  exists c', insertEntry tick rnd k i c = Ok c' /\ cache_inv N c' /\
    entries c' = <[Z.to_nat i := CacheEntry.mk true t (CacheEntry.payload e)]> (entries c) /\
    indexingPolicy c' = indexingPolicy c.
Proof.
  intros Hc Hi Ht He Hv. destruct (entry_data N c i Hc Hi) as (k' & l & cs & j & d & e' & Hk & El & Hp & Hset & Hj & Hd & Ed & Ee & Ee').
  rewrite He in Ee'. injection Ee' as <-. destruct (rl_reset tick rnd _ cs j d Hset Hd) as (d' & g' & E & Hle & Hset').
  destruct (with_entry_inv N c k' l cs j i (CacheEntry.mk true t (CacheEntry.payload e)) d' g') as (c' & Ec & Hc' & Hes & Hx & _); try done.
  exists c'. unfold insertEntry, CacheEntry.insert. rewrite Ee, bind_Ok, Hv, check_true, bind_Ok, Ht, !bind_Ok, Ed, bind_Ok, E, bind_Ok. done.
Qed.

(** The victim is one of the candidates of the key, and is invalid afterwards;
    no other entry changes. *)
Lemma findVictim_spec N rnd c k l : cache_inv N c -> kl_key (indexingPolicy c) k ->
  ck_possible (indexingPolicy c) k = Ok l ->
  exists v e c', findVictim rnd k c = Ok (v, c') /\ v ∈ l /\ cache_inv N c' /\ entries c !! Z.to_nat v = Some e /\
    entries c' = <[Z.to_nat v := CacheEntry.invalidate (K := K) (X := X) e]> (entries c) /\
    indexingPolicy c' = indexingPolicy c.
Proof.
  intros Hc Hk El. pose proof Hc as [Hw He Hd Hs]. destruct (possible_range N _ k l Hw Hk El) as (Hnd & Hne & Hr & Hpos).
  destruct (Hs k l Hk El) as (cs & Hp & Hset). pose proof (Forall2_length _ _ _ Hp) as Hlen.
  assert (0 < Z.of_nat (length l)) by (destruct l; [done|cbn; lia]).
  unfold findVictim. rewrite El, bind_Ok.
  destruct (picks_total (replacementData c) l) as (cs' & Hp' & ->); [by rewrite Hd|]. rewrite bind_Ok.
  assert (cs' = cs) as -> by (by eapply picks_unique).
  destruct (rl_victim (rnd mod Z.of_nat (length l)) _ cs Hset) as (v & ds & g & -> & Hv & Hds & Hle & Hset').
  { rewrite <- Hlen. by apply Z.mod_pos_bound. }
  rewrite bind_Ok. destruct (write_back_spec l ds (replacementData c) Hnd) as (all & -> & Hall & Hpall & Hother);
    [by rewrite Hd|congruence|]. rewrite bind_Ok.
  destruct (vget_Ok l (Z.of_nat v)) as (i & -> & Hi); [lia|]. rewrite bind_Ok, Nat2Z.id in *.
  pose proof (Forall_lookup_1 _ _ _ _ Hr Hi) as Hir. cbn in Hir.
  destruct (invalidate_spec N (mk (associativity c) g (indexingPolicy c) (entries c) all) i) as (e & c' & Ee & -> & Hc' & Hes & Hx).
  - constructor; cbn; try done; [lia|]. intros k' l' Hk' El'. destruct (Hs k' l' Hk' El') as (cs' & Hp1 & Hset1).
    destruct (possible_range N _ k' l' Hw Hk' El') as (_ & _ & _ & Hpos').
    destruct (decide (Exists (fun i' => i' ∈ l') l)) as [(i' & H1 & H2)%Exists_exists|Hdis].
    + assert (l' = l) as -> by (by eapply (kl_partition _ N k' k)). by exists ds.
    + exists cs'. split; [|by eapply rl_set_mono]. apply Hother; [done..|]. intros i' H1 H2. apply Hdis, Exists_exists. by exists i'.
  - done.
  - rewrite bind_Ok. exists i, e, c'. split_and!; try done. by eapply list_elem_of_lookup_2.
Qed.

(** An entry set to hold [k]: what the container holds afterwards. *)
Lemma holds_insert N c c' k l t v w : cache_inv N c -> kl_key (indexingPolicy c) k ->
  ck_possible (indexingPolicy c) k = Ok l -> ck_tag (indexingPolicy c) k = Ok t -> v ∈ l ->
  entries c' = <[Z.to_nat v := CacheEntry.mk true t w]> (entries c) -> indexingPolicy c' = indexingPolicy c ->
  forall k' i, kl_key (indexingPolicy c) k' ->
    holds c' k' i <-> (i = v /\ alias (indexingPolicy c) k k') \/ (i <> v /\ holds c k' i).
Proof.
  intros [Hw He _ _] Hk El Et Hv Hes Hx k' i Hk'. destruct (possible_range N _ k l Hw Hk El) as (_ & _ & Hr & _).
  pose proof (proj1 (Forall_forall _ _) Hr v Hv) as Hvr. unfold holds, alias. rewrite Hx, Hes. split.
  - intros (l' & t' & e & El' & Et' & Hin & Hl & Hval & Htag).
    destruct (possible_range N _ k' l' Hw Hk' El') as (_ & _ & Hr' & _).
    pose proof (proj1 (Forall_forall _ _) Hr' i Hin) as Hir. cbn in Hvr, Hir.
    destruct (decide (i = v)) as [->|Hne]; [left|right].
    + rewrite list_lookup_insert_eq in Hl by lia. injection Hl as <-. cbn in Htag. subst t'. split; [done|].
      rewrite El, El', Et, Et'. split; [|done]. f_equal. by eapply (kl_partition _ N k k').
    + split; [done|]. exists l', t', e. rewrite list_lookup_insert_ne in Hl by lia. done.
  - intros [[-> [E1 E2]]|[Hne (l' & t' & e & El' & Et' & Hin & Hl & Hval & Htag)]].
    + rewrite <- E1, <- E2. exists l, t, (CacheEntry.mk true t w). rewrite list_lookup_insert_eq by (cbn in Hvr; lia). done.
    + destruct (possible_range N _ k' l' Hw Hk' El') as (_ & _ & Hr' & _).
      pose proof (proj1 (Forall_forall _ _) Hr' i Hin) as Hir. cbn in Hvr, Hir.
      exists l', t', e. rewrite list_lookup_insert_ne by lia. done.
Qed.

(** A replacement: the victim of [k] found, and [k] inserted there. *)
Lemma replace_spec N tick rnd rnd' c k : cache_inv N c -> kl_key (indexingPolicy c) k ->
  exists v c1 c2, findVictim rnd k c = Ok (v, c1) /\ insertEntry tick rnd' k v c1 = Ok c2 /\ 0 <= v < N /\
    cache_inv N c2 /\ indexingPolicy c2 = indexingPolicy c /\ holds c2 k v /\
    (forall j, j <> Z.to_nat v -> entries c2 !! j = entries c !! j) /\
    forall k' i, kl_key (indexingPolicy c) k' ->
      holds c2 k' i <-> (i = v /\ alias (indexingPolicy c) k k') \/ (i <> v /\ holds c k' i).
Proof.
  intros Hc Hk. pose proof Hc as [Hw He _ _]. destruct (kl_possible _ N k Hw Hk) as (l & El & _ & _ & Hr).
  destruct (kl_tag _ N k Hw Hk) as (t & Et).
  destruct (findVictim_spec N rnd c k l Hc Hk El) as (v & e & c1 & E1 & Hv & Hc1 & He1 & Hes1 & Hx1).
  pose proof (proj1 (Forall_forall _ _) Hr v Hv) as Hvr. cbn in Hvr.
  assert (Hl : entries c1 !! Z.to_nat v = Some (CacheEntry.invalidate (K := K) (X := X) e)).
  { rewrite Hes1, list_lookup_insert_eq by lia. done. }
  destruct (insertEntry_spec N tick rnd' c1 k t v (CacheEntry.invalidate (K := K) (X := X) e) Hc1 Hvr) as (c2 & E2 & Hc2 & Hes2 & Hx2); [by rewrite Hx1|done|done|].
  rewrite Hes1, list_insert_insert_eq in Hes2. rewrite Hx1 in Hx2. cbn [CacheEntry.invalidate CacheEntry.payload] in Hes2.
  exists v, c1, c2. pose proof (holds_insert N c c2 k l t v _ Hc Hk El Et Hv Hes2 Hx2) as Hh.
  split_and!; try done; try lia.
  - apply Hh; [done|]. left. done.
  - intros j Hj. by rewrite Hes2, list_lookup_insert_ne.
Qed.

(** C28: inserting a missing key in its victim's place never fails and behaves
    like a bounded map: afterwards the key (and any key it cannot be told from)
    is found there, the key that was there before is not found any more, every
    other lookup is unchanged, and no key is held twice. *)
Theorem assoc_insert_correct N tick rnd rnd' c k : cache_inv N c -> unique c -> kl_key (indexingPolicy c) k ->
  findEntry k c = Ok None ->
  exists v c1 c2, findVictim rnd k c = Ok (v, c1) /\ insertEntry tick rnd' k v c1 = Ok c2 /\
    cache_inv N c2 /\ unique c2 /\ indexingPolicy c2 = indexingPolicy c /\
    forall k', kl_key (indexingPolicy c) k' -> exists r, findEntry k' c = Ok r /\
      (alias (indexingPolicy c) k k' -> findEntry k' c2 = Ok (Some v)) /\
      (~ alias (indexingPolicy c) k k' ->
       findEntry k' c2 = Ok (if bool_decide (r = Some v) then None else r)).
Proof.
  intros Hc Hu Hk Hmiss. rewrite (findEntry_none N) in Hmiss by done.
  destruct (replace_spec N tick rnd rnd' c k Hc Hk) as (v & c1 & c2 & E1 & E2 & _ & Hc2 & Hx2 & _ & _ & Hh).
  assert (Hu2 : unique c2).
  { intros k' i j Hk' Hi Hj. rewrite Hx2 in Hk'. rewrite Hh in Hi, Hj by done.
    destruct Hi as [[-> Ha]|[Hni Hi]], Hj as [[-> Ha']|[Hnj Hj]]; try done; [| |by eapply Hu].
    - destruct (Hmiss j). destruct Ha as [A1 A2]. unfold holds in *. by rewrite A1, A2.
    - destruct (Hmiss i). destruct Ha' as [A1 A2]. unfold holds in *. by rewrite A1, A2. }
  exists v, c1, c2. split_and!; try done. intros k' Hk'.
  destruct (findEntry_spec N c k' Hc Hk') as (r & E & Hr). exists r. split; [done|]. split.
  - intros Ha. rewrite (findEntry_holds N), Hh by (try done; by rewrite Hx2). by left.
  - intros Hna. case_bool_decide as Hrv; [subst r|].
    + rewrite (findEntry_none N) by (try done; by rewrite Hx2). intros i Hi. rewrite Hh in Hi by done.
      destruct Hi as [[_ Ha]|[Hne Hi]]; [done|]. apply Hne. by eapply Hu.
    + destruct r as [i|]; [rewrite (findEntry_holds N), Hh by (try done; by rewrite Hx2); right; split; [congruence|done]|].
      rewrite (findEntry_none N) by (try done; by rewrite Hx2). intros i Hi. rewrite Hh in Hi by done.
      destruct Hi as [[_ Ha]|[_ Hi]]; [done|by eapply Hr].
Qed.

Lemma clear_loop_spec N c n i : cache_inv N c -> 0 <= i -> i + Z.of_nat n = N ->
  (forall j e, (j < Z.to_nat i)%nat -> entries c !! j = Some e -> CacheEntry.valid e = false) ->
  exists c', clear_loop n i c = Ok c' /\ cache_inv N c' /\ indexingPolicy c' = indexingPolicy c /\
    forall j e, entries c' !! j = Some e -> CacheEntry.valid e = false.
Proof.
  revert i c. induction n as [|n IH]; intros i c Hc Hi HN Hinv; cbn [clear_loop].
  - exists c. split_and!; try done. intros j e Hj. eapply Hinv; [|exact Hj].
    pose proof (in_entries N c Hc). apply lookup_lt_Some in Hj. lia.
  - destruct (invalidate_spec N c i Hc ltac:(lia)) as (e & c' & He & -> & Hc' & Hes & Hx). rewrite bind_Ok.
    destruct (IH (i + 1) c' Hc') as (c2 & E & Hc2 & Hx2 & Hall); [lia..| |by exists c2; rewrite Hx2].
    intros j e' Hj. rewrite Hes. destruct (decide (j = Z.to_nat i)) as [->|Hne].
    + rewrite list_lookup_insert_eq by (by eapply lookup_lt_Some). by intros [= <-].
    + rewrite list_lookup_insert_ne by done. apply Hinv. lia.
Qed.

(** accessing a key finds it exactly as [findEntry] does and changes no
    entry, and clearing the container leaves no key in it; both keep the
    invariant. *)
Theorem assoc_access_clear_correct N tick c k : cache_inv N c -> kl_key (indexingPolicy c) k ->
  (exists r c', accessEntry tick k c = Ok (r, c') /\ findEntry k c = Ok r /\ cache_inv N c' /\ entries c' = entries c) /\
  (exists c', clear c = Ok c' /\ cache_inv N c' /\ findEntry k c' = Ok None).
Proof.
  intros Hc Hk. pose proof Hc as [Hw He _ _]. split.
  - destruct (findEntry_spec N c k Hc Hk) as (r & E & Hr). unfold accessEntry. rewrite E, bind_Ok.
    destruct r as [i|]; [|by eexists None, c]. destruct Hr as (l & t & e & El & _ & Hin & _).
    destruct (possible_range N _ k l Hw Hk El) as (_ & _ & Hr & _).
    destruct (access_at_spec N tick c i Hc) as (c' & -> & Hc' & Hes & _); [by apply (proj1 (Forall_forall _ _) Hr)|].
    rewrite bind_Ok. by exists (Some i), c'.
  - destruct (clear_loop_spec N c (length (entries c)) 0 Hc) as (c' & E & Hc' & Hx & Hall); [lia|lia|intros; lia|].
    exists c'. split; [done|]. split; [done|]. rewrite (findEntry_none N) by (try done; by rewrite Hx).
    intros i (l & t & e & _ & _ & _ & Hl & Hv & _). apply Hall in Hl. congruence.
Qed.

(** A policy whose new entries all look alike. *)
Lemma new_inv N assoc g d0 x (w : V) : kl_wf x N -> 0 <= N -> 0 < assoc -> N mod assoc = 0 ->
  rp_instantiateEntry g = Ok (d0, g) -> (forall n : nat, n <> 0%nat -> rl_set g (replicate n d0)) ->
  exists c, new N assoc g x w = Ok c /\ cache_inv N c /\ unique c /\ indexingPolicy c = x /\ replPolicy c = g /\
    entries c = replicate (Z.to_nat N) (CacheEntry.new (K := K) (X := X) w).
Proof.
  intros Hw HN Ha Hm Hd Hset. unfold new. destruct (Z.eqb_spec assoc 0) as [|Hne0]; [lia|]. rewrite bind_Ok, Hm. cbn [check rbind Z.eqb].
  assert (Hloop : forall n i, 0 <= i -> i + Z.of_nat n <= N -> init_loop n i x g = Ok (replicate n d0, g)).
  { induction n as [|n IH]; intros i Hi Hn; [done|]. cbn [init_loop].
    destruct (kl_setEntry x N i Hw ltac:(lia)) as (p & ->). by rewrite bind_Ok, Hd, bind_Ok, IH, bind_Ok by (cbn; lia). }
  rewrite Hloop by lia. cbn [check rbind fst snd]. eexists. split; [done|].
  split; [|split; [|done]].
  - constructor; cbn; rewrite ?length_replicate; try done; try lia. intros k l Hk El.
    destruct (possible_range N x k l Hw Hk El) as (_ & Hne & Hr & _).
    exists (replicate (length l) d0). split; [|apply Hset; destruct l; [done|cbn; lia]].
    apply Forall2_same_length_lookup_2; [by rewrite length_replicate|]. intros j i d Hi Hj.
    apply lookup_replicate in Hj as [<- _]. apply lookup_replicate. split; [done|].
    apply (Forall_lookup_1 _ _ _ _ Hr) in Hi. cbn in Hi. lia.
  - intros k i j _ (l & t & e & _ & _ & _ & Hl & Hv & _). cbn in Hl. apply lookup_replicate in Hl as [-> _]. discriminate Hv.
Qed.
End Laws.
