(* ===== verification/SimpleBTB.v ===== *)
(** * The branch target buffer

    Model of src/gem5/src/cpu/pred/btb_entry.hh and simple_btb.cc: the indexing
    policy of the buffer, which mixes the thread into the set index, and the
    buffer as an associative container. The policy of SetAssociative is put
    behind the same interface. *)

From S2P Require Import Prelude Bits Tables Replacement ReplLaws Indexing AssocCache Ras Indirect BPredUnit BPredLaws.
Import Indexing.Indexing.

Definition MaxAddr : Z := 2 ^ 64 - 1.

(** ** Caches indexed by address *)
#[export] Instance SetAssociative_key : CacheKey Z Indexing.t Z := {|
  ck_setEntry := setEntry;
  ck_possible := SetAssociative.getPossibleEntries;
  ck_tag := extractTag;
  ck_none := MaxAddr;
|}.

(** ** The indexing policy of the buffer *)
Module BTBSetAssociative.
Record t := mk { base : Indexing.t; tagMask : Z; log2NumThreads : Z }.

Definition setNumThreads (num_threads : Z) (p : t) : result t :=
  let! l := log2i num_threads in Ok (mk (base p) (tagMask p) l).

Definition new (assoc num_entries set_shift tag_bits numThreads : Z) : result t :=
  let! b := Indexing.new assoc num_entries set_shift in
  setNumThreads numThreads (mk b (mask tag_bits) 0).

(** [key.tid << n]: the thread number is promoted to int. *)
Definition shl_tid (tid n : Z) : result Z :=
  if (0 <=? n) && (n <? 32) && (0 <=? tid) && (Z.shiftl tid n <? 2 ^ 32)
  then Ok (s32 (Z.shiftl tid n)) else Err Undefined.

Definition extractSet (p : t) (key : Z * Z) : result Z :=
  let! a := shr 64 key.1 (setShift (base p)) in
  let! s := shl_tid key.2 (u32 (tagShift (base p) - setShift (base p) - log2NumThreads p)) in
  Ok (u32 (Z.land (Z.lxor a (u64 s)) (setMask (base p)))).

Definition getPossibleEntries (p : t) (key : Z * Z) : result (list Z) :=
  let! set_idx := extractSet p key in
  guard! set_idx <? numSets (base p);
  mapM_r (fun w => entry_at (base p) set_idx (Z.of_nat w)) (seq 0 (Z.to_nat (assoc (base p)))).

Definition extractTag (p : t) (addr : Z) : result Z :=
  let! a := shr 64 addr (tagShift (base p)) in Ok (Z.land a (tagMask p)).
End BTBSetAssociative.

#[export] Instance BTB_key : CacheKey (Z * Z) BTBSetAssociative.t (Z * Z) := {|
  ck_setEntry x i := setEntry (BTBSetAssociative.base x) i;
  ck_possible := BTBSetAssociative.getPossibleEntries;
  ck_tag x key := let! a := BTBSetAssociative.extractTag x key.1 in Ok (a, key.2);
  ck_none := (MaxAddr, -1);
|}.

(** ** The buffer *)
Module SimpleBTB.
Section SimpleBTB.
Context {P G D : Type} `{!ReplPolicy G D}.

(** Target and instruction of a [BTBEntry]. *)
Definition info : Type := option P * option (BranchInst P).
Definition t : Type := AssociativeCache.t BTBSetAssociative.t (Z * Z) info G D.

Definition new (numEntries associativity : Z) (g : G) (x : BTBSetAssociative.t) : result t :=
  let! b := AssociativeCache.new numEntries associativity g x (None, None) in
  let! _ := check Fatal (isPowerOf2 numEntries) in
  Ok b.

Definition memInvalidate (b : t) : result t := AssociativeCache.clear b.

Definition findEntry (instPC tid : Z) (b : t) : result (option Z) := AssociativeCache.findEntry (instPC, tid) b.

Definition valid (tid instPC : Z) (b : t) : result bool :=
  let! e := AssociativeCache.findEntry (instPC, tid) b in
  Ok match e with Some _ => true | None => false end.

Definition lookup (now tid instPC : Z) (b : t) : result (option P * t) :=
  let! r := AssociativeCache.accessEntry now (instPC, tid) b in
  match r.1 with
  | Some i => let! e := vget (AssociativeCache.entries r.2) i in Ok ((CacheEntry.payload e).1, r.2)
  | None => Ok (None, r.2)
  end.

Definition getInst (tid instPC : Z) (b : t) : result (option (BranchInst P)) :=
  let! r := AssociativeCache.findEntry (instPC, tid) b in
  match r with
  | Some i => let! e := vget (AssociativeCache.entries b) i in Ok (CacheEntry.payload e).2
  | None => Ok None
  end.

(** [BTBEntry::update], and its use on the entry with this index. *)
Definition set_info (target : P) (inst : option (BranchInst P)) (e : CacheEntry.t (Z * Z) info) :
    CacheEntry.t (Z * Z) info :=
  CacheEntry.mk (CacheEntry.valid e) (CacheEntry.tag e) (Some target, inst).

Definition update_entry (i : Z) (target : P) (inst : option (BranchInst P)) (b : t) : result t :=
  let! es := vupd (set_info target inst) (AssociativeCache.entries b) i in
  Ok (AssociativeCache.mk (AssociativeCache.associativity b) (AssociativeCache.replPolicy b)
        (AssociativeCache.indexingPolicy b) es (AssociativeCache.replacementData b)).

Definition update (now : Z) (rnd : nat -> Z) (tid instPC : Z) (target : P) (inst : option (BranchInst P)) (b : t) :
    result t :=
  let! vb := AssociativeCache.findVictim (rnd 0%nat) (instPC, tid) b in
  let! b := AssociativeCache.insertEntry now (rnd 1%nat) (instPC, tid) vb.1 vb.2 in
  update_entry vb.1 target inst b.
End SimpleBTB.
Arguments t : clear implicits.
End SimpleBTB.

#[export] Instance SimpleBTB_buffer {P G D} `{!ReplPolicy G D} : TargetBuffer P (SimpleBTB.t P G D) := {|
  btb_lookup now tid pc _ b := SimpleBTB.lookup now tid pc b;
  btb_update now rnd tid pc target _ inst b := SimpleBTB.update now rnd tid pc target (Some inst) b;
|}.

(** ** The laws of the two indexing policies *)

(** The entries of a set. *)
Definition set_entries (p : Indexing.t) (s : Z) : list Z :=
  (fun w : nat => s * assoc p + Z.of_nat w) <$> seq 0 (Z.to_nat (assoc p)).

Section Sets.
Context (p : Indexing.t) (k : Z).
Hypothesis G : geometry p k.
Hypothesis Hassoc : assoc p < 2 ^ 32.

Lemma set_entries_Ok s : 0 <= s < numSets p ->
  mapM_r (fun w => entry_at p s (Z.of_nat w)) (seq 0 (Z.to_nat (assoc p))) = Ok (set_entries p s).
Proof using G Hassoc.
  intros Hs. apply (mapM_entries p k (fun _ => Ok s) (fun _ => s)); try done.
  intros w Hw%elem_of_seq. pose proof (geo_assoc _ _ G). lia.
Qed.

Lemma elem_of_set_entries s i : i ∈ set_entries p s <-> s = i / assoc p.
Proof using G.
  pose proof (geo_assoc _ _ G) as Ha. unfold set_entries. rewrite list_elem_of_fmap. split.
  - intros (w & -> & Hw%elem_of_seq). rewrite Z.div_add_l, Z.div_small by lia. lia.
  - intros ->. exists (Z.to_nat (i mod assoc p)). pose proof (Z.mod_pos_bound i (assoc p) Ha).
    pose proof (Z.div_mod i (assoc p) ltac:(lia)). split; [lia|]. apply elem_of_seq. lia.
Qed.

Lemma set_entries_law s : 0 <= s < numSets p -> set_entries p s <> [] /\ NoDup (set_entries p s) /\
  Forall (fun i => 0 <= i < numSets p * assoc p) (set_entries p s).
Proof using G Hassoc.
  intros Hs. pose proof (geo_assoc _ _ G) as Ha.
  destruct (entries_spec p k (fun _ => s) G Hassoc ltac:(done)) as (Hl & Hnd & _).
  change (fmap _ _) with (set_entries p s) in Hl, Hnd. split; [intros E; rewrite E in Hl; cbn in Hl; lia|].
  split; [done|]. apply Forall_forall. intros i Hi%elem_of_set_entries. subst s.
  pose proof (Z.div_mod i (assoc p) ltac:(lia)). pose proof (Z.mod_pos_bound i (assoc p) Ha). nia.
Qed.

Lemma entry_set i : 0 <= i < numSets p * assoc p -> 0 <= i / assoc p < numSets p.
Proof using G.
  intros Hi. pose proof (geo_assoc _ _ G). split; [apply Z.div_pos; lia|apply Z.div_lt_upper_bound; lia].
Qed.

Lemma setEntry_Ok i : 0 <= i < numSets p * assoc p -> exists q, setEntry p i = Ok q.
Proof using G Hassoc.
  intros Hi. pose proof (geo_assoc _ _ G) as Ha. pose proof (Z.mod_pos_bound i (assoc p) Ha).
  destruct (entry_at_setEntry p k (i / assoc p) (i mod assoc p) G) as [_ E]; [by apply entry_set|done|done|].
  exists (i / assoc p, i mod assoc p). rewrite <- E. f_equal. pose proof (Z.div_mod i (assoc p) ltac:(lia)). lia.
Qed.
End Sets.

Lemma possible_inv p k a l : geometry p k -> assoc p < 2 ^ 32 ->
  SetAssociative.getPossibleEntries p a = Ok l -> exists s, 0 <= s < numSets p /\ l = set_entries p s.
Proof.
  intros G Ha E. unfold SetAssociative.getPossibleEntries in E. ok_inv.
  destruct (Z.ltb_spec r (numSets p)); [|done]. exists r.
  assert (0 <= r) by (unfold SetAssociative.extractSet in E0; ok_inv; subst r; apply (uw_range 32); lia).
  split; [done|]. rewrite (set_entries_Ok p k) in E by done. by injection E.
Qed.

#[export] Instance SetAssociative_laws : KeyLaws Z Indexing.t Z.
Proof.
  refine {| kl_wf x N := exists k, geometry x k /\ assoc x < 2 ^ 32 /\ tagShift x < 64 /\ N = numSets x * assoc x;
            kl_key x a := in_uw 64 a |}.
  - intros x N i (k & G & Ha & _ & ->) Hi. by apply (setEntry_Ok x k).
  - intros x N a (k & G & Ha & Ht & ->) Hk. pose proof (geo_tag _ _ G). pose proof (geo_k _ _ G).
    destruct (set_assoc_set x k a) as (s & E & Hs & _); [done|lia|done|].
    assert (Hs' : 0 <= s < numSets x) by by rewrite (geo_sets _ _ G).
    exists (set_entries x s). split; [|by apply (set_entries_law x k)].
    cbn. unfold SetAssociative.getPossibleEntries. rewrite E, bind_Ok. destruct (Z.ltb_spec s (numSets x)); [|lia].
    by apply (set_entries_Ok x k).
  - intros x N a a' l l' i (k & G & Ha & Ht & ->) E E' Hi Hi'.
    destruct (possible_inv x k a l G Ha E) as (s & _ & ->), (possible_inv x k a' l' G Ha E') as (s' & _ & ->).
    apply (elem_of_set_entries x k G) in Hi, Hi'. congruence.
  - intros x N i (k & G & Ha & Ht & ->) Hi. pose proof (geo_tag _ _ G). destruct G as [Gk Gs Gm Gt Gsh Gas] eqn:EG.
    pose proof (entry_set x k G i Hi) as Hs. set (s := i / assoc x) in *.
    assert (Hsk : in_uw k s) by (unfold in_uw; lia).
    exists (Z.shiftl s (setShift x)), (set_entries x s). split.
    { cbn. rewrite <- (field_shl_small 64 k) by (done || lia). apply uw_range. lia. }
    split; [|by apply (elem_of_set_entries x k G)]. cbn. unfold SetAssociative.getPossibleEntries, SetAssociative.extractSet.
    rewrite shr_Ok, bind_Ok by lia. rewrite Z.shiftr_shiftl_l, Z.sub_diag, Z.shiftl_0_r by lia.
    rewrite Gm, masked_index, (uw_small k s), bind_Ok by (done || lia).
    destruct (Z.ltb_spec s (numSets x)); [|lia]. by apply (set_entries_Ok x k).
  - intros x N a (k & G & Ha & Ht & ->) Hk. exists (Z.shiftr a (tagShift x)). by apply (tag_Ok _ k).
Defined.

(** The buffer's policy: a shift of the thread number that is defined, and tags
    within the word. *)
Definition btb_geometry (x : BTBSetAssociative.t) (k : Z) : Prop :=
  geometry (BTBSetAssociative.base x) k /\ assoc (BTBSetAssociative.base x) < 2 ^ 32 /\
  tagShift (BTBSetAssociative.base x) < 64 /\ 0 <= BTBSetAssociative.log2NumThreads x <= k.

Lemma btb_set x k a tid : btb_geometry x k -> in_uw 64 a -> 0 <= tid < 2 ^ BTBSetAssociative.log2NumThreads x ->
  BTBSetAssociative.extractSet x (a, tid) =
    Ok (uw k (Z.lxor (Z.shiftr a (setShift (BTBSetAssociative.base x)))
                (Z.shiftl tid (k - BTBSetAssociative.log2NumThreads x)))).
Proof.
  intros (G & Ha & Ht & Hl) H64 Htid. unfold BTBSetAssociative.extractSet. destruct G as [Gk Gs Gm Gt Gsh Gas].
  set (x0 := BTBSetAssociative.base x) in *. set (n := BTBSetAssociative.log2NumThreads x) in *.
  cbn [fst snd]. rewrite shr_Ok, bind_Ok by lia.
  replace (tagShift x0 - setShift x0 - n) with (k - n) by lia. rewrite (uw_small 32 (k - n)) by (split; lia).
  assert (Hsh : 0 <= Z.shiftl tid (k - n) < 2 ^ k).
  { rewrite Z.shiftl_mul_pow2 by lia. pose proof (pow2_pos (k - n) ltac:(lia)). split; [nia|].
    replace (2 ^ k) with (2 ^ n * 2 ^ (k - n)) by (rewrite <- Z.pow_add_r by lia; f_equal; lia). nia. }
  pose proof (Z.pow_le_mono_r 2 k 31 ltac:(lia) ltac:(lia)).
  unfold BTBSetAssociative.shl_tid.
  destruct (Z.leb_spec 0 (k - n)), (Z.ltb_spec (k - n) 32), (Z.leb_spec 0 tid), (Z.ltb_spec (Z.shiftl tid (k - n)) (2 ^ 32)); try lia.
  cbn [andb]. rewrite bind_Ok, Gm, sw_small, (uw_small 64 (Z.shiftl tid _)) by (unfold in_sw, in_uw; lia).
  rewrite masked_index; [done|lia|]. apply Z.lxor_nonneg. split; [intros _; lia|].
  intros _. apply Z.shiftr_nonneg. apply H64.
Qed.

Lemma btb_possible_inv x k key l : btb_geometry x k ->
  BTBSetAssociative.getPossibleEntries x key = Ok l ->
  exists s, BTBSetAssociative.extractSet x key = Ok s /\ 0 <= s < numSets (BTBSetAssociative.base x) /\
    l = set_entries (BTBSetAssociative.base x) s.
Proof.
  intros (G & Ha & _) E. unfold BTBSetAssociative.getPossibleEntries in E. ok_inv. apply Z.ltb_lt in E1. exists r.
  assert (0 <= r) by (unfold BTBSetAssociative.extractSet in E0; ok_inv; subst r; apply (uw_range 32); lia).
  split; [done|]. split; [done|]. rewrite (set_entries_Ok _ k) in E by done. by injection E.
Qed.

Lemma btb_possible_Ok x k a tid : btb_geometry x k -> in_uw 64 a -> 0 <= tid < 2 ^ BTBSetAssociative.log2NumThreads x ->
  exists s, BTBSetAssociative.extractSet x (a, tid) = Ok s /\ 0 <= s < numSets (BTBSetAssociative.base x) /\
    BTBSetAssociative.getPossibleEntries x (a, tid) = Ok (set_entries (BTBSetAssociative.base x) s).
Proof.
  intros Hx H64 Ht. pose proof Hx as (G & Ha & _). pose proof (btb_set x k a tid Hx H64 Ht) as Es.
  eexists. split; [exact Es|].
  assert (Hs : 0 <= uw k (Z.lxor (Z.shiftr a (setShift (BTBSetAssociative.base x)))
    (Z.shiftl tid (k - BTBSetAssociative.log2NumThreads x))) < numSets (BTBSetAssociative.base x)).
  { rewrite (geo_sets _ _ G). apply uw_range. apply G. }
  split; [exact Hs|]. unfold BTBSetAssociative.getPossibleEntries. rewrite Es, bind_Ok.
  rewrite (proj2 (Z.ltb_lt _ _) (proj2 Hs)), check_true, bind_Ok. by apply (set_entries_Ok _ k).
Qed.

#[export] Instance BTB_laws : KeyLaws (Z * Z) BTBSetAssociative.t (Z * Z).
Proof.
  refine {| kl_wf x N := exists k, btb_geometry x k /\
              N = numSets (BTBSetAssociative.base x) * assoc (BTBSetAssociative.base x);
            kl_key x key := in_uw 64 key.1 /\ 0 <= key.2 < 2 ^ BTBSetAssociative.log2NumThreads x |}.
  - intros x N i (k & (G & Ha & _) & ->) Hi. by apply (setEntry_Ok _ k).
  - intros x N [a tid] (k & Hx & ->) [Hk Ht]. pose proof Hx as (G & Ha & _).
    destruct (btb_possible_Ok x k a tid Hx Hk Ht) as (s & _ & Hs & E).
    exists (set_entries (BTBSetAssociative.base x) s). split; [done|]. by apply (set_entries_law _ k).
  - intros x N key key' l l' i (k & Hx & ->) E E' Hi Hi'.
    destruct (btb_possible_inv x k key l Hx E) as (s & _ & _ & ->), (btb_possible_inv x k key' l' Hx E') as (s' & _ & _ & ->).
    apply (elem_of_set_entries _ k (proj1 Hx)) in Hi, Hi'. congruence.
  - intros x N i (k & Hx & ->) Hi. pose proof Hx as (G & Ha & Htag & Hl). pose proof (entry_set _ k G i Hi) as Hs.
    pose proof (geo_tag _ _ G). pose proof (geo_k _ _ G). pose proof (geo_shift _ _ G).
    set (x0 := BTBSetAssociative.base x) in *. set (s := i / assoc x0) in *.
    assert (Hsk : in_uw k s) by (unfold in_uw; rewrite <- (geo_sets _ _ G); lia).
    assert (H64 : in_uw 64 (Z.shiftl s (setShift x0))).
    { rewrite <- (field_shl_small 64 k) by (done || lia). apply uw_range. lia. }
    assert (Ht0 : 0 <= 0 < 2 ^ BTBSetAssociative.log2NumThreads x) by (split; [lia|apply pow2_pos; lia]).
    exists (Z.shiftl s (setShift x0), 0), (set_entries x0 s). split; [done|].
    destruct (btb_possible_Ok x k _ 0 Hx H64 Ht0) as (s' & Es & _ & E). rewrite (btb_set x k _ 0 Hx H64 Ht0) in Es.
    fold x0 in Es, E. rewrite Z.shiftr_shiftl_l, Z.sub_diag, Z.shiftl_0_r, Z.shiftl_0_l, Z.lxor_0_r, uw_small in Es by (done || lia).
    injection Es as <-. split; [done|]. by apply (elem_of_set_entries x0 k G).
  - intros x N [a tid] (k & (G & Ha & Ht & _) & ->) [Hk _]. cbn. unfold BTBSetAssociative.extractTag.
    rewrite shr_Ok, !bind_Ok by (pose proof (geo_tag _ _ G); pose proof (geo_shift _ _ G); pose proof (geo_k _ _ G); lia).
    eauto.
Defined.

(** ** The buffer *)
Section Buffer.
Context {P G D : Type} `{!ReplPolicy G D, !ReplLaws G D}.
Abbreviation buffer := (SimpleBTB.t P G D).
Implicit Types (b : buffer) (T tid pc now : Z).

Lemma update_entry_spec N b i target inst : cache_inv N b -> 0 <= i < N ->
  exists b', SimpleBTB.update_entry i target inst b = Ok b' /\ cache_inv N b' /\
    AssociativeCache.indexingPolicy b' = AssociativeCache.indexingPolicy b /\
    (forall key j, holds b' key j <-> holds b key j) /\
    (forall j e, AssociativeCache.entries b' !! j = Some e ->
       if decide (j = Z.to_nat i) then CacheEntry.payload e = (Some target, inst)
       else AssociativeCache.entries b !! j = Some e).
Proof.
  intros [Hw He Hd Hs] Hi. unfold SimpleBTB.update_entry.
  set (f := SimpleBTB.set_info target inst).
  destruct (vupd_Ok f (AssociativeCache.entries b) i ltac:(lia)) as (e & Ee & ->). rewrite bind_Ok. eexists. split; [done|].
  split; [constructor; cbn; rewrite ?length_insert; done|]. split; [done|]. split.
  - intros key j. unfold holds. cbn.
    assert (Hl : forall e', <[Z.to_nat i := f e]> (AssociativeCache.entries b) !! Z.to_nat j = Some e' ->
      exists e'', AssociativeCache.entries b !! Z.to_nat j = Some e'' /\ CacheEntry.valid e'' = CacheEntry.valid e' /\
        CacheEntry.tag e'' = CacheEntry.tag e').
    { intros e'. destruct (decide (Z.to_nat j = Z.to_nat i)) as [->|Hne].
      - rewrite list_lookup_insert_eq by (by eapply lookup_lt_Some). intros [= <-]. by exists e.
      - rewrite list_lookup_insert_ne by done. by exists e'. }
    split; intros (l & t & e' & El & Et & Hin & Hl' & Hv & Htag).
    + destruct (Hl e' Hl') as (e'' & He'' & Hv'' & Ht''). exists l, t, e''. split_and!; try done; congruence.
    + destruct (decide (Z.to_nat j = Z.to_nat i)) as [Eji|Hne].
      * exists l, t, (f e'). rewrite Eji in Hl' |- *. rewrite Ee in Hl'. injection Hl' as <-.
        rewrite list_lookup_insert_eq by (by eapply lookup_lt_Some). done.
      * exists l, t, e'. by rewrite list_lookup_insert_ne.
  - intros j e' Hj. cbn in Hj. destruct (decide (j = Z.to_nat i)) as [->|Hne].
    + rewrite list_lookup_insert_eq in Hj by (by eapply lookup_lt_Some). by injection Hj as <-.
    + by rewrite list_lookup_insert_ne in Hj.
Qed.

(** An update: the entry that takes the target, and what the buffer holds. *)
Lemma btb_update_spec N now rnd tid pc target inst b : cache_inv N b ->
  kl_key (AssociativeCache.indexingPolicy b) (pc, tid) ->
  exists v b', SimpleBTB.update now rnd tid pc target inst b = Ok b' /\ cache_inv N b' /\ 0 <= v < N /\
    AssociativeCache.indexingPolicy b' = AssociativeCache.indexingPolicy b /\
    (forall j e, AssociativeCache.entries b' !! j = Some e ->
       if decide (j = Z.to_nat v) then CacheEntry.payload e = (Some target, inst)
       else AssociativeCache.entries b !! j = Some e) /\
    (forall key i, kl_key (AssociativeCache.indexingPolicy b) key ->
       holds b' key i <-> (i = v /\ alias (AssociativeCache.indexingPolicy b) (pc, tid) key) \/ (i <> v /\ holds b key i)).
Proof.
  intros Hb Hk. unfold SimpleBTB.update.
  destruct (replace_spec N now (rnd 0%nat) (rnd 1%nat) b (pc, tid) Hb Hk) as (v & b1 & b2 & -> & E2 & Hv & Hb2 & Hx & _ & Hes & Hh).
  rewrite bind_Ok. cbn [fst snd]. rewrite E2, bind_Ok.
  destruct (update_entry_spec N b2 v target inst Hb2 Hv) as (b' & -> & Hb' & Hx' & Hh' & Hes').
  exists v, b'. split; [done|]. split; [done|]. split; [done|]. split; [by rewrite Hx'|]. split.
  - intros j e Hj. apply Hes' in Hj. destruct (decide (j = Z.to_nat v)); [done|]. by rewrite <- Hes.
  - intros key i Hkey. by rewrite Hh', Hh.
Qed.

(** A lookup returns the target of the entry that [findEntry] finds. *)
Definition target_of b (key : Z * Z) (r : option P) : Prop :=
  match AssociativeCache.findEntry key b with
  | Ok (Some i) => exists e, AssociativeCache.entries b !! Z.to_nat i = Some e /\ (CacheEntry.payload e).1 = r
  | Ok None => r = None
  | Err _ => False
  end.

Lemma btb_lookup_spec N now tid pc b : cache_inv N b -> kl_key (AssociativeCache.indexingPolicy b) (pc, tid) ->
  exists r b', SimpleBTB.lookup now tid pc b = Ok (r, b') /\ target_of b (pc, tid) r /\ cache_inv N b' /\
    AssociativeCache.entries b' = AssociativeCache.entries b /\
    AssociativeCache.indexingPolicy b' = AssociativeCache.indexingPolicy b.
Proof.
  intros Hb Hk. pose proof Hb as [Hw He _ _]. unfold SimpleBTB.lookup, AssociativeCache.accessEntry, target_of.
  destruct (findEntry_spec N b (pc, tid) Hb Hk) as (r & -> & Hr). rewrite bind_Ok.
  destruct r as [i|]; [|rewrite bind_Ok; by eexists None, b]. destruct Hr as (l & t & e & El & _ & Hin & Hl & _).
  destruct (possible_range N _ _ l Hw Hk El) as (_ & _ & Hr & _). pose proof (proj1 (Forall_forall _ _) Hr i Hin) as Hi.
  destruct (access_at_spec N now b i Hb Hi) as (b' & -> & Hb' & Hes & Hx). rewrite !bind_Ok. cbn [fst snd].
  rewrite Hes, (vget_lookup _ i e), bind_Ok by (done || cbn in Hi; lia). eexists _, b'. split; [done|]. split; [by exists e|done].
Qed.

(** after an update of a branch that missed, the buffer predicts its new
    target; a lookup of any other branch, of this or of another thread, gives
    what it gave before or misses; and no branch has two entries. *)
Theorem btb_update_correct N now rnd tid pc target inst b : cache_inv N b -> unique b ->
  kl_key (AssociativeCache.indexingPolicy b) (pc, tid) -> AssociativeCache.findEntry (pc, tid) b = Ok None ->
  exists b', SimpleBTB.update now rnd tid pc target inst b = Ok b' /\ cache_inv N b' /\ unique b' /\
    target_of b' (pc, tid) (Some target) /\
    forall key r, kl_key (AssociativeCache.indexingPolicy b) key ->
      ~ alias (AssociativeCache.indexingPolicy b) (pc, tid) key -> target_of b key r ->
      target_of b' key r \/ target_of b' key None.
Proof.
  intros Hb Hu Hk Hmiss. rewrite (findEntry_none N) in Hmiss by done.
  destruct (btb_update_spec N now rnd tid pc target inst b Hb Hk) as (v & b' & E & Hb' & Hv & Hx & Hes & Hh).
  pose proof (in_entries N b' Hb') as Hlen.
  assert (Hu' : unique b').
  { intros key i j Hkey Hi Hj. rewrite Hx in Hkey. rewrite Hh in Hi, Hj by done.
    destruct Hi as [[-> Ha]|[Hni Hi]], Hj as [[-> Ha']|[Hnj Hj]]; try done; [| |by eapply Hu].
    - destruct (Hmiss j). destruct Ha as [A1 A2]. unfold holds in *. by rewrite A1, A2.
    - destruct (Hmiss i). destruct Ha' as [A1 A2]. unfold holds in *. by rewrite A1, A2. }
  exists b'. split_and!; try done.
  - unfold target_of. rewrite (proj2 (findEntry_holds N b' (pc, tid) v Hb' Hu' ltac:(by rewrite Hx)));
      [|apply Hh; [done|]; by left].
    destruct (lookup_lt_is_Some_2 (AssociativeCache.entries b') (Z.to_nat v)) as [e He]; [lia|].
    exists e. split; [done|]. apply Hes in He. rewrite decide_True in He by done. by rewrite He.
  - intros key r Hkey Hna Ht. unfold target_of in *. destruct (findEntry_spec N b key Hb Hkey) as (o & Eo & Ho).
    rewrite Eo in Ht. destruct (findEntry_spec N b' key Hb') as (o' & -> & Ho'); [by rewrite Hx|].
    destruct o' as [i'|]; [left|by right]. apply Hh in Ho' as [[_ Ha]|[Hne Ho']]; [done| |done].
    destruct o as [i|]; [|by destruct (Ho i')]. assert (i' = i) as -> by (by eapply Hu).
    destruct Ht as (e & He & Hp). exists e. split; [|done].
    destruct Ho' as (l & t & e' & El & _ & Hin & _). pose proof Hb as [Hw _ _ _].
    destruct (possible_range N _ key l Hw Hkey El) as (_ & _ & Hr & _). pose proof (proj1 (Forall_forall _ _) Hr i Hin) as Hi.
    destruct (lookup_lt_is_Some_2 (AssociativeCache.entries b') (Z.to_nat i)) as [e2 He2]; [cbn in Hi; lia|].
    etransitivity; [exact He2|]. apply Hes in He2. rewrite decide_False in He2 by (cbn in Hi; lia).
    etransitivity; [symmetry; exact He2|exact He].
Qed.

(** ** The buffer as a component of the branch prediction unit *)
#[export] Instance SimpleBTB_laws : BtbLaws P buffer.
Proof.
  refine {| bl_wf T b := exists N, cache_inv N b /\
              T <= 2 ^ BTBSetAssociative.log2NumThreads (AssociativeCache.indexingPolicy b) |}.
  - intros now T tid pc ty b (N & Hb & HT) Ht Hpc.
    destruct (btb_lookup_spec N now tid pc b Hb) as (r & b' & E & _ & Hb' & _ & Hx); [split; cbn; [done|lia]|].
    exists r, b'. split; [done|]. exists N. rewrite Hx. done.
  - intros now rnd T tid pc tgt ty i b (N & Hb & HT) Ht Hpc.
    destruct (btb_update_spec N now rnd tid pc tgt (Some i) b Hb) as (v & b' & E & Hb' & _ & Hx & _); [split; cbn; [done|lia]|].
    exists b'. split; [done|]. exists N. rewrite Hx. done.
Defined.
End Buffer.

(** ** A buffer with LRU replacement, from its constructor *)
Lemma ctz32_pow2 l : 0 <= l < 31 -> log2i (2 ^ l) = Ok l.
Proof.
  intros Hl. pose proof (pow2_pos l ltac:(lia)). pose proof (Z.pow_lt_mono_r 2 l 31 ltac:(lia) ltac:(lia) ltac:(lia)).
  unfold log2i. destruct (Z.eqb_spec (2 ^ l) (- 2 ^ 31)); [lia|].
  rewrite (uw_small 64), (uw_small 32) by (split; lia).
  rewrite (proj2 (isPowerOf2_spec (2 ^ l) ltac:(split; lia))) by (exists l; split; [lia|done]).
  rewrite (proj2 (Z.ltb_lt 0 (2 ^ l))) by lia. cbn [andb check rbind]. f_equal.
  unfold ctz32. destruct (Z.eqb_spec (2 ^ l) 0); [lia|]. cbn [negb].
  destruct (builtin_ctz_bits (2 ^ l) ltac:(lia)) as [Hb _].
  assert (0 <= builtin_ctz (2 ^ l)) by (destruct (2 ^ l); try lia; apply builtin_ctz_nonneg).
  rewrite Z.pow2_bits_eqb in Hb by lia. apply Z.eqb_eq in Hb. lia.
Qed.
