(* ===== verification/BPredExamples.v ===== *)
(** * The branch prediction unit at work

    A unit with a tournament predictor, a 2-way buffer with LRU replacement, a
    return address stack of four entries and an indirect predictor, for one
    thread, built by the constructors of the code. The general theorems of
    AssocCache, SimpleBTB and BPredLaws are applied to it, and two behaviours of
    the code that surprise are shown on it. *)

From S2P Require Import Prelude Bits Tables SatCounter BranchDir BranchLaws Ras Indirect Replacement ReplLaws.
From S2P Require Import Indexing AssocCache BPredUnit BPredLaws SimpleBTB.
Import BPredUnit.BPredUnit.

(** The value of a computation known to succeed. *)
Definition succeeds {A} (r : result A) : Prop := match r with Ok _ => True | Err _ => False end.
Definition run {A} (r : result A) : succeeds r -> A :=
  match r with Ok x => fun _ => x | Err _ => fun H => False_rect _ H end.

Lemma run_Ok {A} (r : result A) (H : succeeds r) : r = Ok (run r H).
Proof. by destruct r. Qed.

Lemma run_eq {A} (r : result A) (H : succeeds r) x : r = Ok x -> run r H = x.
Proof. intros ->. done. Qed.

(** Four sets of two ways, for one thread. *)
Definition btb_index : BTBSetAssociative.t :=
  run (BTBSetAssociative.new 2 8 2 16 1) I.

Definition ex_btb : Type := SimpleBTB.t Z unit LRU.data.
Definition btb_start : ex_btb :=
  run (SimpleBTB.new (D := LRU.data) 8 2 tt btb_index) I.

Lemma btb_index_wf : kl_wf btb_index 8.
Proof.
  exists 2. split; [|done]. split; [|by vm_compute]. constructor; by vm_compute.
Qed.

Lemma btb_start_inv : cache_inv 8 btb_start /\ unique btb_start /\
  AssociativeCache.indexingPolicy btb_start = btb_index.
Proof.
  destruct (new_inv (V := SimpleBTB.info (P := Z)) 8 2 tt (LRU.mk 0) btb_index (None, None) btb_index_wf)
    as (c & E & Hc & Hu & Hx & _ & _); [lia|lia|done|done|intros n _; apply Forall_replicate; done|].
  assert (E' : SimpleBTB.new (D := LRU.data) 8 2 tt btb_index = Ok c)
    by exact (f_equal (fun r => let! b := r in let! _ := check Fatal (isPowerOf2 8) in Ok b) E).
  assert (btb_start = c) as -> by exact (run_eq (SimpleBTB.new (D := LRU.data) 8 2 tt btb_index) I c E').
  exact (conj Hc (conj Hu Hx)).
Qed.

Lemma assoc_insert_correct_witness : exists v c1 c2,
  AssociativeCache.findVictim 0 (0x400, 0) btb_start = Ok (v, c1) /\
  AssociativeCache.insertEntry 5 0 (0x400, 0) v c1 = Ok c2 /\ unique c2.
Proof.
  destruct btb_start_inv as (Hi & Hu & Hx).
  destruct (assoc_insert_correct 8 5 0 0 btb_start (0x400, 0) Hi Hu) as (v & c1 & c2 & E1 & E2 & _ & Hu2 & _);
    [by vm_compute|by vm_compute|]. exact (ex_intro _ v (ex_intro _ c1 (ex_intro _ c2 (conj E1 (conj E2 Hu2))))).
Defined.

Lemma assoc_access_clear_correct_witness :
  exists c', AssociativeCache.clear btb_start = Ok c' /\ AssociativeCache.findEntry (0x400, 0) c' = Ok None.
Proof.
  destruct btb_start_inv as (Hi & Hu & Hx).
  destruct (assoc_access_clear_correct 8 5 btb_start (0x400, 0) Hi) as (_ & c' & E & _ & Hf); [by vm_compute|].
  exact (ex_intro _ c' (conj E Hf)).
Defined.

Lemma btb_update_correct_witness :
  exists b', SimpleBTB.update 5 (fun _ => 0) 0 0x400 0x800 None btb_start = Ok b' /\
    target_of b' (0x400, 0) (Some 0x800).
Proof.
  destruct btb_start_inv as (Hi & Hu & Hx).
  destruct (btb_update_correct 8 5 (fun _ => 0) 0 0x400 0x800 None btb_start Hi Hu) as (b' & E & _ & _ & Ht & _);
    [by vm_compute|by vm_compute|]. exact (ex_intro _ b' (conj E Ht)).
Defined.

(** [update] does not look for an entry of the branch. In a buffer of two ways
    a second update of the same branch takes the other way, and the lookup
    still finds the first one: the buffer keeps predicting the old target. *)
Theorem btb_update_stale : exists b1 b2 b3,
  SimpleBTB.update 5 (fun _ => 0) 0 0x400 0x800 None btb_start = Ok b1 /\
  SimpleBTB.update 9 (fun _ => 0) 0 0x400 0xc00 None b1 = Ok b2 /\
  SimpleBTB.lookup 10 0 0x400 b2 = Ok (Some 0x800, b3).
Proof. eexists _, _, _. split; [by vm_compute|]. split; [by vm_compute|]. by vm_compute. Qed.

(** ** The whole unit *)
Definition dir_start : TournamentBP.t := run (TournamentBP.new 1 16 2 16 64 2 64 2 2) I.
Definition ind_start : SimpleIndirect.t Z := run (SimpleIndirect.new true true 4 2 16 3 256 2 13 1) I.

Definition ex_unit : Type := BPredUnit.t Z TournamentBP.t TournamentBP.history (SimpleIndirect.t Z) SimpleIndirect.history ex_btb.
Definition unit_start : ex_unit :=
  BPredUnit.new 1 false dir_start btb_start (Some (ReturnAddrStack.new 1 4)) (Some ind_start).

Lemma unit_start_inv : unit_inv 4 1 unit_start.
Proof.
  split; [|split; [done|by repeat constructor]]. constructor.
  - apply (tournament_new_wf 1 16 2 16 64 2 64 2 2 dir_start); [split; lia..|lia|exact (run_Ok (TournamentBP.new 1 16 2 16 64 2 64 2 2) I)].
  - intros tid Ht. by vm_compute in Ht |- *.
  - exists 8. split; [apply btb_start_inv|by vm_compute].
  - split; [apply ras_new_ok; lia|done].
  - split; [|intros tid Ht; by vm_compute in Ht |- *].
    apply (indirect_new_wf true true 4 2 16 3 256 2 13 1);
      [split; lia|lia..|by vm_compute|exact (run_Ok (SimpleIndirect.new (P := Z) true true 4 2 16 3 256 2 13 1) I)].
Qed.

(** A direct call, an indirect jump and a conditional return of a machine with
    4-byte instructions. *)
Definition inst_of (f : StaticInst) : BranchInst Z := mkBranchInst f (fun _ pc => pc + 4) (fun pc => pc + 4).
Definition call_inst : BranchInst Z := inst_of (mkInst false true true false false true).
Definition jump_inst : BranchInst Z := inst_of (mkInst false false false true false true).
Definition cond_return : BranchInst Z := inst_of (mkInst true false false true true false).
Definition ex_env (t : Z) : env := mkEnv t 0 (fun _ => 0).

Lemma bpred_predict_correct_witness : exists taken pc' u',
  predict call_inst 1 0x400 0 (ex_env 5) unit_start = Ok (taken, pc', u') /\ unit_inv 4 1 u'.
Proof.
  destruct (bpred_predict_correct 4 1 call_inst 1 0x400 0 (ex_env 5) unit_start [] unit_start_inv)
    as (taken & pc' & h & u' & E & Hu & _); [lia|reflexivity|constructor|].
  exact (ex_intro _ taken (ex_intro _ pc' (ex_intro _ u' (conj E Hu)))).
Defined.

(** The unit with the call predicted, as branch 1. *)
Definition unit_called : ex_unit := (run (predict call_inst 1 0x400 0 (ex_env 5) unit_start) I).2.

Lemma unit_called_inv : unit_inv 4 1 unit_called /\ exists h, predHist unit_called = [[h]] /\ seqNum h = 1.
Proof.
  destruct (predict_spec 4 1 call_inst 1 0x400 0 (ex_env 5) unit_start [] unit_start_inv)
    as (taken & pc' & h & u' & E & Hu & _ & Hp & Hf & _); [lia|reflexivity|constructor|].
  assert (unit_called = u') as ->
    by exact (f_equal snd (run_eq (predict call_inst 1 0x400 0 (ex_env 5) unit_start) I (taken, pc', u') E)).
  split; [exact Hu|]. exists h. split; [by rewrite Hp|apply Hf].
Qed.

Lemma bpred_commit_correct_witness : exists u', update 1 0 unit_called = Ok u' /\ predHist u' = [[]].
Proof.
  destruct unit_called_inv as (Hu & h & Hp & Hs).
  destruct (bpred_commit_correct 4 1 1 0 unit_called [h] Hu) as (u' & E & _ & Hp'); [lia|by rewrite Hp|].
  refine (ex_intro _ u' (conj E _)). rewrite Hp', Hp. rewrite filter_cons_False by lia. reflexivity.
Defined.

Lemma bpred_squash_correct_witness : exists u', squash 0 0 unit_called = Ok u' /\ predHist u' = [[]].
Proof.
  destruct unit_called_inv as (Hu & h & Hp & Hs).
  destruct (bpred_squash_correct 4 1 0 0 unit_called [h] Hu) as (u' & E & _ & Hp'); [lia|by rewrite Hp|].
  refine (ex_intro _ u' (conj E _)). rewrite Hp', Hp. rewrite filter_cons_False by lia. reflexivity.
Defined.

Lemma bpred_mispredict_correct_witness :
  exists u' h', squash_correct 1 0x900 true 0 (ex_env 7) unit_called = Ok u' /\
    predHist u' = [[h']] /\ actuallyTaken h' = true /\ target h' = Some 0x900.
Proof.
  destruct unit_called_inv as (Hu & h & Hp & Hs).
  destruct (bpred_mispredict_correct 4 1 1 0x900 true 0 (ex_env 7) unit_called [h] Hu) as (u' & E & _ & Hp');
    [lia|cbn; lia|by rewrite Hp|]. rewrite filter_cons_True in Hp' by lia. destruct Hp' as (h' & Hc & Hp').
  refine (ex_intro _ u' (ex_intro _ h' (conj E _))). rewrite Hp', Hp. split; [reflexivity|].
  destruct Hc as (_ & _ & _ & _ & Ha & _ & Ht). exact (conj Ha Ht).
Defined.

Lemma bpred_speculation_undone_witness : exists u1 u2,
  predicts 0 [(call_inst, 2, 0x500, ex_env 8); (jump_inst, 3, 0x600, ex_env 9)] unit_called = Ok u1 /\
  squash 1 0 u1 = Ok u2 /\ predHist u2 = predHist unit_called /\ iPred u2 = iPred unit_called.
Proof.
  destruct unit_called_inv as (Hu & h & Hp & Hs).
  destruct (bpred_speculation_undone 4 1 0 [(call_inst, 2, 0x500, ex_env 8); (jump_inst, 3, 0x600, ex_env 9)]
    unit_called 1 [h] Hu) as (u1 & u2 & E1 & E2 & _ & Hp2 & _ & Hi & _);
    [lia|by rewrite Hp|by constructor; [lia|]|by cbn; lia|].
  exact (ex_intro _ u1 (ex_intro _ u2 (conj E1 (conj E2 (conj Hp2 Hi))))).
Defined.

(** a conditional return that is predicted as not taken still pops the return
    address stack and continues at the popped address: the unit reports not
    taken, but the next program counter is not the fall-through one. *)
Theorem bpred_untaken_return_redirects : exists u',
  predict cond_return 2 0x900 0 (ex_env 8) unit_called = Ok (false, 0x404, u') /\
  advancePC cond_return 0x900 <> 0x404.
Proof. eexists. split; [by vm_compute|by vm_compute]. Qed.

(** a call that was not predicted is corrected when it turns out taken, but the
    return address pushed then is built from the target of the call: the next
    return is predicted to go past the target, not past the call. *)
Theorem bpred_corrected_call_return : exists h h' u' r,
  correct_ras (H := unit) (IH := unit) 0 (mkHist 1 0x400 call_inst false false false false NoTarget false None None None None) 0x900 true
    (ReturnAddrStack.new 1 4) = Ok (Some h, r) /\
  ReturnAddrStack.pop 0 None r = Ok (Some (buildRetPC call_inst 0x900 0x900), h', u') /\
  buildRetPC call_inst 0x900 0x900 <> buildRetPC call_inst 0x400 0x400.
Proof. eexists _, _, _, _. split; [by vm_compute|]. split; by vm_compute. Qed.
