(* ===== verification/Rename.v ===== *)
(** * Register renaming of the out-of-order processor

    Model of src/gem5/src/cpu/o3: free_list.{hh,cc}, rename_map.{hh,cc},
    scoreboard.{hh,cc}, the construction of the register identifiers in
    regfile.cc, and the parts of rename.cc and cpu.cc that allocate, restore and
    free physical registers. *)

From S2P Require Import Prelude Bits.

(** [RegClassType] of src/gem5/src/cpu/reg_class.hh. *)
Inductive RegClassType :=
| IntRegClass | FloatRegClass | VecRegClass | VecElemClass | VecPredRegClass | MatRegClass | CCRegClass
| MiscRegClass | InvalidRegClass.

#[global] Instance RegClassType_eq_dec : EqDecision RegClassType.
Proof. solve_decision. Defined.

(** The value of the enumerator, and the classes that have a rename map. *)
Definition class_value (c : RegClassType) : Z :=
  match c with
  | IntRegClass => 0 | FloatRegClass => 1 | VecRegClass => 2 | VecElemClass => 3 | VecPredRegClass => 4
  | MatRegClass => 5 | CCRegClass => 6 | MiscRegClass => 7 | InvalidRegClass => -1
  end.
Definition renamed_classes : list RegClassType :=
  [IntRegClass; FloatRegClass; VecRegClass; VecElemClass; VecPredRegClass; MatRegClass; CCRegClass].

(** An architectural register. *)
Record RegId := mkRegId { classValue : RegClassType; index : Z; numPinnedWrites : Z }.

Definition isRenameable (r : RegId) : bool :=
  match classValue r with MiscRegClass | InvalidRegClass => false | _ => true end.

(** A [PhysRegIdPtr]: null, a renamed register by its flat index, a register
    with a fixed mapping, or the invalid register. *)
Inductive preg := NullReg | PhysReg (flat : Z) | FixedReg (i : Z) | InvalidReg.

#[global] Instance preg_eq_dec : EqDecision preg.
Proof. solve_decision. Defined.

(** The object that such a pointer leads to, for renamed registers. *)
Record PhysRegId := mkPhys {
  p_class : RegClassType;
  p_index : Z;
  p_pinnedWrites : Z;
  p_pinnedWritesToComplete : Z;
  p_pinned : bool;
}.

Record RenameHistory := mkHistory {
  instSeqNum : Z;
  archReg : RegId;
  newPhysReg : preg;
  prevPhysReg : preg;
}.

Module Rename.
(** The register identifiers, the free lists by class, the rename maps by
    thread, class and architectural index, the scoreboard, the history buffers
    (the youngest entry first) and the registers that wait for the end of a
    squash, by thread. *)
Record t := mk {
  regIds : list PhysRegId;
  numMiscRegs : Z;
  freeLists : list (list preg);
  renameMaps : list (list (list preg));
  regScoreBoard : list bool;
  historyBuffer : list (list RenameHistory);
  freeingInProgress : list (list preg);
}.

Definition with_regIds x s := mk x (numMiscRegs s) (freeLists s) (renameMaps s) (regScoreBoard s) (historyBuffer s) (freeingInProgress s).
Definition with_free x s := mk (regIds s) (numMiscRegs s) x (renameMaps s) (regScoreBoard s) (historyBuffer s) (freeingInProgress s).
Definition with_maps x s := mk (regIds s) (numMiscRegs s) (freeLists s) x (regScoreBoard s) (historyBuffer s) (freeingInProgress s).
Definition with_board x s := mk (regIds s) (numMiscRegs s) (freeLists s) (renameMaps s) x (historyBuffer s) (freeingInProgress s).
Definition with_history x s := mk (regIds s) (numMiscRegs s) (freeLists s) (renameMaps s) (regScoreBoard s) x (freeingInProgress s).
Definition with_freeing x s := mk (regIds s) (numMiscRegs s) (freeLists s) (renameMaps s) (regScoreBoard s) (historyBuffer s) x.

(** ** Free lists *)

(** The object behind a pointer. *)
Definition deref (p : preg) (s : t) : result PhysRegId :=
  match p with
  | PhysReg f => vget (regIds s) f
  | FixedReg i => Ok (mkPhys MiscRegClass i 0 0 false)
  | InvalidReg => Ok (mkPhys InvalidRegClass (-1) 0 0 false)
  | NullReg => Err Undefined
  end.

Definition getReg (c : RegClassType) (s : t) : result (preg * t) :=
  let! l := vget (freeLists s) (class_value c) in
  match l with
  | [] => Err AssertFail
  | p :: l => let! fl := vset (freeLists s) (class_value c) l in Ok (p, with_free fl s)
  end.

Definition addReg (p : preg) (s : t) : result t :=
  let! o := deref p s in
  let! l := vget (freeLists s) (class_value (p_class o)) in
  let! fl := vset (freeLists s) (class_value (p_class o)) (l ++ [p]) in
  Ok (with_free fl s).

Definition numFreeRegs (c : RegClassType) (s : t) : result Z :=
  let! l := vget (freeLists s) (class_value c) in Ok (Z.of_nat (length l)).

(** ** Scoreboard *)
Definition isFixedMapping (p : preg) (s : t) : result bool :=
  let! o := deref p s in
  Ok match p_class o with MiscRegClass | InvalidRegClass => true | _ => false end.

(** The flat index of a register that is not fixed. *)
Definition flatIndex (p : preg) : result Z :=
  match p with PhysReg f => Ok f | _ => Err Undefined end.

Definition sb_getReg (p : preg) (s : t) : result bool :=
  let! fixed := isFixedMapping p s in
  if fixed : bool then Ok true else
  let! f := flatIndex p in
  guard! f <? Z.of_nat (length (regScoreBoard s));
  vget (regScoreBoard s) f.

Definition sb_write (v : bool) (p : preg) (s : t) : result t :=
  let! fixed := isFixedMapping p s in
  if fixed : bool then Ok s else
  let! f := flatIndex p in
  guard! f <? Z.of_nat (length (regScoreBoard s));
  let! b := vset (regScoreBoard s) f v in Ok (with_board b s).
Definition setReg := sb_write true.
Definition unsetReg := sb_write false.

(** ** Rename maps *)

(** [SimpleRenameMap::lookup] and [setEntry]: the assertion allows the index to
    equal the size of the map. *)
Definition map_lookup (r : RegId) (m : list preg) : result preg :=
  guard! index r <=? Z.of_nat (length m); vget m (index r).
Definition map_setEntry (r : RegId) (p : preg) (m : list preg) : result (list preg) :=
  guard! index r <=? Z.of_nat (length m); vset m (index r) p.

Definition getMiscRegId (i : Z) (s : t) : result preg :=
  if (0 <=? i) && (i <? numMiscRegs s) then Ok (FixedReg i) else Err Undefined.

(** [UnifiedRenameMap::lookup]. *)
Definition lookup (tid : Z) (r : RegId) (s : t) : result preg :=
  match classValue r with
  | InvalidRegClass => Ok InvalidReg
  | MiscRegClass => getMiscRegId (index r) s
  | c => let! ms := vget (renameMaps s) tid in
         let! m := vget ms (class_value c) in map_lookup r m
  end.

(** Writing the map of a class of a thread. *)
Definition set_map (tid : Z) (c : RegClassType) (m : list preg) (s : t) : result t :=
  let! ms := vget (renameMaps s) tid in
  let! ms := vset ms (class_value c) m in
  let! all := vset (renameMaps s) tid ms in Ok (with_maps all s).

(** [UnifiedRenameMap::setEntry]. *)
Definition setEntry (tid : Z) (r : RegId) (p : preg) (s : t) : result t :=
  let! o := deref p s in
  guard! bool_decide (p_class o = classValue r);
  if negb (isRenameable r) then
    let! q := lookup tid r s in
    guard! bool_decide (p = q); Ok s
  else
    let! ms := vget (renameMaps s) tid in
    let! m := vget ms (class_value (classValue r)) in
    let! m := map_setEntry r p m in
    set_map tid (classValue r) m s.

(** Changing the pinned-write counts of a register object. *)
Definition upd_phys (f : PhysRegId -> PhysRegId) (p : preg) (s : t) : result t :=
  match p with
  | PhysReg i => let! ids := vupd f (regIds s) i in Ok (with_regIds ids s)
  | _ => Err Undefined
  end.
Definition decrNumPinnedWrites (o : PhysRegId) : PhysRegId :=
  mkPhys (p_class o) (p_index o) (p_pinnedWrites o - 1) (p_pinnedWritesToComplete o) (p_pinned o).
(** [setNumPinnedWrites(n)] and [setNumPinnedWritesToComplete(n + 1)]. *)
Definition setPinned (n : Z) (o : PhysRegId) : PhysRegId :=
  mkPhys (p_class o) (p_index o) n (n + 1) (negb (n =? 0)).

(** [SimpleRenameMap::rename] of a renamed class: the new and the previous
    register. *)
Definition simple_rename (tid : Z) (r : RegId) (s : t) : result (preg * preg * t) :=
  let! ms := vget (renameMaps s) tid in
  let! m := vget ms (class_value (classValue r)) in
  let! prev_reg := vget m (index r) in
  let! o := deref prev_reg s in
  if 0 <? p_pinnedWrites o then
    guard! numPinnedWrites r =? 0;
    let! s := upd_phys decrNumPinnedWrites prev_reg s in
    Ok (prev_reg, prev_reg, s)
  else
    let! ps := getReg (classValue r) s in
    let! m := vset m (index r) ps.1 in
    let! s := set_map tid (classValue r) m ps.2 in
    let! s := upd_phys (setPinned (numPinnedWrites r)) ps.1 s in
    Ok (ps.1, prev_reg, s).

(** [UnifiedRenameMap::rename]. *)
Definition rename (tid : Z) (r : RegId) (s : t) : result (preg * preg * t) :=
  if negb (isRenameable r) then
    let! p := lookup tid r s in Ok (p, p, s)
  else simple_rename tid r s.

(** [canRename]: [dests] are the destination registers of the instruction. *)
Definition numDestRegs (c : RegClassType) (dests : list RegId) : Z :=
  Z.of_nat (length (filter (fun r => classValue r = c) dests)).
Fixpoint can_rename_loop (cs : list RegClassType) (dests : list RegId) (s : t) : result bool :=
  match cs with
  | [] => Ok true
  | c :: cs =>
      let! n := numFreeRegs c s in
      if n <? numDestRegs c dests then Ok false else can_rename_loop cs dests s
  end.
Definition canRename (dests : list RegId) (s : t) : result bool := can_rename_loop renamed_classes dests s.

(** ** The rename stage *)
Section Stage.
(** [RegId::flatten], which the instruction set architecture supplies. *)
Context (flatten : RegId -> RegId).

(** The renamed source registers of an instruction and whether they are ready. *)
Fixpoint renameSrcRegs (tid : Z) (srcs : list RegId) (s : t) : result (list (preg * bool)) :=
  match srcs with
  | [] => Ok []
  | r :: srcs =>
      let! p := lookup tid (flatten r) s in
      let! ready := sb_getReg p s in
      let! l := renameSrcRegs tid srcs s in Ok ((p, ready) :: l)
  end.

Definition push_history (tid : Z) (h : RenameHistory) (s : t) : result t :=
  let! l := vget (historyBuffer s) tid in
  let! hb := vset (historyBuffer s) tid (h :: l) in Ok (with_history hb s).

(** The renamed destination registers of the instruction [sn]. *)
Fixpoint renameDestRegs (tid sn : Z) (dests : list RegId) (s : t) : result (list (preg * preg) * t) :=
  match dests with
  | [] => Ok ([], s)
  | r :: dests =>
      let f := flatten r in
      let flat := mkRegId (classValue f) (index f) (numPinnedWrites r) in
      let! x := rename tid flat s in
      let '(new, prev, s) := x in
      let! s := unsetReg new s in
      let! s := push_history tid (mkHistory sn flat new prev) s in
      let! r := renameDestRegs tid sn dests s in
      Ok ((new, prev) :: r.1, r.2)
  end.
End Stage.

(** The loop of [doSquash] over the history buffer [hb] of the thread. *)
Fixpoint squash_loop (squashed_seq_num tid : Z) (hb : list RenameHistory) (s : t) : result (list RenameHistory * t) :=
  match hb with
  | [] => Ok ([], s)
  | h :: rest =>
      if squashed_seq_num <? instSeqNum h then
        let! s := (if bool_decide (newPhysReg h = prevPhysReg h) then Ok s
                   else let! s := setEntry tid (archReg h) (prevPhysReg h) s in
                        let! l := vget (freeingInProgress s) tid in
                        let! fp := vset (freeingInProgress s) tid (l ++ [newPhysReg h]) in
                        Ok (with_freeing fp s)) in
        squash_loop squashed_seq_num tid rest s
      else Ok (hb, s)
  end.

Definition doSquash (squashed_seq_num tid : Z) (s : t) : result t :=
  let! hb := vget (historyBuffer s) tid in
  let! r := squash_loop squashed_seq_num tid hb s in
  let! all := vset (historyBuffer r.2) tid r.1 in Ok (with_history all r.2).

(** The loop of [removeFromHistory], from the oldest entry on. [wraps] says what
    the decrement of a list iterator at [begin()] does: the C++ standard leaves it
    undefined ([false]), and in a circular list, as the one of libstdc++, the
    iterator moves to [end()] ([true]). Erasing the only entry does it. *)
Fixpoint commit_loop (wraps : bool) (inst_seq_num : Z) (oldest_first : list RenameHistory) (s : t) :
    result (list RenameHistory * t) :=
  match oldest_first with
  | [] => Ok ([], s)
  | h :: rest =>
      if instSeqNum h <=? inst_seq_num then
        let! s := (if bool_decide (newPhysReg h = prevPhysReg h) then Ok s else addReg (prevPhysReg h) s) in
        let! _ := check Undefined (wraps || bool_decide (rest <> [])) in
        commit_loop wraps inst_seq_num rest s
      else Ok (oldest_first, s)
  end.

(** The decrement of [end()] comes before the test for an empty list. *)
Definition removeFromHistory (wraps : bool) (inst_seq_num tid : Z) (s : t) : result t :=
  let! hb := vget (historyBuffer s) tid in
  let! _ := check Undefined (wraps || bool_decide (hb <> [])) in
  let! r := commit_loop wraps inst_seq_num (rev hb) s in
  let! all := vset (historyBuffer r.2) tid (rev r.1) in Ok (with_history all r.2).

(** [checkSignalsAndUpdate] when the reorder buffer has finished squashing. *)
Fixpoint add_loop (l : list preg) (s : t) : result t :=
  match l with [] => Ok s | p :: l => let! s := addReg p s in add_loop l s end.
Definition freeSquashed (tid : Z) (s : t) : result t :=
  let! l := vget (freeingInProgress s) tid in
  let! s := add_loop l s in
  let! fp := vset (freeingInProgress s) tid [] in Ok (with_freeing fp s).

(** ** Construction *)

(** The identifiers of [n] registers of a class, as [PhysRegFile] numbers them. *)
Definition class_ids (c : RegClassType) (n : Z) : list PhysRegId :=
  (fun i : nat => mkPhys c (Z.of_nat i) 0 0 false) <$> seq 0 (Z.to_nat n).

Definition phys_ids (counts : RegClassType -> Z) : list PhysRegId :=
  concat ((fun c => class_ids c (counts c)) <$> renamed_classes).

(** [initFreeList]: the registers from flat index [i] on. *)
Fixpoint init_free (n : nat) (i : Z) (s : t) : result t :=
  match n with O => Ok s | S n => let! s := addReg (PhysReg i) s in init_free n (i + 1) s end.

(** The free list, rename maps, scoreboard and buffers of [threads] threads, for
    [phys] physical and [arch] architectural registers by class. *)
Definition init (threads : Z) (phys arch : RegClassType -> Z) : result t :=
  let ids := phys_ids phys in
  init_free (length ids) 0
    (mk ids (arch MiscRegClass) (replicate 7 [])
        (replicate (Z.to_nat threads) ((fun c => replicate (Z.to_nat (arch c)) NullReg) <$> renamed_classes))
        (replicate (length ids) true) (replicate (Z.to_nat threads) []) (replicate (Z.to_nat threads) [])).

(** The initial mapping of a thread in the constructor of the CPU: one free
    register per architectural register. *)
Fixpoint map_class (tid : Z) (c : RegClassType) (n : nat) (i : Z) (s : t) : result t :=
  match n with
  | O => Ok s
  | S n =>
      let! ps := getReg c s in
      let! s := setEntry tid (mkRegId c i 0) ps.1 ps.2 in
      map_class tid c n (i + 1) s
  end.
Fixpoint map_thread (tid : Z) (arch : RegClassType -> Z) (cs : list RegClassType) (s : t) : result t :=
  match cs with
  | [] => Ok s
  | c :: cs => let! s := map_class tid c (Z.to_nat (arch c)) 0 s in map_thread tid arch cs s
  end.
Fixpoint map_threads (arch : RegClassType -> Z) (n : nat) (tid : Z) (s : t) : result t :=
  match n with
  | O => Ok s
  | S n => let! s := map_thread tid arch renamed_classes s in map_threads arch n (tid + 1) s
  end.

(** The checks of the constructor of the CPU on the numbers of registers. *)
Definition enough_phys (threads : Z) (phys arch : RegClassType -> Z) (c : RegClassType) : bool :=
  negb ((phys c <=? threads * arch c) && negb (arch c =? 0)).

Definition construct (threads active_threads : Z) (phys arch : RegClassType -> Z) : result t :=
  let! _ := check Panic (forallb (enough_phys threads phys arch)
                           [IntRegClass; FloatRegClass; VecRegClass; VecPredRegClass; MatRegClass; CCRegClass]) in
  let! s := init threads phys arch in
  map_threads arch (Z.to_nat active_threads) 0 s.
End Rename.
