(* ===== verification/RenameLaws.v ===== *)
(** * Register renaming: conservation and recovery

    The invariant of the rename stage: every physical register is in exactly one
    place (a free list, a rename map, the history buffer as the previous mapping
    of a register, or the list that waits for the end of a squash), and undoing
    the history buffer restores the maps. The theorems show that every operation
    keeps it, that a squash restores the maps, and that registers are never
    leaked. *)

From S2P Require Import Prelude Bits Tables Rename.
Import Rename.Rename.

(** ** Lists of lists *)
Lemma concat_upd {A} (l : list (list A)) i x : l !! i = Some x ->
  exists rest, concat l ≡ₚ x ++ rest /\ forall y, concat (<[i := y]> l) ≡ₚ y ++ rest.
Proof.
  intros Hi. exists (concat (take i l) ++ concat (drop (S i) l)).
  assert (Hx : forall y, concat (take i l ++ y :: drop (S i) l) ≡ₚ y ++ concat (take i l) ++ concat (drop (S i) l)).
  { intros y. rewrite concat_app. cbn [concat]. by rewrite Permutation_app_swap_app. }
  split; [rewrite <- (take_drop_middle l i x Hi) at 1; apply Hx|].
  intros y. rewrite insert_take_drop by (by eapply lookup_lt_Some). apply Hx.
Qed.

Lemma elem_upd {A} (l : list A) i x : l !! i = Some x ->
  exists rest, l ≡ₚ x :: rest /\ forall y, <[i := y]> l ≡ₚ y :: rest.
Proof.
  intros Hi. exists (take i l ++ drop (S i) l). split.
  - rewrite <- (take_drop_middle l i x Hi) at 1. by rewrite Permutation_middle.
  - intros y. rewrite insert_take_drop by (by eapply lookup_lt_Some). by rewrite Permutation_middle.
Qed.

(** The physical registers among pointers. *)
Definition reg_of (p : preg) : option Z := match p with PhysReg f => Some f | _ => None end.
Definition regs (l : list preg) : list Z := omap reg_of l.

#[global] Instance regs_Permutation : Proper ((≡ₚ) ==> (≡ₚ)) regs.
Proof. intros l l' Hl. unfold regs. by rewrite Hl. Qed.

Lemma regs_app l l' : regs (l ++ l') = regs l ++ regs l'.
Proof. apply omap_app. Qed.

Lemma regs_phys f l : regs (PhysReg f :: l) = f :: regs l.
Proof. done. Qed.

Lemma elem_of_regs f l : f ∈ regs l <-> PhysReg f ∈ l.
Proof.
  unfold regs. rewrite list_elem_of_omap. split.
  - intros (p & Hp & E). destruct p; try done. by injection E as ->.
  - intros Hp. by exists (PhysReg f).
Qed.

(** ** Ownership *)

(** The previous registers that the history buffer keeps. *)
Definition undone (h : RenameHistory) : Prop := newPhysReg h <> prevPhysReg h.
#[global] Instance undone_dec h : Decision (undone h).
Proof. unfold undone. apply _. Defined.
Definition prevs (hs : list RenameHistory) : list preg := prevPhysReg <$> filter undone hs.
Definition news (hs : list RenameHistory) : list preg := newPhysReg <$> filter undone hs.

Lemma prevs_app hs hs' : prevs (hs ++ hs') = prevs hs ++ prevs hs'.
Proof. unfold prevs. by rewrite filter_app, fmap_app. Qed.

#[global] Instance prevs_Permutation : Proper ((≡ₚ) ==> (≡ₚ)) prevs.
Proof. intros l l' Hl. unfold prevs. by rewrite Hl. Qed.

(** All places that hold a register. *)
Definition places (s : t) : list preg :=
  concat (freeLists s) ++ concat (concat (renameMaps s)) ++ prevs (concat (historyBuffer s)) ++ concat (freeingInProgress s).
Definition owned (s : t) : list Z := regs (places s).

Definition classes (s : t) : list RegClassType := p_class <$> regIds s.

(** A pointer to a register of class [c]. *)
Definition of_class (cs : list RegClassType) (c : RegClassType) (p : preg) : Prop :=
  exists f, p = PhysReg f /\ 0 <= f /\ cs !! Z.to_nat f = Some c.

(** ** The maps of a thread *)
Definition get_reg (r : RegId) (ms : list (list preg)) : option preg :=
  m ← ms !! Z.to_nat (class_value (classValue r)); m !! Z.to_nat (index r).
Definition set_reg (r : RegId) (p : preg) (ms : list (list preg)) : list (list preg) :=
  match ms !! Z.to_nat (class_value (classValue r)) with
  | Some m => <[Z.to_nat (class_value (classValue r)) := <[Z.to_nat (index r) := p]> m]> ms
  | None => ms
  end.

Lemma set_reg_undo r p q ms : get_reg r ms = Some p -> set_reg r p (set_reg r q ms) = ms.
Proof.
  unfold get_reg, set_reg. intros E. destruct (ms !! _) as [m|] eqn:Em; [|done]. cbn in E.
  rewrite list_lookup_insert_eq by (by eapply lookup_lt_Some).
  by rewrite !list_insert_insert_eq, (list_insert_id m), list_insert_id.
Qed.

Lemma get_set_reg r p q ms : get_reg r ms = Some p -> get_reg r (set_reg r q ms) = Some q.
Proof.
  unfold get_reg, set_reg. intros E. destruct (ms !! _) as [m|] eqn:Em; [|done]. cbn in E.
  rewrite list_lookup_insert_eq by (by eapply lookup_lt_Some). cbn. rewrite list_lookup_insert_eq; [done|by eapply lookup_lt_Some].
Qed.

Lemma set_reg_shape r q ms : (length <$> set_reg r q ms) = (length <$> ms).
Proof.
  unfold set_reg. destruct (ms !! _) as [m|] eqn:Em; [|done]. rewrite list_fmap_insert, length_insert, list_insert_id; [done|].
  by rewrite list_lookup_fmap, Em.
Qed.

Lemma set_reg_upd r p q ms : get_reg r ms = Some p ->
  exists rest, concat ms ≡ₚ p :: rest /\ concat (set_reg r q ms) ≡ₚ q :: rest.
Proof.
  unfold get_reg, set_reg. intros E. destruct (ms !! _) as [m|] eqn:Em; [|done]. cbn in E.
  destruct (concat_upd ms _ m Em) as (rest & H1 & H2). destruct (elem_upd m _ p E) as (mr & H3 & H4).
  exists (mr ++ rest). split; [by rewrite H1, H3|by rewrite H2, H4].
Qed.

(** The maps of a thread: seven, of registers of their class, or not set up. *)
Definition maps_ok (cs : list RegClassType) (ms : list (list preg)) : Prop :=
  length ms = 7%nat /\
  forall r p, isRenameable r = true -> get_reg r ms = Some p -> p = NullReg \/ of_class cs (classValue r) p.

Lemma class_value_range c : c <> MiscRegClass -> c <> InvalidRegClass -> 0 <= class_value c < 7.
Proof. by destruct c. Qed.

Lemma renameable_range r : isRenameable r = true -> 0 <= class_value (classValue r) < 7.
Proof. unfold isRenameable. destruct (classValue r); done. Qed.

Lemma class_value_inj c c' : class_value c = class_value c' -> c = c'.
Proof. by destruct c, c'. Qed.

Lemma get_set_reg_other r r' q ms : isRenameable r = true -> isRenameable r' = true -> 
  classValue r <> classValue r' \/ Z.to_nat (index r) <> Z.to_nat (index r') ->
  get_reg r' (set_reg r q ms) = get_reg r' ms.
Proof.
  intros Hr Hr' Hne. pose proof (renameable_range r Hr). pose proof (renameable_range r' Hr').
  unfold get_reg, set_reg. destruct (ms !! Z.to_nat (class_value (classValue r))) as [m|] eqn:Em; [|done].
  destruct (decide (classValue r = classValue r')) as [E|E].
  - rewrite <- E, list_lookup_insert_eq, Em by (by eapply lookup_lt_Some). cbn.
    destruct Hne as [|Hne]; [done|]. by rewrite list_lookup_insert_ne.
  - rewrite list_lookup_insert_ne; [done|]. intros E'. apply E, class_value_inj. lia.
Qed.

Lemma set_reg_ok cs r q ms : isRenameable r = true -> maps_ok cs ms -> of_class cs (classValue r) q -> maps_ok cs (set_reg r q ms).
Proof.
  intros Hr [Hl Hm] Hq. split; [unfold set_reg; destruct (ms !! _); [by rewrite length_insert|done]|].
  intros r' p Hr' Hp. destruct (decide (classValue r = classValue r' /\ Z.to_nat (index r) = Z.to_nat (index r'))) as [[E1 E2]|Hne].
  - assert (Hg : get_reg r' (set_reg r q ms) = get_reg r (set_reg r q ms)) by (unfold get_reg; by rewrite E1, E2).
    rewrite Hg in Hp. destruct (get_reg r ms) as [p0|] eqn:E0.
    + rewrite (get_set_reg r p0) in Hp by done. injection Hp as <-. right. by rewrite <- E1.
    + assert (set_reg r q ms = ms) as Es.
      { unfold get_reg in E0. unfold set_reg. destruct (ms !! _) as [m|] eqn:Em; [|done]. cbn in E0.
        apply lookup_ge_None in E0. rewrite (list_insert_ge m) by done. by rewrite list_insert_id. }
      rewrite Es, E0 in Hp. done.
  - rewrite get_set_reg_other in Hp by (done || (apply not_and_l in Hne; tauto)). by apply Hm.
Qed.

(** ** Undoing the history *)
Definition undo1 (h : RenameHistory) (ms : list (list preg)) : list (list preg) :=
  if decide (undone h) then set_reg (archReg h) (prevPhysReg h) ms else ms.
Fixpoint undo (hs : list RenameHistory) (ms : list (list preg)) : list (list preg) :=
  match hs with [] => ms | h :: hs => undo hs (undo1 h ms) end.
Fixpoint undo_ok (hs : list RenameHistory) (ms : list (list preg)) : Prop :=
  match hs with
  | [] => True
  | h :: hs => (undone h -> get_reg (archReg h) ms = Some (newPhysReg h)) /\ undo_ok hs (undo1 h ms)
  end.

Lemma undo_shape hs ms : (length <$> undo hs ms) = (length <$> ms).
Proof.
  revert ms. induction hs as [|h hs IH]; intros ms; [done|]. cbn [undo]. rewrite IH. unfold undo1. destruct (decide _); [apply set_reg_shape|done].
Qed.

Lemma undo_app hs hs' ms : undo (hs ++ hs') ms = undo hs' (undo hs ms).
Proof. revert ms. induction hs as [|h hs IH]; intros ms; [done|]. apply IH. Qed.

Lemma undo_ok_app hs hs' ms : undo_ok (hs ++ hs') ms <-> undo_ok hs ms /\ undo_ok hs' (undo hs ms).
Proof. revert ms. induction hs as [|h hs IH]; intros ms; cbn; [tauto|]. rewrite IH. tauto. Qed.

Definition hist_ok (cs : list RegClassType) (h : RenameHistory) : Prop :=
  undone h -> isRenameable (archReg h) = true /\ 0 <= index (archReg h) /\
    of_class cs (classValue (archReg h)) (newPhysReg h) /\ of_class cs (classValue (archReg h)) (prevPhysReg h).

Definition is_renamed (c : RegClassType) : Prop := c <> MiscRegClass /\ c <> InvalidRegClass.

(** ** The invariant, for [T] threads *)
Record rename_inv (T : nat) (s : t) : Prop := {
  ri_perm : owned s ≡ₚ seqZ 0 (Z.of_nat (length (regIds s)));
  ri_classes : Forall is_renamed (classes s);
  ri_board : length (regScoreBoard s) = length (regIds s);
  ri_lists : length (freeLists s) = 7%nat;
  ri_free c l : is_renamed c -> freeLists s !! Z.to_nat (class_value c) = Some l -> Forall (of_class (classes s) c) l;
  ri_maps tid ms : renameMaps s !! tid = Some ms -> maps_ok (classes s) ms;
  ri_hist tid hs : historyBuffer s !! tid = Some hs -> Forall (hist_ok (classes s)) hs;
  ri_undo tid ms hs : renameMaps s !! tid = Some ms -> historyBuffer s !! tid = Some hs -> undo_ok hs ms;
  ri_freeing tid l : freeingInProgress s !! tid = Some l -> Forall (fun p => exists c, is_renamed c /\ of_class (classes s) c p) l;
  ri_threads : length (renameMaps s) = T /\ length (historyBuffer s) = T /\ length (freeingInProgress s) = T;
}.

(** States that differ in the register objects and the scoreboard only. *)
Record same_core (s s' : t) : Prop := {
  sc_classes : classes s' = classes s;
  sc_board : length (regScoreBoard s') = length (regScoreBoard s);
  sc_free : freeLists s' = freeLists s;
  sc_maps : renameMaps s' = renameMaps s;
  sc_hist : historyBuffer s' = historyBuffer s;
  sc_freeing : freeingInProgress s' = freeingInProgress s;
  sc_misc : numMiscRegs s' = numMiscRegs s;
}.

#[global] Instance same_core_preorder : PreOrder same_core.
Proof.
  split; [by constructor|]. intros s1 s2 s3 [] []. constructor; congruence.
Qed.

Lemma classes_length s s' : classes s' = classes s -> length (regIds s') = length (regIds s).
Proof. unfold classes. intros E. apply (f_equal length) in E. by rewrite !length_fmap in E. Qed.

Lemma same_core_inv T s s' : same_core s s' -> rename_inv T s -> rename_inv T s'.
Proof.
  intros [Hc Hb Hf Hm Hh Hw _] [P1 P2 P3 P4 P5 P6 P7 P8 P9 P10]. pose proof (classes_length _ _ Hc) as Hl.
  constructor; unfold owned, places in *; rewrite ?Hc, ?Hb, ?Hf, ?Hm, ?Hh, ?Hw, ?Hl; try done.
Qed.

#[global] Instance concat_Permutation {A} : Proper ((≡ₚ) ==> (≡ₚ)) (@concat A).
Proof.
  intros l l' Hl. induction Hl as [|x l l' _ IH|x y l|l1 l2 l3 _ IH1 _ IH2]; cbn; [done|by rewrite IH| |by rewrite IH1].
  apply Permutation_app_swap_app.
Qed.

Lemma owned_nodup T s : rename_inv T s -> NoDup (owned s).
Proof. intros [Hp _ _ _ _ _ _ _ _ _]. rewrite Hp. apply NoDup_seqZ. Qed.

(** ** Allocating a register *)
Lemma of_class_reg cs c p : of_class cs c p -> exists f, p = PhysReg f.
Proof. intros (f & -> & _). by exists f. Qed.

Lemma of_class_fun cs c c' p : of_class cs c p -> of_class cs c' p -> c = c'.
Proof. intros (f & -> & _ & E) (f' & E' & _ & E2). injection E' as <-. congruence. Qed.

(** The places before and after the register [p] of the free list replaces the
    register [prev] in the map of a thread. *)
Lemma places_alloc s s' tid r p prev l ms hs h : freeLists s !! Z.to_nat (class_value (classValue r)) = Some (p :: l) ->
  renameMaps s !! tid = Some ms -> get_reg r ms = Some prev -> historyBuffer s !! tid = Some hs ->
  undone h -> prevPhysReg h = prev ->
  freeLists s' = <[Z.to_nat (class_value (classValue r)) := l]> (freeLists s) ->
  renameMaps s' = <[tid := set_reg r p ms]> (renameMaps s) ->
  historyBuffer s' = <[tid := h :: hs]> (historyBuffer s) ->
  freeingInProgress s' = freeingInProgress s ->
  exists rest, places s ≡ₚ p :: prev :: rest /\ places s' ≡ₚ p :: prev :: rest.
Proof.
  intros Hf Hm Hg Hh Hu Hpr Ef Em Eh Ew. unfold places. rewrite Ef, Em, Eh, Ew.
  destruct (concat_upd _ _ _ Hf) as (R1 & F1 & F2). destruct (concat_upd _ _ _ Hm) as (R2 & M1 & M2).
  destruct (set_reg_upd r prev p ms Hg) as (R3 & N1 & N2). destruct (concat_upd _ _ _ Hh) as (R4 & H1 & H2).
  exists ((l ++ R1) ++ (R3 ++ concat R2) ++ (prevs hs ++ prevs R4) ++ concat (freeingInProgress s)).
  rewrite F1, M1, H1, F2, M2, H2, !concat_app, N1, N2, !prevs_app.
  assert (prevs (h :: hs) = prev :: prevs hs) as -> by (unfold prevs; rewrite filter_cons_True by done; cbn; by rewrite Hpr).
  split; solve_Permutation.
Qed.

Lemma alloc_distinct T s tid r p prev l ms : rename_inv T s -> isRenameable r = true ->
  freeLists s !! Z.to_nat (class_value (classValue r)) = Some (p :: l) ->
  renameMaps s !! tid = Some ms -> get_reg r ms = Some prev -> p <> prev.
Proof.
  intros Hs Hr Hf Hm Hg ->. pose proof (owned_nodup T s Hs) as Hnd.
  assert (Hc : is_renamed (classValue r)) by (unfold isRenameable in Hr; by destruct (classValue r)).
  destruct Hs as [_ _ _ _ Hfree _ _ _ _ _]. pose proof (Hfree _ _ Hc Hf) as Hl. apply Forall_cons in Hl as [Hp _].
  destruct (of_class_reg _ _ _ Hp) as (f & ->).
  destruct (concat_upd _ _ _ Hf) as (R1 & F1 & _). destruct (concat_upd _ _ _ Hm) as (R2 & M1 & _).
  destruct (set_reg_upd r _ NullReg ms Hg) as (R3 & N1 & _).
  unfold owned, places in Hnd. rewrite F1, M1, !concat_app, N1 in Hnd.
  cbn [app] in Hnd. rewrite regs_phys in Hnd. apply NoDup_cons in Hnd as [Hn _]. apply Hn.
  apply elem_of_regs. set_solver.
Qed.

Lemma is_renameable_renamed r : isRenameable r = true -> is_renamed (classValue r).
Proof. unfold isRenameable. by destruct (classValue r). Qed.

(** A renamed destination: the fields of the state afterwards, and the
    invariant for them. *)
Lemma alloc_inv T s s' tid sn r p prev l ms hs : rename_inv T s -> isRenameable r = true -> 0 <= index r ->
  freeLists s !! Z.to_nat (class_value (classValue r)) = Some (p :: l) ->
  renameMaps s !! tid = Some ms -> get_reg r ms = Some prev -> prev <> NullReg ->
  historyBuffer s !! tid = Some hs -> classes s' = classes s -> length (regScoreBoard s') = length (regScoreBoard s) ->
  freeLists s' = <[Z.to_nat (class_value (classValue r)) := l]> (freeLists s) ->
  renameMaps s' = <[tid := set_reg r p ms]> (renameMaps s) ->
  historyBuffer s' = <[tid := mkHistory sn r p prev :: hs]> (historyBuffer s) ->
  freeingInProgress s' = freeingInProgress s ->
  rename_inv T s' /\ undo1 (mkHistory sn r p prev) (set_reg r p ms) = ms.
Proof.
  intros Hs Hr Hi Hf Hm Hg Hnn Hh Ec Eb Ef Em Eh Ew. pose proof (alloc_distinct T s tid r p prev l ms Hs Hr Hf Hm Hg) as Hne.
  set (h := mkHistory sn r p prev) in *. assert (Hu : undone h) by done.
  destruct (places_alloc s s' tid r p prev l ms hs h) as (rest & P & P'); try done.
  destruct Hs as [Hp Hcl Hb Hls Hfree Hmaps Hhist Hundo Hfr Hth]. pose proof (classes_length _ _ Ec) as Hlen.
  pose proof (is_renameable_renamed r Hr) as Hrc. pose proof (Hfree _ _ Hrc Hf) as Hpl.
  apply Forall_cons in Hpl as [Hpc Hlc]. destruct (Hmaps _ _ Hm) as [Hl7 Hmc].
  assert (Hprevc : of_class (classes s) (classValue r) prev) by (destruct (Hmc r prev Hr Hg); done).
  assert (Hback : undo1 h (set_reg r p ms) = ms).
  { unfold undo1. rewrite decide_True by done. cbn. by apply set_reg_undo. }
  split; [|done]. constructor; rewrite ?Ec, ?Hlen, ?Eb; try done.
  - rewrite <- Hp. unfold owned. by rewrite P', P.
  - by rewrite Ef, length_insert.
  - intros c l' Hc. rewrite Ef. destruct (decide (Z.to_nat (class_value c) = Z.to_nat (class_value (classValue r)))) as [E|E].
    + rewrite E, list_lookup_insert_eq by (by eapply lookup_lt_Some). intros [= <-].
      pose proof (class_value_range c (proj1 Hc) (proj2 Hc)). pose proof (renameable_range r Hr).
      assert (c = classValue r) as -> by (apply class_value_inj; lia). done.
    + rewrite list_lookup_insert_ne by done. by apply Hfree.
  - intros t' ms' Ht'. rewrite Em in Ht'. destruct (decide (t' = tid)) as [->|Hne'].
    + rewrite list_lookup_insert_eq in Ht' by (by eapply lookup_lt_Some). injection Ht' as <-. by apply set_reg_ok.
    + rewrite list_lookup_insert_ne in Ht' by done. by eapply Hmaps.
  - intros t' hs' Ht'. rewrite Eh in Ht'. destruct (decide (t' = tid)) as [->|Hne'].
    + rewrite list_lookup_insert_eq in Ht' by (by eapply lookup_lt_Some). injection Ht' as <-.
      constructor; [done|by eapply Hhist].
    + rewrite list_lookup_insert_ne in Ht' by done. by eapply Hhist.
  - intros t' ms' hs' Hm' Hh'. rewrite Em in Hm'. rewrite Eh in Hh'. destruct (decide (t' = tid)) as [->|Hne'].
    + rewrite list_lookup_insert_eq in Hm' by (by eapply lookup_lt_Some). rewrite list_lookup_insert_eq in Hh' by (by eapply lookup_lt_Some).
      injection Hm' as <-. injection Hh' as <-. cbn [undo_ok]. split; [intros _; by eapply get_set_reg|].
      rewrite Hback. by eapply Hundo.
    + rewrite list_lookup_insert_ne in Hm' by done. rewrite list_lookup_insert_ne in Hh' by done. by eapply Hundo.
  - rewrite Ew. done.
  - rewrite Em, Eh, Ew, !length_insert. done.
Qed.

(** ** One destination register *)
Lemma upd_phys_core f p s s' : (forall o, p_class (f o) = p_class o) -> upd_phys f p s = Ok s' -> same_core s s'.
Proof.
  intros Hf E. destruct p as [|i| |]; try done. cbn in E. unfold vupd in E. ok_inv. subst s'.
  apply vget_inv in E1 as [Hi Hx]. apply vset_inv in E0 as [_ ->]. constructor; try done. unfold classes. cbn.
  rewrite list_fmap_insert, list_insert_id; [done|]. rewrite list_lookup_fmap, Hx. cbn. by rewrite Hf.
Qed.

Lemma unsetReg_core p s s' : unsetReg p s = Ok s' -> same_core s s'.
Proof.
  unfold unsetReg, sb_write. intros E. ok_inv. destruct r; [by injection E as <-|]. ok_inv. subst s'.
  apply vset_inv in E3 as [_ ->]. constructor; try done. cbn. by rewrite length_insert.
Qed.

(** The architectural register [r] has a physical register. *)
Definition mapped (r : RegId) (ms : list (list preg)) : Prop := exists p, get_reg r ms = Some p /\ p <> NullReg.

Lemma mapped_set r r' q ms : isRenameable r = true -> isRenameable r' = true -> q <> NullReg -> mapped r' ms -> mapped r' (set_reg r q ms).
Proof.
  intros Hr Hr' Hq (p & Hp & Hn).
  destruct (decide (classValue r = classValue r' /\ Z.to_nat (index r) = Z.to_nat (index r'))) as [[E1 E2]|Hne].
  - exists q. split; [|done]. assert (Hg : forall ms, get_reg r' ms = get_reg r ms) by (intros ?; unfold get_reg; by rewrite E1, E2).
    rewrite Hg in *. by eapply get_set_reg.
  - exists p. split; [|done]. rewrite get_set_reg_other by (done || (apply not_and_l in Hne; tauto)). done.
Qed.

(** The renamings of class [c] in a part of the history. *)
Definition renames_of (c : RegClassType) (hn : list RenameHistory) : nat :=
  length (filter (fun h => classValue (archReg h) = c) hn).

(** What renaming does that adds the entries [hn] to the history of a thread. *)
Definition renamed_by (tid : Z) (hn : list RenameHistory) (s s' : t) : Prop :=
  exists ms ms' hs, 0 <= tid /\
    renameMaps s !! Z.to_nat tid = Some ms /\ historyBuffer s !! Z.to_nat tid = Some hs /\
    renameMaps s' = <[Z.to_nat tid := ms']> (renameMaps s) /\
    historyBuffer s' = <[Z.to_nat tid := hn ++ hs]> (historyBuffer s) /\
    freeingInProgress s' = freeingInProgress s /\ classes s' = classes s /\ numMiscRegs s' = numMiscRegs s /\
    undo hn ms' = ms /\ (length <$> ms') = (length <$> ms) /\
    (forall r, isRenameable r = true -> mapped r ms -> mapped r ms') /\
    forall c l, is_renamed c -> freeLists s !! Z.to_nat (class_value c) = Some l ->
      exists l', freeLists s' !! Z.to_nat (class_value c) = Some l' /\ (length l <= length l' + renames_of c hn)%nat.

Lemma renamed_by_nil tid s ms hs : 0 <= tid -> renameMaps s !! Z.to_nat tid = Some ms -> historyBuffer s !! Z.to_nat tid = Some hs ->
  renamed_by tid [] s s.
Proof.
  intros Ht Hm Hh. exists ms, ms, hs. rewrite !list_insert_id by done. split_and!; try done.
  intros c l _ Hl. exists l. split; [done|lia].
Qed.

Lemma renamed_by_app tid h1 h2 s1 s2 s3 : renamed_by tid h1 s1 s2 -> renamed_by tid h2 s2 s3 -> renamed_by tid (h2 ++ h1) s1 s3.
Proof.
  intros (ms & ms' & hs & Ht & Hm & Hh & Em & Eh & Ew & Ec & Ei & Hu & Hsz & Hp & Hf) (ms0 & ms3 & hs0 & _ & Hm2 & Hh2 & Em2 & Eh2 & Ew2 & Ec2 & Ei2 & Hu2 & Hsz2 & Hp2 & Hf2).
  rewrite Em, list_lookup_insert_eq in Hm2 by (by eapply lookup_lt_Some). injection Hm2 as <-.
  rewrite Eh, list_lookup_insert_eq in Hh2 by (by eapply lookup_lt_Some). injection Hh2 as <-.
  exists ms, ms3, hs. split_and!; try done; try congruence.
  - by rewrite Em2, Em, list_insert_insert_eq.
  - by rewrite Eh2, Eh, list_insert_insert_eq, app_assoc.
  - by rewrite undo_app, Hu2.
  - auto.
  - intros c l Hc Hl. destruct (Hf c l Hc Hl) as (l' & Hl' & Hle). destruct (Hf2 c l' Hc Hl') as (l2 & Hl2 & Hle2).
    exists l2. split; [done|]. unfold renames_of in *. rewrite filter_app, length_app. lia.
Qed.

(** A register that keeps its mapping: fixed, or pinned. *)
Lemma keep_step T tid sn r p s s1 s' : rename_inv T s -> same_core s s1 ->
  push_history tid (mkHistory sn r p p) s1 = Ok s' ->
  rename_inv T s' /\ renamed_by tid [mkHistory sn r p p] s s'.
Proof.
  intros Hs Hsame E. pose proof (same_core_inv T s s1 Hsame Hs) as Hs1. destruct Hsame as [Ec Eb Ef Em Eh Ew Hmisc].
  unfold push_history in E. ok_inv. subst s'. apply vget_inv in E0 as [Hi Hx]. apply vset_inv in E1 as [_ ->].
  set (h := mkHistory sn r p p). assert (Hn : ~ undone h) by (intros Hu; by apply Hu).
  assert (Hun : forall ms, undo1 h ms = ms) by (intros ms; unfold undo1; by rewrite decide_False).
  destruct (lookup_lt_is_Some_2 (renameMaps s) (Z.to_nat tid)) as [ms Hms].
  { pose proof (ri_threads T s1 Hs1) as (L1 & L2 & _). rewrite <- Em, L1, <- L2. by eapply lookup_lt_Some. }
  split.
  - destruct Hs1 as [Hp Hcl Hb Hls Hfree Hmaps Hhist Hundo Hfr Hth]. constructor; try done.
    + rewrite <- Hp. unfold owned, places. cbn [with_history freeLists renameMaps historyBuffer freeingInProgress].
      destruct (concat_upd _ _ _ Hx) as (R & H1 & H2). rewrite H1, H2, !prevs_app.
      assert (prevs (h :: r0) = prevs r0) as -> by (unfold prevs; by rewrite filter_cons_False). done.
    + intros t' hs' Ht'. cbn in Ht'. destruct (decide (t' = Z.to_nat tid)) as [->|Hne'].
      * rewrite list_lookup_insert_eq in Ht' by (by eapply lookup_lt_Some). injection Ht' as <-. constructor; [done|by eapply Hhist].
      * rewrite list_lookup_insert_ne in Ht' by done. by eapply Hhist.
    + intros t' ms' hs' Hm' Hh'. cbn in Hm', Hh'. destruct (decide (t' = Z.to_nat tid)) as [->|Hne'].
      * rewrite list_lookup_insert_eq in Hh' by (by eapply lookup_lt_Some). injection Hh' as <-. cbn [undo_ok].
        split; [done|]. rewrite Hun. by eapply Hundo.
      * rewrite list_lookup_insert_ne in Hh' by done. by eapply Hundo.
    + cbn. by rewrite length_insert.
  - exists ms, ms, r0. rewrite Eh in Hx. cbn [undo]. cbn -[undo1]. rewrite Em, Ew, Eh, Hun.
    rewrite (list_insert_id (renameMaps s)) by done. split_and!; try done; try lia.
    intros c l Hc Hl. exists l. rewrite Ef. split; [done|lia].
Qed.

(** A destination that gets a free register. *)
Lemma alloc_step T tid sn r s s1 s' p prev l ms m : rename_inv T s -> isRenameable r = true -> 
  vget (renameMaps s) tid = Ok ms -> vget ms (class_value (classValue r)) = Ok m -> vget m (index r) = Ok prev -> prev <> NullReg ->
  freeLists s !! Z.to_nat (class_value (classValue r)) = Some (p :: l) ->
  same_core (with_maps (<[Z.to_nat tid := set_reg r p ms]> (renameMaps s)) (with_free (<[Z.to_nat (class_value (classValue r)) := l]> (freeLists s)) s)) s1 ->
  push_history tid (mkHistory sn r p prev) s1 = Ok s' ->
  rename_inv T s' /\ renamed_by tid [mkHistory sn r p prev] s s'.
Proof.
  intros Hs Hr Em0 Em Ep Hn Hf [Ec Eb Ef Emm Eh Ew Hmisc] E. cbn in Eb, Ef, Emm, Eh, Ew, Hmisc.
  apply vget_inv in Em0 as [Ht Hms]. apply vget_inv in Em as [_ Hm]. apply vget_inv in Ep as [Hi Hg0].
  assert (Hg : get_reg r ms = Some prev) by (unfold get_reg; by rewrite Hm).
  unfold push_history in E. ok_inv. subst s'. apply vget_inv in E0 as [Hi' Hx]. apply vset_inv in E1 as [_ ->].
  rewrite Eh in Hx. change (classes (with_maps _ _)) with (classes s) in Ec.
  destruct (alloc_inv T s (with_history (<[Z.to_nat tid := mkHistory sn r p prev :: r0]> (historyBuffer s1)) s1)
              (Z.to_nat tid) sn r p prev l ms r0) as [Hinv Hun]; try done; try lia; [by cbn; rewrite Eh|].
  split; [done|]. pose proof (ri_free T s Hs _ _ (is_renameable_renamed r Hr) Hf) as Hpl. apply Forall_cons in Hpl as [(f & Hp & _) _].
  exists ms, (set_reg r p ms), r0. cbn -[undo1 renames_of]. rewrite Emm, Eh, Ew. split_and!; try done; try lia.
  - apply set_reg_shape.
  - intros r' Hr' Hmp. apply mapped_set; try done. by rewrite Hp.
  - intros c l' Hc Hl'. rewrite Ef. unfold renames_of. destruct (decide (classValue r = c)) as [<-|Hne].
    + exists l. rewrite list_lookup_insert_eq by (by eapply lookup_lt_Some). split; [done|]. rewrite filter_cons_True by done.
      rewrite Hf in Hl'. injection Hl' as <-. cbn. lia.
    + exists l'. rewrite list_lookup_insert_ne; [split; [done|lia]|]. intros E'.
      pose proof (class_value_range c (proj1 Hc) (proj2 Hc)). pose proof (renameable_range r Hr).
      apply Hne, class_value_inj. lia.
Qed.

Lemma getReg_inv c s p s' : getReg c s = Ok (p, s') -> 0 <= class_value c /\
  exists l, freeLists s !! Z.to_nat (class_value c) = Some (p :: l) /\ s' = with_free (<[Z.to_nat (class_value c) := l]> (freeLists s)) s.
Proof.
  unfold getReg. intros E. ok_inv. apply vget_inv in E0 as [Hi Hl]. destruct r as [|q l]; [done|]. ok_inv.
  apply vset_inv in E0 as [_ ->]. subst. split; [lia|]. by exists l.
Qed.

Lemma set_map_inv tid r m p ms s s' : vget (renameMaps s) tid = Ok ms -> vget ms (class_value (classValue r)) = Ok m ->
  set_map tid (classValue r) (<[Z.to_nat (index r) := p]> m) s = Ok s' ->
  s' = with_maps (<[Z.to_nat tid := set_reg r p ms]> (renameMaps s)) s.
Proof.
  unfold set_map. intros E1 E2 E. rewrite E1, bind_Ok in E. ok_inv. apply vget_inv in E2 as [_ Hm].
  apply vset_inv in E0 as [_ ->]. apply vset_inv in E3 as [_ ->]. subst. unfold set_reg. by rewrite Hm.
Qed.

Lemma dest_partial T tid sn r s new prev s1 s2 s' : rename_inv T s -> rename tid r s = Ok (new, prev, s1) ->
  unsetReg new s1 = Ok s2 -> push_history tid (mkHistory sn r new prev) s2 = Ok s' ->
  rename_inv T s' /\ renamed_by tid [mkHistory sn r new prev] s s'.
Proof.
  intros Hs E Eu Ep. apply unsetReg_core in Eu. unfold rename in E. destruct (isRenameable r) eqn:Hr; cbn [negb] in E.
  2: { ok_inv. simplify_eq. by eapply keep_step. }
  unfold simple_rename in E. ok_inv. destruct (0 <? p_pinnedWrites r3).
  - ok_inv. simplify_eq. apply upd_phys_core in E5; [|done]. eapply keep_step; [done|by transitivity s1|done].
  - ok_inv. destruct r4 as [p sf]. cbn [fst snd] in *. simplify_eq. apply upd_phys_core in E7; [|done].
    apply getReg_inv in E4 as (_ & l & Hf & ->). apply vset_inv in E5 as [_ ->].
    eapply set_map_inv in E6; [|done..]. subst r6. 
    eapply (alloc_step T tid sn r s s2 s' _ _ l r0 r1); [done..|by intros ->|done|by etransitivity|done].
Qed.

(** ** Renaming succeeds *)

(** A register that an instruction of the thread with the maps [ms] can name. *)
Definition valid_reg (s : t) (ms : list (list preg)) (r : RegId) : Prop :=
  0 <= index r /\
  match classValue r with
  | InvalidRegClass => True
  | MiscRegClass => index r < numMiscRegs s
  | _ => mapped r ms
  end.

Lemma valid_mapped s ms r : isRenameable r = true -> valid_reg s ms r -> 0 <= index r /\ mapped r ms.
Proof. unfold isRenameable, valid_reg. destruct (classValue r); done. Qed.

Lemma valid_lookup_fixed tid s ms r : isRenameable r = false -> valid_reg s ms r ->
  exists p, lookup tid r s = Ok p /\ isFixedMapping p s = Ok true.
Proof.
  unfold isRenameable, valid_reg, lookup. destruct (classValue r); try done; intros _ [H1 H2].
  - exists (FixedReg (index r)). unfold getMiscRegId. by rewrite (proj2 (Z.leb_le _ _) H1), (proj2 (Z.ltb_lt _ _) H2).
  - by exists InvalidReg.
Qed.

Lemma of_class_deref s c p : of_class (classes s) c p ->
  exists f o, p = PhysReg f /\ 0 <= f < Z.of_nat (length (regIds s)) /\ deref p s = Ok o /\ p_class o = c.
Proof.
  intros (f & -> & Hf & E). unfold classes in E. rewrite list_lookup_fmap in E.
  destruct (regIds s !! Z.to_nat f) as [o|] eqn:Eo; [|done]. cbn in E. injection E as E.
  exists f, o. split_and!; [done|lia|apply lookup_lt_Some in Eo; lia|by apply vget_lookup|done].
Qed.

Lemma unsetReg_total s c p : length (regScoreBoard s) = length (regIds s) -> of_class (classes s) c p ->
  exists s', unsetReg p s = Ok s'.
Proof.
  intros Hb Hp. destruct (of_class_deref s c p Hp) as (f & o & -> & Hf & Ed & Ec). unfold unsetReg, sb_write, isFixedMapping.
  rewrite Ed. cbn [rbind]. destruct (p_class o); try (by eexists).
  all: cbn [flatIndex rbind]; rewrite (proj2 (Z.ltb_lt _ _)) by lia; cbn [check rbind]; rewrite vset_Ok by lia; by eexists.
Qed.

Lemma push_total tid h s : 0 <= tid < Z.of_nat (length (historyBuffer s)) -> exists s', push_history tid h s = Ok s'.
Proof.
  intros Ht. unfold push_history. destruct (vget_Ok _ _ Ht) as (x & -> & _). cbn [rbind]. rewrite vset_Ok by done. by eexists.
Qed.

Lemma upd_phys_total f p s c : of_class (classes s) c p -> exists s', upd_phys f p s = Ok s'.
Proof.
  intros Hp. destruct (of_class_deref s c p Hp) as (i & o & -> & Hi & _). cbn.
  destruct (vupd_Ok f _ _ Hi) as (x & _ & ->). by eexists.
Qed.

(** A rename map is read at a valid register. *)
Lemma maps_get ms r p : isRenameable r = true -> 0 <= index r -> get_reg r ms = Some p ->
  exists m, vget ms (class_value (classValue r)) = Ok m /\ vget m (index r) = Ok p /\ 0 <= index r < Z.of_nat (length m).
Proof.
  intros Hr Hi Hg. unfold get_reg in Hg. destruct (ms !! _) as [m|] eqn:Em; [|done]. cbn in Hg.
  exists m. pose proof (renameable_range r Hr). split_and!; try (apply vget_lookup; [lia|done]); try lia.
  apply lookup_lt_Some in Hg. lia.
Qed.

Lemma getReg_Ok c s p l : 0 <= class_value c -> freeLists s !! Z.to_nat (class_value c) = Some (p :: l) ->
  getReg c s = Ok (p, with_free (<[Z.to_nat (class_value c) := l]> (freeLists s)) s).
Proof.
  intros Hc Hf. unfold getReg. rewrite (vget_lookup _ _ _ Hc Hf). cbn [rbind]. rewrite vset_Ok; [done|].
  apply lookup_lt_Some in Hf. lia.
Qed.

(** The destination asks for pinned writes while its register is still pinned,
    which the assertion of [SimpleRenameMap::rename] excludes. *)
Definition repinned (tid : Z) (r : RegId) (s : t) : bool :=
  isRenameable r && negb (numPinnedWrites r =? 0) &&
  match (let! p := lookup tid r s in deref p s) with Ok o => 0 <? p_pinnedWrites o | Err _ => false end.

Lemma lookup_mapped tid s ms r p : 0 <= tid -> renameMaps s !! Z.to_nat tid = Some ms ->
  isRenameable r = true -> 0 <= index r -> get_reg r ms = Some p -> lookup tid r s = Ok p.
Proof.
  intros Ht Hm Hr Hi Hg. destruct (maps_get ms r p Hr Hi Hg) as (m & Em & Ep & Hlt).
  assert (E : lookup tid r s = (let! ms := vget (renameMaps s) tid in
    let! m := vget ms (class_value (classValue r)) in map_lookup r m)).
  { unfold lookup, isRenameable in *. by destruct (classValue r). }
  rewrite E, (vget_lookup _ _ _ Ht Hm), bind_Ok, Em, bind_Ok. unfold map_lookup.
  by rewrite (proj2 (Z.leb_le _ _)), check_true, bind_Ok by lia.
Qed.

Lemma simple_rename_repinned T tid s ms r : rename_inv T s -> 0 <= tid -> renameMaps s !! Z.to_nat tid = Some ms ->
  0 <= index r -> mapped r ms -> repinned tid r s = true -> simple_rename tid r s = Err AssertFail.
Proof.
  intros Hs Ht Hm Hi (p & Hg & Hn) Hre. unfold repinned in Hre. apply andb_true_iff in Hre as [[Hr Hpin]%andb_true_iff Hre].
  rewrite (lookup_mapped tid s ms r p), bind_Ok in Hre by done.
  destruct (maps_get ms r p Hr Hi Hg) as (m & Em & Ep & Hlt).
  unfold simple_rename. rewrite (vget_lookup _ _ _ Ht Hm), bind_Ok, Em, bind_Ok, Ep, bind_Ok.
  destruct (deref p s) as [o|]; [|done]. rewrite bind_Ok, Hre. by destruct (numPinnedWrites r =? 0).
Qed.

Lemma simple_rename_total T tid s ms r : rename_inv T s -> 0 <= tid -> renameMaps s !! Z.to_nat tid = Some ms ->
  isRenameable r = true -> 0 <= index r -> mapped r ms -> repinned tid r s = false ->
  (forall l, freeLists s !! Z.to_nat (class_value (classValue r)) = Some l -> l <> []) ->
  exists new prev s', simple_rename tid r s = Ok (new, prev, s') /\ of_class (classes s) (classValue r) new /\
    classes s' = classes s /\ length (regScoreBoard s') = length (regScoreBoard s) /\ historyBuffer s' = historyBuffer s.
Proof.
  intros Hs Ht Hm Hr Hi (p & Hg & Hn) Hpin Hf.
  destruct (maps_get ms r p Hr Hi Hg) as (m & Em & Ep & Hlt).
  destruct (ri_maps T s Hs _ _ Hm) as [H7 Hmc]. destruct (Hmc r p Hr Hg) as [|Hpc]; [done|].
  destruct (of_class_deref s _ p Hpc) as (fi & o & Hpf & Hfi & Ed & _).
  unfold simple_rename. rewrite (vget_lookup _ _ _ Ht Hm), bind_Ok, Em, bind_Ok, Ep, bind_Ok, Ed, bind_Ok.
  unfold repinned in Hpin. rewrite Hr, (lookup_mapped tid s ms r p), bind_Ok, Ed in Hpin by done.
  assert (Hz : (0 <? p_pinnedWrites o) = true -> (numPinnedWrites r =? 0) = true).
  { intros Ho. rewrite Ho in Hpin. by destruct (numPinnedWrites r =? 0). }
  clear Hpin. destruct (0 <? p_pinnedWrites o).
  - rewrite Hz by done. cbn [check Z.eqb rbind]. destruct (upd_phys_total decrNumPinnedWrites p s _ Hpc) as [s' E].
    rewrite E. cbn [rbind]. exists p, p, s'. apply upd_phys_core in E as []; [|done]. by split_and!.
  - pose proof (renameable_range r Hr) as Hc.
    destruct (lookup_lt_is_Some_2 (freeLists s) (Z.to_nat (class_value (classValue r)))) as [l El]; [rewrite (ri_lists T s Hs); lia|].
    destruct l as [|q l]; [by destruct (Hf _ El)|]. rewrite (getReg_Ok _ _ _ _ (proj1 Hc) El), bind_Ok. cbn [fst snd].
    pose proof (ri_free T s Hs _ _ (is_renameable_renamed r Hr) El) as Hq. apply Forall_cons in Hq as [Hq _].
    rewrite vset_Ok, bind_Ok by done. unfold set_map. cbn [renameMaps with_free]. rewrite (vget_lookup _ _ _ Ht Hm), bind_Ok, vset_Ok, bind_Ok by lia.
    apply lookup_lt_Some in Hm. rewrite vset_Ok, !bind_Ok by lia.
    match goal with |- context [upd_phys ?f q ?x] => destruct (upd_phys_total f q x (classValue r) Hq) as [s' E]; rewrite E end.
    apply upd_phys_core in E as [E1 E2 E3 E4 E5 E6 E7]; [|done]. exists q, p, s'. by split_and!.
Qed.

Lemma dest_total T tid sn s ms r : rename_inv T s -> 0 <= tid -> renameMaps s !! Z.to_nat tid = Some ms ->
  valid_reg s ms r -> repinned tid r s = false ->
  (forall l, isRenameable r = true -> freeLists s !! Z.to_nat (class_value (classValue r)) = Some l -> l <> []) ->
  exists new prev s1 s2 s', rename tid r s = Ok (new, prev, s1) /\ unsetReg new s1 = Ok s2 /\
    push_history tid (mkHistory sn r new prev) s2 = Ok s'.
Proof.
  intros Hs Ht Hm Hv Hpin Hf. pose proof (ri_threads T s Hs) as (L1 & L2 & _). pose proof (lookup_lt_Some _ _ _ Hm) as Hlt.
  unfold rename. destruct (isRenameable r) eqn:Hr; cbn [negb].
  - destruct (valid_mapped s ms r Hr Hv) as [Hi Hmp].
    destruct (simple_rename_total T tid s ms r) as (new & prev & s1 & E & Hn & Hc & Hb & Hh); try done; [auto|].
    destruct (unsetReg_total s1 (classValue r) new) as [s2 E2]; [by rewrite Hb, (classes_length s s1), (ri_board T s Hs)|by rewrite Hc|].
    destruct (push_total tid (mkHistory sn r new prev) s2) as [s' E3]; [|by eauto 10].
    rewrite (sc_hist _ _ (unsetReg_core _ _ _ E2)), Hh. lia.
  - destruct (valid_lookup_fixed tid s ms r Hr Hv) as (p & E & Hfx). rewrite E, bind_Ok.
    assert (Eu : unsetReg p s = Ok s) by (unfold unsetReg, sb_write; by rewrite Hfx).
    destruct (push_total tid (mkHistory sn r p p) s) as [s' E3]; [lia|]. by exists p, p, s, s, s'.
Qed.

(** The registers of class [c] among the destinations. *)
Definition enough_free (s : t) (dests : list RegId) : Prop :=
  forall c l, is_renamed c -> freeLists s !! Z.to_nat (class_value c) = Some l -> (length (filter (fun r => classValue r = c) dests) <= length l)%nat.

Lemma elem_renamed c : is_renamed c -> c ∈ renamed_classes.
Proof. intros [H1 H2]. unfold renamed_classes. destruct c; try done; set_solver. Qed.

Lemma canRename_enough dests s : canRename dests s = Ok true -> enough_free s dests.
Proof.
  unfold canRename. intros E c l Hc Hl. pose proof (elem_renamed c Hc) as Hin. pose proof (class_value_range c (proj1 Hc) (proj2 Hc)) as Hr.
  revert Hin E. generalize renamed_classes as cs. induction cs as [|c' cs IH]; intros Hin E; [set_solver|].
  cbn [can_rename_loop] in E. ok_inv. destruct (Z.ltb_spec r (numDestRegs c' dests)); [done|].
  apply elem_of_cons in Hin as [->|Hin]; [|by apply IH]. unfold numFreeRegs in E0. rewrite (vget_lookup _ _ _ (proj1 Hr) Hl), bind_Ok in E0.
  injection E0 as <-. unfold numDestRegs in *. lia.
Qed.

Section Renaming.
Context (flatten : RegId -> RegId).

(** The flattened register of the destination [r]. *)
Definition flat_dest (r : RegId) : RegId := mkRegId (classValue (flatten r)) (index (flatten r)) (numPinnedWrites r).

Lemma valid_renamed tid hn s s' ms ms' r : renamed_by tid hn s s' -> renameMaps s !! Z.to_nat tid = Some ms ->
  renameMaps s' !! Z.to_nat tid = Some ms' -> valid_reg s ms r -> valid_reg s' ms' r.
Proof.
  intros (ms0 & ms1 & hs & Ht & Hm & Hh & Em & Eh & Ew & Ec & Ei & Hu & _ & Hp & Hf) Hm0 Hm1 [Hi Hv].
  rewrite Hm in Hm0. injection Hm0 as <-. rewrite Em, list_lookup_insert_eq in Hm1 by (by eapply lookup_lt_Some). injection Hm1 as <-.
  split; [done|]. rewrite Ei. specialize (Hp r). unfold isRenameable in Hp. destruct (classValue r); auto.
Qed.

(** The state in which a destination has to be renamed that is still pinned. *)
Definition reaches_repinned (tid sn : Z) (dests : list RegId) (s : t) : Prop :=
  exists pre r post ps s1, dests = pre ++ r :: post /\ renameDestRegs flatten tid sn pre s = Ok (ps, s1) /\
    repinned tid (flat_dest r) s1 = true.

Lemma renamed_enough tid sn r dests s s3 T new prev : rename_inv T s -> rename_inv T s3 -> classValue (flatten r) = classValue r ->
  renamed_by tid [mkHistory sn (flat_dest r) new prev] s s3 -> enough_free s (r :: dests) -> enough_free s3 dests.
Proof.
  intros Hs Hs3 Hcl (ms0 & ms1 & hs & _ & _ & _ & _ & _ & _ & _ & _ & _ & _ & _ & Hf) He c l3 Hc Hl3.
  destruct (lookup_lt_is_Some_2 (freeLists s) (Z.to_nat (class_value c))) as [l Hl].
  { rewrite (ri_lists T s Hs), <- (ri_lists T s3 Hs3). by eapply lookup_lt_Some. }
  destruct (Hf c l Hc Hl) as (l' & Hl' & Hle). rewrite Hl3 in Hl'. injection Hl' as <-. pose proof (He c l Hc Hl) as Hn.
  unfold renames_of in Hle. rewrite filter_cons in Hn. rewrite filter_cons in Hle. cbn [archReg flat_dest classValue] in Hle. rewrite Hcl in Hle.
  destruct (decide (classValue r = c)); cbn in Hle, Hn; lia.
Qed.

Lemma dests_repinned T tid sn r dests s ms : rename_inv T s -> 0 <= tid -> renameMaps s !! Z.to_nat tid = Some ms ->
  valid_reg s ms (flat_dest r) -> repinned tid (flat_dest r) s = true ->
  renameDestRegs flatten tid sn (r :: dests) s = Err AssertFail /\ reaches_repinned tid sn (r :: dests) s.
Proof.
  intros Hs Ht Hm Hv Hre. split; [|by exists [], r, dests, [], s]. cbn [renameDestRegs]. fold (flat_dest r).
  assert (Hr : isRenameable (flat_dest r) = true) by (unfold repinned in Hre; by apply andb_true_iff in Hre as [[? _]%andb_true_iff _]).
  destruct (valid_mapped s ms _ Hr Hv) as [Hi Hmp]. unfold rename. rewrite Hr. cbn [negb].
  by rewrite (simple_rename_repinned T tid s ms (flat_dest r)).
Qed.

Lemma dests_total T tid sn dests s ms : rename_inv T s -> 0 <= tid -> renameMaps s !! Z.to_nat tid = Some ms ->
  Forall (fun r => valid_reg s ms (flat_dest r) /\ classValue (flatten r) = classValue r) dests ->
  enough_free s dests -> (exists ps s', renameDestRegs flatten tid sn dests s = Ok (ps, s')) \/
    renameDestRegs flatten tid sn dests s = Err AssertFail /\ reaches_repinned tid sn dests s.
Proof.
  revert s ms. induction dests as [|r dests IH]; intros s ms Hs Ht Hm Hd He; [left; by eexists _, _|].
  apply Forall_cons in Hd as [(Hv & Hcl) Hd].
  destruct (repinned tid (flat_dest r) s) eqn:Hre; [right; by eapply dests_repinned|].
  destruct (dest_total T tid sn s ms (flat_dest r)) as (new & prev & s1 & s2 & s3 & E1 & E2 & E3); try done.
  { intros l Hr Hl ->. cbn in Hr, Hl. rewrite Hcl in Hl. apply (He (classValue r)) in Hl.
    - rewrite filter_cons_True in Hl by done. cbn in Hl. lia.
    - rewrite <- Hcl. by apply (is_renameable_renamed (flat_dest r)). }
  destruct (dest_partial T tid sn _ s new prev s1 s2 s3 Hs E1 E2 E3) as [Hs3 Hby].
  assert (E : forall l, renameDestRegs flatten tid sn (r :: l) s =
    (let! x := renameDestRegs flatten tid sn l s3 in Ok ((new, prev) :: x.1, x.2))).
  { intros l. cbn [renameDestRegs]. fold (flat_dest r). by rewrite E1, bind_Ok, E2, bind_Ok, E3, bind_Ok. }
  pose proof Hby as (ms0 & ms1 & hs & _ & Hm0 & _ & Em & _).
  assert (Hm1 : renameMaps s3 !! Z.to_nat tid = Some ms1) by (rewrite Em; apply list_lookup_insert_eq; by eapply lookup_lt_Some).
  rewrite E. destruct (IH s3 ms1 Hs3 Ht Hm1) as [(ps & s' & E4)|[E4 Hre']].
  - eapply Forall_impl; [exact Hd|]. intros r' (Hv' & Hc'). split; [|done]. exact (valid_renamed tid _ s s3 ms ms1 _ Hby Hm Hm1 Hv').
  - by eapply (renamed_enough tid sn r dests s s3 T).
  - left. rewrite E4, bind_Ok. by eexists _, _.
  - right. rewrite E4. split; [done|]. destruct Hre' as (pre & r' & post & ps & s' & -> & Ep & Hr').
    exists (r :: pre), r', post. rewrite E, Ep, bind_Ok. by eexists _, _.
Qed.

(** Renaming the destinations of an instruction keeps the invariant. *)
Lemma dests_partial T tid sn dests s ps s' : rename_inv T s -> 0 <= tid < Z.of_nat T ->
  renameDestRegs flatten tid sn dests s = Ok (ps, s') ->
  exists hn, rename_inv T s' /\ renamed_by tid hn s s' /\ Forall (fun h => instSeqNum h = sn) hn /\ length hn = length dests.
Proof.
  revert s ps. induction dests as [|r dests IH]; intros s ps Hs Ht E; cbn [renameDestRegs] in E.
  - simplify_eq. exists []. pose proof (ri_threads T s' Hs) as (L1 & L2 & _).
    destruct (lookup_lt_is_Some_2 (renameMaps s') (Z.to_nat tid)) as [ms Hms]; [lia|].
    destruct (lookup_lt_is_Some_2 (historyBuffer s') (Z.to_nat tid)) as [hs Hhs]; [lia|].
    split_and!; [done|by eapply renamed_by_nil; [lia|..]|constructor|done].
  - ok_inv. destruct r0 as [[new prev] s1]. ok_inv. simplify_eq. destruct r2 as [ps2 s3]. cbn [snd] in *.
    destruct (dest_partial T tid sn _ s new prev s1 r0 r1 Hs E0 E1 E2) as [Hs1 Hr1].
    destruct (IH r1 ps2 Hs1 Ht E3) as (hn & Hs2 & Hr2 & Hn & Hl). eexists (hn ++ [_]).
    split_and!; [done|exact (renamed_by_app _ _ _ _ _ _ Hr1 Hr2)|by apply Forall_app; split; [done|constructor]|].
    rewrite length_app. cbn. lia.
Qed.
End Renaming.
