(* ===== verification/RenameRecovery.v ===== *)
(** * Register renaming: squash, commit and release

    The operations that take entries off the history buffer keep the invariant of
    register renaming and always succeed; the construction of the CPU establishes
    it. *)

From S2P Require Import Prelude Bits Tables Rename RenameLaws.
Import Rename.Rename.

(** ** Changing the lists of one thread *)
Lemma inv_thread T s s' tid ms hs l : rename_inv T s -> classes s' = classes s -> length (regScoreBoard s') = length (regScoreBoard s) ->
  length (freeLists s') = 7%nat ->
  (forall c l, is_renamed c -> freeLists s' !! Z.to_nat (class_value c) = Some l -> Forall (of_class (classes s) c) l) ->
  renameMaps s' = <[tid := ms]> (renameMaps s) -> historyBuffer s' = <[tid := hs]> (historyBuffer s) ->
  freeingInProgress s' = <[tid := l]> (freeingInProgress s) ->
  places s' ≡ₚ places s -> maps_ok (classes s) ms -> Forall (hist_ok (classes s)) hs -> undo_ok hs ms ->
  Forall (fun p => exists c, is_renamed c /\ of_class (classes s) c p) l -> rename_inv T s'.
Proof.
  intros [Hp Hcl Hb Hls Hfree Hmaps Hhist Hundo Hfr (T1 & T2 & T3)] Ec Eb E7 Ef Em Eh Ew Hpl Hm Hh Hu Hl.
  pose proof (classes_length _ _ Ec) as Hlen.
  assert (Hins : forall {A} (k : list A) x y t', <[tid := x]> k !! t' = Some y -> (t' = tid /\ y = x) \/ k !! t' = Some y).
  { intros A k x y t' E. apply list_lookup_insert_Some in E as [(<- & <- & _)|[_ E]]; auto. }
  constructor; rewrite ?Ec, ?Hlen, ?Eb; try done.
  - rewrite <- Hp. unfold owned. by rewrite Hpl.
  - intros t' ms' E. rewrite Em in E. apply Hins in E as [[-> ->]|E]; [done|by eapply Hmaps].
  - intros t' hs' E. rewrite Eh in E. apply Hins in E as [[-> ->]|E]; [done|by eapply Hhist].
  - intros t' ms' hs' E1 E2. rewrite Em in E1. rewrite Eh in E2. destruct (decide (t' = tid)) as [->|Hne].
    + pose proof (lookup_lt_Some _ _ _ E1) as L1. pose proof (lookup_lt_Some _ _ _ E2) as L2. rewrite length_insert in L1. rewrite length_insert in L2.
      rewrite list_lookup_insert_eq in E1 by done. rewrite list_lookup_insert_eq in E2 by done. by simplify_eq.
    + rewrite list_lookup_insert_ne in E1 by done. rewrite list_lookup_insert_ne in E2 by done. by eapply Hundo.
  - intros t' l' E. rewrite Ew in E. apply Hins in E as [[-> ->]|E]; [done|by eapply Hfr].
  - by rewrite Em, Eh, Ew, !length_insert.
Qed.

(** ** Squashing *)

(** The places before and after the youngest entry [h] is undone. *)
Lemma places_undo s s' tid h hs ms l : undone h -> renameMaps s !! tid = Some ms -> historyBuffer s !! tid = Some (h :: hs) ->
  freeingInProgress s !! tid = Some l -> get_reg (archReg h) ms = Some (newPhysReg h) -> freeLists s' = freeLists s ->
  renameMaps s' = <[tid := set_reg (archReg h) (prevPhysReg h) ms]> (renameMaps s) ->
  historyBuffer s' = <[tid := hs]> (historyBuffer s) ->
  freeingInProgress s' = <[tid := l ++ [newPhysReg h]]> (freeingInProgress s) -> places s' ≡ₚ places s.
Proof.
  intros Hu Hm Hh Hl Hg Ef Em Eh Ew. unfold places. rewrite Ef, Em, Eh, Ew.
  destruct (concat_upd _ _ _ Hm) as (R2 & M1 & M2). destruct (set_reg_upd _ _ (prevPhysReg h) ms Hg) as (R3 & N1 & N2).
  destruct (concat_upd _ _ _ Hh) as (R4 & H1 & H2). destruct (concat_upd _ _ _ Hl) as (R5 & L1 & L2).
  rewrite M1, H1, L1, M2, H2, L2, !concat_app, N1, N2, !prevs_app.
  assert (prevs (h :: hs) = prevPhysReg h :: prevs hs) as -> by (unfold prevs; by rewrite filter_cons_True by done).
  solve_Permutation.
Qed.

Lemma setEntry_mapped s tid ms r p q : length ms = 7%nat -> 0 <= tid -> renameMaps s !! Z.to_nat tid = Some ms -> isRenameable r = true ->
  0 <= index r -> get_reg r ms = Some q -> of_class (classes s) (classValue r) p ->
  setEntry tid r p s = Ok (with_maps (<[Z.to_nat tid := set_reg r p ms]> (renameMaps s)) s).
Proof.
  intros H7 Ht Hm Hr Hi Hg Hp. destruct (maps_get ms r q Hr Hi Hg) as (m & Em & Ep & Hlt).
  destruct (of_class_deref s _ p Hp) as (f & o & -> & _ & Ed & Hc). unfold setEntry.
  rewrite Ed, bind_Ok, bool_decide_true by done. cbn [check rbind]. rewrite Hr. cbn [negb].
  rewrite (vget_lookup _ _ _ Ht Hm), bind_Ok, Em, bind_Ok. unfold map_setEntry. rewrite (proj2 (Z.leb_le _ _)) by lia. cbn [check rbind].
  rewrite vset_Ok, bind_Ok by lia. unfold set_map. rewrite (vget_lookup _ _ _ Ht Hm), bind_Ok.
  pose proof (renameable_range r Hr). rewrite vset_Ok, bind_Ok by lia.
  pose proof (lookup_lt_Some _ _ _ Hm). rewrite vset_Ok, bind_Ok by lia.
  apply vget_inv in Em as [_ Em]. unfold set_reg. by rewrite Em.
Qed.

(** What squashing the entries [sq] does to the lists of the thread. *)
Record squashed_by (tid : Z) (sq hs : list RenameHistory) (s s' : t) : Prop := {
  sb_maps ms : renameMaps s !! Z.to_nat tid = Some ms -> renameMaps s' = <[Z.to_nat tid := undo sq ms]> (renameMaps s);
  sb_hist : historyBuffer s' = <[Z.to_nat tid := hs]> (historyBuffer s);
  sb_freeing l : freeingInProgress s !! Z.to_nat tid = Some l -> freeingInProgress s' = <[Z.to_nat tid := l ++ news sq]> (freeingInProgress s);
  sb_same : regIds s' = regIds s /\ numMiscRegs s' = numMiscRegs s /\ freeLists s' = freeLists s /\ regScoreBoard s' = regScoreBoard s;
}.

(** One entry: [s0] is the state with the history that is still to be squashed. *)
Lemma squash_one T s tid h hs ms l : let s0 := with_history (<[Z.to_nat tid := h :: hs]> (historyBuffer s)) s in
  rename_inv T s0 -> undone h -> 0 <= tid < Z.of_nat T -> renameMaps s !! Z.to_nat tid = Some ms -> freeingInProgress s !! Z.to_nat tid = Some l ->
  let s' := with_freeing (<[Z.to_nat tid := l ++ [newPhysReg h]]> (freeingInProgress s))
              (with_maps (<[Z.to_nat tid := set_reg (archReg h) (prevPhysReg h) ms]> (renameMaps s)) s) in
  setEntry tid (archReg h) (prevPhysReg h) s = Ok (with_maps (<[Z.to_nat tid := set_reg (archReg h) (prevPhysReg h) ms]> (renameMaps s)) s) /\
  rename_inv T (with_history (<[Z.to_nat tid := hs]> (historyBuffer s)) s').
Proof.
  intros s0 Hs Hu Ht Hm Hl s'. pose proof (ri_threads T s0 Hs) as (L1 & L2 & L3). cbn in L1, L2, L3. rewrite length_insert in L2.
  assert (Hh : historyBuffer s0 !! Z.to_nat tid = Some (h :: hs)) by (apply list_lookup_insert_eq; lia).
  pose proof (ri_hist T s0 Hs _ _ Hh) as Hok. apply Forall_cons in Hok as [Hok Hoks]. destruct (Hok Hu) as (Hr & Hi & Hn & Hp).
  destruct (ri_undo T s0 Hs _ _ _ Hm Hh) as [Hg Hus]. specialize (Hg Hu).
  assert (Hu1 : undo1 h ms = set_reg (archReg h) (prevPhysReg h) ms) by (unfold undo1; by rewrite decide_True).
  destruct (ri_maps T s0 Hs _ _ Hm) as [H7 Hmo]. split; [exact (setEntry_mapped s tid ms _ _ _ H7 (proj1 Ht) Hm Hr Hi Hg Hp)|].
  apply (inv_thread T s0 _ (Z.to_nat tid) (undo1 h ms) hs (l ++ [newPhysReg h])); try done.
  - by apply (ri_lists T s0 Hs).
  - intros c l' Hc. by apply (ri_free T s0 Hs).
  - cbn. by rewrite Hu1.
  - cbn. by rewrite list_insert_insert_eq.
  - eapply places_undo; try done. cbn. by rewrite list_insert_insert_eq.
  - rewrite Hu1. by apply set_reg_ok.
  - apply Forall_app. split; [by eapply (ri_freeing T s0 Hs)|]. constructor; [|done]. eexists. split; [by apply is_renameable_renamed|done].
Qed.

Lemma skip_one T s tid h hs : rename_inv T (with_history (<[tid := h :: hs]> (historyBuffer s)) s) -> (tid < T)%nat -> ~ undone h ->
  rename_inv T (with_history (<[tid := hs]> (historyBuffer s)) s).
Proof.
  set (s0 := with_history _ s). intros Hs Ht Hn. pose proof (ri_threads T s0 Hs) as (L1 & L2 & L3). cbn in L1, L2, L3. rewrite length_insert in L2.
  assert (Hh : historyBuffer s0 !! tid = Some (h :: hs)) by (apply list_lookup_insert_eq; lia).
  destruct (lookup_lt_is_Some_2 (renameMaps s) tid) as [ms Hm]; [lia|].
  destruct (lookup_lt_is_Some_2 (freeingInProgress s) tid) as [l Hl]; [lia|].
  pose proof (ri_hist T s0 Hs _ _ Hh) as Hok. apply Forall_cons in Hok as [_ Hoks].
  destruct (ri_undo T s0 Hs _ _ _ Hm Hh) as [_ Hus]. unfold undo1 in Hus. rewrite decide_False in Hus by done.
  apply (inv_thread T s0 _ tid ms hs l); try done.
  - by apply (ri_lists T s0 Hs).
  - intros c l' Hc. by apply (ri_free T s0 Hs).
  - cbn. by rewrite list_insert_id.
  - cbn. by rewrite list_insert_insert_eq.
  - cbn. by rewrite list_insert_id.
  - unfold places. cbn [with_history freeLists renameMaps historyBuffer freeingInProgress s0].
    destruct (lookup_lt_is_Some_2 (historyBuffer s) tid) as [x Hx]; [lia|].
    destruct (concat_upd (historyBuffer s) tid x Hx) as (R & _ & H2). rewrite !H2, !prevs_app.
    assert (prevs (h :: hs) = prevs hs) as -> by (unfold prevs; by rewrite filter_cons_False). done.
  - by eapply (ri_maps T s0 Hs).
  - by eapply (ri_freeing T s0 Hs).
Qed.

Lemma undone_bool h : bool_decide (newPhysReg h = prevPhysReg h) = negb (bool_decide (undone h)).
Proof. unfold undone. repeat case_bool_decide; tauto. Qed.

(** The loop squashes the entries younger than [sn] at the head of the history. *)
Lemma squash_history_spec T sn tid hb s ms l : rename_inv T (with_history (<[Z.to_nat tid := hb]> (historyBuffer s)) s) ->
  0 <= tid < Z.of_nat T -> renameMaps s !! Z.to_nat tid = Some ms -> freeingInProgress s !! Z.to_nat tid = Some l ->
  exists sq rest, hb = sq ++ rest /\ Forall (fun h => sn < instSeqNum h) sq /\ (forall h, head rest = Some h -> instSeqNum h <= sn) /\
    let s' := with_freeing (<[Z.to_nat tid := l ++ news sq]> (freeingInProgress s)) (with_maps (<[Z.to_nat tid := undo sq ms]> (renameMaps s)) s) in
    squash_loop sn tid hb s = Ok (rest, s') /\ rename_inv T (with_history (<[Z.to_nat tid := rest]> (historyBuffer s)) s').
Proof.
  revert s ms l. induction hb as [|h hb IH]; intros s ms l Hs Ht Hm Hl.
  - exists [], []. split_and!; try done. cbn. rewrite app_nil_r, !list_insert_id by done. by destruct s.
  - cbn [squash_loop]. destruct (Z.ltb_spec sn (instSeqNum h)) as [Hlt|Hge].
    2: { exists [], (h :: hb). split; [done|]. split; [done|]. split; [intros ? [= <-]; lia|]. cbn. rewrite app_nil_r, !list_insert_id by done. by destruct s. }
    rewrite undone_bool. case_bool_decide as Hu; cbn [negb].
    + destruct (squash_one T s tid h hb ms l Hs Hu Ht Hm Hl) as [E Hs']. rewrite E, bind_Ok. cbn [freeingInProgress with_maps].
      rewrite (vget_lookup _ _ _ (proj1 Ht) Hl), bind_Ok. pose proof (lookup_lt_Some _ _ _ Hl) as Hlw. rewrite vset_Ok, !bind_Ok by lia.
      pose proof (lookup_lt_Some _ _ _ Hm) as Hlm.
      edestruct IH as (sq & rest & -> & Hsq & Hrest & E' & Hinv); [exact Hs'|done|by apply list_lookup_insert_eq|by apply list_lookup_insert_eq|].
      exists (h :: sq), rest. rewrite E'. cbn [undo]. unfold undo1, news in *. rewrite decide_True, filter_cons_True by done.
      cbn in *. rewrite !list_insert_insert_eq, <- app_assoc in *. split_and!; try done. by constructor.
    + rewrite bind_Ok. apply skip_one in Hs; [|lia|done]. destruct (IH s ms l Hs Ht Hm Hl) as (sq & rest & -> & Hsq & Hrest & E' & Hinv).
      exists (h :: sq), rest. rewrite E'. cbn [undo]. unfold undo1, news in *. rewrite decide_False, filter_cons_False by done.
      split_and!; try done. by constructor.
Qed.

(** [doSquash] always succeeds, undoes the youngest entries and keeps the
    invariant. *)
Lemma doSquash_spec T sn tid s hb : rename_inv T s -> 0 <= tid < Z.of_nat T -> historyBuffer s !! Z.to_nat tid = Some hb ->
  exists sq rest s', hb = sq ++ rest /\ Forall (fun h => sn < instSeqNum h) sq /\ (forall h, head rest = Some h -> instSeqNum h <= sn) /\
    doSquash sn tid s = Ok s' /\ rename_inv T s' /\ squashed_by tid sq rest s s'.
Proof.
  intros Hs Ht Hh. pose proof (ri_threads T s Hs) as (L1 & L2 & L3).
  destruct (lookup_lt_is_Some_2 (renameMaps s) (Z.to_nat tid)) as [ms Hm]; [lia|].
  destruct (lookup_lt_is_Some_2 (freeingInProgress s) (Z.to_nat tid)) as [l Hl]; [lia|].
  destruct (squash_history_spec T sn tid hb s ms l) as (sq & rest & E & Hsq & Hrest & El & Hinv); try done.
  { rewrite list_insert_id by done. by destruct s. }
  eexists sq, rest, _. split_and!; [done..| | |].
  - unfold doSquash. rewrite (vget_lookup _ _ _ (proj1 Ht) Hh), bind_Ok, El, bind_Ok. cbn [fst snd historyBuffer with_freeing with_maps].
    rewrite vset_Ok, bind_Ok by lia. done.
  - exact Hinv.
  - constructor; try done; intros x Hx; cbn; congruence.
Qed.

(** ** Returning registers to the free lists *)
Definition some_class (cs : list RegClassType) (p : preg) : Prop := exists c, is_renamed c /\ of_class cs c p.
Definition lists_ok (cs : list RegClassType) (fl : list (list preg)) : Prop :=
  length fl = 7%nat /\ forall c l, is_renamed c -> fl !! Z.to_nat (class_value c) = Some l -> Forall (of_class cs c) l.

Lemma renamed_index_inj c c' : is_renamed c -> is_renamed c' -> Z.to_nat (class_value c) = Z.to_nat (class_value c') -> c = c'.
Proof.
  intros [H1 H2] [H3 H4] E. pose proof (class_value_range c H1 H2). pose proof (class_value_range c' H3 H4). apply class_value_inj. lia.
Qed.

Lemma addReg_Ok s p : lists_ok (classes s) (freeLists s) -> some_class (classes s) p ->
  exists fl, addReg p s = Ok (with_free fl s) /\ lists_ok (classes s) fl /\ concat fl ≡ₚ concat (freeLists s) ++ [p].
Proof.
  intros [H7 Hok] (c & Hc & Hp). destruct (of_class_deref s c p Hp) as (f & o & Hpf & _ & Ed & Ec).
  pose proof (class_value_range c (proj1 Hc) (proj2 Hc)) as Hr.
  destruct (lookup_lt_is_Some_2 (freeLists s) (Z.to_nat (class_value c))) as [l Hl]; [lia|].
  exists (<[Z.to_nat (class_value c) := l ++ [p]]> (freeLists s)). split_and!.
  - unfold addReg. rewrite Ed, bind_Ok, Ec, (vget_lookup _ _ _ (proj1 Hr) Hl), bind_Ok, vset_Ok, bind_Ok by lia. done.
  - split; [by rewrite length_insert|]. intros c' l' Hc' E. apply list_lookup_insert_Some in E as [(E & <- & _)|[_ E]]; [|by eapply Hok].
    apply renamed_index_inj in E as <-; [|done..]. apply Forall_app. split; [by eapply Hok|by constructor].
  - destruct (concat_upd _ _ _ Hl) as (R & H1 & H2). rewrite H1, H2. solve_Permutation.
Qed.

Lemma add_loop_Ok ps s : lists_ok (classes s) (freeLists s) -> Forall (some_class (classes s)) ps ->
  exists fl, add_loop ps s = Ok (with_free fl s) /\ lists_ok (classes s) fl /\ concat fl ≡ₚ concat (freeLists s) ++ ps.
Proof.
  revert s. induction ps as [|p ps IH]; intros s Hl Hps.
  - exists (freeLists s). rewrite app_nil_r. split_and!; [by destruct s|done..].
  - apply Forall_cons in Hps as [Hp Hps]. destruct (addReg_Ok s p Hl Hp) as (fl & E & Hl' & Hc). cbn [add_loop]. rewrite E, bind_Ok.
    destruct (IH (with_free fl s)) as (fl' & E' & Hl'' & Hc'); [done..|]. exists fl'. rewrite E'. split_and!; [done..|].
    rewrite Hc'. cbn [freeLists with_free]. rewrite Hc. by rewrite <- app_assoc.
Qed.

Lemma inv_lists T s : rename_inv T s -> lists_ok (classes s) (freeLists s).
Proof. intros Hs. split; [by apply (ri_lists T s)|]. intros c l. apply (ri_free T s Hs). Qed.

(** The registers of a squash are free after the reorder buffer has finished. *)
Lemma freeSquashed_spec T tid s l : rename_inv T s -> 0 <= tid < Z.of_nat T -> freeingInProgress s !! Z.to_nat tid = Some l ->
  exists fl, freeSquashed tid s = Ok (with_freeing (<[Z.to_nat tid := []]> (freeingInProgress s)) (with_free fl s)) /\
    concat fl ≡ₚ concat (freeLists s) ++ l /\ rename_inv T (with_freeing (<[Z.to_nat tid := []]> (freeingInProgress s)) (with_free fl s)).
Proof.
  intros Hs Ht Hl. pose proof (ri_threads T s Hs) as (L1 & L2 & L3).
  destruct (add_loop_Ok l s (inv_lists T s Hs) (ri_freeing T s Hs _ _ Hl)) as (fl & E & [H7 Hfl] & Hc).
  exists fl. split_and!; [|done|].
  - unfold freeSquashed. rewrite (vget_lookup _ _ _ (proj1 Ht) Hl), bind_Ok, E, bind_Ok. cbn [freeingInProgress with_free].
    rewrite vset_Ok, bind_Ok by lia. done.
  - destruct (lookup_lt_is_Some_2 (renameMaps s) (Z.to_nat tid)) as [ms Hm]; [lia|].
    destruct (lookup_lt_is_Some_2 (historyBuffer s) (Z.to_nat tid)) as [hs Hh]; [lia|].
    apply (inv_thread T s _ (Z.to_nat tid) ms hs []); try done.
    + cbn. by rewrite list_insert_id.
    + cbn. by rewrite list_insert_id.
    + unfold places. cbn [with_freeing with_free freeLists renameMaps historyBuffer freeingInProgress]. rewrite Hc.
      destruct (concat_upd _ _ _ Hl) as (R & H1 & H2). rewrite H1, H2. solve_Permutation.
    + by eapply (ri_maps T s Hs).
    + by eapply (ri_hist T s Hs).
    + by eapply (ri_undo T s Hs).
Qed.

(** ** Committing *)
(** Without wrapping iterators the loop is undefined exactly when it empties the list. *)
Lemma commit_loop_strict sn l s : commit_loop false sn l s =
  (let! r := commit_loop true sn l s in
   let! _ := check Undefined (bool_decide (l = []) || bool_decide (r.1 <> [])) in Ok r).
Proof.
  revert s. induction l as [|h l IH]; intros s; [done|]. cbn [commit_loop]. destruct (instSeqNum h <=? sn); [|done].
  destruct (if bool_decide (newPhysReg h = prevPhysReg h) then Ok s else addReg (prevPhysReg h) s) as [s1|e]; [|done].
  rewrite !bind_Ok. cbn [orb]. rewrite check_true, bind_Ok. destruct l as [|h' l]; [done|].
  rewrite (bool_decide_eq_true_2 (_ :: _ <> [])), check_true, bind_Ok by done. apply IH.
Qed.

Lemma commit_history_spec sn l s : exists cm rest, l = cm ++ rest /\ Forall (fun h => instSeqNum h <= sn) cm /\
  (forall h, head rest = Some h -> sn < instSeqNum h) /\ commit_loop true sn l s = (let! s' := add_loop (prevs cm) s in Ok (rest, s')).
Proof.
  revert s. induction l as [|h l IH]; intros s; [by exists [], []|]. cbn [commit_loop].
  destruct (Z.leb_spec (instSeqNum h) sn) as [Hle|Hgt].
  2: { exists [], (h :: l). split_and!; try done. intros ? [= <-]. lia. }
  rewrite undone_bool. cbn [orb]. case_bool_decide as Hu; cbn [negb].
  - destruct (addReg (prevPhysReg h) s) as [s1|e] eqn:E.
    + destruct (IH s1) as (cm & rest & -> & Hcm & Hr & E'). exists (h :: cm), rest. rewrite bind_Ok, E'.
      unfold prevs. rewrite filter_cons_True by done. cbn [fmap list_fmap add_loop]. rewrite E, bind_Ok. split_and!; try done. by constructor.
    + destruct (IH s) as (cm & rest & -> & Hcm & Hr & E'). exists (h :: cm), rest.
      unfold prevs. rewrite filter_cons_True by done. cbn [fmap list_fmap add_loop]. rewrite E. split_and!; try done. by constructor.
  - destruct (IH s) as (cm & rest & -> & Hcm & Hr & E'). exists (h :: cm), rest. rewrite bind_Ok, E'.
    unfold prevs. rewrite filter_cons_False by done. split_and!; try done. by constructor.
Qed.

Lemma hist_prevs cs hs : Forall (hist_ok cs) hs -> Forall (some_class cs) (prevs hs).
Proof.
  intros Hh. unfold prevs. apply Forall_fmap, Forall_forall. intros h Hin. apply list_elem_of_filter in Hin as [Hu Hin].
  rewrite Forall_forall in Hh. destruct (Hh h Hin Hu) as (Hr & _ & _ & Hp). eexists. split; [by apply is_renameable_renamed|done].
Qed.

Lemma rev_nil_iff {A} (l : list A) : rev l = [] <-> l = [].
Proof. split; [|by intros ->]. destruct l; [done|]. cbn. by intros [_ ?]%app_nil. Qed.

(** [removeFromHistory]: the oldest entries up to the committed instruction leave
    the history, and the registers they replaced are free. When no entry is left,
    the list had been empty or its first entry has been erased, which is undefined
    unless the iterators wrap. *)
Lemma removeFromHistory_spec wraps T sn tid s hb : rename_inv T s -> 0 <= tid < Z.of_nat T -> historyBuffer s !! Z.to_nat tid = Some hb ->
  exists cm rest fl, hb = rest ++ cm /\ Forall (fun h => instSeqNum h <= sn) cm /\ (forall h, last rest = Some h -> sn < instSeqNum h) /\
    let s' := with_history (<[Z.to_nat tid := rest]> (historyBuffer s)) (with_free fl s) in
    removeFromHistory wraps sn tid s = (if wraps || bool_decide (rest <> []) then Ok s' else Err Undefined) /\
    concat fl ≡ₚ concat (freeLists s) ++ prevs cm /\ rename_inv T s'.
Proof.
  intros Hs Ht Hh. pose proof (ri_threads T s Hs) as (L1 & L2 & L3).
  destruct (commit_history_spec sn (rev hb) s) as (cm & rest & Erev & Hcm & Hr & E).
  assert (Ehb : hb = rev rest ++ rev cm) by (by rewrite <- rev_app_distr, <- Erev, rev_involutive).
  pose proof (ri_hist T s Hs _ _ Hh) as Hok. rewrite Ehb in Hok. apply Forall_app in Hok as [Hok1 Hok2].
  assert (Hcp : prevs cm ≡ₚ prevs (rev cm)) by (by rewrite <- Permutation_rev).
  destruct (add_loop_Ok (prevs cm) s (inv_lists T s Hs)) as (fl & Ea & [H7 Hfl] & Hc); [rewrite Hcp; by apply hist_prevs|].
  exists (rev cm), (rev rest), fl. split; [done|]. split; [by apply Forall_rev|]. split.
  { intros h Hl. apply Hr. destruct rest as [|h' rest]; [done|]. cbn [rev] in Hl. rewrite last_snoc in Hl. done. }
  intros s'. split_and!.
  - unfold removeFromHistory. rewrite (vget_lookup _ _ _ (proj1 Ht) Hh), bind_Ok.
    assert (Ec : commit_loop wraps sn (rev hb) s =
      (let! _ := check Undefined (wraps || bool_decide (hb = []) || bool_decide (rest <> [])) in Ok (rest, with_free fl s))).
    { destruct wraps; [rewrite E, Ea, bind_Ok; done|]. rewrite commit_loop_strict, E, Ea, !bind_Ok. cbn [fst orb].
      rewrite (bool_decide_ext (rev hb = []) (hb = [])); [done|]. apply rev_nil_iff. }
    rewrite Ec. clear Ec E Ea. rewrite (bool_decide_ext (rev rest <> []) (rest <> [])) by (by rewrite rev_nil_iff).
    destruct wraps; cbn [orb]; [|destruct (decide (rest = [])) as [->|Hne]].
    + rewrite check_true, !bind_Ok. cbn [check rbind fst snd historyBuffer with_free]. by rewrite vset_Ok, bind_Ok by lia.
    + cbn. by destruct hb.
    + rewrite (bool_decide_eq_true_2 (rest <> [])), orb_true_r by done.
      rewrite (bool_decide_eq_true_2 (hb <> [])) by (rewrite Ehb; intros [Hn _]%app_nil; by apply Hne, rev_nil_iff).
      rewrite check_true, !bind_Ok. cbn [fst snd historyBuffer with_free]. by rewrite vset_Ok, bind_Ok by lia.
  - by rewrite Hc, Hcp.
  - destruct (lookup_lt_is_Some_2 (renameMaps s) (Z.to_nat tid)) as [ms Hm]; [lia|].
    destruct (lookup_lt_is_Some_2 (freeingInProgress s) (Z.to_nat tid)) as [l Hl]; [lia|].
    apply (inv_thread T s _ (Z.to_nat tid) ms (rev rest) l); try done.
    + cbn. by rewrite list_insert_id.
    + cbn. by rewrite list_insert_id.
    + unfold places, s'. cbn [with_history with_free freeLists renameMaps historyBuffer freeingInProgress]. rewrite Hc.
      destruct (concat_upd _ _ _ Hh) as (R & H1 & H2). rewrite H1, H2, Ehb, !prevs_app, Hcp. solve_Permutation.
    + by eapply (ri_maps T s Hs).
    + pose proof (ri_undo T s Hs _ _ _ Hm Hh) as Hu. rewrite Ehb in Hu. by apply undo_ok_app in Hu as [Hu _].
    + by eapply (ri_freeing T s Hs).
Qed.

(** ** Construction *)
Lemma init_free_loop n i s : init_free n i s = add_loop (PhysReg <$> seqZ i (Z.of_nat n)) s.
Proof.
  revert i s. induction n as [|n IH]; intros i s; [done|]. rewrite seqZ_cons by lia. cbn [init_free fmap list_fmap add_loop].
  destruct (addReg (PhysReg i) s) as [s1|]; [|done]. rewrite !bind_Ok, IH. do 3 f_equal; lia.
Qed.

Lemma regs_fmap l : regs (PhysReg <$> l) = l.
Proof. induction l as [|x l IH]; [done|]. cbn [fmap list_fmap]. rewrite regs_phys. by f_equal. Qed.

Lemma phys_classes counts : Forall (fun o => is_renamed (p_class o)) (phys_ids counts).
Proof.
  unfold phys_ids. apply Forall_concat, Forall_fmap. assert (Hc : Forall is_renamed renamed_classes) by (by repeat constructor).
  eapply Forall_impl; [exact Hc|]. intros c Hr. unfold compose, class_ids. apply Forall_fmap, Forall_forall. intros i _. exact Hr.
Qed.

Lemma class_ids_length c n : length (class_ids c n) = Z.to_nat n.
Proof. unfold class_ids. by rewrite length_fmap, length_seq. Qed.

Lemma regs_null l : Forall (fun p => p = NullReg) l -> regs l = [].
Proof. induction 1 as [|p l -> _ IH]; [done|]. exact IH. Qed.

(** The maps of a thread before the initial mapping. *)
Definition null_maps (arch : RegClassType -> Z) : list (list preg) :=
  (fun c => replicate (Z.to_nat (arch c)) NullReg) <$> renamed_classes.

Lemma null_maps_get arch r p : get_reg r (null_maps arch) = Some p -> p = NullReg.
Proof.
  unfold get_reg, null_maps. rewrite list_lookup_fmap. destruct (renamed_classes !! _) as [c|]; [|done]. cbn.
  intros E. by apply lookup_replicate in E as [-> _].
Qed.

Lemma concat_nils {A} T : concat (replicate T (@nil A)) = [].
Proof. induction T as [|T IH]; [done|]. exact IH. Qed.

Lemma init_owned T arch s n : renameMaps s = replicate T (null_maps arch) -> historyBuffer s = replicate T [] -> freeingInProgress s = replicate T [] ->
  concat (freeLists s) ≡ₚ PhysReg <$> seqZ 0 n -> owned s ≡ₚ seqZ 0 n.
Proof.
  intros Em Eh Ew Hf. unfold owned, places. rewrite Em, Eh, Ew, Hf, !concat_nils, !regs_app, regs_fmap, (regs_null (concat (concat _))).
  - cbn. by rewrite !app_nil_r.
  - apply Forall_concat, Forall_concat, Forall_replicate. unfold null_maps. apply Forall_fmap, Forall_forall. intros c _. by apply Forall_replicate.
Qed.

Lemma init_inv T phys arch : exists s, init (Z.of_nat T) phys arch = Ok s /\ rename_inv T s /\ regIds s = phys_ids phys /\
  numMiscRegs s = arch MiscRegClass /\ renameMaps s = replicate T (null_maps arch) /\ historyBuffer s = replicate T [] /\ freeingInProgress s = replicate T [].
Proof.
  unfold init. rewrite init_free_loop, Nat2Z.id. set (s0 := mk _ _ _ _ _ _ _). set (n := length (phys_ids phys)).
  destruct (add_loop_Ok (PhysReg <$> seqZ 0 (Z.of_nat n)) s0) as (fl & E & [H7 Hfl] & Hc).
  - split; [done|]. intros c l _ E. apply (lookup_replicate_1 7 []) in E as [-> _]. constructor.
  - apply Forall_fmap, Forall_forall. intros f Hf. apply elem_of_seqZ in Hf.
    destruct (lookup_lt_is_Some_2 (phys_ids phys) (Z.to_nat f)) as [o Ho]; [fold n; lia|].
    exists (p_class o). split; [exact (Forall_lookup_1 _ _ _ _ (phys_classes phys) Ho)|]. exists f. split_and!; [done|lia|].
    unfold classes. rewrite list_lookup_fmap. change (regIds s0) with (phys_ids phys). by rewrite Ho.
  - exists (with_free fl s0). split; [done|]. split; [|done].
    assert (Hrep : forall {A} m (x y : A) i, replicate m x !! i = Some y -> y = x) by (intros A m x y i Hi; by apply lookup_replicate in Hi as [-> _]).
    constructor; try done.
    + by apply (init_owned T arch).
    + apply Forall_fmap. apply phys_classes.
    + cbn [with_free regScoreBoard s0]. by rewrite length_replicate.
    + intros tid ms Hm. apply Hrep in Hm as ->. split; [done|]. intros r p _ Hg. left. by eapply null_maps_get.
    + intros tid hs Hh. apply Hrep in Hh as ->. constructor.
    + intros tid ms hs _ Hh. by apply Hrep in Hh as ->.
    + intros tid l Hl. apply Hrep in Hl as ->. constructor.
    + cbn [with_free renameMaps historyBuffer freeingInProgress s0]. by rewrite !length_replicate.
Qed.
