(* ===== verification/RenameCount.v ===== *)
(** * Register renaming: counting registers

    How many registers of a class are free, from the invariant; the construction
    of the CPU maps every architectural register; and after the instructions in
    flight are gone, only the mapped registers are not free. *)

From S2P Require Import Prelude Bits Tables Rename RenameLaws RenameRecovery.
Import Rename.Rename.

(** The registers of class [c] among flat indices. *)
Definition of_cls (cs : list RegClassType) (c : RegClassType) (f : Z) : Prop := cs !! Z.to_nat f = Some c.
#[global] Instance of_cls_dec cs c f : Decision (of_cls cs c f).
Proof. unfold of_cls. apply _. Defined.
Definition class_count (cs : list RegClassType) (c : RegClassType) : nat := length (filter (fun c' => c' = c) cs).

Lemma filter_ext {A} (P Q : A -> Prop) `{!forall x, Decision (P x), !forall x, Decision (Q x)} l :
  Forall (fun x => P x <-> Q x) l -> filter P l = filter Q l.
Proof.
  induction 1 as [|x l Hx _ IH]; [done|]. rewrite !filter_cons, IH. repeat case_decide; tauto.
Qed.

Lemma class_count_seq cs c : length (filter (of_cls cs c) (seqZ 0 (Z.of_nat (length cs)))) = class_count cs c.
Proof.
  unfold class_count. induction cs as [|x cs IH] using rev_ind; [done|].
  rewrite length_app, Nat2Z.inj_add, seqZ_app by lia. cbn [length]. rewrite !filter_app, !length_app. f_equal.
  - rewrite <- IH. f_equal. apply filter_ext,  Forall_forall. intros f Hf. apply elem_of_seqZ in Hf.
    unfold of_cls. rewrite lookup_app_l by lia. done.
  - change (seqZ (0 + Z.of_nat (length cs)) (Z.of_nat 1)) with [0 + Z.of_nat (length cs)]. rewrite !filter_cons, !filter_nil.
    unfold of_cls at 1. rewrite Z.add_0_l.
    assert (Hx : (cs ++ [x]) !! Z.to_nat (Z.of_nat (length cs)) = Some x) by (rewrite Nat2Z.id; by apply list_lookup_middle).
    repeat case_decide; try done; unfold of_cls in *; congruence.
Qed.

(** Seven lists of registers of their class. *)
Definition typed (cs : list RegClassType) (ls : list (list preg)) : Prop :=
  length ls = 7%nat /\ forall c l, is_renamed c -> ls !! Z.to_nat (class_value c) = Some l -> Forall (fun p => p = NullReg \/ of_class cs c p) l.

Lemma lists_typed cs fl : lists_ok cs fl -> typed cs fl.
Proof.
  intros [H7 H]. split; [done|]. intros c l Hc Hl. eapply Forall_impl; [by eapply H|]. intros p Hp. by right.
Qed.

Lemma maps_typed cs ms : maps_ok cs ms -> typed cs ms.
Proof.
  intros [H7 H]. split; [done|]. intros c l Hc Hl. apply Forall_lookup. intros i p Hp.
  apply (H (mkRegId c (Z.of_nat i) 0)).
  - destruct Hc as [H1 H2]. unfold isRenameable. by destruct c.
  - unfold get_reg. cbn. by rewrite Hl, Nat2Z.id.
Qed.

Lemma class_at k : (k < 7)%nat -> exists c, is_renamed c /\ Z.to_nat (class_value c) = k.
Proof.
  intros Hk. assert (Hc : Forall is_renamed renamed_classes) by (by repeat constructor).
  destruct (lookup_lt_is_Some_2 renamed_classes k) as [c Ec]; [done|]. exists c. split; [by eapply Forall_lookup_1|].
  do 7 (destruct k as [|k]; [by injection Ec as <-|]). lia.
Qed.

Lemma typed_other cs ls k l c f : typed cs ls -> is_renamed c -> ls !! k = Some l -> k <> Z.to_nat (class_value c) -> f ∈ regs l -> ~ of_cls cs c f.
Proof.
  intros [H7 H] Hc Hl Hk Hf Hcf. destruct (class_at k) as (c' & Hc' & Ek); [rewrite <- H7; by eapply lookup_lt_Some|].
  subst k. pose proof (H c' l Hc' Hl) as Hall. rewrite Forall_forall in Hall. apply elem_of_regs in Hf.
  destruct (Hall _ Hf) as [|(f' & E & Hge & Hcl)]; [done|]. injection E as <-. unfold of_cls in Hcf. apply Hk. congruence.
Qed.

Lemma filter_none {A} (P : A -> Prop) `{!forall x, Decision (P x)} l : (forall x, x ∈ l -> ~ P x) -> filter P l = [].
Proof.
  induction l as [|x l IH]; intros Hl; [done|]. rewrite filter_cons_False by (apply Hl; left). apply IH. intros y Hy. apply Hl. by right.
Qed.

Lemma typed_filter cs ls c l : typed cs ls -> is_renamed c -> ls !! Z.to_nat (class_value c) = Some l ->
  filter (of_cls cs c) (regs (concat ls)) = filter (of_cls cs c) (regs l).
Proof.
  intros Ht Hc Hl. set (i := Z.to_nat (class_value c)) in *.
  rewrite <- (take_drop_middle ls i l Hl), concat_app. cbn [concat]. rewrite !regs_app, !filter_app.
  assert (Hno : forall part, (forall x, x ∈ part -> exists k, k <> i /\ ls !! k = Some x) -> filter (of_cls cs c) (regs (concat part)) = []).
  { intros part Hp. apply filter_none. intros f Hf. apply elem_of_regs, list_elem_of_In, in_concat in Hf as (x & Hx & Hfx).
    destruct (Hp x) as (k & Hk & Ek); [by apply list_elem_of_In|]. eapply typed_other; try done. apply elem_of_regs. by apply list_elem_of_In. }
  rewrite (Hno (take i ls)), (Hno (drop (S i) ls)); [|intros x Hx..].
  - by rewrite app_nil_r.
  - apply list_elem_of_lookup in Hx as (k & Hk). rewrite lookup_drop in Hk. exists (S i + k)%nat. split; [lia|done].
  - apply list_elem_of_lookup in Hx as (k & Hk). apply lookup_take_Some in Hk as [Hk Hlt]. exists k. split; [lia|done].
Qed.

Lemma typed_count cs ls c l : typed cs ls -> is_renamed c -> ls !! Z.to_nat (class_value c) = Some l ->
  (length (filter (of_cls cs c) (regs (concat ls))) <= length l)%nat.
Proof.
  intros Ht Hc Hl. rewrite (typed_filter cs ls c l) by done. etransitivity; [apply length_filter|].
  unfold regs. clear. induction l as [|p l IH]; [done|]. cbn. destruct (reg_of p); cbn; lia.
Qed.

(** Two lists of registers of class [c] with the same flat indices. *)
Lemma class_list_regs cs c l : Forall (of_class cs c) l -> l = PhysReg <$> filter (of_cls cs c) (regs l).
Proof.
  induction 1 as [|p l (f & -> & _ & Hf) _ IH]; [done|]. rewrite regs_phys, filter_cons_True by done. cbn. by f_equal.
Qed.

(** The free lists are determined, up to their order, by the other places. *)
Lemma free_lists_perm T s s' c l l' : rename_inv T s -> rename_inv T s' -> classes s' = classes s -> renameMaps s' = renameMaps s ->
  historyBuffer s' = historyBuffer s -> freeingInProgress s' = freeingInProgress s -> is_renamed c ->
  freeLists s !! Z.to_nat (class_value c) = Some l -> freeLists s' !! Z.to_nat (class_value c) = Some l' -> l' ≡ₚ l.
Proof.
  intros Hs Hs' Ec Em Eh Ew Hc Hl Hl'. pose proof (ri_perm T s Hs) as P. pose proof (ri_perm T s' Hs') as P'.
  rewrite (classes_length s s' Ec), <- P in P'. unfold owned, places in P'. rewrite Em, Eh, Ew, !regs_app in P'. apply Permutation_app_inv_r in P'.
  rewrite (class_list_regs (classes s) c l) by (by apply (ri_free T s Hs)).
  rewrite (class_list_regs (classes s) c l') by (rewrite <- Ec; by apply (ri_free T s' Hs')).
  pose proof (lists_typed _ _ (inv_lists T s Hs)) as T1. pose proof (lists_typed _ _ (inv_lists T s' Hs')) as T2. rewrite Ec in T2.
  rewrite <- (typed_filter _ _ c l T1 Hc Hl), <- (typed_filter _ _ c l' T2 Hc Hl'), P'. done.
Qed.

(** The entries of class [c] in the maps of all threads. *)
Definition map_entries (c : RegClassType) (maps : list (list (list preg))) : nat :=
  list_sum ((fun ms => length (default [] (ms !! Z.to_nat (class_value c)))) <$> maps).

Lemma maps_count cs maps c : Forall (typed cs) maps -> is_renamed c ->
  (length (filter (of_cls cs c) (regs (concat (concat maps)))) <= map_entries c maps)%nat.
Proof.
  intros Hm Hc. pose proof (class_value_range c (proj1 Hc) (proj2 Hc)) as Hr.
  induction Hm as [|ms maps Hms _ IH]; [done|]. cbn [concat]. rewrite concat_app, regs_app, filter_app, length_app.
  unfold map_entries in *. cbn [fmap list_fmap list_sum fold_right].
  destruct (lookup_lt_is_Some_2 ms (Z.to_nat (class_value c))) as [l El]; [rewrite (proj1 Hms); lia|]. rewrite El. cbn [default].
  pose proof (typed_count cs ms c l Hms Hc El). unfold list_sum in *. cbn in *. lia.
Qed.

(** With nothing in flight, a register is free or mapped. *)
Lemma drained_free T s c l : rename_inv T s -> is_renamed c -> freeLists s !! Z.to_nat (class_value c) = Some l ->
  prevs (concat (historyBuffer s)) = [] -> concat (freeingInProgress s) = [] ->
  (class_count (classes s) c <= length l + map_entries c (renameMaps s))%nat.
Proof.
  intros Hs Hc Hl Hh Hw. rewrite <- class_count_seq. 
  assert (length (classes s) = length (regIds s)) as -> by apply length_fmap. rewrite <- (ri_perm T s Hs).
  unfold owned, places. rewrite Hh, Hw, !app_nil_r, regs_app, filter_app, length_app.
  apply Nat.add_le_mono; [apply typed_count; [by apply lists_typed, (inv_lists T)|done..]|].
  apply maps_count; [|done]. apply Forall_lookup. intros tid ms Hms. by eapply maps_typed, (ri_maps T s Hs).
Qed.

(** ** The initial mapping *)

(** The state after register [p] of class [c] has been taken from the free list
    and entered in the map of a thread where no register was. *)
Lemma map_one T s tid r p l ms : rename_inv T s -> 0 <= tid -> isRenameable r = true -> 0 <= index r -> 
  freeLists s !! Z.to_nat (class_value (classValue r)) = Some (p :: l) ->
  renameMaps s !! Z.to_nat tid = Some ms -> get_reg r ms = Some NullReg -> historyBuffer s !! Z.to_nat tid = Some [] ->
  let s1 := with_free (<[Z.to_nat (class_value (classValue r)) := l]> (freeLists s)) s in
  let s' := with_maps (<[Z.to_nat tid := set_reg r p ms]> (renameMaps s)) s1 in
  getReg (classValue r) s = Ok (p, s1) /\ setEntry tid r p s1 = Ok s' /\ rename_inv T s' /\ p <> NullReg.
Proof.
  intros Hs Ht Hr Hi Hf Hm Hg Hh s1 s'. pose proof (renameable_range r Hr) as Hc. pose proof (is_renameable_renamed r Hr) as Hrc.
  pose proof (ri_free T s Hs _ _ Hrc Hf) as Hpl. apply Forall_cons in Hpl as [Hp Hl]. destruct (ri_maps T s Hs _ _ Hm) as [H7 _].
  destruct (of_class_reg _ _ _ Hp) as (f & Hpf). split; [apply getReg_Ok; [lia|done]|]. split; [exact (setEntry_mapped s1 tid ms r p _ H7 Ht Hm Hr Hi Hg Hp)|].
  split; [|by rewrite Hpf].
  pose proof (ri_threads T s Hs) as (L1 & L2 & L3). pose proof (lookup_lt_Some _ _ _ Hm) as Hlt.
  destruct (lookup_lt_is_Some_2 (freeingInProgress s) (Z.to_nat tid)) as [w Hw]; [lia|].
  assert (Hpl : regs (places s') ≡ₚ regs (places s)).
  { unfold places, s', s1. cbn [with_maps with_free freeLists renameMaps historyBuffer freeingInProgress].
    destruct (concat_upd _ _ _ Hf) as (R1 & F1 & F2). destruct (concat_upd _ _ _ Hm) as (R2 & M1 & M2).
    destruct (set_reg_upd r NullReg p ms Hg) as (R3 & N1 & N2). rewrite F1, M1, F2, M2, !concat_app, N1, N2, !regs_app.
    rewrite Hpf, !regs_phys. cbn [app]. change (regs (NullReg :: R3)) with (regs R3). solve_Permutation. }
  destruct Hs as [Hpm Hcl Hb Hls Hfree Hmaps Hhist Hundo Hfr Hth]. constructor; try done.
  - unfold owned. by rewrite Hpl.
  - cbn. by rewrite length_insert.
  - intros c l' Hc'. cbn. intros E. apply list_lookup_insert_Some in E as [(E & <- & _)|[_ E]]; [|by eapply Hfree].
    apply renamed_index_inj in E as <-; done.
  - intros t' ms' E. cbn in E. apply list_lookup_insert_Some in E as [(<- & <- & _)|[_ E]]; [|by eapply Hmaps].
    apply set_reg_ok; [done|by eapply Hmaps|done].
  - intros t' ms' hs' E Eh. cbn in E, Eh. apply list_lookup_insert_Some in E as [(<- & <- & _)|[_ E]]; [|by eapply Hundo].
    rewrite Hh in Eh. by injection Eh as <-.
  - cbn. by rewrite length_insert.
Qed.

Lemma set_reg_at c i n p ms m : ms !! Z.to_nat (class_value c) = Some m ->
  set_reg (mkRegId c (Z.of_nat i) n) p ms = <[Z.to_nat (class_value c) := <[i := p]> m]> ms.
Proof. intros E. unfold set_reg. cbn. by rewrite E, Nat2Z.id. Qed.

(** The first [i] registers of the class are mapped; the loop maps the rest. *)
Lemma map_class_spec T tid c n i s ms m l : rename_inv T s -> 0 <= tid -> is_renamed c ->
  renameMaps s !! Z.to_nat tid = Some ms -> historyBuffer s !! Z.to_nat tid = Some [] ->
  ms !! Z.to_nat (class_value c) = Some m -> freeLists s !! Z.to_nat (class_value c) = Some l ->
  length m = (i + n)%nat -> NullReg ∉ take i m -> Forall (fun p => p = NullReg) (drop i m) -> (n <= length l)%nat ->
  exists m' s', map_class tid c n (Z.of_nat i) s = Ok s' /\ rename_inv T s' /\ length m' = length m /\ (NullReg ∉ m') /\
    s' = with_maps (<[Z.to_nat tid := <[Z.to_nat (class_value c) := m']> ms]> (renameMaps s))
           (with_free (<[Z.to_nat (class_value c) := drop n l]> (freeLists s)) s).
Proof.
  revert i s ms m l. induction n as [|n IH]; intros i s ms m l Hs Ht Hc Hm Hh Em El Hlen Hfst Hnull Hl.
  { exists m, s. rewrite take_ge in Hfst by lia. rewrite drop_0, (list_insert_id ms), !list_insert_id by done. split_and!; try done. by destruct s. }
  destruct l as [|p l]; [cbn in Hl; lia|]. set (r := mkRegId c (Z.of_nat i) 0).
  assert (Hr : isRenameable r = true) by (destruct Hc; unfold isRenameable; cbn; by destruct c).
  destruct (lookup_lt_is_Some_2 m i) as [q Hq]; [lia|].
  assert (q = NullReg) as -> by (rewrite (drop_S m q i Hq) in Hnull; by apply Forall_cons in Hnull as [? _]).
  assert (Hg : get_reg r ms = Some NullReg) by (unfold get_reg; cbn; by rewrite Em, Nat2Z.id).
  destruct (map_one T s tid r p l ms) as (E1 & E2 & Hs' & Hp); try done; [cbn; lia|].
  cbn [map_class]. cbn [r classValue] in E1, E2, Hs'. rewrite E1, bind_Ok. cbn [fst snd]. fold r. rewrite E2, bind_Ok.
  pose proof (lookup_lt_Some _ _ _ Hm) as Hlt. pose proof (lookup_lt_Some _ _ _ Em) as Hlc. pose proof (lookup_lt_Some _ _ _ El) as Hlf.
  pose proof (set_reg_at c i 0 p ms m Em) as Hset. fold r in Hset. rewrite Hset in *. replace (Z.of_nat i + 1) with (Z.of_nat (S i)) by lia.
  edestruct (IH (S i)) as (m' & s' & E & Hinv & Hlen' & Hn' & Es'); [exact Hs'|done|done|by apply list_lookup_insert_eq|done| | |..].
  - apply list_lookup_insert_eq. done.
  - apply list_lookup_insert_eq. done.
  - rewrite length_insert. lia.
  - rewrite (take_S_r _ _ p) by (apply list_lookup_insert_eq; lia). rewrite take_insert_ge by lia. set_solver.
  - rewrite drop_insert_lt by lia. rewrite (drop_S m NullReg i Hq) in Hnull. by apply Forall_cons in Hnull as [_ ?].
  - cbn in Hl. lia.
  - exists m', s'. rewrite E. split_and!; try done; [by rewrite Hlen', length_insert|]. rewrite Es'.
    cbn. by rewrite !list_insert_insert_eq.
Qed.

(** The map [m] of class [c] is set up, or still empty. *)
Definition map_set (arch : RegClassType -> Z) (ms : list (list preg)) (c : RegClassType) : Prop :=
  exists m, ms !! Z.to_nat (class_value c) = Some m /\ length m = Z.to_nat (arch c) /\ (NullReg ∉ m).
Definition map_empty (arch : RegClassType -> Z) (ms : list (list preg)) (c : RegClassType) : Prop :=
  ms !! Z.to_nat (class_value c) = Some (replicate (Z.to_nat (arch c)) NullReg).
(** At least [n] registers of class [c] are free. *)
Definition free_at_least (s : t) (c : RegClassType) (n : nat) : Prop :=
  exists l, freeLists s !! Z.to_nat (class_value c) = Some l /\ (n <= length l)%nat.

Lemma insert_other {A} c c' (x : A) (l : list A) : is_renamed c -> is_renamed c' -> c <> c' ->
  <[Z.to_nat (class_value c) := x]> l !! Z.to_nat (class_value c') = l !! Z.to_nat (class_value c').
Proof. intros Hc Hc' Hne. apply list_lookup_insert_ne. intros E. apply Hne. by apply renamed_index_inj. Qed.

Lemma map_thread_spec T tid arch cs s ms k : rename_inv T s -> 0 <= tid -> NoDup cs -> Forall is_renamed cs ->
  renameMaps s !! Z.to_nat tid = Some ms -> historyBuffer s !! Z.to_nat tid = Some [] ->
  Forall (map_empty arch ms) cs -> Forall (fun c => free_at_least s c (Z.to_nat (arch c) + k c)) cs ->
  exists ms' fl, let s' := with_maps (<[Z.to_nat tid := ms']> (renameMaps s)) (with_free fl s) in
    map_thread tid arch cs s = Ok s' /\ rename_inv T s' /\ Forall (map_set arch ms') cs /\ Forall (fun c => free_at_least s' c (k c)) cs /\
    forall c, is_renamed c -> (c ∉ cs) -> ms' !! Z.to_nat (class_value c) = ms !! Z.to_nat (class_value c) /\
      fl !! Z.to_nat (class_value c) = freeLists s !! Z.to_nat (class_value c).
Proof.
  revert s ms. induction cs as [|c cs IH]; intros s ms Hs Ht Hnd Hrc Hm Hh He Hf.
  { exists ms, (freeLists s). cbn. rewrite list_insert_id by done. split_and!; try done; by destruct s. }
  apply NoDup_cons in Hnd as [Hni Hnd]. apply Forall_cons in Hrc as [Hc Hrc]. apply Forall_cons in He as [He Hes].
  apply Forall_cons in Hf as [(l & El & Hl) Hfs].
  destruct (map_class_spec T tid c (Z.to_nat (arch c)) 0 s ms (replicate (Z.to_nat (arch c)) NullReg) l)
    as (m' & s1 & E & Hs1 & Hlen & Hnn & Es1); try done; [by rewrite length_replicate|set_solver|by apply Forall_replicate|lia|].
  rewrite length_replicate in Hlen. cbn [map_thread]. change (Z.of_nat 0) with 0 in E. rewrite E, bind_Ok.
  pose proof (lookup_lt_Some _ _ _ Hm) as Hlt. pose proof (lookup_lt_Some _ _ _ He) as Hlc. pose proof (lookup_lt_Some _ _ _ El) as Hlf.
  assert (Hne : forall c', c' ∈ cs -> c <> c') by (intros c' Hin ->; done).
  assert (Hrc' : forall c', c' ∈ cs -> is_renamed c') by (by apply Forall_forall).
  destruct (IH s1 (<[Z.to_nat (class_value c) := m']> ms)) as (ms' & fl & E' & Hs' & Hset & Hfree & Hother); try done.
  - rewrite Es1. by apply list_lookup_insert_eq.
  - by rewrite Es1.
  - apply Forall_forall. intros c' Hin. unfold map_empty. rewrite insert_other by auto. by eapply Forall_forall in Hes.
  - apply Forall_forall. intros c' Hin. unfold free_at_least. rewrite Es1. cbn. rewrite insert_other by auto. by eapply Forall_forall in Hfs.
  - exists ms', fl. rewrite Es1 in E', Hs', Hfree. cbn in E', Hs', Hfree. rewrite list_insert_insert_eq in E', Hs', Hfree.
    rewrite Es1. cbn. rewrite E'. split_and!; [done|exact Hs'| | |].
    + constructor; [|done]. exists m'. destruct (Hother c Hc Hni) as [-> _]. rewrite list_lookup_insert_eq by done. done.
    + constructor; [|done]. exists (drop (Z.to_nat (arch c)) l). cbn. destruct (Hother c Hc Hni) as [_ ->]. rewrite Es1. cbn.
      rewrite list_lookup_insert_eq by done. split; [done|]. rewrite length_drop. lia.
    + intros c' Hc' Hnin. apply not_elem_of_cons in Hnin as [Hcc Hnin]. destruct (Hother c' Hc' Hnin) as [-> ->].
      rewrite Es1. cbn. by rewrite !insert_other.
Qed.

(** Every architectural register of the thread has a physical register. *)
Definition maps_set (arch : RegClassType -> Z) (ms : list (list preg)) : Prop := Forall (map_set arch ms) renamed_classes.

Lemma null_maps_empty arch : Forall (map_empty arch (null_maps arch)) renamed_classes.
Proof. by repeat constructor. Qed.

(** The parts of the state that the initial mapping does not touch. *)
Definition same_rest (s s' : t) : Prop :=
  regIds s' = regIds s /\ numMiscRegs s' = numMiscRegs s /\ historyBuffer s' = historyBuffer s /\ freeingInProgress s' = freeingInProgress s.

Lemma map_threads_spec T arch n t0 s k : rename_inv T s -> (t0 + n <= T)%nat -> historyBuffer s = replicate T [] ->
  (forall t, (t0 <= t < t0 + n)%nat -> renameMaps s !! t = Some (null_maps arch)) ->
  Forall (fun c => free_at_least s c (n * Z.to_nat (arch c) + k c)) renamed_classes ->
  exists s', map_threads arch n (Z.of_nat t0) s = Ok s' /\ rename_inv T s' /\ same_rest s s' /\
    (forall t, (t0 <= t < t0 + n)%nat -> exists ms, renameMaps s' !! t = Some ms /\ maps_set arch ms) /\
    (forall t, (t < t0 \/ t0 + n <= t)%nat -> renameMaps s' !! t = renameMaps s !! t) /\
    Forall (fun c => free_at_least s' c (k c)) renamed_classes.
Proof.
  revert t0 s. induction n as [|n IH]; intros t0 s Hs Ht Hh Hm Hf.
  { exists s. split_and!; try done; intros t Hlt; lia. }
  destruct (map_thread_spec T (Z.of_nat t0) arch renamed_classes s (null_maps arch) (fun c => n * Z.to_nat (arch c) + k c)%nat)
    as (ms' & fl & E & Hs' & Hset & Hfree & _); try done.
  - lia.
  - unfold renamed_classes. repeat constructor; set_solver.
  - by repeat constructor.
  - rewrite Nat2Z.id. apply Hm. lia.
  - rewrite Nat2Z.id, Hh. apply lookup_replicate_2. lia.
  - apply null_maps_empty.
  - eapply Forall_impl; [exact Hf|]. intros c (l & El & Hl). exists l. split; [done|lia].
  - rewrite Nat2Z.id in *. set (s1 := with_maps _ _) in *. destruct (IH (S t0) s1) as (s' & E' & Hs2 & Hrest & Hin & Hout & Hfree'); try done; [lia| |].
    { intros t Hlt. cbn. rewrite list_lookup_insert_ne by lia. apply Hm. lia. }
    exists s'. cbn [map_threads]. rewrite E, bind_Ok. replace (Z.of_nat t0 + 1) with (Z.of_nat (S t0)) by lia.
    split_and!; try done.
    + intros t Hlt. destruct (decide (t = t0)) as [->|Hne]; [|apply Hin; lia]. exists ms'. split; [|done].
      rewrite Hout by lia. cbn. apply list_lookup_insert_eq. rewrite (proj1 (ri_threads T s Hs)). lia.
    + intros t Hlt. rewrite Hout by lia. cbn. apply list_lookup_insert_ne. lia.
Qed.

Lemma class_ids_count c' n c : length (filter (fun x => x = c) (p_class <$> class_ids c' n)) = if decide (c' = c) then Z.to_nat n else 0%nat.
Proof.
  assert (E : p_class <$> class_ids c' n = replicate (Z.to_nat n) c').
  { unfold class_ids. rewrite <- list_fmap_compose. generalize 0%nat. induction (Z.to_nat n) as [|m IH]; intros i; [done|].
    cbn. f_equal. apply IH. }
  rewrite E. case_decide as Hc.
  - subst. rewrite filter_all by (by apply Forall_replicate). apply length_replicate.
  - rewrite filter_none; [done|]. intros x Hx. apply elem_of_replicate in Hx as [-> _]. done.
Qed.

Lemma phys_count phys c : is_renamed c -> class_count (p_class <$> phys_ids phys) c = Z.to_nat (phys c).
Proof.
  intros [H1 H2]. unfold class_count, phys_ids, renamed_classes. cbn [fmap list_fmap concat].
  rewrite !fmap_app, !filter_app, !length_app, !class_ids_count. destruct c; try done; cbn; lia.
Qed.

(** A configuration that the constructor of the CPU accepts. *)
Definition config_ok (T : nat) (phys arch : RegClassType -> Z) : Prop :=
  Forall (fun c => 0 <= arch c /\ 0 <= phys c /\ Z.of_nat T * arch c <= phys c) renamed_classes.

Lemma null_regs T arch : regs (concat (concat (replicate T (null_maps arch)))) = [].
Proof.
  apply regs_null, Forall_concat, Forall_concat, Forall_replicate. unfold null_maps. apply Forall_fmap, Forall_forall. intros c _. by apply Forall_replicate.
Qed.

(** The maps of a thread have the sizes of the register classes. *)
Definition sized (arch : RegClassType -> Z) (ms : list (list preg)) : Prop :=
  (length <$> ms) = (fun c => Z.to_nat (arch c)) <$> renamed_classes.

Lemma maps_set_sized arch ms : length ms = 7%nat -> maps_set arch ms -> sized arch ms.
Proof.
  intros H7 Hset. unfold sized. apply list_eq. intros i. rewrite !list_lookup_fmap.
  destruct (decide (i < 7)%nat) as [Hi|Hi].
  - destruct (class_at i Hi) as (c & Hc & <-). pose proof (elem_renamed c Hc) as Hin. unfold maps_set in Hset. rewrite Forall_forall in Hset.
    destruct (Hset c Hin) as (m & -> & Hl & _). destruct Hc. cbn. rewrite Hl. destruct c; done.
  - rewrite !lookup_ge_None_2; [done|cbn; lia|lia].
Qed.

Lemma maps_set_mapped arch ms r : maps_set arch ms -> isRenameable r = true -> 0 <= index r < arch (classValue r) -> mapped r ms.
Proof.
  intros Hset Hr Hi. pose proof (elem_renamed _ (is_renameable_renamed r Hr)) as Hin. unfold maps_set in Hset. rewrite Forall_forall in Hset.
  destruct (Hset _ Hin) as (m & Em & Hl & Hn). destruct (lookup_lt_is_Some_2 m (Z.to_nat (index r))) as [p Hp]; [lia|].
  exists p. unfold get_reg. rewrite Em. split; [done|]. intros ->. apply Hn. by eapply list_elem_of_lookup_2.
Qed.

Lemma init_free_count T phys arch s c : init (Z.of_nat T) phys arch = Ok s -> is_renamed c -> free_at_least s c (Z.to_nat (phys c)).
Proof.
  intros E Hc. destruct (init_inv T phys arch) as (s0 & E0 & Hs & Hids & _ & Hm & Hh & Hw). rewrite E in E0. injection E0 as <-.
  pose proof (class_value_range c (proj1 Hc) (proj2 Hc)).
  destruct (lookup_lt_is_Some_2 (freeLists s) (Z.to_nat (class_value c))) as [l El]; [rewrite (ri_lists T s Hs); lia|].
  exists l. split; [done|]. rewrite <- (phys_count phys c Hc), <- Hids. fold (classes s). rewrite <- class_count_seq.
  assert (length (classes s) = length (regIds s)) as -> by apply length_fmap. rewrite <- (ri_perm T s Hs).
  unfold owned, places. rewrite Hh, Hw, Hm, !concat_nils, !regs_app, null_regs. cbn. rewrite app_nil_r.
  apply typed_count; [|done..]. by apply lists_typed, (inv_lists T).
Qed.

(** After construction the invariant holds, nothing is in flight and the active
    threads have all their registers. *)
Lemma construct_spec T active phys arch : (active <= T)%nat -> config_ok T phys arch ->
  forallb (enough_phys (Z.of_nat T) phys arch) [IntRegClass; FloatRegClass; VecRegClass; VecPredRegClass; MatRegClass; CCRegClass] = true ->
  exists s, construct (Z.of_nat T) (Z.of_nat active) phys arch = Ok s /\ rename_inv T s /\ regIds s = phys_ids phys /\
    numMiscRegs s = arch MiscRegClass /\ historyBuffer s = replicate T [] /\ freeingInProgress s = replicate T [] /\ Forall (sized arch) (renameMaps s) /\
    forall tid, (tid < active)%nat -> exists ms, renameMaps s !! tid = Some ms /\ maps_set arch ms.
Proof.
  intros Ha Hcfg Hen. unfold construct. rewrite Hen. cbn [check rbind].
  destruct (init_inv T phys arch) as (s0 & E0 & Hs & Hids & Hmisc & Hm & Hh & Hw). rewrite E0, bind_Ok, Nat2Z.id.
  assert (Hnull : forall t, (t < T)%nat -> renameMaps s0 !! t = Some (null_maps arch)) by (intros t Ht; rewrite Hm; by apply lookup_replicate_2).
  destruct (map_threads_spec T arch active 0 s0 (fun _ => 0%nat)) as (s & E & Hs' & (R1 & R2 & R3 & R4) & Hin & Hout & _); try done.
  - intros t Ht. apply Hnull. lia.
  - apply Forall_forall. intros c Hc. unfold config_ok in Hcfg. rewrite Forall_forall in Hcfg. destruct (Hcfg c Hc) as (H1 & H2 & H3).
    assert (Hr : is_renamed c) by (assert (Hall : Forall is_renamed renamed_classes) by (by repeat constructor); rewrite Forall_forall in Hall; auto).
    destruct (init_free_count T phys arch s0 c E0 Hr) as (l & El & Hl). exists l. split; [done|]. nia.
  - exists s. split_and!; try done; try congruence; [|intros tid Ht; apply Hin; lia].
    apply Forall_lookup. intros t ms Hms. destruct (decide (t < active)%nat) as [Ht|Ht].
    + destruct (Hin t) as (ms' & E1 & Hset); [lia|]. rewrite Hms in E1. injection E1 as <-. apply maps_set_sized; [|done]. by destruct (ri_maps T s Hs' _ _ Hms).
    + pose proof (lookup_lt_Some _ _ _ Hms) as Hlt. rewrite (proj1 (ri_threads T s Hs')) in Hlt. rewrite Hout, Hnull in Hms by lia.
      injection Hms as <-. unfold sized, null_maps. rewrite <- list_fmap_compose. apply list_fmap_ext. intros i c _. apply length_replicate.
Qed.
