(* ===== verification/RenameCorrect.v ===== *)
(** * Register renaming: the theorems

    The states that a CPU reaches by renaming, squashing, committing and
    releasing instructions of its threads in any order, what holds in all of them,
    and a small configuration on which the theorems are evaluated. *)

From S2P Require Import Prelude Bits Tables Rename RenameLaws RenameRecovery RenameCount.
Import Rename.Rename.

(** ** Reading a register that has been renamed *)
Lemma rename_prev tid r s new prev s1 ms : rename tid r s = Ok (new, prev, s1) -> isRenameable r = true ->
  renameMaps s !! Z.to_nat tid = Some ms -> 0 <= index r /\ get_reg r ms = Some prev.
Proof.
  unfold rename, simple_rename. intros E Hr Hm. rewrite Hr in E. cbn [negb] in E. ok_inv.
  apply vget_inv in E0 as [Ht Hm']. rewrite Hm in Hm'. injection Hm' as <-. apply vget_inv in E1 as [_ Em]. apply vget_inv in E2 as [Hi Ep].
  assert (r2 = prev) as <-. { destruct (0 <? p_pinnedWrites r3); ok_inv; by simplify_eq. }
  split; [lia|]. unfold get_reg. by rewrite Em.
Qed.

(** After a destination has been renamed, reading it gives the new register. *)
Lemma dest_lookup T tid sn r s new prev s1 s2 s' : rename_inv T s -> rename tid r s = Ok (new, prev, s1) ->
  unsetReg new s1 = Ok s2 -> push_history tid (mkHistory sn r new prev) s2 = Ok s' -> lookup tid r s' = Ok new.
Proof.
  intros Hs E1 E2 E3. destruct (dest_partial T tid sn r s new prev s1 s2 s' Hs E1 E2 E3) as [Hs' Hby].
  destruct Hby as (ms & ms' & hs & Ht & Hm & Hh & Em & Eh & _ & _ & Ei & Hu & _).
  destruct (isRenameable r) eqn:Hr.
  - destruct (rename_prev tid r s new prev s1 ms E1 Hr Hm) as [Hi Hg].
    assert (Hm' : renameMaps s' !! Z.to_nat tid = Some ms') by (rewrite Em; apply list_lookup_insert_eq; by eapply lookup_lt_Some).
    assert (Hh' : historyBuffer s' !! Z.to_nat tid = Some (mkHistory sn r new prev :: hs)) by (rewrite Eh; apply list_lookup_insert_eq; by eapply lookup_lt_Some).
    apply (lookup_mapped tid s' ms'); try done. destruct (ri_undo T s' Hs' _ _ _ Hm' Hh') as [Hnew _]. cbn [undo] in Hu. unfold undo1 in Hu.
    destruct (decide (undone (mkHistory sn r new prev))) as [Hd|Hd]; [by apply Hnew|]. unfold undone in Hd. cbn in Hd, Hu.
    apply dec_stable in Hd. congruence.
  - unfold rename in E1. rewrite Hr in E1. cbn [negb] in E1. ok_inv. simplify_eq. match goal with H : lookup _ _ _ = Ok _ |- _ => revert H end. unfold lookup, getMiscRegId. rewrite Ei.
    unfold isRenameable in Hr. by destruct (classValue r).
Qed.

Lemma dests_result flatten T tid sn dests s ps s' : rename_inv T s -> 0 <= tid < Z.of_nat T -> renameDestRegs flatten tid sn dests s = Ok (ps, s') ->
  length ps = length dests /\ forall r p, last dests = Some r -> last ps = Some p -> lookup tid (flat_dest flatten r) s' = Ok p.1.
Proof.
  revert s ps. induction dests as [|r dests IH]; intros s ps Hs Ht E; cbn [renameDestRegs] in E; [by simplify_eq|].
  ok_inv. destruct r0 as [[new prev] s1]. ok_inv. simplify_eq. destruct r2 as [ps2 s3]. cbn [fst snd] in *.
  destruct (dest_partial T tid sn _ s new prev s1 r0 r1 Hs E0 E1 E2) as [Hs1 _]. destruct (IH r1 ps2 Hs1 Ht E3) as [Hl Hlast].
  split; [cbn; lia|]. intros r' p' Hr Hp. destruct dests as [|d dests].
  - destruct ps2; [|done]. injection Hr as <-. injection Hp as <-. cbn in E3. simplify_eq. exact (dest_lookup T tid sn _ s _ prev s1 r0 _ Hs E0 E1 E2).
  - destruct ps2 as [|q ps2]; [done|]. by apply Hlast.
Qed.

(** ** Several instructions of a thread, in order *)
Fixpoint rename_insts (flatten : RegId -> RegId) (tid : Z) (insts : list (Z * list RegId)) (s : t) : result t :=
  match insts with
  | [] => Ok s
  | (sn, dests) :: insts => let! r := renameDestRegs flatten tid sn dests s in rename_insts flatten tid insts r.2
  end.

Lemma insts_partial flatten T tid insts s s' (P : Z -> Prop) : rename_inv T s -> 0 <= tid < Z.of_nat T -> Forall (fun i => P i.1) insts ->
  rename_insts flatten tid insts s = Ok s' ->
  exists hn, rename_inv T s' /\ renamed_by tid hn s s' /\ Forall (fun h => P (instSeqNum h)) hn.
Proof.
  revert s. induction insts as [|[sn dests] insts IH]; intros s Hs Ht Hp E; cbn [rename_insts] in E.
  - injection E as <-. exists []. split; [done|]. split; [|constructor]. pose proof (ri_threads T s Hs) as (L1 & L2 & _).
    destruct (lookup_lt_is_Some_2 (renameMaps s) (Z.to_nat tid)) as [ms Hm]; [lia|].
    destruct (lookup_lt_is_Some_2 (historyBuffer s) (Z.to_nat tid)) as [hb Hh]; [lia|]. eapply renamed_by_nil; [lia|done..].
  - ok_inv. destruct r as [ps s1]. apply Forall_cons in Hp as [Hp Hps]. cbn [fst snd] in *.
    destruct (dests_partial flatten T tid sn dests s ps s1 Hs Ht E0) as (h1 & Hs1 & Hb1 & Hn1 & _).
    destruct (IH s1 Hs1 Ht Hps E) as (h2 & Hs2 & Hb2 & Hn2). exists (h2 ++ h1). split; [done|]. split; [exact (renamed_by_app _ _ _ _ _ _ Hb1 Hb2)|].
    apply Forall_app. split; [done|]. eapply Forall_impl; [exact Hn1|]. intros h <-. done.
Qed.

(** The split of a history at a sequence number. *)
Lemma split_unique sq (hn hb sq' rest : list RenameHistory) : hn ++ hb = sq' ++ rest -> Forall (fun h => sq < instSeqNum h) hn ->
  Forall (fun h => instSeqNum h <= sq) hb -> Forall (fun h => sq < instSeqNum h) sq' -> (forall h, head rest = Some h -> instSeqNum h <= sq) ->
  sq' = hn /\ rest = hb.
Proof.
  revert sq'. induction hn as [|h hn IH]; intros sq' E H1 H2 H3 H4.
  - destruct sq' as [|h' sq']; [done|]. cbn in E. subst hb. apply Forall_cons in H2 as [H2 _]. apply Forall_cons in H3 as [H3 _]. lia.
  - apply Forall_cons in H1 as [H1 H1s]. destruct sq' as [|h' sq'].
    + cbn in E. subst rest. specialize (H4 h eq_refl). lia.
    + injection E as <- E. apply Forall_cons in H3 as [_ H3]. destruct (IH sq' E H1s H2 H3 H4) as [-> ->]. done.
Qed.

(** ** Draining *)

(** Squash a thread to [sq] and release the registers; then commit up to [M]. *)
Definition squash_out (sq tid : Z) (s : t) : result t :=
  let! s := doSquash sq tid s in freeSquashed tid s.
Definition drain (wraps : bool) (sq M tid : Z) (s : t) : result t :=
  let! s := squash_out sq tid s in removeFromHistory wraps M tid s.
Fixpoint all_threads (op : Z -> t -> result t) (n : nat) (s : t) : result t :=
  match n with O => Ok s | S n => let! s := all_threads op n s in op (Z.of_nat n) s end.

(** Nothing of the thread is in flight any more. *)
Definition emptied (tid : Z) (s s' : t) : Prop :=
  historyBuffer s' = <[Z.to_nat tid := []]> (historyBuffer s) /\ freeingInProgress s' = <[Z.to_nat tid := []]> (freeingInProgress s).

Lemma squash_out_spec T sq tid s hb : rename_inv T s -> 0 <= tid < Z.of_nat T -> historyBuffer s !! Z.to_nat tid = Some hb ->
  exists sq' rest s1 s', hb = sq' ++ rest /\ (forall h, head rest = Some h -> instSeqNum h <= sq) /\
    doSquash sq tid s = Ok s1 /\ freeSquashed tid s1 = Ok s' /\ rename_inv T s' /\
    historyBuffer s' = <[Z.to_nat tid := rest]> (historyBuffer s) /\ freeingInProgress s' = <[Z.to_nat tid := []]> (freeingInProgress s).
Proof.
  intros Hs Ht Hh. pose proof (ri_threads T s Hs) as (_ & L2 & L3).
  destruct (lookup_lt_is_Some_2 (freeingInProgress s) (Z.to_nat tid)) as [l Hl]; [lia|].
  destruct (doSquash_spec T sq tid s hb Hs Ht Hh) as (sq' & rest & s1 & -> & _ & Hr & E1 & Hs1 & [_ B2 B3 _]). specialize (B3 l Hl).
  destruct (freeSquashed_spec T tid s1 (l ++ news sq') Hs1 Ht) as (fl & E2 & _ & Hs2); [rewrite B3; apply list_lookup_insert_eq; lia|].
  eexists sq', rest, s1, _. split_and!; [done|exact Hr|done|exact E2|exact Hs2|exact B2|]. cbn. by rewrite B3, list_insert_insert_eq.
Qed.

Lemma drain_spec T sq M tid s hb : rename_inv T s -> 0 <= tid < Z.of_nat T -> historyBuffer s !! Z.to_nat tid = Some hb ->
  Forall (fun h => instSeqNum h <= M) hb ->
  exists s1 s2 s', doSquash sq tid s = Ok s1 /\ freeSquashed tid s1 = Ok s2 /\ removeFromHistory true M tid s2 = Ok s' /\ emptied tid s s'.
Proof.
  intros Hs Ht Hh HM. pose proof (ri_threads T s Hs) as (_ & L2 & L3).
  destruct (squash_out_spec T sq tid s hb Hs Ht Hh) as (sq' & rest & s1 & s2 & -> & _ & E1 & E2 & Hs2 & Eh & Ew).
  assert (Hh2 : historyBuffer s2 !! Z.to_nat tid = Some rest) by (rewrite Eh; apply list_lookup_insert_eq; lia).
  destruct (removeFromHistory_spec true T M tid s2 rest Hs2 Ht Hh2) as (cm & rest' & fl' & -> & _ & Hlast & E3 & _).
  exists s1, s2. eexists. split_and!; [done|done|exact E3|]. split; [|exact Ew]. cbn.
  assert (rest' = []) as ->.
  { destruct rest' as [|h rest' _] using rev_ind; [done|]. specialize (Hlast h (last_snoc _ _)). apply Forall_app in HM as [_ HM].
    apply Forall_app in HM as [HM _]. apply Forall_app in HM as [_ HM]. apply Forall_cons in HM as [HM _]. lia. }
  by rewrite Eh, list_insert_insert_eq.
Qed.

Lemma sized_entries arch maps c : is_renamed c -> Forall (sized arch) maps -> map_entries c maps = (length maps * Z.to_nat (arch c))%nat.
Proof.
  intros Hc Hm. induction Hm as [|ms maps Hms _ IH]; [done|]. unfold map_entries in *. cbn [fmap list_fmap list_sum fold_right length].
  assert (Hl : length (default [] (ms !! Z.to_nat (class_value c))) = Z.to_nat (arch c)).
  { unfold sized in Hms. apply (f_equal (fun l => l !! Z.to_nat (class_value c))) in Hms. rewrite !list_lookup_fmap in Hms.
    assert (renamed_classes !! Z.to_nat (class_value c) = Some c) as Ec by (destruct Hc, c; done). rewrite Ec in Hms.
    destruct (ms !! Z.to_nat (class_value c)) as [m|]; [|done]. by injection Hms. }
  rewrite Hl. unfold list_sum in IH. cbn. lia.
Qed.

Lemma canRename_true T dests s : rename_inv T s ->
  Forall (fun c => free_at_least s c (Z.to_nat (numDestRegs c dests))) renamed_classes -> canRename dests s = Ok true.
Proof.
  intros Hs. assert (Hrc : Forall is_renamed renamed_classes) by (by repeat constructor). revert Hrc.
  unfold canRename. generalize renamed_classes as cs. induction cs as [|c cs IH]; intros Hrc Hf; [done|].
  apply Forall_cons in Hrc as [Hc Hrc]. apply Forall_cons in Hf as [(l & El & Hl) Hf].
  pose proof (class_value_range c (proj1 Hc) (proj2 Hc)) as Hr. cbn [can_rename_loop]. unfold numFreeRegs.
  rewrite (vget_lookup _ _ _ (proj1 Hr) El), !bind_Ok. destruct (Z.ltb_spec (Z.of_nat (length l)) (numDestRegs c dests)); [lia|]. by apply IH.
Qed.

Lemma concat_all_nil {A} (l : list (list A)) : (forall i x, l !! i = Some x -> x = []) -> concat l = [].
Proof.
  induction l as [|x l IH]; intros Hl; [done|]. cbn. rewrite (Hl 0%nat x eq_refl). apply IH. intros i y Hy. by apply (Hl (S i)).
Qed.

Section Reachable.
Context (wraps : bool) (flatten : RegId -> RegId) (T active : nat) (phys arch : RegClassType -> Z).

(** The states of the rename stage: any interleaving, over the threads, of
    renaming, write back, squash, commit and the end of a squash; [wraps] says
    what the decrement of a list iterator at [begin()] does in [removeFromHistory]. *)
Inductive reachable : t -> Prop :=
| reach_construct s : construct (Z.of_nat T) (Z.of_nat active) phys arch = Ok s -> reachable s
| reach_rename tid sn dests ps s s' : reachable s -> 0 <= tid < Z.of_nat T ->
    renameDestRegs flatten tid sn dests s = Ok (ps, s') -> reachable s'
| reach_ready p s s' : reachable s -> setReg p s = Ok s' -> reachable s'
| reach_squash sn tid s s' : reachable s -> 0 <= tid < Z.of_nat T -> doSquash sn tid s = Ok s' -> reachable s'
| reach_commit sn tid s s' : reachable s -> 0 <= tid < Z.of_nat T -> removeFromHistory wraps sn tid s = Ok s' -> reachable s'
| reach_release tid s s' : reachable s -> 0 <= tid < Z.of_nat T -> freeSquashed tid s = Ok s' -> reachable s'.

(** What holds in all of them. *)
Record stage_inv (s : t) : Prop := {
  si_inv : rename_inv T s;
  si_classes : classes s = p_class <$> phys_ids phys;
  si_misc : numMiscRegs s = arch MiscRegClass;
  si_sized : Forall (sized arch) (renameMaps s);
  si_mapped tid ms r : (tid < active)%nat -> renameMaps s !! tid = Some ms -> isRenameable r = true ->
    0 <= index r < arch (classValue r) -> mapped r ms;
}.

Lemma insert_lookup_cases {A} (l : list A) i x j y : <[i := x]> l !! j = Some y -> (j = i /\ y = x) \/ (j <> i /\ l !! j = Some y).
Proof. intros E. apply list_lookup_insert_Some in E as [(<- & <- & _)|[Hne E]]; auto. Qed.

(** The maps of thread [tid] change, keeping their sizes and mapped registers. *)
Lemma stage_maps s s' tid ms ms' : stage_inv s -> rename_inv T s' -> classes s' = classes s -> numMiscRegs s' = numMiscRegs s ->
  renameMaps s !! tid = Some ms -> renameMaps s' = <[tid := ms']> (renameMaps s) -> (length <$> ms') = (length <$> ms) ->
  (forall r, isRenameable r = true -> mapped r ms -> mapped r ms') -> stage_inv s'.
Proof.
  intros [_ Hc Hi Hsz Hm] Hs' Ec Ei Ems Em Hsh Hmp. constructor; [done|congruence..| |].
  - rewrite Em. apply Forall_insert; [done|]. unfold sized. rewrite Hsh. by eapply Forall_lookup_1 in Hsz.
  - intros t' ms0 r Ht E Hr Hx. rewrite Em in E. apply insert_lookup_cases in E as [[-> ->]|[_ E]]; [|by eapply Hm].
    apply Hmp; [done|]. by eapply Hm.
Qed.

Lemma stage_same_maps s s' : stage_inv s -> rename_inv T s' -> classes s' = classes s -> numMiscRegs s' = numMiscRegs s ->
  renameMaps s' = renameMaps s -> stage_inv s'.
Proof. intros [_ Hc Hi Hsz Hm] Hs' Ec Ei Em. constructor; [done|congruence..| |]; rewrite Em; done. Qed.

Lemma setReg_core p s s' : setReg p s = Ok s' -> same_core s s'.
Proof.
  unfold setReg, sb_write. intros E. ok_inv. destruct r; [by injection E as <-|]. ok_inv. subst s'.
  apply vset_inv in E3 as [_ ->]. constructor; try done. cbn. by rewrite length_insert.
Qed.

(** Undoing entries whose registers are of their class keeps registers mapped. *)
Lemma undo_mapped cs hs ms r : Forall (hist_ok cs) hs -> isRenameable r = true -> mapped r ms -> mapped r (undo hs ms).
Proof.
  revert ms. induction hs as [|h hs IH]; intros ms Hh Hr Hm; [done|]. apply Forall_cons in Hh as [Hh Hhs]. cbn [undo]. apply IH; [done..|].
  unfold undo1. destruct (decide (undone h)) as [Hu|]; [|done]. destruct (Hh Hu) as (Hr' & _ & _ & (f & -> & _)). by apply mapped_set.
Qed.

Lemma thread_lists s tid : rename_inv T s -> 0 <= tid < Z.of_nat T -> exists ms hb l,
  renameMaps s !! Z.to_nat tid = Some ms /\ historyBuffer s !! Z.to_nat tid = Some hb /\ freeingInProgress s !! Z.to_nat tid = Some l.
Proof.
  intros Hs Ht. pose proof (ri_threads T s Hs) as (L1 & L2 & L3).
  destruct (lookup_lt_is_Some_2 (renameMaps s) (Z.to_nat tid)) as [ms Hm]; [lia|].
  destruct (lookup_lt_is_Some_2 (historyBuffer s) (Z.to_nat tid)) as [hb Hh]; [lia|].
  destruct (lookup_lt_is_Some_2 (freeingInProgress s) (Z.to_nat tid)) as [l Hl]; [lia|]. by exists ms, hb, l.
Qed.

Lemma squash_stage sn tid s s' : stage_inv s -> 0 <= tid < Z.of_nat T -> doSquash sn tid s = Ok s' -> stage_inv s'.
Proof.
  intros Hs Ht E. destruct (thread_lists s tid (si_inv s Hs) Ht) as (ms & hb & l & Hm & Hh & Hl).
  destruct (doSquash_spec T sn tid s hb (si_inv s Hs) Ht Hh) as (sq & rest & s0 & -> & _ & _ & E0 & Hinv & [B1 B2 B3 (B4 & B5 & _)]).
  rewrite E in E0. injection E0 as <-.
  eapply (stage_maps s s' _ ms (undo sq ms)); try done; [unfold classes; by rewrite B4|by apply B1|apply undo_shape|].
  intros r Hr Hmp. eapply undo_mapped; [|done..]. pose proof (ri_hist T s (si_inv s Hs) _ _ Hh) as Hok. by apply Forall_app in Hok as [Hok _].
Qed.

Lemma commit_stage sn tid s s' : stage_inv s -> 0 <= tid < Z.of_nat T -> removeFromHistory wraps sn tid s = Ok s' -> stage_inv s'.
Proof.
  intros Hs Ht E. destruct (thread_lists s tid (si_inv s Hs) Ht) as (ms & hb & l & Hm & Hh & Hl).
  destruct (removeFromHistory_spec wraps T sn tid s hb (si_inv s Hs) Ht Hh) as (cm & rest & fl & _ & _ & _ & E0 & _ & Hinv).
  rewrite E in E0. destruct (wraps || bool_decide (rest <> [])); [|done]. injection E0 as ->. by eapply (stage_same_maps s).
Qed.

Lemma release_stage tid s s' : stage_inv s -> 0 <= tid < Z.of_nat T -> freeSquashed tid s = Ok s' -> stage_inv s'.
Proof.
  intros Hs Ht E. destruct (thread_lists s tid (si_inv s Hs) Ht) as (ms & hb & l & Hm & Hh & Hl).
  destruct (freeSquashed_spec T tid s l (si_inv s Hs) Ht Hl) as (fl & E0 & _ & Hinv).
  rewrite E in E0. injection E0 as ->. by eapply (stage_same_maps s).
Qed.

Lemma rename_stage tid sn dests s ps s' : stage_inv s -> 0 <= tid < Z.of_nat T -> renameDestRegs flatten tid sn dests s = Ok (ps, s') -> stage_inv s'.
Proof.
  intros Hs Ht E. destruct (dests_partial flatten T tid sn dests s ps s' (si_inv s Hs) Ht E) as (hn & Hinv & Hby & _).
  destruct Hby as (ms & ms' & hs & _ & Hm & _ & Em & _ & _ & Ec & Ei & _ & Hsh & Hmp & _). by eapply (stage_maps s s' _ ms ms').
Qed.

Hypothesis threads_fit : (active <= T)%nat.
Hypothesis config : config_ok T phys arch.

Lemma construct_stage s : construct (Z.of_nat T) (Z.of_nat active) phys arch = Ok s -> stage_inv s.
Proof.
  intros E. assert (Hen : forallb (enough_phys (Z.of_nat T) phys arch) [IntRegClass; FloatRegClass; VecRegClass; VecPredRegClass; MatRegClass; CCRegClass] = true).
  { unfold construct in E. ok_inv. done. }
  destruct (construct_spec T active phys arch threads_fit config Hen) as (s0 & E0 & Hs & Hids & Hmisc & _ & _ & Hsz & Hset).
  rewrite E in E0. injection E0 as <-. constructor; try done; [unfold classes; by rewrite Hids|].
  intros tid ms r Ht Hm Hr Hx. destruct (Hset tid Ht) as (ms' & E' & Hms). rewrite Hm in E'. injection E' as <-. by eapply maps_set_mapped.
Qed.

Lemma reachable_stage s : reachable s -> stage_inv s.
Proof.
  induction 1; eauto using construct_stage, rename_stage, squash_stage, commit_stage, release_stage.
  match goal with E : setReg _ _ = Ok _ |- _ => apply setReg_core in E end.
  eapply stage_same_maps; [done| |by apply sc_classes|by apply sc_misc|by apply sc_maps]. eapply same_core_inv; [done|]. by apply si_inv.
Qed.

(** ** Conservation and types *)

(** C2: In every state that the rename stage reaches, by any interleaving of
    renaming, squash, commit and release over the threads, the registers in the
    free lists, in the rename maps, kept by the history buffers and waiting for
    the end of a squash are, together, all physical registers, each exactly once:
    none is leaked and none is handed out twice. *)
Theorem rename_registers_conserved s : reachable s ->
  owned s ≡ₚ seqZ 0 (Z.of_nat (length (phys_ids phys))).
Proof.
  intros Hs. apply reachable_stage in Hs as [Hinv Hc _ _ _]. rewrite (ri_perm T s Hinv).
  apply (f_equal length) in Hc. unfold classes in Hc. rewrite !length_fmap in Hc. by rewrite Hc.
Qed.

(** C31: In every reachable state the free list of a class, the rename map of a
    class and the history entries of its registers hold registers of that class
    only, and every architectural register of an active thread is mapped. *)
Theorem rename_registers_typed s : reachable s -> let cs := p_class <$> phys_ids phys in
  (forall c l, is_renamed c -> freeLists s !! Z.to_nat (class_value c) = Some l -> Forall (of_class cs c) l) /\
  (forall tid hs h, historyBuffer s !! tid = Some hs -> h ∈ hs -> newPhysReg h <> prevPhysReg h ->
    of_class cs (classValue (archReg h)) (newPhysReg h) /\ of_class cs (classValue (archReg h)) (prevPhysReg h)) /\
  (forall tid r, (tid < active)%nat -> isRenameable r = true -> 0 <= index r < arch (classValue r) ->
    exists p, lookup (Z.of_nat tid) r s = Ok p /\ of_class cs (classValue r) p).
Proof.
  intros Hs cs. apply reachable_stage in Hs as [Hinv Hc _ _ Hmp]. unfold cs; clear cs; rewrite <- Hc. split_and!.
  - apply (ri_free T s Hinv).
  - intros tid hs h Hh Hin Hu. pose proof (ri_hist T s Hinv _ _ Hh) as Hok. rewrite Forall_forall in Hok.
    destruct (Hok h Hin Hu) as (_ & _ & H1 & H2). done.
  - intros tid r Ht Hr Hi. destruct (thread_lists s (Z.of_nat tid) Hinv) as (ms & _ & _ & Hm & _ & _); [lia|]. rewrite Nat2Z.id in Hm.
    destruct (Hmp tid ms r Ht Hm Hr Hi) as (p & Hg & Hn). exists p. split; [apply (lookup_mapped _ _ ms); rewrite ?Nat2Z.id; (done || lia)|].
    destruct (ri_maps T s Hinv _ _ Hm) as [_ Hmo]. by destruct (Hmo r p Hr Hg).
Qed.

(** ** Renaming never fails when [canRename] allows it *)

(** C20: In every reachable state, if [canRename] answers yes for the destination
    registers of an instruction of an active thread, renaming them succeeds, and the
    last destination then reads as the register it was given; or it stops at the one
    assertion of [SimpleRenameMap::rename] that [canRename] does not look at: a
    destination asks for pinned writes while the register it is mapped to, after
    the destinations before it, is still pinned. No free list is empty and no map
    is read out of bounds. The destinations are registers of the architecture, and
    [flatten] keeps their class. *)
Theorem rename_canRename_suffices s tid sn dests : reachable s -> 0 <= tid < Z.of_nat active ->
  Forall (fun r => classValue (flatten r) = classValue r /\ 0 <= index (flatten r) /\
                   (classValue r = InvalidRegClass \/ index (flatten r) < arch (classValue r))) dests ->
  canRename dests s = Ok true ->
  (exists ps s', renameDestRegs flatten tid sn dests s = Ok (ps, s') /\ length ps = length dests /\
     forall r p, last dests = Some r -> last ps = Some p -> lookup tid (flat_dest flatten r) s' = Ok p.1) \/
  (renameDestRegs flatten tid sn dests s = Err AssertFail /\
   exists pre r post ps s1, dests = pre ++ r :: post /\ renameDestRegs flatten tid sn pre s = Ok (ps, s1) /\
     repinned tid (flat_dest flatten r) s1 = true).
Proof.
  intros Hs Ht Hd Hcan. apply reachable_stage in Hs as [Hinv Hc Hi _ Hmp].
  destruct (thread_lists s tid Hinv) as (ms & _ & _ & Hm & _ & _); [lia|].
  destruct (dests_total flatten T tid sn dests s ms Hinv) as [(ps & s' & E)|H]; [lia|done| |by apply canRename_enough| |by right].
  - eapply Forall_impl; [exact Hd|]. intros r (Hcl & H0 & Hlt). split; [|done]. split; [done|]. cbn. rewrite Hcl.
    assert (Hx : classValue r <> InvalidRegClass -> index (flatten r) < arch (classValue r)) by tauto.
    specialize (Hmp (Z.to_nat tid) ms (flat_dest flatten r)). unfold isRenameable in Hmp. cbn in Hmp. rewrite Hcl in Hmp.
    destruct (classValue r) eqn:Er; try (apply Hmp; [lia|done|done|split; [done|by apply Hx]]); [rewrite Hi; by apply Hx|done].
  - left. exists ps, s'. split; [done|]. eapply dests_result; [exact Hinv|lia|exact E].
Qed.

(** ** Squash restores *)

(** C19: Renaming any instructions of a thread that are younger than [sq] and
    then squashing to [sq] restores the rename maps of all threads and the
    history buffers exactly; once the squash is over, every free list holds the
    registers it held before. *)
Theorem rename_squash_restores s sq tid insts s1 hb : reachable s -> 0 <= tid < Z.of_nat T ->
  historyBuffer s !! Z.to_nat tid = Some hb -> Forall (fun h => instSeqNum h <= sq) hb -> freeingInProgress s !! Z.to_nat tid = Some [] ->
  Forall (fun i => sq < i.1) insts -> rename_insts flatten tid insts s = Ok s1 ->
  exists s2 s3, doSquash sq tid s1 = Ok s2 /\ renameMaps s2 = renameMaps s /\ historyBuffer s2 = historyBuffer s /\ freeLists s2 = freeLists s1 /\
    freeSquashed tid s2 = Ok s3 /\ renameMaps s3 = renameMaps s /\ historyBuffer s3 = historyBuffer s /\ freeingInProgress s3 = freeingInProgress s /\
    forall c l l3, is_renamed c -> freeLists s !! Z.to_nat (class_value c) = Some l -> freeLists s3 !! Z.to_nat (class_value c) = Some l3 -> l3 ≡ₚ l.
Proof.
  intros Hs Ht Hh Hold Hfr Hyoung E. apply reachable_stage in Hs as [Hinv _ _ _ _].
  destruct (insts_partial flatten T tid insts s s1 (fun n => sq < n) Hinv Ht Hyoung E) as (hn & Hs1 & Hby & Hn).
  destruct Hby as (ms & ms' & hs & _ & Hm & Hh' & Em & Eh & Ew & Ec & _ & Hu & _). rewrite Hh in Hh'. injection Hh' as <-.
  assert (Hh1 : historyBuffer s1 !! Z.to_nat tid = Some (hn ++ hb)) by (rewrite Eh; apply list_lookup_insert_eq; by eapply lookup_lt_Some).
  assert (Hm1 : renameMaps s1 !! Z.to_nat tid = Some ms') by (rewrite Em; apply list_lookup_insert_eq; by eapply lookup_lt_Some).
  destruct (doSquash_spec T sq tid s1 _ Hs1 Ht Hh1) as (sq' & rest & s2 & Eq & Hsq & Hrest & E2 & Hs2 & [B1 B2 B3 (B4 & _ & B5 & _)]).
  destruct (split_unique sq hn hb sq' rest Eq Hn Hold Hsq Hrest) as [-> ->]. rewrite Ew in B3. specialize (B3 [] Hfr). specialize (B1 ms' Hm1).
  destruct (freeSquashed_spec T tid s2 (news hn) Hs2 Ht) as (fl & E3 & _ & Hs3); [rewrite B3; apply list_lookup_insert_eq; by eapply lookup_lt_Some|].
  set (s3 := with_freeing _ _) in *.
  assert (Em2 : renameMaps s2 = renameMaps s) by (by rewrite B1, Em, list_insert_insert_eq, Hu, list_insert_id).
  assert (Eh2 : historyBuffer s2 = historyBuffer s) by (by rewrite B2, Eh, list_insert_insert_eq, list_insert_id).
  assert (Ew3 : freeingInProgress s3 = freeingInProgress s) by (cbn; by rewrite B3, list_insert_insert_eq, list_insert_id).
  exists s2, s3. split_and!; try done. intros c l l3 Hc Hl Hl3. eapply (free_lists_perm T s s3); try done.
  unfold classes. cbn. rewrite B4. exact Ec.
Qed.

(** ** Progress *)

(** An operation that empties a thread of entries [P], for all threads. *)
Lemma all_threads_spec (P : RenameHistory -> Prop) op n s :
  (forall s tid hb, reachable s -> 0 <= tid < Z.of_nat T -> historyBuffer s !! Z.to_nat tid = Some hb -> Forall P hb ->
     exists s', op tid s = Ok s' /\ reachable s' /\ emptied tid s s') ->
  reachable s -> (n <= T)%nat -> (forall tid hb, historyBuffer s !! tid = Some hb -> Forall P hb) ->
  exists s', all_threads op n s = Ok s' /\ reachable s' /\
    (forall tid hb, historyBuffer s' !! tid = Some hb -> ((tid < n)%nat -> hb = []) /\ Forall P hb) /\
    (forall tid l, freeingInProgress s' !! tid = Some l -> (tid < n)%nat -> l = []).
Proof.
  intros Hop Hs Hn HP. induction n as [|n IH].
  { exists s. split_and!; try done; [|intros; lia]. intros tid hb Hh. split; [lia|by eapply HP]. }
  destruct IH as (s0 & E0 & Hr0 & Hh0 & Hw0); [lia|]. cbn [all_threads]. rewrite E0, bind_Ok.
  pose proof (si_inv s0 (reachable_stage s0 Hr0)) as Hi0. assert (Htid : 0 <= Z.of_nat n < Z.of_nat T) by lia.
  destruct (thread_lists s0 (Z.of_nat n) Hi0 Htid) as (ms & hb & l & _ & Hh & _).
  destruct (Hop s0 (Z.of_nat n) hb Hr0 Htid Hh) as (s' & E & Hr & Eh & Ew); [by eapply Hh0|].
  exists s'. rewrite Nat2Z.id in *. split; [done|]. split; [done|]. split.
  - intros tid hb' H'. rewrite Eh in H'. apply insert_lookup_cases in H' as [[-> ->]|[Hne H']]; [done|].
    destruct (Hh0 tid hb' H') as [H1 H2]. split; [|done]. intros Hlt. apply H1. lia.
  - intros tid l' H' Hlt. rewrite Ew in H'. apply insert_lookup_cases in H' as [[-> ->]|[Hne H']]; [done|]. eapply Hw0; [done|lia].
Qed.

(** With nothing in flight, all spare registers are free. *)
Lemma emptied_unblocked s dests : reachable s -> (forall tid hb, historyBuffer s !! tid = Some hb -> (tid < T)%nat -> hb = []) ->
  (forall tid l, freeingInProgress s !! tid = Some l -> (tid < T)%nat -> l = []) ->
  Forall (fun c => numDestRegs c dests <= phys c - Z.of_nat T * arch c) renamed_classes -> canRename dests s = Ok true.
Proof.
  intros Hr Hh Hw Hd. apply reachable_stage in Hr as [Hinv Hc _ Hsz _].
  apply (canRename_true T); [done|]. assert (Hrc : Forall is_renamed renamed_classes) by (by repeat constructor).
  pose proof (ri_threads T s Hinv) as (L1 & L2 & L3). unfold config_ok in config. rewrite Forall_forall in Hd, Hrc, config.
  apply Forall_forall. intros c Hin. pose proof (Hrc c Hin) as Hcr. destruct (config c Hin) as (C1 & C2 & C3). specialize (Hd c Hin).
  pose proof (class_value_range c (proj1 Hcr) (proj2 Hcr)).
  destruct (lookup_lt_is_Some_2 (freeLists s) (Z.to_nat (class_value c))) as [l El]; [rewrite (ri_lists T s Hinv); lia|].
  assert (concat (historyBuffer s) = []) as Hh'.
  { apply concat_all_nil. intros tid hb Ht. apply (Hh tid hb Ht). rewrite <- L2. by eapply lookup_lt_Some. }
  assert (concat (freeingInProgress s) = []) as Hw'.
  { apply concat_all_nil. intros tid l0 Ht. apply (Hw tid l0 Ht). rewrite <- L3. by eapply lookup_lt_Some. }
  pose proof (drained_free T s c l Hinv Hcr El) as Hfree. rewrite Hh', Hc, (phys_count phys c Hcr), (sized_entries arch _ c Hcr Hsz), L1 in Hfree.
  specialize (Hfree eq_refl Hw'). exists l. split; [done|]. nia.
Qed.

Lemma squash_out_empties sq s tid hb : reachable s -> 0 <= tid < Z.of_nat T -> historyBuffer s !! Z.to_nat tid = Some hb ->
  Forall (fun h => sq < instSeqNum h) hb -> exists s', squash_out sq tid s = Ok s' /\ reachable s' /\ emptied tid s s'.
Proof.
  intros Hs Ht Hh Hy. destruct (squash_out_spec T sq tid s hb (si_inv s (reachable_stage s Hs)) Ht Hh)
    as (sq' & rest & s1 & s' & -> & Hr & E1 & E2 & _ & Eh & Ew).
  assert (rest = []) as ->.
  { destruct rest as [|h rest]; [done|]. specialize (Hr h eq_refl). apply Forall_app in Hy as [_ Hy].
    apply Forall_cons in Hy as [Hy _]. lia. }
  exists s'. unfold squash_out. rewrite E1, bind_Ok. split; [done|]. split; [|done].
  eapply reach_release; [|done|exact E2]. by eapply reach_squash.
Qed.

Lemma drain_empties sq M s tid hb : wraps = true -> reachable s -> 0 <= tid < Z.of_nat T ->
  historyBuffer s !! Z.to_nat tid = Some hb -> Forall (fun h => instSeqNum h <= M) hb ->
  exists s', drain wraps sq M tid s = Ok s' /\ reachable s' /\ emptied tid s s'.
Proof.
  intros Hw Hs Ht Hh HM. destruct (drain_spec T sq M tid s hb (si_inv s (reachable_stage s Hs)) Ht Hh HM)
    as (s1 & s2 & s' & E1 & E2 & E3 & He).
  exists s'. unfold drain, squash_out. rewrite E1, bind_Ok, E2, bind_Ok, Hw. split; [done|]. split; [|done].
  eapply reach_commit; [|done|rewrite Hw; exact E3]. eapply reach_release; [|done|exact E2]. by eapply reach_squash.
Qed.

(** C11: From every reachable state the rename stage can be emptied, and afterwards
    [canRename] accepts every instruction whose destinations fit in the registers
    that the configuration has beyond the architectural ones, so that the stage
    never stays blocked for lack of registers. Squashing every thread below its
    oldest instruction in flight and releasing the registers succeeds and does it.
    With list iterators that wrap, so does squashing each thread to any point,
    releasing, and committing what remains; by the C++ standard that commit is
    undefined, since it erases the first entry of the list or starts from an empty
    one. *)
Theorem rename_drain_unblocks s : reachable s ->
  (forall sq, (forall tid hb, historyBuffer s !! tid = Some hb -> Forall (fun h => sq < instSeqNum h) hb) ->
     exists s', all_threads (squash_out sq) T s = Ok s' /\ reachable s' /\ forall dests,
       Forall (fun c => numDestRegs c dests <= phys c - Z.of_nat T * arch c) renamed_classes -> canRename dests s' = Ok true) /\
  (wraps = true -> forall sq M, (forall tid hb, historyBuffer s !! tid = Some hb -> Forall (fun h => instSeqNum h <= M) hb) ->
     exists s', all_threads (drain wraps sq M) T s = Ok s' /\ reachable s' /\ forall dests,
       Forall (fun c => numDestRegs c dests <= phys c - Z.of_nat T * arch c) renamed_classes -> canRename dests s' = Ok true).
Proof.
  intros Hs. split.
  - intros sq HP. destruct (all_threads_spec _ (squash_out sq) T s (squash_out_empties sq) Hs (le_n _) HP) as (s' & E & Hr & Hh & Hw).
    exists s'. split; [done|]. split; [done|]. intros dests. apply emptied_unblocked; [done| |done].
    intros tid hb Hb. by apply (Hh tid hb Hb).
  - intros Hwr sq M HP. destruct (all_threads_spec _ (drain wraps sq M) T s (fun s tid hb => drain_empties sq M s tid hb Hwr) Hs (le_n _) HP)
      as (s' & E & Hr & Hh & Hw).
    exists s'. split; [done|]. split; [done|]. intros dests. apply emptied_unblocked; [done| |done].
    intros tid hb Hb. by apply (Hh tid hb Hb).
Qed.
End Reachable.

(** ** A small configuration

    One thread, four integer registers for two architectural ones, three
    miscellaneous registers. *)
Definition ex_phys (c : RegClassType) : Z := match c with IntRegClass => 4 | _ => 0 end.
Definition ex_arch (c : RegClassType) : Z := match c with IntRegClass => 2 | MiscRegClass => 3 | _ => 0 end.
Definition ex_none : t := mk [] 0 [] [] [] [] [].
Definition ok_or (s : t) (r : result t) : t := match r with Ok s => s | Err _ => s end.
Definition ex_r (i : Z) : RegId := mkRegId IntRegClass i 0.
(** After construction, and after instruction 7 has written both registers. *)
Definition ex_start : t := ok_or ex_none (construct 1 1 ex_phys ex_arch).
Definition ex_insts : list (Z * list RegId) := [(7, [ex_r 0; mkRegId MiscRegClass 1 0]); (8, [ex_r 1])].
Definition ex_busy : t := ok_or ex_none (rename_insts id 0 ex_insts ex_start).

Definition ex_mid : t := ok_or ex_none (rename_insts id 0 (take 1 ex_insts) ex_start).

Lemma ex_config : config_ok 1 ex_phys ex_arch.
Proof. unfold config_ok. repeat constructor; cbn; lia. Qed.

Lemma ex_start_reach : reachable true id 1 1 ex_phys ex_arch ex_start.
Proof. apply reach_construct. vm_compute. reflexivity. Qed.

Lemma ex_busy_reach : reachable true id 1 1 ex_phys ex_arch ex_busy.
Proof.
  eapply (reach_rename true id 1 1 ex_phys ex_arch 0 8 [ex_r 1] _ ex_mid); [|lia|vm_compute; reflexivity].
  eapply (reach_rename true id 1 1 ex_phys ex_arch 0 7 [ex_r 0; mkRegId MiscRegClass 1 0]); [exact ex_start_reach|lia|vm_compute; reflexivity].
Qed.

(** Witness of [rename_registers_conserved]. *)
Lemma rename_registers_conserved_witness : owned ex_busy ≡ₚ seqZ 0 (Z.of_nat (length (phys_ids ex_phys))).
Proof. exact (rename_registers_conserved true id 1 1 ex_phys ex_arch ltac:(lia) ex_config ex_busy ex_busy_reach). Defined.

(** Witness of [rename_registers_typed]: the register of the first destination. *)
Lemma rename_registers_typed_witness : exists p, lookup (Z.of_nat 0) (ex_r 0) ex_busy = Ok p /\ of_class (p_class <$> phys_ids ex_phys) IntRegClass p.
Proof.
  destruct (rename_registers_typed true id 1 1 ex_phys ex_arch ltac:(lia) ex_config ex_busy ex_busy_reach) as (_ & _ & H).
  apply (H 0%nat (ex_r 0)); [lia|reflexivity|cbn; lia].
Defined.

(** Witness of [rename_canRename_suffices]: two integer destinations, the only
    two registers that are free; and one register that is pinned twice. *)
Lemma rename_canRename_suffices_witness :
  (exists ps s', renameDestRegs id 0 9 [ex_r 0; ex_r 1] ex_start = Ok (ps, s') /\ length ps = 2%nat /\
     forall r p, last [ex_r 0; ex_r 1] = Some r -> last ps = Some p -> lookup 0 (flat_dest id r) s' = Ok p.1) /\
  renameDestRegs id 0 9 [mkRegId IntRegClass 0 2; mkRegId IntRegClass 0 1] ex_start = Err AssertFail.
Proof.
  split.
  - destruct (rename_canRename_suffices true id 1 1 ex_phys ex_arch ltac:(lia) ex_config ex_start 0 9 [ex_r 0; ex_r 1] ex_start_reach)
      as [H|[E _]]; [lia| |vm_compute; reflexivity|exact H|vm_compute in E; discriminate E].
    repeat constructor; cbn; lia.
  - destruct (rename_canRename_suffices true id 1 1 ex_phys ex_arch ltac:(lia) ex_config ex_start 0 9
      [mkRegId IntRegClass 0 2; mkRegId IntRegClass 0 1] ex_start_reach) as [(ps & s' & E & _)|[E _]];
      [lia| |vm_compute; reflexivity|vm_compute in E; discriminate E|exact E].
    repeat constructor; cbn; lia.
Defined.

(** Witness of [rename_squash_restores]: squashing both instructions. *)
Lemma rename_squash_restores_witness : exists s2 s3, doSquash 6 0 ex_busy = Ok s2 /\ renameMaps s2 = renameMaps ex_start /\
  historyBuffer s2 = historyBuffer ex_start /\ freeLists s2 = freeLists ex_busy /\
  freeSquashed 0 s2 = Ok s3 /\ renameMaps s3 = renameMaps ex_start /\ historyBuffer s3 = historyBuffer ex_start /\
  freeingInProgress s3 = freeingInProgress ex_start /\
  forall c l l3, is_renamed c -> freeLists ex_start !! Z.to_nat (class_value c) = Some l -> freeLists s3 !! Z.to_nat (class_value c) = Some l3 -> l3 ≡ₚ l.
Proof.
  apply (rename_squash_restores true id 1 1 ex_phys ex_arch ltac:(lia) ex_config ex_start 6 0 ex_insts ex_busy [] ex_start_reach ltac:(lia)).
  - vm_compute. reflexivity.
  - constructor.
  - vm_compute. reflexivity.
  - repeat constructor; cbn; lia.
  - vm_compute. reflexivity.
Defined.

(** Witness of [rename_drain_unblocks]: with both registers in use nothing can
    be renamed; after squashing both instructions, or squashing one and committing
    the other, an instruction with two destinations can. *)
Lemma rename_drain_unblocks_witness : canRename [ex_r 0] ex_busy = Ok false /\
  (exists s', all_threads (squash_out 6) 1 ex_busy = Ok s' /\ canRename [ex_r 0; ex_r 1] s' = Ok true) /\
  exists s', all_threads (drain true 7 8) 1 ex_busy = Ok s' /\ canRename [ex_r 0; ex_r 1] s' = Ok true.
Proof.
  split; [vm_compute; reflexivity|].
  assert (Hfit : Forall (fun c => numDestRegs c [ex_r 0; ex_r 1] <= ex_phys c - Z.of_nat 1 * ex_arch c) renamed_classes).
  { unfold renamed_classes. repeat (apply Forall_cons; split; [vm_compute; intros Hx; discriminate Hx|]). constructor. }
  destruct (rename_drain_unblocks true id 1 1 ex_phys ex_arch ltac:(lia) ex_config ex_busy ex_busy_reach) as [H1 H2]. split.
  - destruct (H1 6) as (s' & E & _ & H).
    + intros tid hb Hh. destruct tid as [|tid]; [|vm_compute in Hh; discriminate Hh]. vm_compute in Hh. injection Hh as <-. repeat constructor; cbn; lia.
    + exists s'. split; [exact E|]. exact (H _ Hfit).
  - destruct (H2 eq_refl 7 8) as (s' & E & _ & H).
    + intros tid hb Hh. destruct tid as [|tid]; [|vm_compute in Hh; discriminate Hh]. vm_compute in Hh. injection Hh as <-. repeat constructor; cbn; lia.
    + exists s'. split; [exact E|]. exact (H _ Hfit).
Defined.
