(* ===== verification/Packet.v ===== *)
(** * Packets of the memory system

    Model of the commands and packets of src/gem5/src/mem/packet.{hh,cc} and of
    the request flags of src/gem5/src/mem/request.hh that they use: the command
    table, the flags of a packet, the change of a request into a response, and
    the functional access that reads from or writes to a buffer that is in
    flight. *)

From stdpp Require Import strings.
From S2P Require Import Prelude Bits.

Module MemCmd.
Inductive Command :=
| InvalidCmd | ReadReq | ReadResp | ReadRespWithInvalidate | WriteReq | WriteResp | WriteCompleteResp
| WritebackDirty | WritebackClean | WriteClean | CleanEvict | SoftPFReq | SoftPFExReq | HardPFReq
| SoftPFResp | HardPFResp | WriteLineReq | UpgradeReq | SCUpgradeReq | UpgradeResp | SCUpgradeFailReq
| UpgradeFailResp | ReadExReq | ReadExResp | ReadCleanReq | ReadSharedReq | LoadLockedReq | StoreCondReq
| StoreCondFailReq | StoreCondResp | LockedRMWReadReq | LockedRMWReadResp | LockedRMWWriteReq
| LockedRMWWriteResp | SwapReq | SwapResp | MemFenceReq | MemSyncReq | MemSyncResp | MemFenceResp
| CleanSharedReq | CleanSharedResp | CleanInvalidReq | CleanInvalidResp | InvalidDestError | BadAddressError
| ReadError | WriteError | FunctionalReadError | FunctionalWriteError | PrintReq | FlushReq | InvalidateReq
| InvalidateResp | HTMReq | HTMReqResp | HTMAbort | TlbiExtSync.

#[global] Instance Command_eq_dec : EqDecision Command.
Proof. solve_decision. Defined.

(** The values of the enumerators: two are left out after [SwapResp]. *)
Definition toInt (c : Command) : Z :=
  match c with
  | InvalidCmd => 0 | ReadReq => 1 | ReadResp => 2 | ReadRespWithInvalidate => 3 | WriteReq => 4 | WriteResp => 5
  | WriteCompleteResp => 6 | WritebackDirty => 7 | WritebackClean => 8 | WriteClean => 9 | CleanEvict => 10
  | SoftPFReq => 11 | SoftPFExReq => 12 | HardPFReq => 13 | SoftPFResp => 14 | HardPFResp => 15
  | WriteLineReq => 16 | UpgradeReq => 17 | SCUpgradeReq => 18 | UpgradeResp => 19 | SCUpgradeFailReq => 20
  | UpgradeFailResp => 21 | ReadExReq => 22 | ReadExResp => 23 | ReadCleanReq => 24 | ReadSharedReq => 25
  | LoadLockedReq => 26 | StoreCondReq => 27 | StoreCondFailReq => 28 | StoreCondResp => 29
  | LockedRMWReadReq => 30 | LockedRMWReadResp => 31 | LockedRMWWriteReq => 32 | LockedRMWWriteResp => 33
  | SwapReq => 34 | SwapResp => 35 | MemFenceReq => 35 + 3 | MemSyncReq => 39 | MemSyncResp => 40
  | MemFenceResp => 41 | CleanSharedReq => 42 | CleanSharedResp => 43 | CleanInvalidReq => 44
  | CleanInvalidResp => 45 | InvalidDestError => 46 | BadAddressError => 47 | ReadError => 48 | WriteError => 49
  | FunctionalReadError => 50 | FunctionalWriteError => 51 | PrintReq => 52 | FlushReq => 53
  | InvalidateReq => 54 | InvalidateResp => 55 | HTMReq => 56 | HTMReqResp => 57 | HTMAbort => 58 | TlbiExtSync => 59
  end.

Inductive Attribute :=
| IsRead | IsWrite | IsUpgrade | IsInvalidate | IsClean | NeedsWritable | IsRequest | IsResponse | NeedsResponse
| IsEviction | IsSWPrefetch | IsHWPrefetch | IsLlsc | IsLockedRMW | HasData | IsError | IsPrint | IsFlush | FromCache.

Definition attr_value (a : Attribute) : Z :=
  match a with
  | IsRead => 0 | IsWrite => 1 | IsUpgrade => 2 | IsInvalidate => 3 | IsClean => 4 | NeedsWritable => 5
  | IsRequest => 6 | IsResponse => 7 | NeedsResponse => 8 | IsEviction => 9 | IsSWPrefetch => 10
  | IsHWPrefetch => 11 | IsLlsc => 12 | IsLockedRMW => 13 | HasData => 14 | IsError => 15 | IsPrint => 16
  | IsFlush => 17 | FromCache => 18
  end.

Definition buildAttributes (attrs : list Attribute) : Z :=
  fold_left (fun ret a => Z.lor ret (Z.shiftl 1 (attr_value a))) attrs 0.

Record CommandInfo := mkInfo { attributes : Z; response : Command; str : string }.
Definition info (attrs : list Attribute) (r : Command) (s : string) : CommandInfo := mkInfo (buildAttributes attrs) r s.

Definition commandInfo : list CommandInfo := [
  info [] InvalidCmd "InvalidCmd";
  info [IsRead; IsRequest; NeedsResponse] ReadResp "ReadReq";
  info [IsRead; IsResponse; HasData] InvalidCmd "ReadResp";
  info [IsRead; IsResponse; HasData; IsInvalidate] InvalidCmd "ReadRespWithInvalidate";
  info [IsWrite; NeedsWritable; IsRequest; NeedsResponse; HasData] WriteResp "WriteReq";
  info [IsWrite; IsResponse] InvalidCmd "WriteResp";
  info [IsWrite; IsResponse] InvalidCmd "WriteCompleteResp";
  info [IsWrite; IsRequest; IsEviction; HasData; FromCache] InvalidCmd "WritebackDirty";
  info [IsWrite; IsRequest; IsEviction; HasData; FromCache] InvalidCmd "WritebackClean";
  info [IsWrite; IsRequest; HasData; FromCache] InvalidCmd "WriteClean";
  info [IsRequest; IsEviction; FromCache] InvalidCmd "CleanEvict";
  info [IsRead; IsRequest; IsSWPrefetch; NeedsResponse] SoftPFResp "SoftPFReq";
  info [IsRead; NeedsWritable; IsInvalidate; IsRequest; IsSWPrefetch; NeedsResponse] SoftPFResp "SoftPFExReq";
  info [IsRead; IsRequest; IsHWPrefetch; NeedsResponse; FromCache] HardPFResp "HardPFReq";
  info [IsRead; IsResponse; IsSWPrefetch; HasData] InvalidCmd "SoftPFResp";
  info [IsRead; IsResponse; IsHWPrefetch; HasData] InvalidCmd "HardPFResp";
  info [IsWrite; NeedsWritable; IsRequest; NeedsResponse; HasData] WriteResp "WriteLineReq";
  info [IsInvalidate; NeedsWritable; IsUpgrade; IsRequest; NeedsResponse; FromCache] UpgradeResp "UpgradeReq";
  info [IsInvalidate; NeedsWritable; IsUpgrade; IsLlsc; IsRequest; NeedsResponse; FromCache] UpgradeResp "SCUpgradeReq";
  info [IsUpgrade; IsResponse] InvalidCmd "UpgradeResp";
  info [IsRead; NeedsWritable; IsInvalidate; IsLlsc; IsRequest; NeedsResponse; FromCache] UpgradeFailResp "SCUpgradeFailReq";
  info [IsRead; IsResponse; HasData] InvalidCmd "UpgradeFailResp";
  info [IsRead; NeedsWritable; IsInvalidate; IsRequest; NeedsResponse; FromCache] ReadExResp "ReadExReq";
  info [IsRead; IsResponse; HasData] InvalidCmd "ReadExResp";
  info [IsRead; IsRequest; NeedsResponse; FromCache] ReadResp "ReadCleanReq";
  info [IsRead; IsRequest; NeedsResponse; FromCache] ReadResp "ReadSharedReq";
  info [IsRead; IsLlsc; IsRequest; NeedsResponse] ReadResp "LoadLockedReq";
  info [IsWrite; NeedsWritable; IsLlsc; IsRequest; NeedsResponse; HasData] StoreCondResp "StoreCondReq";
  info [IsWrite; NeedsWritable; IsLlsc; IsRequest; NeedsResponse; HasData] StoreCondResp "StoreCondFailReq";
  info [IsWrite; IsLlsc; IsResponse] InvalidCmd "StoreCondResp";
  info [IsRead; IsLockedRMW; NeedsWritable; IsRequest; NeedsResponse] LockedRMWReadResp "LockedRMWReadReq";
  info [IsRead; IsLockedRMW; NeedsWritable; IsResponse; HasData] InvalidCmd "LockedRMWReadResp";
  info [IsWrite; IsLockedRMW; NeedsWritable; IsRequest; NeedsResponse; HasData] LockedRMWWriteResp "LockedRMWWriteReq";
  info [IsWrite; IsLockedRMW; NeedsWritable; IsResponse] InvalidCmd "LockedRMWWriteResp";
  info [IsRead; IsWrite; NeedsWritable; IsRequest; HasData; NeedsResponse] SwapResp "SwapReq";
  info [IsRead; IsWrite; IsResponse; HasData] InvalidCmd "SwapResp";
  info [] InvalidCmd "Deprecated_MessageReq";
  info [] InvalidCmd "Deprecated_MessageResp";
  info [IsRequest; NeedsResponse] MemFenceResp "MemFenceReq";
  info [IsRequest; NeedsResponse] MemSyncResp "MemSyncReq";
  info [IsResponse] InvalidCmd "MemSyncResp";
  info [IsResponse] InvalidCmd "MemFenceResp";
  info [IsRequest; IsClean; NeedsResponse; FromCache] CleanSharedResp "CleanSharedReq";
  info [IsResponse; IsClean] InvalidCmd "CleanSharedResp";
  info [IsRequest; IsInvalidate; IsClean; NeedsResponse; FromCache] CleanInvalidResp "CleanInvalidReq";
  info [IsResponse; IsInvalidate; IsClean] InvalidCmd "CleanInvalidResp";
  info [IsResponse; IsError] InvalidCmd "InvalidDestError";
  info [IsResponse; IsError] InvalidCmd "BadAddressError";
  info [IsRead; IsResponse; IsError] InvalidCmd "ReadError";
  info [IsWrite; IsResponse; IsError] InvalidCmd "WriteError";
  info [IsRead; IsResponse; IsError] InvalidCmd "FunctionalReadError";
  info [IsWrite; IsResponse; IsError] InvalidCmd "FunctionalWriteError";
  info [IsRequest; IsPrint] InvalidCmd "PrintReq";
  info [IsRequest; IsFlush; NeedsWritable] InvalidCmd "FlushReq";
  info [IsInvalidate; IsRequest; NeedsWritable; NeedsResponse; FromCache] InvalidateResp "InvalidateReq";
  info [IsInvalidate; IsResponse] InvalidCmd "InvalidateResp";
  info [IsRead; IsRequest; NeedsResponse] HTMReqResp "HTMReq";
  info [IsRead; IsResponse] InvalidCmd "HTMReqResp";
  info [IsRead; IsRequest] InvalidCmd "HTMAbort";
  info [IsRequest] InvalidCmd "TlbiExtSync"].

(** The entry of a command; every command has one (see [memcmd_table]). *)
Definition entry (c : Command) : CommandInfo := default (info [] InvalidCmd "") (commandInfo !! Z.to_nat (toInt c)).
Definition testCmdAttrib (a : Attribute) (c : Command) : bool := Z.testbit (attributes (entry c)) (attr_value a).

Definition isRead := testCmdAttrib IsRead.
Definition isWrite := testCmdAttrib IsWrite.
Definition isUpgrade := testCmdAttrib IsUpgrade.
Definition isRequest := testCmdAttrib IsRequest.
Definition isResponse := testCmdAttrib IsResponse.
Definition needsWritable := testCmdAttrib NeedsWritable.
Definition needsResponse := testCmdAttrib NeedsResponse.
Definition isInvalidate := testCmdAttrib IsInvalidate.
Definition isEviction := testCmdAttrib IsEviction.
Definition isClean := testCmdAttrib IsClean.
Definition fromCache := testCmdAttrib FromCache.
Definition isWriteback (c : Command) : bool := testCmdAttrib IsEviction c && testCmdAttrib HasData c.
Definition hasData := testCmdAttrib HasData.
Definition isLLSC := testCmdAttrib IsLlsc.
Definition isError := testCmdAttrib IsError.
Definition isPrint := testCmdAttrib IsPrint.
Definition responseCommand (c : Command) : Command := response (entry c).
End MemCmd.

Import MemCmd (Command).

(** The flags of a request, its byte mask, and its physical address and size,
    each of which is there only when the private flag for it is set. *)
Module Request.
Record t := mk { _flags : Z; _byteEnable : list bool; _paddr : option Z; _size : option Z }.
Definition isMasked (r : t) : bool := existsb negb (_byteEnable r).
Definition isSet (m : Z) (r : t) : bool := negb (Z.land (_flags r) m =? 0).
Definition UNCACHEABLE : Z := 0x00000400.
Definition STRICT_ORDER : Z := 0x00000800.
Definition PRIVILEGED : Z := 0x00008000.
Definition LOCKED_RMW : Z := 0x00100000.
Definition LLSC : Z := 0x00200000.
Definition MEM_SWAP : Z := 0x00400000.
Definition MEM_SWAP_COND : Z := 0x00800000.
Definition PREFETCH : Z := 0x01000000.
Definition PF_EXCLUSIVE : Z := 0x02000000.
Definition SECURE : Z := 0x10000000.
Definition ATOMIC_RETURN_OP : Z := 0x40000000.
Definition ATOMIC_NO_RETURN_OP : Z := 0x80000000.
Definition INVALIDATE : Z := 0x0000000100000000.
Definition CLEAN : Z := 0x0000000200000000.
Definition HTM_START : Z := 0x0000010000000000.
Definition HTM_COMMIT : Z := 0x0000020000000000.
Definition HTM_CANCEL : Z := 0x0000040000000000.
Definition HTM_ABORT : Z := 0x0000080000000000.
Definition isUncacheable := isSet UNCACHEABLE.
Definition isCacheClean := isSet CLEAN.
Definition isCacheInvalidate := isSet INVALIDATE.
Definition isCacheMaintenance := isSet (Z.lor CLEAN INVALIDATE).
Definition isHTMCmd (r : t) : bool := isSet HTM_START r || isSet HTM_COMMIT r || isSet HTM_CANCEL r || isSet HTM_ABORT r.
Definition isHTMAbort := isSet HTM_ABORT.
Definition isLLSC := isSet LLSC.
Definition isSecure := isSet SECURE.
Definition isPrefetchEx := isSet PF_EXCLUSIVE.
Definition isPrefetch := isSet (Z.lor PREFETCH PF_EXCLUSIVE).
Definition isLockedRMW := isSet LOCKED_RMW.
Definition isSwap := isSet (Z.lor MEM_SWAP MEM_SWAP_COND).
Definition isAtomic (r : t) : bool := isSet ATOMIC_RETURN_OP r || isSet ATOMIC_NO_RETURN_OP r.
End Request.

Module Packet.
Record t := mk {
  cmd : Command;
  req : Request.t;
  addr : Z;
  _isSecure : bool;
  size : Z;
  flags : Z;
  data : list Z;
  bytesValid : list bool;
}.

Definition COPY_FLAGS : Z := 0x000000FF.
Definition RESPONDER_FLAGS : Z := 0x00000009.
Definition HAS_SHARERS : Z := 0x00000001.
Definition EXPRESS_SNOOP : Z := 0x00000002.
Definition RESPONDER_HAD_WRITABLE : Z := 0x00000004.
Definition CACHE_RESPONDING : Z := 0x00000008.
Definition SATISFIED : Z := 0x00000020.
Definition FAILS_TRANSACTION : Z := 0x00000040.
Definition FROM_TRANSACTION : Z := 0x00000080.
Definition VALID_ADDR : Z := 0x00000100.
Definition VALID_SIZE : Z := 0x00000200.
Definition STATIC_DATA : Z := 0x00001000.
Definition DYNAMIC_DATA : Z := 0x00002000.
Definition BLOCK_CACHED : Z := 0x00010000.

Definition isSet (m : Z) (p : t) : bool := negb (Z.land (flags p) m =? 0).
Definition with_cmd c p := mk c (req p) (addr p) (_isSecure p) (size p) (flags p) (data p) (bytesValid p).
Definition with_flags f p := mk (cmd p) (req p) (addr p) (_isSecure p) (size p) f (data p) (bytesValid p).
Definition with_data d bv p := mk (cmd p) (req p) (addr p) (_isSecure p) (size p) (flags p) d bv.
Definition set (m : Z) (p : t) : t := with_flags (Z.lor (flags p) m) p.
Definition clear (m : Z) (p : t) : t := with_flags (Z.land (flags p) (unot 32 m)) p.

Definition cacheResponding := isSet CACHE_RESPONDING.
Definition hasSharers := isSet HAS_SHARERS.
Definition isExpressSnoop := isSet EXPRESS_SNOOP.
Definition isBlockCached := isSet BLOCK_CACHED.
Definition isMaskedWrite (p : t) : bool := bool_decide (cmd p = MemCmd.WriteReq) && Request.isMasked (req p).

Definition getAddr (p : t) : result Z := guard! isSet VALID_ADDR p; Ok (addr p).
Definition getSize (p : t) : result Z := guard! isSet VALID_SIZE p; Ok (size p).
Definition isSecure (p : t) : result bool := guard! isSet VALID_ADDR p; Ok (_isSecure p).
(** [blk_size] is an unsigned int: [blk_size - 1] wraps in 32 bits. *)
Definition getOffset (blk_size : Z) (p : t) : result Z :=
  let! a := getAddr p in Ok (Z.land a (uw 32 (blk_size - 1))).
Definition getBlockAddr (blk_size : Z) (p : t) : result Z :=
  let! a := getAddr p in Ok (Z.land a (unot 64 (uw 32 (blk_size - 1)))).

Definition setCacheResponding (p : t) : result t :=
  guard! MemCmd.isRequest (cmd p);
  guard! negb (isSet CACHE_RESPONDING p);
  Ok (set CACHE_RESPONDING p).

Definition needsWritable (p : t) : result bool := guard! MemCmd.isRequest (cmd p); Ok (MemCmd.needsWritable (cmd p)).
Definition hasRespData (p : t) : bool := MemCmd.hasData (MemCmd.responseCommand (cmd p)).
Definition setHasSharers := set HAS_SHARERS.
Definition setExpressSnoop := set EXPRESS_SNOOP.
Definition setResponderHadWritable (p : t) : result t :=
  guard! cacheResponding p;
  guard! negb (isSet RESPONDER_HAD_WRITABLE p);
  Ok (set RESPONDER_HAD_WRITABLE p).
Definition setSatisfied (p : t) : result t :=
  guard! MemCmd.isClean (cmd p);
  guard! negb (isSet SATISFIED p);
  Ok (set SATISFIED p).

Definition matchBlockAddr (a : Z) (is_secure : bool) (blk_size : Z) (p : t) : result bool :=
  let! b := getBlockAddr blk_size p in
  if b =? a then let! s := isSecure p in Ok (eqb s is_secure) else Ok false.
Definition matchBlockAddr_pkt (pkt : t) (blk_size : Z) (p : t) : result bool :=
  let! a := getBlockAddr blk_size pkt in
  let! s := isSecure pkt in
  matchBlockAddr a s blk_size p.

(** The bytes of a new array are indeterminate: [uninit n] are those of an array
    of [n] bytes. *)
Definition allocate (uninit : Z -> list Z) (p : t) : result t :=
  if MemCmd.hasData (cmd p) || hasRespData p then
    guard! Z.land (flags p) (Z.lor STATIC_DATA DYNAMIC_DATA) =? 0;
    let! n := getSize p in Ok (with_data (uninit n) (bytesValid p) (set DYNAMIC_DATA p))
  else Ok p.

(** [Packet(req, cmd)]. *)
Definition new (r : Request.t) (c : Command) : result t :=
  let p := match Request._paddr r with
           | Some a => mk c r a (Request.isSecure r) 0 VALID_ADDR [] []
           | None => mk c r 0 false 0 0 [] []
           end in
  let! p := (if Request.isHTMCmd r then guard! addr p =? 0; Ok (set VALID_ADDR p) else Ok p) in
  match Request._size r with
  | Some n => Ok (mk c r (addr p) (_isSecure p) n (Z.lor (flags p) VALID_SIZE) [] [])
  | None => Ok p
  end.

(** [Packet(req, cmd, blkSize, id)]: the block of the address of the request. *)
Definition new_blk (r : Request.t) (c : Command) (blkSize : Z) : t :=
  match Request._paddr r with
  | Some a => mk c r (Z.land a (unot 64 (blkSize - 1))) (Request.isSecure r) blkSize (Z.lor VALID_ADDR VALID_SIZE) [] []
  | None => mk c r 0 false blkSize VALID_SIZE [] []
  end.

(** [Packet(pkt, clear_flags, alloc_data)]: the copy keeps the data pointer of
    static data. A packet that fails a transaction has a reason for it, so that the
    flag is set in the copy; the reasons and numbers of transactions are left out. *)
Definition copy (uninit : Z -> list Z) (clear_flags alloc_data : bool) (pkt : t) : result t :=
  let fl := if clear_flags then 0 else Z.land (flags pkt) COPY_FLAGS in
  let fl := Z.lor fl (Z.land (flags pkt) (Z.lor VALID_ADDR VALID_SIZE)) in
  let fl := Z.lor fl (Z.land (flags pkt) (Z.lor FROM_TRANSACTION FAILS_TRANSACTION)) in
  let p := mk (cmd pkt) (req pkt) (addr pkt) (_isSecure pkt) (size pkt) fl [] (bytesValid pkt) in
  if alloc_data then
    if isSet STATIC_DATA pkt then Ok (with_data (data pkt) (bytesValid pkt) (set STATIC_DATA p)) else allocate uninit p
  else Ok p.

Definition copyResponderFlags (pkt p : t) : result t :=
  guard! MemCmd.isRequest (cmd p);
  guard! negb (cacheResponding pkt) || negb (cacheResponding p);
  Ok (set (Z.land (flags pkt) RESPONDER_FLAGS) p).

Definition makeResponse (p : t) : result t :=
  guard! MemCmd.needsResponse (cmd p);
  guard! MemCmd.isRequest (cmd p);
  Ok (clear EXPRESS_SNOOP (with_cmd (MemCmd.responseCommand (cmd p)) p)).

Definition makeReadCmd (r : Request.t) : Command :=
  if Request.isHTMCmd r then if Request.isHTMAbort r then MemCmd.HTMAbort else MemCmd.HTMReq
  else if Request.isLLSC r then MemCmd.LoadLockedReq
  else if Request.isPrefetchEx r then MemCmd.SoftPFExReq
  else if Request.isPrefetch r then MemCmd.SoftPFReq
  else if Request.isLockedRMW r then MemCmd.LockedRMWReadReq
  else MemCmd.ReadReq.

Definition makeWriteCmd (r : Request.t) : Command :=
  if Request.isLLSC r then MemCmd.StoreCondReq
  else if Request.isSwap r || Request.isAtomic r then MemCmd.SwapReq
  else if Request.isCacheInvalidate r then
    if Request.isCacheClean r then MemCmd.CleanInvalidReq else MemCmd.InvalidateReq
  else if Request.isCacheClean r then MemCmd.CleanSharedReq
  else if Request.isLockedRMW r then MemCmd.LockedRMWWriteReq
  else MemCmd.WriteReq.

(** [memcpy] of [n] bytes between two buffers. *)
Definition memcpy (dst : list Z) (doff : Z) (src : list Z) (soff n : Z) : result (list Z) :=
  if (doff + n <=? Z.of_nat (length dst)) && (soff + n <=? Z.of_nat (length src)) then
    Ok (take (Z.to_nat doff) dst ++ take (Z.to_nat n) (drop (Z.to_nat soff) src) ++ drop (Z.to_nat (doff + n)) dst)
  else Err Undefined.

Definition hasPtr (p : t) : bool := isSet (Z.lor STATIC_DATA DYNAMIC_DATA) p.

(** [for (; all && i < bound; ++i) all &= bytesValid[i]], [n] bytes from [i]. *)
Fixpoint check_loop (n : nat) (i : Z) (bv : list bool) : result bool :=
  match n with
  | O => Ok true
  | S n => let! b := vget bv i in if b : bool then check_loop n (i + 1) bv else Ok false
  end.
Fixpoint mark_loop (n : nat) (i : Z) (bv : list bool) : result (list bool) :=
  match n with
  | O => Ok bv
  | S n => let! bv := vset bv i true in mark_loop n (i + 1) bv
  end.

(** [trySatisfyFunctional] against the [size] bytes at [addr] in the buffer
    [_data], which is null for [None]: the answer, the packet and the buffer.
    [PrintReq] only prints. *)
Definition trySatisfyFunctional (val_start : Z) (is_secure : bool) (vsize : Z) (_data : option (list Z)) (p : t) :
    result (bool * t * option (list Z)) :=
  let! func_start := getAddr p in
  let! sz := getSize p in
  let func_end := u64 (func_start + sz - 1) in
  let val_end := u64 (val_start + vsize - 1) in
  if negb (eqb is_secure (_isSecure p)) || (val_end <? func_start) || (func_end <? val_start) then Ok (false, p, _data)
  else if MemCmd.isPrint (cmd p) then
    guard! match _data with None => true | Some _ => false end; Ok (false, p, _data)
  else match _data with
  | None => Ok (false, p, None)
  | Some mem =>
      let val_offset := if val_start <? func_start then func_start - val_start else 0 in
      let func_offset := if func_start <? val_start then val_start - func_start else 0 in
      let overlap_size := u64 (u64 (Z.min val_end func_end + 1) - Z.max val_start func_start) in
      if MemCmd.isRead (cmd p) then
        guard! hasPtr p;
        guard! negb (isMaskedWrite p);
        let! d := memcpy (data p) func_offset mem val_offset overlap_size in
        let bv := if bool_decide (bytesValid p = []) then replicate (Z.to_nat sz) false else bytesValid p in
        let! before := check_loop (Z.to_nat func_offset) 0 bv in
        let! bv := mark_loop (Z.to_nat overlap_size) func_offset bv in
        let! all := (if before : bool
                     then check_loop (Z.to_nat (sz - (func_offset + overlap_size))) (func_offset + overlap_size) bv
                     else Ok false) in
        Ok (all, with_data d bv p, Some mem)
      else if MemCmd.isWrite (cmd p) then
        guard! hasPtr p;
        let! mem := memcpy mem val_offset (data p) func_offset overlap_size in
        Ok (false, p, Some mem)
      else Err Panic
  end.

(** A functional access against another packet: the answer, the packet and the
    other packet, whose data a write changes. *)
Definition trySatisfyFunctional_pkt (other p : t) : result (bool * t * t) :=
  if isMaskedWrite other then
    let! s := isSecure other in
    let! _ := (if eqb (_isSecure p) s then
                 let! a := getAddr p in let! oa := getAddr other in let! on := getSize other in
                 if a <=? u64 (oa + on - 1) then getSize p else Ok 0
               else Ok 0) in
    Ok (false, p, other)
  else
    let! a := getAddr other in
    let! s := isSecure other in
    let! n := getSize other in
    let! _ := check AssertFail (negb (MemCmd.hasData (cmd other)) || hasPtr other) in
    let! r := trySatisfyFunctional a s n (if MemCmd.hasData (cmd other) then Some (data other) else None) p in
    Ok (r.1.1, r.1.2, match r.2 with Some d => with_data d (bytesValid other) other | None => other end).
End Packet.

(** ** The command table *)
Import MemCmd.

Definition all_commands : list Command := [
  InvalidCmd; ReadReq; ReadResp; ReadRespWithInvalidate; WriteReq; WriteResp; WriteCompleteResp;
  WritebackDirty; WritebackClean; WriteClean; CleanEvict; SoftPFReq; SoftPFExReq; HardPFReq;
  SoftPFResp; HardPFResp; WriteLineReq; UpgradeReq; SCUpgradeReq; UpgradeResp; SCUpgradeFailReq;
  UpgradeFailResp; ReadExReq; ReadExResp; ReadCleanReq; ReadSharedReq; LoadLockedReq; StoreCondReq;
  StoreCondFailReq; StoreCondResp; LockedRMWReadReq; LockedRMWReadResp; LockedRMWWriteReq;
  LockedRMWWriteResp; SwapReq; SwapResp; MemFenceReq; MemSyncReq; MemSyncResp; MemFenceResp;
  CleanSharedReq; CleanSharedResp; CleanInvalidReq; CleanInvalidResp; InvalidDestError; BadAddressError;
  ReadError; WriteError; FunctionalReadError; FunctionalWriteError; PrintReq; FlushReq; InvalidateReq;
  InvalidateResp; HTMReq; HTMReqResp; HTMAbort; TlbiExtSync].

(** The names of the enumerators, in the order of [all_commands]. *)
Definition enum_names : list string := [
  "InvalidCmd"; "ReadReq"; "ReadResp"; "ReadRespWithInvalidate"; "WriteReq"; "WriteResp"; "WriteCompleteResp";
  "WritebackDirty"; "WritebackClean"; "WriteClean"; "CleanEvict"; "SoftPFReq"; "SoftPFExReq"; "HardPFReq";
  "SoftPFResp"; "HardPFResp"; "WriteLineReq"; "UpgradeReq"; "SCUpgradeReq"; "UpgradeResp"; "SCUpgradeFailReq";
  "UpgradeFailResp"; "ReadExReq"; "ReadExResp"; "ReadCleanReq"; "ReadSharedReq"; "LoadLockedReq"; "StoreCondReq";
  "StoreCondFailReq"; "StoreCondResp"; "LockedRMWReadReq"; "LockedRMWReadResp"; "LockedRMWWriteReq";
  "LockedRMWWriteResp"; "SwapReq"; "SwapResp"; "MemFenceReq"; "MemSyncReq"; "MemSyncResp"; "MemFenceResp";
  "CleanSharedReq"; "CleanSharedResp"; "CleanInvalidReq"; "CleanInvalidResp"; "InvalidDestError"; "BadAddressError";
  "ReadError"; "WriteError"; "FunctionalReadError"; "FunctionalWriteError"; "PrintReq"; "FlushReq"; "InvalidateReq";
  "InvalidateResp"; "HTMReq"; "HTMReqResp"; "HTMAbort"; "TlbiExtSync"]%string.

Lemma all_commands_complete c : c ∈ all_commands.
Proof. unfold all_commands. destruct c; repeat constructor. Qed.

(** The command table is consistent with the enumeration: the entry of every
    command exists and carries its name, and a request that needs a response
    names a response, of the same direction and with data for a read other
    than of a transaction command; a command that needs none names none; evictions come from caches and need no response. *)
Theorem memcmd_table : (fun c => str (entry c)) <$> all_commands = enum_names /\
  forall c, c ∈ all_commands /\ is_Some (commandInfo !! Z.to_nat (toInt c)) /\
    (needsResponse c = true -> isRequest c = true /\ isResponse (responseCommand c) = true /\
       isRead (responseCommand c) = isRead c /\ isWrite (responseCommand c) = isWrite c) /\
    (needsResponse c = true -> isRead c = true -> c <> HTMReq -> hasData (responseCommand c) = true) /\
    (needsResponse c = false -> responseCommand c = InvalidCmd) /\
    (isEviction c = true -> isRequest c = true /\ fromCache c = true /\ needsResponse c = false).
Proof.
  split; [vm_compute; reflexivity|]. intros c. split; [apply all_commands_complete|].
  destruct c; vm_compute; split_and!; try discriminate; try (by eexists); intros; first [congruence | repeat split].
Qed.

(** ** Functional accesses *)
Import Packet.

Lemma memcpy_Ok dst doff src soff n : 0 <= doff -> 0 <= soff -> 0 <= n -> doff + n <= Z.of_nat (length dst) -> soff + n <= Z.of_nat (length src) ->
  exists d, memcpy dst doff src soff n = Ok d /\ length d = length dst /\
    forall k : nat, d !! k = if decide (doff <= Z.of_nat k < doff + n) then src !! Z.to_nat (soff + (Z.of_nat k - doff)) else dst !! k.
Proof.
  intros H1 H2 H3 H4 H5. unfold memcpy. rewrite (proj2 (Z.leb_le _ _) H4), (proj2 (Z.leb_le _ _) H5). cbn [andb].
  eexists. split; [done|]. split; [rewrite !length_app, !length_take, !length_drop; lia|]. intros k.
  case_decide as Hk.
  - rewrite lookup_app_r by (rewrite length_take; lia). rewrite lookup_app_l by (rewrite !length_take, length_drop; lia).
    rewrite lookup_take_lt by (rewrite length_take; lia). rewrite lookup_drop, length_take. f_equal. lia.
  - destruct (decide (Z.of_nat k < doff)).
    + rewrite lookup_app_l by (rewrite length_take; lia). apply lookup_take_lt. lia.
    + rewrite lookup_app_r by (rewrite length_take; lia). rewrite lookup_app_r by (rewrite !length_take, length_drop; lia).
      rewrite lookup_drop, !length_take, length_drop. f_equal. lia.
Qed.

Lemma check_loop_Ok n i bv : 0 <= i -> i + Z.of_nat n <= Z.of_nat (length bv) ->
  check_loop n i bv = Ok (forallb id (take n (drop (Z.to_nat i) bv))).
Proof.
  revert i. induction n as [|n IH]; intros i Hi Hl; [done|]. cbn [check_loop].
  destruct (vget_Ok bv i) as (b & E & Hb); [lia|]. rewrite E, bind_Ok, (drop_S bv b _ Hb). cbn [take forallb].
  destruct b; [|done]. rewrite IH by lia. replace (Z.to_nat (i + 1)) with (S (Z.to_nat i)) by lia. done.
Qed.

Lemma mark_loop_Ok n i bv : 0 <= i -> i + Z.of_nat n <= Z.of_nat (length bv) ->
  mark_loop n i bv = Ok (take (Z.to_nat i) bv ++ replicate n true ++ drop (Z.to_nat i + n) bv).
Proof.
  revert i bv. induction n as [|n IH]; intros i bv Hi Hl; cbn [mark_loop].
  - rewrite Nat.add_0_r. cbn. by rewrite take_drop.
  - rewrite vset_Ok, bind_Ok by lia. rewrite (IH (i + 1) (<[Z.to_nat i := true]> bv)) by (rewrite ?length_insert; lia).
    replace (Z.to_nat (i + 1)) with (S (Z.to_nat i)) by lia.
    rewrite (take_S_r _ _ true) by (apply list_lookup_insert_eq; lia). rewrite take_insert_ge by lia.
    rewrite drop_insert_lt by lia. rewrite <- app_assoc. by replace (S (Z.to_nat i) + n)%nat with (Z.to_nat i + S n)%nat by lia.
Qed.

(** The byte [k] of the packet lies in the buffer at [vs]. *)
Definition covered (p : t) (vs vsize : Z) (k : nat) : Prop := vs <= addr p + Z.of_nat k < vs + vsize.
#[global] Instance covered_dec p vs vsize k : Decision (covered p vs vsize k).
Proof. unfold covered. apply _. Defined.

(** A packet with an address, a size and a data buffer. *)
Definition pkt_ok (p : t) : Prop :=
  isSet VALID_ADDR p = true /\ isSet VALID_SIZE p = true /\ hasPtr p = true /\ 0 < size p < 2 ^ 32 /\ Z.of_nat (length (data p)) = size p /\
  0 <= addr p /\ addr p + size p <= 2 ^ 64 /\ (bytesValid p = [] \/ Z.of_nat (length (bytesValid p)) = size p).

(** The valid bytes before the access. *)
Definition valid_bytes (p : t) : list bool :=
  if bool_decide (bytesValid p = []) then replicate (Z.to_nat (size p)) false else bytesValid p.

Lemma valid_bytes_length p : pkt_ok p -> Z.of_nat (length (valid_bytes p)) = size p.
Proof.
  intros (_ & _ & _ & Hs & _ & _ & _ & Hb). unfold valid_bytes. case_bool_decide as E; [rewrite length_replicate; lia|]. by destruct Hb.
Qed.

(** What a functional access computes before it copies. *)
Section Overlap.
Context (p : t) (vs vsize : Z).
Hypothesis Hp : pkt_ok p.
Hypothesis Hv : 0 <= vs /\ 0 < vsize /\ vs + vsize <= 2 ^ 64.
Definition lo : Z := Z.max vs (addr p).
Definition hi : Z := Z.min (vs + vsize) (addr p + size p).

Lemma ends : u64 (addr p + size p - 1) = addr p + size p - 1 /\ u64 (vs + vsize - 1) = vs + vsize - 1.
Proof. destruct Hp as (_ & _ & _ & ? & _ & ? & ? & _). split; apply uw_small; unfold in_uw; lia. Qed.

Lemma no_overlap : ~ lo < hi -> ((vs + vsize - 1 <? addr p) || (addr p + size p - 1 <? vs)) = true.
Proof.
  destruct Hp as (_ & _ & _ & ? & _). unfold lo, hi. intros Hn. destruct (Z.ltb_spec (vs + vsize - 1) (addr p)); [done|].
  destruct (Z.ltb_spec (addr p + size p - 1) vs); [done|]. lia.
Qed.

Lemma overlap : lo < hi -> ((vs + vsize - 1 <? addr p) || (addr p + size p - 1 <? vs)) = false /\
  (if vs <? addr p then addr p - vs else 0) = lo - vs /\ (if addr p <? vs then vs - addr p else 0) = lo - addr p /\
  u64 (u64 (Z.min (vs + vsize - 1) (addr p + size p - 1) + 1) - Z.max vs (addr p)) = hi - lo.
Proof.
  destruct Hp as (_ & _ & _ & ? & _ & ? & ? & _). unfold lo, hi. intros Hlt. split_and!.
  - destruct (Z.ltb_spec (vs + vsize - 1) (addr p)), (Z.ltb_spec (addr p + size p - 1) vs); try done; lia.
  - destruct (Z.ltb_spec vs (addr p)); lia.
  - destruct (Z.ltb_spec (addr p) vs); lia.
  - unfold u64, uw. rewrite Zminus_mod_idemp_l. rewrite Z.mod_small; lia.
Qed.
End Overlap.

(** The packet and the buffer have a byte in common. *)
Definition meets (p : t) (vs vsize : Z) : Prop := addr p < vs + vsize /\ vs < addr p + size p.

Lemma meets_overlap p vs vsize : pkt_ok p -> 0 < vsize -> meets p vs vsize <-> lo p vs < hi p vs vsize.
Proof. intros (_ & _ & _ & ? & _) ?. unfold meets, lo, hi. lia. Qed.

Lemma functional_read p vs vsize mem : pkt_ok p -> 0 <= vs /\ 0 < vsize /\ vs + vsize <= 2 ^ 64 -> Z.of_nat (length mem) = vsize ->
  isPrint (cmd p) = false -> isRead (cmd p) = true -> meets p vs vsize ->
  exists p', trySatisfyFunctional vs (_isSecure p) vsize (Some mem) p = Ok (forallb id (bytesValid p'), p', Some mem) /\
    p' = with_data (data p') (bytesValid p') p /\ length (data p') = length (data p) /\ Z.of_nat (length (bytesValid p')) = size p /\
    forall k, (k < Z.to_nat (size p))%nat ->
      data p' !! k = (if decide (covered p vs vsize k) then mem !! Z.to_nat (addr p + Z.of_nat k - vs) else data p !! k) /\
      bytesValid p' !! k = (if decide (covered p vs vsize k) then Some true else valid_bytes p !! k).
Proof.
  intros Hp Hv Hm Hnp Hr Hmeet. pose proof (valid_bytes_length p Hp) as Hbv. apply (meets_overlap p vs vsize Hp) in Hmeet; [|lia].
  destruct (overlap p vs vsize Hp Hv Hmeet) as (O1 & O2 & O3 & O4). destruct (ends p vs vsize Hp Hv) as [E1 E2].
  pose proof Hp as (F1 & F2 & F3 & Hsz & Hd & Ha & Hw & _). assert (Hrange : addr p <= lo p vs /\ vs <= lo p vs /\ hi p vs vsize <= addr p + size p /\ hi p vs vsize <= vs + vsize) by (unfold lo, hi; lia).
  set (fo := lo p vs - addr p) in *. set (ov := hi p vs vsize - lo p vs) in *.
  destruct (memcpy_Ok (data p) fo mem (lo p vs - vs) ov) as (d & Ed & Hdl & Hdk); [lia..|].
  set (bv' := take (Z.to_nat fo) (valid_bytes p) ++ replicate (Z.to_nat ov) true ++ drop (Z.to_nat fo + Z.to_nat ov) (valid_bytes p)).
  assert (Hbl : length bv' = length (valid_bytes p)) by (unfold bv'; rewrite !length_app, length_take, length_replicate, length_drop; lia).
  exists (with_data d bv' p). cbn [data bytesValid with_data]. split; [|split; [done|]; split; [done|]; split; [lia|]].
  - unfold trySatisfyFunctional, getAddr, getSize. rewrite F1, F2. cbn [check rbind]. rewrite E1, E2, eqb_reflx. cbn [negb orb]. rewrite O1, Hnp, O2, O3, O4, Hr, F3.
    cbn [negb check rbind]. assert (Hmw : isMaskedWrite p = false) by (unfold isMaskedWrite; destruct (cmd p); done).
    rewrite Hmw. cbn [negb check rbind]. rewrite Ed, bind_Ok. fold (valid_bytes p).
    rewrite (check_loop_Ok (Z.to_nat fo) 0 (valid_bytes p)), bind_Ok by lia. rewrite mark_loop_Ok, bind_Ok by lia. fold bv'.
    assert (Hall : forallb id bv' = forallb id (take (Z.to_nat fo) (valid_bytes p)) && forallb id (drop (Z.to_nat fo + Z.to_nat ov) (valid_bytes p))).
    { unfold bv'. rewrite !forallb_app. f_equal. replace (forallb id (replicate (Z.to_nat ov) true)) with true; [done|].
      clear. induction (Z.to_nat ov) as [|n IH]; [done|exact IH]. }
    change (drop (Z.to_nat 0) (valid_bytes p)) with (valid_bytes p). destruct (forallb id (take (Z.to_nat fo) (valid_bytes p))); [|by rewrite Hall].
    rewrite check_loop_Ok, bind_Ok by lia. rewrite Hall. cbn [andb]. do 4 f_equal. unfold bv'.
    rewrite app_assoc, drop_app_ge by (rewrite length_app, length_take, length_replicate; lia).
    rewrite take_ge by (rewrite length_drop, length_drop, length_app, length_take, length_replicate; lia).
    rewrite drop_drop. f_equal. rewrite length_app, length_take, length_replicate. lia.
  - intros k Hk. assert (Hcov : covered p vs vsize k <-> fo <= Z.of_nat k < fo + ov) by (unfold covered, fo, ov, lo, hi; lia).
    split.
    + rewrite Hdk. destruct (decide (covered p vs vsize k)) as [Hc|Hc].
      * rewrite decide_True by tauto. f_equal. lia.
      * rewrite decide_False by tauto. done.
    + unfold bv'. destruct (decide (covered p vs vsize k)) as [Hc|Hc].
      * apply Hcov in Hc. rewrite lookup_app_r by (rewrite length_take; lia). rewrite lookup_app_l by (rewrite length_take, length_replicate; lia).
        apply lookup_replicate_2. rewrite length_take. lia.
      * assert (Hnc : ~ (fo <= Z.of_nat k < fo + ov)) by tauto. destruct (decide (Z.of_nat k < fo)).
        -- rewrite lookup_app_l by (rewrite length_take; lia). apply lookup_take_lt. lia.
        -- rewrite lookup_app_r by (rewrite length_take; lia). rewrite lookup_app_r by (rewrite length_take, length_replicate; lia).
           rewrite lookup_drop, length_take, length_replicate. f_equal. lia.
Qed.

Lemma functional_write p vs vsize mem : pkt_ok p -> 0 <= vs /\ 0 < vsize /\ vs + vsize <= 2 ^ 64 -> Z.of_nat (length mem) = vsize ->
  isPrint (cmd p) = false -> isRead (cmd p) = false -> isWrite (cmd p) = true -> meets p vs vsize ->
  exists mem', trySatisfyFunctional vs (_isSecure p) vsize (Some mem) p = Ok (false, p, Some mem') /\ length mem' = length mem /\
    forall k, (k < length mem)%nat -> mem' !! k =
      if decide (addr p <= vs + Z.of_nat k < addr p + size p) then data p !! Z.to_nat (vs + Z.of_nat k - addr p) else mem !! k.
Proof.
  intros Hp Hv Hm Hnp Hr Hw Hmeet. apply (meets_overlap p vs vsize Hp) in Hmeet; [|lia].
  destruct (overlap p vs vsize Hp Hv Hmeet) as (O1 & O2 & O3 & O4). destruct (ends p vs vsize Hp Hv) as [E1 E2].
  pose proof Hp as (F1 & F2 & F3 & Hsz & Hd & Ha & Hx & _). assert (Hrange : addr p <= lo p vs /\ vs <= lo p vs /\ hi p vs vsize <= addr p + size p /\ hi p vs vsize <= vs + vsize) by (unfold lo, hi; lia).
  destruct (memcpy_Ok mem (lo p vs - vs) (data p) (lo p vs - addr p) (hi p vs vsize - lo p vs)) as (d & Ed & Hdl & Hdk); [lia..|].
  exists d. split; [|split; [done|]].
  - unfold trySatisfyFunctional, getAddr, getSize. rewrite F1, F2. cbn [check rbind]. rewrite E1, E2, eqb_reflx. cbn [negb orb]. rewrite O1, Hnp, O2, O3, O4, Hr, Hw, F3.
    cbn [negb check rbind]. by rewrite Ed.
  - intros k Hk. rewrite Hdk. unfold lo, hi in *. repeat case_decide; try lia; [f_equal; lia|done].
Qed.

Lemma functional_apart p vs sec vsize mem : pkt_ok p -> 0 <= vs /\ 0 < vsize /\ vs + vsize <= 2 ^ 64 -> sec <> _isSecure p \/ ~ meets p vs vsize ->
  trySatisfyFunctional vs sec vsize (Some mem) p = Ok (false, p, Some mem).
Proof.
  intros Hp Hv Hn. destruct (ends p vs vsize Hp Hv) as [E1 E2]. pose proof Hp as (F1 & F2 & _).
  unfold trySatisfyFunctional, getAddr, getSize. rewrite F1, F2. cbn [check rbind]. rewrite E1, E2.
  destruct Hn as [Hn|Hn]; [by destruct sec, (_isSecure p)|].
  rewrite (meets_overlap p vs vsize Hp) in Hn by lia. rewrite <- orb_assoc, (no_overlap p vs vsize Hp) by done. by rewrite orb_true_r.
Qed.

(** A functional access checks the packet against the bytes of a buffer in
    flight. Without a common byte, or in the other address space, nothing changes.
    A read takes exactly the common bytes from the buffer, marks them valid and
    reports whether the whole packet is valid now; a write stores exactly the
    common bytes into the buffer. No copy is out of bounds. *)
Theorem packet_functional_access p vs sec vsize mem : pkt_ok p -> 0 <= vs /\ 0 < vsize /\ vs + vsize <= 2 ^ 64 -> Z.of_nat (length mem) = vsize ->
  isPrint (cmd p) = false -> isRead (cmd p) || isWrite (cmd p) = true ->
  exists r p' mem', trySatisfyFunctional vs sec vsize (Some mem) p = Ok (r, p', Some mem') /\
    (sec <> _isSecure p \/ ~ meets p vs vsize -> p' = p /\ mem' = mem /\ r = false) /\
    (sec = _isSecure p -> meets p vs vsize ->
     if isRead (cmd p) then
       mem' = mem /\ p' = with_data (data p') (bytesValid p') p /\ r = forallb id (bytesValid p') /\
       length (data p') = length (data p) /\ Z.of_nat (length (bytesValid p')) = size p /\
       forall k, (k < Z.to_nat (size p))%nat ->
         data p' !! k = (if decide (covered p vs vsize k) then mem !! Z.to_nat (addr p + Z.of_nat k - vs) else data p !! k) /\
         bytesValid p' !! k = (if decide (covered p vs vsize k) then Some true else valid_bytes p !! k)
     else
       p' = p /\ r = false /\ length mem' = length mem /\
       forall k, (k < length mem)%nat -> mem' !! k =
         if decide (addr p <= vs + Z.of_nat k < addr p + size p) then data p !! Z.to_nat (vs + Z.of_nat k - addr p) else mem !! k).
Proof.
  intros Hp Hv Hm Hnp Hrw. assert (Hdec : Decision (sec = _isSecure p /\ meets p vs vsize)) by (unfold meets; apply _).
  destruct (decide (sec = _isSecure p /\ meets p vs vsize)) as [[-> Hmt]|Hn].
  2: { exists false, p, mem. split; [apply functional_apart; try done; destruct (decide (sec = _isSecure p)); tauto|]. split; [done|tauto]. }
  destruct (isRead (cmd p)) eqn:Hr.
  - destruct (functional_read p vs vsize mem Hp Hv Hm Hnp Hr Hmt) as (p' & E & H1 & H2 & H3 & H4).
    exists (forallb id (bytesValid p')), p', mem. split; [done|]. split; [tauto|]. intros _ _. by split_and!.
  - destruct (functional_write p vs vsize mem Hp Hv Hm Hnp Hr Hrw Hmt) as (mem' & E & H). exists false, p, mem'. split; [done|]. split; [tauto|]. by intros.
Qed.

(** An 8-byte read at 0x1004 against a 64-byte line at 0x1000 of which the first
    bytes are 0, 1, 2 and so on. *)
Definition ex_read : t := mk ReadReq (Request.mk 0 [] None None) 0x1004 false 8 0x3300 (replicate 8 0) [].
Definition ex_line : list Z := Z.of_nat <$> seq 0 64.

Lemma packet_functional_access_witness : exists p', trySatisfyFunctional 0x1000 false 64 (Some ex_line) ex_read = Ok (true, p', Some ex_line) /\
  data p' !! 3%nat = ex_line !! 7%nat.
Proof.
  destruct (packet_functional_access ex_read 0x1000 false 64 ex_line) as (r & p' & mem' & E & _ & H).
  - unfold pkt_ok. vm_compute. repeat split; try done. by left.
  - lia.
  - reflexivity.
  - reflexivity.
  - reflexivity.
  - destruct H as (-> & _ & _ & _ & _ & Hk); [reflexivity|unfold meets; cbn; lia|]. exists p'. split.
    + rewrite E. f_equal. f_equal. f_equal. vm_compute in E. injection E. intros _ <-. done.
    + destruct (Hk 3%nat) as [Hd _]; [vm_compute; lia|]. rewrite Hd, decide_True by (unfold covered; cbn; lia). reflexivity.
Defined.
