(* ===== verification/SnoopLaws.v ===== *)
(** * Snoop filter: the theorems

    Invariant of the filter, the exact answer of the lookups, the undoing of a
    retried request, and the guarantee that a port stays tracked. *)

From S2P Require Import Prelude Bits Packet SnoopFilter.
Import SnoopFilter.SnoopFilter.

(** ** Ports and masks *)
Record ports_ok (s : t) : Prop := {
  po_snoop : Forall (fun p => isSnooping p = true) (cpuSidePorts s);
  po_ids i p : cpuSidePorts s !! i = Some p -> getId p <> InvalidPortID /\ vget (localResponsePortIds s) (getId p) = Ok (Z.of_nat i);
  po_count : Z.of_nat (length (cpuSidePorts s)) <= SNOOP_MASK_SIZE;
}.

Lemma port_mask s i p : ports_ok s -> cpuSidePorts s !! i = Some p -> portToMask s p = Ok (Z.shiftl 1 (Z.of_nat i)).
Proof.
  intros Hs Hi. destruct (po_ids s Hs i p Hi) as [Hid Hv]. pose proof (po_snoop s Hs) as Hsn. rewrite Forall_lookup in Hsn.
  unfold portToMask. destruct (Z.eqb_spec (getId p) InvalidPortID); [done|]. cbn [negb check rbind]. rewrite (Hsn i p Hi), Hv. cbn [negb rbind].
  apply lookup_lt_Some in Hi. pose proof (po_count s Hs). destruct (Z.leb_spec 0 (Z.of_nat i)), (Z.ltb_spec (Z.of_nat i) SNOOP_MASK_SIZE); try lia. done.
Qed.

Lemma one_hot_bit i j : 0 <= i -> 0 <= j -> Z.testbit (Z.shiftl 1 i) j = bool_decide (i = j).
Proof.
  intros Hi Hj. rewrite Z.shiftl_spec by done. case_bool_decide as E; [by rewrite E, Z.sub_diag|].
  destruct (Z.ltb_spec j i); [by rewrite Z.testbit_neg_r by lia|]. rewrite Z.bits_above_log2; [done|lia|]. cbn. lia.
Qed.

Lemma any_one_hot m i : 0 <= i -> any (Z.land m (Z.shiftl 1 i)) = Z.testbit m i.
Proof.
  intros Hi. unfold any. destruct (Z.testbit m i) eqn:E.
  - apply negb_true_iff, Z.eqb_neq. intros H0. apply (f_equal (fun x => Z.testbit x i)) in H0.
    rewrite Z.land_spec, one_hot_bit, E, bool_decide_true, Z.bits_0 in H0 by done. done.
  - apply negb_false_iff, Z.eqb_eq. apply Z.bits_inj'. intros j Hj. rewrite Z.land_spec, one_hot_bit, Z.bits_0 by done.
    case_bool_decide; [subst; by rewrite E|by rewrite andb_false_r].
Qed.

Lemma none_any m : none m = negb (any m).
Proof. unfold none, any. by rewrite negb_involutive. Qed.

(** The ports whose bit is set in the mask, in order. *)
Fixpoint picked (m : Z) (i : nat) (ports : list ResponsePort) : list ResponsePort :=
  match ports with
  | [] => []
  | p :: ports => if Z.testbit m (Z.of_nat i) then p :: picked m (S i) ports else picked m (S i) ports
  end.

Lemma elem_picked m i ports p : p ∈ picked m i ports <-> exists k, ports !! k = Some p /\ Z.testbit m (Z.of_nat (i + k)) = true.
Proof.
  revert i. induction ports as [|q ports IH]; intros i; cbn [picked].
  - split; [by intros ?%elem_of_nil|intros (k & Hk & _); done].
  - destruct (Z.testbit m (Z.of_nat i)) eqn:E; rewrite ?elem_of_cons, IH; split.
    + intros [->|(k & Hk & Ht)]; [exists 0%nat; by rewrite Nat.add_0_r|]. exists (S k). by replace (i + S k)%nat with (S i + k)%nat by lia.
    + intros ([|k] & Hk & Ht); [left; by injection Hk|right; exists k; by replace (S i + k)%nat with (i + S k)%nat by lia].
    + intros (k & Hk & Ht). exists (S k). by replace (i + S k)%nat with (S i + k)%nat by lia.
    + intros ([|k] & Hk & Ht); [rewrite Nat.add_0_r in Ht; congruence|exists k; by replace (S i + k)%nat with (i + S k)%nat by lia].
Qed.

Lemma picked_0 i ports : picked 0 i ports = [].
Proof. revert i. induction ports as [|p ports IH]; intros i; [done|]. cbn [picked]. rewrite Z.bits_0. apply IH. Qed.

Lemma select_spec s m ports i : ports_ok s -> (forall k p, ports !! k = Some p -> cpuSidePorts s !! (i + k)%nat = Some p) ->
  select_loop s m ports = Ok (picked m i ports).
Proof.
  intros Hs. revert i. induction ports as [|p ports IH]; intros i Hp; [done|]. cbn [select_loop picked].
  rewrite (port_mask s i p Hs), bind_Ok by (rewrite <- (Nat.add_0_r i); by apply Hp).
  rewrite (IH (S i)), bind_Ok, any_one_hot by (lia || (intros k q Hk; replace (S i + k)%nat with (i + S k)%nat by lia; by apply Hp)). by destruct (Z.testbit _ _).
Qed.

(** The ports of a mask. *)
Definition ports_of (s : t) (m : Z) : list ResponsePort := picked m 0 (cpuSidePorts s).

Lemma maskToPortList_spec s m : ports_ok s -> maskToPortList s m = Ok (ports_of s m).
Proof. intros Hs. apply select_spec; [done|]. intros k p Hk. done. Qed.

Lemma elem_ports_of s m p : p ∈ ports_of s m <-> exists i, cpuSidePorts s !! i = Some p /\ Z.testbit m (Z.of_nat i) = true.
Proof. unfold ports_of. apply elem_picked. Qed.

(** A port of the crossbar. *)
Definition known (s : t) (p : ResponsePort) : Prop :=
  if isSnooping p then p ∈ cpuSidePorts s else getId p <> InvalidPortID.

Lemma known_mask s p : ports_ok s -> known s p -> exists m, portToMask s p = Ok m /\
  if isSnooping p then exists i, cpuSidePorts s !! i = Some p /\ m = Z.shiftl 1 (Z.of_nat i) else m = 0.
Proof.
  unfold known. intros Hs Hk. destruct (isSnooping p) eqn:Hp.
  - apply list_elem_of_lookup in Hk as (i & Hi). exists (Z.shiftl 1 (Z.of_nat i)). split; [by apply port_mask|]. by exists i.
  - exists 0. split; [|done]. unfold portToMask. destruct (Z.eqb_spec (getId p) InvalidPortID); [done|]. by rewrite Hp.
Qed.

(** ** Invariant *)

(** No entry without a holder or a request. *)
Definition item_ok (item : SnoopItem) : Prop := 0 <= requested item /\ 0 <= holder item /\ any (Z.lor (requested item) (holder item)) = true.

Record sf_inv (s : t) : Prop := {
  si_ports : ports_ok s;
  si_line : 0 < linesize s < 2 ^ 32;
  si_items line item : cachedLocations s !! line = Some item -> item_ok item;
}.

(** States with the same configuration. *)
Definition same_cfg (s s' : t) : Prop :=
  cpuSidePorts s' = cpuSidePorts s /\ localResponsePortIds s' = localResponsePortIds s /\ linesize s' = linesize s /\
  lookupLatency s' = lookupLatency s /\ maxEntryCount s' = maxEntryCount s.

Lemma same_cfg_ports s s' : same_cfg s s' -> ports_ok s -> ports_ok s'.
Proof. intros (E1 & E2 & E3 & _) [H1 H2 H3]. constructor; rewrite E1; [done|rewrite E2; done|done]. Qed.

Lemma same_cfg_inv s s' : same_cfg s s' -> sf_inv s -> (forall line item, cachedLocations s' !! line = Some item -> item_ok item) -> sf_inv s'.
Proof. intros Hc [H1 H2 H3] Hi. constructor; [by eapply same_cfg_ports|destruct Hc as (_ & _ & -> & _); done|done]. Qed.

#[global] Instance same_cfg_preorder : PreOrder same_cfg.
Proof. split; [done|]. intros s1 s2 s3 (?&?&?&?&?) (?&?&?&?&?). unfold same_cfg. split_and!; congruence. Qed.

Lemma erase_cfg line s : same_cfg s (erase line s).
Proof. unfold erase. destruct (it s); try done. by destruct (line0 =? line). Qed.
Lemma erase_map line s : cachedLocations (erase line s) = delete line (cachedLocations s).
Proof. unfold erase. destruct (it s); try done. by destruct (line0 =? line). Qed.

Lemma eraseIfNull_cfg line s : same_cfg s (eraseIfNullEntry line s).
Proof. unfold eraseIfNullEntry. destruct (_ !! _); [|done]. destruct (none _); [apply erase_cfg|done]. Qed.

(** The map after an entry has been written and erased if it is null. *)
Lemma eraseIfNull_map line item s : cachedLocations (eraseIfNullEntry line (set_item line item s)) =
  if none (Z.lor (requested item) (holder item)) then delete line (cachedLocations s) else <[line := item]> (cachedLocations s).
Proof.
  unfold eraseIfNullEntry, set_item. cbn [cachedLocations with_map]. rewrite lookup_insert_eq. destruct (none _); [|done].
  rewrite erase_map. cbn. by rewrite delete_insert_eq.
Qed.

Lemma line_cfg s s' pkt : same_cfg s s' -> line_addr s' pkt = line_addr s pkt.
Proof. intros (_ & _ & E & _). unfold line_addr. by rewrite E. Qed.

Lemma ports_cfg s s' m : same_cfg s s' -> ports_of s' m = ports_of s m.
Proof. intros (E & _). unfold ports_of. by rewrite E. Qed.

Lemma mask_cfg s s' p : same_cfg s s' -> portToMask s' p = portToMask s p.
Proof. intros (_ & E & _). unfold portToMask. by rewrite E. Qed.

(** ** Requests *)
Definition allocates (pkt : Packet.t) (port : ResponsePort) : bool :=
  negb (Request.isUncacheable (Packet.req pkt)) && isSnooping port && MemCmd.fromCache (Packet.cmd pkt).
Definition null_item : SnoopItem := mkItem 0 0.

Lemma lookupRequest_inv s pkt port line m l lat s1 : sf_inv s -> line_addr s pkt = Ok line -> portToMask s port = Ok m ->
  lookupRequest pkt port s = Ok (l, lat, s1) ->
  (cachedLocations s !! line = None /\ allocates pkt port = false /\ l = [] /\ s1 = with_lookup EndIt (retryItem s) s) \/
  exists item item', item = default null_item (cachedLocations s !! line) /\
    (if allocates pkt port then request_item pkt m item = Ok item' else item' = item /\ cachedLocations s !! line = Some item) /\
    l = ports_of s (Z.ldiff (Z.lor (holder item) (requested item)) m) /\
    s1 = with_map (<[line := item']> (<[line := item]> (cachedLocations s))) (with_lookup (At line) item s).
Proof.
  intros Hs Hline Hm E. unfold lookupRequest in E. rewrite Hline, bind_Ok, Hm, bind_Ok in E. fold (allocates pkt port) in E. fold null_item in E.
  destruct (allocates pkt port) eqn:Ha.
  - right. set (item := default null_item (cachedLocations s !! line)) in *.
    assert (E' : (let! s0 := (let! item0 := request_item pkt m item in Ok (set_item line item0 (with_lookup (At line) item (set_item line item s)))) in
        let! ports := maskToPortList s0 (Z.ldiff (Z.lor (holder item) (requested item)) m) in Ok (ports, lookupLatency s0, s0)) = Ok (l, lat, s1))
      by (destruct (cachedLocations s !! line); exact E). clear E. ok_inv. subst.
    exists item, r1. rewrite maskToPortList_spec in E0 by (eapply same_cfg_ports; [|by apply si_ports]; done). injection E0 as <-. done.
  - destruct (cachedLocations s !! line) as [item|] eqn:El; [right|left].
    + cbn [default] in E. rewrite bind_Ok in E. ok_inv. subst. exists item, item.
      rewrite maskToPortList_spec in E0 by (eapply same_cfg_ports; [|by apply si_ports]; done). injection E0 as <-.
      split_and!; try done. cbn. unfold set_item, with_lookup, with_map. cbn. by rewrite insert_insert_eq.
    + ok_inv. by subst.
Qed.

Lemma block_line s pkt line : 0 < linesize s < 2 ^ 32 -> line_addr s pkt = Ok line ->
  line = (if Packet._isSecure pkt then Z.lor (Z.land (Packet.addr pkt) (unot 64 (u64 (linesize s - 1)))) LineSecure
          else Z.land (Packet.addr pkt) (unot 64 (u64 (linesize s - 1)))).
Proof.
  intros Hl E. unfold line_addr, Packet.getBlockAddr, Packet.getAddr, Packet.isSecure in E. ok_inv. subst.
  assert (uw 32 (linesize s - 1) = u64 (linesize s - 1)) as -> by (unfold uw, u64; rewrite !Z.mod_small; lia). done.
Qed.

(** The request and the report of the crossbar whether it will be retried. *)
Definition request (pkt : Packet.t) (port : ResponsePort) (will_retry : bool) (s : t) : result (list ResponsePort * t) :=
  let! r := lookupRequest pkt port s in
  let '(l, _, s1) := r in
  let! s2 := finishRequest will_retry (Packet.addr pkt) (Packet._isSecure pkt) s1 in
  Ok (l, s2).

(** The item of the line after a request. *)
Definition after_request (s : t) (line : Z) (item' : SnoopItem) : gmap Z SnoopItem :=
  if none (Z.lor (requested item') (holder item')) then delete line (cachedLocations s) else <[line := item']> (cachedLocations s).

Lemma after_same s line : sf_inv s ->
  after_request s line (default null_item (cachedLocations s !! line)) = cachedLocations s.
Proof.
  intros Hs. unfold after_request. destruct (cachedLocations s !! line) as [item|] eqn:E; cbn [default].
  - change (id item) with item. rewrite none_any. destruct (si_items s Hs line item E) as (_ & _ & ->). cbn. by apply insert_id.
  - cbn. by apply delete_id.
Qed.

Lemma finish_map s line item item' retry pkt : sf_inv s -> line_addr s pkt = Ok line ->
  exists s2, finishRequest retry (Packet.addr pkt) (Packet._isSecure pkt)
      (with_map (<[line := item']> (<[line := item]> (cachedLocations s))) (with_lookup (At line) item s)) = Ok s2 /\
    same_cfg s s2 /\ cachedLocations s2 = after_request s line (if retry then item else item').
Proof.
  intros Hs Hline. set (s1 := with_map _ _). unfold finishRequest. cbn [it s1 with_map with_lookup linesize].
  rewrite <- (block_line s pkt line (si_line s Hs) Hline), Z.eqb_refl. cbn [check rbind].
  eexists. split; [done|]. split; [etransitivity; [|apply eraseIfNull_cfg]; by destruct retry|].
  unfold after_request. destruct retry.
  - rewrite eraseIfNull_map. unfold s1. cbn. rewrite !insert_insert_eq, ?delete_insert_eq. by destruct (none _).
  - change s1 with (set_item line item' (set_item line item (with_lookup (At line) item s))). rewrite eraseIfNull_map. cbn.
    rewrite !insert_insert_eq, ?delete_insert_eq. by destruct (none _).
Qed.

(** ** The filter as a function of the line *)
Definition item_at (s : t) (line : Z) : SnoopItem := default null_item (cachedLocations s !! line).
Definition item_nn (item : SnoopItem) : Prop := 0 <= requested item /\ 0 <= holder item.

Lemma item_at_nn s line : sf_inv s -> item_nn (item_at s line).
Proof.
  intros Hs. unfold item_at. destruct (cachedLocations s !! line) as [item|] eqn:E; [|done]. destruct (si_items s Hs line item E) as (? & ? & _). done.
Qed.

Lemma none_item item : item_nn item -> none (Z.lor (requested item) (holder item)) = true -> item = null_item.
Proof.
  intros [H1 H2] Hn. apply Z.eqb_eq, Z.lor_eq_0_iff in Hn as [E1 E2]. destruct item. cbn in *. by subst.
Qed.

(** The map [s2] has after the entry of a line was written and erased if null. *)
Lemma after_view s s2 line item' : item_nn item' -> cachedLocations s2 = after_request s line item' ->
  item_at s2 line = item' /\ forall line', line' <> line -> item_at s2 line' = item_at s line'.
Proof.
  intros Hn E. unfold item_at. rewrite E. unfold after_request. destruct (none _) eqn:En.
  - apply none_item in En; [|done]. split; [rewrite lookup_delete_eq; by cbn|]. intros line' Hne. by rewrite lookup_delete_ne.
  - split; [by rewrite lookup_insert_eq|]. intros line' Hne. by rewrite lookup_insert_ne.
Qed.

Lemma after_inv s s2 line item' : sf_inv s -> same_cfg s s2 -> item_nn item' -> cachedLocations s2 = after_request s line item' -> sf_inv s2.
Proof.
  intros Hs Hc [H1 H2] E. eapply same_cfg_inv; [done..|]. intros line' item. rewrite E. unfold after_request.
  destruct (none _) eqn:En.
  - intros Hl. apply lookup_delete_Some in Hl as [_ Hl]. by eapply si_items.
  - intros Hl. apply lookup_insert_Some in Hl as [[<- <-]|[_ Hl]]; [|by eapply si_items].
    unfold item_ok. split_and!; try done. rewrite none_any in En. by apply negb_false_iff.
Qed.

(** What an operation does: at most one line changes, to [item']. *)
Definition changes (s s' : t) (line : Z) (item' : SnoopItem) : Prop :=
  same_cfg s s' /\ sf_inv s' /\ item_at s' line = item' /\ forall line', line' <> line -> item_at s' line' = item_at s line'.

Lemma changes_after s s' line item' : sf_inv s -> same_cfg s s' -> item_nn item' -> cachedLocations s' = after_request s line item' -> changes s s' line item'.
Proof. intros Hs Hc Hn E. split; [done|]. split; [by eapply after_inv|]. by apply after_view. Qed.

Lemma changes_none s line : sf_inv s -> changes s s line (item_at s line).
Proof. done. Qed.

(** An entry that is written and cannot be null. *)
Lemma changes_set s line item' : sf_inv s -> item_nn item' -> any (Z.lor (requested item') (holder item')) = true -> changes s (set_item line item' s) line item'.
Proof.
  intros Hs Hn Ha. apply changes_after; try done. unfold after_request. rewrite none_any, Ha. done.
Qed.

Lemma changes_erase s line item' : sf_inv s -> item_nn item' -> changes s (eraseIfNullEntry line (set_item line item' s)) line item'.
Proof.
  intros Hs Hn. apply changes_after; [done| |done|apply eraseIfNull_map]. etransitivity; [|apply eraseIfNull_cfg]. done.
Qed.

Lemma ldiff_nn a b : 0 <= a -> 0 <= Z.ldiff a b.
Proof. intros. apply Z.ldiff_nonneg. by left. Qed.

Lemma request_item_nn pkt m item item' : 0 <= m -> item_nn item -> request_item pkt m item = Ok item' -> item_nn item'.
Proof.
  intros Hm [H1 H2] E. unfold request_item in E. destruct (MemCmd.needsResponse _); [destruct (negb _)|]; ok_inv; subst.
  - split; cbn; [by apply Z.lor_nonneg|done].
  - done.
  - destruct (Packet.isBlockCached pkt); cbn [negb]; [done|]. split; cbn; [done|by apply ldiff_nn].
Qed.

Lemma mask_nn s p m : portToMask s p = Ok m -> 0 <= m.
Proof.
  unfold portToMask. intros E. ok_inv. destruct (negb (isSnooping p)); ok_inv; subst; [done|].
  destruct ((0 <=? r) && (r <? SNOOP_MASK_SIZE)) eqn:Er; [|done]. apply Z.shiftl_nonneg. lia.
Qed.

(** A request, with the report of the crossbar: the line changes only if the
    request allocates and is not retried. *)
Lemma request_spec s pkt port retry line m l s2 : sf_inv s -> line_addr s pkt = Ok line -> portToMask s port = Ok m ->
  request pkt port retry s = Ok (l, s2) ->
  l = ports_of s (Z.ldiff (Z.lor (holder (item_at s line)) (requested (item_at s line))) m) /\
  (retry = true -> cachedLocations s2 = cachedLocations s) /\
  exists item', changes s s2 line item' /\
    if allocates pkt port && negb retry then request_item pkt m (item_at s line) = Ok item' else item' = item_at s line.
Proof.
  intros Hs Hline Hm E. unfold request in E. ok_inv. destruct r as [[l0 lat] s1]. ok_inv. subst.
  destruct (lookupRequest_inv s pkt port line m l lat s1 Hs Hline Hm E0) as [(Hf & Ha & -> & ->)|(item & item' & Hi & Hreq & -> & ->)].
  - injection E1 as <-. unfold item_at. rewrite Hf. cbn [default]. split.
    { symmetry. apply picked_0. }
    split; [done|]. exists null_item. rewrite Ha. split; [|done]. split; [done|]. split; [eapply same_cfg_inv; [|done|]; [done|exact (si_items s Hs)]|].
    unfold item_at. cbn. by rewrite Hf.
  - destruct (finish_map s line item item' retry pkt Hs Hline) as (s2' & E2 & Hc & Hmap). rewrite E2 in E1. injection E1 as <-.
    fold (item_at s line) in Hi. subst item. pose proof (item_at_nn s line Hs) as Hnn. split; [done|]. split.
    { intros ->. rewrite Hmap. by apply after_same. }
    destruct retry; [|destruct (allocates pkt port)]; cbn [andb negb].
    + rewrite andb_false_r. exists (item_at s line). split; [by apply changes_after|done].
    + exists item'. split; [|done]. apply changes_after; try done. by eapply request_item_nn; [eapply mask_nn| |].
    + destruct Hreq as [-> _]. exists (item_at s line). split; [by apply changes_after|done].
Qed.

(** ** Snoops and responses *)
Lemma item_found s line item : cachedLocations s !! line = Some item -> item_at s line = item.
Proof. unfold item_at. by intros ->. Qed.

Lemma lookupSnoop_spec s pkt line l lat s' : sf_inv s -> line_addr s pkt = Ok line -> lookupSnoop pkt s = Ok (l, lat, s') ->
  l = ports_of s (Z.lor (holder (item_at s line)) (requested (item_at s line))) /\
  exists item', changes s s' line item' /\ requested item' = requested (item_at s line) /\
    (holder item' = holder (item_at s line) \/ holder item' = 0 /\ MemCmd.isInvalidate (Packet.cmd pkt) = true /\ requested (item_at s line) = 0).
Proof.
  intros Hs Hline E. unfold lookupSnoop in E. ok_inv. rewrite Hline in E1. injection E1 as <-.
  destruct (cachedLocations s !! line) as [item|] eqn:El.
  - ok_inv. rewrite (item_found s line item El). pose proof (item_at_nn s line Hs) as Hnn. rewrite (item_found s line item El) in Hnn. destruct Hnn as [Hn1 Hn2].
    match goal with Hx : _ = s' |- _ => rewrite Hx in E2; revert Hx end. subst r0.
    destruct (MemCmd.isInvalidate (Packet.cmd pkt) && none (requested item)) eqn:Hinv.
    + apply andb_true_iff in Hinv as [Hi Hr]. intros Hx. assert (Hch : changes s s' line (mkItem (requested item) 0)) by (subst s'; by apply changes_erase).
      destruct Hch as (Hc & Hi1 & Hrest). rewrite maskToPortList_spec in E2 by (by apply si_ports). injection E2 as <-. split; [by apply ports_cfg|].
      exists (mkItem (requested item) 0). split; [done|]. split; [done|]. right. apply Z.eqb_eq in Hr. done.
    + intros Hx. subst s'. rewrite maskToPortList_spec in E2 by (by apply si_ports). injection E2 as <-. split; [done|]. exists item. split; [|by auto].
      rewrite <- (item_found s line item El). by apply changes_none.
  - ok_inv. subst s' l. assert (Hnull : item_at s line = null_item) by (unfold item_at; by rewrite El). rewrite Hnull. split; [symmetry; apply picked_0|].
    exists null_item. split; [rewrite <- Hnull; by apply changes_none|]. split; [done|by left].
Qed.

Lemma updateSnoopResponse_spec s pkt rsp req line s' : sf_inv s -> line_addr s pkt = Ok line -> updateSnoopResponse pkt rsp req s = Ok s' ->
  exists item', changes s s' line item' /\
    (item' = item_at s line \/ exists m, portToMask s req = Ok m /\ isSnooping req = true /\
       item' = mkItem (Z.ldiff (requested (item_at s line)) m) (Z.lor (if negb (Packet.hasSharers pkt) then 0 else holder (item_at s line)) m)).
Proof.
  intros Hs Hline E. unfold updateSnoopResponse in E. ok_inv.
  destruct (Request.isUncacheable (Packet.req pkt) || negb (isSnooping req)) eqn:Hu.
  { injection E as <-. exists (item_at s line). split; [by apply changes_none|by left]. }
  apply orb_false_iff in Hu as [_ Hu]. apply negb_false_iff in Hu. ok_inv. rewrite Hline in E2. injection E2 as <-.
  fold null_item in *. fold (item_at s line) in *. subst s'. pose proof (item_at_nn s line Hs) as [Hn1 Hn2]. pose proof (mask_nn s req _ E4) as Hm.
  eexists. split; [|right; exists r1; split; [done|]; split; done]. apply changes_set; [done| |done].
  split; cbn; [by apply ldiff_nn|]. apply Z.lor_nonneg. split; [by destruct (Packet.hasSharers pkt)|done].
Qed.

Lemma updateSnoopForward_spec s pkt line s' : sf_inv s -> line_addr s pkt = Ok line -> updateSnoopForward pkt s = Ok s' ->
  exists item', changes s s' line item' /\ requested item' = requested (item_at s line) /\
    (holder item' = holder (item_at s line) \/ holder item' = 0 /\ Packet.hasSharers pkt = false).
Proof.
  intros Hs Hline E. unfold updateSnoopForward in E. ok_inv. rewrite Hline in E2. injection E2 as <-.
  assert (Hsame : changes s s line (item_at s line)) by (by apply changes_none).
  destruct (cachedLocations s !! line) as [item|] eqn:El; [|injection E as <-; exists (item_at s line); by auto].
  destruct (negb (Packet.hasSharers pkt)) eqn:Hh; [|injection E as <-; exists (item_at s line); by auto].
  injection E as <-. rewrite (item_found s line item El). pose proof (item_at_nn s line Hs) as [Hn1 _]. rewrite (item_found s line item El) in Hn1.
  exists (mkItem (requested item) 0). split; [by apply changes_erase|]. split; [done|]. right. split; [done|by apply negb_true_iff].
Qed.

Lemma updateResponse_spec s pkt port line s' : sf_inv s -> line_addr s pkt = Ok line -> updateResponse pkt port s = Ok s' ->
  exists item', changes s s' line item' /\
    (item' = item_at s line /\ (Request.isUncacheable (Packet.req pkt) = true \/ isSnooping port = false \/ cachedLocations s !! line = None) \/
     exists m, portToMask s port = Ok m /\ none (Z.land (requested (item_at s line)) m) = false /\
       requested item' = Z.ldiff (requested (item_at s line)) m /\
       holder item' = if Request.isCacheMaintenance (Packet.req pkt)
                      then if MemCmd.isInvalidate (Packet.cmd pkt) then Z.ldiff (holder (item_at s line)) m else holder (item_at s line)
                      else Z.lor (holder (item_at s line)) m).
Proof.
  intros Hs Hline E. unfold updateResponse in E. ok_inv. assert (Hsame : changes s s line (item_at s line)) by (by apply changes_none).
  destruct (Request.isUncacheable (Packet.req pkt) || negb (isSnooping port)) eqn:Hu.
  { injection E as <-. exists (item_at s line). split; [done|]. left. split; [done|]. apply orb_true_iff in Hu as [|Hu]; [by left|]. right. left. by apply negb_true_iff. }
  ok_inv. rewrite Hline in E1. injection E1 as <-.
  destruct (cachedLocations s !! line) as [item|] eqn:El; [|injection E as Hx; subst s'; exists (item_at s line); split; [done|]; left; split; [done|]; right; by right].
  pose proof (item_at_nn s line Hs) as [Hn1 Hn2]. rewrite (item_found s line item El) in *. ok_inv. pose proof (mask_nn s port _ E1) as Hm.
  apply negb_true_iff in E2. destruct (Request.isCacheMaintenance (Packet.req pkt)); ok_inv; subst s'.
  - eexists. split; [apply changes_erase; [done|]|right; exists r; split; [done|]; split; done].
    split; cbn [requested holder]; [by apply ldiff_nn|]. destruct (MemCmd.isInvalidate (Packet.cmd pkt)); [by apply ldiff_nn|done].
  - eexists. split; [apply changes_set; [done|..]|right; exists r; split; [done|]; split; done].
    + split; cbn; [by apply ldiff_nn|]. by apply Z.lor_nonneg.
    + cbn. by rewrite Z.lor_comm.
Qed.

(** ** The theorems *)
Lemma port_index_inj s i j p : ports_ok s -> cpuSidePorts s !! i = Some p -> cpuSidePorts s !! j = Some p -> i = j.
Proof.
  intros Hs Hi Hj. destruct (po_ids s Hs i p Hi) as [_ E1]. destruct (po_ids s Hs j p Hj) as [_ E2]. rewrite E1 in E2. injection E2 as E2. lia.
Qed.

(** The port [p] holds the line, or may get it, as far as the filter knows. *)
Definition holds (s : t) (line : Z) (p : ResponsePort) : Prop :=
  exists i, cpuSidePorts s !! i = Some p /\ Z.testbit (holder (item_at s line)) (Z.of_nat i) = true.
Definition tracked (s : t) (line : Z) (p : ResponsePort) : Prop :=
  exists i, cpuSidePorts s !! i = Some p /\ Z.testbit (Z.lor (holder (item_at s line)) (requested (item_at s line))) (Z.of_nat i) = true.

Lemma holds_tracked s line p : holds s line p -> tracked s line p.
Proof. intros (i & Hi & Ht). exists i. split; [done|]. by rewrite Z.lor_spec, Ht. Qed.

(** The port [p] has a request for the line in flight. *)
Definition awaits (s : t) (line : Z) (p : ResponsePort) : Prop :=
  exists i, cpuSidePorts s !! i = Some p /\ Z.testbit (requested (item_at s line)) (Z.of_nat i) = true.

(** What the checks of the filter demand. A cache has one request per line in
    flight; it holds a line that it evicts, and one that a cache above it answers
    for. A snoop from below is a request whose attributes agree, and the filter
    has room for a line that it does not know. *)
Definition request_allowed (s : t) (pkt : Packet.t) (port : ResponsePort) (line : Z) : Prop :=
  allocates pkt port = true ->
  if MemCmd.needsResponse (Packet.cmd pkt) then if Packet.cacheResponding pkt then holds s line port else ~ awaits s line port
  else MemCmd.isEviction (Packet.cmd pkt) = true /\ holds s line port.
Definition snoop_allowed (s : t) (pkt : Packet.t) (line : Z) : Prop :=
  MemCmd.isRequest (Packet.cmd pkt) = true /\
  match cachedLocations s !! line with
  | None => Z.of_nat (size (cachedLocations s)) < maxEntryCount s
  | Some _ => MemCmd.isWriteback (Packet.cmd pkt) || Request.isUncacheable (Packet.req pkt)
      || eqb (MemCmd.isInvalidate (Packet.cmd pkt)) (MemCmd.needsWritable (Packet.cmd pkt)) || Request.isCacheMaintenance (Packet.req pkt) = true
  end.

Lemma port_bit s i p m : ports_ok s -> cpuSidePorts s !! i = Some p ->
  (exists j, cpuSidePorts s !! j = Some p /\ Z.testbit m (Z.of_nat j) = true) <-> any (Z.land m (Z.shiftl 1 (Z.of_nat i))) = true.
Proof.
  intros Hs Hi. rewrite any_one_hot by lia. split; [|by exists i]. intros (j & Hj & Ht). by rewrite (port_index_inj s i j p).
Qed.

Lemma check_total {A} e b (k : unit -> result A) : (exists r, rbind (check e b) k = Ok r) <-> b = true /\ exists r, k tt = Ok r.
Proof. destruct b; cbn; [naive_solver|]. split; [by intros [r Hr]|by intros [Hb _]]. Qed.

Lemma request_item_total s pkt port line m : sf_inv s -> known s port -> portToMask s port = Ok m -> allocates pkt port = true ->
  (exists item', request_item pkt m (item_at s line) = Ok item') <-> request_allowed s pkt port line.
Proof.
  intros Hs Hk Hm Ha. unfold request_allowed, holds, awaits. assert (Hsn : isSnooping port = true).
  { unfold allocates in Ha. by destruct (isSnooping port); [|rewrite andb_false_r in Ha]. }
  unfold known in Hk. rewrite Hsn in Hk. apply list_elem_of_lookup in Hk as (i & Hi).
  rewrite (port_mask s i port (si_ports s Hs) Hi) in Hm. injection Hm as <-.
  unfold request_item. rewrite !none_any, !negb_involutive.
  destruct (MemCmd.needsResponse _); [destruct (Packet.cacheResponding pkt)|]; cbn [negb]; rewrite !check_total, (port_bit s i port _ (si_ports s Hs) Hi).
  - naive_solver.
  - rewrite negb_true_iff, not_true_iff_false. naive_solver.
  - naive_solver.
Qed.

Lemma lookupRequest_total s pkt port line m : sf_inv s -> line_addr s pkt = Ok line -> portToMask s port = Ok m ->
  (exists r, lookupRequest pkt port s = Ok r) <-> (allocates pkt port = true -> exists item', request_item pkt m (item_at s line) = Ok item').
Proof.
  intros Hs Hline Hm. split.
  - intros [[[l lat] s1] E] Ha. destruct (lookupRequest_inv s pkt port line m l lat s1 Hs Hline Hm E) as [(_ & Ha' & _)|(item & item' & -> & Hit & _)]; [congruence|].
    rewrite Ha in Hit. by exists item'.
  - intros Hit. unfold lookupRequest. cbv zeta. fold (allocates pkt port) null_item. rewrite Hline, bind_Ok, Hm, bind_Ok. fold (item_at s line).
    destruct (allocates pkt port); [destruct Hit as [item' Hit]; [done|]; rewrite Hit|]; destruct (cachedLocations s !! line); rewrite ?bind_Ok;
      rewrite ?maskToPortList_spec, ?bind_Ok by (eapply same_cfg_ports; [|by apply si_ports]; done); by eexists.
Qed.

Lemma request_total s pkt port retry line : sf_inv s -> known s port -> line_addr s pkt = Ok line ->
  (exists r, request pkt port retry s = Ok r) <-> request_allowed s pkt port line.
Proof.
  intros Hs Hk Hline. destruct (known_mask s port (si_ports s Hs) Hk) as (m & Hm & _).
  trans (exists r, lookupRequest pkt port s = Ok r).
  - unfold request. split; [intros [r E]; ok_inv; by eexists|]. intros [[[l lat] s1] E]. rewrite E, bind_Ok.
    destruct (lookupRequest_inv s pkt port line m l lat s1 Hs Hline Hm E) as [(_ & _ & _ & ->)|(item & item' & _ & _ & _ & ->)]; [by eexists|].
    destruct (finish_map s line item item' retry pkt Hs Hline) as (s2 & E2 & _). rewrite E2. by eexists.
  - rewrite (lookupRequest_total s pkt port line m) by done. destruct (allocates pkt port) eqn:Ha; [|unfold request_allowed; split; intros _ ?; congruence].
    rewrite (request_item_total s pkt port line m) by done. split; [intros H; by apply H|done].
Qed.

Lemma lookupSnoop_total s pkt line : sf_inv s -> line_addr s pkt = Ok line ->
  (exists r, lookupSnoop pkt s = Ok r) <-> snoop_allowed s pkt line.
Proof.
  intros Hs Hline. unfold lookupSnoop, snoop_allowed. rewrite check_total, Hline, bind_Ok. apply and_iff_compat_l.
  destruct (cachedLocations s !! line) as [item|].
  - rewrite check_total. split; [by intros [? _]|]. intros Hc. split; [done|]. destruct (_ && _).
    + rewrite maskToPortList_spec; [by eexists|]. eapply same_cfg_ports; [|by apply si_ports]. etransitivity; [|apply eraseIfNull_cfg]. done.
    + rewrite maskToPortList_spec by (by apply si_ports). by eexists.
  - rewrite check_total. destruct (Z.leb_spec (maxEntryCount s) (Z.of_nat (size (cachedLocations s)))); cbn [negb]; split; naive_solver lia.
Qed.

(** C24: A lookup passes the checks of the filter exactly when the request or snoop
    is allowed. The ports that it returns are then exactly the tracked ones: for a
    request all of them except the requestor, for a snoop from below all of them.
    A request that will be retried leaves the filter exactly as it was. *)
Theorem snoop_filter_exact s pkt port line : sf_inv s -> known s port -> line_addr s pkt = Ok line ->
  (forall retry, (exists r, request pkt port retry s = Ok r) <-> request_allowed s pkt port line) /\
  ((exists r, lookupSnoop pkt s = Ok r) <-> snoop_allowed s pkt line) /\
  (forall retry l s', request pkt port retry s = Ok (l, s') ->
     sf_inv s' /\ (forall p, p ∈ l <-> tracked s line p /\ p <> port) /\ (retry = true -> cachedLocations s' = cachedLocations s)) /\
  (forall l lat s', lookupSnoop pkt s = Ok (l, lat, s') -> sf_inv s' /\ forall p, p ∈ l <-> tracked s line p).
Proof.
  intros Hs Hk Hline. destruct (known_mask s port (si_ports s Hs) Hk) as (m & Hm & Hport).
  split; [intros retry; by apply request_total|]. split; [by apply lookupSnoop_total|]. split.
  - intros retry l s' E. destruct (request_spec s pkt port retry line m l s' Hs Hline Hm E) as (-> & Hretry & item' & (_ & Hs' & _) & _).
    split; [done|]. split; [|done]. intros p. rewrite elem_ports_of. unfold tracked.
    destruct (isSnooping port) eqn:Hsn.
    + destruct Hport as (j & Hj & ->). split.
      * intros (i & Hi & Ht). rewrite Z.ldiff_spec, one_hot_bit in Ht by lia. apply andb_true_iff in Ht as [Ht Hne]. split; [by exists i|].
        intros ->. rewrite (port_index_inj s i j port) in Hne by (done || by apply si_ports). by rewrite bool_decide_true in Hne.
      * intros ((i & Hi & Ht) & Hne). exists i. split; [done|]. rewrite Z.ldiff_spec, one_hot_bit, Ht by lia.
        rewrite bool_decide_false; [done|]. intros E'. apply Nat2Z.inj in E' as ->. congruence.
    + subst m. rewrite Z.ldiff_0_r. split; [|by intros [? _]]. intros (i & Hi & Ht). split; [by exists i|]. intros ->.
      pose proof (po_snoop s (si_ports s Hs)) as Hall. rewrite Forall_lookup in Hall. specialize (Hall i port Hi). congruence.
  - intros l lat s' E. destruct (lookupSnoop_spec s pkt line l lat s' Hs Hline E) as (-> & item' & (_ & Hs' & _) & _).
    split; [done|]. intros p. apply elem_ports_of.
Qed.

(** ** Operations *)
Inductive op :=
| OpRequest (pkt : Packet.t) (port : ResponsePort) (will_retry : bool)
| OpSnoop (pkt : Packet.t)
| OpSnoopResponse (pkt : Packet.t) (rsp req : ResponsePort)
| OpSnoopForward (pkt : Packet.t)
| OpResponse (pkt : Packet.t) (port : ResponsePort).

Definition step (o : op) (s : t) : result t :=
  match o with
  | OpRequest pkt port retry => let! r := request pkt port retry s in Ok r.2
  | OpSnoop pkt => let! r := lookupSnoop pkt s in Ok r.2
  | OpSnoopResponse pkt rsp req => updateSnoopResponse pkt rsp req s
  | OpSnoopForward pkt => updateSnoopForward pkt s
  | OpResponse pkt port => updateResponse pkt port s
  end.
Fixpoint steps (ops : list op) (s : t) : result t :=
  match ops with [] => Ok s | o :: ops => let! s := step o s in steps ops s end.

Definition op_pkt (o : op) : Packet.t :=
  match o with OpRequest pkt _ _ | OpSnoop pkt | OpSnoopResponse pkt _ _ | OpSnoopForward pkt | OpResponse pkt _ => pkt end.
Definition op_ports (s : t) (o : op) : Prop :=
  match o with
  | OpRequest _ p _ | OpResponse _ p => known s p
  | OpSnoopResponse _ p q => known s p /\ known s q
  | _ => True
  end.

(** The operation says that the port [p] has lost the line of the packet: it
    evicts the line, an invalidating snoop comes from below, the line is passed on
    without sharers, or its maintenance request has invalidated the line. *)
Definition releases (o : op) (p : ResponsePort) : Prop :=
  match o with
  | OpRequest pkt port retry => port = p /\ retry = false /\ MemCmd.needsResponse (Packet.cmd pkt) = false /\ Packet.isBlockCached pkt = false
  | OpSnoop pkt => MemCmd.isInvalidate (Packet.cmd pkt) = true
  | OpSnoopResponse pkt _ req => Packet.hasSharers pkt = false /\ req <> p
  | OpSnoopForward pkt => Packet.hasSharers pkt = false
  | OpResponse pkt port => port = p /\ Request.isCacheMaintenance (Packet.req pkt) = true /\ MemCmd.isInvalidate (Packet.cmd pkt) = true
  end.

Lemma request_item_holder pkt m item item' i : request_item pkt m item = Ok item' -> Z.testbit (holder item) i = true ->
  (Z.testbit m i = true -> ~ (MemCmd.needsResponse (Packet.cmd pkt) = false /\ Packet.isBlockCached pkt = false)) ->
  Z.testbit (holder item') i = true.
Proof.
  intros E Ht Hn. unfold request_item in E. destruct (MemCmd.needsResponse (Packet.cmd pkt)); [destruct (negb (Packet.cacheResponding pkt))|]; ok_inv; subst; try done.
  destruct (Packet.isBlockCached pkt); cbn [negb holder]; [done|]. rewrite Z.ldiff_spec, Ht. destruct (Z.testbit m i); [|done]. by destruct Hn.
Qed.

Lemma step_line o s s' : step o s = Ok s' -> s' = s \/ exists line, line_addr s (op_pkt o) = Ok line.
Proof.
  destruct o as [pkt port retry|pkt|pkt rsp req|pkt|pkt port]; cbn [step op_pkt]; intros E.
  - right. unfold request, lookupRequest in E. ok_inv. by eexists.
  - right. unfold lookupSnoop in E. ok_inv. by eexists.
  - unfold updateSnoopResponse in E. ok_inv. destruct (_ || _); [left; by injection E|]. right. ok_inv. by eexists.
  - right. unfold updateSnoopForward in E. ok_inv. by eexists.
  - unfold updateResponse in E. ok_inv. destruct (_ || _); [left; by injection E|]. right. ok_inv. by eexists.
Qed.

Lemma changes_holds s s' line0 item' line p : changes s s' line0 item' -> holds s line p ->
  (line = line0 -> forall i, cpuSidePorts s !! i = Some p -> Z.testbit (holder (item_at s line0)) (Z.of_nat i) = true -> Z.testbit (holder item') (Z.of_nat i) = true) ->
  holds s' line p.
Proof.
  intros ((Ec & _) & _ & Hi & Ho) (i & Hpi & Ht) Hk. exists i. rewrite Ec. split; [done|]. destruct (decide (line = line0)) as [->|Hne].
  - rewrite Hi. by apply Hk.
  - by rewrite Ho.
Qed.

(** The mask of a port has the bit of that port only. *)
Lemma mask_bit_port s port m i p : sf_inv s -> known s port -> portToMask s port = Ok m -> cpuSidePorts s !! i = Some p ->
  Z.testbit m (Z.of_nat i) = true -> port = p.
Proof.
  intros Hs Hk Hm Hi Hmi. destruct (known_mask s port (si_ports s Hs) Hk) as (m' & Hm' & Hport). rewrite Hm in Hm'. injection Hm' as <-.
  destruct (isSnooping port); [|subst m; by rewrite Z.bits_0 in Hmi].
  destruct Hport as (j & Hj & ->). rewrite one_hot_bit in Hmi by lia. apply bool_decide_eq_true in Hmi. apply Nat2Z.inj in Hmi as ->. congruence.
Qed.

(** One step keeps the invariant, and a port that holds a line keeps holding it
    unless the operation is on that line and releases it. *)
Lemma step_holds o s s' line p : sf_inv s -> op_ports s o -> step o s = Ok s' ->
  same_cfg s s' /\ sf_inv s' /\ (holds s line p -> (line_addr s (op_pkt o) = Ok line -> ~ releases o p) -> holds s' line p).
Proof.
  intros Hs Hports E. destruct (step_line o s s' E) as [->|(line0 & Hline)]; [done|].
  assert (Hgoal : forall item', changes s s' line0 item' ->
      ((line_addr s (op_pkt o) = Ok line -> ~ releases o p) -> line = line0 -> forall i, cpuSidePorts s !! i = Some p ->
        Z.testbit (holder (item_at s line0)) (Z.of_nat i) = true -> Z.testbit (holder item') (Z.of_nat i) = true) ->
      same_cfg s s' /\ sf_inv s' /\ (holds s line p -> (line_addr s (op_pkt o) = Ok line -> ~ releases o p) -> holds s' line p)).
  { intros item' Hch Hk. split; [apply Hch|]. split; [apply Hch|]. intros Hh Hr. eapply changes_holds; [exact Hch|exact Hh|]. by apply Hk. }
  destruct o as [pkt port retry|pkt|pkt rsp req|pkt|pkt port]; cbn [step op_pkt op_ports releases] in *.
  - ok_inv. destruct r as [l s2]. cbn in E. subst s2. destruct (known_mask s port (si_ports s Hs) Hports) as (m & Hm & _).
    destruct (request_spec s pkt port retry line0 m l s' Hs Hline Hm E0) as (_ & _ & item' & Hch & Hitem). apply (Hgoal item' Hch).
    intros Hr -> i Hi Ht. destruct (allocates pkt port && negb retry) eqn:Ha; [|by subst].
    apply andb_true_iff in Ha as [_ Ha]. apply negb_true_iff in Ha. eapply request_item_holder; [done..|]. intros Hmi [H1 H2].
    apply Hr; [done|]. split_and!; try done. by eapply (mask_bit_port s port).
  - ok_inv. destruct r as [[l lat] s2]. cbn in E. subst s2.
    destruct (lookupSnoop_spec s pkt line0 l lat s' Hs Hline E0) as (_ & item' & Hch & _ & Hh). apply (Hgoal item' Hch).
    intros Hr -> i Hi Ht. destruct Hh as [->|(_ & Hinv & _)]; [done|]. by destruct (Hr Hline).
  - destruct (updateSnoopResponse_spec s pkt rsp req line0 s' Hs Hline E) as (item' & Hch & Hh). apply (Hgoal item' Hch).
    intros Hr -> i Hi Ht. destruct Hh as [->|(m & Hm & Hsn & ->)]; [done|]. cbn [holder]. rewrite Z.lor_spec.
    destruct (Packet.hasSharers pkt) eqn:Hsh; cbn [negb]; [by rewrite Ht|]. destruct (decide (req = p)) as [->|Hne].
    + rewrite (port_mask s i p (si_ports s Hs) Hi) in Hm. injection Hm as <-. rewrite one_hot_bit, bool_decide_true by (done || lia). by rewrite orb_true_r.
    + exfalso. by apply (Hr Hline).
  - destruct (updateSnoopForward_spec s pkt line0 s' Hs Hline E) as (item' & Hch & _ & Hh). apply (Hgoal item' Hch).
    intros Hr -> i Hi Ht. destruct Hh as [->|[_ Hsh]]; [done|]. by destruct (Hr Hline).
  - destruct (updateResponse_spec s pkt port line0 s' Hs Hline E) as (item' & Hch & Hh). apply (Hgoal item' Hch).
    intros Hr -> i Hi Ht. destruct Hh as [[-> _]|(m & Hm & _ & _ & ->)]; [done|].
    destruct (Request.isCacheMaintenance (Packet.req pkt)) eqn:Hmt; [|by rewrite Z.lor_spec, Ht].
    destruct (MemCmd.isInvalidate (Packet.cmd pkt)) eqn:Hinv; [|done]. rewrite Z.ldiff_spec, Ht.
    destruct (Z.testbit m (Z.of_nat i)) eqn:Hmi; [|done]. exfalso. apply (Hr Hline). split_and!; try done. by eapply (mask_bit_port s port).
Qed.

Lemma known_cfg s s' p : same_cfg s s' -> known s p -> known s' p.
Proof. intros (E & _). unfold known. by rewrite E. Qed.

Lemma op_ports_cfg s s' o : same_cfg s s' -> op_ports s o -> op_ports s' o.
Proof. intros Hc. destruct o; cbn; try (by apply known_cfg); [done| |done]. intros [? ?]. split; by eapply known_cfg. Qed.

Lemma steps_holds ops s s' line p : sf_inv s -> Forall (op_ports s) ops -> steps ops s = Ok s' -> holds s line p ->
  Forall (fun o => line_addr s (op_pkt o) = Ok line -> ~ releases o p) ops -> same_cfg s s' /\ sf_inv s' /\ holds s' line p.
Proof.
  revert s. induction ops as [|o ops IH]; intros s Hs Hp E Hh Hr; cbn [steps] in E; [by injection E as <-|].
  ok_inv. apply Forall_cons in Hp as [Hp Hps]. apply Forall_cons in Hr as [Hr Hrs].
  destruct (step_holds o s r line p Hs Hp E0) as (Hc & Hs1 & Hk).
  destruct (IH r Hs1) as (Hc' & Hs' & Hh'); [|done|by apply Hk| |].
  - eapply Forall_impl; [exact Hps|]. intros o'. by apply op_ports_cfg.
  - eapply Forall_impl; [exact Hrs|]. intros o'. by rewrite (line_cfg s r).
  - split; [by transitivity r|done].
Qed.

(** C23: A port that has received a line in response to its request is snooped for
    it: after any further operations on the filter, unless one of them tells that
    this port has lost this line, every lookup for the line by another port or from
    below returns the port. *)
Theorem snoop_filter_tracks s pkt port line item ops s1 s2 : sf_inv s -> known s port -> isSnooping port = true ->
  line_addr s pkt = Ok line -> cachedLocations s !! line = Some item ->
  Request.isUncacheable (Packet.req pkt) = false -> Request.isCacheMaintenance (Packet.req pkt) = false ->
  updateResponse pkt port s = Ok s1 -> Forall (op_ports s1) ops -> steps ops s1 = Ok s2 ->
  Forall (fun o => line_addr s1 (op_pkt o) = Ok line -> ~ releases o port) ops ->
  (forall pkt' l lat s', line_addr s2 pkt' = Ok line -> lookupSnoop pkt' s2 = Ok (l, lat, s') -> port ∈ l) /\
  (forall pkt' port' retry l s', known s2 port' -> port' <> port -> line_addr s2 pkt' = Ok line ->
     request pkt' port' retry s2 = Ok (l, s') -> port ∈ l).
Proof.
  intros Hs Hk Hsn Hline Hit Hu Hmt E Hports Esteps Hrel.
  destruct (updateResponse_spec s pkt port line s1 Hs Hline E) as (item' & Hch & Hitem).
  destruct Hitem as [[_ [Hx|[Hx|Hx]]]|(m & Hm & _ & _ & Hhold)]; [congruence..|]. rewrite Hmt in Hhold.
  pose proof Hch as (Hc1 & Hs1 & Hi1 & _). assert (Hheld : holds s1 line port).
  { unfold known in Hk. rewrite Hsn in Hk. apply list_elem_of_lookup in Hk as (i & Hi). exists i. destruct Hc1 as (Ep & _). rewrite Ep. split; [done|].
    rewrite Hi1, Hhold, Z.lor_spec. rewrite (port_mask s i port (si_ports s Hs) Hi) in Hm. injection Hm as <-.
    rewrite one_hot_bit, bool_decide_true by (done || lia). by rewrite orb_true_r. }
  destruct (steps_holds ops s1 s2 line port Hs1 Hports Esteps Hheld Hrel) as (_ & Hs2 & Hh2). apply holds_tracked in Hh2 as (i & Hi & Ht).
  split.
  - intros pkt' l lat s' Hl E'. destruct (lookupSnoop_spec s2 pkt' line l lat s' Hs2 Hl E') as (-> & _). apply elem_ports_of. by exists i.
  - intros pkt' port' retry l s' Hk' Hne Hl E'. destruct (known_mask s2 port' (si_ports s2 Hs2) Hk') as (m' & Hm' & _).
    destruct (request_spec s2 pkt' port' retry line m' l s' Hs2 Hl Hm' E') as (-> & _). apply elem_ports_of. exists i. split; [done|].
    rewrite Z.ldiff_spec, Ht. destruct (Z.testbit m' (Z.of_nat i)) eqn:Hmi; [|done]. destruct Hne. by eapply (mask_bit_port s2 port').
Qed.

(** ** Construction *)
Definition ids_ok (k : nat) (tr : list ResponsePort) (ids : list Z) : Prop :=
  forall i p, tr !! i = Some p -> isSnooping p = true /\ 0 <= getId p < Z.of_nat k /\ ids !! Z.to_nat (getId p) = Some (Z.of_nat i).

Lemma port_loop_spec ports k tr ids : (forall j p, ports !! j = Some p -> getId p = Z.of_nat (k + j)) -> ids_ok k tr ids ->
  length ids = (k + length ports)%nat ->
  exists tr' ids', port_loop ports (Z.of_nat (length tr)) tr ids = Ok (Z.of_nat (length tr'), tr', ids') /\ ids_ok (k + length ports) tr' ids' /\
    tr' = tr ++ filter (fun p => isSnooping p = true) ports.
Proof.
  revert k tr ids. induction ports as [|p ports IH]; intros k tr ids Hid Hok Hlen; cbn [port_loop].
  { exists tr, ids. cbn. rewrite Nat.add_0_r, app_nil_r. done. }
  assert (Hp : getId p = Z.of_nat k) by (rewrite (Hid 0%nat p eq_refl); f_equal; lia). cbn in Hlen.
  assert (Hid' : forall j q, ports !! j = Some q -> getId q = Z.of_nat (S k + j)) by (intros j q Hj; rewrite (Hid (S j) q Hj); f_equal; lia).
  cbn [length]. replace (k + S (length ports))%nat with (S k + length ports)%nat by lia. destruct (isSnooping p) eqn:Hs.
  - rewrite vset_Ok, bind_Ok by lia. replace (Z.of_nat (length tr) + 1) with (Z.of_nat (length (tr ++ [p]))) by (rewrite length_app; cbn; lia).
    destruct (IH (S k) (tr ++ [p]) (<[Z.to_nat (getId p) := Z.of_nat (length tr)]> ids)) as (tr' & ids' & E & Hok' & Htr); [done| |rewrite length_insert; lia|].
    + intros i q Hi. apply lookup_app_Some in Hi as [Hi|[Hge Hi]].
      * destruct (Hok i q Hi) as (H1 & H2 & H3). split; [done|]. split; [lia|]. rewrite list_lookup_insert_ne by lia. done.
      * apply list_lookup_singleton_Some in Hi as [Hi <-]. split; [done|]. split; [lia|]. rewrite list_lookup_insert_eq by lia. f_equal. lia.
    + exists tr', ids'. split; [done|]. split; [done|]. rewrite Htr, filter_cons_True, <- app_assoc by done. done.
  - destruct (IH (S k) tr ids) as (tr' & ids' & E & Hok' & Htr); [done| |lia|].
    + intros i q Hi. destruct (Hok i q Hi) as (H1 & H2 & H3). split; [done|]. split; [lia|done].
    + exists tr', ids'. split; [done|]. split; [done|]. rewrite Htr, filter_cons_False by congruence. done.
Qed.

(** A crossbar numbers its ports from 0 on. *)
Lemma set_ports_inv ports ls lat cap : (forall k p, ports !! k = Some p -> getId p = Z.of_nat k) -> 0 < ls < 2 ^ 32 ->
  Z.of_nat (length (filter (fun p => isSnooping p = true) ports)) <= SNOOP_MASK_SIZE ->
  exists s, setCPUSidePorts ports (new ls lat cap) = Ok s /\ sf_inv s /\ cachedLocations s = ∅ /\
    cpuSidePorts s = filter (fun p => isSnooping p = true) ports /\ linesize s = ls.
Proof.
  intros Hid Hls Hcount. destruct (port_loop_spec ports 0 [] (replicate (length ports) InvalidPortID)) as (tr & ids & E & Hok & Htr).
  - intros j p Hj. by rewrite (Hid j p Hj).
  - intros i p Hi. done.
  - by rewrite length_replicate.
  - cbn [app] in Htr. unfold setCPUSidePorts. cbn [cpuSidePorts new]. change 0 with (Z.of_nat (length (@nil ResponsePort))). rewrite E, bind_Ok.
    rewrite (proj2 (Z.leb_le _ _)) by (by rewrite Htr). cbn [check rbind]. eexists. split; [done|]. split; [|done].
    constructor; cbn; [constructor; cbn|done|intros line item Hl; by rewrite lookup_empty in Hl].
    + apply Forall_lookup. intros i p Hi. by destruct (Hok i p Hi).
    + intros i p Hi. destruct (Hok i p Hi) as (_ & H1 & H2). split; [unfold InvalidPortID; lia|]. apply vget_lookup; [lia|done].
    + by rewrite Htr.
Qed.

(** ** Two caches and a device on a crossbar *)
Definition cache0 : ResponsePort := mkPort 0 true.
Definition device1 : ResponsePort := mkPort 1 false.
Definition cache2 : ResponsePort := mkPort 2 true.
Definition ex_filter : t := match setCPUSidePorts [cache0; device1; cache2] (new 64 1 65536) with Ok s => s | Err _ => new 64 1 65536 end.

Lemma ex_filter_inv : sf_inv ex_filter /\ cpuSidePorts ex_filter = [cache0; cache2].
Proof.
  destruct (set_ports_inv [cache0; device1; cache2] 64 1 65536) as (s & E & Hs & _ & Hp & _); [|lia|vm_compute; discriminate|].
  - intros k p. do 3 (destruct k as [|k]; [by intros [= <-]|]). done.
  - unfold ex_filter. rewrite E. done.
Qed.

(** A read of the line at 0x1000 by a cache, and its response. *)
Definition ex_req (c : MemCmd.Command) : Packet.t := Packet.mk c (Request.mk 0 [] None None) 0x1010 false 8 0x3300 (replicate 8 0) [].
Definition ex_requested : t := match request (ex_req MemCmd.ReadSharedReq) cache0 false ex_filter with Ok r => r.2 | Err _ => ex_filter end.

Lemma ex_requested_inv : sf_inv ex_requested /\ cpuSidePorts ex_requested = [cache0; cache2].
Proof.
  destruct ex_filter_inv as [Hs Hp]. destruct (step_holds (OpRequest (ex_req MemCmd.ReadSharedReq) cache0 false) ex_filter ex_requested 0 cache0 Hs) as (Hc & Hs' & _).
  - cbn. unfold known. cbn. rewrite Hp. set_solver.
  - vm_compute. reflexivity.
  - split; [done|]. destruct Hc as (-> & _). done.
Qed.

(** Witness of [snoop_filter_exact]: a second cache asks for the line. *)
Lemma snoop_filter_exact_witness : exists s', request (ex_req MemCmd.ReadSharedReq) cache2 true ex_requested = Ok ([cache0], s') /\
  cachedLocations s' = cachedLocations ex_requested.
Proof.
  destruct ex_requested_inv as [Hs Hp]. destruct (snoop_filter_exact ex_requested (ex_req MemCmd.ReadSharedReq) cache2 0x1000 Hs) as (_ & _ & H & _).
  - unfold known. cbn. rewrite Hp. set_solver.
  - vm_compute. reflexivity.
  - destruct (request (ex_req MemCmd.ReadSharedReq) cache2 true ex_requested) as [[l s']|e] eqn:E; [|vm_compute in E; discriminate E].
    exists s'. destruct (H true l s' E) as (_ & _ & Hmap). split; [|by apply Hmap]. vm_compute in E. injection E as <- _. reflexivity.
Defined.

(** Witness of [snoop_filter_tracks]: the first cache gets the line and writes a
    different line back before the second cache asks. *)
Definition ex_other : Packet.t := Packet.mk MemCmd.ReadReq (Request.mk 0 [] None None) 0x2000 false 8 0x3300 (replicate 8 0) [].
Lemma snoop_filter_tracks_witness : exists s1 s2 l s3, updateResponse (ex_req MemCmd.ReadResp) cache0 ex_requested = Ok s1 /\
  steps [OpRequest ex_other device1 false] s1 = Ok s2 /\ request (ex_req MemCmd.ReadExReq) cache2 false s2 = Ok (l, s3) /\ cache0 ∈ l.
Proof.
  destruct ex_requested_inv as [Hs Hp].
  assert (Hk : known ex_requested cache0) by (unfold known; cbn; rewrite Hp; set_solver).
  destruct (updateResponse (ex_req MemCmd.ReadResp) cache0 ex_requested) as [s1|e] eqn:E1; [|vm_compute in E1; discriminate E1].
  destruct (steps [OpRequest ex_other device1 false] s1) as [s2|e] eqn:E2; [|vm_compute in E1; injection E1 as <-; vm_compute in E2; discriminate E2].
  destruct (request (ex_req MemCmd.ReadExReq) cache2 false s2) as [[l s3]|e] eqn:E3;
    [|vm_compute in E1; injection E1 as <-; vm_compute in E2; injection E2 as <-; vm_compute in E3; discriminate E3].
  exists s1, s2, l, s3. split; [done|]. split; [done|]. split; [done|].
  destruct (snoop_filter_tracks ex_requested (ex_req MemCmd.ReadResp) cache0 0x1000 (mkItem 1 0) [OpRequest ex_other device1 false] s1 s2 Hs Hk) as [_ H];
    try reflexivity; try done.
  - constructor; [|done]. cbn. unfold known. cbn. done.
  - constructor; [|done]. intros Hl. vm_compute in E1. injection E1 as <-. vm_compute in Hl. discriminate Hl.
  - apply (H (ex_req MemCmd.ReadExReq) cache2 false l s3); [|done| |done].
    + vm_compute in E1. injection E1 as <-. vm_compute in E2. injection E2 as <-. unfold known. cbn. set_solver.
    + vm_compute in E1. injection E1 as <-. vm_compute in E2. injection E2 as <-. vm_compute. reflexivity.
Defined.
