(* ===== verification/Compressor.v ===== *)
(** * Cache line compressors

    Model of src/gem5/src/mem/cache/compressors: the parsing of a line into chunks
    and the size threshold of base.cc, the patterns of dictionary_compressor.hh
    and the dictionary compressor of dictionary_compressor_impl.hh that all
    pattern-based compressors share. Statistics are not modelled. *)

From S2P Require Import Prelude Bits.
Import Bitfield.

(** ** Patterns *)
Module Pattern.
(** A dictionary entry is the array of the bytes of a value of type [T]. *)
Abbreviation DictionaryEntry := (list Z).

Section Width.
(** [sizeof(T)] and the number of bits of [T]. *)
Context (szT : nat).
Definition W : Z := 8 * Z.of_nat szT.

Fixpoint to_loop (n : nat) (value : Z) : DictionaryEntry :=
  match n with O => [] | S n => Z.land value 0xFF :: to_loop n (Z.shiftr value 8) end.
Definition toDictionaryEntry (value : Z) : DictionaryEntry := to_loop szT value.

(** The loop runs from the last byte to the first. *)
Fixpoint from_loop (entry : DictionaryEntry) : Z :=
  match entry with [] => 0 | b :: entry => Z.lor (uw W (Z.shiftl (from_loop entry) 8)) b end.
Definition fromDictionaryEntry (entry : DictionaryEntry) : Z := from_loop entry.

(** What the class of a pattern adds to the fields of [Pattern]. *)
Inductive body :=
| UncompressedPattern (data : DictionaryEntry)
| MaskedPattern (pmask bits : Z)
| MaskedValuePattern (value pmask bits : Z)
| RepeatedValuePattern (szRep value : Z)
| DeltaPattern (DeltaSizeBits : Z) (bytes : DictionaryEntry)
| SignExtendedPattern (N bits : Z)
| SignExtendedTwoHalfwords (extended0 extended1 : Z)
| ZeroRun (bits runLength realSize : Z).

Record Pattern := mkPattern {
  patternNumber : Z;
  code : Z;
  length : Z;
  numUnmatchedBits : Z;
  matchLocation : Z;
  allocate : bool;
  as_ : body;
}.

(** The constructor of the base class keeps its lengths in 8 bits. *)
Definition pattern (number code metadata_length num_unmatched_bits match_location : Z) (allocate : bool) (b : body) : Pattern :=
  mkPattern number (uw 8 code) (uw 8 metadata_length) (uw 8 num_unmatched_bits) match_location allocate b.

Definition getMatchLocation (p : Pattern) : Z := uw 8 (matchLocation p).
Definition shouldAllocate (p : Pattern) : bool := allocate p.
Definition getSizeBits (p : Pattern) : Z :=
  match as_ p with ZeroRun _ _ realSize => realSize | _ => numUnmatchedBits p + length p end.

(** *** Constructors of the pattern classes *)
Definition uncompressed (number code metadata_length match_location : Z) (bytes : DictionaryEntry) : Pattern :=
  pattern number code metadata_length W match_location true (UncompressedPattern bytes).

Definition unmatched (pmask : Z) (bytes : DictionaryEntry) : Z := Z.land (fromDictionaryEntry bytes) (unot W pmask).
Definition masked (pmask number code metadata_length match_location : Z) (bytes : DictionaryEntry) (allocate : bool) : Pattern :=
  pattern number code metadata_length (popCount (unot W pmask)) match_location allocate (MaskedPattern pmask (unmatched pmask bytes)).

Definition maskedValue (value pmask number code metadata_length match_location : Z) (bytes : DictionaryEntry) (allocate : bool) : Pattern :=
  pattern number code metadata_length (popCount (unot W pmask)) match_location allocate (MaskedValuePattern value pmask (unmatched pmask bytes)).

Definition repeatedValue (szRep number code metadata_length match_location : Z) (bytes : DictionaryEntry) (allocate : bool) : Pattern :=
  pattern number code metadata_length (8 * szRep) match_location allocate (RepeatedValuePattern szRep (uw (8 * szRep) (fromDictionaryEntry bytes))).

Definition delta (DeltaSizeBits number code metadata_length match_location : Z) (bytes : DictionaryEntry) : Pattern :=
  pattern number code metadata_length DeltaSizeBits match_location false (DeltaPattern DeltaSizeBits bytes).

Definition signExtended (N number code metadata_length : Z) (bytes : DictionaryEntry) (allocate : bool) : Pattern :=
  pattern number code metadata_length N (-1) allocate (SignExtendedPattern N (uw N (Z.land (fromDictionaryEntry bytes) (mask N)))).

(** *** Matching *)
Definition masked_match (pmask : Z) (bytes dict_bytes : DictionaryEntry) (match_location : Z) : result bool :=
  let masked_bytes := Z.land (fromDictionaryEntry bytes) pmask in
  let masked_dict_bytes := Z.land (fromDictionaryEntry dict_bytes) pmask in
  Ok ((0 <=? match_location) && (masked_bytes =? masked_dict_bytes)).

Definition maskedValue_match (value pmask : Z) (bytes dict_bytes : DictionaryEntry) (match_location : Z) : result bool :=
  Ok (Z.land value pmask =? Z.land (fromDictionaryEntry bytes) pmask).

Definition locatedMasked_match (pmask location : Z) (bytes dict_bytes : DictionaryEntry) (match_location : Z) : result bool :=
  if match_location =? location then masked_match pmask bytes dict_bytes match_location else Ok false.

Fixpoint rep_loop (n : nat) (szRep bytes_value rep_value : Z) : bool :=
  match n with
  | O => true
  | S n => if negb (uw (8 * szRep) bytes_value =? rep_value) then false
           else rep_loop n szRep (Z.shiftr bytes_value (8 * szRep)) rep_value
  end.
Definition repeatedValue_match (szRep : Z) (bytes dict_bytes : DictionaryEntry) (match_location : Z) : result bool :=
  let bytes_value := fromDictionaryEntry bytes in
  Ok (rep_loop (Z.to_nat (Z.of_nat szT / szRep)) szRep bytes_value (uw (8 * szRep) bytes_value)).

Definition isValidDelta (DeltaSizeBits : Z) (bytes base_bytes : DictionaryEntry) : bool :=
  let limit := if negb (DeltaSizeBits =? 0) then sw W (mask (DeltaSizeBits - 1)) else 0 in
  let value := fromDictionaryEntry bytes in
  let base := fromDictionaryEntry base_bytes in
  let delta := sw W (value - base) in
  (- limit <=? delta) && (delta <=? limit).
Definition delta_match (DeltaSizeBits : Z) (bytes dict_bytes : DictionaryEntry) (match_location : Z) : result bool :=
  Ok ((0 <=? match_location) && isValidDelta DeltaSizeBits bytes dict_bytes).

Definition signExtended_match (N : Z) (bytes dict_bytes : DictionaryEntry) (match_location : Z) : result bool :=
  let data := fromDictionaryEntry bytes in
  let! e := szext data N in
  Ok (data =? uw W e).

(** The halfwords are signed, the extended bytes are converted to unsigned. *)
Definition twoHalfwords_match (bytes dict_bytes : DictionaryEntry) (match_location : Z) : result bool :=
  let data := fromDictionaryEntry bytes in
  let halfword0 := sw 16 (Z.land data (mask 16)) in
  let halfword1 := sw 16 (Z.land (Z.shiftr data 16) (mask 16)) in
  let! e0 := szext (u64 halfword0) 8 in
  let! e1 := szext (u64 halfword1) 8 in
  Ok ((halfword0 =? uw 16 e0) && (halfword1 =? uw 16 e1)).

(** *** Decompression *)
Definition masked_decompress (pmask bits : Z) (dict_bytes : DictionaryEntry) : DictionaryEntry :=
  let masked_dict_bytes := Z.land (fromDictionaryEntry dict_bytes) pmask in
  toDictionaryEntry (Z.lor bits masked_dict_bytes).

Fixpoint repeat_loop (n : nat) (szRep value decomp_value : Z) : Z :=
  match n with
  | O => decomp_value
  | S n => repeat_loop n szRep value (Z.lor (uw W (Z.shiftl decomp_value (8 * szRep))) value)
  end.

Definition decompress (p : Pattern) (dict_bytes : DictionaryEntry) : result DictionaryEntry :=
  match as_ p with
  | UncompressedPattern data => Ok data
  | MaskedPattern pmask bits => Ok (masked_decompress pmask bits dict_bytes)
  | MaskedValuePattern value pmask bits => Ok (masked_decompress pmask bits (toDictionaryEntry value))
  | RepeatedValuePattern szRep value =>
      Ok (toDictionaryEntry (repeat_loop (Z.to_nat (Z.of_nat szT / szRep)) szRep value 0))
  | DeltaPattern _ bytes => Ok bytes
  | SignExtendedPattern N bits => let! e := sext bits N in Ok (toDictionaryEntry (uw W e))
  | SignExtendedTwoHalfwords extended0 extended1 =>
      let! e0 := szext (u64 extended0) 8 in
      let! e1 := szext (u64 extended1) 8 in
      Ok (toDictionaryEntry (uw W (Z.lor (Z.shiftl (uw 16 e1) 16) (uw 16 e0))))
  | ZeroRun bits _ _ => Ok (masked_decompress 0xFFFFFFFF bits (toDictionaryEntry 0))
  end.

(** *** Factories

    A factory is the list of its pattern classes, each with its static
    [isPattern] and its constructor; the last one is taken unconditionally. *)
Record PatternClass := mkClass {
  isPattern : DictionaryEntry -> DictionaryEntry -> Z -> result bool;
  construct : DictionaryEntry -> Z -> Pattern;
}.
Fixpoint getPattern (factory : list PatternClass) (bytes dict_bytes : DictionaryEntry) (match_location : Z) : result Pattern :=
  match factory with
  | [] => Err Undefined
  | [head] => Ok (construct head bytes match_location)
  | head :: tail =>
      let! m := isPattern head bytes dict_bytes match_location in
      if m : bool then Ok (construct head bytes match_location) else getPattern tail bytes dict_bytes match_location
  end.
End Width.
End Pattern.
Abbreviation DictionaryEntry := (list Z).

(** ** Compression data and the base class *)
Inductive CompressionData :=
| CompData (_size : Z) (entries : list Pattern.Pattern)
| MultiCompData (_size : Z) (index : Z) (compData : CompressionData)
| PerfectCompData (_size : Z) (chunks : list Z).

Module Data.
Definition getSizeBits (cd : CompressionData) : Z :=
  match cd with CompData s _ | MultiCompData s _ _ | PerfectCompData s _ => s end.
Definition setSizeBits (size : Z) (cd : CompressionData) : CompressionData :=
  match cd with
  | CompData _ e => CompData size e
  | MultiCompData _ i c => MultiCompData size i c
  | PerfectCompData _ c => PerfectCompData size c
  end.
(** [std::ceil(_size / (float)CHAR_BIT)]; the division by 8 is exact in a float
    for sizes below 2^24 bits. *)
Definition getSize (cd : CompressionData) : Z := (getSizeBits cd + 7) / 8.
End Data.

Module Base.
Record Params := mkParams {
  blkSize : Z;
  chunkSizeBits : Z;
  sizeThreshold : Z;
  compChunksPerCycle : Z;
  compExtraLatency : Z;
  decompChunksPerCycle : Z;
  decompExtraLatency : Z;
}.

Definition new (block_size chunk_size_bits size_threshold_percentage comp_chunks comp_extra decomp_chunks decomp_extra : Z) : result Params :=
  let threshold := block_size * size_threshold_percentage / 100 in
  let! _ := check Undefined (negb (chunk_size_bits =? 0)) in
  let! _ := check Fatal (64 mod chunk_size_bits =? 0) in
  let! _ := check Fatal (comp_chunks <=? 8 * block_size / chunk_size_bits) in
  let! _ := check Fatal (decomp_chunks <=? 8 * block_size / chunk_size_bits) in
  let! _ := check Fatal (threshold <=? block_size) in
  Ok (mkParams block_size chunk_size_bits threshold comp_chunks comp_extra decomp_chunks decomp_extra).

Section WithParams.
Context (p : Params).
Definition num_chunks_per_64 : Z := 64 / chunkSizeBits p.

Definition chunk_at (data : list Z) (i : Z) : result Z :=
  let index_64 := i / num_chunks_per_64 in
  let start := i mod num_chunks_per_64 in
  let! d := vget data index_64 in
  bits d ((start + 1) * chunkSizeBits p - 1) (start * chunkSizeBits p).
Definition toChunks (data : list Z) : result (list Z) :=
  mapM_r (chunk_at data) (seqZ 0 (blkSize p * 8 / chunkSizeBits p)).

Fixpoint from_chunks (chunks : list Z) (i : Z) (data : list Z) : result (list Z) :=
  match chunks with
  | [] => Ok data
  | c :: chunks =>
      let index_64 := i / num_chunks_per_64 in
      let start := i mod num_chunks_per_64 in
      let! d := vget data index_64 in
      let! d := replaceBits d ((start + 1) * chunkSizeBits p - 1) (start * chunkSizeBits p) c in
      let! data := vset data index_64 d in
      from_chunks chunks (i + 1) data
  end.
Definition fromChunks (chunks : list Z) : result (list Z) :=
  from_chunks chunks 0 (replicate (Z.to_nat (blkSize p / 8)) 0).
End WithParams.

(** What a read behind the end of a dictionary gives, and whether
    DEBUG_COMPRESSION is set, in which case such reads happen in [compress]. *)
Abbreviation outside := (Z -> result DictionaryEntry).
Abbreviation debug_flag := (option outside).

(** A compressor: its parameters and the two virtual functions, on the state [St]. *)
Class Compressor (St : Type) := {
  params : St -> Params;
  compress_chunks : debug_flag -> list Z -> St -> result (CompressionData * Z * Z * St);
  decompress : outside -> CompressionData -> St -> result (list Z * St);
}.

Section Compress.
Context {St : Type} `{Compressor St}.
(** [compress] on a line; [debug] is the check that DEBUG_COMPRESSION enables. *)
Definition debug_check (debug : debug_flag) (data : list Z) (cd : CompressionData) (s : St) : result St :=
  match debug with
  | None => Ok s
  | Some oob =>
      let! r := decompress oob cd s in
      let! _ := check Fatal (bool_decide (r.1 = data)) in
      Ok r.2
  end.
Definition compress (debug : debug_flag) (data : list Z) (s : St) : result (CompressionData * Z * Z * St) :=
  let! chunks := toChunks (params s) data in
  let! r := compress_chunks debug chunks s in
  let '(cd, comp_lat, decomp_lat, s) := r in
  let! s := debug_check debug data cd s in
  let cd := if sizeThreshold (params s) * 8 <? Data.getSizeBits cd then Data.setSizeBits (blkSize (params s) * 8) cd else cd in
  Ok (cd, comp_lat, decomp_lat, s).
End Compress.
End Base.

(** ** The dictionary compressor *)
Module DictionaryCompressor.
Import Pattern.
Record t := mk {
  base : Base.Params;
  dictionarySize : Z;
  dictionary : list DictionaryEntry;
  numEntries : Z;
}.
Definition with_dict d n (s : t) : t := mk (base s) (dictionarySize s) d n.

(** [resetDictionary], [addToDictionary] and [CompData::addEntry] as the base
    class has them. *)
Definition reset (szT : nat) (s : t) : t :=
  with_dict ((fun _ => toDictionaryEntry szT 0) <$> dictionary s) 0 s.
Definition push (data : DictionaryEntry) (s : t) : result t :=
  let! d := vset (dictionary s) (numEntries s) data in
  Ok (with_dict d (numEntries s + 1) s).
Definition add_entry (pattern : Pattern) (cd : Z * list Pattern) : Z * list Pattern :=
  (cd.1 + Pattern.getSizeBits pattern, cd.2 ++ [pattern]).

(** What the compressors override: the element type, the factory, the
    dictionary operations and the list of entries. *)
Class Virtual := {
  sizeofT : nat;
  factory : list PatternClass;
  addToDictionary : DictionaryEntry -> t -> result t;
  resetDictionary : t -> result t;
  addEntry : Pattern -> Z * list Pattern -> Z * list Pattern;
}.

Definition new (szT : nat) (p : Base.Params) (dictionary_size : Z) : t :=
  reset szT (mk p dictionary_size (replicate (Z.to_nat dictionary_size) (replicate szT 0)) 0).

Section Compressor.
Context `{Virtual}.

Fixpoint search (n : nat) (i : Z) (bytes : DictionaryEntry) (pattern : Pattern) (s : t) : result Pattern :=
  match n with
  | O => Ok pattern
  | S n =>
      let! d := vget (dictionary s) i in
      let! temp_pattern := getPattern factory bytes d i in
      search n (i + 1) bytes (if Pattern.getSizeBits temp_pattern <? Pattern.getSizeBits pattern then temp_pattern else pattern) s
  end.
Definition compressValue (data : Z) (s : t) : result (Pattern * t) :=
  let bytes := toDictionaryEntry sizeofT data in
  let! pattern := getPattern factory bytes (toDictionaryEntry sizeofT 0) (-1) in
  let! pattern := search (Z.to_nat (numEntries s)) 0 bytes pattern s in
  let! s := (if shouldAllocate pattern then addToDictionary bytes s else Ok s) in
  Ok (pattern, s).

Fixpoint compress_loop (chunks : list Z) (cd : Z * list Pattern) (s : t) : result (Z * list Pattern * t) :=
  match chunks with
  | [] => Ok (cd, s)
  | value :: chunks =>
      let! r := compressValue (uw (8 * Z.of_nat sizeofT) value) s in
      compress_loop chunks (addEntry r.1 cd) r.2
  end.
Definition compress (chunks : list Z) (s : t) : result (Z * list Pattern * t) :=
  let! s := resetDictionary s in
  compress_loop chunks (0, []) s.

(** The overload with latencies. *)
Definition compress_lat (chunks : list Z) (s : t) : result (Z * list Pattern * Z * Z * t) :=
  let p := base s in
  let n := Z.of_nat (List.length chunks) in
  let! _ := check Undefined (negb (Base.compChunksPerCycle p =? 0) && negb (Base.decompChunksPerCycle p =? 0)) in
  let! r := compress chunks s in
  Ok (r.1, Base.compExtraLatency p + n / Base.compChunksPerCycle p, Base.decompExtraLatency p + n / Base.decompChunksPerCycle p, r.2).

(** The iterator is advanced by the match location without a check; [oob] is the
    outcome of a read behind the end of the dictionary. In C++ that is undefined,
    [fun _ => Err Undefined]; the theorems hold for every outcome, so that they say
    what depends on this read and what does not. *)
Definition read_entry (oob : Z -> result DictionaryEntry) (i : Z) (s : t) : result DictionaryEntry :=
  match dictionary s !! Z.to_nat i with Some e => Ok e | None => oob i end.
Definition decompressValue (oob : Z -> result DictionaryEntry) (pattern : Pattern) (s : t) : result (Z * t) :=
  let! entry := read_entry oob (getMatchLocation pattern) s in
  let! data := Pattern.decompress sizeofT pattern entry in
  let! s := (if shouldAllocate pattern then addToDictionary data s else Ok s) in
  Ok (fromDictionaryEntry sizeofT data, s).

Fixpoint decompress_loop (oob : Z -> result DictionaryEntry) (entries : list Pattern) (s : t) : result (list Z * t) :=
  match entries with
  | [] => Ok ([], s)
  | e :: entries =>
      let! r := decompressValue oob e s in
      let! rs := decompress_loop oob entries r.2 in
      Ok (r.1 :: rs.1, rs.2)
  end.

Definition values_per_entry : Z := 8 / Z.of_nat sizeofT.
Fixpoint concat_loop (j : nat) (i : Z) (decomp_values : list Z) (d : Z) : result Z :=
  match j with
  | O => Ok d
  | S j =>
      let! v := vget decomp_values (values_per_entry * i + Z.of_nat j) in
      let! v := shl 64 v (Z.of_nat j * 8 * Z.of_nat sizeofT) in
      concat_loop j i decomp_values (Z.lor d v)
  end.
Definition decompress (oob : Z -> result DictionaryEntry) (entries : list Pattern) (s : t) : result (list Z * t) :=
  let! s := resetDictionary s in
  let! r := decompress_loop oob entries s in
  let! data := mapM_r (fun i => concat_loop (Z.to_nat values_per_entry) i r.1 0) (seqZ 0 (Base.blkSize (base s) / 8)) in
  Ok (data, r.2).
End Compressor.
End DictionaryCompressor.
