(* ===== verification/CompressorKinds.v ===== *)
(** * The compressors

    The compressors of src/gem5/src/mem/cache/compressors on top of the dictionary
    compressor: C-Pack, FPC, FPC-D, base-delta, repeated quadwords and zero, and
    the perfect and the multi compressor. *)

From S2P Require Import Prelude Bits Compressor.
Import Bitfield Pattern.

(** The dictionary operations that several compressors share: an insertion that
    asserts that there is room. *)
Definition push_checked (data : DictionaryEntry) (s : DictionaryCompressor.t) : result DictionaryCompressor.t :=
  guard! DictionaryCompressor.numEntries s <? DictionaryCompressor.dictionarySize s;
  DictionaryCompressor.push data s.

(** ** C-Pack *)
Module CPack.
Definition PatternZZZZ := mkClass (maskedValue_match 4 0 0xFFFFFFFF) (fun bytes loc => maskedValue 4 0 0xFFFFFFFF 0 0x0 2 loc bytes false).
Definition PatternXXXX := mkClass (fun _ _ _ => Ok true) (fun bytes loc => uncompressed 4 1 0x1 2 loc bytes).
Definition PatternMMMM := mkClass (masked_match 4 0xFFFFFFFF) (fun bytes loc => masked 4 0xFFFFFFFF 2 0x2 6 loc bytes true).
Definition PatternMMXX := mkClass (masked_match 4 0xFFFF0000) (fun bytes loc => masked 4 0xFFFF0000 3 0xC 8 loc bytes true).
Definition PatternZZZX := mkClass (maskedValue_match 4 0 0xFFFFFF00) (fun bytes loc => maskedValue 4 0 0xFFFFFF00 4 0xD 4 loc bytes false).
Definition PatternMMMX := mkClass (masked_match 4 0xFFFFFF00) (fun bytes loc => masked 4 0xFFFFFF00 5 0xE 8 loc bytes true).
Definition PatternFactory := [PatternZZZZ; PatternMMMM; PatternZZZX; PatternMMMX; PatternMMXX; PatternXXXX].

Definition addToDictionary := push_checked.
Definition virtual : DictionaryCompressor.Virtual := {|
  DictionaryCompressor.sizeofT := 4;
  DictionaryCompressor.factory := PatternFactory;
  DictionaryCompressor.addToDictionary := addToDictionary;
  DictionaryCompressor.resetDictionary s := Ok (DictionaryCompressor.reset 4 s);
  DictionaryCompressor.addEntry := DictionaryCompressor.add_entry;
|}.
End CPack.

(** ** FPC *)
Module FPC.
Definition ZERO_RUN : Z := 0.
(** The constructor of [ZeroRun] starts with an empty run of no size. *)
Definition zeroRun (bytes : DictionaryEntry) : Pattern :=
  pattern ZERO_RUN ZERO_RUN 3 (popCount (unot (W 4) 0xFFFFFFFF)) (-1) false (Pattern.ZeroRun (unmatched 4 0xFFFFFFFF bytes) 0 0).
(** The constructor of [SignExtendedTwoHalfwords] keeps the low byte of each halfword. *)
Definition twoHalfwords (bytes : DictionaryEntry) : Pattern :=
  pattern 5 5 3 16 (-1) false
    (Pattern.SignExtendedTwoHalfwords (sw 8 (Z.land (fromDictionaryEntry 4 bytes) (mask 8)))
       (sw 8 (Z.land (Z.shiftr (fromDictionaryEntry 4 bytes) 16) (mask 8)))).

Definition ZeroRun := mkClass (maskedValue_match 4 0 0xFFFFFFFF) (fun bytes _ => zeroRun bytes).
Definition SignExtended4Bits := mkClass (signExtended_match 4 4) (fun bytes _ => signExtended 4 4 1 1 3 bytes false).
Definition SignExtended1Byte := mkClass (signExtended_match 4 8) (fun bytes _ => signExtended 4 8 2 2 3 bytes false).
Definition SignExtendedHalfword := mkClass (signExtended_match 4 16) (fun bytes _ => signExtended 4 16 3 3 3 bytes false).
Definition ZeroPaddedHalfword := mkClass (maskedValue_match 4 0 0x0000FFFF) (fun bytes _ => maskedValue 4 0 0x0000FFFF 4 4 3 (-1) bytes false).
Definition SignExtendedTwoHalfwords := mkClass (twoHalfwords_match 4) (fun bytes _ => twoHalfwords bytes).
Definition RepBytes := mkClass (repeatedValue_match 4 1) (fun bytes _ => repeatedValue 4 1 6 6 3 (-1) bytes false).
Definition Uncompressed := mkClass (fun _ _ _ => Ok true) (fun bytes _ => uncompressed 4 7 7 3 (-1) bytes).
Definition PatternFactory := [ZeroRun; SignExtended4Bits; SignExtended1Byte; SignExtendedHalfword; ZeroPaddedHalfword;
  SignExtendedTwoHalfwords; RepBytes; Uncompressed].

(** [setRealSize] and [setRunLength] act on zero runs. *)
Definition setRealSize (size : Z) (p : Pattern) : Pattern :=
  match as_ p with
  | Pattern.ZeroRun b run _ => mkPattern (patternNumber p) (code p) (Pattern.length p) (numUnmatchedBits p) (matchLocation p) (allocate p)
                                 (Pattern.ZeroRun b run (Pattern.length p + size))
  | _ => p
  end.
Definition setRunLength (run : Z) (p : Pattern) : Pattern :=
  match as_ p with
  | Pattern.ZeroRun b _ size => mkPattern (patternNumber p) (code p) (Pattern.length p) (numUnmatchedBits p) (matchLocation p) (allocate p)
                                  (Pattern.ZeroRun b run size)
  | _ => p
  end.
Definition getRunLength (p : Pattern) : Z := match as_ p with Pattern.ZeroRun _ run _ => run | _ => 0 end.

Definition addEntry (zeroRunSizeBits : Z) (p : Pattern) (cd : Z * list Pattern) : Z * list Pattern :=
  let p :=
    (if patternNumber p =? ZERO_RUN then
       match last cd.2 with
       | None => setRealSize zeroRunSizeBits p
       | Some back =>
           if negb (patternNumber back =? ZERO_RUN) then setRealSize zeroRunSizeBits p
           else if getRunLength back =? mask zeroRunSizeBits then setRealSize zeroRunSizeBits p
           else setRunLength (getRunLength back + 1) p
       end
     else p) in
  DictionaryCompressor.add_entry p cd.

Definition virtual (zeroRunSizeBits : Z) : DictionaryCompressor.Virtual := {|
  DictionaryCompressor.sizeofT := 4;
  DictionaryCompressor.factory := PatternFactory;
  DictionaryCompressor.addToDictionary data s := Ok s;
  DictionaryCompressor.resetDictionary s := Ok (DictionaryCompressor.reset 4 s);
  DictionaryCompressor.addEntry := addEntry zeroRunSizeBits;
|}.
End FPC.

(** ** FPC-D *)
Module FPCD.
Definition prefixSize : Z := 4.
Definition previousIndex : Z := 1.
Definition penultimateIndex : Z := 0.
Definition value_class (value pmask number code : Z) : PatternClass :=
  mkClass (maskedValue_match 4 value pmask) (fun bytes loc => maskedValue 4 value pmask number code prefixSize loc bytes true).
Definition located_class (pmask location number code : Z) : PatternClass :=
  mkClass (locatedMasked_match 4 pmask location) (fun bytes loc => masked 4 pmask number code prefixSize loc bytes true).

Definition PatternZZZZ := value_class 0 0xFFFFFFFF 0 0x0.
Definition PatternFFFF := value_class 0xFFFFFFFF 0xFFFFFFFF 1 0x1.
Definition PatternMMMMPrevious := located_class 0xFFFFFFFF previousIndex 3 0x2.
Definition PatternMMMMPenultimate := located_class 0xFFFFFFFF penultimateIndex 2 0x3.
Definition PatternZZZX := value_class 0 0xFFFFFF00 4 0x4.
Definition PatternXZZZ := value_class 0 0x00FFFFFF 5 0x5.
Definition PatternRRRR := mkClass (repeatedValue_match 4 1) (fun bytes loc => repeatedValue 4 1 6 0x6 prefixSize loc bytes true).
Definition PatternMMMXPrevious := located_class 0xFFFFFF00 previousIndex 8 0x7.
Definition PatternMMMXPenultimate := located_class 0xFFFFFF00 penultimateIndex 7 0x8.
Definition PatternZZXX := value_class 0 0xFFFF0000 9 0x9.
Definition PatternZXZX := value_class 0 0xFF00FF00 10 0xA.
Definition PatternFFXX := value_class 0xFFFFFFFF 0xFFFF0000 11 0xB.
Definition PatternXXZZ := value_class 0 0x0000FFFF 12 0xC.
Definition PatternMMXXPrevious := located_class 0xFFFF0000 previousIndex 14 0xD.
Definition PatternMMXXPenultimate := located_class 0xFFFF0000 penultimateIndex 13 0xE.
Definition PatternXXXX := mkClass (fun _ _ _ => Ok true) (fun bytes loc => uncompressed 4 15 0xF prefixSize loc bytes).
Definition PatternFactory := [PatternZZZZ; PatternFFFF; PatternMMMMPrevious; PatternMMMMPenultimate; PatternZZZX; PatternXZZZ;
  PatternRRRR; PatternMMMXPrevious; PatternMMMXPenultimate; PatternZZXX; PatternZXZX; PatternFFXX; PatternXXZZ;
  PatternMMXXPrevious; PatternMMXXPenultimate; PatternXXXX].

(** The dictionary is a queue of the two last values. *)
Definition addToDictionary (data : DictionaryEntry) (s : DictionaryCompressor.t) : result DictionaryCompressor.t :=
  if DictionaryCompressor.numEntries s =? 2 then
    let! previous := vget (DictionaryCompressor.dictionary s) previousIndex in
    let! d := vset (DictionaryCompressor.dictionary s) penultimateIndex previous in
    let! d := vset d previousIndex data in
    Ok (DictionaryCompressor.with_dict d (DictionaryCompressor.numEntries s) s)
  else DictionaryCompressor.push data s.

Definition virtual : DictionaryCompressor.Virtual := {|
  DictionaryCompressor.sizeofT := 4;
  DictionaryCompressor.factory := PatternFactory;
  DictionaryCompressor.addToDictionary := addToDictionary;
  DictionaryCompressor.resetDictionary s := Ok (DictionaryCompressor.reset 4 s);
  DictionaryCompressor.addEntry := DictionaryCompressor.add_entry;
|}.
End FPCD.

(** ** Base-delta *)
Module BaseDelta.
Definition DEFAULT_MAX_NUM_BASES : Z := 2.
(** [std::ceil(std::log2(DEFAULT_MAX_NUM_BASES))]. *)
Definition base_bits : Z := Z.log2_up DEFAULT_MAX_NUM_BASES.
Section Type_.
Context (BaseType : nat) (DeltaSizeBits : Z).
Definition PatternX := mkClass (fun _ _ _ => Ok true) (fun bytes loc => uncompressed BaseType 0 0 (base_bits + DeltaSizeBits) loc bytes).
Definition PatternM := mkClass (delta_match BaseType DeltaSizeBits) (fun bytes loc => delta DeltaSizeBits 1 1 base_bits loc bytes).
Definition PatternFactory := [PatternM; PatternX].

Definition addToDictionary := push_checked.
Definition resetDictionary (s : DictionaryCompressor.t) : result DictionaryCompressor.t :=
  addToDictionary (toDictionaryEntry BaseType 0) (DictionaryCompressor.reset BaseType s).
Definition virtual : DictionaryCompressor.Virtual := {|
  DictionaryCompressor.sizeofT := BaseType;
  DictionaryCompressor.factory := PatternFactory;
  DictionaryCompressor.addToDictionary := addToDictionary;
  DictionaryCompressor.resetDictionary := resetDictionary;
  DictionaryCompressor.addEntry := DictionaryCompressor.add_entry;
|}.
(** What [compress] does with the result of the dictionary compressor. *)
Definition compress (cd : Z * list Pattern) (s : DictionaryCompressor.t) : Z * list Pattern :=
  let diff := s32 (DEFAULT_MAX_NUM_BASES - DictionaryCompressor.numEntries s) in
  if diff <? 0 then (Base.blkSize (DictionaryCompressor.base s) * 8, cd.2)
  else if 0 <? diff then (cd.1 + 8 * Z.of_nat BaseType * diff, cd.2)
  else cd.
End Type_.
End BaseDelta.

(** ** Repeated quadwords *)
Module RepeatedQwords.
Definition PatternX := mkClass (fun _ _ _ => Ok true) (fun bytes loc => uncompressed 8 0 0 0 loc bytes).
Definition PatternM := mkClass (locatedMasked_match 8 0xFFFFFFFFFFFFFFFF 0) (fun bytes loc => masked 8 0xFFFFFFFFFFFFFFFF 1 1 0 loc bytes false).
Definition PatternFactory := [PatternM; PatternX].
Definition addToDictionary := push_checked.
Definition virtual : DictionaryCompressor.Virtual := {|
  DictionaryCompressor.sizeofT := 8;
  DictionaryCompressor.factory := PatternFactory;
  DictionaryCompressor.addToDictionary := addToDictionary;
  DictionaryCompressor.resetDictionary s := Ok (DictionaryCompressor.reset 8 s);
  DictionaryCompressor.addEntry := DictionaryCompressor.add_entry;
|}.
Definition compress (cd : Z * list Pattern) (s : DictionaryCompressor.t) : result (Z * list Pattern) :=
  guard! 1 <=? DictionaryCompressor.numEntries s;
  Ok (if 1 <? DictionaryCompressor.numEntries s then (Base.blkSize (DictionaryCompressor.base s) * 8, cd.2) else cd).
End RepeatedQwords.

(** ** Zero *)
Module Zero.
Definition PatternX := mkClass (fun _ _ _ => Ok true) (fun bytes loc => uncompressed 8 0 0 0 loc bytes).
Definition PatternZ := mkClass (maskedValue_match 8 0 0xFFFFFFFFFFFFFFFF) (fun bytes loc => maskedValue 8 0 0xFFFFFFFFFFFFFFFF 1 1 0 loc bytes false).
Definition PatternFactory := [PatternZ; PatternX].
Definition addToDictionary := push_checked.
Definition virtual : DictionaryCompressor.Virtual := {|
  DictionaryCompressor.sizeofT := 8;
  DictionaryCompressor.factory := PatternFactory;
  DictionaryCompressor.addToDictionary := addToDictionary;
  DictionaryCompressor.resetDictionary s := Ok (DictionaryCompressor.reset 8 s);
  DictionaryCompressor.addEntry := DictionaryCompressor.add_entry;
|}.
Definition compress (cd : Z * list Pattern) (s : DictionaryCompressor.t) : Z * list Pattern :=
  if 0 <? DictionaryCompressor.numEntries s then (Base.blkSize (DictionaryCompressor.base s) * 8, cd.2) else cd.
End Zero.

(** ** Dispatch *)
Module Dict.
Inductive kind := CPack_ | FPC_ (zero_run_bits : Z) | FPCD_ | BaseDelta_ (BaseType : nat) (DeltaSizeBits : Z) | RepeatedQwords_ | Zero_.
Definition virtual (k : kind) : DictionaryCompressor.Virtual :=
  match k with
  | CPack_ => CPack.virtual
  | FPC_ z => FPC.virtual z
  | FPCD_ => FPCD.virtual
  | BaseDelta_ b d => BaseDelta.virtual b d
  | RepeatedQwords_ => RepeatedQwords.virtual
  | Zero_ => Zero.virtual
  end.

Record t := mk { kind_of : kind; dict : DictionaryCompressor.t }.
Definition compress (chunks : list Z) (s : t) : result (CompressionData * Z * Z * t) :=
  let V := virtual (kind_of s) in
  match kind_of s with
  | CPack_ | FPC_ _ | FPCD_ =>
      let! r := DictionaryCompressor.compress_lat chunks (dict s) in
      let '(cd, comp_lat, decomp_lat, d) := r in
      Ok (CompData cd.1 cd.2, comp_lat, decomp_lat, mk (kind_of s) d)
  | BaseDelta_ b _ =>
      let! r := DictionaryCompressor.compress_lat chunks (dict s) in
      let '(cd, comp_lat, decomp_lat, d) := r in
      let cd := BaseDelta.compress b cd d in
      Ok (CompData cd.1 cd.2, comp_lat, decomp_lat, mk (kind_of s) d)
  | RepeatedQwords_ =>
      let! r := DictionaryCompressor.compress chunks (dict s) in
      let! cd := RepeatedQwords.compress r.1 r.2 in
      Ok (CompData cd.1 cd.2, 1, 1, mk (kind_of s) r.2)
  | Zero_ =>
      let! r := DictionaryCompressor.compress chunks (dict s) in
      let cd := Zero.compress r.1 r.2 in
      Ok (CompData cd.1 cd.2, 1, 1, mk (kind_of s) r.2)
  end.
Definition decompress (oob : Base.outside) (cd : CompressionData) (s : t) : result (list Z * t) :=
  match cd with
  | CompData _ entries =>
      let! r := @DictionaryCompressor.decompress (virtual (kind_of s)) oob entries (dict s) in
      Ok (r.1, mk (kind_of s) r.2)
  | _ => Err Undefined
  end.
#[global] Instance compressor : Base.Compressor t := {
  params s := DictionaryCompressor.base (dict s);
  compress_chunks _ := compress;
  decompress := decompress;
}.
Definition new (k : kind) (p : Base.Params) (dictionary_size : Z) : t :=
  mk k (DictionaryCompressor.new (@DictionaryCompressor.sizeofT (virtual k)) p dictionary_size).
End Dict.

(** ** Perfect *)
Module Perfect.
Record t := mk { base : Base.Params; compressedSize : Z }.
Definition new (p : Base.Params) (max_compression_ratio : Z) : result t :=
  let! _ := check Undefined (negb (max_compression_ratio =? 0)) in
  Ok (mk p (8 * Base.blkSize p / max_compression_ratio)).
Definition compress (chunks : list Z) (s : t) : result (CompressionData * Z * Z * t) :=
  let n := Z.of_nat (List.length chunks) in
  let! _ := check Undefined (negb (Base.compChunksPerCycle (base s) =? 0) && negb (Base.decompChunksPerCycle (base s) =? 0)) in
  Ok (PerfectCompData (compressedSize s) chunks, n / Base.compChunksPerCycle (base s) + Base.compExtraLatency (base s),
      n / Base.decompChunksPerCycle (base s) + Base.decompExtraLatency (base s), s).
Definition decompress (cd : CompressionData) (s : t) : result (list Z * t) :=
  match cd with
  | PerfectCompData _ chunks => let! data := Base.fromChunks (base s) chunks in Ok (data, s)
  | _ => Err Undefined
  end.
#[global] Instance compressor : Base.Compressor t :=
  { params := base; compress_chunks _ := compress; decompress _ := decompress }.
End Perfect.

(** ** Multi *)
Module Multi.
(** A sub-compressor, of any class. *)
Record object := mkObject { St : Type; ops : Base.Compressor St; st : St }.
Record Results := mkResults { index : Z; compData : CompressionData; decompLat : Z; compressionFactor : Z }.
Definition new_result (index : Z) (comp_data : CompressionData) (decomp_lat blk_size : Z) : Results :=
  let size := Data.getSize comp_data in
  mkResults index comp_data decomp_lat
    (uw 8 (if blk_size <? size then 1 else if size =? 0 then blk_size else alignToPowerOfTwo (blk_size / size))).
(** [lhs] has lower priority than [rhs]. *)
Definition less (lhs rhs : Results) : bool :=
  if compressionFactor lhs =? compressionFactor rhs then decompLat rhs <? decompLat lhs
  else compressionFactor lhs <? compressionFactor rhs.

Record t := mk { base : Base.Params; compressors : list object; numEncodingBits : Z }.
Definition new (p : Base.Params) (compressors : list object) (encoding_in_tags : bool) : result t :=
  let bits := if encoding_in_tags then 0 else Z.log2 (alignToPowerOfTwo (Z.of_nat (List.length compressors))) in
  let! _ := check Fatal (negb (Z.of_nat (List.length compressors) =? 0)) in
  Ok (mk p compressors bits).

(** The loop over the sub-compressors: the results, the largest compression
    latency and the sub-compressors after their call. *)
Fixpoint compress_loop (debug : Base.debug_flag) (data : list Z) (bits blk_size i : Z) (objs : list object) (max_comp_lat : Z)
  : result (list Results * Z * list object) :=
  match objs with
  | [] => Ok ([], max_comp_lat, [])
  | o :: objs =>
      let! r := @Base.compress (St o) (ops o) debug data (st o) in
      let '(cd, comp_lat, decomp_lat, s) := r in
      let cd := Data.setSizeBits (Data.getSizeBits cd + bits) cd in
      let! rs := compress_loop debug data bits blk_size (i + 1) objs (Z.max max_comp_lat comp_lat) in
      let '(res, lat, objs) := rs in
      Ok (new_result i cd decomp_lat blk_size :: res, lat, mkObject (St o) (ops o) s :: objs)
  end.

Section Queue.
(** [top()] of the priority queue that holds the given results. *)
Context (top : list Results -> option Results).
Definition compress (debug : Base.debug_flag) (chunks : list Z) (s : t) : result (CompressionData * Z * Z * t) :=
  let! data := Base.fromChunks (base s) chunks in
  let! r := compress_loop debug data (numEncodingBits s) (Base.blkSize (base s)) 0 (compressors s) 0 in
  let '(results, max_comp_lat, objs) := r in
  match top results with
  | None => Err Undefined
  | Some best =>
      Ok (MultiCompData (Data.getSizeBits (compData best)) (uw 8 (index best)) (compData best),
          max_comp_lat + Base.compExtraLatency (base s), decompLat best + Base.decompExtraLatency (base s),
          mk (base s) objs (numEncodingBits s))
  end.
Definition decompress (oob : Base.outside) (cd : CompressionData) (s : t) : result (list Z * t) :=
  match cd with
  | MultiCompData _ index cd =>
      let! o := vget (compressors s) index in
      let! r := @Base.decompress (St o) (ops o) oob cd (st o) in
      let! objs := vset (compressors s) index (mkObject (St o) (ops o) r.2) in
      Ok (r.1, mk (base s) objs (numEncodingBits s))
  | _ => Err Undefined
  end.
Definition compressor : Base.Compressor t :=
  {| Base.params := base; Base.compress_chunks := compress; Base.decompress := decompress |}.
End Queue.
End Multi.
