(* ===== verification/CompressorLaws.v ===== *)
(** * Compression is lossless: patterns and chunks

    The patterns of the dictionary compressors decompress to the value that they
    were built from, and the chunks of a line give back the line. *)

From S2P Require Import Prelude Bits Compressor CompressorKinds.
Import Bitfield Pattern.

(** ** Dictionary entries *)
Definition entry_ok (szT : nat) (e : DictionaryEntry) : Prop := List.length e = szT /\ Forall (in_uw 8) e.

Lemma to_loop_bytes n v : to_loop n v = to_bytes n v.
Proof. revert v. induction n as [|n IH]; intros v; [done|]. cbn [to_loop to_bytes]. rewrite IH. f_equal. change 0xFF with (2 ^ 8 - 1). by rewrite land_ones_uw. Qed.

Lemma to_bytes_ok n v : entry_ok n (to_bytes n v).
Proof.
  revert v. induction n as [|n IH]; intros v; [done|]. destruct (IH (Z.shiftr v 8)) as [E F]. cbn [to_bytes].
  split; [cbn; by rewrite E|]. constructor; [apply uw_range; lia|done].
Qed.

Lemma of_bytes_bound l : Forall (in_uw 8) l -> in_uw (8 * Z.of_nat (List.length l)) (of_bytes l).
Proof.
  induction 1 as [|d l Hd _ IH]; [cbn; unfold in_uw; lia|]. cbn [of_bytes List.length]. unfold in_uw in *.
  replace (8 * Z.of_nat (S (List.length l))) with (8 * Z.of_nat (List.length l) + 8) by lia. rewrite Z.pow_add_r by lia. nia.
Qed.

Lemma to_of_bytes l : Forall (in_uw 8) l -> to_bytes (List.length l) (of_bytes l) = l.
Proof.
  induction 1 as [|d l Hd Hl IH]; [done|]. cbn [of_bytes List.length to_bytes]. unfold in_uw in Hd.
  rewrite Z.shiftr_div_pow2, (Z.mul_comm (2 ^ 8)), Z.div_add, Z.div_small, Z.add_0_l, IH by lia.
  f_equal. unfold uw. by rewrite Z_mod_plus_full, Z.mod_small.
Qed.

Lemma lor_digit k d x : 0 <= k -> in_uw k d -> Z.lor (Z.shiftl x k) d = d + 2 ^ k * x.
Proof.
  intros Hk Hd. apply Z.bits_inj'. intros i Hi. rewrite testbit_digit, Z.lor_spec, Z.shiftl_spec by done.
  destruct (Z.ltb_spec i k); zbits_high; [done|by rewrite orb_false_r].
Qed.

Section Width.
Context (szT : nat).
Abbreviation W := (W szT).
Abbreviation from := (fromDictionaryEntry szT).
Abbreviation to := (toDictionaryEntry szT).

Lemma from_bytes e : (List.length e <= szT)%nat -> Forall (in_uw 8) e -> from e = of_bytes e.
Proof.
  intros Hl Hf. unfold fromDictionaryEntry. induction Hf as [|d e Hd Hf IH]; [done|]. cbn [from_loop of_bytes List.length] in *.
  rewrite IH by lia. pose proof (of_bytes_bound e Hf) as Hb. rewrite uw_small; [by apply lor_digit|].
  apply (in_uw_mono (8 * Z.of_nat (List.length e) + 8)); [unfold Pattern.W; lia|]. unfold in_uw in *.
  rewrite Z.shiftl_mul_pow2, Z.pow_add_r by lia. nia.
Qed.

Lemma from_range e : entry_ok szT e -> in_uw W (from e).
Proof. intros [Hl Hf]. rewrite from_bytes by (done || lia). unfold Pattern.W. rewrite <- Hl. by apply of_bytes_bound. Qed.

Lemma to_ok v : entry_ok szT (to v).
Proof. unfold toDictionaryEntry. rewrite to_loop_bytes. apply to_bytes_ok. Qed.

Lemma to_from e : entry_ok szT e -> to (from e) = e.
Proof.
  intros [Hl Hf]. rewrite from_bytes by (done || lia). unfold toDictionaryEntry. rewrite to_loop_bytes, <- Hl. by apply to_of_bytes.
Qed.

Lemma from_to v : in_uw W v -> from (to v) = v.
Proof.
  intros Hv. destruct (to_ok v) as [Hl Hf]. rewrite from_bytes by (done || lia). unfold toDictionaryEntry. rewrite to_loop_bytes. by apply of_to_bytes.
Qed.

(** ** Patterns *)
(** The pattern, made for [bytes] against the entry [dict] at [loc], gives
    [bytes] back; it needs the entry only when it keeps its location. *)
Definition pattern_ok (bytes dict : DictionaryEntry) (loc : Z) (p : Pattern) : Prop :=
  (matchLocation p = loc \/ matchLocation p = -1) /\
  forall d, (0 <= matchLocation p -> d = dict) -> decompress szT p d = Ok bytes.
Definition class_ok (c : PatternClass) : Prop := forall bytes dict loc, entry_ok szT bytes -> entry_ok szT dict -> -1 <= loc ->
  exists b, isPattern c bytes dict loc = Ok b /\ (b = true -> pattern_ok bytes dict loc (construct c bytes loc)).
Definition final_ok (c : PatternClass) : Prop := forall bytes dict loc, entry_ok szT bytes -> pattern_ok bytes dict loc (construct c bytes loc).
Definition factory_ok (l : list PatternClass) : Prop := exists cs c, l = cs ++ [c] /\ Forall class_ok cs /\ final_ok c.

Lemma getPattern_ok l bytes dict loc : factory_ok l -> entry_ok szT bytes -> entry_ok szT dict -> -1 <= loc ->
  exists p, getPattern l bytes dict loc = Ok p /\ pattern_ok bytes dict loc p.
Proof.
  intros (cs & c & -> & Hcs & Hc) Hb Hd Hl. induction Hcs as [|h cs Hh Hcs IH]; cbn [app getPattern].
  - eexists. split; [done|]. by apply Hc.
  - destruct (Hh bytes dict loc Hb Hd Hl) as (b & E & Hp).
    destruct (cs ++ [c]) as [|c' tl] eqn:Ecs; [by destruct cs|]. rewrite E, bind_Ok.
    destruct b; [|done]. eexists. split; [done|by apply Hp].
Qed.

Lemma unmask v m : in_uw W v -> Z.lor (Z.land v (unot W m)) (Z.land v m) = v.
Proof. intros Hv. assert (0 <= W) by (unfold Pattern.W; lia). zbits. Qed.

Lemma unmasked_entry bytes m x : entry_ok szT bytes -> Z.land x m = Z.land (from bytes) m ->
  to (Z.lor (unmatched szT m bytes) (Z.land x m)) = bytes.
Proof. intros Hb E. unfold unmatched. rewrite E, unmask by (by apply from_range). by apply to_from. Qed.

Lemma uncompressed_ok number code len : final_ok (mkClass (fun _ _ _ => Ok true) (fun bytes loc => uncompressed szT number code len loc bytes)).
Proof. intros bytes dict loc Hb. split; [by left|done]. Qed.
Lemma uncompressed_none_ok number code len : final_ok (mkClass (fun _ _ _ => Ok true) (fun bytes _ => uncompressed szT number code len (-1) bytes)).
Proof. intros bytes dict loc Hb. split; [by right|done]. Qed.

Lemma masked_pattern_ok m number code len alloc bytes dict loc : entry_ok szT bytes ->
  0 <= loc -> Z.land (from bytes) m = Z.land (from dict) m -> pattern_ok bytes dict loc (masked szT m number code len loc bytes alloc).
Proof.
  intros Hb Hl E. split; [by left|]. intros d Hd. cbn in Hd. rewrite Hd by done. unfold decompress. cbn [masked pattern as_]. f_equal. by apply unmasked_entry.
Qed.

Lemma masked_ok m number code len alloc : class_ok (mkClass (masked_match szT m) (fun bytes loc => masked szT m number code len loc bytes alloc)).
Proof.
  intros bytes dict loc Hb Hd Hl. eexists. split; [done|]. intros Hm. apply andb_true_iff in Hm as [H1%Z.leb_le H2%Z.eqb_eq]. by apply masked_pattern_ok.
Qed.

Lemma located_ok m location number code len alloc :
  class_ok (mkClass (locatedMasked_match szT m location) (fun bytes loc => masked szT m number code len loc bytes alloc)).
Proof.
  intros bytes dict loc Hb Hd Hl. cbn [isPattern construct]. unfold locatedMasked_match. destruct (loc =? location); [|by exists false].
  by apply masked_ok.
Qed.

Lemma value_pattern_ok value m number code len loc0 alloc bytes dict loc : in_uw W value -> entry_ok szT bytes -> loc0 = loc \/ loc0 = -1 ->
  Z.land value m = Z.land (from bytes) m -> pattern_ok bytes dict loc (maskedValue szT value m number code len loc0 bytes alloc).
Proof.
  intros Hv Hb Hl E. split; [done|]. intros d _. unfold decompress. cbn [maskedValue pattern as_]. f_equal. unfold masked_decompress.
  rewrite from_to by done. by apply unmasked_entry.
Qed.

Lemma value_ok value m number code len alloc : in_uw W value ->
  class_ok (mkClass (maskedValue_match szT value m) (fun bytes loc => maskedValue szT value m number code len loc bytes alloc)).
Proof. intros Hv bytes dict loc Hb Hd Hl. eexists. split; [done|]. intros Hm%Z.eqb_eq. apply value_pattern_ok; try done. by left. Qed.
Lemma value_none_ok value m number code len alloc : in_uw W value ->
  class_ok (mkClass (maskedValue_match szT value m) (fun bytes _ => maskedValue szT value m number code len (-1) bytes alloc)).
Proof. intros Hv bytes dict loc Hb Hd Hl. eexists. split; [done|]. intros Hm%Z.eqb_eq. apply value_pattern_ok; try done. by right. Qed.

Lemma delta_ok D number code len : class_ok (mkClass (delta_match szT D) (fun bytes loc => delta D number code len loc bytes)).
Proof. intros bytes dict loc Hb Hd Hl. eexists. split; [done|]. intros _. split; [by left|done]. Qed.

Lemma signExtended_ok N number code len alloc : 1 <= N <= W -> W <= 64 ->
  class_ok (mkClass (signExtended_match szT N) (fun bytes _ => signExtended szT N number code len bytes alloc)).
Proof.
  intros HN HW bytes dict loc Hb Hd Hl. cbn [isPattern construct]. unfold signExtended_match. pose proof (from_range bytes Hb) as Hv.
  assert (Hv64 : in_uw 64 (from bytes)) by (eapply in_uw_mono; [|done]; lia).
  destruct (sext_szext_spec (from bytes) N Hv64) as [-> _]; [lia|]. rewrite bind_Ok. eexists. split; [done|]. intros E%Z.eqb_eq.
  split; [by right|]. intros d _. unfold decompress. cbn [signExtended pattern as_].
  assert (Em : uw N (Z.land (from bytes) (mask N)) = uw N (from bytes)).
  { unfold mask. destruct (Z.leb_spec 64 N); [rewrite land_ones_uw by lia; by rewrite (uw_small 64)|].
    pose proof (pow2_pos N). pose proof (Z.pow_lt_mono_r 2 N 64). rewrite Z.shiftl_1_l, (uw_small 64), land_ones_uw, uw_idemp by (unfold in_uw; lia). done. }
  rewrite Em. pose proof (uw_range N (from bytes)) as Hr. destruct (sext_szext_spec (uw N (from bytes)) N) as [_ Hs]; [eapply in_uw_mono; [|apply Hr]; lia|lia|].
  rewrite Hs by (apply Hr; lia). rewrite bind_Ok, <- E. f_equal. by apply to_from.
Qed.
End Width.

(** ** The patterns on 32-bit words *)
Lemma range_check (P : Z -> bool) n : forallb P (seqZ 0 n) = true -> forall x, 0 <= x < n -> P x = true.
Proof. intros H x Hx. rewrite forallb_forall in H. apply H. apply list_elem_of_In, elem_of_seqZ. lia. Qed.

(** A repeated byte is its multiple of 0x01010101. *)
Lemma repeat_value r : in_uw 8 r -> repeat_loop 4 4 1 r 0 = r * 0x01010101.
Proof.
  intros Hr. apply Z.eqb_eq. revert r Hr. apply (range_check (fun r => repeat_loop 4 4 1 r 0 =? r * 0x01010101) 256). vm_compute. reflexivity.
Qed.

Lemma rep_loop_value v : in_uw 32 v -> rep_loop 4 1 v (uw 8 v) = true <-> v = uw 8 v * 0x01010101.
Proof.
  intros Hv. cbn [rep_loop]. change (8 * 1) with 8. unfold in_uw, uw in *. rewrite !Z.shiftr_div_pow2 by lia. change (2 ^ 8) with 256 in *. change (2 ^ 32) with 4294967296 in *.
  destruct (Z.eqb_spec (v mod 256) (v mod 256)); cbn [negb]; [|done].
  destruct (Z.eqb_spec (v / 256 mod 256) (v mod 256)); cbn [negb]; [|split; [done|intros; Z.to_euclidean_division_equations; lia]].
  destruct (Z.eqb_spec (v / 256 / 256 mod 256) (v mod 256)); cbn [negb]; [|split; [done|intros; Z.to_euclidean_division_equations; lia]].
  destruct (Z.eqb_spec (v / 256 / 256 / 256 mod 256) (v mod 256)); cbn [negb]; [|split; [done|intros; Z.to_euclidean_division_equations; lia]].
  split; [intros _; Z.to_euclidean_division_equations; lia|done].
Qed.

Lemma repeated_ok number code len (loc0 : Z -> Z) alloc : (forall loc, loc0 loc = loc \/ loc0 loc = -1) ->
  class_ok 4 (mkClass (repeatedValue_match 4 1) (fun bytes loc => repeatedValue 4 1 number code len (loc0 loc) bytes alloc)).
Proof.
  intros Hl0 bytes dict loc Hb Hd Hl. eexists. split; [done|]. intros Hm. split; [apply Hl0|]. intros d _. pose proof (from_range 4 bytes Hb) as Hv.
  apply rep_loop_value in Hm; [|done]. unfold decompress. cbn [construct repeatedValue pattern as_]. change (8 * 1) with 8. change (Z.to_nat (Z.of_nat 4 / 1)) with 4%nat.
  rewrite repeat_value by (apply uw_range; lia). rewrite <- Hm. f_equal. by apply to_from.
Qed.

(** A halfword matches when it is a byte value without sign: a negative one is
    compared as a signed with an unsigned integer. *)
Lemma halfword_match h : in_uw 16 h -> (sw 16 h =? uw 16 (u64 (sw 8 (uw 8 (u64 (sw 16 h)))))) = (h <? 128).
Proof.
  intros Hh. unfold in_uw, uw, sw in *. change (2 ^ (16 - 1)) with 32768. change (2 ^ (8 - 1)) with 128. change (2 ^ 16) with 65536 in *. change (2 ^ 8) with 256.
  change (2 ^ 64) with 18446744073709551616. destruct (Z.ltb_spec h 128); [apply Z.eqb_eq|apply Z.eqb_neq]; Z.to_euclidean_division_equations; lia.
Qed.

Definition low_half (bytes : DictionaryEntry) : Z := fromDictionaryEntry 4 bytes mod 2 ^ 16.
Definition high_half (bytes : DictionaryEntry) : Z := fromDictionaryEntry 4 bytes / 2 ^ 16.

Lemma halves_range bytes : entry_ok 4 bytes -> in_uw 16 (low_half bytes) /\ in_uw 16 (high_half bytes).
Proof.
  intros Hb. pose proof (from_range 4 bytes Hb) as Hv. unfold in_uw, low_half, high_half in *. change (Pattern.W 4) with 32 in Hv.
  change (2 ^ 16) with 65536. change (2 ^ 32) with 4294967296 in Hv. Z.to_euclidean_division_equations; lia.
Qed.

Lemma twoHalfwords_match_eq bytes dict loc : entry_ok 4 bytes ->
  twoHalfwords_match 4 bytes dict loc = Ok ((low_half bytes <? 128) && (high_half bytes <? 128)).
Proof.
  intros Hb. destruct (halves_range bytes Hb) as [H0 H1]. unfold twoHalfwords_match. change (mask 16) with (2 ^ 16 - 1). rewrite !land_ones_uw by lia.
  assert (uw 16 (fromDictionaryEntry 4 bytes) = low_half bytes) as -> by done.
  assert (uw 16 (Z.shiftr (fromDictionaryEntry 4 bytes) 16) = high_half bytes) as ->
    by (rewrite Z.shiftr_div_pow2 by lia; by apply uw_small).
  destruct (sext_szext_spec (u64 (sw 16 (low_half bytes))) 8) as [-> _]; [apply uw_range; lia|lia|].
  destruct (sext_szext_spec (u64 (sw 16 (high_half bytes))) 8) as [-> _]; [apply uw_range; lia|lia|].
  rewrite !bind_Ok, !halfword_match by done. done.
Qed.

Lemma byte_extended x : 0 <= x < 128 -> szext (u64 (sw 8 (uw 8 x))) 8 = Ok x.
Proof.
  intros Hx. rewrite (uw_small 8), (sw_small 8), (uw_small 64) by (unfold in_uw, in_sw; lia).
  destruct (sext_szext_spec x 8) as [-> _]; [unfold in_uw; lia|lia|]. by rewrite (uw_small 8), (sw_small 8), (uw_small 64) by (unfold in_uw, in_sw; lia).
Qed.

Lemma twoHalfwords_ok : class_ok 4 FPC.SignExtendedTwoHalfwords.
Proof.
  intros bytes dict loc Hb Hd Hl. destruct (halves_range bytes Hb) as [H0 H1]. eexists. split; [by apply twoHalfwords_match_eq|].
  intros [Hm0%Z.ltb_lt Hm1%Z.ltb_lt]%andb_true_iff. split; [by right|]. intros d _. unfold in_uw in *.
  unfold decompress. cbn [FPC.SignExtendedTwoHalfwords construct FPC.twoHalfwords pattern as_]. change (mask 8) with (2 ^ 8 - 1). rewrite !land_ones_uw by lia.
  set (v := fromDictionaryEntry 4 bytes) in *.
  assert (uw 8 v = uw 8 (low_half bytes)) as ->
    by (unfold low_half, uw; fold v; change (2 ^ 16) with (2 ^ 8 * 2 ^ 8); rewrite Z.rem_mul_r, Z.mul_comm, Z_mod_plus_full, Z.mod_mod; lia).
  rewrite Z.shiftr_div_pow2 by lia. change (v / 2 ^ 16) with (high_half bytes). rewrite !byte_extended, !bind_Ok, !(uw_small 16) by (unfold in_uw; lia).
  rewrite lor_digit by (unfold in_uw; lia). f_equal. rewrite uw_small; [|unfold in_uw; change (Pattern.W 4) with 32; lia].
  transitivity (toDictionaryEntry 4 v); [|by apply to_from]. f_equal. unfold low_half, high_half. fold v. pose proof (Z.div_mod v (2 ^ 16)). lia.
Qed.

Lemma zeroRun_ok : class_ok 4 FPC.ZeroRun.
Proof.
  intros bytes dict loc Hb Hd Hl. eexists. split; [done|]. intros Hm%Z.eqb_eq. split; [by right|]. intros d _. unfold decompress.
  cbn [FPC.ZeroRun construct FPC.zeroRun pattern as_]. f_equal. unfold masked_decompress. rewrite from_to by done. by apply unmasked_entry.
Qed.

(** ** The factories *)
Ltac pattern_class :=
  first
  [ exact twoHalfwords_ok
  | exact zeroRun_ok
  | apply masked_ok
  | apply located_ok
  | apply value_ok; split; vm_compute; [discriminate|reflexivity]
  | apply value_none_ok; split; vm_compute; [discriminate|reflexivity]
  | apply (repeated_ok _ _ _ (fun loc => loc)); auto
  | apply (repeated_ok _ _ _ (fun _ => -1)); auto
  | apply delta_ok
  | apply signExtended_ok; unfold Pattern.W; lia ].
Ltac factory l :=
  exists (removelast l); eexists; split; [reflexivity|]; split; [repeat apply Forall_cons_2; try apply Forall_nil_2; pattern_class|];
  first [apply uncompressed_ok | apply uncompressed_none_ok].

Lemma cpack_factory : factory_ok 4 CPack.PatternFactory.
Proof. factory CPack.PatternFactory. Qed.
Lemma fpc_factory : factory_ok 4 FPC.PatternFactory.
Proof. factory FPC.PatternFactory. Qed.
Lemma fpcd_factory : factory_ok 4 FPCD.PatternFactory.
Proof. factory FPCD.PatternFactory. Qed.
Lemma base_delta_factory sz D : factory_ok sz (BaseDelta.PatternFactory sz D).
Proof. exists [BaseDelta.PatternM sz D], (BaseDelta.PatternX sz D). split; [done|]. split; [constructor; [apply delta_ok|constructor]|apply uncompressed_ok]. Qed.
Lemma repeated_qwords_factory : factory_ok 8 RepeatedQwords.PatternFactory.
Proof. factory RepeatedQwords.PatternFactory. Qed.
Lemma zero_factory : factory_ok 8 Zero.PatternFactory.
Proof. factory Zero.PatternFactory. Qed.

(** ** Lines and chunks *)
Section Chunks.
Import Base.
Context (p : Params).
Abbreviation c := (chunkSizeBits p).
Abbreviation n := (num_chunks_per_64 p).

(** The chunk size divides 64 and the block is a number of 64-bit words. *)
Record chunk_cfg : Prop := {
  cc_c : 0 < c;
  cc_n : c * n = 64;
  cc_blk : 0 <= blkSize p;
  cc_words : blkSize p mod 8 = 0;
}.
Definition words : Z := blkSize p / 8.
Definition line_ok (data : list Z) : Prop := Z.of_nat (List.length data) = words /\ Forall (in_uw 64) data.
Context (cfg : chunk_cfg).

Lemma n_pos : 0 < n.
Proof. pose proof (cc_c cfg). pose proof (cc_n cfg). nia. Qed.

Lemma num_chunks : blkSize p * 8 / c = words * n.
Proof.
  pose proof (cc_c cfg). pose proof (cc_n cfg) as Hn. pose proof (cc_words cfg). unfold words.
  assert (E : blkSize p = 8 * (blkSize p / 8)) by (pose proof (Z.div_mod (blkSize p) 8); lia). rewrite E at 1.
  assert (Eq : forall q, 8 * q * 8 = q * n * c) by (intros q; rewrite <- (Z.mul_assoc q), (Z.mul_comm n), Hn; lia). rewrite Eq. apply Z.div_mul. lia.
Qed.

Definition chunk (data : list Z) (i : Z) : Z := uw c (Z.shiftr (data !!! Z.to_nat (i / n)) (i mod n * c)).
Definition chunks (data : list Z) : list Z := map (chunk data) (seqZ 0 (words * n)).

Lemma index_word (data : list Z) i : line_ok data -> 0 <= i < words * n ->
  exists d, data !! Z.to_nat (i / n) = Some d /\ in_uw 64 d /\ 0 <= i / n < words /\ 0 <= i mod n < n.
Proof.
  intros [Hl Hf] Hi. pose proof n_pos. assert (0 <= i / n < words) by (split; [apply Z.div_pos|apply Z.div_lt_upper_bound]; lia).
  destruct (lookup_lt_is_Some_2 data (Z.to_nat (i / n))) as [d Hd]; [lia|]. exists d. split; [done|]. split; [by eapply Forall_lookup_1|].
  split; [done|]. apply Z.mod_pos_bound. lia.
Qed.

Lemma field_bounds s : 0 <= s < n -> 0 <= s * c /\ (s + 1) * c <= 64 /\ (s + 1) * c = s * c + c.
Proof. pose proof (cc_c cfg). pose proof (cc_n cfg). nia. Qed.

Lemma toChunks_Ok data : line_ok data -> toChunks p data = Ok (chunks data).
Proof.
  intros Hd. unfold toChunks. rewrite num_chunks. apply mapM_r_Ok. intros i Hi%elem_of_seqZ.
  destruct (index_word data i Hd) as (d & Hl & _ & Hw & Hs); [lia|]. unfold chunk_at, chunk. rewrite (vget_lookup _ _ d), bind_Ok by (lia || done).
  rewrite (list_lookup_total_correct _ _ _ Hl). pose proof (cc_c cfg). destruct (field_bounds _ Hs) as (? & ? & E). rewrite bits_Ok by lia. f_equal. f_equal. lia.
Qed.

Lemma chunks_length data : Z.of_nat (List.length (chunks data)) = words * n.
Proof.
  unfold chunks. rewrite length_map, length_seqZ. pose proof n_pos. pose proof (cc_blk cfg). assert (0 <= words) by (unfold words; by apply Z.div_pos). nia.
Qed.

Lemma chunks_range data : Forall (in_uw c) (chunks data).
Proof. apply Forall_forall. intros x Hx. apply list_elem_of_fmap in Hx as (i & -> & _). apply uw_range. pose proof (cc_c cfg). lia. Qed.

Lemma chunks_lookup data w s : 0 <= w < words -> 0 <= s < n -> vget (chunks data) (n * w + s) = Ok (uw c (Z.shiftr (data !!! Z.to_nat w) (s * c))).
Proof.
  intros Hw Hs. pose proof n_pos. apply vget_lookup; [nia|]. unfold chunks. rewrite list_lookup_fmap, lookup_seqZ_lt by nia. cbn.
  rewrite Z2Nat.id by nia. unfold chunk. replace (0 + (n * w + s)) with (s + w * n) by lia. rewrite Z.div_add, Z.div_small, Z_mod_plus_full, Z.mod_small by lia. done.
Qed.

(** The words that the first [i] chunks give: of each word the low bits that
    they cover. *)
Definition covered (i w : Z) : Z := Z.min n (Z.max 0 (i - w * n)).
Definition partial (data : list Z) (i : Z) (cur : list Z) : Prop :=
  List.length cur = List.length data /\ forall w d, data !! w = Some d -> cur !! w = Some (uw (covered i (Z.of_nat w) * c) d).

Lemma insert_chunk d s : in_uw 64 d -> 0 <= s < n ->
  replaceBits (uw (s * c) d) ((s + 1) * c - 1) (s * c) (uw c (Z.shiftr d (s * c))) = Ok (uw ((s + 1) * c) d).
Proof.
  intros Hd Hs. pose proof (cc_c cfg). destruct (field_bounds s Hs) as (H0 & H1 & E).
  assert (Hlow : in_uw 64 (uw (s * c) d)) by (eapply in_uw_mono; [|apply uw_range; done]; lia).
  destruct (insertBits_total (uw (s * c) d) ((s + 1) * c - 1) (s * c) (uw c (Z.shiftr d (s * c)))) as (r & Er & _); [done|lia|lia|].
  unfold replaceBits. rewrite Er. f_equal. apply Z.bits_inj'. intros i Hi.
  rewrite (insertBits_testbit (uw (s * c) d) ((s + 1) * c - 1) (s * c) (uw c (Z.shiftr d (s * c))) r i) by (done || lia). autorewrite with zbits. zbits_cases; cbn [andb]; try done. rewrite Z.shiftr_spec by lia. f_equal. lia.
Qed.

Lemma from_chunks_Ok data i m cur : line_ok data -> 0 <= i -> Z.of_nat m + i = words * n -> partial data i cur ->
  from_chunks p (map (chunk data) (seqZ i (Z.of_nat m))) i cur = Ok data.
Proof.
  intros Hd. revert i cur. induction m as [|m IH]; intros i cur Hi Hm [Hlen Hp].
  - cbn [Z.of_nat seqZ map from_chunks]. f_equal. apply list_eq. intros w. destruct (data !! w) as [d|] eqn:Ew.
    + rewrite (Hp w d Ew). f_equal. pose proof (lookup_lt_Some _ _ _ Ew). destruct Hd as [Hl Hf]. pose proof n_pos.
      unfold covered. rewrite Z.max_r, Z.min_l by nia. rewrite Z.mul_comm, (cc_n cfg). apply uw_small. by eapply Forall_lookup_1.
    + apply lookup_ge_None in Ew. apply lookup_ge_None. lia.
  - rewrite seqZ_cons by lia. cbn [map from_chunks]. destruct (index_word data i Hd) as (d & Hl & Hd64 & Hw & Hs); [lia|].
    pose proof n_pos. pose proof (Z.div_mod i n) as Edm. pose proof (Hp _ _ Hl) as Hc. rewrite Z2Nat.id in Hc by lia.
    assert (covered i (i / n) = i mod n) as Ec by (unfold covered; rewrite Z.max_r, Z.min_r; lia). rewrite Ec in Hc.
    rewrite (vget_lookup _ _ _ (proj1 Hw) Hc), bind_Ok. unfold chunk at 1. rewrite (list_lookup_total_correct _ _ _ Hl), insert_chunk, bind_Ok by done.
    pose proof (lookup_lt_Some _ _ _ Hl). rewrite vset_Ok, bind_Ok by lia. replace (Z.pred (Z.of_nat (S m))) with (Z.of_nat m) by lia. apply IH; [lia|lia|].
    split; [by rewrite length_insert|]. intros w d' Hw'. destruct (decide (w = Z.to_nat (i / n))) as [->|Hne].
    + rewrite Hl in Hw'. injection Hw' as <-. rewrite list_lookup_insert_eq, Z2Nat.id by lia. f_equal. f_equal. f_equal. unfold covered. rewrite Z.max_r, Z.min_r; lia.
    + rewrite list_lookup_insert_ne, (Hp _ _ Hw') by done. f_equal. f_equal. f_equal. unfold covered. assert (Z.of_nat w <> i / n) by lia. clear -Edm Hs H H1. nia.
Qed.

Lemma fromChunks_Ok data : line_ok data -> fromChunks p (chunks data) = Ok data.
Proof.
  intros Hd. unfold fromChunks, chunks. pose proof n_pos. assert (0 <= words) by (unfold words; apply Z.div_pos; [apply (cc_blk cfg)|lia]).
  rewrite <- (Z2Nat.id (words * n)) by nia. apply from_chunks_Ok; [done|lia|lia|]. destruct Hd as [Hl _]. split.
  - rewrite length_replicate. unfold words in Hl. lia.
  - intros w d Hw. pose proof (lookup_lt_Some _ _ _ Hw). rewrite lookup_replicate_2 by (unfold words in Hl; lia). f_equal. unfold covered.
    rewrite Z.max_l, Z.min_r by nia. rewrite Z.mul_0_l. symmetry. apply Z.mod_1_r.
Qed.
End Chunks.
