(* ===== verification/CompressorCorrect.v ===== *)
(** * Compression is lossless: the compressors

    Decompressing what a compressor has produced gives the line back, for the
    dictionary compressors, the perfect compressor and every multi compressor
    over lossless ones; the sizes that the compressors report. *)

From S2P Require Import Prelude Bits Compressor CompressorKinds CompressorLaws.
Import Bitfield Pattern.

(** ** The dictionary compressor *)
(** Decompression reads entry 255 for a pattern without a match. It gives [a], or
    stops with the error of that read when the dictionary has no such entry. *)
Definition trips (N : Z) (oob : Base.outside) {A} (r : result A) (a : A) : Prop :=
  r = Ok a \/ N <= 255 /\ exists e, oob 255 = Err e /\ r = Err e.

Lemma trips_bind N oob {A B} (r : result A) (a : A) (g : A -> result B) (c : B) :
  trips N oob r a -> trips N oob (g a) c -> trips N oob (rbind r g) c.
Proof.
  intros [->|(HN & e & He & ->)] Hg; [by rewrite bind_Ok|]. right. split; [done|]. by exists e.
Qed.

Section Dictionary.
Import DictionaryCompressor.
Context (V : Virtual).
Abbreviation sz := sizeofT.

(** Two patterns that decompress alike. *)
Definition alike (p q : Pattern) : Prop :=
  matchLocation q = matchLocation p /\ allocate q = allocate p /\ forall d, Pattern.decompress sz q d = Pattern.decompress sz p d.

(** The configuration of a compressor, which no operation changes. *)
Definition shape (p : Base.Params) (N : Z) (s : t) : Prop :=
  base s = p /\ dictionarySize s = N /\ Z.of_nat (List.length (dictionary s)) = N /\ Forall (entry_ok sz) (dictionary s).

(** What the round trip needs of the overridden functions: [room k s] says that
    there is room for [k] more insertions, [cap] is the room after a reset. *)
Record laws (p : Base.Params) (N : Z) (cap : nat) (room : nat -> t -> Prop) : Prop := {
  v_factory : factory_ok sz factory;
  v_reset : exists s0, room cap s0 /\ forall s, shape p N s -> resetDictionary s = Ok s0;
  v_room k s : room k s -> shape p N s /\ 0 <= numEntries s <= 256 /\ numEntries s <= N;
  v_add k s e : room (S k) s -> entry_ok sz e -> exists s', addToDictionary e s = Ok s' /\ room k s';
  v_skip k s : room (S k) s -> room k s;
  v_entry q cd : exists q', addEntry q cd = add_entry q' cd /\ alike q q';
}.

Context {p : Base.Params} {N : Z} {cap : nat} {room : nat -> t -> Prop} (L : laws p N cap room).

(** The pattern gives [bytes] back from the dictionary of [s]. *)
Definition fits (s : t) (bytes : DictionaryEntry) (q : Pattern) : Prop :=
  (matchLocation q = -1 /\ forall d, Pattern.decompress sz q d = Ok bytes) \/
  exists i e, matchLocation q = i /\ 0 <= i < numEntries s /\ dictionary s !! Z.to_nat i = Some e /\ Pattern.decompress sz q e = Ok bytes.

Lemma search_ok k s n i bytes q : room k s -> entry_ok sz bytes -> 0 <= i -> i + Z.of_nat n = numEntries s -> fits s bytes q ->
  exists q', search n i bytes q s = Ok q' /\ fits s bytes q'.
Proof.
  intros Hr Hb. destruct (v_room _ _ _ _ L k s Hr) as ((_ & _ & Hlen & Hes) & _ & Hn). revert i q.
  induction n as [|n IH]; intros i q Hi Hin Hq; cbn [search]; [by exists q|].
  destruct (vget_Ok (dictionary s) i) as (e & Ee & Hl); [lia|]. rewrite Ee, bind_Ok.
  destruct (getPattern_ok sz factory bytes e i) as (q1 & E1 & Hl1 & Hd1); [apply L|done|by eapply Forall_lookup_1|lia|]. rewrite E1, bind_Ok.
  apply IH; [lia|lia|]. destruct (_ <? _); [|done]. destruct Hl1 as [Hl1|Hl1].
  - right. exists i, e. split; [done|]. split; [lia|]. split; [done|]. by apply Hd1.
  - left. split; [done|]. intros d. apply Hd1. lia.
Qed.

Lemma compressValue_ok k s v : room (S k) s -> in_uw (8 * Z.of_nat sz) v ->
  exists q s', compressValue v s = Ok (q, s') /\ fits s (toDictionaryEntry sz v) q /\ room k s' /\
    (if shouldAllocate q then addToDictionary (toDictionaryEntry sz v) s else Ok s) = Ok s'.
Proof.
  intros Hr Hv. destruct (v_room _ _ _ _ L _ s Hr) as (Hsh & Hn & _). unfold compressValue. set (bytes := toDictionaryEntry sz v).
  assert (Hb : entry_ok sz bytes) by apply to_ok.
  destruct (getPattern_ok sz factory bytes (toDictionaryEntry sz 0) (-1)) as (q & E & Hl & Hd); [apply L|done|apply to_ok|lia|]. rewrite E, bind_Ok.
  destruct (search_ok (S k) s (Z.to_nat (numEntries s)) 0 bytes q Hr Hb) as (q' & E' & Hq'); [lia|lia|left; split; [lia|]; intros d; apply Hd; lia|].
  rewrite E', bind_Ok. destruct (shouldAllocate q') eqn:Eal.
  - destruct (v_add _ _ _ _ L k s bytes Hr Hb) as (s' & Ea & Hs'). rewrite Ea, bind_Ok. exists q', s'. by rewrite Eal.
  - rewrite bind_Ok. exists q', s. rewrite Eal. split; [done|]. split; [done|]. split; [by eapply v_skip|done].
Qed.

Lemma read_entry_ok oob k s bytes q : room k s -> fits s bytes q ->
  exists e, trips N oob (read_entry oob (getMatchLocation q) s) e /\ Pattern.decompress sz q e = Ok bytes.
Proof.
  intros Hr Hq. destruct (v_room _ _ _ _ L _ s Hr) as ((_ & _ & Hlen & _) & Hn & _).
  unfold read_entry, getMatchLocation. destruct Hq as [[-> Hd]|(i & e & -> & Hi & He & Hd)].
  - change (uw 8 (-1)) with 255. destruct (dictionary s !! Z.to_nat 255) as [e|] eqn:He.
    + exists e. split; [by left|done].
    + destruct (oob 255) as [e|err] eqn:Ho; [exists e; split; [by left|done]|].
      exists []. split; [|done]. right. apply lookup_ge_None in He. split; [lia|]. by exists err.
  - rewrite uw_small, He by (unfold in_uw; lia). exists e. split; [by left|done].
Qed.

Lemma decompressValue_ok oob k s v q q' s' : room k s -> in_uw (8 * Z.of_nat sz) v -> fits s (toDictionaryEntry sz v) q -> alike q q' ->
  (if shouldAllocate q then addToDictionary (toDictionaryEntry sz v) s else Ok s) = Ok s' ->
  trips N oob (decompressValue oob q' s) (v, s').
Proof.
  intros Hr Hv Hq (El & Ea & Ed) Es. destruct (read_entry_ok oob k s _ q Hr Hq) as (e & He & Hd).
  unfold decompressValue, getMatchLocation in *. rewrite El. eapply trips_bind; [exact He|].
  left. rewrite Ed, Hd, bind_Ok. unfold shouldAllocate in *. rewrite Ea, Es, bind_Ok. by rewrite from_to.
Qed.

Lemma loops_ok vs cd s : room (List.length vs) s -> Forall (in_uw (8 * Z.of_nat sz)) vs ->
  exists sum qs s' k, compress_loop vs cd s = Ok (cd.1 + sum, cd.2 ++ qs, s') /\ (forall oob, trips N oob (decompress_loop oob qs s) (vs, s')) /\ room k s'.
Proof.
  intros Hr Hf. revert cd s Hr. induction Hf as [|v vs Hv Hf IH]; intros cd s Hr; cbn [compress_loop].
  - exists 0, [], s, 0%nat. rewrite Z.add_0_r, app_nil_r. split; [by destruct cd|]. split; [|done]. intros oob. by left.
  - destruct (compressValue_ok (List.length vs) s v Hr Hv) as (q & s1 & E & Hq & Hr1 & Ea). rewrite uw_small by done. rewrite E, bind_Ok. cbn [fst snd].
    destruct (v_entry _ _ _ _ L q cd) as (q' & Ee & Hal). rewrite Ee. destruct (IH (add_entry q' cd) s1 Hr1) as (sum & qs & s' & k & Ec & Edl & Hk).
    exists (Pattern.getSizeBits q' + sum), (q' :: qs), s', k. rewrite Ec. cbn [add_entry fst snd decompress_loop].
    rewrite Z.add_assoc, <- app_assoc. split; [done|]. split; [|done]. intros oob.
    eapply trips_bind; [by eapply (decompressValue_ok oob (S (List.length vs)) s v q q' s1)|].
    cbn [fst snd]. eapply trips_bind; [apply Edl|]. by left.
Qed.

(** ** Lines *)
Hypothesis (Hsz : Z.of_nat sz * values_per_entry = 8).
Hypothesis (Hchunk : Base.chunkSizeBits p = 8 * Z.of_nat sz).
Hypothesis (Hcfg : chunk_cfg p).
Hypothesis (Hcap : Z.of_nat cap = words p * Base.num_chunks_per_64 p).

Lemma values_per_word : values_per_entry = Base.num_chunks_per_64 p.
Proof. pose proof (cc_n p Hcfg) as Hn. rewrite Hchunk in Hn. apply (Z.mul_reg_l _ _ (Z.of_nat sz)); lia. Qed.

Lemma concat_ok data w d j : line_ok p data -> data !! Z.to_nat w = Some d -> 0 <= w < words p -> Z.of_nat j <= values_per_entry ->
  concat_loop j w (chunks p data) (Z.shiftl (Z.shiftr d (Z.of_nat j * Base.chunkSizeBits p)) (Z.of_nat j * Base.chunkSizeBits p)) = Ok d.
Proof.
  intros Hd Hl Hw. assert (in_uw 64 d) as Hd64 by (destruct Hd; by eapply Forall_lookup_1). pose proof (cc_c p Hcfg) as Hc.
  induction j as [|j IH]; intros Hj; cbn [concat_loop]; [cbn; by rewrite Z.shiftr_0_r|].
  rewrite values_per_word in *. rewrite chunks_lookup, bind_Ok, (list_lookup_total_correct _ _ _ Hl) by (done || lia).
  replace (Z.of_nat j * 8 * Z.of_nat sz) with (Z.of_nat j * Base.chunkSizeBits p) by (rewrite Hchunk; lia).
  destruct (field_bounds p Hcfg (Z.of_nat j)) as (H0 & H1 & E); [lia|]. rewrite shl_Ok, bind_Ok by nia.
  rewrite <- IH by lia. f_equal. replace (Z.of_nat (S j)) with (Z.of_nat j + 1) by lia. rewrite E. zbits.
Qed.

Lemma dict_trip data s : line_ok p data -> shape p N s ->
  exists sum qs s', compress (chunks p data) s = Ok (sum, qs, s') /\ shape p N s' /\
    forall oob s3, shape p N s3 -> exists s4, trips N oob (decompress oob qs s3) (data, s4) /\ shape p N s4.
Proof.
  intros Hd Hs. destruct (v_reset _ _ _ _ L) as (s0 & Hr0 & Hreset).
  assert (Hlen : List.length (chunks p data) = cap) by (pose proof (chunks_length p Hcfg data); lia). rewrite <- Hlen in Hr0.
  destruct (loops_ok (chunks p data) (0, []) s0 Hr0) as (sum & qs & s' & k & Ec & Ed & Hk); [rewrite <- Hchunk; apply chunks_range, Hcfg|].
  destruct (v_room _ _ _ _ L _ _ Hk) as (Hs' & _). exists sum, qs, s'. unfold compress. rewrite (Hreset s Hs), bind_Ok. cbn in Ec. rewrite Ec. split; [done|]. split; [done|].
  intros oob s3 Hs3. exists s'. split; [|done]. unfold decompress. rewrite (Hreset s3 Hs3), bind_Ok.
  eapply trips_bind; [apply Ed|]. left. cbn [fst snd].
  destruct (v_room _ _ _ _ L _ _ Hr0) as ((-> & _) & _). fold (words p).
  rewrite (mapM_r_Ok _ (fun w => data !!! Z.to_nat w)), bind_Ok.
  - f_equal. f_equal. apply list_eq. intros i. rewrite list_lookup_fmap. destruct Hd as [Hl _]. destruct (data !! i) as [d|] eqn:Ei.
    + pose proof (lookup_lt_Some _ _ _ Ei). rewrite lookup_seqZ_lt by lia. cbn [fmap option_fmap option_map]. rewrite Z.add_0_l, Nat2Z.id. by rewrite (list_lookup_total_correct _ _ _ Ei).
    + apply lookup_ge_None in Ei. rewrite lookup_seqZ_ge by lia. done.
  - intros w Hw%elem_of_seqZ. destruct Hd as [Hl Hf]. destruct (lookup_lt_is_Some_2 data (Z.to_nat w)) as [d Hdw]; [lia|].
    assert (Hd64 : in_uw 64 d) by (by eapply Forall_lookup_1). rewrite (list_lookup_total_correct _ _ _ Hdw). pose proof (concat_ok data w d (Z.to_nat values_per_entry) (conj Hl Hf) Hdw) as Hc.
    rewrite Z2Nat.id in Hc by nia. rewrite values_per_word, (Z.mul_comm (Base.num_chunks_per_64 p)), (cc_n p Hcfg), Z.shiftr_div_pow2, Z.div_small, Z.shiftl_0_l in Hc
      by (unfold in_uw in Hd64; lia). rewrite values_per_word. apply Hc; lia.
Qed.
End Dictionary.

(** ** Lossless compressors *)
(** The promise of a compressor with the parameters [p] in the states [ok]:
    compression does not fail, and what it returns, under whatever size is
    recorded for it, is decompressed to the line in every later state. This
    interface is for machines on which a read behind the end of a dictionary gives
    some value; the theorem on the dictionary compressors covers every outcome. *)
Definition debug_ok (debug : Base.debug_flag) : Prop := debug = None \/ exists f, debug = Some (fun i => Ok (f i)).
Class Lossless {St : Type} (ops : Base.Compressor St) (p : Base.Params) (ok : St -> Prop) : Prop := {
  ll_params s : ok s -> Base.params s = p;
  ll_cfg : chunk_cfg p;
  ll_trip debug data s : ok s -> line_ok p data -> debug_ok debug ->
    exists cd comp_lat decomp_lat s', Base.compress_chunks debug (chunks p data) s = Ok (cd, comp_lat, decomp_lat, s') /\ ok s' /\
      forall f s3 size, ok s3 -> exists s4, Base.decompress (fun i => Ok (f i)) (Data.setSizeBits size cd) s3 = Ok (data, s4) /\ ok s4;
}.

Lemma set_size_twice a b cd : Data.setSizeBits a (Data.setSizeBits b cd) = Data.setSizeBits a cd.
Proof. by destruct cd. Qed.
Lemma get_set_size a cd : Data.getSizeBits (Data.setSizeBits a cd) = a.
Proof. by destruct cd. Qed.
Lemma set_size_get cd : Data.setSizeBits (Data.getSizeBits cd) cd = cd.
Proof. by destruct cd. Qed.

(** The result of [Base::compress] on a line: the size is clamped, and the
    check of the debug mode passes. *)
Definition clamp (p : Base.Params) (size : Z) : Z := if Base.sizeThreshold p * 8 <? size then Base.blkSize p * 8 else size.
Lemma base_compress_trip {St} {ops : Base.Compressor St} {p ok} {LL : Lossless ops p ok} debug data s : ok s -> line_ok p data -> debug_ok debug ->
  exists cd comp_lat decomp_lat s1 s', Base.compress_chunks debug (chunks p data) s = Ok (cd, comp_lat, decomp_lat, s1) /\
    Base.compress debug data s = Ok (Data.setSizeBits (clamp p (Data.getSizeBits cd)) cd, comp_lat, decomp_lat, s') /\ ok s' /\
    forall f s3 size, ok s3 -> exists s4, Base.decompress (fun i => Ok (f i)) (Data.setSizeBits size cd) s3 = Ok (data, s4) /\ ok s4.
Proof.
  intros Hs Hd Hdb. destruct (ll_trip debug data s Hs Hd Hdb) as (cd & l1 & l2 & s1 & E & Hs1 & Hdec).
  assert (Hdbg : exists s', Base.debug_check debug data cd s1 = Ok s' /\ ok s').
  { unfold Base.debug_check. destruct Hdb as [->|[f ->]]; [by exists s1|]. destruct (Hdec f s1 (Data.getSizeBits cd) Hs1) as (s4 & Ed & Hs4).
    rewrite set_size_get in Ed. rewrite Ed, bind_Ok. cbn [fst snd]. rewrite bool_decide_true by done. by exists s4. }
  destruct Hdbg as (s' & Edbg & Hs'). exists cd, l1, l2, s1, s'. split; [done|]. split; [|done].
  unfold Base.compress. rewrite (ll_params s Hs), (toChunks_Ok p ll_cfg) by done. rewrite bind_Ok, E, bind_Ok, Edbg, bind_Ok, (ll_params s' Hs').
  unfold clamp. destruct (_ <? _); [done|by rewrite set_size_get].
Qed.

(** ** The dictionaries *)
Section Dictionaries.
Import DictionaryCompressor.
Context (p : Base.Params) (N : Z).
Hypothesis (HN : 0 <= N).

Definition blank (szT : nat) : t := mk p N (replicate (Z.to_nat N) (toDictionaryEntry szT 0)) 0.

Lemma reset_blank V s : shape V p N s -> reset sizeofT s = blank sizeofT.
Proof.
  destruct s as [b n d m]. intros (E1 & E2 & E3 & _). cbn in *. subst b n. unfold reset, blank, with_dict. cbn. f_equal. rewrite <- E3, Nat2Z.id.
  clear. induction d as [|e d IH]; [done|]. cbn. by f_equal.
Qed.

Lemma blank_shape V : shape V p N (blank sizeofT).
Proof.
  split; [done|]. split; [done|]. cbn. rewrite length_replicate. split; [lia|]. apply Forall_replicate, to_ok.
Qed.

(** A dictionary that asserts that there is room for an insertion. *)
Definition room_checked (V : Virtual) (k : nat) (s : t) : Prop :=
  shape V p N s /\ 0 <= numEntries s /\ numEntries s + Z.of_nat k <= N /\ numEntries s + Z.of_nat k <= 256.

Lemma push_checked_ok V k s e : room_checked V (S k) s -> entry_ok sizeofT e ->
  push_checked e s = Ok (with_dict (<[Z.to_nat (numEntries s) := e]> (dictionary s)) (numEntries s + 1) s) /\
  room_checked V k (with_dict (<[Z.to_nat (numEntries s) := e]> (dictionary s)) (numEntries s + 1) s).
Proof.
  intros ((E1 & E2 & E3 & Hf) & H0 & H1 & H2) He. unfold push_checked, push. rewrite E2, (proj2 (Z.ltb_lt _ _)) by lia. rewrite check_true, bind_Ok, vset_Ok, bind_Ok by lia.
  split; [done|]. unfold room_checked, shape. cbn. rewrite length_insert. split_and!; try done; try lia. by apply Forall_insert.
Qed.

Lemma room_checked_skip V k s : room_checked V (S k) s -> room_checked V k s.
Proof. intros (Hs & H0 & H1 & H2). split_and!; try done; lia. Qed.
Lemma room_checked_room V k s : room_checked V k s -> shape V p N s /\ 0 <= numEntries s <= 256 /\ numEntries s <= N.
Proof. intros (Hs & H0 & H1 & H2). split_and!; try done; lia. Qed.

Lemma same_entry V q cd : exists q', add_entry q cd = add_entry q' cd /\ alike V q q'.
Proof. by exists q. Qed.

(** The compressors whose dictionary grows from an empty one. *)
Lemma growing_laws (V : Virtual) cap : factory_ok sizeofT factory -> addToDictionary = push_checked -> addEntry = add_entry ->
  (forall s, resetDictionary s = Ok (reset sizeofT s)) -> Z.of_nat cap <= N -> Z.of_nat cap <= 256 -> laws V p N cap (room_checked V).
Proof.
  intros Hf Ha He Hr H1 H2. constructor.
  - done.
  - exists (blank sizeofT). split; [split; [apply blank_shape|cbn; lia]|]. intros s Hs. rewrite Hr. f_equal. by apply reset_blank.
  - apply room_checked_room.
  - intros k s e Hk Hk'. rewrite Ha. destruct (push_checked_ok V k s e Hk Hk') as [E Hr']. by eexists.
  - apply room_checked_skip.
  - rewrite He. apply same_entry.
Qed.

(** Base-delta starts with the zero base. *)
Lemma base_delta_laws b D cap : Z.of_nat cap + 1 <= N -> Z.of_nat cap + 1 <= 256 ->
  laws (BaseDelta.virtual b D) p N cap (room_checked (BaseDelta.virtual b D)).
Proof.
  intros H1 H2. set (V := BaseDelta.virtual b D).
  assert (Hb : room_checked V (S cap) (blank b)) by (split; [apply (blank_shape V)|cbn; lia]).
  destruct (push_checked_ok V cap (blank b) (toDictionaryEntry b 0) Hb (to_ok b 0)) as [E Hr]. constructor.
  - apply base_delta_factory.
  - eexists. split; [exact Hr|]. intros s Hs. cbn [V BaseDelta.virtual resetDictionary]. unfold BaseDelta.resetDictionary.
    pose proof (reset_blank V s Hs) as Eb. cbn [V BaseDelta.virtual sizeofT] in Eb. rewrite Eb. exact E.
  - apply room_checked_room.
  - intros k s e Hk Hk'. destruct (push_checked_ok V k s e Hk Hk') as [E' Hr']. by eexists.
  - apply room_checked_skip.
  - apply same_entry.
Qed.

Lemma zero_run_alike z q cd : exists q', FPC.addEntry z q cd = add_entry q' cd /\ alike (FPC.virtual z) q q'.
Proof.
  assert (Hs : forall n, alike (FPC.virtual z) q (FPC.setRealSize n q)).
  { intros n. unfold alike, FPC.setRealSize, Pattern.decompress. by destruct (as_ q) eqn:E; cbn; rewrite ?E. }
  assert (Hl : forall n, alike (FPC.virtual z) q (FPC.setRunLength n q)).
  { intros n. unfold alike, FPC.setRunLength, Pattern.decompress. by destruct (as_ q) eqn:E; cbn; rewrite ?E. }
  unfold FPC.addEntry. eexists. split; [done|]. destruct (_ =? _); [|done]. destruct (last cd.2); [|done]. destruct (negb _); [done|]. by destruct (_ =? _).
Qed.

Lemma fpc_laws z cap : laws (FPC.virtual z) p N cap (fun _ s => shape (FPC.virtual z) p N s /\ numEntries s = 0).
Proof.
  constructor.
  - apply fpc_factory.
  - exists (blank 4). split; [split; [apply (blank_shape (FPC.virtual z))|done]|]. intros s Hs. exact (f_equal Ok (reset_blank (FPC.virtual z) s Hs)).
  - intros _ s [Hs ->]. split_and!; try done; lia.
  - intros k s e Hs _. by exists s.
  - done.
  - apply zero_run_alike.
Qed.

Definition room_queue (k : nat) (s : t) : Prop := shape FPCD.virtual p N s /\ 0 <= numEntries s <= 2.
Lemma fpcd_laws cap : 2 <= N -> laws FPCD.virtual p N cap room_queue.
Proof.
  intros H2. constructor.
  - apply fpcd_factory.
  - exists (blank 4). split; [split; [apply (blank_shape FPCD.virtual)|cbn; lia]|]. intros s Hs. exact (f_equal Ok (reset_blank FPCD.virtual s Hs)).
  - intros k s [Hs Hn]. split_and!; try done; lia.
  - intros k s e [(E1 & E2 & E3 & Hf) Hn] He. cbn [FPCD.virtual addToDictionary]. unfold FPCD.addToDictionary. destruct (Z.eqb_spec (numEntries s) 2).
    + destruct (vget_Ok (dictionary s) FPCD.previousIndex) as (x & Ex & Hx); [unfold FPCD.previousIndex; lia|].
      rewrite Ex, bind_Ok, vset_Ok, bind_Ok, vset_Ok, bind_Ok by (rewrite ?length_insert; unfold FPCD.previousIndex, FPCD.penultimateIndex; lia).
      eexists. split; [done|]. split; [|cbn; lia]. unfold shape. cbn. rewrite !length_insert. split_and!; try done.
      apply Forall_insert; [|done]. apply Forall_insert; [done|]. by eapply Forall_lookup_1.
    + unfold push. rewrite vset_Ok, bind_Ok by lia. eexists. split; [done|]. split; [|cbn; lia]. unfold shape. cbn. rewrite length_insert. split_and!; try done. by apply Forall_insert.
  - done.
  - apply same_entry.
Qed.
End Dictionaries.
