(* ===== verification/CompressorSizes.v ===== *)
(** * Compressed sizes and the round trip

    The pattern that a dictionary compressor chooses is the smallest one, the
    sizes that the zero, repeated-quadword and base-delta compressors report say
    exactly whether the line has the form that they look for, and every
    compressor is lossless. *)

From S2P Require Import Prelude Bits Compressor CompressorKinds CompressorLaws CompressorCorrect.
Import Bitfield Pattern.

(** ** The choice of a pattern *)
Section Search.
Import DictionaryCompressor.
Context (V : Virtual).

(** A pattern is kept when no entry that is still to be tried gives a smaller one. *)
Lemma search_keep s n i bytes q :
  (forall j, i <= j < i + Z.of_nat n -> exists e t, vget (dictionary s) j = Ok e /\ getPattern factory bytes e j = Ok t /\ Pattern.getSizeBits q <= Pattern.getSizeBits t) ->
  search n i bytes q s = Ok q.
Proof.
  revert i. induction n as [|n IH]; intros i H; cbn [search]; [done|]. destruct (H i) as (e & t & E1 & E2 & Hle); [lia|].
  rewrite E1, bind_Ok, E2, bind_Ok, (proj2 (Z.ltb_ge _ _) Hle). apply IH. intros j Hj. apply H. lia.
Qed.

(** The chosen pattern is one of those tried and none of them is smaller. *)
Lemma search_min s n i bytes q q' : search n i bytes q s = Ok q' ->
  Pattern.getSizeBits q' <= Pattern.getSizeBits q /\
  (forall j, i <= j < i + Z.of_nat n -> exists e t, vget (dictionary s) j = Ok e /\ getPattern factory bytes e j = Ok t /\ Pattern.getSizeBits q' <= Pattern.getSizeBits t) /\
  (q' = q \/ exists j e, i <= j < i + Z.of_nat n /\ vget (dictionary s) j = Ok e /\ getPattern factory bytes e j = Ok q').
Proof.
  revert i q. induction n as [|n IH]; intros i q E; cbn [search] in E; [ok_inv; subst q'; split; [done|]; split; [intros; lia|by left]|].
  ok_inv. destruct (IH _ _ E) as (H1 & H2 & H3). assert (Pattern.getSizeBits q' <= Pattern.getSizeBits q /\ Pattern.getSizeBits q' <= Pattern.getSizeBits r0) as [Hq Hr].
  { destruct (Z.ltb_spec (Pattern.getSizeBits r0) (Pattern.getSizeBits q)); lia. }
  split; [done|]. split.
  - intros j Hj. destruct (decide (j = i)) as [->|]; [by exists r, r0|]. apply H2. lia.
  - destruct H3 as [->|(j & e & Hj & Ee & Et)]; [|right; exists j, e; split; [lia|done]].
    destruct (_ <? _); [|by left]. right. exists i, r. split; [lia|done].
Qed.
End Search.

(** ** Growing dictionaries *)
Section Growing.
Import DictionaryCompressor.
Context (V : Virtual) (p : Base.Params) (N : Z) (hit : list DictionaryEntry -> Z -> bool) (h m : Z).
Abbreviation room := (room_checked p N V).
Abbreviation to := (toDictionaryEntry sizeofT).

(** The entries in use. *)
Definition valid (s : t) : list DictionaryEntry := take (Z.to_nat (numEntries s)) (dictionary s).

(** A value that hits takes [h] bits and leaves the dictionary alone, another one
    takes [m] bits and is pushed. *)
Definition two_sizes : Prop := forall k s v, room (S k) s -> in_uw (8 * Z.of_nat sizeofT) v -> exists q s', compressValue v s = Ok (q, s') /\
  if hit (valid s) v then Pattern.getSizeBits q = h /\ s' = s else Pattern.getSizeBits q = m /\ push_checked (to v) s = Ok s'.

Lemma valid_lookup k s j e : room k s -> valid s !! j = Some e -> vget (dictionary s) (Z.of_nat j) = Ok e /\ 0 <= Z.of_nat j < numEntries s.
Proof.
  intros (_ & H0 & _) Hl. unfold valid in Hl. pose proof (lookup_lt_Some _ _ _ Hl) as Hj. rewrite length_take in Hj. rewrite lookup_take_lt in Hl by lia.
  split; [|lia]. apply vget_lookup; [lia|]. by rewrite Nat2Z.id.
Qed.
Lemma valid_length k s : room k s -> Z.of_nat (List.length (valid s)) = numEntries s.
Proof. intros ((_ & _ & Hl & _) & H0 & H1 & _). unfold valid. rewrite length_take. lia. Qed.
Lemma valid_get k s j : room k s -> 0 <= j < numEntries s -> exists e, vget (dictionary s) j = Ok e /\ valid s !! Z.to_nat j = Some e /\ entry_ok sizeofT e.
Proof.
  intros Hr Hj. pose proof (valid_length k s Hr) as Hl. destruct (lookup_lt_is_Some_2 (valid s) (Z.to_nat j)) as [e He]; [lia|].
  destruct (valid_lookup k s _ e Hr He) as [Hg _]. rewrite Z2Nat.id in Hg by lia. exists e. split; [done|]. split; [done|].
  destruct Hr as ((_ & _ & _ & Hf) & _). apply vget_inv in Hg as [_ Hg]. by eapply Forall_lookup_1.
Qed.

Lemma pushed_valid k s e s' : room (S k) s -> entry_ok sizeofT e -> push_checked e s = Ok s' -> room k s' /\ valid s' = valid s ++ [e].
Proof.
  intros Hr He E. destruct (push_checked_ok p N V k s e Hr He) as [E' Hr']. rewrite E' in E. injection E as <-. split; [done|].
  destruct Hr as ((_ & _ & Hl & _) & H0 & H1 & _). unfold valid. cbn [numEntries dictionary with_dict]. replace (Z.to_nat (numEntries s + 1)) with (S (Z.to_nat (numEntries s))) by lia.
  rewrite (take_S_r _ _ e) by (apply list_lookup_insert_eq; lia). f_equal. apply take_insert_ge. lia.
Qed.

(** The entries after some values. *)
Fixpoint entries_after (ds : list DictionaryEntry) (vs : list Z) : list DictionaryEntry :=
  match vs with [] => ds | v :: vs => entries_after (if hit ds v then ds else ds ++ [to v]) vs end.

Lemma entries_after_length ds vs : (List.length ds <= List.length (entries_after ds vs))%nat.
Proof.
  revert ds. induction vs as [|v vs IH]; intros ds; cbn [entries_after]; [done|]. etransitivity; [|apply IH]. destruct (hit ds v); rewrite ?length_app; lia.
Qed.

Lemma entries_after_le ds vs : (List.length (entries_after ds vs) <= List.length ds + List.length vs)%nat.
Proof.
  revert ds. induction vs as [|v vs IH]; intros ds; cbn [entries_after List.length]; [lia|]. etransitivity; [apply IH|]. destruct (hit ds v); rewrite ?length_app; cbn; lia.
Qed.

(** No entry is added exactly when every value hits. *)
Lemma entries_after_same ds vs : List.length (entries_after ds vs) = List.length ds <-> Forall (fun v => hit ds v = true) vs.
Proof.
  induction vs as [|v vs IH]; cbn [entries_after]; [done|]. rewrite Forall_cons. destruct (hit ds v); [by rewrite IH; naive_solver|].
  split; [|naive_solver]. pose proof (entries_after_length (ds ++ [to v]) vs) as Hl. rewrite length_app in Hl. cbn in Hl. lia.
Qed.

Lemma compress_loop_sizes vs cd s : two_sizes -> addEntry = add_entry -> room (List.length vs) s -> Forall (in_uw (8 * Z.of_nat sizeofT)) vs ->
  exists qs s', compress_loop vs cd s =
    Ok (cd.1 + Z.of_nat (List.length vs) * h + (m - h) * (Z.of_nat (List.length (entries_after (valid s) vs)) - Z.of_nat (List.length (valid s))), cd.2 ++ qs, s') /\
    valid s' = entries_after (valid s) vs /\ room 0 s'.
Proof.
  intros H2 He Hr Hf. revert cd s Hr. induction Hf as [|v vs Hv Hf IH]; intros cd s Hr; cbn [compress_loop entries_after List.length].
  - exists [], s. rewrite app_nil_r. split; [|done]. destruct cd. cbn. f_equal. f_equal. f_equal. lia.
  - destruct (H2 (List.length vs) s v Hr Hv) as (q & s1 & E & Hq). rewrite uw_small by done. rewrite E, bind_Ok, He. cbn [fst snd].
    assert (room (List.length vs) s1 /\ valid s1 = (if hit (valid s) v then valid s else valid s ++ [to v])) as [Hr1 Ev].
    { destruct (hit (valid s) v); destruct Hq as [_ Hq]; [subst s1; split; [by apply room_checked_skip|done]|]. by apply (pushed_valid _ s); [|apply to_ok|]. }
    destruct (IH (add_entry q cd) s1 Hr1) as (qs & s' & Ec & Ev' & Hr'). rewrite Ec, Ev in *. exists (q :: qs), s'. split; [|done]. cbn [add_entry fst snd]. rewrite <- app_assoc. f_equal. f_equal. f_equal.
    destruct (hit (valid s) v); destruct Hq as [Hq _]; rewrite Hq; rewrite ?length_app; cbn [List.length]; lia.
Qed.
End Growing.

(** ** Compressors with a match and an uncompressed pattern *)
Section Match.
Import DictionaryCompressor.
Context (V : Virtual) (p : Base.Params) (N : Z) (near : Z -> DictionaryEntry -> Z -> bool) (h m : Z).
Abbreviation room := (room_checked p N V).
Abbreviation to := (toDictionaryEntry sizeofT).

(** The sizes and the allocation of the patterns of a value. *)
Definition shapes (q : Pattern) (matched : bool) : Prop := Pattern.getSizeBits q = (if matched then h else m) /\ shouldAllocate q = negb matched.
Hypothesis (Hhm : h < m).
Hypothesis (Hnone : forall v d, in_uw (8 * Z.of_nat sizeofT) v -> exists q, getPattern factory (to v) d (-1) = Ok q /\ shapes q false).
Hypothesis (Hsome : forall v d j, in_uw (8 * Z.of_nat sizeofT) v -> entry_ok sizeofT d -> 0 <= j ->
  exists q, getPattern factory (to v) d j = Ok q /\ shapes q (near v d j)).
Hypothesis (Hadd : addToDictionary = push_checked).

Fixpoint any_near (v i : Z) (ds : list DictionaryEntry) : bool :=
  match ds with [] => false | e :: ds => near v e i || any_near v (i + 1) ds end.

Lemma search_two k s v i ds q : room k s -> in_uw (8 * Z.of_nat sizeofT) v -> 0 <= i -> drop (Z.to_nat i) (valid s) = ds -> shapes q false ->
  exists q', search (List.length ds) i (to v) q s = Ok q' /\ shapes q' (any_near v i ds).
Proof.
  intros Hr Hv. revert i q. induction ds as [|e ds IH]; intros i q Hi Hd Hq; cbn [List.length search any_near]; [by exists q|].
  assert (He : valid s !! Z.to_nat i = Some e) by (rewrite <- (Nat.add_0_r (Z.to_nat i)), <- lookup_drop, Hd; done).
  destruct (valid_lookup V p N k s _ e Hr He) as [Hg Hlt]. rewrite Z2Nat.id in Hg, Hlt by done. rewrite Hg, bind_Ok.
  destruct (valid_get V p N k s i Hr Hlt) as (e' & Hg' & _ & Hok). assert (e' = e) as -> by congruence.
  destruct (Hsome v e i Hv Hok Hi) as (q1 & E1 & Hs1 & Ha1). rewrite E1, bind_Ok. destruct Hq as [Hsq Haq].
  assert (Hd' : drop (Z.to_nat (i + 1)) (valid s) = ds).
  { replace (Z.to_nat (i + 1)) with (1 + Z.to_nat i)%nat by lia. rewrite Nat.add_comm, <- drop_drop, Hd. done. }
  rewrite Hs1, Hsq. destruct (near v e i) eqn:En; cbn [orb].
  - rewrite (proj2 (Z.ltb_lt _ _) Hhm). exists q1. split; [|by split]. apply search_keep. intros j Hj.
    assert (Hl : (List.length ds + Z.to_nat i < List.length (valid s))%nat).
    { apply (f_equal List.length) in Hd. rewrite length_drop in Hd. cbn in Hd. lia. }
    rewrite (Nat2Z.inj_lt _ _), (valid_length V p N k s Hr) in Hl.
    destruct (valid_get V p N k s j Hr) as (e'' & Hg'' & _ & Hok''); [lia|]. destruct (Hsome v e'' j Hv Hok'') as (t' & Et & Hst & _); [lia|].
    exists e'', t'. split; [done|]. split; [done|]. rewrite Hs1, Hst. destruct (near v e'' j); lia.
  - rewrite Z.ltb_irrefl. apply IH; [lia|done|by split].
Qed.

Lemma match_two_sizes : two_sizes V p N (fun ds v => any_near v 0 ds) h m.
Proof.
  intros k s v Hr Hv. unfold compressValue. destruct (Hnone v (to 0) Hv) as (q & E & Hq). rewrite E, bind_Ok.
  destruct (search_two (S k) s v 0 (valid s) q Hr Hv ltac:(lia) eq_refl Hq) as (q' & E' & Hs' & Ha').
  rewrite <- (valid_length V p N (S k) s Hr), Nat2Z.id, E', bind_Ok, Ha'. destruct (any_near v 0 (valid s)); cbn [negb].
  - rewrite bind_Ok. by exists q', s.
  - rewrite Hadd. destruct (push_checked_ok p N V k s (to v) Hr (to_ok _ _)) as [E1 _]. rewrite E1, bind_Ok. by eexists _, _.
Qed.
End Match.

(** ** Zero, repeated quadwords and base-delta *)
Section Special.
Import DictionaryCompressor.
Context (p : Base.Params) (N : Z).

Lemma all_ones_land w x : 0 <= w -> in_uw w x -> Z.land x (2 ^ w - 1) = x.
Proof. intros Hw Hx. rewrite land_ones_uw by done. by apply uw_small. Qed.

Lemma zero_pattern v d loc : in_uw 64 v -> exists q, getPattern Zero.PatternFactory (toDictionaryEntry 8 v) d loc = Ok q /\ shapes 0 64 q (v =? 0).
Proof.
  intros Hv. cbn [getPattern Zero.PatternFactory Zero.PatternZ Zero.PatternX isPattern construct]. unfold maskedValue_match. rewrite bind_Ok, from_to by done.
  change 0xFFFFFFFFFFFFFFFF with (2 ^ 64 - 1) at 2. rewrite all_ones_land by (done || lia). rewrite Z.land_0_l, Z.eqb_sym. destruct (v =? 0); by eexists.
Qed.

Lemma zero_two_sizes : two_sizes Zero.virtual p N (fun _ v => v =? 0) 0 64.
Proof.
  intros k s v Hr Hv. unfold compressValue. cbn [Zero.virtual sizeofT factory addToDictionary] in *.
  destruct (zero_pattern v (toDictionaryEntry 8 0) (-1) Hv) as (q & E & Hsq & Haq). rewrite E, bind_Ok.
  rewrite (search_keep Zero.virtual s _ 0 (toDictionaryEntry 8 v) q), bind_Ok.
  - rewrite Haq. destruct (v =? 0); cbn [negb]; [rewrite bind_Ok; by exists q, s|].
    destruct (push_checked_ok p N Zero.virtual k s (toDictionaryEntry 8 v) Hr (to_ok _ _)) as [E1 _]. unfold Zero.addToDictionary. rewrite E1, bind_Ok. by eexists _, _.
  - intros j Hj. pose proof Hr as (_ & H0 & _). destruct (valid_get Zero.virtual p N _ s j Hr) as (e & He & _ & _); [lia|].
    destruct (zero_pattern v e j Hv) as (t & Et & Hst & _). exists e, t. split; [done|]. split; [done|]. rewrite Hsq, Hst. done.
Qed.

(** A quadword matches the first entry only. *)
Definition same_qword (v : Z) (e : DictionaryEntry) (j : Z) : bool := (j =? 0) && (v =? fromDictionaryEntry 8 e).
Lemma repeated_two_sizes : two_sizes RepeatedQwords.virtual p N (fun ds v => any_near same_qword v 0 ds) 0 64.
Proof.
  apply match_two_sizes; cbn [RepeatedQwords.virtual sizeofT factory addToDictionary]; [lia| | |done].
  - intros v d Hv. by eexists.
  - intros v d j Hv Hd Hj. cbn [getPattern RepeatedQwords.PatternFactory RepeatedQwords.PatternM RepeatedQwords.PatternX isPattern construct]. unfold locatedMasked_match, masked_match, same_qword.
    destruct (Z.eqb_spec j 0) as [->|]; [|by eexists]. rewrite bind_Ok, from_to by done. change 0xFFFFFFFFFFFFFFFF with (2 ^ 64 - 1) at 1 2.
    rewrite !all_ones_land by (try apply (from_range 8); done || lia). cbn [Z.leb andb Z.compare]. destruct (v =? _); by eexists.
Qed.

Context (b : nat) (D : Z).
Hypothesis (Hb : (0 < b <= 8)%nat).
Hypothesis (HD : 1 <= D < 8 * Z.of_nat b).
Definition near_base (v : Z) (e : DictionaryEntry) (j : Z) : bool := isValidDelta b D (toDictionaryEntry b v) e.
Lemma base_delta_two_sizes : two_sizes (BaseDelta.virtual b D) p N (fun ds v => any_near near_base v 0 ds) (D + 1) (8 * Z.of_nat b + 1 + D).
Proof.
  assert (E1 : forall x, 0 <= x <= 64 -> uw 8 x = x) by (intros x Hx; apply uw_small; unfold in_uw; lia).
  assert (Hx : forall v loc, shapes (D + 1) (8 * Z.of_nat b + 1 + D) (uncompressed b 0 0 (BaseDelta.base_bits + D) loc (toDictionaryEntry b v)) false).
  { intros v loc. split; [|done]. unfold Pattern.getSizeBits. cbn [uncompressed pattern as_ numUnmatchedBits Pattern.length]. unfold W. change BaseDelta.base_bits with 1. rewrite !E1 by lia. lia. }
  apply match_two_sizes; cbn [BaseDelta.virtual sizeofT factory addToDictionary]; [lia| | |done].
  - intros v d Hv. eexists. split; [reflexivity|]. apply Hx.
  - intros v d j Hv Hd Hj. cbn [getPattern BaseDelta.PatternFactory BaseDelta.PatternM BaseDelta.PatternX isPattern construct]. unfold delta_match, near_base.
    rewrite bind_Ok, (proj2 (Z.leb_le 0 j) Hj). cbn [andb]. destruct (isValidDelta _ _ _ _); eexists; (split; [done|]); [|apply Hx].
    split; [|done]. unfold Pattern.getSizeBits. cbn [delta pattern as_ numUnmatchedBits Pattern.length]. change BaseDelta.base_bits with 1. rewrite !E1 by lia. lia.
Qed.
End Special.

(** ** The form of a line *)
(** Two values whose difference has [D] bits with the sign. *)
Definition close (b : nat) (D v w : Z) : bool := isValidDelta b D (toDictionaryEntry b v) (toDictionaryEntry b w).
(** Every value is close to zero or to the first one that is not. *)
Definition delta_form (b : nat) (D : Z) (vs : list Z) : Prop :=
  match filter (fun v => close b D v 0 = false) vs with
  | [] => True
  | base :: _ => Forall (fun v => close b D v 0 || close b D v base = true) vs
  end.

Lemma close_spec b D v w : (0 < b)%nat -> 1 <= D < 8 * Z.of_nat b -> 8 * Z.of_nat b <= 64 -> in_uw (8 * Z.of_nat b) v -> in_uw (8 * Z.of_nat b) w ->
  close b D v w = true <-> - 2 ^ (D - 1) < sw (8 * Z.of_nat b) (v - w) < 2 ^ (D - 1).
Proof.
  intros Hb HD Hb8 Hv Hw. unfold close, isValidDelta. rewrite !from_to by done. rewrite (proj2 (Z.eqb_neq D 0)) by lia. cbn [negb].
  fold (W b). change (W b) with (8 * Z.of_nat b). pose proof (pow2_pos (D - 1)). pose proof (Z.pow_lt_mono_r 2 (D - 1) (8 * Z.of_nat b - 1)).
  rewrite mask_small by lia. rewrite (sw_small _ (2 ^ (D - 1) - 1)) by (unfold in_sw; lia). rewrite andb_true_iff, !Z.leb_le. lia.
Qed.

Lemma close_refl b D v : 1 <= D < 8 * Z.of_nat b -> 8 * Z.of_nat b <= 64 -> close b D v v = true.
Proof.
  intros HD Hb8. unfold close, isValidDelta. rewrite Z.sub_diag, (proj2 (Z.eqb_neq D 0)), mask_small by lia. unfold W. cbn [negb].
  pose proof (pow2_pos (D - 1)). pose proof (Z.pow_lt_mono_r 2 (D - 1) (8 * Z.of_nat b - 1)).
  rewrite !sw_small by (unfold in_sw; lia). rewrite andb_true_iff, !Z.leb_le. lia.
Qed.

Section Forms.
Import DictionaryCompressor.

Lemma any_near_cons near v i e ds : any_near near v i (e :: ds) = near v e i || any_near near v (i + 1) ds.
Proof. done. Qed.

Lemma repeated_entries v0 vs : in_uw 64 v0 -> Forall (in_uw 64) vs ->
  List.length (entries_after RepeatedQwords.virtual (fun ds v => any_near same_qword v 0 ds) [] (v0 :: vs)) = 1%nat <-> Forall (fun v => v = v0) vs.
Proof.
  intros H0 Hvs. cbn [entries_after any_near app]. rewrite (entries_after_same RepeatedQwords.virtual _ [toDictionaryEntry 8 v0] vs), !Forall_forall.
  assert (E : forall v, any_near same_qword v 0 [toDictionaryEntry 8 v0] = true <-> v = v0).
  { intros v. cbn [any_near]. unfold same_qword. rewrite from_to by done. rewrite orb_false_r. cbn [Z.eqb andb]. apply Z.eqb_eq. }
  by setoid_rewrite E.
Qed.

Lemma base_delta_entries b D vs : 1 <= D < 8 * Z.of_nat b -> 8 * Z.of_nat b <= 64 ->
  (List.length (entries_after (BaseDelta.virtual b D) (fun ds v => any_near (near_base b D) v 0 ds) [toDictionaryEntry b 0] vs) <= 2)%nat <-> delta_form b D vs.
Proof.
  intros HD Hb8. unfold delta_form. set (hit := fun ds v => any_near (near_base b D) v 0 ds).
  assert (E1 : forall v, hit [toDictionaryEntry b 0] v = close b D v 0) by (intros v; unfold hit; cbn [any_near]; by rewrite orb_false_r).
  assert (E2 : forall v w, hit [toDictionaryEntry b 0; toDictionaryEntry b w] v = close b D v 0 || close b D v w) by (intros v w; unfold hit; cbn [any_near]; by rewrite orb_false_r).
  induction vs as [|v vs IH]; cbn [entries_after]; [split; cbn; lia|]. rewrite filter_cons, E1. destruct (close b D v 0) eqn:Ec.
  - rewrite decide_False by done. rewrite IH. destruct (filter _ vs); [done|]. rewrite Forall_cons, Ec. naive_solver.
  - rewrite decide_True by done. cbn [app]. pose proof (entries_after_length (BaseDelta.virtual b D) hit [toDictionaryEntry b 0; toDictionaryEntry b v] vs) as Hl.
    pose proof (entries_after_same (BaseDelta.virtual b D) hit [toDictionaryEntry b 0; toDictionaryEntry b v] vs) as Hs. cbn [List.length] in *.
    change (toDictionaryEntry sizeofT v) with (toDictionaryEntry b v).
    rewrite Forall_cons, Ec. cbn [orb]. setoid_rewrite E2 in Hs. rewrite <- Hs.
    assert (close b D v v = true) as ->; [|split; [intros H; split; [done|lia]|lia]].
    by apply close_refl.
Qed.
End Forms.

(** ** Every compressor is lossless *)
Definition nchunks (p : Base.Params) : Z := words p * Base.num_chunks_per_64 p.
(** The parameters of a dictionary compressor: its chunks have the element type
    and its dictionary has room for the chunks of a line. *)
Definition dict_cfg (k : Dict.kind) (p : Base.Params) (N : Z) : Prop :=
  chunk_cfg p /\ 0 < Base.blkSize p /\ Base.chunkSizeBits p = 8 * Z.of_nat (@DictionaryCompressor.sizeofT (Dict.virtual k)) /\
  Base.compChunksPerCycle p <> 0 /\ Base.decompChunksPerCycle p <> 0 /\ 0 <= N /\
  match k with
  | Dict.CPack_ | Dict.RepeatedQwords_ | Dict.Zero_ => nchunks p <= N /\ nchunks p <= 256
  | Dict.FPC_ _ => True
  | Dict.FPCD_ => 2 <= N
  | Dict.BaseDelta_ b D => (b = 2%nat \/ b = 4%nat \/ b = 8%nat) /\ 1 <= D < 8 * Z.of_nat b /\ nchunks p + 1 <= N /\ nchunks p + 1 <= 256
  end.
Definition dict_ok (k : Dict.kind) (p : Base.Params) (N : Z) (s : Dict.t) : Prop := Dict.kind_of s = k /\ shape (Dict.virtual k) p N (Dict.dict s).

Lemma nchunks_pos p : chunk_cfg p -> 0 < Base.blkSize p -> 0 < nchunks p.
Proof.
  intros Hc Hb. pose proof (n_pos p Hc). unfold nchunks, words. pose proof (cc_words p Hc). pose proof (Z.div_mod (Base.blkSize p) 8). nia.
Qed.

Lemma dict_laws k p N : dict_cfg k p N -> exists room, laws (Dict.virtual k) p N (Z.to_nat (nchunks p)) room.
Proof.
  intros (Hc & Hb & _ & _ & _ & HN & Hk). pose proof (nchunks_pos p Hc Hb). destruct k as [|z| |b D| |]; cbn [Dict.virtual] in *.
  - eexists. apply growing_laws; [lia|apply cpack_factory|done|done|done|lia|lia].
  - eexists. by apply fpc_laws.
  - eexists. by apply fpcd_laws.
  - eexists. destruct Hk as (_ & _ & H1 & H2). apply base_delta_laws; lia.
  - eexists. apply growing_laws; [lia|apply repeated_qwords_factory|done|done|done|lia|lia].
  - eexists. apply growing_laws; [lia|apply zero_factory|done|done|done|lia|lia].
Qed.

Lemma dict_size k p N : dict_cfg k p N ->
  Z.of_nat (@DictionaryCompressor.sizeofT (Dict.virtual k)) * @DictionaryCompressor.values_per_entry (Dict.virtual k) = 8.
Proof.
  intros (_ & _ & _ & _ & _ & _ & Hk). destruct k as [|z| |b D| |]; try reflexivity. destruct Hk as ([->|[->| ->]] & _); reflexivity.
Qed.

(** The dictionary compressor below the special treatment of the sizes. *)
Lemma dict_kind_trip k p N data s : dict_cfg k p N -> line_ok p data -> shape (Dict.virtual k) p N s ->
  exists sum qs s', @DictionaryCompressor.compress (Dict.virtual k) (chunks p data) s = Ok (sum, qs, s') /\ shape (Dict.virtual k) p N s' /\
    forall oob s3, shape (Dict.virtual k) p N s3 -> exists s4, trips N oob (@DictionaryCompressor.decompress (Dict.virtual k) oob qs s3) (data, s4) /\ shape (Dict.virtual k) p N s4.
Proof.
  intros Hc Hd Hs. destruct (dict_laws k p N Hc) as (room & L). pose proof Hc as (Hcfg & Hblk & Hch & _).
  apply (dict_trip (Dict.virtual k) L); try done; [by eapply dict_size|]. pose proof (nchunks_pos p Hcfg Hblk). unfold nchunks in *. lia.
Qed.

Lemma growing_sizes V p N hit h m data s s0 : chunk_cfg p -> Base.chunkSizeBits p = 8 * Z.of_nat (@DictionaryCompressor.sizeofT V) -> two_sizes V p N hit h m ->
  @DictionaryCompressor.addEntry V = DictionaryCompressor.add_entry -> DictionaryCompressor.resetDictionary s = Ok s0 -> room_checked p N V (Z.to_nat (nchunks p)) s0 ->
  exists qs s', DictionaryCompressor.compress (chunks p data) s =
    Ok (nchunks p * h + (m - h) * (DictionaryCompressor.numEntries s' - DictionaryCompressor.numEntries s0), qs, s') /\
    DictionaryCompressor.numEntries s' = Z.of_nat (List.length (entries_after V hit (valid s0) (chunks p data))).
Proof.
  intros Hc Hch H2 He Er Hr. pose proof (chunks_length p Hc data) as Hl. fold (nchunks p) in Hl.
  assert (Hlen : List.length (chunks p data) = Z.to_nat (nchunks p)) by lia. rewrite <- Hlen in Hr.
  destruct (compress_loop_sizes V p N hit h m (chunks p data) (0, []) s0 H2 He Hr) as (qs & s' & E & Ev & Hr'); [rewrite <- Hch; by apply chunks_range|].
  exists qs, s'. pose proof (valid_length V p N _ s' Hr') as Hv'. pose proof (valid_length V p N _ s0 Hr) as Hv0. rewrite Ev in Hv'. split; [|done].
  unfold DictionaryCompressor.compress. rewrite Er, bind_Ok, E. cbn [fst snd]. rewrite <- Hv', <- Hv0, Hl. done.
Qed.

Lemma repeated_nonempty p N data s sum qs s' : dict_cfg Dict.RepeatedQwords_ p N -> line_ok p data -> shape (Dict.virtual Dict.RepeatedQwords_) p N s ->
  @DictionaryCompressor.compress RepeatedQwords.virtual (chunks p data) s = Ok (sum, qs, s') ->
  sum = 64 * DictionaryCompressor.numEntries s' /\ 1 <= DictionaryCompressor.numEntries s' /\ 
  (DictionaryCompressor.numEntries s' = 1 <-> forall v w, v ∈ chunks p data -> w ∈ chunks p data -> v = w).
Proof.
  intros (Hc & Hb & Hch & _ & _ & HN & H1 & H2) Hd Hs E. pose proof (nchunks_pos p Hc Hb) as Hn.
  destruct (growing_sizes RepeatedQwords.virtual p N _ _ _ data s (blank p N 8) Hc Hch (repeated_two_sizes p N) eq_refl) as (qs' & s'' & E' & El).
  - exact (f_equal Ok (reset_blank p N RepeatedQwords.virtual s Hs)).
  - split; [apply (blank_shape p N HN RepeatedQwords.virtual)|cbn; lia].
  - rewrite E in E'. injection E' as -> <- <-. cbn [blank DictionaryCompressor.numEntries]. rewrite Z.mul_0_r, Z.sub_0_r. split; [lia|].
    pose proof (chunks_length p Hc data) as Hl. fold (nchunks p) in Hl. pose proof (chunks_range p Hc data) as Hr. rewrite Hch in Hr. change (8 * Z.of_nat _) with 64 in Hr.
    destruct (chunks p data) as [|v0 vs]; [cbn in Hl; lia|]. apply Forall_cons in Hr as [Hr0 Hr]. change (valid (blank p N 8)) with (take 0 (replicate (Z.to_nat N) (toDictionaryEntry 8 0))) in El. rewrite take_0 in El.
    pose proof (repeated_entries v0 vs Hr0 Hr) as Hi. pose proof (entries_after_length RepeatedQwords.virtual (fun ds v => any_near same_qword v 0 ds) [toDictionaryEntry 8 v0] vs) as Hge.
    rewrite El. cbn [entries_after any_near app] in Hi |- *. change (toDictionaryEntry (@DictionaryCompressor.sizeofT RepeatedQwords.virtual)) with (toDictionaryEntry 8) in *. cbn [List.length] in Hge. split; [lia|].
    assert (forall n, Z.of_nat n = 1 <-> n = 1%nat) as -> by lia. rewrite Hi, Forall_forall. setoid_rewrite elem_of_cons.
    split; [|by intros H x Hx; apply H; auto]. intros H v w [->|Hv] [->|Hw]; rewrite ?(H _ Hv), ?(H _ Hw); done.
Qed.

Lemma zero_count p N data s sum qs s' : dict_cfg Dict.Zero_ p N -> line_ok p data -> shape (Dict.virtual Dict.Zero_) p N s ->
  @DictionaryCompressor.compress Zero.virtual (chunks p data) s = Ok (sum, qs, s') ->
  sum = 64 * DictionaryCompressor.numEntries s' /\ 0 <= DictionaryCompressor.numEntries s' /\
  (DictionaryCompressor.numEntries s' = 0 <-> Forall (fun v => v = 0) (chunks p data)).
Proof.
  intros (Hc & Hb & Hch & _ & _ & HN & H1 & H2) Hd Hs E. pose proof (nchunks_pos p Hc Hb) as Hn.
  destruct (growing_sizes Zero.virtual p N _ _ _ data s (blank p N 8) Hc Hch (zero_two_sizes p N) eq_refl) as (qs' & s'' & E' & El).
  - exact (f_equal Ok (reset_blank p N Zero.virtual s Hs)).
  - split; [apply (blank_shape p N HN Zero.virtual)|cbn; lia].
  - rewrite E in E'. injection E' as -> <- <-. cbn [blank DictionaryCompressor.numEntries]. rewrite Z.mul_0_r, Z.sub_0_r. split; [lia|].
    change (valid (blank p N 8)) with (take 0 (replicate (Z.to_nat N) (toDictionaryEntry 8 0))) in El. rewrite take_0 in El. rewrite El. split; [lia|].
    pose proof (entries_after_same Zero.virtual (fun _ v => v =? 0) [] (chunks p data)) as Hi. setoid_rewrite Z.eqb_eq in Hi. rewrite <- Hi. cbn [List.length]. lia.
Qed.

Lemma base_delta_count b D p N data s sum qs s' : dict_cfg (Dict.BaseDelta_ b D) p N -> line_ok p data -> shape (Dict.virtual (Dict.BaseDelta_ b D)) p N s ->
  @DictionaryCompressor.compress (BaseDelta.virtual b D) (chunks p data) s = Ok (sum, qs, s') ->
  sum = nchunks p * (D + 1) + 8 * Z.of_nat b * (DictionaryCompressor.numEntries s' - 1) /\ 1 <= DictionaryCompressor.numEntries s' <= 1 + nchunks p /\
  (DictionaryCompressor.numEntries s' <= 2 <-> delta_form b D (chunks p data)).
Proof.
  intros (Hc & Hb & Hch & _ & _ & HN & Hb8 & HD & H1 & H2) Hd Hs E. pose proof (nchunks_pos p Hc Hb) as Hn. set (V := BaseDelta.virtual b D) in *.
  assert (Hbl : room_checked p N V (S (Z.to_nat (nchunks p))) (blank p N b)) by (split; [apply (blank_shape p N HN V)|cbn; lia]).
  destruct (push_checked_ok p N V _ (blank p N b) (toDictionaryEntry b 0) Hbl (to_ok b 0)) as [Er Hr]. set (s0 := DictionaryCompressor.with_dict _ _ _) in *.
  destruct (pushed_valid V p N _ _ _ _ Hbl (to_ok b 0) Er) as [_ Ev]. change (valid (blank p N b)) with (take 0 (replicate (Z.to_nat N) (toDictionaryEntry b 0))) in Ev. rewrite take_0 in Ev.
  destruct (growing_sizes V p N _ _ _ data s s0 Hc Hch (base_delta_two_sizes p N b D ltac:(lia) HD) eq_refl) as (qs' & s'' & E' & El).
  - cbn [V BaseDelta.virtual DictionaryCompressor.resetDictionary]. unfold BaseDelta.resetDictionary. pose proof (reset_blank p N V s Hs) as Eb. cbn [V BaseDelta.virtual DictionaryCompressor.sizeofT] in Eb. by rewrite Eb.
  - done.
  - rewrite E in E'. injection E' as -> <- <-. rewrite Ev in El. cbn [app] in El. change (DictionaryCompressor.numEntries s0) with 1.
    pose proof (entries_after_length V (fun ds v => any_near (near_base b D) v 0 ds) [toDictionaryEntry b 0] (chunks p data)) as Hge. cbn [List.length] in Hge.
    pose proof (base_delta_entries b D (chunks p data) HD ltac:(lia)) as Hf. fold V in Hf. split; [lia|]. split; [|rewrite <- Hf; lia]. split; [lia|].
    pose proof (entries_after_le V (fun ds v => any_near (near_base b D) v 0 ds) [toDictionaryEntry b 0] (chunks p data)) as Hle.
    pose proof (chunks_length p Hc data) as Hl. fold (nchunks p) in Hl. cbn [List.length] in Hle. lia.
Qed.

(** Compression succeeds, and whatever the read of entry 255 gives, decompression
    returns the line or stops at that read. *)
Lemma dict_compress_trip k p N data s : dict_cfg k p N -> line_ok p data -> dict_ok k p N s ->
  exists cd comp_lat decomp_lat s', Dict.compress (chunks p data) s = Ok (cd, comp_lat, decomp_lat, s') /\ dict_ok k p N s' /\
    forall oob s3 size, dict_ok k p N s3 -> exists s4,
      trips N oob (Base.decompress oob (Data.setSizeBits size cd) s3) (data, s4) /\ dict_ok k p N s4.
Proof.
  intros Hcfg Hd [Ek Hs].
  destruct (dict_kind_trip k p N data (Dict.dict s) Hcfg Hd Hs) as (sum & qs & s' & E & Hs' & Hdec).
  assert (Hfin : forall size comp_lat decomp_lat, Dict.compress (chunks p data) s = Ok (CompData size qs, comp_lat, decomp_lat, Dict.mk k s') ->
    exists cd comp_lat decomp_lat s', Dict.compress (chunks p data) s = Ok (cd, comp_lat, decomp_lat, s') /\ dict_ok k p N s' /\
      forall oob s3 size, dict_ok k p N s3 -> exists s4, trips N oob (Base.decompress oob (Data.setSizeBits size cd) s3) (data, s4) /\ dict_ok k p N s4).
  { intros size l1 l2 Ec. exists (CompData size qs), l1, l2, (Dict.mk k s'). split; [done|]. split; [done|]. intros oob s3 size' [Ek3 Hs3].
    destruct (Hdec oob (Dict.dict s3) Hs3) as (s4 & Ed & Hs4). exists (Dict.mk k s4). split; [|done]. cbn [Base.decompress Dict.compressor Dict.decompress Data.setSizeBits].
    rewrite Ek3. eapply trips_bind; [exact Ed|]. by left. }
  assert (Hlat : @DictionaryCompressor.compress_lat (Dict.virtual k) (chunks p data) (Dict.dict s) = Ok (sum, qs,
      Base.compExtraLatency p + Z.of_nat (List.length (chunks p data)) / Base.compChunksPerCycle p, Base.decompExtraLatency p + Z.of_nat (List.length (chunks p data)) / Base.decompChunksPerCycle p, s')).
  { unfold DictionaryCompressor.compress_lat. destruct Hs as (-> & _). destruct Hcfg as (_ & _ & _ & H1 & H2 & _).
    rewrite !(proj2 (Z.eqb_neq _ _)) by done. cbn [negb andb]. rewrite check_true, bind_Ok, E, bind_Ok. done. }
  destruct k as [|z| |b D| |]; eapply Hfin; unfold Dict.compress; rewrite Ek; cbn [Dict.virtual] in *.
  - rewrite Hlat, bind_Ok. done.
  - rewrite Hlat, bind_Ok. done.
  - rewrite Hlat, bind_Ok. done.
  - rewrite Hlat, bind_Ok. cbv zeta. replace (BaseDelta.compress b (sum, qs) s').2 with qs by (unfold BaseDelta.compress; by repeat case_match). done.
  - rewrite E, bind_Ok. cbn [fst snd]. destruct (repeated_nonempty p N data (Dict.dict s) sum qs s' Hcfg Hd Hs E) as (_ & H1 & _).
    unfold RepeatedQwords.compress. rewrite (proj2 (Z.leb_le _ _) H1), check_true, bind_Ok, bind_Ok. cbn [fst snd].
    match goal with |- context [CompData _ ?c.2] => replace c.2 with qs by (by case_match) end. done.
  - rewrite E, bind_Ok. cbv zeta. cbn [fst snd]. replace (Zero.compress (sum, qs) s').2 with qs by (unfold Zero.compress; by case_match). done.
Qed.

#[global] Instance dict_lossless k p N : dict_cfg k p N -> Lossless Dict.compressor p (dict_ok k p N).
Proof.
  intros Hcfg. constructor; [intros s [_ (E & _)]; exact E|apply Hcfg|]. intros debug data s Hs Hd _.
  destruct (dict_compress_trip k p N data s Hcfg Hd Hs) as (cd & l1 & l2 & s' & E & Hs' & Hdec).
  exists cd, l1, l2, s'. split; [done|]. split; [done|]. intros f s3 size Hs3.
  destruct (Hdec (fun i => Ok (f i)) s3 size Hs3) as (s4 & [Ed|(_ & e & He & _)] & Hs4); [by exists s4|done].
Qed.
