(* ===== verification/CompressorTheorems.v ===== *)
(** * Theorems about the compressors

    The round trip of the dictionary compressors and of the multi compressor,
    the sizes of the compressors that look for one form of line, the choice of
    the smallest pattern, and two places where the code misses its intent. *)

From S2P Require Import Prelude Bits Compressor CompressorKinds CompressorLaws CompressorCorrect CompressorSizes.
Import Bitfield Pattern.

(** ** The perfect compressor *)
#[global] Instance perfect_lossless p : chunk_cfg p -> Base.compChunksPerCycle p <> 0 -> Base.decompChunksPerCycle p <> 0 ->
  Lossless Perfect.compressor p (fun s => Perfect.base s = p).
Proof.
  intros Hc H1 H2. constructor; [done|done|]. intros debug data s Hs Hd _. cbn [Base.compress_chunks Perfect.compressor]. unfold Perfect.compress. rewrite Hs.
  rewrite !(proj2 (Z.eqb_neq _ _)) by done. cbn [negb andb]. rewrite check_true, bind_Ok. do 4 eexists. split; [done|]. split; [done|].
  intros f s3 size Hs3. exists s3. split; [|done]. cbn [Base.decompress Perfect.compressor Perfect.decompress Data.setSizeBits]. rewrite Hs3, fromChunks_Ok by done. done.
Qed.

(** ** The multi compressor *)
(** A sub-compressor with the proof that it is lossless. *)
Record package := mkPackage {
  k_St : Type;
  k_ops : Base.Compressor k_St;
  k_params : Base.Params;
  k_ok : k_St -> Prop;
  k_lossless : Lossless k_ops k_params k_ok;
}.
Definition member (k : package) (o : Multi.object) : Prop := exists x, o = Multi.mkObject (k_St k) (k_ops k) x /\ k_ok k x.

Section MultiTrip.
Context (pkgs : list package) (p : Base.Params) (bits : Z) (top : list Multi.Results -> option Multi.Results).
(** The documented behaviour of the priority queue: its top is an element of
    which no other one is greater. *)
Hypothesis (Htop : forall l, l <> [] -> exists r, top l = Some r /\ r ∈ l /\ forall r', r' ∈ l -> Multi.less r r' = false).
Hypothesis (Hcfg : chunk_cfg p).
Hypothesis (Hsome : pkgs <> []).
Hypothesis (Hmany : (List.length pkgs <= 256)%nat).
Hypothesis (Hblk : Forall (fun k => Base.blkSize (k_params k) = Base.blkSize p) pkgs).

Definition multi_ok (s : Multi.t) : Prop := Multi.base s = p /\ Multi.numEncodingBits s = bits /\ Forall2 member pkgs (Multi.compressors s).

(** The result of the sub-compressor [k], which decompresses the line. *)
Definition result_ok (data : list Z) (j : Z) (k : package) (r : Multi.Results) : Prop :=
  Multi.index r = j /\ forall f x size, k_ok k x ->
    exists x', @Base.decompress _ (k_ops k) (fun i => Ok (f i)) (Data.setSizeBits size (Multi.compData r)) x = Ok (data, x') /\ k_ok k x'.

Lemma line_ok_blk q data : Base.blkSize q = Base.blkSize p -> line_ok p data -> line_ok q data.
Proof. unfold line_ok, words. by intros ->. Qed.

Lemma multi_loop debug data ks i objs lat0 : Forall (fun k => Base.blkSize (k_params k) = Base.blkSize p) ks -> line_ok p data -> debug_ok debug -> Forall2 member ks objs ->
  exists res lat objs', Multi.compress_loop debug data bits (Base.blkSize p) i objs lat0 = Ok (res, lat, objs') /\ Forall2 member ks objs' /\
    List.length res = List.length ks /\ forall j r, res !! j = Some r -> exists k, ks !! j = Some k /\ result_ok data (i + Z.of_nat j) k r.
Proof.
  clear Hmany. intros Hb Hd Hdb Hm. revert i lat0. induction Hm as [|k o ks objs (x & -> & Hx) Hm IH]; intros i lat0; cbn [Multi.compress_loop].
  - by exists [], lat0, [].
  - apply Forall_cons in Hb as [Hk Hb]. pose proof (k_lossless k) as LL. cbn [Multi.St Multi.ops Multi.st].
    destruct (@base_compress_trip _ (k_ops k) _ _ LL debug data x Hx (line_ok_blk _ _ Hk Hd) Hdb) as (cd & l1 & l2 & x1 & x' & _ & E & Hx' & Hdec). rewrite E, bind_Ok.
    destruct (IH Hb (i + 1) (Z.max lat0 l1)) as (res & lat & objs' & E' & Hm' & Hlen & Hres). rewrite E', bind_Ok.
    do 3 eexists. split; [done|]. split; [constructor; [by exists x'|done]|]. split; [cbn; by rewrite Hlen|].
    intros [|j] r Hr; [|destruct (Hres j r Hr) as (k' & Hk' & Hok); exists k'; split; [done|]; by replace (i + Z.of_nat (S j)) with (i + 1 + Z.of_nat j) by lia].
    injection Hr as <-. exists k. split; [done|]. split; [cbn; lia|]. intros f y size Hy. cbn [Multi.compData Multi.new_result]. rewrite !set_size_twice. by apply Hdec.
Qed.

Lemma multi_lossless : Lossless (Multi.compressor top) p multi_ok.
Proof.
  constructor; [by intros s (Hs & _)|done|]. intros debug data s (Eb & En & Hm) Hd Hdb. cbn [Base.compress_chunks Multi.compressor]. unfold Multi.compress.
  rewrite Eb, En, (fromChunks_Ok p Hcfg data Hd), bind_Ok. destruct (multi_loop debug data pkgs 0 _ 0 Hblk Hd Hdb Hm) as (res & lat & objs & E & Hm' & Hlen & Hres). rewrite E, bind_Ok.
  destruct (Htop res) as (r & -> & Hr & _); [intros ->; by destruct pkgs|]. apply list_elem_of_lookup in Hr as (j & Hj).
  destruct (Hres j r Hj) as (k & Hk & Ei & Hdec). pose proof (lookup_lt_Some _ _ _ Hk) as Hlt. do 4 eexists. split; [done|]. split; [done|].
  intros f s3 size (Eb3 & En3 & Hm3). cbn [Base.decompress Multi.compressor Multi.decompress Data.setSizeBits]. rewrite Ei, Z.add_0_l, uw_small by (unfold in_uw; lia).
  destruct (Forall2_lookup_l _ _ _ _ _ Hm3 Hk) as (o & Ho & x & -> & Hx). rewrite (vget_lookup _ _ (Multi.mkObject (k_St k) (k_ops k) x)), bind_Ok by (lia || by rewrite Nat2Z.id).
  cbn [Multi.St Multi.ops Multi.st]. destruct (Hdec f x (Data.getSizeBits (Multi.compData r)) Hx) as (x' & Ed & Hx'). rewrite set_size_get in Ed. rewrite Ed, bind_Ok.
  pose proof (lookup_lt_Some _ _ _ Ho). rewrite vset_Ok, bind_Ok by lia. eexists. split; [done|]. split; [done|]. split; [done|]. cbn [Multi.compressors].
  rewrite Nat2Z.id. rewrite <- (list_insert_id pkgs j k Hk). apply Forall2_insert; [done|]. by exists x'.
Qed.
End MultiTrip.

(** ** The round trip *)
Lemma new_ok k p N : dict_cfg k p N -> dict_ok k p N (Dict.new k p N).
Proof.
  intros (_ & _ & _ & _ & _ & HN & _). split; [done|]. unfold Dict.new. cbn [Dict.dict]. unfold DictionaryCompressor.new, DictionaryCompressor.reset, shape. cbn.
  rewrite length_fmap, length_replicate. split; [done|]. split; [done|]. split; [lia|]. apply Forall_fmap, Forall_true. intros e. apply to_ok.
Qed.

(** C17: A dictionary compressor never fails on a line, and records the size of the
    block when the compressed size is above the threshold. What it returns is never
    decompressed to another line: in every later state of the compressor and for
    every outcome [oob] of the read behind the end of the dictionary,
    decompression returns the line, or the dictionary has at most 255 entries, the
    read of its entry 255 fails and decompression stops there. So the round trip is
    complete with 256 entries or more, and with fewer it depends on that read, which
    C++ leaves undefined, but not on the value it gives. The check that
    DEBUG_COMPRESSION enables passes under the same condition. *)
Theorem compressor_roundtrip k p N data s : dict_cfg k p N -> line_ok p data -> dict_ok k p N s ->
  exists raw cd comp_lat decomp_lat s1, Dict.compress (chunks p data) s = Ok (raw, comp_lat, decomp_lat, s1) /\
    Base.compress None data s = Ok (cd, comp_lat, decomp_lat, s1) /\ dict_ok k p N s1 /\
    Data.getSizeBits cd = clamp p (Data.getSizeBits raw) /\
    (forall oob, exists s2, trips N oob (Base.compress (Some oob) data s) (cd, comp_lat, decomp_lat, s2) /\ dict_ok k p N s2) /\
    forall oob s3, dict_ok k p N s3 -> exists s4, trips N oob (Base.decompress oob cd s3) (data, s4) /\ dict_ok k p N s4.
Proof.
  intros Hcfg Hd Hs. pose proof (dict_lossless k p N Hcfg) as LL.
  destruct (dict_compress_trip k p N data s Hcfg Hd Hs) as (raw & l1 & l2 & s1 & E & Hs1 & Hdec).
  assert (Hb : forall debug, Base.compress debug data s = rbind (Base.debug_check debug data raw s1) (fun s =>
    Ok (if Base.sizeThreshold (Base.params s) * 8 <? Data.getSizeBits raw then Data.setSizeBits (Base.blkSize (Base.params s) * 8) raw else raw, l1, l2, s))).
  { intros debug. unfold Base.compress. rewrite (ll_params s Hs), toChunks_Ok, bind_Ok by (done || apply Hcfg).
    cbn [Base.compress_chunks Dict.compressor]. by rewrite E, bind_Ok. }
  assert (Hc : forall s', dict_ok k p N s' -> (if Base.sizeThreshold (Base.params s') * 8 <? Data.getSizeBits raw
    then Data.setSizeBits (Base.blkSize (Base.params s') * 8) raw else raw) = Data.setSizeBits (clamp p (Data.getSizeBits raw)) raw).
  { intros s' Hs'. rewrite (ll_params s' Hs'). unfold clamp. destruct (_ <? _); [done|by rewrite set_size_get]. }
  exists raw, (Data.setSizeBits (clamp p (Data.getSizeBits raw)) raw), l1, l2, s1. split; [done|]. split; [|split; [done|split; [apply get_set_size|split]]].
  - rewrite Hb. cbn [Base.debug_check]. by rewrite bind_Ok, Hc.
  - intros oob. destruct (Hdec oob s1 (Data.getSizeBits raw) Hs1) as (s4 & Ht & Hs4). rewrite set_size_get in Ht.
    exists s4. split; [|done]. rewrite Hb. cbn [Base.debug_check]. eapply trips_bind; [eapply trips_bind; [exact Ht|]|].
    + left. cbn [fst snd]. by rewrite bool_decide_true.
    + left. by rewrite Hc.
  - intros oob s3 Hs3. by apply Hdec.
Qed.

(** A multi compressor over lossless compressors is lossless. It takes a
    result that no other one beats in compression factor and then in decompression
    latency, and decompresses with the compressor that gave it. *)
Theorem multi_roundtrip pkgs p bits top data f s :
  (forall l, l <> [] -> exists r, top l = Some r /\ r ∈ l /\ forall r', r' ∈ l -> Multi.less r r' = false) ->
  chunk_cfg p -> pkgs <> [] -> (List.length pkgs <= 256)%nat -> Forall (fun k => Base.blkSize (k_params k) = Base.blkSize p) pkgs ->
  multi_ok pkgs p bits s -> line_ok p data ->
  exists results lat objs best cd comp_lat decomp_lat s1,
    Multi.compress_loop None data bits (Base.blkSize p) 0 (Multi.compressors s) 0 = Ok (results, lat, objs) /\ List.length results = List.length pkgs /\
    best ∈ results /\ (forall r, r ∈ results -> Multi.less best r = false) /\
    @Base.compress _ (Multi.compressor top) None data s = Ok (cd, comp_lat, decomp_lat, s1) /\ Data.getSizeBits cd = clamp p (Data.getSizeBits (Multi.compData best)) /\
    decomp_lat = Multi.decompLat best + Base.decompExtraLatency p /\
    forall s3, multi_ok pkgs p bits s3 -> exists s4, @Base.decompress _ (Multi.compressor top) (fun i => Ok (f i)) cd s3 = Ok (data, s4) /\ multi_ok pkgs p bits s4.
Proof.
  intros Htop Hcfg Hsome Hmany Hblk Hs Hd. pose proof (multi_lossless pkgs p bits top Htop Hcfg Hsome Hmany Hblk) as LL.
  destruct (@base_compress_trip _ _ _ _ LL None data s Hs Hd (or_introl eq_refl)) as (cd & l1 & l2 & s1 & s' & E & Ec & _ & Hdec).
  destruct Hs as (Eb & En & Hm). destruct (multi_loop p bits None data pkgs 0 _ 0 Hblk Hd (or_introl eq_refl) Hm) as (res & lat & objs & El & _ & Hlen & _).
  destruct (Htop res) as (best & Et & Hbest & Hmax); [intros ->; by destruct pkgs|].
  cbn [Base.compress_chunks Multi.compressor] in E. unfold Multi.compress in E. rewrite Eb, En, (fromChunks_Ok p Hcfg data Hd), bind_Ok, El, bind_Ok, Et in E. injection E as <- <- <- <-.
  exists res, lat, objs, best. do 4 eexists. split; [done|]. split; [done|]. split; [done|]. split; [done|]. split; [exact Ec|]. split; [apply get_set_size|]. split; [done|].
  intros s3 Hs3. by apply Hdec.
Qed.

(** ** Sizes *)
Lemma chunks_qwords p data : chunk_cfg p -> Base.chunkSizeBits p = 64 -> line_ok p data -> chunks p data = data.
Proof.
  intros Hc E [Hl Hf]. pose proof (cc_n p Hc) as Hn. rewrite E in Hn. assert (En : Base.num_chunks_per_64 p = 1) by lia.
  apply list_eq. intros i. unfold chunks. rewrite list_lookup_fmap, En, Z.mul_1_r. destruct (data !! i) as [d|] eqn:Ei.
  - pose proof (lookup_lt_Some _ _ _ Ei). rewrite lookup_seqZ_lt by lia. cbn [fmap option_fmap option_map]. unfold chunk.
    rewrite En, E, Z.div_1_r, Z.mod_1_r, Z.mul_0_l, Z.shiftr_0_r, Z.add_0_l, Nat2Z.id, (list_lookup_total_correct _ _ _ Ei). f_equal. apply uw_small. by eapply Forall_lookup_1.
  - apply lookup_ge_None in Ei. by rewrite lookup_seqZ_ge by lia.
Qed.

(** The compressors that look for one form of line recognise exactly that
    form: an all-zero line has size 0 for the zero compressor, a line of one
    repeated quadword has size 64, and a line whose values all differ by less than
    2^(D-1) from zero or from the first value that does not has one delta per value
    and one base; any other line has the size of the block. *)
Theorem special_sizes p N data s raw comp_lat decomp_lat s1 : line_ok p data -> Dict.compress (chunks p data) s = Ok (raw, comp_lat, decomp_lat, s1) ->
  (dict_cfg Dict.Zero_ p N -> dict_ok Dict.Zero_ p N s ->
   Data.getSizeBits raw = if decide (Forall (fun w => w = 0) data) then 0 else Base.blkSize p * 8) /\
  (dict_cfg Dict.RepeatedQwords_ p N -> dict_ok Dict.RepeatedQwords_ p N s ->
   (Data.getSizeBits raw = 64 /\ (forall v w, v ∈ data -> w ∈ data -> v = w)) \/
   (Data.getSizeBits raw = Base.blkSize p * 8 /\ ~ (forall v w, v ∈ data -> w ∈ data -> v = w))) /\
  (forall b D, dict_cfg (Dict.BaseDelta_ b D) p N -> dict_ok (Dict.BaseDelta_ b D) p N s ->
   (Data.getSizeBits raw = nchunks p * (D + 1) + 8 * Z.of_nat b /\ delta_form b D (chunks p data)) \/
   (Data.getSizeBits raw = Base.blkSize p * 8 /\ ~ delta_form b D (chunks p data))).
Proof.
  intros Hd E. split; [|split].
  - intros Hcfg [Ek Hs]. destruct (dict_kind_trip _ p N data (Dict.dict s) Hcfg Hd Hs) as (sum & qs & s' & Ec & (Eb & _) & _).
    destruct (zero_count p N data (Dict.dict s) sum qs s' Hcfg Hd Hs Ec) as (-> & H0 & Hi). rewrite chunks_qwords in Hi by (done || apply Hcfg).
    unfold Dict.compress in E. rewrite Ek in E. cbn [Dict.virtual] in *. rewrite Ec, bind_Ok in E. injection E as <- _ _ _. cbn [Data.getSizeBits fst snd]. unfold Zero.compress. rewrite Eb.
    destruct (Z.ltb_spec 0 (DictionaryCompressor.numEntries s')); case_decide as Hz; cbn [fst]; rewrite <- Hi in Hz; lia.
  - intros Hcfg [Ek Hs]. destruct (dict_kind_trip _ p N data (Dict.dict s) Hcfg Hd Hs) as (sum & qs & s' & Ec & (Eb & _) & _).
    destruct (repeated_nonempty p N data (Dict.dict s) sum qs s' Hcfg Hd Hs Ec) as (-> & H0 & Hi). rewrite chunks_qwords in Hi by (done || apply Hcfg).
    unfold Dict.compress in E. rewrite Ek in E. cbn [Dict.virtual] in *. rewrite Ec, bind_Ok in E. cbn [fst snd] in E. unfold RepeatedQwords.compress in E. rewrite (proj2 (Z.leb_le _ _) H0), check_true, !bind_Ok in E.
    injection E as <- _ _ _. cbn [Data.getSizeBits]. rewrite Eb. destruct (Z.ltb_spec 1 (DictionaryCompressor.numEntries s')); cbn [fst]; rewrite <- Hi; [right|left]; lia.
  - intros b D Hcfg [Ek Hs]. destruct (dict_kind_trip _ p N data (Dict.dict s) Hcfg Hd Hs) as (sum & qs & s' & Ec & (Eb & _) & _).
    destruct (base_delta_count b D p N data (Dict.dict s) sum qs s' Hcfg Hd Hs Ec) as (-> & H0 & Hi).
    unfold Dict.compress in E. rewrite Ek in E. cbn [Dict.virtual] in *. unfold DictionaryCompressor.compress_lat in E. rewrite Ec in E. ok_inv. destruct r as [[[cd l1] l2] d]. ok_inv.
    subst r1. cbn [fst snd] in E0. injection E0 as <- _ _ <-. subst raw. cbn [Data.getSizeBits]. unfold BaseDelta.compress, BaseDelta.DEFAULT_MAX_NUM_BASES. rewrite Eb, <- Hi.
    destruct Hcfg as (Hc & Hb & _ & _ & _ & _ & _ & _ & _ & H256). rewrite sw_small by (unfold in_sw; lia).
    destruct (Z.ltb_spec (2 - DictionaryCompressor.numEntries s') 0); cbn [fst]; [right; lia|left].
    destruct (Z.ltb_spec 0 (2 - DictionaryCompressor.numEntries s')); cbn [fst]; nia.
Qed.

(** ** The smallest pattern *)
(** The size of the patterns of a class, which does not depend on the value. *)
Definition sized (c : PatternClass) (n : Z) : Prop := forall bytes loc, Pattern.getSizeBits (construct c bytes loc) = n.

(** A factory gives the first of its patterns that match. *)
Lemma getPattern_first l bytes d loc q : getPattern l bytes d loc = Ok q ->
  exists i h, l !! i = Some h /\ q = construct h bytes loc /\ forall j c, l !! j = Some c -> isPattern c bytes d loc = Ok true -> (i <= j)%nat.
Proof.
  induction l as [|h l IH]; intros E; [done|]. destruct l as [|h' l]; cbn [getPattern] in E; [ok_inv; exists 0%nat, h; split; [done|]; split; [done|lia]|].
  ok_inv. destruct r; [ok_inv; exists 0%nat, h; split; [done|]; split; [done|lia]|]. destruct (IH E) as (i & g & Hi & Hq & Hmin). exists (S i), g.
  split; [done|]. split; [done|]. intros [|j] c Hj Hm; [cbn in Hj; congruence|]. apply le_n_S. by apply (Hmin j c).
Qed.

(** The patterns of the factory are tried in an order that finds a smallest one. *)
Definition finds_smallest (l : list PatternClass) (szT : nat) : Prop := forall bytes d loc q c, entry_ok szT bytes -> getPattern l bytes d loc = Ok q -> c ∈ l ->
  isPattern c bytes d loc = Ok true -> Pattern.getSizeBits q <= Pattern.getSizeBits (construct c bytes loc).

Lemma sorted_smallest l sizes szT : Forall2 sized l sizes -> StronglySorted Z.le sizes -> finds_smallest l szT.
Proof.
  intros Hf Hs bytes d loc q c _ E Hc Hm. destruct (getPattern_first _ _ _ _ _ E) as (i & h & Hi & -> & Hmin). apply list_elem_of_lookup in Hc as (j & Hj). pose proof (Hmin j c Hj Hm) as Hij.
  destruct (Forall2_lookup_l _ _ _ _ _ Hf Hi) as (n & Hn & ->). destruct (Forall2_lookup_l _ _ _ _ _ Hf Hj) as (m & Hm' & ->).
  destruct (decide (i = j)) as [->|]; [simplify_eq; lia|]. by apply (StronglySorted_lookup Z.le sizes i j); [|lia| |].
Qed.

Ltac sizes_of := repeat apply Forall2_cons_2; try apply Forall2_nil_2; intros ? ?; vm_compute; reflexivity.

(** FPC tries a repeated byte after larger patterns, but then none of these
    matches that is not a smaller one already. *)
Definition repeated_small (r : Z) : bool :=
  match getPattern FPC.PatternFactory (toDictionaryEntry 4 (r * 0x01010101)) [] (-1) with Ok q => Pattern.getSizeBits q <=? 11 | Err _ => false end.
Lemma repeated_small_all : forall r, 0 <= r < 256 -> repeated_small r = true.
Proof. apply range_check. vm_compute. reflexivity. Qed.
Lemma fpc_no_dictionary bytes d loc : getPattern FPC.PatternFactory bytes d loc = getPattern FPC.PatternFactory bytes [] (-1).
Proof. reflexivity. Qed.
Lemma fpc_repeated r d loc : in_uw 8 r -> exists q, getPattern FPC.PatternFactory (toDictionaryEntry 4 (r * 0x01010101)) d loc = Ok q /\ Pattern.getSizeBits q <= 11.
Proof.
  intros Hr. rewrite fpc_no_dictionary. pose proof (repeated_small_all r Hr) as H. unfold repeated_small in H.
  destruct (getPattern _ _ _ _) as [q|]; [|done]. exists q. split; [done|]. by apply Z.leb_le.
Qed.

Lemma fpc_repeated_class bytes d loc q : entry_ok 4 bytes -> isPattern FPC.RepBytes bytes d loc = Ok true -> getPattern FPC.PatternFactory bytes d loc = Ok q ->
  Pattern.getSizeBits q <= 11.
Proof.
  intros Hb Hm E. assert (Hok : forall b, Ok b = Ok true -> b = true) by congruence. apply Hok, rep_loop_value in Hm; [|by apply (from_range 4)]. destruct (fpc_repeated (uw 8 (fromDictionaryEntry 4 bytes)) d loc) as (q' & E' & Hle); [apply uw_range; lia|].
  rewrite <- Hm, to_from, E in E' by done. by injection E' as ->.
Qed.

Lemma fpc_smallest : finds_smallest FPC.PatternFactory 4.
Proof.
  intros bytes d loc q c Hb E Hc Hm. assert (Hf : Forall2 sized FPC.PatternFactory [0; 7; 11; 19; 19; 19; 11; 35]) by sizes_of.
  destruct (getPattern_first _ _ _ _ _ E) as (i & h & Hi & Hq & Hmin). apply list_elem_of_lookup in Hc as (j & Hj). pose proof (Hmin j c Hj Hm) as Hij.
  destruct (Forall2_lookup_l _ _ _ _ _ Hf Hi) as (n & Hn & Hsn). destruct (Forall2_lookup_l _ _ _ _ _ Hf Hj) as (m & Hm' & Hsm). rewrite Hsm.
  destruct (decide (j = 6%nat)) as [->|Hne].
  - assert (c = FPC.RepBytes) as -> by (cbn [lookup list_lookup FPC.PatternFactory] in Hj; congruence). injection Hm' as <-. by eapply fpc_repeated_class.
  - subst q. rewrite Hsn. clear -Hn Hm' Hij Hne. do 8 (destruct j as [|j]; [do 8 (destruct i as [|i]; [cbn in Hn, Hm'; simplify_eq; lia|]); lia|]). done.
Qed.

Lemma kind_smallest k p N : dict_cfg k p N -> finds_smallest (@DictionaryCompressor.factory (Dict.virtual k)) (@DictionaryCompressor.sizeofT (Dict.virtual k)).
Proof.
  intros (_ & _ & _ & _ & _ & _ & Hk). destruct k as [|z| |b D| |]; cbn [Dict.virtual].
  - apply (sorted_smallest _ [2; 6; 12; 16; 24; 34]); [sizes_of|repeat constructor; done].
  - apply fpc_smallest.
  - apply (sorted_smallest _ [4; 4; 4; 4; 12; 12; 12; 12; 12; 20; 20; 20; 20; 20; 20; 36]); [sizes_of|repeat constructor; done].
  - destruct Hk as (Hb & HD & _). assert (E1 : forall x, 0 <= x <= 65 -> uw 8 x = x) by (intros x Hx; apply uw_small; unfold in_uw; lia).
    apply (sorted_smallest _ [D + 1; 8 * Z.of_nat b + (1 + D)]); [|repeat constructor; lia].
    repeat constructor; intros bytes loc; unfold Pattern.getSizeBits; cbn [BaseDelta.PatternM BaseDelta.PatternX construct delta uncompressed pattern as_ numUnmatchedBits Pattern.length];
      change BaseDelta.base_bits with 1; unfold W; rewrite !E1 by lia; lia.
  - apply (sorted_smallest _ [0; 64]); [sizes_of|repeat constructor; done].
  - apply (sorted_smallest _ [0; 64]); [sizes_of|repeat constructor; done].
Qed.

(** The pattern that a compressor chooses for a value is a smallest one: no
    pattern of the factory that matches the value, without the dictionary or at any
    valid entry, is smaller. *)
Theorem smallest_pattern k p N v s q s' c d loc : dict_cfg k p N -> in_uw (8 * Z.of_nat (@DictionaryCompressor.sizeofT (Dict.virtual k))) v ->
  @DictionaryCompressor.compressValue (Dict.virtual k) v s = Ok (q, s') -> c ∈ @DictionaryCompressor.factory (Dict.virtual k) ->
  (loc = -1 /\ d = toDictionaryEntry (@DictionaryCompressor.sizeofT (Dict.virtual k)) 0 \/ 0 <= loc < DictionaryCompressor.numEntries s /\ vget (DictionaryCompressor.dictionary s) loc = Ok d) ->
  isPattern c (toDictionaryEntry (@DictionaryCompressor.sizeofT (Dict.virtual k)) v) d loc = Ok true ->
  Pattern.getSizeBits q <= Pattern.getSizeBits (construct c (toDictionaryEntry (@DictionaryCompressor.sizeofT (Dict.virtual k)) v) loc).
Proof.
  intros Hcfg Hv E Hc Hl Hm. pose proof (kind_smallest k p N Hcfg) as Hs. unfold DictionaryCompressor.compressValue in E. ok_inv. simplify_eq.
  destruct (search_min _ _ _ _ _ _ _ E1) as (H1 & H2 & _). destruct Hl as [[-> ->]|[Hl Hd]].
  - etransitivity; [exact H1|]. by eapply Hs; [apply to_ok| | |].
  - destruct (H2 loc) as (e & t & Ee & Et & Hle); [lia|]. assert (e = d) as -> by congruence.
    etransitivity; [exact Hle|]. by eapply Hs; [apply to_ok| | |].
Qed.

(** ** Reads behind the dictionary *)
(** The first value of a line, with an empty dictionary, gives a pattern without
    a location. *)
Lemma first_entry V p N cap room v vs s0 : laws V p N cap room -> room (S (List.length vs)) s0 -> DictionaryCompressor.numEntries s0 = 0 ->
  Forall (in_uw (8 * Z.of_nat DictionaryCompressor.sizeofT)) (v :: vs) ->
  exists sum q qs s', DictionaryCompressor.compress_loop (v :: vs) (0, []) s0 = Ok (sum, q :: qs, s') /\ matchLocation q = -1.
Proof.
  intros L Hr Hn Hf. apply Forall_cons in Hf as [Hv Hf]. cbn [DictionaryCompressor.compress_loop]. rewrite uw_small by done.
  destruct (compressValue_ok V L (List.length vs) s0 v Hr Hv) as (q & s1 & E & Hq & Hr1 & _). rewrite E, bind_Ok. cbn [fst snd].
  destruct (v_entry V _ _ _ _ L q (0, [])) as (q' & Ee & El & _). rewrite Ee.
  destruct (loops_ok V L vs (DictionaryCompressor.add_entry q' (0, [])) s1 Hr1 Hf) as (sum & qs & s' & k & Ec & _). rewrite Ec.
  cbn [DictionaryCompressor.add_entry fst snd app]. do 4 eexists. split; [done|]. rewrite El. destruct Hq as [[Hq _]|(i & e & _ & Hi & _)]; [done|lia].
Qed.

Lemma read_outside V oob q qs s : matchLocation q = -1 -> (List.length (DictionaryCompressor.dictionary s) <= 255)%nat -> oob 255 = Err Undefined ->
  @DictionaryCompressor.decompress_loop V oob (q :: qs) s = Err Undefined.
Proof.
  intros Hq Hl Ho. cbn [DictionaryCompressor.decompress_loop]. unfold DictionaryCompressor.decompressValue, DictionaryCompressor.read_entry, getMatchLocation. rewrite Hq.
  change (uw 8 (-1)) with 255. rewrite lookup_ge_None_2, Ho by (cbn; lia). done.
Qed.

Lemma dict_payload k vs s raw l1 l2 s2 sum qs s' : Dict.kind_of s = k -> Dict.compress vs s = Ok (raw, l1, l2, s2) ->
  @DictionaryCompressor.compress (Dict.virtual k) vs (Dict.dict s) = Ok (sum, qs, s') -> exists size, raw = CompData size qs.
Proof.
  intros Ek Er Eq. unfold Dict.compress in Er. rewrite Ek in Er. destruct k as [|z| |b D| |]; cbn [Dict.virtual] in *;
    unfold DictionaryCompressor.compress_lat, RepeatedQwords.compress, Zero.compress, BaseDelta.compress in Er; rewrite Eq in Er; ok_inv; subst; repeat case_match; ok_inv; simplify_eq; by eexists.
Qed.

Definition no_zero_base (k : Dict.kind) : bool := match k with Dict.BaseDelta_ _ _ => false | _ => true end.

(** C36: The match location of a pattern that uses no entry is -1, but it is read
    as an unsigned byte: for every line that a compressor without a zero base has
    compressed, [decompress] reads entry 255 of the dictionary first, which is
    behind its end when the dictionary has at most 255 entries. *)
Theorem decompress_reads_outside k p N data s cd comp_lat decomp_lat s1 s3 : dict_cfg k p N -> N <= 255 -> no_zero_base k = true -> line_ok p data ->
  dict_ok k p N s -> Base.compress None data s = Ok (cd, comp_lat, decomp_lat, s1) -> dict_ok k p N s3 ->
  Base.decompress (fun _ => Err Undefined) cd s3 = Err Undefined.
Proof.
  intros Hcfg HN Hk Hd [Ek Hs] E [Ek3 Hs3]. pose proof (dict_lossless k p N Hcfg) as LL. pose proof Hcfg as (Hc & Hblk & Hch & _).
  destruct (base_compress_trip None data s (conj Ek Hs) Hd (or_introl eq_refl)) as (raw & l1 & l2 & s2 & s' & Er & Ec & _ & _). rewrite E in Ec. injection Ec as -> -> -> ->.
  destruct (dict_laws k p N Hcfg) as (room & L). destruct (v_reset _ _ _ _ _ L) as (s0 & Hr0 & Hreset).
  assert (Hn0 : DictionaryCompressor.numEntries s0 = 0).
  { pose proof (Hreset _ Hs) as Hz. destruct k; try discriminate Hk; cbn [Dict.virtual] in Hz; by injection Hz as <-. }
  pose proof (chunks_length p Hc data) as Hl. fold (nchunks p) in Hl. pose proof (nchunks_pos p Hc Hblk) as Hpos. pose proof (chunks_range p Hc data) as Hr. rewrite Hch in Hr.
  assert (Hqs : exists sum q qs s', @DictionaryCompressor.compress (Dict.virtual k) (chunks p data) (Dict.dict s) = Ok (sum, q :: qs, s') /\ matchLocation q = -1).
  { destruct (chunks p data) as [|v vs]; [cbn in Hl; lia|]. unfold DictionaryCompressor.compress. rewrite (Hreset _ Hs), bind_Ok.
    eapply first_entry; [exact L| |done|done]. by replace (S (List.length vs)) with (Z.to_nat (nchunks p)) by (cbn in Hl; lia). }
  destruct Hqs as (sum & q & qs & s4 & Eq & Hq).
  destruct (dict_payload k _ s raw l1 l2 s2 _ _ _ Ek Er Eq) as (size & ->). cbn [Base.decompress Dict.compressor Dict.decompress Data.setSizeBits]. rewrite Ek3.
  unfold DictionaryCompressor.decompress. rewrite (Hreset _ Hs3), bind_Ok. destruct (v_room _ _ _ _ _ L _ _ Hr0) as ((_ & _ & Hlen & _) & _).
  by rewrite read_outside by (done || lia).
Qed.

(** The pattern for two sign-extended halfwords compares a signed halfword
    with an unsigned one: it matches exactly when both halfwords are below 128, and
    a word with a halfword that extends a negative byte is not matched. *)
Theorem fpc_negative_halfwords v d loc : in_uw 32 v ->
  isPattern FPC.SignExtendedTwoHalfwords (toDictionaryEntry 4 v) d loc = Ok ((v mod 2 ^ 16 <? 128) && (v / 2 ^ 16 <? 128)).
Proof.
  intros Hv. cbn [FPC.SignExtendedTwoHalfwords isPattern]. rewrite twoHalfwords_match_eq by apply to_ok. unfold low_half, high_half. by rewrite from_to.
Qed.

(** ** Witnesses *)
Definition ex_params (chunk_bits : Z) : Base.Params := Base.mkParams 64 chunk_bits 32 2 5 2 1.
Definition ex_line : list Z := [0x1122334411223344; 0; 0x00000000_11223355; 0; 0x11223344_11223344; 0; 0x11220000_00000042; 0].

Lemma ex_cfg c : c = 16 \/ c = 32 \/ c = 64 -> chunk_cfg (ex_params c).
Proof. intros [->|[->| ->]]; constructor; vm_compute; congruence. Qed.
Lemma ex_line_ok c : line_ok (ex_params c) ex_line.
Proof. split; [reflexivity|]. repeat constructor; vm_compute; congruence. Qed.

Lemma ex_dict_cfg : dict_cfg Dict.CPack_ (ex_params 32) 64 /\ dict_cfg Dict.Zero_ (ex_params 64) 64.
Proof. split; (split; [apply ex_cfg; auto|]); split_and!; vm_compute; congruence. Qed.
Definition ex_cpack : Dict.t := Dict.new Dict.CPack_ (ex_params 32) 64.
Definition ex_zero : Dict.t := Dict.new Dict.Zero_ (ex_params 64) 64.

(** Witness of [compressor_roundtrip]: a line that C-Pack compresses, with 64
    entries and any value for the entry behind them, and with 256 entries. *)
Lemma ex_dict_cfg_large : dict_cfg Dict.CPack_ (ex_params 32) 256.
Proof. split; [apply ex_cfg; auto|]. split_and!; vm_compute; congruence. Qed.

Lemma compressor_roundtrip_witness :
  (exists cd l1 l2 s1 s4, Base.compress None ex_line ex_cpack = Ok (cd, l1, l2, s1) /\
     Data.getSizeBits cd = 122 /\ Base.decompress (fun _ => Ok [0; 0; 0; 0]) cd ex_cpack = Ok (ex_line, s4)) /\
  (exists cd l1 l2 s1 s4, Base.compress None ex_line (Dict.new Dict.CPack_ (ex_params 32) 256) = Ok (cd, l1, l2, s1) /\
     Base.decompress (fun _ => Err Undefined) cd s1 = Ok (ex_line, s4)).
Proof.
  destruct ex_dict_cfg as [Hcfg _]. split.
  - destruct (compressor_roundtrip Dict.CPack_ (ex_params 32) 64 ex_line ex_cpack Hcfg (ex_line_ok 32) (new_ok _ _ _ Hcfg))
      as (raw & cd & l1 & l2 & s1 & Er & Ec & _ & Hsize & _ & Hdec).
    destruct (Hdec (fun _ => Ok [0; 0; 0; 0]) ex_cpack (new_ok _ _ _ Hcfg)) as (s4 & [Ed|(_ & e & He & _)] & _); [|discriminate He].
    exists cd, l1, l2, s1, s4. split; [exact Ec|]. split; [|exact Ed].
    rewrite Hsize. vm_compute in Er. injection Er as <- _ _ _. reflexivity.
  - destruct (compressor_roundtrip Dict.CPack_ (ex_params 32) 256 ex_line (Dict.new Dict.CPack_ (ex_params 32) 256)
      ex_dict_cfg_large (ex_line_ok 32) (new_ok _ _ _ ex_dict_cfg_large)) as (raw & cd & l1 & l2 & s1 & _ & Ec & Hs1 & _ & _ & Hdec).
    destruct (Hdec (fun _ => Err Undefined) s1 Hs1) as (s4 & [Ed|(HN & _)] & _); [|lia].
    exists cd, l1, l2, s1, s4. split; [exact Ec|exact Ed].
Defined.

(** Witness of [multi_roundtrip]: the zero compressor and C-Pack. *)
Definition ex_packages : list package :=
  [mkPackage _ _ _ _ (dict_lossless _ _ _ (proj2 ex_dict_cfg)); mkPackage _ _ _ _ (dict_lossless _ _ _ (proj1 ex_dict_cfg))].
Definition ex_top (l : list Multi.Results) : option Multi.Results :=
  match l with [] => None | r :: l => Some (fold_left (fun a b => if Multi.less a b then b else a) l r) end.
Definition ex_multi : Multi.t := Multi.mk (ex_params 32) [Multi.mkObject _ Dict.compressor ex_zero; Multi.mkObject _ Dict.compressor ex_cpack] 1.

Lemma less_trans a b c : Multi.less a b = false -> Multi.less b c = false -> Multi.less a c = false.
Proof. unfold Multi.less. repeat case_match; intros; lia. Qed.
Lemma less_asym a b : Multi.less a b = true -> Multi.less b a = false.
Proof. unfold Multi.less. repeat case_match; intros; lia. Qed.
Lemma less_irrefl a : Multi.less a a = false.
Proof. unfold Multi.less. repeat case_match; lia. Qed.

Lemma ex_top_max l : l <> [] -> exists r, ex_top l = Some r /\ r ∈ l /\ forall r', r' ∈ l -> Multi.less r r' = false.
Proof.
  destruct l as [|a l]; [done|]. intros _. eexists. split; [done|]. revert a. induction l as [|b l IH]; intros a; cbn [fold_left].
  - split; [by constructor|]. intros r' ->%list_elem_of_singleton. apply less_irrefl.
  - destruct (IH (if Multi.less a b then b else a)) as [Hin Hmax]. split; [rewrite !elem_of_cons in *; destruct (Multi.less a b); tauto|].
    intros r' [->|[->|Hr]%elem_of_cons]%elem_of_cons; [| |apply Hmax; by right].
    + eapply less_trans; [apply Hmax; by left|]. destruct (Multi.less a b) eqn:E; [by apply less_asym|apply less_irrefl].
    + eapply less_trans; [apply Hmax; by left|]. destruct (Multi.less a b) eqn:E; [apply less_irrefl|done].
Qed.

Lemma multi_roundtrip_witness : exists cd l1 l2 s1 s4, @Base.compress _ (Multi.compressor ex_top) None ex_line ex_multi = Ok (cd, l1, l2, s1) /\
  Data.getSizeBits cd = 123 /\ @Base.decompress _ (Multi.compressor ex_top) (fun _ => Ok [0; 0; 0; 0]) cd ex_multi = Ok (ex_line, s4).
Proof.
  assert (Hok : multi_ok ex_packages (ex_params 32) 1 ex_multi).
  { split; [reflexivity|]. split; [reflexivity|]. apply Forall2_cons_2; [|apply Forall2_cons_2; [|apply Forall2_nil_2]].
    - exists ex_zero. split; [reflexivity|]. apply new_ok, ex_dict_cfg.
    - exists ex_cpack. split; [reflexivity|]. apply new_ok, ex_dict_cfg. }
  destruct (multi_roundtrip ex_packages (ex_params 32) 1 ex_top ex_line (fun _ => [0; 0; 0; 0]) ex_multi ex_top_max) as (res & lat & objs & best & cd & l1 & l2 & s1 & El & _ & Hbest & Hmax & Ec & _ & _ & Hdec).
  - apply ex_cfg. auto.
  - discriminate.
  - cbn. lia.
  - repeat constructor.
  - exact Hok.
  - apply ex_line_ok.
  - destruct (Hdec ex_multi Hok) as (s4 & Ed & _). exists cd, l1, l2, s1, s4. split; [exact Ec|]. split; [|exact Ed].
    assert (Hsize : match @Base.compress _ (Multi.compressor ex_top) None ex_line ex_multi with Ok (cd, _, _, _) => Data.getSizeBits cd =? 123 | Err _ => false end = true) by (vm_compute; reflexivity).
    rewrite Ec in Hsize. apply Z.eqb_eq, Hsize.
Defined.

(** Witness of [special_sizes]: the zero compressor on a line with a value. *)
Lemma special_sizes_witness : exists raw l1 l2 s1, Dict.compress (chunks (ex_params 64) ex_line) ex_zero = Ok (raw, l1, l2, s1) /\ Data.getSizeBits raw = 512.
Proof.
  destruct ex_dict_cfg as [_ Hcfg]. destruct (Dict.compress (chunks (ex_params 64) ex_line) ex_zero) as [[[[raw l1] l2] s1]|e] eqn:E; [|vm_compute in E; discriminate E].
  exists raw, l1, l2, s1. split; [reflexivity|]. destruct (special_sizes (ex_params 64) 64 ex_line ex_zero raw l1 l2 s1 (ex_line_ok 64) E) as [Hz _].
  rewrite (Hz Hcfg (new_ok _ _ _ Hcfg)), decide_False; [reflexivity|]. intros Hf. apply Forall_cons in Hf as [Hf _]. vm_compute in Hf. discriminate Hf.
Defined.

(** Witness of [smallest_pattern]: a word whose upper half is that of the entry. *)
Definition ex_entry : DictionaryCompressor.t := DictionaryCompressor.with_dict (toDictionaryEntry 4 0x11223344 :: replicate 63 [0; 0; 0; 0]) 1 (Dict.dict ex_cpack).
Lemma smallest_pattern_witness : exists q s', @DictionaryCompressor.compressValue CPack.virtual 0x11225566 ex_entry = Ok (q, s') /\ Pattern.getSizeBits q <= 24.
Proof.
  destruct (@DictionaryCompressor.compressValue CPack.virtual 0x11225566 ex_entry) as [[q s']|e] eqn:E; [|vm_compute in E; discriminate E]. exists q, s'. split; [reflexivity|].
  apply (smallest_pattern Dict.CPack_ (ex_params 32) 64 0x11225566 ex_entry q s' CPack.PatternMMXX (toDictionaryEntry 4 0x11223344) 0 (proj1 ex_dict_cfg)).
  - vm_compute. split; congruence.
  - exact E.
  - cbn. do 4 right. left.
  - right. split; [cbn; lia|reflexivity].
  - vm_compute. reflexivity.
Defined.

(** Witness of [decompress_reads_outside]. *)
Lemma decompress_reads_outside_witness : exists cd l1 l2 s1, Base.compress None ex_line ex_cpack = Ok (cd, l1, l2, s1) /\
  Base.decompress (fun _ => Err Undefined) cd ex_cpack = Err Undefined.
Proof.
  destruct ex_dict_cfg as [Hcfg _]. destruct (Base.compress None ex_line ex_cpack) as [[[[cd l1] l2] s1]|e] eqn:E; [|vm_compute in E; discriminate E].
  exists cd, l1, l2, s1. split; [reflexivity|].
  apply (decompress_reads_outside Dict.CPack_ (ex_params 32) 64 ex_line ex_cpack cd l1 l2 s1 ex_cpack Hcfg); [lia|reflexivity|apply ex_line_ok|apply new_ok, Hcfg|exact E|apply new_ok, Hcfg].
Defined.

(** Witness of [fpc_negative_halfwords]: 0xFFF0 and 0x0012 extend bytes. *)
Lemma fpc_negative_halfwords_witness : isPattern FPC.SignExtendedTwoHalfwords (toDictionaryEntry 4 0x0012FFF0) [] (-1) = Ok false.
Proof. rewrite (fpc_negative_halfwords 0x0012FFF0 [] (-1)) by (split; lia). reflexivity. Defined.
