(* ===== verification/CacheQueue.v ===== *)
(** * The queues of a cache

    Model of src/gem5/src/mem/cache/queue.hh, the queue that the miss queue and
    the write buffer share, over the interface of its entries in
    queue_entry.hh. An entry is known by its address in the storage; an iterator
    into one of the lists is the entry it points to. Labels and names, which are
    only printed, are left out. *)

From S2P Require Import Prelude.

(** What the queue uses of an entry. *)
Class QueueEntry (E : Type) := {
  e_readyTime : E -> Z;
  e_inService : E -> bool;
  e_isUncacheable : E -> bool;
  e_order : E -> Z;
  e_blkAddr : E -> Z;
  e_isSecure : E -> bool;
  e_numTargets : E -> nat;
  e_hasTargets : E -> bool;
  e_deallocate : E -> result E;
}.

Module Queue.
Section Queue.
Context {E : Type} `{QueueEntry E}.

Inductive DrainState := Running | Draining | Drained.

Record t := mk {
  numEntries : Z;
  numReserve : Z;
  allocatedList : list Z;
  readyList : list Z;
  freeList : list Z;
  _numInService : Z;
  allocated : Z;
  drainState : DrainState;
}.

(** The entries are at [base], [base + 1], ... *)
Definition new (base num_entries reserve : Z) : result t :=
  let n := num_entries + reserve in
  if n <? 0 then Err Throw else Ok (mk n reserve [] [] (seqZ base n) 0 0 Running).

(** Reading through a pointer. *)
Definition deref (h : gmap Z E) (i : Z) : result E :=
  match h !! i with Some e => Ok e | None => Err Undefined end.

(** [list.erase] at the iterator of an entry. *)
Fixpoint erase (i : Z) (l : list Z) : result (list Z) :=
  match l with
  | [] => Err Undefined
  | j :: l => if j =? i then Ok l else let! l := erase i l in Ok (j :: l)
  end.

(** The loop of [addToReadyList] over the list from an iterator on. *)
Fixpoint insert_loop (h : gmap Z E) (entry time : Z) (l : list Z) : result (list Z) :=
  match l with
  | [] => Err Panic
  | i :: l => let! e := deref h i in
      if time <? e_readyTime e then Ok (entry :: i :: l)
      else let! l := insert_loop h entry time l in Ok (i :: l)
  end.

Definition addToReadyList (h : gmap Z E) (entry : Z) (l : list Z) : result (list Z) :=
  let! e := deref h entry in
  match last l with
  | None => Ok (l ++ [entry])
  | Some b => let! be := deref h b in
      if e_readyTime be <=? e_readyTime e then Ok (l ++ [entry]) else insert_loop h entry (e_readyTime e) l
  end.

Definition isEmpty (q : t) : bool := allocated q =? 0.
Definition isFull (q : t) : bool := numEntries q - numReserve q <=? allocated q.
Definition numInService (q : t) : Z := _numInService q.

(** [matchBlockAddr] and [conflictAddr] of the entries of both queues. *)
Definition matchBlockAddr (a : Z) (is_secure : bool) (e : E) : result bool :=
  guard! e_hasTargets e;
  Ok ((e_blkAddr e =? a) && eqb (e_isSecure e) is_secure).

Fixpoint match_loop (h : gmap Z E) (a : Z) (is_secure ignore_uncacheable : bool) (l : list Z) : result (option Z) :=
  match l with
  | [] => Ok None
  | i :: l => let! e := deref h i in
      if ignore_uncacheable && e_isUncacheable e then match_loop h a is_secure ignore_uncacheable l
      else let! b := matchBlockAddr a is_secure e in
           if b : bool then Ok (Some i) else match_loop h a is_secure ignore_uncacheable l
  end.
Definition findMatch (h : gmap Z E) (q : t) (a : Z) (is_secure ignore_uncacheable : bool) : result (option Z) :=
  match_loop h a is_secure ignore_uncacheable (allocatedList q).

Definition getNext (curTick : Z) (h : gmap Z E) (q : t) : result (option Z) :=
  match readyList q with
  | [] => Ok None
  | i :: _ => let! e := deref h i in if curTick <? e_readyTime e then Ok None else Ok (Some i)
  end.

Definition MaxTick : Z := 2 ^ 64 - 1.
Definition nextReadyTime (h : gmap Z E) (q : t) : result Z :=
  match readyList q with
  | [] => Ok MaxTick
  | i :: _ => let! e := deref h i in Ok (e_readyTime e)
  end.

(** The last component tells whether [signalDrainDone] is called. *)
Definition deallocate (h : gmap Z E) (q : t) (entry : Z) : result (gmap Z E * t * bool) :=
  let! al := erase entry (allocatedList q) in
  let fl := entry :: freeList q in
  let a := allocated q - 1 in
  let! e := deref h entry in
  let! sr := (if e_inService e then Ok (_numInService q - 1, readyList q)
              else let! rl := erase entry (readyList q) in Ok (_numInService q, rl)) in
  let! e := e_deallocate e in
  Ok (<[entry := e]> h, mk (numEntries q) (numReserve q) al sr.2 fl sr.1 a (drainState q),
      match drainState q with Draining => a =? 0 | _ => false end).

Definition drain (q : t) : DrainState := if allocated q =? 0 then Drained else Draining.

(** The lists as [allocate] of both queues changes them around the initialisation
    of the entry. *)
Definition with_lists (al rl fl : list Z) (ns a : Z) (q : t) : t :=
  mk (numEntries q) (numReserve q) al rl fl ns a (drainState q).
End Queue.

(** [findPending(entry)]: the first waiting entry of this queue whose block is the
    one that [entry], of another queue, asks for. *)
Section Pending.
Context {E E' : Type} `{QueueEntry E} `{QueueEntry E'}.
Definition conflictAddr (entry : E') (e : E) : result bool :=
  guard! e_hasTargets e;
  matchBlockAddr (e_blkAddr e) (e_isSecure e) entry.
Fixpoint pending_loop (h : gmap Z E) (entry : E') (l : list Z) : result (option Z) :=
  match l with
  | [] => Ok None
  | i :: l => let! e := deref h i in
      let! b := conflictAddr entry e in
      if b : bool then Ok (Some i) else pending_loop h entry l
  end.
Definition findPending (h : gmap Z E) (q : t) (entry : E') : result (option Z) := pending_loop h entry (readyList q).
End Pending.
End Queue.

(** ** Lists with iterators *)
Import Queue.

Lemma erase_Perm i l l' : erase i l = Ok l' -> l ≡ₚ i :: l'.
Proof.
  revert l'. induction l as [|j l IH]; intros l' Hl; cbn [erase] in Hl; [done|].
  destruct (Z.eqb_spec j i) as [->|]; ok_inv; subst; [done|].
  rewrite (IH _ E). apply Permutation_swap.
Qed.

Lemma erase_Ok i l : i ∈ l -> exists l', erase i l = Ok l'.
Proof.
  induction l as [|j l IH]; intros Hi; [set_solver|]. cbn [erase].
  destruct (Z.eqb_spec j i) as [->|]; [by eexists|].
  destruct IH as [l' ->]; [set_solver|]. by eexists.
Qed.

Lemma erase_sublist i l l' : erase i l = Ok l' -> l' `sublist_of` l.
Proof.
  revert l'. induction l as [|j l IH]; intros l' Hl; cbn [erase] in Hl; [done|].
  destruct (j =? i); ok_inv; subst; constructor; [done|by apply IH].
Qed.

Section Ready.
Context {E : Type} `{QueueEntry E}.
Implicit Types (h : gmap Z E) (i j : Z) (l : list Z).

(** The time at which an entry is ready, and a list in the order of these times. *)
Definition time h i : Z := match h !! i with Some e => e_readyTime e | None => 0 end.
Definition by_time h l : Prop := StronglySorted (fun i j => time h i <= time h j) l.

Lemma deref_Some h i e : h !! i = Some e -> deref h i = Ok e.
Proof. unfold deref. by intros ->. Qed.

Lemma deref_Ok h i e : deref h i = Ok e -> h !! i = Some e.
Proof. unfold deref. destruct (h !! i); congruence. Qed.

(** The entry is inserted before the first one with a later time. *)
Lemma insert_loop_split h i t l l' : insert_loop h i t l = Ok l' ->
  exists l1 l2, l = l1 ++ l2 /\ l' = l1 ++ i :: l2 /\ Forall (fun j => time h j <= t) l1 /\
    exists j l3, l2 = j :: l3 /\ t < time h j.
Proof.
  revert l'. induction l as [|j l IH]; intros l' Hl; cbn [insert_loop] in Hl; [done|].
  ok_inv. apply deref_Ok in E0. assert (Ht : time h j = e_readyTime r) by (unfold time; by rewrite E0).
  destruct (Z.ltb_spec t (e_readyTime r)); ok_inv; subst.
  - exists [], (j :: l). split_and!; [done..|]. exists j, l. split; [done|lia].
  - destruct (IH _ E1) as (l1 & l2 & -> & -> & Hl1 & Hl2). exists (j :: l1), l2. split_and!; [done..| |done].
    constructor; [lia|done].
Qed.

Lemma insert_loop_Ok h i t l : Forall (fun j => is_Some (h !! j)) l -> (exists j, j ∈ l /\ t < time h j) ->
  exists l', insert_loop h i t l = Ok l'.
Proof.
  induction 1 as [|j l [e He] Hl IH]; intros (k & Hk & Ht); [set_solver|]. cbn [insert_loop].
  rewrite (deref_Some _ _ _ He), bind_Ok. assert (Hj : time h j = e_readyTime e) by (unfold time; by rewrite He).
  destruct (Z.ltb_spec t (e_readyTime e)); [by eexists|].
  destruct IH as [l' ->]; [|by eexists]. apply elem_of_cons in Hk as [->|Hk]; [lia|by exists k].
Qed.

(** [addToReadyList] puts the entry after those that are ready no later, when the
    list is in order, and it always finds a place. *)
Lemma addToReadyList_split h i l l' : addToReadyList h i l = Ok l' ->
  exists l1 l2, l = l1 ++ l2 /\ l' = l1 ++ i :: l2 /\
    (by_time h l -> Forall (fun j => time h j <= time h i) l1 /\ Forall (fun j => time h i < time h j) l2).
Proof.
  unfold addToReadyList. intros Hl. ok_inv. apply deref_Ok in E0.
  assert (Hi : time h i = e_readyTime r) by (unfold time; by rewrite E0).
  destruct (last l) as [b|] eqn:Eb; ok_inv.
  - apply deref_Ok in E1. assert (Hb : time h b = e_readyTime r0) by (unfold time; by rewrite E1).
    destruct (Z.leb_spec (e_readyTime r0) (e_readyTime r)); ok_inv; subst.
    + exists l, []. split_and!; [by rewrite app_nil_r|done|]. intros Hs. split; [|constructor].
      apply last_Some in Eb as [l0 ->]. apply Forall_app. split; [|by repeat constructor; lia].
      apply StronglySorted_app in Hs as (Hs & _). apply Forall_forall. intros j Hj.
      specialize (Hs j b Hj ltac:(set_solver)). simpl in Hs. lia.
    + destruct (insert_loop_split _ _ _ _ _ Hl) as (l1 & l2 & -> & -> & H1 & j & l3 & -> & Hj).
      exists l1, (j :: l3). split_and!; [done..|]. intros Hs. split; [by rewrite Hi|].
      apply StronglySorted_app in Hs as (_ & _ & Hs). apply StronglySorted_inv in Hs as [_ Hs].
      constructor; [lia|]. eapply Forall_impl; [exact Hs|]. simpl. lia.
  - apply last_None in Eb as ->. subst. exists [], []. split_and!; [done..|]. intros _. split; constructor.
Qed.

Lemma addToReadyList_Perm h i l l' : addToReadyList h i l = Ok l' -> l' ≡ₚ i :: l.
Proof. intros (l1 & l2 & -> & -> & _)%addToReadyList_split. symmetry. apply Permutation_middle. Qed.

Lemma addToReadyList_sorted h i l l' : addToReadyList h i l = Ok l' -> by_time h l -> by_time h l'.
Proof.
  intros (l1 & l2 & -> & -> & Hl)%addToReadyList_split Hs. destruct (Hl Hs) as [H1 H2].
  apply StronglySorted_app in Hs as (Hs & Hs1 & Hs2). apply StronglySorted_app. split_and!.
  - intros j k Hj Hk. apply elem_of_cons in Hk as [->|Hk]; [by apply (proj1 (Forall_forall _ _) H1)|by apply Hs].
  - done.
  - constructor; [done|]. eapply Forall_impl; [exact H2|]. simpl. lia.
Qed.

Lemma addToReadyList_Ok h i l : Forall (fun j => is_Some (h !! j)) l -> is_Some (h !! i) -> exists l', addToReadyList h i l = Ok l'.
Proof.
  intros Hl [e He]. unfold addToReadyList. rewrite (deref_Some _ _ _ He), bind_Ok.
  destruct (last l) as [b|] eqn:Eb; [|by eexists].
  assert (b ∈ l) as Hb by (apply last_Some in Eb as [l0 ->]; set_solver).
  destruct (proj1 (Forall_forall _ _) Hl _ Hb) as [be Hbe]. rewrite (deref_Some _ _ _ Hbe), bind_Ok.
  destruct (Z.leb_spec (e_readyTime be) (e_readyTime e)); [by eexists|].
  apply insert_loop_Ok; [done|]. exists b. split; [done|]. unfold time. rewrite Hbe. lia.
Qed.
End Ready.

(** ** The invariant of a queue *)

(** What deallocation leaves of an entry. *)
Class QueueEntryLaws (E : Type) `{QueueEntry E} : Prop := {
  e_hasTargets_spec e : e_hasTargets e = true -> e_numTargets e <> 0%nat;
  e_deallocate_spec e e' : e_deallocate e = Ok e' -> e_inService e' = false /\ e_numTargets e' = e_numTargets e;
}.

Section Inv.
Context {E : Type} `{QueueEntryLaws E}.
Implicit Types (h : gmap Z E) (q : Queue.t) (i j : Z) (l ids : list Z).

Definition serving h i : bool := match h !! i with Some e => e_inService e | None => false end.
Definition numTargets h i : nat := match h !! i with Some e => e_numTargets e | None => 0%nat end.

(** The entries [ids] are split into the free and the allocated ones; the ready list
    holds the allocated ones that have not been sent, and the counters count. *)
Record queue_ok ids h q : Prop := {
  ok_part : freeList q ++ allocatedList q ≡ₚ ids;
  ok_nodup : NoDup ids;
  ok_dom : forall i, i ∈ ids -> is_Some (h !! i);
  ok_idle : forall i, i ∈ freeList q -> numTargets h i = 0%nat;
  ok_ready : readyList q ≡ₚ filter (fun i => serving h i = false) (allocatedList q);
  ok_service : _numInService q = Z.of_nat (length (filter (fun i => serving h i = true) (allocatedList q)));
  ok_allocated : allocated q = Z.of_nat (length (allocatedList q));
  ok_size : numEntries q = Z.of_nat (length ids);
}.

Lemma filter_serving_ext h h' b l : (forall i, i ∈ l -> serving h i = serving h' i) ->
  filter (fun i => serving h i = b) l = filter (fun i => serving h' i = b) l.
Proof.
  induction l as [|i l IH]; intros Hl; [done|]. rewrite !filter_cons, (Hl i) by set_solver.
  rewrite IH by (intros; apply Hl; set_solver). done.
Qed.

Lemma queue_ok_new h base n r q : Queue.new base n r = Ok q ->
  (forall i, base <= i < base + (n + r) -> exists e, h !! i = Some e /\ e_numTargets e = 0%nat) ->
  queue_ok (seqZ base (n + r)) h q.
Proof.
  unfold Queue.new. destruct (Z.ltb_spec (n + r) 0); [done|]. intros Hq He. ok_inv. subst q.
  split; cbn [freeList allocatedList readyList _numInService allocated numEntries].
  - by rewrite app_nil_r.
  - apply NoDup_seqZ.
  - intros i Hi. apply elem_of_seqZ in Hi. destruct (He i) as (e & -> & _); [lia|]. by eexists.
  - intros i Hi. apply elem_of_seqZ in Hi. unfold numTargets. destruct (He i) as (e & -> & ?); [lia|done].
  - done.
  - done.
  - done.
  - rewrite length_seqZ. lia.
Qed.

(** Changes of the entries that do not concern the queue. *)
Lemma queue_ok_frame ids h h' q : queue_ok ids h q ->
  (forall i, i ∈ ids -> is_Some (h' !! i) /\ serving h' i = serving h i /\ (numTargets h i = 0%nat -> numTargets h' i = 0%nat)) ->
  queue_ok ids h' q.
Proof.
  intros [] Hh. assert (Ha : forall i, i ∈ allocatedList q -> serving h i = serving h' i).
  { intros i Hi. symmetry. apply Hh. rewrite <- ok_part0. set_solver. }
  split; [done|done| | | | |done|done].
  - intros i Hi. by apply Hh.
  - intros i Hi. apply Hh; [rewrite <- ok_part0; set_solver|auto].
  - by rewrite <- (filter_serving_ext h).
  - by rewrite <- (filter_serving_ext h).
Qed.

Lemma ok_nodup_allocated ids h q : queue_ok ids h q -> NoDup (allocatedList q).
Proof. intros Hq. pose proof (ok_nodup _ _ _ Hq) as Hn. rewrite <- (ok_part _ _ _ Hq) in Hn. by apply NoDup_app in Hn as (_ & _ & ?). Qed.

Lemma ok_allocated_in ids h q i : queue_ok ids h q -> i ∈ allocatedList q -> i ∈ ids.
Proof. intros Hq Hi. rewrite <- (ok_part _ _ _ Hq). set_solver. Qed.

Lemma ok_ready_dom ids h q : queue_ok ids h q -> Forall (fun i => is_Some (h !! i)) (readyList q).
Proof.
  intros Hq. apply Forall_forall. intros i Hi. apply (ok_dom _ _ _ Hq), (ok_allocated_in _ _ _ _ Hq).
  rewrite (ok_ready _ _ _ Hq), list_elem_of_filter in Hi. tauto.
Qed.

Lemma ok_in_ready ids h q i : queue_ok ids h q -> (i ∈ readyList q <-> i ∈ allocatedList q /\ serving h i = false).
Proof. intros Hq. rewrite (ok_ready _ _ _ Hq), list_elem_of_filter. tauto. Qed.

(** The allocated entries without one of them. *)
Lemma split_allocated ids h q i : queue_ok ids h q -> i ∈ allocatedList q ->
  exists l, erase i (allocatedList q) = Ok l /\ allocatedList q ≡ₚ i :: l /\ (i ∉ l) /\ (l ⊆ allocatedList q).
Proof.
  intros Hq Hi. destruct (erase_Ok _ _ Hi) as [l El]. pose proof (erase_Perm _ _ _ El) as Hp. exists l.
  pose proof (ok_nodup_allocated _ _ _ Hq) as Hn. rewrite Hp in Hn. apply NoDup_cons in Hn as [Hn _].
  split_and!; [done..|]. intros j Hj. rewrite Hp. set_solver.
Qed.

Lemma filter_split_serving h i l l' b : l ≡ₚ i :: l' ->
  filter (fun i => serving h i = b) l ≡ₚ (if decide (serving h i = b) then [i] else []) ++ filter (fun i => serving h i = b) l'.
Proof. intros ->. rewrite filter_cons. by case_decide. Qed.

(** Only the entry [i] changes its state of service. *)
Definition others_same ids h h' i : Prop := forall j, j ∈ ids -> j <> i ->
  is_Some (h' !! j) /\ serving h' j = serving h j /\ (numTargets h j = 0%nat -> numTargets h' j = 0%nat).

(** The filters over the allocated entries after a change of [i] alone. *)
Lemma others_filter ids h h' q i l b : queue_ok ids h q -> others_same ids h h' i -> allocatedList q ≡ₚ i :: l -> i ∉ l ->
  filter (fun i => serving h i = b) l = filter (fun i => serving h' i = b) l.
Proof.
  intros Hq Ho Hl Hi. apply filter_serving_ext. intros j Hj. symmetry. apply Ho; [|set_solver].
  apply (ok_allocated_in _ _ _ _ Hq). rewrite Hl. set_solver.
Qed.

(** Allocation of the first free entry. *)
Lemma queue_ok_allocate ids h h' q i fl rl : queue_ok ids h q -> freeList q = i :: fl -> others_same ids h h' i ->
  is_Some (h' !! i) -> serving h' i = false -> rl ≡ₚ i :: readyList q ->
  queue_ok ids h' (with_lists (allocatedList q ++ [i]) rl fl (_numInService q) (allocated q + 1) q).
Proof.
  intros Hq Hf Ho Hi Hs Hr. pose proof (ok_part _ _ _ Hq) as Hp. rewrite Hf in Hp.
  assert (Hn : NoDup (i :: fl ++ allocatedList q)) by (change (NoDup ((i :: fl) ++ allocatedList q)); rewrite Hp; apply Hq).
  apply NoDup_cons in Hn as [Hn _].
  assert (Ha : forall j, j ∈ allocatedList q -> serving h j = serving h' j).
  { intros j Hj. symmetry. apply Ho; [by apply (ok_allocated_in _ _ _ _ Hq)|]. intros ->. set_solver. }
  split; cbn [with_lists freeList allocatedList readyList _numInService allocated numEntries].
  - rewrite <- Hp, (app_assoc fl). symmetry. apply Permutation_cons_append.
  - apply Hq.
  - intros j Hj. destruct (decide (j = i)) as [->|]; [done|]. by apply Ho.
  - intros j Hj. apply Ho; [rewrite <- Hp; set_solver|intros ->; set_solver|].
    apply (ok_idle _ _ _ Hq). rewrite Hf. set_solver.
  - rewrite Hr, filter_app, <- (filter_serving_ext h h') by done. rewrite filter_cons, decide_True by done.
    rewrite <- (ok_ready _ _ _ Hq). apply Permutation_cons_append.
  - rewrite filter_app, length_app, <- (filter_serving_ext h h') by done.
    rewrite filter_cons, decide_False by congruence. rewrite (ok_service _ _ _ Hq). simpl. lia.
  - rewrite length_app, (ok_allocated _ _ _ Hq). simpl. lia.
  - apply Hq.
Qed.

(** An entry that is sent leaves the ready list. *)
Lemma queue_ok_send ids h h' q i rl : queue_ok ids h q -> i ∈ allocatedList q -> others_same ids h h' i ->
  is_Some (h' !! i) -> serving h i = false -> serving h' i = true -> erase i (readyList q) = Ok rl ->
  queue_ok ids h' (with_lists (allocatedList q) rl (freeList q) (_numInService q + 1) (allocated q) q).
Proof.
  intros Hq Hi Ho Hd Hs Hs' Hr. destruct (split_allocated _ _ _ _ Hq Hi) as (l & _ & Hl & Hn & _).
  pose proof (fun b => others_filter _ _ _ _ _ _ b Hq Ho Hl Hn) as Hf. apply erase_Perm in Hr.
  split; cbn [with_lists freeList allocatedList readyList _numInService allocated numEntries]; try apply Hq.
  - intros j Hj. destruct (decide (j = i)) as [->|]; [done|]. by apply Ho.
  - intros j Hj. apply Ho; [rewrite <- (ok_part _ _ _ Hq); set_solver| |by apply (ok_idle _ _ _ Hq)].
    intros ->. pose proof (ok_nodup _ _ _ Hq) as Hnd. rewrite <- (ok_part _ _ _ Hq) in Hnd. apply NoDup_app in Hnd. naive_solver.
  - rewrite (ok_ready _ _ _ Hq), (filter_split_serving _ _ _ _ _ Hl), decide_True in Hr by done.
    rewrite (filter_split_serving _ _ _ _ _ Hl), decide_False by congruence. simpl in Hr |- *.
    rewrite <- Hf. symmetry. by apply (Permutation_cons_inv (a := i)).
  - rewrite (ok_service _ _ _ Hq), !(filter_split_serving _ _ _ _ _ Hl), decide_False, decide_True by congruence.
    rewrite <- Hf. simpl. lia.
Qed.

(** An entry whose request has to be sent again comes back to it. *)
Lemma queue_ok_pending ids h h' q i rl : queue_ok ids h q -> i ∈ allocatedList q -> others_same ids h h' i ->
  is_Some (h' !! i) -> serving h i = true -> serving h' i = false -> rl ≡ₚ i :: readyList q ->
  queue_ok ids h' (with_lists (allocatedList q) rl (freeList q) (_numInService q - 1) (allocated q) q).
Proof.
  intros Hq Hi Ho Hd Hs Hs' Hr. destruct (split_allocated _ _ _ _ Hq Hi) as (l & _ & Hl & Hn & _).
  pose proof (fun b => others_filter _ _ _ _ _ _ b Hq Ho Hl Hn) as Hf.
  split; cbn [with_lists freeList allocatedList readyList _numInService allocated numEntries]; try apply Hq.
  - intros j Hj. destruct (decide (j = i)) as [->|]; [done|]. by apply Ho.
  - intros j Hj. apply Ho; [rewrite <- (ok_part _ _ _ Hq); set_solver| |by apply (ok_idle _ _ _ Hq)].
    intros ->. pose proof (ok_nodup _ _ _ Hq) as Hnd. rewrite <- (ok_part _ _ _ Hq) in Hnd. apply NoDup_app in Hnd. naive_solver.
  - rewrite Hr, (ok_ready _ _ _ Hq), !(filter_split_serving _ _ _ _ _ Hl), decide_False, decide_True by congruence.
    by rewrite <- Hf.
  - rewrite (ok_service _ _ _ Hq), !(filter_split_serving _ _ _ _ _ Hl), decide_True, decide_False by congruence.
    rewrite <- Hf. simpl. lia.
Qed.

(** Deallocation of an entry without targets: it can always be done, and the drain
    is signalled when it was the last one. *)
Lemma queue_ok_deallocate ids h q i e e' : queue_ok ids h q -> i ∈ allocatedList q -> h !! i = Some e -> e_numTargets e = 0%nat -> e_deallocate e = Ok e' ->
  exists q' b, deallocate h q i = Ok (<[i := e']> h, q', b) /\ queue_ok ids (<[i := e']> h) q' /\ freeList q' = i :: freeList q /\
    allocatedList q ≡ₚ i :: allocatedList q' /\ readyList q' `sublist_of` readyList q /\
    (b = true <-> drainState q = Draining /\ allocatedList q' = []).
Proof.
  intros Hq Hi He Ht Hd. destruct (split_allocated _ _ _ _ Hq Hi) as (l & El & Hl & Hn & _).
  destruct (e_deallocate_spec _ _ Hd) as [Hs' Ht']. rewrite Ht in Ht'.
  assert (Ho : others_same ids h (<[i := e']> h) i).
  { intros j Hj Hji. unfold serving, numTargets. rewrite lookup_insert_ne by congruence. pose proof (ok_dom _ _ _ Hq j Hj). naive_solver. }
  pose proof (fun b => others_filter _ _ _ _ _ _ b Hq Ho Hl Hn) as Hf.
  assert (Hsr : exists sr, (if e_inService e then Ok (_numInService q - 1, readyList q)
      else let! rl := erase i (readyList q) in Ok (_numInService q, rl)) = Ok sr /\
      sr.2 ≡ₚ filter (fun i => serving h i = false) l /\ sr.2 `sublist_of` readyList q /\
      sr.1 = Z.of_nat (length (filter (fun i => serving h i = true) l))).
  { pose proof (ok_ready _ _ _ Hq) as Hr. pose proof (ok_service _ _ _ Hq) as Hs.
    rewrite (filter_split_serving _ _ _ _ _ Hl) in Hr. rewrite (filter_split_serving _ _ _ _ _ Hl) in Hs. destruct (e_inService e) eqn:Es.
    - eexists. split; [done|]. assert (serving h i = true) as Hsi by (unfold serving; by rewrite He).
      rewrite decide_False in Hr by congruence. rewrite decide_True in Hs by done. simpl in *. split_and!; [done..|lia].
    - assert (serving h i = false) as Hsi by (unfold serving; by rewrite He). rewrite decide_True in Hr by done.
      rewrite decide_False in Hs by congruence. destruct (erase_Ok i (readyList q)) as [rl Erl]; [rewrite Hr; set_solver|].
      rewrite Erl. eexists. split; [done|]. simpl. split_and!; [|by eapply erase_sublist|simpl in Hs; lia].
      apply erase_Perm in Erl. rewrite Hr in Erl. symmetry. by apply (Permutation_cons_inv (a := i)). }
  destruct Hsr as (sr & Esr & Hr & Hsub & Hs). unfold deallocate.
  rewrite El, bind_Ok, (deref_Some _ _ _ He), bind_Ok, Esr, bind_Ok, Hd, bind_Ok.
  eexists _, _. split; [done|]. cbn [freeList allocatedList readyList]. split_and!; [|done|done|done|].
  - split; cbn [freeList allocatedList readyList _numInService allocated numEntries]; try apply Hq.
    + rewrite <- (ok_part _ _ _ Hq), Hl. simpl. apply Permutation_middle.
    + intros j Hj. destruct (decide (j = i)) as [->|]; [rewrite lookup_insert_eq; by eexists|]. by apply Ho.
    + intros j Hj. destruct (decide (j = i)) as [->|]; [unfold numTargets; by rewrite lookup_insert_eq|].
      apply elem_of_cons in Hj as [|Hj]; [done|]. apply Ho; [rewrite <- (ok_part _ _ _ Hq); set_solver|done|by apply (ok_idle _ _ _ Hq)].
    + by rewrite <- Hf.
    + by rewrite <- Hf.
    + rewrite (ok_allocated _ _ _ Hq), Hl. simpl. lia.
  - rewrite (ok_allocated _ _ _ Hq), Hl. destruct (drainState q); [naive_solver| |naive_solver].
    rewrite Z.eqb_eq. simpl length. destruct l; simpl; naive_solver lia.
Qed.
End Inv.
