(* ===== verification/Mshr.v ===== *)
(** * Miss status holding registers

    Model of src/gem5/src/mem/cache/mshr.{hh,cc}: the requests that wait for a
    block, the ones that can be served by the request in flight and the deferred
    ones. Packets and registers are objects on a store, since a packet is known to
    several caches and a register marks the registers of the caches above it.
    Printing is left out. *)

From S2P Require Import Prelude Bits Packet CacheQueue.
Import MemCmd (Command).

(** A packet with its stack of sender states, the last one pushed first: [Some k]
    is the register [k], [None] a state of another class. *)
Record pobj := mkP { pk : Packet.t; senderState : list (option Z) }.

(** [findNextSenderState<MSHR>()]. *)
Fixpoint find_mshr (l : list (option Z)) : option Z :=
  match l with
  | [] => None
  | Some k :: _ => Some k
  | None :: l => find_mshr l
  end.
Definition findNextSenderState (p : pobj) : option Z := find_mshr (senderState p).

Module Target.
Inductive Source := FromCPU | FromSnoop | FromPrefetcher.
#[global] Instance Source_eq_dec : EqDecision Source.
Proof. solve_decision. Defined.

Record t := mk {
  recvTime : Z;
  readyTime : Z;
  order : Z;
  pkt : Z;
  source : Source;
  markedPending : bool;
  allocOnFill : bool;
}.
Definition set_marked (b : bool) (x : t) : t := mk (recvTime x) (readyTime x) (order x) (pkt x) (source x) b (allocOnFill x).
Definition set_pkt (p : Z) (x : t) : t := mk (recvTime x) (readyTime x) (order x) p (source x) (markedPending x) (allocOnFill x).
End Target.

Module TargetList.
Import Target (FromCPU, FromSnoop, FromPrefetcher).
Record t := mk {
  items : list Target.t;
  needsWritable : bool;
  hasUpgrade : bool;
  allocOnFill : bool;
  hasFromCache : bool;
  blkAddr : Z;
  blkSize : Z;
  canMergeWrites : bool;
  writesBitmap : list bool;
}.
Definition with_items (l : list Target.t) (x : t) : t :=
  mk l (needsWritable x) (hasUpgrade x) (allocOnFill x) (hasFromCache x) (blkAddr x) (blkSize x) (canMergeWrites x) (writesBitmap x).
Definition with_writes (c : bool) (bm : list bool) (x : t) : t :=
  mk (items x) (needsWritable x) (hasUpgrade x) (allocOnFill x) (hasFromCache x) (blkAddr x) (blkSize x) c bm.
Definition with_flags (nw hu af fc : bool) (x : t) : t :=
  mk (items x) nw hu af fc (blkAddr x) (blkSize x) (canMergeWrites x) (writesBitmap x).

(** The constructor leaves the block and [canMergeWrites] uninitialised. *)
Definition new (a n : Z) (c : bool) : t := mk [] false false false false a n c [].

Definition resetFlags (x : t) : t :=
  with_flags false false false false (with_writes true (replicate (length (writesBitmap x)) false) x).

(** [resize] keeps the first bytes of the map; [resetFlags] then clears them. *)
Definition resize (n : Z) (l : list bool) : list bool :=
  take (Z.to_nat n) l ++ replicate (Z.to_nat n - length l) false.
Definition init (a n : Z) (x : t) : t :=
  resetFlags (mk (items x) (needsWritable x) (hasUpgrade x) (allocOnFill x) (hasFromCache x) a n (canMergeWrites x)
                 (resize n (writesBitmap x))).

Definition isReset (x : t) : bool :=
  negb (needsWritable x) && negb (hasUpgrade x) && negb (allocOnFill x) && negb (hasFromCache x) && canMergeWrites x.
Definition isWholeLineWrite (x : t) : bool := forallb id (writesBitmap x).
Definition empty (x : t) : bool := match items x with [] => true | _ => false end.

Definition no_merge_flags : Z :=
  foldr Z.lor 0 [Request.UNCACHEABLE; Request.STRICT_ORDER; Request.PRIVILEGED; Request.LLSC; Request.MEM_SWAP;
                 Request.MEM_SWAP_COND; Request.SECURE; Request.LOCKED_RMW].

Definition updateWriteFlags (p : Packet.t) (x : t) : result t :=
  if isWholeLineWrite x then Ok x
  else if canMergeWrites x then
    if negb (MemCmd.isWrite (Packet.cmd p)) then Ok (with_writes false (writesBitmap x) x)
    else
      let compat_write := negb (Request.isSet no_merge_flags (Packet.req p)) in
      let masked_write := Packet.isMaskedWrite p in
      let first_write := empty x in
      let! bm := (if negb masked_write && (first_write || compat_write) then
                    let! offset := Packet.getOffset (blkSize x) p in
                    let! n := Packet.getSize p in
                    Packet.mark_loop (Z.to_nat n) offset (writesBitmap x)
                  else Ok (writesBitmap x)) in
      Ok (with_writes (canMergeWrites x && compat_write) bm x)
  else Ok x.

Definition updateFlags (p : Packet.t) (source : Target.Source) (alloc_on_fill : bool) (x : t) : result t :=
  if bool_decide (source = FromSnoop) then Ok x
  else
    let! nw := Packet.needsWritable p in
    let up := MemCmd.isUpgrade (Packet.cmd p) || bool_decide (Packet.cmd p = MemCmd.StoreCondReq) in
    let x := with_flags (needsWritable x || nw) (hasUpgrade x || up) (allocOnFill x || alloc_on_fill) (hasFromCache x) x in
    if bool_decide (source = FromPrefetcher) then Ok x
    else updateWriteFlags p
           (with_flags (needsWritable x) (hasUpgrade x) (allocOnFill x)
              (hasFromCache x || MemCmd.fromCache (Packet.cmd p)) x).

(** Reading a packet. *)
Definition get_pkt (ps : gmap Z pobj) (i : Z) : result pobj :=
  match ps !! i with Some p => Ok p | None => Err Undefined end.

Definition populateFlags (ps : gmap Z pobj) (x : t) : result t :=
  foldM_r (fun x t => let! p := get_pkt ps (Target.pkt t) in
                      updateFlags (pk p) (Target.source t) (Target.allocOnFill t) x) (resetFlags x) (items x).

(** A functional access against the packets of the targets. *)
Fixpoint functional_loop (ps : gmap Z pobj) (p : Packet.t) (l : list Target.t) : result (bool * Packet.t * gmap Z pobj) :=
  match l with
  | [] => Ok (false, p, ps)
  | x :: l =>
      let! o := get_pkt ps (Target.pkt x) in
      let! r := Packet.trySatisfyFunctional_pkt (pk o) p in
      let ps := <[Target.pkt x := mkP r.2 (senderState o)]> ps in
      if r.1.1 : bool then Ok (true, r.1.2, ps) else functional_loop ps r.1.2 l
  end.
Definition trySatisfyFunctional (ps : gmap Z pobj) (p : Packet.t) (x : t) : result (bool * Packet.t * gmap Z pobj) :=
  functional_loop ps p (items x).
End TargetList.

(** [replaceUpgrade(pkt)]; see [Packet.allocate] for [uninit]. *)
Definition replaceUpgrade (uninit : Z -> list Z) (p : Packet.t) : result Packet.t :=
  let has_data := MemCmd.hasData (Packet.cmd p) || Packet.hasRespData p in
  let p := match Packet.cmd p with
           | MemCmd.UpgradeReq => Packet.with_cmd MemCmd.ReadExReq p
           | MemCmd.SCUpgradeReq => Packet.with_cmd MemCmd.SCUpgradeFailReq p
           | MemCmd.StoreCondReq => Packet.with_cmd MemCmd.StoreCondFailReq p
           | _ => p
           end in
  if negb has_data then
    guard! negb (MemCmd.hasData (Packet.cmd p));
    if Packet.hasRespData p then Packet.allocate uninit p else Ok p
  else Ok p.

Module MSHR.
Import Target (FromCPU, FromSnoop, FromPrefetcher).
Record t := mk {
  readyTime : Z;
  _isUncacheable : bool;
  inService : bool;
  order : Z;
  blkAddr : Z;
  blkSize : Z;
  isSecure : bool;
  downstreamPending : bool;
  pendingModified : bool;
  postInvalidate : bool;
  postDowngrade : bool;
  wasWholeLineWrite : bool;
  isForward : bool;
  targets : TargetList.t;
  deferredTargets : TargetList.t;
}.

(** The constructor; the target lists start with what their memory held. *)
Definition new (a n : Z) (c : bool) : t :=
  mk 0 false false 0 0 0 false false false false false false false (TargetList.new a n c) (TargetList.new a n c).

Definition set_targets (l : TargetList.t) (m : t) : t :=
  mk (readyTime m) (_isUncacheable m) (inService m) (order m) (blkAddr m) (blkSize m) (isSecure m) (downstreamPending m)
     (pendingModified m) (postInvalidate m) (postDowngrade m) (wasWholeLineWrite m) (isForward m) l (deferredTargets m).
Definition set_deferred (l : TargetList.t) (m : t) : t :=
  mk (readyTime m) (_isUncacheable m) (inService m) (order m) (blkAddr m) (blkSize m) (isSecure m) (downstreamPending m)
     (pendingModified m) (postInvalidate m) (postDowngrade m) (wasWholeLineWrite m) (isForward m) (targets m) l.
Definition set_pending (b : bool) (m : t) : t :=
  mk (readyTime m) (_isUncacheable m) (inService m) (order m) (blkAddr m) (blkSize m) (isSecure m) b
     (pendingModified m) (postInvalidate m) (postDowngrade m) (wasWholeLineWrite m) (isForward m) (targets m) (deferredTargets m).
Definition set_inService (b : bool) (m : t) : t :=
  mk (readyTime m) (_isUncacheable m) b (order m) (blkAddr m) (blkSize m) (isSecure m) (downstreamPending m)
     (pendingModified m) (postInvalidate m) (postDowngrade m) (wasWholeLineWrite m) (isForward m) (targets m) (deferredTargets m).
Definition set_post (pm pinv pdown : bool) (m : t) : t :=
  mk (readyTime m) (_isUncacheable m) (inService m) (order m) (blkAddr m) (blkSize m) (isSecure m) (downstreamPending m)
     pm pinv pdown (wasWholeLineWrite m) (isForward m) (targets m) (deferredTargets m).
Definition set_whole (b : bool) (m : t) : t :=
  mk (readyTime m) (_isUncacheable m) (inService m) (order m) (blkAddr m) (blkSize m) (isSecure m) (downstreamPending m)
     (pendingModified m) (postInvalidate m) (postDowngrade m) b (isForward m) (targets m) (deferredTargets m).
Definition set_isForward (b : bool) (m : t) : t :=
  mk (readyTime m) (_isUncacheable m) (inService m) (order m) (blkAddr m) (blkSize m) (isSecure m) (downstreamPending m)
     (pendingModified m) (postInvalidate m) (postDowngrade m) (wasWholeLineWrite m) b (targets m) (deferredTargets m).
Definition set_times (rt o : Z) (m : t) : t :=
  mk rt (_isUncacheable m) (inService m) o (blkAddr m) (blkSize m) (isSecure m) (downstreamPending m)
     (pendingModified m) (postInvalidate m) (postDowngrade m) (wasWholeLineWrite m) (isForward m) (targets m) (deferredTargets m).

Definition isWholeLineWrite (m : t) : bool := TargetList.isWholeLineWrite (targets m).
Definition needsWritable (m : t) : bool := TargetList.needsWritable (targets m).
Definition hasTargets (m : t) : bool := negb (TargetList.empty (targets m)).
Definition getNumTargets (m : t) : nat :=
  (length (TargetList.items (targets m)) + length (TargetList.items (deferredTargets m)))%nat.
Definition isPendingModified (m : t) : result bool := guard! inService m; Ok (pendingModified m).
Definition hasPostInvalidate (m : t) : result bool := guard! inService m; Ok (postInvalidate m).
Definition hasPostDowngrade (m : t) : result bool := guard! inService m; Ok (postDowngrade m).

(** [targets.front()]; the list must not be empty. *)
Definition front (l : TargetList.t) : result Target.t :=
  match TargetList.items l with [] => Err Undefined | x :: _ => Ok x end.
Definition getTarget (m : t) : result Target.t := guard! hasTargets m; front (targets m).
Definition popTarget (m : t) : result t :=
  match TargetList.items (targets m) with
  | [] => Err Undefined
  | _ :: l => Ok (set_targets (TargetList.with_items l (targets m)) m)
  end.

Definition deallocate (m : t) : result t :=
  guard! TargetList.empty (targets m);
  let m := set_targets (TargetList.resetFlags (targets m)) m in
  guard! TargetList.isReset (deferredTargets m);
  Ok (set_inService false m).

Definition delay (curTick delay_ticks : Z) (m : t) : result t :=
  guard! readyTime m <=? curTick;
  Ok (set_times (u64 (curTick + delay_ticks)) (order m) m).

Definition matchBlockAddr_pkt (p : Packet.t) (m : t) : result bool :=
  guard! hasTargets m;
  Packet.matchBlockAddr (blkAddr m) (isSecure m) (blkSize m) p.
End MSHR.

#[global] Instance MSHR_entry : QueueEntry MSHR.t := {
  e_readyTime := MSHR.readyTime;
  e_inService := MSHR.inService;
  e_isUncacheable := MSHR._isUncacheable;
  e_order := MSHR.order;
  e_blkAddr := MSHR.blkAddr;
  e_isSecure := MSHR.isSecure;
  e_numTargets := MSHR.getNumTargets;
  e_hasTargets := MSHR.hasTargets;
  e_deallocate := MSHR.deallocate;
}.

#[global] Instance MSHR_entry_laws : QueueEntryLaws MSHR.t.
Proof.
  split.
  - intros m Hm. cbn in *. unfold MSHR.hasTargets, TargetList.empty, MSHR.getNumTargets in *.
    destruct (TargetList.items (MSHR.targets m)); [done|simpl; lia].
  - intros m m' Hm. cbn in *. unfold MSHR.deallocate in Hm. ok_inv. by subst m'.
Qed.
