(* ===== verification/MshrOps.v ===== *)
(** * Operations of the miss status holding registers

    The part of src/gem5/src/mem/cache/mshr.cc that works on several objects: the
    targets of a register, their packets and the registers of the caches above;
    src/gem5/src/mem/cache/mshr_queue.{hh,cc}; and the handling of a response in
    base.cc and cache.cc ([BaseCache]). *)

From S2P Require Import Prelude Bits Packet CacheQueue Mshr.
Import Target (FromCPU, FromSnoop, FromPrefetcher).

(** The packets and the registers of all caches. *)
Record store := mkStore { packets : gmap Z pobj; mshrs : gmap Z MSHR.t }.

Module MSHROps.
Import MSHR TargetList (items, with_items).

Definition get_pkt (st : store) (i : Z) : result pobj := TargetList.get_pkt (packets st) i.
Definition get (st : store) (k : Z) : result MSHR.t := Queue.deref (mshrs st) k.
Definition put (st : store) (k : Z) (m : MSHR.t) : store := mkStore (packets st) (<[k := m]> (mshrs st)).
Definition put_pkt (st : store) (i : Z) (p : Packet.t) : store :=
  match packets st !! i with
  | Some o => mkStore (<[i := mkP p (senderState o)]> (packets st)) (mshrs st)
  | None => st
  end.
Definition upd (f : MSHR.t -> result MSHR.t) (st : store) (k : Z) : result store :=
  let! m := get st k in let! m := f m in Ok (put st k m).

(** The address of a new packet: one that is not in use. *)
Definition newPacket (st : store) : Z := 1 + map_fold (fun i _ a => Z.max i a) 0 (packets st).

(** One of the two target lists of a register. *)
Definition list_of (deferred : bool) (m : MSHR.t) : TargetList.t := if deferred then deferredTargets m else targets m.
Definition set_list (deferred : bool) (l : TargetList.t) (m : MSHR.t) : MSHR.t :=
  if deferred then set_deferred l m else set_targets l m.

(** [TargetList::add] on a list of the register [k]. *)
Definition add (curTick : Z) (k : Z) (deferred : bool) (pkt readyTime order : Z) (source : Target.Source)
    (markPending alloc_on_fill : bool) (st : store) : result store :=
  let! p := get_pkt st pkt in
  let! st := upd (fun m => let! l := TargetList.updateFlags (pk p) source alloc_on_fill (list_of deferred m) in
                           Ok (set_list deferred l m)) st k in
  let! ms := (if markPending then
                match findNextSenderState p with
                | Some u => let! m := get st u in
                    guard! negb (downstreamPending m);
                    Ok (true, put st u (set_pending true m))
                | None => Ok (false, st)
                end
              else Ok (false, st)) in
  let x := Target.mk curTick readyTime order pkt source ms.1 alloc_on_fill in
  upd (fun m => Ok (set_list deferred (with_items (items (list_of deferred m) ++ [x]) (list_of deferred m)) m)) ms.2 k.

(** [TargetList::replaceUpgrades]. *)
Fixpoint replace_loop (uninit : Z -> list Z) (l : list Target.t) (st : store) : result store :=
  match l with
  | [] => Ok st
  | x :: l => let! p := get_pkt st (Target.pkt x) in
      let! p := replaceUpgrade uninit (pk p) in
      replace_loop uninit l (put_pkt st (Target.pkt x) p)
  end.
Definition replaceUpgrades (uninit : Z -> list Z) (k : Z) (deferred : bool) (st : store) : result store :=
  let! m := get st k in
  let l := list_of deferred m in
  if TargetList.hasUpgrade l then
    let! st := replace_loop uninit (items l) st in
    upd (fun m => let l := list_of deferred m in
           Ok (set_list deferred (TargetList.with_flags (TargetList.needsWritable l) false (TargetList.allocOnFill l)
                                    (TargetList.hasFromCache l) l) m)) st k
  else Ok st.

(** [TargetList::clearDownstreamPending(begin, end)], on the targets with the
    indices [js]; [clear] is [MSHR::clearDownstreamPending]. *)
Fixpoint clear_range (clear : Z -> store -> result store) (k : Z) (deferred : bool) (js : list nat) (st : store) : result store :=
  match js with
  | [] => Ok st
  | j :: js =>
      let! m := get st k in
      let! x := match items (list_of deferred m) !! j with Some x => Ok x | None => Err Undefined end in
      let! st := (if Target.markedPending x then
                    let! p := get_pkt st (Target.pkt x) in
                    let! st := match findNextSenderState p with Some u => clear u st | None => Ok st end in
                    upd (fun m => let l := list_of deferred m in
                           Ok (set_list deferred (with_items (alter (Target.set_marked false) j (items l)) l) m)) st k
                  else Ok st) in
      clear_range clear k deferred js st
  end.
Definition all_of (deferred : bool) (m : MSHR.t) : list nat := seq 0 (length (items (list_of deferred m))).

(** [MSHR::clearDownstreamPending] calls itself through the list; every call clears
    the flag of a register that had it set, so that the number of registers bounds
    the depth of the calls. *)
Fixpoint clear_fuel (fuel : nat) (k : Z) (st : store) : result store :=
  match fuel with
  | O => Err OutOfFuel
  | S fuel =>
      let! m := get st k in
      guard! downstreamPending m;
      clear_range (clear_fuel fuel) k false (all_of false m) (put st k (set_pending false m))
  end.
Definition clearDownstreamPending (k : Z) (st : store) : result store := clear_fuel (S (size (mshrs st))) k st.

Definition allocate (curTick : Z) (k : Z) (blk_addr blk_size : Z) (target when_ready _order : Z) (alloc_on_fill : bool)
    (st : store) : result store :=
  let! p := get_pkt st target in
  let! m := get st k in
  let! sec := Packet.isSecure (pk p) in
  let m := MSHR.mk when_ready (Request.isUncacheable (Packet.req (pk p))) false _order blk_addr blk_size sec false
             (pendingModified m) (postInvalidate m) (postDowngrade m) false false
             (TargetList.init blk_addr blk_size (targets m)) (TargetList.init blk_addr blk_size (deferredTargets m)) in
  let source := if bool_decide (Packet.cmd (pk p) = MemCmd.HardPFReq) then FromPrefetcher else FromCPU in
  let! st := add curTick k false target when_ready _order source true alloc_on_fill (put st k m) in
  let! m := get st k in
  let! f := front (targets m) in
  let! fp := get_pkt st (Target.pkt f) in
  let! p := get_pkt st target in
  let! same := Packet.matchBlockAddr_pkt (pk fp) blk_size (pk p) in
  guard! same; Ok st.

Definition markInService (k : Z) (pending_modified_resp : bool) (st : store) : result store :=
  let! m := get st k in
  guard! negb (inService m);
  let m := set_post (TargetList.needsWritable (targets m) || pending_modified_resp) false false (set_inService true m) in
  let st := put st k m in
  let! st := (if negb (downstreamPending m) then clear_range clearDownstreamPending k false (all_of false m) st else Ok st) in
  upd (fun m => Ok (set_whole (isWholeLineWrite m) m)) st k.

(** The test of [allocateTarget]: whether the new target has to wait until after the
    response. *)
Definition must_defer (p tgt_pkt : Packet.t) (m : MSHR.t) : result bool :=
  if Request.isCacheMaintenance (Packet.req p) || Request.isCacheMaintenance (Packet.req tgt_pkt) ||
     negb (TargetList.empty (deferredTargets m)) then Ok true
  else if inService m then
    let! inv := hasPostInvalidate m in
    if inv : bool then Ok true
    else
      let! nw := Packet.needsWritable p in
      if nw : bool then
        let! pm := isPendingModified m in
        if pm : bool then let! down := hasPostDowngrade m in Ok (down || isForward m) else Ok true
      else Ok false
  else Ok false.

Definition allocateTarget (uninit : Z -> list Z) (curTick : Z) (k : Z) (pkt whenReady _order : Z) (alloc_on_fill : bool)
    (st : store) : result store :=
  let! p := get_pkt st pkt in
  guard! negb (bool_decide (Packet.cmd (pk p) = MemCmd.HardPFReq));
  let! m := get st k in
  let! f := front (targets m) in
  let! tgt_pkt := get_pkt st (Target.pkt f) in
  let! d := must_defer (pk p) (pk tgt_pkt) m in
  if d : bool then
    let! inv := (if inService m then hasPostInvalidate m else Ok false) in
    let! st := (if inv : bool then let! p := replaceUpgrade uninit (pk p) in Ok (put_pkt st pkt p) else Ok st) in
    add curTick k true pkt whenReady _order FromCPU true alloc_on_fill st
  else add curTick k false pkt whenReady _order FromCPU (negb (inService m)) alloc_on_fill st.

(** A packet on the store at a new address. *)
Definition alloc_pkt (p : Packet.t) (senders : list (option Z)) (st : store) : Z * store :=
  let i := newPacket st in (i, mkStore (<[i := mkP p senders]> (packets st)) (mshrs st)).

Definition upd_pkt (f : Packet.t -> result Packet.t) (st : store) (i : Z) : result store :=
  let! p := get_pkt st i in let! p := f (pk p) in Ok (put_pkt st i p).

(** The part of [handleSnoop] that saves a copy of the snooped packet as a target. *)
Definition save_snoop (uninit : Z -> list Z) (curTick : Z) (k : Z) (pkt _order : Z) (will_respond : bool) (st : store) : result store :=
  let! p := get_pkt st pkt in
  let! m := get st k in
  let! cp := (if will_respond then let! c := Packet.copy uninit true true (pk p) in Ok (c, senderState p)
              else Ok (Packet.new_blk (Packet.req (pk p)) (Packet.cmd (pk p)) (blkSize m), [])) in
  let '(cp_pkt, st) := alloc_pkt cp.1 cp.2 st in
  let! st := (if will_respond then
                upd_pkt (fun p => let! p := Packet.setCacheResponding p in Packet.setResponderHadWritable p) st pkt
              else if pendingModified m && MemCmd.isClean (Packet.cmd (pk p)) then upd_pkt Packet.setSatisfied st pkt
              else Ok st) in
  let! st := add curTick k false cp_pkt curTick _order FromSnoop
               (downstreamPending m && TargetList.needsWritable (targets m)) false st in
  if MemCmd.needsWritable (Packet.cmd (pk p)) || MemCmd.isInvalidate (Packet.cmd (pk p)) then
    upd (fun m => Ok (set_post (pendingModified m) true (postDowngrade m) m)) st k
  else Ok st.

Definition handleSnoop (uninit : Z -> list Z) (curTick : Z) (k : Z) (pkt _order : Z) (st : store) : result (bool * store) :=
  let! p := get_pkt st pkt in
  let! nw := Packet.needsWritable (pk p) in
  let c := Packet.cmd (pk p) in
  let! _ := check Panic (eqb nw (MemCmd.isInvalidate c) || Request.isCacheMaintenance (Packet.req (pk p))) in
  let! m := get st k in
  if negb (inService m) || (Packet.isExpressSnoop (pk p) && downstreamPending m) then
    let! st := (if nw || Request.isCacheInvalidate (Packet.req (pk p)) then
                  let! st := replaceUpgrades uninit k false st in replaceUpgrades uninit k true st
                else Ok st) in
    Ok (false, st)
  else
    let! st := (if nw || Request.isCacheInvalidate (Packet.req (pk p)) then replaceUpgrades uninit k true st else Ok st) in
    let! f := front (targets m) in
    let! tgt_pkt := get_pkt st (Target.pkt f) in
    let! inv := hasPostInvalidate m in
    if inv || Request.isCacheInvalidate (Packet.req (pk tgt_pkt)) then Ok (true, st)
    else
      let! pm := isPendingModified m in
      let will_respond := pm && MemCmd.needsResponse c && negb (MemCmd.isClean c) in
      let! st := (if pm || MemCmd.isInvalidate c then save_snoop uninit curTick k pkt _order will_respond st else Ok st) in
      let! st := (if negb nw && negb (Request.isUncacheable (Packet.req (pk p))) then
                    let! st := upd (fun m => Ok (set_post (pendingModified m) (postInvalidate m) true m)) st k in
                    upd_pkt (fun p => Ok (Packet.setHasSharers p)) st pkt
                  else Ok st) in
      Ok (will_respond, st).

(** The loop of [extractServiceableTargets] for an invalidating response, after the
    first target: the targets to serve and those that stay. *)
Fixpoint extract_snoops (l : list Target.t) : result (list Target.t * list Target.t) :=
  match l with
  | [] => Ok ([], [])
  | x :: l =>
      if bool_decide (Target.source x = FromCPU) then let! r := extract_snoops l in Ok (r.1, x :: r.2)
      else guard! bool_decide (Target.source x = FromSnoop); let! r := extract_snoops l in Ok (x :: r.1, r.2)
  end.
(** ... and the loop for the other responses. *)
Fixpoint extract_all (ps : gmap Z pobj) (l : list Target.t) : result (list Target.t * list Target.t) :=
  match l with
  | [] => Ok ([], [])
  | x :: l' =>
      let! p := TargetList.get_pkt ps (Target.pkt x) in
      if bool_decide (Packet.cmd (pk p) = MemCmd.LockedRMWReadReq) then Ok ([x], l)
      else let! r := extract_all ps l' in Ok (x :: r.1, r.2)
  end.

Definition extract (ps : gmap Z pobj) (cmd : MemCmd.Command) (l : list Target.t) : result (list Target.t * list Target.t) :=
  if bool_decide (cmd = MemCmd.ReadRespWithInvalidate) then
    match l with
    | [] => Err Undefined
    | x :: l' =>
        guard! bool_decide (Target.source x = FromCPU) || bool_decide (Target.source x = FromPrefetcher);
        let! p := TargetList.get_pkt ps (Target.pkt x) in
        if bool_decide (Packet.cmd (pk p) = MemCmd.LockedRMWReadReq) then Ok ([x], l)
        else let! r := extract_snoops l' in Ok (x :: r.1, r.2)
    end
  else extract_all ps l.

(** [extractServiceableTargets] for a response with the command [cmd]. *)
Definition extractServiceableTargets (k : Z) (cmd : MemCmd.Command) (st : store) : result (TargetList.t * store) :=
  let! m := get st k in
  let ready := TargetList.init (blkAddr m) (blkSize m) (TargetList.new 0 0 false) in
  let! r := extract (packets st) cmd (items (targets m)) in
  let! ready := TargetList.populateFlags (packets st) (with_items r.1 ready) in
  let! l := TargetList.populateFlags (packets st) (with_items r.2 (targets m)) in
  Ok (ready, put st k (set_targets l m)).

(** [std::find_if] and [std::find_if_not] over the targets: the targets before the
    one found, and the rest. *)
Fixpoint split_until (f : Target.t -> result bool) (l : list Target.t) : result (list Target.t * list Target.t) :=
  match l with
  | [] => Ok ([], [])
  | x :: l' => let! b := f x in
      if b : bool then Ok ([], l) else let! r := split_until f l' in Ok (x :: r.1, r.2)
  end.

Definition promoteDeferredTargets (curTick : Z) (k : Z) (st : store) : result (bool * store) :=
  let! m := get st k in
  if TargetList.empty (targets m) && TargetList.empty (deferredTargets m) then Ok (false, st)
  else
    let! s := split_until (fun x => let! p := get_pkt st (Target.pkt x) in Ok (Request.isCacheMaintenance (Packet.req (pk p))))
                (items (deferredTargets m)) in
    let '(moved, rest) :=
      match s with
      | ([], x :: rest) => if TargetList.empty (targets m) then ([x], rest) else ([], x :: rest)
      | _ => s
      end in
    let! dl := TargetList.populateFlags (packets st) (with_items rest (deferredTargets m)) in
    let! tl := TargetList.populateFlags (packets st) (with_items (items (targets m) ++ moved) (targets m)) in
    let! f := front tl in
    Ok (true, put st k (set_times (Z.max curTick (Target.readyTime f)) (Target.order f) (set_deferred dl (set_targets tl m)))).

(** [promoteIf]: the condition also has the assertion of the callers. *)
Definition promoteIf (pred : Packet.t -> result bool) (k : Z) (st : store) : result store :=
  let! m := get st k in
  guard! negb (downstreamPending m);
  let! s := split_until (fun x => guard! bool_decide (Target.source x = FromCPU);
                                  let! p := get_pkt st (Target.pkt x) in let! b := pred (pk p) in Ok (negb b))
              (items (deferredTargets m)) in
  let n := length s.1 in
  let! st := clear_range clearDownstreamPending k true (seq 0 n) st in
  let! m := get st k in
  let l := items (deferredTargets m) in
  let m := set_targets (with_items (items (targets m) ++ take n l) (targets m)) m in
  let! dl := TargetList.populateFlags (packets st) (with_items (drop n l) (deferredTargets m)) in
  Ok (put st k (set_deferred dl m)).

Definition promoteReadable (k : Z) (st : store) : result store :=
  let! m := get st k in
  if TargetList.empty (deferredTargets m) then Ok st
  else
    let! inv := hasPostInvalidate m in
    if inv : bool then Ok st
    else promoteIf (fun p => if Request.isCacheInvalidate (Packet.req p) then Ok false
                             else let! nw := Packet.needsWritable p in Ok (negb nw)) k st.

Definition promoteWritable (k : Z) (st : store) : result store :=
  let! m := get st k in
  if TargetList.empty (deferredTargets m) then Ok st
  else
    let! f := front (deferredTargets m) in
    let! def_tgt_pkt := get_pkt st (Target.pkt f) in
    if TargetList.needsWritable (deferredTargets m) then
      let! inv := hasPostInvalidate m in
      let! down := (if inv : bool then Ok true else hasPostDowngrade m) in
      if negb (inv || down) && negb (Request.isCacheInvalidate (Packet.req (pk def_tgt_pkt))) then
        guard! negb (TargetList.needsWritable (targets m));
        let tl := targets m in
        let st := put st k (set_targets (TargetList.with_flags true (TargetList.hasUpgrade tl) (TargetList.allocOnFill tl)
                                           (TargetList.hasFromCache tl) tl) m) in
        promoteIf (fun p => Ok (negb (Request.isCacheInvalidate (Packet.req p)))) k st
      else Ok st
    else Ok st.

Definition trySatisfyFunctional (k : Z) (p : Packet.t) (st : store) : result (bool * Packet.t * store) :=
  let! m := get st k in
  if MemCmd.isPrint (Packet.cmd p) then
    let! r := Packet.trySatisfyFunctional (blkAddr m) (isSecure m) (blkSize m) None p in Ok (false, r.1.2, st)
  else
    let! r := TargetList.trySatisfyFunctional (packets st) p (targets m) in
    if r.1.1 : bool then Ok (true, r.1.2, mkStore r.2 (mshrs st))
    else let! r := TargetList.trySatisfyFunctional r.2 r.1.2 (deferredTargets m) in
         Ok (r.1.1, r.1.2, mkStore r.2 (mshrs st)).

Definition updateLockedRMWReadTarget (k : Z) (pkt : Z) (st : store) : result store :=
  let! m := get st k in
  match items (targets m) with
  | [] => Err AssertFail
  | x :: l =>
      guard! Target.pkt x =? pkt;
      let! p := get_pkt st pkt in
      let! np := Packet.new (Packet.req (pk p)) MemCmd.LockedRMWReadReq in
      let '(i, st) := alloc_pkt np [] st in
      Ok (put st k (set_targets (with_items (Target.set_pkt i x :: l) (targets m)) m))
  end.

Definition hasLockedRMWReadTarget (k : Z) (st : store) : result bool :=
  let! m := get st k in
  match items (targets m) with
  | [] => Ok false
  | x :: _ => let! p := get_pkt st (Target.pkt x) in Ok (bool_decide (Packet.cmd (pk p) = MemCmd.LockedRMWReadReq))
  end.
End MSHROps.

(** ** The queue of the registers of a cache *)
Module MSHRQueue.
Import Queue MSHROps.

Definition allocate (curTick blk_addr blk_size pkt when_ready order : Z) (alloc_on_fill : bool) (st : store) (q : Queue.t) :
    result (Z * store * Queue.t) :=
  match freeList q with
  | [] => Err AssertFail
  | k :: fl =>
      let! m := get st k in
      guard! bool_decide (MSHR.getNumTargets m = 0%nat);
      let! st := MSHROps.allocate curTick k blk_addr blk_size pkt when_ready order alloc_on_fill st in
      let! rl := addToReadyList (mshrs st) k (readyList q) in
      Ok (k, st, with_lists (allocatedList q ++ [k]) rl fl (_numInService q) (allocated q + 1) q)
  end.

(** The boolean tells whether the drain is signalled. *)
Definition deallocate (k : Z) (st : store) (q : Queue.t) : result (store * Queue.t * bool) :=
  let! r := Queue.deallocate (mshrs st) q k in
  Ok (mkStore (packets st) r.1.1, r.1.2, r.2).

Definition moveToFront (k : Z) (st : store) (q : Queue.t) : result Queue.t :=
  let! m := get st k in
  if negb (MSHR.inService m) then
    let! rl := erase k (readyList q) in
    Ok (with_lists (allocatedList q) (k :: rl) (freeList q) (_numInService q) (allocated q) q)
  else Ok q.

(** The ready list before and from an entry on. *)
Fixpoint list_from (k : Z) (l : list Z) : result (list Z * list Z) :=
  match l with
  | [] => Err Undefined
  | i :: l' => if i =? k then Ok ([], l) else let! r := list_from k l' in Ok (i :: r.1, r.2)
  end.
(** [std::find_if] from the entry on: the position of the first one that is ready no
    later than [time]. *)
Fixpoint find_ready (h : gmap Z MSHR.t) (time : Z) (l : list Z) : result nat :=
  match l with
  | [] => Ok 0%nat
  | i :: l => let! m := deref h i in
      if MSHR.readyTime m <=? time then Ok 0%nat else let! n := find_ready h time l in Ok (S n)
  end.
(** [splice] of the first element of [l] before its element number [n], which is the
    first one itself or a later position. *)
Definition splice (n : nat) (l : list Z) : list Z :=
  match n, l with
  | S n, i :: l => take n l ++ i :: drop n l
  | _, _ => l
  end.
Definition delay (curTick : Z) (k delay_ticks : Z) (st : store) (q : Queue.t) : result (store * Queue.t) :=
  let! st := upd (MSHR.delay curTick delay_ticks) st k in
  let! m := get st k in
  let! s := list_from k (readyList q) in
  let! n := find_ready (mshrs st) (MSHR.readyTime m) s.2 in
  Ok (st, with_lists (allocatedList q) (s.1 ++ splice n s.2) (freeList q) (_numInService q) (allocated q) q).

Definition markInService (k : Z) (pending_modified_resp : bool) (st : store) (q : Queue.t) : result (store * Queue.t) :=
  let! st := MSHROps.markInService k pending_modified_resp st in
  let! rl := erase k (readyList q) in
  Ok (st, with_lists (allocatedList q) rl (freeList q) (_numInService q + 1) (allocated q) q).

Definition markPending (k : Z) (st : store) (q : Queue.t) : result (store * Queue.t) :=
  let! m := get st k in
  guard! MSHR.inService m;
  let st := put st k (MSHR.set_inService false m) in
  let! rl := addToReadyList (mshrs st) k (readyList q) in
  Ok (st, with_lists (allocatedList q) rl (freeList q) (_numInService q - 1) (allocated q) q).

(** The answer, and whether the drain is signalled. *)
Definition forceDeallocateTarget (curTick : Z) (k : Z) (st : store) (q : Queue.t) : result (bool * store * Queue.t * bool) :=
  let was_full := isFull q in
  let! m := get st k in
  guard! MSHR.hasTargets m;
  let! m := MSHR.popTarget m in
  let st := put st k m in
  let! r := (if MSHR.hasTargets m then Ok (st, q, false)
             else let! r := promoteDeferredTargets curTick k st in
                  if r.1 : bool then Ok (r.2, q, false) else deallocate k r.2 q) in
  Ok (was_full && negb (isFull r.1.2), r.1.1, r.1.2, r.2).

Definition havePending (q : Queue.t) : bool := negb (bool_decide (readyList q = [])).
Definition canPrefetch (demandReserve : Z) (q : Queue.t) : bool :=
  allocated q <? numEntries q - (numReserve q + 1 + demandReserve).

(** The loop of [trySatisfyFunctional] of the queue over the allocated entries. *)
Fixpoint functional_loop (p : Packet.t) (l : list Z) (st : store) : result (bool * Packet.t * store) :=
  match l with
  | [] => Ok (false, p, st)
  | k :: l => let! m := get st k in
      let! b := MSHR.matchBlockAddr_pkt p m in
      if b : bool then
        let! r := MSHROps.trySatisfyFunctional k p st in
        if r.1.1 : bool then Ok r else functional_loop r.1.2 l r.2
      else functional_loop p l st
  end.
Definition trySatisfyFunctional (p : Packet.t) (st : store) (q : Queue.t) : result (bool * Packet.t * store) :=
  functional_loop p (allocatedList q) st.
End MSHRQueue.

(** ** Responses

    [BaseCache::recvTimingResp] from the register on, and [Cache::serviceMSHRTargets]:
    what a response does to the register and to the rights of the block, with the
    assertions on the response, the block and the targets. The tags and the data of
    the blocks are not modelled: what they answer is given by [blocks]. The packets
    of the targets that are served leave the model; they are not freed, and their
    data, flags and times as responses are left out, as are the identifiers of the
    requestors. *)
Module BaseCache.
Import Queue MSHROps.
Import Target (FromCPU, FromSnoop, FromPrefetcher).

(** The coherence bits of a block. *)
Record CacheBlk := mkBlk { isValid : bool; ReadableBit : bool; WritableBit : bool; DirtyBit : bool }.
Definition valid (blk : option CacheBlk) : bool := match blk with Some b => isValid b | None => false end.
Definition writable (blk : option CacheBlk) : bool := match blk with Some b => WritableBit b | None => false end.
Definition set_readable (v : bool) (b : CacheBlk) : CacheBlk := mkBlk (isValid b) v (WritableBit b) (DirtyBit b).
Definition set_writable (v : bool) (b : CacheBlk) : CacheBlk := mkBlk (isValid b) (ReadableBit b) v (DirtyBit b).
Definition set_dirty (v : bool) (b : CacheBlk) : CacheBlk := mkBlk (isValid b) (ReadableBit b) (WritableBit b) v.
Definition invalidateBlock (b : CacheBlk) : CacheBlk := mkBlk false false false false.

(** What the tags and the data of the block do for a response: the block that is
    found; the block after the fill, which may allocate; a target that is satisfied
    from the block, with a pending downgrade or not; a snoop, with a pending
    invalidation or not; and the end of the response, with a request from a cache or not. *)
Record blocks := mkBlocks {
  findBlock : option CacheBlk;
  handleFill : bool -> option CacheBlk -> result (option CacheBlk);
  satisfyRequest : Packet.t -> CacheBlk -> bool -> result (Packet.t * CacheBlk);
  handleSnoop : Packet.t -> option CacheBlk -> bool -> result (option CacheBlk);
  maintainClusivity : bool -> option CacheBlk -> option CacheBlk;
}.

Section Response.
(** The cache is read-only; the response and the blocks. *)
Context (isReadOnly : bool) (pkt : Packet.t) (bk : blocks).
Let is_error : bool := MemCmd.isError (Packet.cmd pkt).
Definition is_invalidate (m : MSHR.t) : bool := MemCmd.isInvalidate (Packet.cmd pkt) && negb (MSHR.wasWholeLineWrite m).

(** A target that is answered with the data of the response. *)
Definition answer_from_packet (m : MSHR.t) (tgt_pkt : Packet.t) (blk : option CacheBlk) : result (Packet.t * option CacheBlk) :=
  match Packet.cmd pkt with
  | MemCmd.UpgradeFailResp =>
      guard! bool_decide (Packet.cmd tgt_pkt = MemCmd.StoreCondReq) || bool_decide (Packet.cmd tgt_pkt = MemCmd.StoreCondFailReq) ||
             bool_decide (Packet.cmd tgt_pkt = MemCmd.SCUpgradeFailReq);
      Ok (tgt_pkt, blk)
  | MemCmd.LockedRMWWriteResp => Ok (tgt_pkt, blk)
  | _ =>
      let blk := if is_invalidate m && valid blk then invalidateBlock <$> blk else blk in
      let! _ := (if is_error then Ok tt
                 else if MemCmd.isRead (Packet.cmd pkt) then
                   let! a := Packet.getAddr pkt in
                   let! ta := Packet.getAddr tgt_pkt in
                   let! s := Packet.isSecure pkt in
                   let! ts := Packet.isSecure tgt_pkt in
                   guard! (a =? ta) && eqb s ts;
                   let! n := Packet.getSize pkt in
                   let! tn := Packet.getSize tgt_pkt in
                   guard! tn <=? n; Ok tt
                 else guard! negb (Packet.hasRespData tgt_pkt); Ok tt) in
      let! tgt_pkt := Packet.copyResponderFlags pkt tgt_pkt in
      Ok (tgt_pkt, blk)
  end.

(** One target: the block afterwards, and whether it is a locked read that has been
    satisfied from the block and has to stay. *)
Definition service_target (m : MSHR.t) (source : Target.Source) (tgt_pkt : Packet.t) (blk : option CacheBlk) : result (option CacheBlk * bool) :=
  let cmd := Packet.cmd tgt_pkt in
  match source with
  | FromCPU =>
      if MemCmd.testCmdAttrib MemCmd.IsSWPrefetch cmd then
        let! nw := Packet.needsWritable tgt_pkt in
        if nw : bool then
          match blk with
          | Some b => let! _ := check Panic (negb isReadOnly) in Ok (Some (set_dirty true b), false)
          | None => Err AssertFail
          end
        else Ok (blk, false)
      else
        guard! negb (bool_decide (cmd = MemCmd.WriteLineReq)) || (negb is_error && writable blk);
        let! r := (if valid blk && (negb (MSHR.isForward m) || negb (MemCmd.hasData (Packet.cmd pkt))) then
                     match blk with
                     | Some b =>
                         let! down := MSHR.hasPostDowngrade m in
                         let! s := satisfyRequest bk tgt_pkt b down in
                         let! _ := Packet.getOffset (MSHR.blkSize m) tgt_pkt in
                         guard! negb (Request.isUncacheable (Packet.req tgt_pkt));
                         let lock := bool_decide (cmd = MemCmd.LockedRMWReadReq) in
                         Ok (s.1, Some (if lock then set_readable false (set_writable false s.2) else s.2), lock)
                     | None => Err Undefined
                     end
                   else let! s := answer_from_packet m tgt_pkt blk in Ok (s.1, s.2, false)) in
        let! rsp := Packet.makeResponse r.1.1 in
        let! _ := (if bool_decide (Packet.cmd rsp = MemCmd.ReadResp) && negb (is_invalidate m) then MSHR.hasPostInvalidate m else Ok true) in
        Ok (r.1.2, r.2)
  | FromPrefetcher => guard! bool_decide (cmd = MemCmd.HardPFReq); Ok (blk, false)
  | FromSnoop =>
      guard! negb is_error;
      let! inv := MSHR.hasPostInvalidate m in
      guard! negb (is_invalidate m) || bool_decide (Packet.cmd pkt = MemCmd.InvalidateResp) ||
             Request.isCacheMaintenance (Packet.req pkt) || inv;
      let! blk := handleSnoop bk tgt_pkt blk inv in
      Ok (blk, false)
  end.

Fixpoint service_loop (k : Z) (m : MSHR.t) (ready : list Target.t) (blk : option CacheBlk) (st : store) : result (option CacheBlk * store) :=
  match ready with
  | [] => Ok (blk, st)
  | x :: ready =>
      let! o := get_pkt st (Target.pkt x) in
      let! r := service_target m (Target.source x) (pk o) blk in
      let! st := (if r.2 : bool then updateLockedRMWReadTarget k (Target.pkt x) st else Ok st) in
      service_loop k m ready r.1 st
  end.

(** The rights of the block when all targets have been served. *)
Definition settle (m : MSHR.t) (from_cache : bool) (blk : option CacheBlk) : result (option CacheBlk) :=
  match maintainClusivity bk from_cache blk with
  | Some b =>
      if isValid b then
        let! inv := (if is_invalidate m then Ok true else MSHR.hasPostInvalidate m) in
        if inv : bool then Ok (Some (invalidateBlock b))
        else let! down := MSHR.hasPostDowngrade m in Ok (Some (if down : bool then set_writable false b else b))
      else Ok (Some b)
  | None => Ok None
  end.

Definition serviceMSHRTargets (k : Z) (blk : option CacheBlk) (st : store) : result (TargetList.t * option CacheBlk * store) :=
  let! m := get st k in
  let! initial_tgt := MSHR.getTarget m in
  let! p := get_pkt st (Target.pkt initial_tgt) in
  let! _ := Packet.getOffset (MSHR.blkSize m) (pk p) in
  let! st := (if bool_decide (Packet.cmd pkt = MemCmd.LockedRMWWriteResp) then
                guard! bool_decide (Packet.cmd (pk p) = MemCmd.LockedRMWReadReq);
                upd MSHR.popTarget st k
              else Ok st) in
  let! r := extractServiceableTargets k (Packet.cmd pkt) st in
  let! s := service_loop k m (TargetList.items r.1) blk r.2 in
  let! locked := hasLockedRMWReadTarget k s.2 in
  let! blk := (if locked : bool then Ok s.1 else settle m (TargetList.hasFromCache r.1) s.1) in
  Ok (r.1, blk, s.2).

(** The block after the fill, when there is one. [line_allocate] is the choice of the
    write allocator for a line that is written as a whole, if the cache has one. *)
Definition fill (line_allocate : option bool) (m : MSHR.t) : result (option CacheBlk) :=
  let is_fill := negb (MSHR.isForward m) && (MemCmd.isRead (Packet.cmd pkt) || bool_decide (Packet.cmd pkt = MemCmd.UpgradeResp) || MSHR.wasWholeLineWrite m) in
  guard! negb (MSHR.wasWholeLineWrite m) || MemCmd.isInvalidate (Packet.cmd pkt);
  let! _ := Packet.isSecure pkt in
  if is_fill && negb is_error then
    let allocate := match line_allocate with
                    | Some a => if MSHR.wasWholeLineWrite m then a else TargetList.allocOnFill (MSHR.targets m)
                    | None => TargetList.allocOnFill (MSHR.targets m)
                    end in
    let! b := handleFill bk allocate (findBlock bk) in
    guard! bool_decide (is_Some b); Ok b
  else Ok (findBlock bk).

(** The response to the register [k]. The last component of the result says that the
    register has been deallocated and the cache is drained. *)
Definition recvTimingResp (line_allocate : option bool) (curTick k : Z) (st : store) (q : Queue.t) :
    result (TargetList.t * option CacheBlk * store * Queue.t * bool) :=
  let! m := get st k in
  let! _ := MSHR.getTarget m in
  let! blk := fill line_allocate m in
  let! locked := hasLockedRMWReadTarget k st in
  let readable := negb locked && (valid blk && MemCmd.isClean (Packet.cmd pkt) && negb (MemCmd.isInvalidate (Packet.cmd pkt))) in
  let! st := (if readable then promoteReadable k st else Ok st) in
  let blk := if readable then set_readable true <$> blk else blk in
  let! st := (if negb locked && (writable blk && negb (Request.isCacheInvalidate (Packet.req pkt))) then promoteWritable k st else Ok st) in
  let! r := serviceMSHRTargets k blk st in
  let! locked := hasLockedRMWReadTarget k r.2 in
  if locked : bool then Ok (r.1.1, r.1.2, r.2, q, false)
  else
    let! b := promoteDeferredTargets curTick k r.2 in
    if b.1 : bool then let! s := MSHRQueue.markPending k b.2 q in Ok (r.1.1, set_readable false <$> r.1.2, s.1, s.2, false)
    else let! s := MSHRQueue.deallocate k b.2 q in Ok (r.1.1, r.1.2, s.1.1, s.1.2, s.2).
End Response.
End BaseCache.
