(* ===== verification/MshrLists.v ===== *)
(** * Target lists: the flags say what the targets need

    The flags of a target list are sound: a list with a target that needs a
    writable block says so, and a byte is marked as written only if a target writes
    it. Every way of changing a list keeps this. *)

From S2P Require Import Prelude Bits Packet CacheQueue Mshr.
Import Target (FromCPU, FromSnoop, FromPrefetcher).
Import TargetList.

(** A request for bytes of one block of [n] bytes, which is not a command of the
    transactional memory. *)
Definition req_fits (n : Z) (r : Request.t) : Prop := Request.isHTMCmd r = false /\ exists a s, Request._paddr r = Some a /\ Request._size r = Some s /\
  0 <= a < 2 ^ 64 /\ 0 <= s /\ Z.land a (uw 32 (n - 1)) + s <= n.

(** A packet that a cache can take as a request: it and its request lie in one block. *)
Definition fits (n : Z) (p : Packet.t) : Prop :=
  MemCmd.isRequest (Packet.cmd p) = true /\ Packet.isSet Packet.VALID_ADDR p = true /\ Packet.isSet Packet.VALID_SIZE p = true /\
  0 <= Packet.addr p < 2 ^ 64 /\ 0 <= Packet.size p /\ Z.land (Packet.addr p) (uw 32 (n - 1)) + Packet.size p <= n /\
  req_fits n (Packet.req p).

(** A block is given by its address and its size. The packet and its request lie in
    the block [b]. *)
Definition base (n a : Z) : Z := Z.land a (unot 64 (uw 32 (n - 1))).
Definition inside (b : Z * Z) (p : Packet.t) : Prop :=
  fits b.2 p /\ base b.2 (Packet.addr p) = b.1 /\ forall a, Request._paddr (Packet.req p) = Some a -> base b.2 a = b.1.
Definition lblk (l : TargetList.t) : Z * Z := (blkAddr l, blkSize l).
Definition mblk (m : MSHR.t) : Z * Z := (MSHR.blkAddr m, MSHR.blkSize m).

Lemma inside_getBlockAddr b p : inside b p -> Packet.getBlockAddr b.2 p = Ok b.1.
Proof. intros ((_ & Ha & _) & Hb & _). unfold Packet.getBlockAddr, Packet.getAddr. rewrite Ha. cbn [check rbind]. by rewrite <- Hb. Qed.

(** The byte [b] of the block of [n] bytes is written by the packet. *)
Definition writes (n : Z) (p : Packet.t) (b : Z) : Prop :=
  MemCmd.isWrite (Packet.cmd p) = true /\ Packet.isMaskedWrite p = false /\
  Z.land (Packet.addr p) (uw 32 (n - 1)) <= b < Z.land (Packet.addr p) (uw 32 (n - 1)) + Packet.size p.

(** Packets that are the same to the target lists. *)
Record pkt_like (p p' : Packet.t) : Prop := {
  like_writable : MemCmd.needsWritable (Packet.cmd p') = MemCmd.needsWritable (Packet.cmd p);
  like_write : MemCmd.isWrite (Packet.cmd p') = MemCmd.isWrite (Packet.cmd p);
  like_masked : Packet.isMaskedWrite p' = Packet.isMaskedWrite p;
  like_request : MemCmd.isRequest (Packet.cmd p') = MemCmd.isRequest (Packet.cmd p);
  like_req : Packet.req p' = Packet.req p;
  like_addr : Packet.addr p' = Packet.addr p;
  like_size : Packet.size p' = Packet.size p;
  like_vaddr : Packet.isSet Packet.VALID_ADDR p' = Packet.isSet Packet.VALID_ADDR p;
  like_vsize : Packet.isSet Packet.VALID_SIZE p' = Packet.isSet Packet.VALID_SIZE p;
  like_locked : Packet.cmd p' = MemCmd.LockedRMWReadReq <-> Packet.cmd p = MemCmd.LockedRMWReadReq;
  like_pf : Packet.cmd p' = MemCmd.HardPFReq <-> Packet.cmd p = MemCmd.HardPFReq;
}.

#[global] Instance pkt_like_refl : Reflexive pkt_like.
Proof. intros p. by split. Qed.
#[global] Instance pkt_like_trans : Transitive pkt_like.
Proof. intros p1 p2 p3 [] []. split; first [congruence | tauto]. Qed.

Lemma pkt_like_fits n p p' : pkt_like p p' -> fits n p -> fits n p'.
Proof. intros H (?&?&?&?&?&?&?). unfold fits. rewrite (like_req _ _ H), (like_addr _ _ H), (like_size _ _ H), (like_request _ _ H), (like_vaddr _ _ H), (like_vsize _ _ H). done. Qed.

Lemma pkt_like_inside b p p' : pkt_like p p' -> inside b p -> inside b p'.
Proof.
  intros H (Hf & Ha & Hr). split; [by eapply pkt_like_fits|]. by rewrite (like_addr _ _ H), (like_req _ _ H).
Qed.

Lemma pkt_like_writes n p p' b : pkt_like p p' -> writes n p b -> writes n p' b.
Proof. intros H (?&?&?). unfold writes. rewrite (like_addr _ _ H), (like_size _ _ H), (like_write _ _ H), (like_masked _ _ H). done. Qed.

(** The packet of a target. *)
Definition pkt_of (ps : gmap Z pobj) (x : Target.t) : option Packet.t := pk <$> ps !! Target.pkt x.

Record list_ok (ps : gmap Z pobj) (l : TargetList.t) : Prop := {
  lo_fits : forall x, x ∈ items l -> exists p, pkt_of ps x = Some p /\ inside (lblk l) p;
  lo_writable : forall x p, x ∈ items l -> pkt_of ps x = Some p -> Target.source x <> FromSnoop ->
    MemCmd.needsWritable (Packet.cmd p) = true -> needsWritable l = true;
  lo_bytes : Z.of_nat (length (writesBitmap l)) = blkSize l;
  lo_writes : forall b, writesBitmap l !! b = Some true ->
    exists x p, x ∈ items l /\ pkt_of ps x = Some p /\ Target.source x = FromCPU /\ writes (blkSize l) p (Z.of_nat b);
}.

(** What [updateFlags] does, to a list whose flags may be behind its targets. *)
Record flags_grow (p : Packet.t) (s : Target.Source) (l l' : TargetList.t) : Prop := {
  fg_items : items l' = items l;
  fg_size : blkSize l' = blkSize l;
  fg_addr : blkAddr l' = blkAddr l;
  fg_bytes : length (writesBitmap l') = length (writesBitmap l);
  fg_keep : needsWritable l = true -> needsWritable l' = true;
  fg_writable : s <> FromSnoop -> MemCmd.needsWritable (Packet.cmd p) = true -> needsWritable l' = true;
  fg_writes : forall b, writesBitmap l' !! b = Some true ->
    writesBitmap l !! b = Some true \/ (s = FromCPU /\ writes (blkSize l) p (Z.of_nat b));
}.

Lemma updateWriteFlags_grow p l l' : fits (blkSize l) p -> Z.of_nat (length (writesBitmap l)) = blkSize l ->
  updateWriteFlags p l = Ok l' ->
  exists c bm, l' = with_writes c bm l /\ length bm = length (writesBitmap l) /\
    forall b, bm !! b = Some true -> writesBitmap l !! b = Some true \/ writes (blkSize l) p (Z.of_nat b).
Proof.
  intros (Hr & Ha & Hs & Haddr & Hsz & Hfit & _) Hb Hl. unfold updateWriteFlags in Hl.
  assert (Hid : l = with_writes (canMergeWrites l) (writesBitmap l) l) by by destruct l.
  destruct (isWholeLineWrite l); [injection Hl as <-; eexists _, _; split_and!; [exact Hid|done|auto]|].
  destruct (canMergeWrites l); [|injection Hl as <-; eexists _, _; split_and!; [exact Hid|done|auto]].
  destruct (MemCmd.isWrite (Packet.cmd p)) eqn:Ew; cbn [negb] in Hl; [|injection Hl as <-; eexists _, _; split_and!; [done|done|auto]].
  ok_inv. subst l'. eexists _, _. split; [done|]. clear Hid.
  destruct (negb (Packet.isMaskedWrite p) && _) eqn:Em; [|injection E as <-; split; auto].
  apply andb_prop in Em as [Em _]. apply negb_true_iff in Em.
  unfold Packet.getOffset, Packet.getAddr, Packet.getSize in E. rewrite Ha, Hs in E. cbn [check rbind] in E.
  set (off := Z.land (Packet.addr p) (uw 32 (blkSize l - 1))) in *.
  assert (Hoff : 0 <= off) by (apply Z.land_nonneg; lia).
  rewrite mark_loop_Ok in E by lia. injection E as <-. split.
  - rewrite !length_app, length_take, length_replicate, length_drop. lia.
  - intros b Hbt. destruct (decide (off <= Z.of_nat b < off + Packet.size p)) as [Hin|Hout]; [right; exact (conj Ew (conj Em Hin))|left].
    rewrite <- Hbt. destruct (decide (Z.of_nat b < off)).
    + rewrite lookup_app_l by (rewrite length_take; lia). by rewrite lookup_take_lt by lia.
    + rewrite lookup_app_r by (rewrite length_take; lia). rewrite lookup_app_r by (rewrite length_take, length_replicate; lia).
      rewrite lookup_drop, length_take, length_replicate. f_equal. lia.
Qed.

Lemma updateFlags_grow p s a l l' : fits (blkSize l) p -> Z.of_nat (length (writesBitmap l)) = blkSize l ->
  updateFlags p s a l = Ok l' -> flags_grow p s l l'.
Proof.
  intros Hf Hb Hl. unfold updateFlags in Hl. case_bool_decide as Es; [injection Hl as <-; by split; auto|].
  unfold Packet.needsWritable in Hl. rewrite (proj1 Hf) in Hl. cbn [check rbind] in Hl.
  case_bool_decide as Ep; [injection Hl as <-; split; cbn; auto; intros; by rewrite ?orb_true_iff; auto|].
  apply updateWriteFlags_grow in Hl as (c & bm & -> & Hlen & Hbm); [|done..].
  split; cbn; auto; try (intros; by rewrite ?orb_true_iff; auto).
  intros b Hbt. destruct (Hbm b Hbt); [by left|right]. by destruct s.
Qed.

(** [updateFlags] succeeds on such a packet. *)
Lemma updateFlags_Ok p s a l : fits (blkSize l) p -> Z.of_nat (length (writesBitmap l)) = blkSize l ->
  exists l', updateFlags p s a l = Ok l'.
Proof.
  intros (Hr & Ha & Hs & Haddr & Hsz & Hfit & _) Hb. unfold updateFlags. case_bool_decide; [by eexists|].
  unfold Packet.needsWritable. rewrite Hr. cbn [check rbind]. case_bool_decide; [by eexists|].
  unfold updateWriteFlags. cbn [isWholeLineWrite with_flags writesBitmap canMergeWrites blkSize].
  repeat case_match; try by eexists.
  unfold Packet.getOffset, Packet.getAddr, Packet.getSize. rewrite Ha, Hs. cbn [check rbind].
  rewrite mark_loop_Ok; [by eexists|apply Z.land_nonneg; lia|lia].
Qed.

(** ** Keeping a list sound *)

(** The packets of the targets may change as long as the lists cannot tell. *)
Definition pkts_like (ps ps' : gmap Z pobj) (l : list Target.t) : Prop :=
  forall x p, x ∈ l -> pkt_of ps x = Some p -> exists p', pkt_of ps' x = Some p' /\ pkt_like p p'.

Lemma list_ok_like ps ps' l : list_ok ps l -> pkts_like ps ps' (items l) -> list_ok ps' l.
Proof.
  intros [Hf Hw Hb Hc] Hp. split; [| |done|].
  - intros x Hx. destruct (Hf x Hx) as (p & E & Hfit). destruct (Hp x p Hx E) as (p' & E' & Hl). eauto using pkt_like_inside.
  - intros x p' Hx E' Hs Hn. destruct (Hf x Hx) as (p & E & _). destruct (Hp x p Hx E) as (p2 & E2 & Hl).
    rewrite E' in E2. injection E2 as <-. rewrite (like_writable _ _ Hl) in Hn. by apply (Hw x p).
  - intros b Hbt. destruct (Hc b Hbt) as (x & p & Hx & E & Hs & Hwr). destruct (Hp x p Hx E) as (p' & E' & Hl).
    exists x, p'. split_and!; eauto using pkt_like_writes.
Qed.

(** Other targets with the same packets and sources. *)
Definition same_target (x y : Target.t) : Prop := Target.pkt x = Target.pkt y /\ Target.source x = Target.source y.

Lemma list_ok_items ps l l' : list_ok ps l ->
  (forall y, y ∈ l' -> exists x, x ∈ items l /\ same_target x y) ->
  (forall x p, x ∈ items l -> pkt_of ps x = Some p -> MemCmd.isWrite (Packet.cmd p) = true -> exists y, y ∈ l' /\ same_target x y) ->
  list_ok ps (with_items l' l).
Proof.
  intros [Hf Hw Hb Hc] H1 H2. split; cbn [items blkSize needsWritable writesBitmap with_items].
  - intros y (x & Hx & Ep & _)%H1. unfold pkt_of. rewrite <- Ep. by apply Hf.
  - intros y p (x & Hx & Ep & Es)%H1 E Hs Hn. unfold pkt_of in E. rewrite <- Ep in E. apply (Hw x p); [done|exact E|congruence|done].
  - done.
  - intros b Hbt. destruct (Hc b Hbt) as (x & p & Hx & E & Hs & Hwr). destruct (H2 x p Hx E (proj1 Hwr)) as (y & Hy & Ep & Es).
    exists y, p. unfold pkt_of. rewrite <- Ep, <- Es. by split_and!.
Qed.

(** The flags of a list [l] that speak about the targets [d] and then about [x] too. *)
Lemma list_ok_extend ps d l l' x p : list_ok ps (with_items d l) -> pkt_of ps x = Some p -> inside (lblk l) p ->
  updateFlags p (Target.source x) (Target.allocOnFill x) l = Ok l' -> list_ok ps (with_items (d ++ [x]) l').
Proof.
  intros [Hf Hw Hb Hc] Hx Hp Hl. cbn [items blkSize needsWritable writesBitmap with_items] in *.
  destruct (updateFlags_grow _ _ _ _ _ (proj1 Hp) Hb Hl) as [Gi Gs Ga Gb Gk Gw Gc].
  split; cbn [items blkSize needsWritable writesBitmap with_items]; rewrite ?Gs.
  - assert (lblk (with_items (d ++ [x]) l') = lblk l) as -> by (unfold lblk; cbn; congruence). intros y [Hy| ->%list_elem_of_singleton]%elem_of_app; [by apply Hf|eauto].
  - intros y q [Hy| ->%list_elem_of_singleton]%elem_of_app E Hs Hn; [by apply Gk, (Hw y q)|].
    rewrite Hx in E. injection E as <-. by apply Gw.
  - lia.
  - intros b [Hbt|[Hs Hwr]]%Gc.
    + destruct (Hc b Hbt) as (y & q & Hy & ?). exists y, q. split; [set_solver|done].
    + exists x, p. split_and!; [set_solver|done..].
Qed.

Lemma with_items_id l : with_items (items l) l = l.
Proof. by destruct l. Qed.

Lemma list_ok_append ps l l' x p : list_ok ps l -> pkt_of ps x = Some p -> inside (lblk l) p ->
  updateFlags p (Target.source x) (Target.allocOnFill x) l = Ok l' -> list_ok ps (with_items (items l ++ [x]) l').
Proof. rewrite <- (with_items_id l) at 1. apply list_ok_extend. Qed.

Lemma list_ok_empty ps l : items l = [] -> Z.of_nat (length (writesBitmap l)) = blkSize l -> list_ok ps (resetFlags l).
Proof.
  intros Hi Hb. split; cbn [resetFlags items blkSize needsWritable writesBitmap with_flags with_writes]; rewrite ?Hi.
  - set_solver.
  - set_solver.
  - by rewrite length_replicate.
  - intros b. rewrite lookup_replicate. by intros [? _].
Qed.

Lemma list_ok_init ps a n l : 0 <= n -> items l = [] -> list_ok ps (init a n l).
Proof.
  intros Hn Hi. apply list_ok_empty; [done|]. cbn [writesBitmap blkSize]. unfold resize.
  rewrite length_app, length_take, length_replicate. lia.
Qed.

(** [populateFlags] makes the flags sound, whatever they were. *)
Lemma populate_loop ps todo d l : list_ok ps (with_items d l) -> (forall x, x ∈ todo -> exists p, pkt_of ps x = Some p /\ inside (lblk l) p) ->
  exists l', foldM_r (fun l x => let! p := get_pkt ps (Target.pkt x) in
      updateFlags (pk p) (Target.source x) (Target.allocOnFill x) l) l todo = Ok l' /\
    items l' = items l /\ blkSize l' = blkSize l /\ blkAddr l' = blkAddr l /\ list_ok ps (with_items (d ++ todo) l').
Proof.
  revert d l. induction todo as [|x todo IH]; intros d l Hl Ht; cbn [foldM_r].
  - exists l. rewrite app_nil_r. by split_and!.
  - destruct (Ht x) as (p & Ep & Hp); [set_solver|]. unfold get_pkt. unfold pkt_of in Ep.
    destruct (ps !! Target.pkt x) as [o|] eqn:Eo; [|done]. injection Ep as <-. rewrite bind_Ok.
    destruct (updateFlags_Ok (pk o) (Target.source x) (Target.allocOnFill x) l (proj1 Hp) (lo_bytes _ _ Hl)) as [l1 E1].
    rewrite E1, bind_Ok. pose proof (updateFlags_grow _ _ _ _ _ (proj1 Hp) (lo_bytes _ _ Hl) E1) as [Gi Gs Ga _ _ _ _].
    destruct (IH (d ++ [x]) l1) as (l2 & E2 & Hi & Hs & Ha & Hok).
    + eapply list_ok_extend; [done|unfold pkt_of; by rewrite Eo|done|done].
    + intros y Hy. unfold lblk. rewrite Gs, Ga. apply Ht. set_solver.
    + exists l2. rewrite <- app_assoc in Hok. split_and!; [exact E2|congruence..|exact Hok].
Qed.

(** [populateFlags] succeeds and makes the flags sound, whatever they were. *)
Lemma populateFlags_ok ps l : (forall x, x ∈ items l -> exists p, pkt_of ps x = Some p /\ inside (lblk l) p) ->
  Z.of_nat (length (writesBitmap l)) = blkSize l ->
  exists l', populateFlags ps l = Ok l' /\ items l' = items l /\ blkSize l' = blkSize l /\ blkAddr l' = blkAddr l /\ list_ok ps l'.
Proof.
  intros Hf Hb. destruct (populate_loop ps (items l) [] (resetFlags l)) as (l' & E & Hi & Hs & Ha & Hok).
  - change (list_ok ps (resetFlags (with_items [] l))). by apply list_ok_empty.
  - exact Hf.
  - exists l'. split_and!; [exact E|exact Hi|exact Hs|exact Ha|]. rewrite <- (with_items_id l'), Hi. exact Hok.
Qed.

(** A recomputed flag says that some target needs a writable block. *)
Lemma populate_writable ps todo l l' : foldM_r (fun l x => let! p := get_pkt ps (Target.pkt x) in
    updateFlags (pk p) (Target.source x) (Target.allocOnFill x) l) l todo = Ok l' -> needsWritable l' = true ->
  needsWritable l = true \/ exists x p, x ∈ todo /\ pkt_of ps x = Some p /\ Target.source x <> FromSnoop /\ MemCmd.needsWritable (Packet.cmd p) = true.
Proof.
  revert l. induction todo as [|x todo IH]; intros l H Hn; cbn in H; [injection H as <-; by left|].
  apply bind_Ok_inv in H as (l1 & H1 & H). destruct (IH l1 H Hn) as [Hn1|(y & p & ? & ?)]; [|right; exists y, p; split; [set_solver|done]].
  apply bind_Ok_inv in H1 as (o & Ho & H1). unfold get_pkt in Ho. destruct (ps !! Target.pkt x) as [o'|] eqn:Eo; [injection Ho as ->|done].
  unfold updateFlags in H1. destruct (decide (Target.source x = FromSnoop)) as [Es|Es]; [rewrite bool_decide_true in H1 by done; injection H1 as <-; by left|].
  rewrite bool_decide_false in H1 by done. apply bind_Ok_inv in H1 as (nw & Hnw & H1). unfold Packet.needsWritable in Hnw.
  apply bind_Ok_inv in Hnw as ([] & _ & Hnw). injection Hnw as <-. assert (Hor : needsWritable l1 = needsWritable l || MemCmd.needsWritable (Packet.cmd (pk o))).
  { case_bool_decide; [injection H1 as <-; done|]. unfold updateWriteFlags in H1. destruct (isWholeLineWrite _); [injection H1 as <-; done|].
    destruct (canMergeWrites _); [|injection H1 as <-; done]. destruct (negb _); [injection H1 as <-; done|]. apply bind_Ok_inv in H1 as (bm & _ & H1). by injection H1 as <-. }
  rewrite Hor in Hn1. apply orb_true_iff in Hn1 as [?|?]; [by left|right]. exists x, (pk o). unfold pkt_of. rewrite Eo. split; [set_solver|done].
Qed.

(** The flags of an empty list are those of a reset one. *)
Lemma populateFlags_nil ps l : items l = [] -> populateFlags ps l = Ok (resetFlags l).
Proof. unfold populateFlags. by intros ->. Qed.

(** ** Changes of packets that the lists cannot see *)
Lemma like_set m p : Z.land m (Z.lor Packet.VALID_ADDR Packet.VALID_SIZE) = 0 -> pkt_like p (Packet.set m p).
Proof.
  intros Hm. assert (Hbit : forall v, Z.land m v = 0 -> Packet.isSet v (Packet.set m p) = Packet.isSet v p).
  { intros v Hv. unfold Packet.isSet, Packet.set. cbn [Packet.flags Packet.with_flags]. by rewrite Z.land_lor_distr_l, Hv, Z.lor_0_r. }
  rewrite Z.land_lor_distr_r in Hm. apply Z.lor_eq_0_iff in Hm as [H1 H2].
  split; try done; by apply Hbit.
Qed.

Lemma like_data d bv p : pkt_like p (Packet.with_data d bv p).
Proof. by split. Qed.

Lemma like_allocate uninit p p' : Packet.allocate uninit p = Ok p' -> pkt_like p p'.
Proof.
  unfold Packet.allocate. destruct (_ || _); intros Hp; ok_inv; subst; [|done].
  etransitivity; [apply (like_set Packet.DYNAMIC_DATA); done|apply like_data].
Qed.

Lemma like_cmd c p : MemCmd.needsWritable c = MemCmd.needsWritable (Packet.cmd p) -> MemCmd.isWrite c = MemCmd.isWrite (Packet.cmd p) ->
  MemCmd.isRequest c = MemCmd.isRequest (Packet.cmd p) -> c <> MemCmd.WriteReq -> Packet.cmd p <> MemCmd.WriteReq ->
  c <> MemCmd.LockedRMWReadReq -> Packet.cmd p <> MemCmd.LockedRMWReadReq ->
  c <> MemCmd.HardPFReq -> Packet.cmd p <> MemCmd.HardPFReq -> pkt_like p (Packet.with_cmd c p).
Proof.
  intros. split; try done. unfold Packet.isMaskedWrite. cbn [Packet.cmd Packet.with_cmd]. by rewrite !bool_decide_false.
Qed.

Lemma like_replaceUpgrade uninit p p' : replaceUpgrade uninit p = Ok p' -> pkt_like p p'.
Proof.
  unfold replaceUpgrade.
  set (q := match Packet.cmd p with MemCmd.UpgradeReq => _ | _ => _ end).
  assert (Hq : pkt_like p q) by (subst q; destruct (Packet.cmd p) eqn:E; try done; apply like_cmd; rewrite ?E; done).
  clearbody q. destruct (_ || _); cbn [negb]; intros Hp; ok_inv; [by subst|].
  destruct (Packet.hasRespData q); [|by injection Hp as <-]. apply like_allocate in Hp. by etransitivity.
Qed.
