(* ===== verification/MshrMarks.v ===== *)
(** * Requests that are buffered in a cache below

    A register is marked as pending downstream while the request it sent waits in a
    register below, whose target remembers the mark. The marks are cleared through
    all caches when the request moves on; here: this always ends, and it succeeds
    when every mark that a target remembers is set and remembered once. *)

From S2P Require Import Prelude Bits Packet CacheQueue Mshr MshrOps.
Import MSHR TargetList (items, with_items).
Import MSHROps.

(** ** Termination *)
Definition down (st : store) (u : Z) : bool := match mshrs st !! u with Some m => downstreamPending m | None => false end.
Definition count_down (st : store) : nat := size (filter (fun km => downstreamPending km.2 = true) (mshrs st)).

Lemma mshr_get_Ok st k m : get st k = Ok m <-> mshrs st !! k = Some m.
Proof. unfold get, Queue.deref. destruct (mshrs st !! k); naive_solver. Qed.

Lemma get_not_fuel st k : get st k <> Err OutOfFuel.
Proof. unfold get, Queue.deref. by destruct (mshrs st !! k). Qed.

Lemma get_pkt_Ok st i p : get_pkt st i = Ok p <-> packets st !! i = Some p.
Proof. unfold get_pkt, TargetList.get_pkt. destruct (packets st !! i); naive_solver. Qed.

Lemma count_down_put st k m m' : mshrs st !! k = Some m -> downstreamPending m' = downstreamPending m ->
  count_down (put st k m') = count_down st.
Proof.
  intros Hk Hd. unfold count_down. cbn [mshrs put]. destruct (downstreamPending m) eqn:E.
  - rewrite map_filter_insert_True by done. apply map_size_insert_Some. exists m. by apply map_lookup_filter_Some.
  - rewrite map_filter_insert_False by (cbn; congruence). f_equal. rewrite map_filter_delete. apply delete_id.
    apply map_lookup_filter_None. right. cbn. intros x Hx. rewrite Hk in Hx. injection Hx as <-. congruence.
Qed.

Lemma count_down_clear st k m : mshrs st !! k = Some m -> downstreamPending m = true ->
  S (count_down (put st k (set_pending false m))) = count_down st.
Proof.
  intros Hk Hd. unfold count_down. cbn [mshrs put]. rewrite map_filter_insert_False by (cbn; congruence).
  rewrite map_filter_delete. rewrite (map_size_delete_Some k); [|exists m; by apply map_lookup_filter_Some].
  assert (size (filter (fun km => downstreamPending km.2 = true) (mshrs st)) <> 0%nat); [|lia].
  apply map_size_ne_0_lookup. exists k, m. by apply map_lookup_filter_Some.
Qed.

(** A computation that does not run out of fuel and does not set more marks. *)
Definition ends (st : store) (r : result store) : Prop :=
  match r with Ok st' => (count_down st' <= count_down st)%nat | Err e => e <> OutOfFuel end.

Lemma ends_bind st r f : ends st r -> (forall st', (count_down st' <= count_down st)%nat -> ends st' (f st')) -> ends st (rbind r f).
Proof. destruct r as [st'|e]; cbn; [|done]. intros H1 H2. specialize (H2 st' H1). destruct (f st'); cbn in *; [lia|done]. Qed.

Lemma upd_marks_ends d j st k :
  ends st (upd (fun m => let l := list_of d m in
     Ok (set_list d (with_items (alter (Target.set_marked false) j (items l)) l) m)) st k).
Proof.
  unfold upd. destruct (get st k) as [m|e] eqn:E; cbn [rbind].
  - apply mshr_get_Ok in E. cbn. rewrite (count_down_put _ _ m); [done|done|]. by destruct d.
  - cbn. intros ->. by eapply get_not_fuel.
Qed.

Lemma clear_range_ends fuel clear k d js st : (forall u st, (count_down st < fuel)%nat -> ends st (clear u st)) ->
  (count_down st < fuel)%nat -> ends st (clear_range clear k d js st).
Proof.
  intros Hc. revert st. induction js as [|j js IH]; intros st Hf; cbn [clear_range]; [cbn; lia|].
  destruct (get st k) as [m|e] eqn:E; cbn [rbind]; [|cbn; intros ->; by eapply get_not_fuel].
  destruct (_ !! j) as [x|]; cbn [rbind]; [|done].
  apply ends_bind.
  - destruct (Target.markedPending x); [|cbn; lia].
    destruct (get_pkt st (Target.pkt x)) as [p|e] eqn:Ep; cbn [rbind];
      [|unfold get_pkt, TargetList.get_pkt in Ep; destruct (_ !! _); [done|injection Ep as <-; done]].
    apply ends_bind; [|intros; apply upd_marks_ends]. destruct (findNextSenderState p); [by apply Hc|cbn; lia].
  - intros st' Hle. apply IH. lia.
Qed.

(** Clearing the marks never runs out of the fuel it is given: every call clears the
    mark of a register, so that calls nest no deeper than there are marks. *)
Lemma clear_fuel_ends fuel k st : (count_down st < fuel)%nat -> ends st (clear_fuel fuel k st).
Proof.
  revert k st. induction fuel as [|fuel IH]; intros k st Hf; [lia|]. cbn [clear_fuel].
  destruct (get st k) as [m|e] eqn:E; cbn [rbind]; [|cbn; intros ->; by eapply get_not_fuel].
  apply mshr_get_Ok in E. destruct (downstreamPending m) eqn:Ed; cbn [check rbind]; [|done].
  pose proof (count_down_clear _ _ _ E Ed) as Hc.
  assert (ends (put st k (set_pending false m)) (clear_range (clear_fuel fuel) k false (all_of false m) (put st k (set_pending false m)))) as H.
  { apply (clear_range_ends fuel); [done|lia]. }
  destruct (clear_range _ _ _ _ _); cbn in *; [lia|done].
Qed.

Lemma count_down_size st : (count_down st <= size (mshrs st))%nat.
Proof. unfold count_down. apply map_size_filter. Qed.

Lemma clearDownstreamPending_ends k st : ends st (clearDownstreamPending k st).
Proof. apply clear_fuel_ends. pose proof (count_down_size st). lia. Qed.

(** ** The marks that the targets remember *)
Definition mark_of (ps : gmap Z pobj) (x : Target.t) : option Z :=
  if Target.markedPending x then ps !! Target.pkt x ≫= findNextSenderState else None.
Definition marks_l (ps : gmap Z pobj) (l : list Target.t) : list Z := omap (mark_of ps) l.
Definition marks_m (ps : gmap Z pobj) (m : MSHR.t) : list Z :=
  marks_l ps (items (targets m)) ++ marks_l ps (items (deferredTargets m)).
Definition marks (st : store) : list Z := map_to_list (mshrs st) ≫= fun km => marks_m (packets st) km.2.

(** The marks outside of the register [k]. *)
Definition marks_but (k : Z) (st : store) : list Z := map_to_list (delete k (mshrs st)) ≫= fun km => marks_m (packets st) km.2.

Lemma marks_put st k m : marks (put st k m) ≡ₚ marks_m (packets st) m ++ marks_but k st.
Proof.
  unfold marks, marks_but. cbn [mshrs put packets]. rewrite <- insert_delete_eq.
  rewrite (map_to_list_insert (delete k (mshrs st)) k m) by apply lookup_delete_eq. done.
Qed.

Lemma mshr_put_id st k m : mshrs st !! k = Some m -> put st k m = st.
Proof. intros Hk. unfold put. rewrite insert_id by done. by destruct st. Qed.

Lemma marks_split st k m : mshrs st !! k = Some m -> marks st ≡ₚ marks_m (packets st) m ++ marks_but k st.
Proof. intros Hk. rewrite <- (mshr_put_id st k m) at 1 by done. apply marks_put. Qed.

Lemma elem_of_marks st u : u ∈ marks st <-> exists k m, mshrs st !! k = Some m /\ u ∈ marks_m (packets st) m.
Proof.
  unfold marks. rewrite list_elem_of_bind. split.
  - intros ([k m] & Hu & Hk). exists k, m. by rewrite <- elem_of_map_to_list.
  - intros (k & m & Hk & Hu). exists (k, m). by rewrite elem_of_map_to_list.
Qed.

Lemma marks_but_put k st m : marks_but k (put st k m) = marks_but k st.
Proof. unfold marks_but. cbn [mshrs put packets]. by rewrite delete_insert_eq. Qed.

(** Every mark is remembered once, by the targets of one register. *)
Lemma marks_unique st k k' m m' u : NoDup (marks st) -> mshrs st !! k = Some m -> mshrs st !! k' = Some m' ->
  u ∈ marks_m (packets st) m -> u ∈ marks_m (packets st) m' -> k = k'.
Proof.
  intros Hn Hk Hk' Hu Hu'. destruct (decide (k = k')) as [|Hne]; [done|exfalso].
  rewrite (marks_split _ _ _ Hk) in Hn. apply NoDup_app in Hn as (_ & Hn & _). apply (Hn u Hu).
  unfold marks_but. apply list_elem_of_bind. exists (k', m'). split; [done|].
  apply elem_of_map_to_list. by rewrite lookup_delete_ne.
Qed.

(** ** Clearing the marks *)
Definition lowered (l l' : list Target.t) : Prop := Forall2 (fun x y => y = x \/ y = Target.set_marked false x) l l'.
Definition unmarked (l : list Target.t) : Prop := Forall (fun x => Target.markedPending x = false) l.

(** A register after clearing: only marks have changed. *)
Definition lower_m (m m' : MSHR.t) : Prop := exists b lt ld,
  m' = set_pending b (set_targets (with_items lt (targets m)) (set_deferred (with_items ld (deferredTargets m)) m)) /\
  lowered (items (targets m)) lt /\ lowered (items (deferredTargets m)) ld /\ (b = true -> downstreamPending m = true).

Record lower (st st' : store) : Prop := {
  lw_pkts : packets st' = packets st;
  lw_dom : forall k, is_Some (mshrs st !! k) <-> is_Some (mshrs st' !! k);
  lw_m : forall k m m', mshrs st !! k = Some m -> mshrs st' !! k = Some m' -> lower_m m m';
  lw_settled : forall k m m', mshrs st !! k = Some m -> mshrs st' !! k = Some m' -> downstreamPending m = true ->
    downstreamPending m' = false -> unmarked (items (targets m'));
}.

Lemma lowered_refl l : lowered l l.
Proof. apply Forall_Forall2_diag, Forall_true. auto. Qed.

Lemma lowered_trans l1 l2 l3 : lowered l1 l2 -> lowered l2 l3 -> lowered l1 l3.
Proof.
  intros H. revert l3. induction H as [|x y l l' Hx _ IH]; intros l3 H3; inversion H3 as [|? z ? l4 Hz H4]; subst; constructor; [|by apply IH].
  destruct Hx as [->| ->], Hz as [->| ->]; auto.
Qed.

Lemma lowered_unmarked l l' : lowered l l' -> unmarked l -> unmarked l'.
Proof. induction 1 as [|x y l l' [->| ->]]; inversion 1; constructor; try done; by apply IHForall2. Qed.

Lemma lowered_alter j l : lowered l (alter (Target.set_marked false) j l).
Proof.
  revert j. induction l as [|x l IH]; intros j; [constructor|]. destruct j as [|j].
  - constructor; [by right|apply lowered_refl].
  - constructor; [by left|apply IH].
Qed.

Lemma lower_m_refl m : lower_m m m.
Proof. exists (downstreamPending m), (items (targets m)), (items (deferredTargets m)). split_and!; auto using lowered_refl. by destruct m as [????????????? [] []]. Qed.

Lemma lower_m_trans m1 m2 m3 : lower_m m1 m2 -> lower_m m2 m3 -> lower_m m1 m3.
Proof.
  intros (b & lt & ld & -> & H1 & H2 & H3) (b' & lt' & ld' & -> & H1' & H2' & H3').
  exists b', lt', ld'. cbn in *. split_and!; eauto using lowered_trans.
Qed.

Lemma lower_refl st : lower st st.
Proof.
  split; [done|done| |]; intros k m m' H1 H2; rewrite H1 in H2; injection H2 as <-; [apply lower_m_refl|congruence].
Qed.

Lemma lower_trans st1 st2 st3 : lower st1 st2 -> lower st2 st3 -> lower st1 st3.
Proof.
  intros [P1 D1 M1 S1] [P2 D2 M2 S2]. split; [congruence| | |].
  - intros k. by rewrite D1.
  - intros k m m' Hm Hm'. destruct (proj1 (D1 k)) as [m2 Hm2]; [by eexists|]. eapply lower_m_trans; eauto.
  - intros k m m' Hm Hm' Hd Hd'. destruct (proj1 (D1 k)) as [m2 Hm2]; [by eexists|].
    destruct (downstreamPending m2) eqn:E; [by eapply S2|].
    destruct (M2 k m2 m' Hm2 Hm') as (b & lt & ld & -> & Hl & _). cbn. eapply lowered_unmarked; [exact Hl|by eapply S1].
Qed.

Lemma lower_m_marks ps m m' u : lower_m m m' -> u ∈ marks_m ps m' -> u ∈ marks_m ps m.
Proof.
  assert (H : forall l l', lowered l l' -> u ∈ marks_l ps l' -> u ∈ marks_l ps l).
  { unfold marks_l. intros l l' Hl. rewrite !list_elem_of_omap. intros (y & Hy & E).
    apply list_elem_of_lookup in Hy as [j Hj]. destruct (Forall2_lookup_r _ _ _ _ _ Hl Hj) as (x & Hx & Hxy).
    exists x. split; [by eapply list_elem_of_lookup_2|]. destruct Hxy as [->| ->]; [done|]. unfold mark_of in E. by cbn in E. }
  intros (b & lt & ld & -> & H1 & H2 & _). unfold marks_m. cbn. rewrite !elem_of_app. naive_solver.
Qed.

(** The state in the middle of clearing: the marks [ex] have been cleared already but
    are still remembered, by registers [stk] whose clearing has begun. *)
Record partial (ex stk : list Z) (st : store) : Prop := {
  pa_nodup : NoDup (marks st);
  pa_down : forall u, u ∈ marks st -> u ∉ ex -> down st u = true;
  pa_ex : forall u, u ∈ ex -> exists k m, k ∈ stk /\ mshrs st !! k = Some m /\ u ∈ marks_m (packets st) m;
  pa_stk : forall k, k ∈ stk -> down st k = false;
  pa_pkts : forall k m x, mshrs st !! k = Some m -> x ∈ items (targets m) ++ items (deferredTargets m) -> is_Some (packets st !! Target.pkt x);
}.

Lemma down_put st k m u : down (put st k m) u = if decide (u = k) then downstreamPending m else down st u.
Proof.
  unfold down. cbn [mshrs put]. case_decide as E; [subst; by rewrite lookup_insert_eq|by rewrite lookup_insert_ne by done].
Qed.

Lemma lower_down st st' u : lower st st' -> down st' u = true -> down st u = true.
Proof.
  intros [_ D M _]. unfold down. destruct (mshrs st' !! u) as [m'|] eqn:E'; [|done].
  destruct (proj2 (D u)) as [m E]; [by eexists|]. rewrite E. destruct (M u m m' E E') as (b & lt & ld & -> & _ & _ & Hb). exact Hb.
Qed.

(** A mark found in the middle of clearing is set. *)
Lemma partial_mark ex stk st k m u : partial ex stk st -> mshrs st !! k = Some m -> k ∉ stk -> u ∈ marks_m (packets st) m ->
  down st u = true /\ u ∉ ex.
Proof.
  intros [Hn Hd He _ _] Hk Hs Hu. assert (u ∉ ex).
  { intros Hx. destruct (He u Hx) as (w & mw & Hw & Hmw & Huw). apply Hs. by rewrite (marks_unique _ _ _ _ _ _ Hn Hk Hmw Hu Huw). }
  split; [|done]. apply Hd; [|done]. apply elem_of_marks. by eexists _, _.
Qed.

(** The register [u], whose mark is remembered by [k], gets unmarked. *)
Lemma partial_enter ex stk st k m u mu : partial ex stk st -> mshrs st !! k = Some m -> k ∉ stk -> down st k = false ->
  u ∈ marks_m (packets st) m -> mshrs st !! u = Some mu -> u <> k /\ (u ∉ stk) /\
  partial (u :: ex) (k :: stk) (put st u (set_pending false mu)).
Proof.
  intros Hp Hk Hs Hdk Hu Hmu. destruct (partial_mark _ _ _ _ _ _ Hp Hk Hs Hu) as [Hdu Hex].
  assert (Huk : u <> k) by congruence. assert (Hus : u ∉ stk) by (intros Hx; rewrite (pa_stk _ _ _ Hp u Hx) in Hdu; done).
  split_and!; [done..|]. pose proof Hp as [Hn Hd He Ht Hpk].
  assert (Hm : marks (put st u (set_pending false mu)) ≡ₚ marks st) by (rewrite marks_put, (marks_split _ _ _ Hmu); done).
  split.
  - by rewrite Hm.
  - intros v Hv Hve. rewrite Hm in Hv. rewrite down_put, decide_False by set_solver. apply Hd; set_solver.
  - cbn [mshrs put packets]. intros v [->|Hv]%elem_of_cons.
    + exists k, m. rewrite lookup_insert_ne by done. split; [set_solver|done].
    + destruct (He v Hv) as (w & mw & Hw & Hmw & Hvw). exists w, mw. rewrite lookup_insert_ne by (intros ->; done). split; [set_solver|done].
  - intros w [->|Hw]%elem_of_cons; rewrite down_put; case_decide; auto.
  - cbn [mshrs put packets]. intros w mw x Hw Hx. destruct (decide (w = u)) as [->|].
    + rewrite lookup_insert_eq in Hw. injection Hw as <-. by apply (Hpk u mu).
    + rewrite lookup_insert_ne in Hw by done. by apply (Hpk w mw).
Qed.

Lemma marks_l_cons ps x l : marks_l ps (x :: l) = option_list (mark_of ps x) ++ marks_l ps l.
Proof. unfold marks_l. cbn. by destruct (mark_of ps x). Qed.

(** The marks of one list, with the mark of one target taken away. *)
Lemma marks_l_alter ps l j x : l !! j = Some x ->
  marks_l ps l ≡ₚ option_list (mark_of ps x) ++ marks_l ps (alter (Target.set_marked false) j l).
Proof.
  revert j. induction l as [|y l IH]; intros [|j] Hj; [done..| |].
  - injection Hj as ->. change (alter _ 0%nat (x :: l)) with (Target.set_marked false x :: l). by rewrite !marks_l_cons.
  - change (alter _ (S j) (y :: l)) with (y :: alter (Target.set_marked false) j l). rewrite !marks_l_cons, (IH j Hj), !app_assoc.
    by rewrite (Permutation_app_comm (option_list (mark_of ps y))).
Qed.

Definition unmark (d : bool) (j : nat) (m : MSHR.t) : MSHR.t :=
  set_list d (with_items (alter (Target.set_marked false) j (items (list_of d m))) (list_of d m)) m.

Lemma marks_m_unmark ps d j m x : items (list_of d m) !! j = Some x -> marks_m ps m ≡ₚ option_list (mark_of ps x) ++ marks_m ps (unmark d j m).
Proof.
  intros Hx. unfold marks_m, unmark. destruct d; cbn in *; rewrite (marks_l_alter _ _ _ _ Hx); [|by rewrite app_assoc].
  rewrite !app_assoc. by rewrite (Permutation_app_comm (option_list _)).
Qed.

Lemma lower_m_unmark d j m : lower_m m (unmark d j m).
Proof.
  destruct d.
  - exists (downstreamPending m), (items (targets m)), (alter (Target.set_marked false) j (items (deferredTargets m))).
    split_and!; auto using lowered_refl, lowered_alter. by destruct m as [????????????? [] []].
  - exists (downstreamPending m), (alter (Target.set_marked false) j (items (targets m))), (items (deferredTargets m)).
    split_and!; auto using lowered_refl, lowered_alter. by destruct m as [????????????? [] []].
Qed.

Lemma lower_put st k m m' : mshrs st !! k = Some m -> lower_m m m' -> downstreamPending m' = downstreamPending m -> lower st (put st k m').
Proof.
  intros Hk Hm Hd. split; [done| | |]; cbn [mshrs put].
  - intros i. destruct (decide (i = k)) as [->|]; [rewrite lookup_insert_eq; naive_solver|by rewrite lookup_insert_ne by done].
  - intros i m1 m2 H1. destruct (decide (i = k)) as [->|]; [rewrite lookup_insert_eq; naive_solver|].
    rewrite lookup_insert_ne by done. intros H2. rewrite H1 in H2. injection H2 as <-. apply lower_m_refl.
  - intros i m1 m2 H1. destruct (decide (i = k)) as [->|]; [rewrite lookup_insert_eq; naive_solver congruence|].
    rewrite lookup_insert_ne by done. congruence.
Qed.

(** What [clear] has to do for a mark that the register [k] remembers. *)
Definition clears (fuel : nat) (clear : Z -> store -> result store) : Prop := forall ex stk st k m u,
  partial ex stk st -> mshrs st !! k = Some m -> k ∉ stk -> down st k = false -> u ∈ marks_m (packets st) m ->
  (count_down st < fuel)%nat ->
  exists st', clear u st = Ok st' /\ lower st st' /\ partial (u :: ex) (k :: stk) st' /\
    (forall w, down st w = false -> mshrs st' !! w = mshrs st !! w).

Lemma lower_lookup st st' k m : lower st st' -> mshrs st !! k = Some m -> exists m', mshrs st' !! k = Some m' /\ lower_m m m'.
Proof. intros L Hk. destruct (proj1 (lw_dom _ _ L k)) as [m' Hm']; [by eexists|]. exists m'. split; [done|]. by eapply lw_m. Qed.

Lemma lower_count st st' : lower st st' -> (count_down st' <= count_down st)%nat.
Proof.
  intros L. unfold count_down. rewrite <- !(size_dom (D := gset Z)).
  apply subseteq_size. intros k. rewrite !elem_of_dom. intros [m' Hm']. apply map_lookup_filter_Some in Hm' as [Hm' Hd]. cbn in Hd.
  destruct (proj2 (lw_dom _ _ L k)) as [m Hm]; [by eexists|]. exists m. apply map_lookup_filter_Some. split; [done|]. cbn.
  destruct (lw_m _ _ L _ _ _ Hm Hm') as (b & lt & ld & -> & _ & _ & Hb). by apply Hb.
Qed.

Lemma lower_m_length m m' d : lower_m m m' -> length (items (list_of d m')) = length (items (list_of d m)).
Proof. intros (b & lt & ld & -> & H1 & H2 & _). symmetry. destruct d; [exact (Forall2_length _ _ _ H2)|exact (Forall2_length _ _ _ H1)]. Qed.

Lemma lower_m_pkts m m' y : lower_m m m' -> y ∈ items (targets m') ++ items (deferredTargets m') ->
  exists x, x ∈ items (targets m) ++ items (deferredTargets m) /\ Target.pkt x = Target.pkt y.
Proof.
  assert (H : forall l l', lowered l l' -> y ∈ l' -> exists x, x ∈ l /\ Target.pkt x = Target.pkt y).
  { intros l l' Hl [i Hi]%list_elem_of_lookup. destruct (Forall2_lookup_r _ _ _ _ _ Hl Hi) as (x & Hx & Hxy).
    exists x. split; [by eapply list_elem_of_lookup_2|by destruct Hxy as [->| ->]]. }
  intros (b & lt & ld & -> & H1 & H2 & _). cbn. rewrite elem_of_app.
  intros [Hy|Hy]; [destruct (H _ _ H1 Hy) as (x & Hx & ?)|destruct (H _ _ H2 Hy) as (x & Hx & ?)]; exists x; rewrite elem_of_app; auto.
Qed.

(** A target forgets its mark, which has been cleared if it named a register. *)
Lemma partial_forget ex stk ex' stk' st k m d j x : partial ex' stk' st -> mshrs st !! k = Some m -> k ∉ stk -> down st k = false ->
  items (list_of d m) !! j = Some x -> ex' = option_list (mark_of (packets st) x) ++ ex ->
  (forall u, u ∈ ex -> exists w mw, w ∈ stk /\ mshrs st !! w = Some mw /\ u ∈ marks_m (packets st) mw) ->
  (forall w, w ∈ stk -> down st w = false) ->
  partial ex stk (put st k (unmark d j m)).
Proof.
  intros Hp Hk Hs Hdk Hx -> He Ht. pose proof Hp as [Hn Hd _ _ Hpk].
  pose proof (marks_split _ _ _ Hk) as Hm. rewrite (marks_m_unmark _ d j _ x Hx) in Hm.
  rewrite <- app_assoc, <- (marks_put st k (unmark d j m)) in Hm.
  rewrite Hm in Hn. apply NoDup_app in Hn as (_ & Hun & Hn). split.
  - done.
  - intros v Hv Hve. rewrite down_put. assert (Hdv : down st v = true).
    { apply Hd; [rewrite Hm; set_solver|]. rewrite elem_of_app. intros [Hvx|]; [by apply (Hun v)|done]. }
    case_decide as E; [|done]. subst v. congruence.
  - intros v Hv. destruct (He v Hv) as (w & mw & Hw & Hmw & Hvw). exists w, mw. split; [done|].
    cbn [mshrs put packets]. rewrite lookup_insert_ne by (intros ->; done). done.
  - intros w Hw. rewrite down_put. case_decide as E; [subst; done|]. by apply Ht.
  - cbn [mshrs put packets]. intros w mw y Hw Hy. destruct (decide (w = k)) as [->|].
    + rewrite lookup_insert_eq in Hw. injection Hw as <-. destruct (lower_m_pkts _ _ y (lower_m_unmark d j m) Hy) as (z & Hz & <-).
      by apply (Hpk k m).
    + rewrite lookup_insert_ne in Hw by done. by apply (Hpk w mw).
Qed.

Lemma get_pkt_Some st i p : packets st !! i = Some p -> get_pkt st i = Ok p.
Proof. apply get_pkt_Ok. Qed.
Lemma get_Some st k m : mshrs st !! k = Some m -> get st k = Ok m.
Proof. apply mshr_get_Ok. Qed.

Lemma mark_of_marks ps m d x : x ∈ items (list_of d m) -> forall u, mark_of ps x = Some u -> u ∈ marks_m ps m.
Proof.
  intros Hx u Hu. unfold marks_m, marks_l. rewrite elem_of_app, !list_elem_of_omap. destruct d; [right|left]; by exists x.
Qed.

(** One round of [clear_range]: afterwards the target is unmarked. *)
Lemma clear_round fuel clear ex stk st k m d j x : clears fuel clear -> partial ex stk st -> mshrs st !! k = Some m -> k ∉ stk ->
  down st k = false -> items (list_of d m) !! j = Some x -> (count_down st < fuel)%nat ->
  exists st' m', (if Target.markedPending x then
      let! p := get_pkt st (Target.pkt x) in
      let! st := match findNextSenderState p with Some u => clear u st | None => Ok st end in
      upd (fun m => Ok (unmark d j m)) st k else Ok st) = Ok st' /\
    lower st st' /\ partial ex stk st' /\ mshrs st' !! k = Some m' /\ (m' = m \/ m' = unmark d j m) /\
    (forall w, w <> k -> down st w = false -> mshrs st' !! w = mshrs st !! w) /\
    forall y, items (list_of d m') !! j = Some y -> Target.markedPending y = false.
Proof.
  intros Hc Hp Hk Hs Hd Hx Hf. assert (Hxi : x ∈ items (list_of d m)) by by eapply list_elem_of_lookup_2.
  destruct (Target.markedPending x) eqn:Em.
  2: { exists st, m. split_and!; [done|apply lower_refl|done|done|by left|done|]. intros y Hy. rewrite Hx in Hy. injection Hy as <-. done. }
  destruct (pa_pkts _ _ _ Hp k m x Hk) as [p Hpk]; [destruct d; cbn in Hxi; set_solver|].
  rewrite (get_pkt_Some _ _ _ Hpk), bind_Ok.
  assert (Hmk : mark_of (packets st) x = findNextSenderState p) by (unfold mark_of; by rewrite Em, Hpk).
  assert (Hcall : exists st1, match findNextSenderState p with Some u => clear u st | None => Ok st end = Ok st1 /\ lower st st1 /\
    partial (option_list (mark_of (packets st) x) ++ ex) (k :: stk) st1 /\ (forall w, down st w = false -> mshrs st1 !! w = mshrs st !! w)).
  { rewrite Hmk. destruct (findNextSenderState p) as [u|] eqn:Eu; cbn [option_list app].
    - apply (Hc ex stk st k m u); try done. by eapply mark_of_marks.
    - exists st. split_and!; [done|apply lower_refl| |done]. destruct Hp as [Hn Hd' He Ht Hpp]. split; try done.
      + intros v Hv. destruct (He v Hv) as (w & mw & ? & ?). exists w, mw. split; [set_solver|done].
      + intros w [->|Hw]%elem_of_cons; auto. }
  destruct Hcall as (st1 & -> & L1 & P1 & K1). rewrite bind_Ok. unfold upd.
  assert (H1 : mshrs st1 !! k = Some m) by by rewrite K1. rewrite (get_Some _ _ _ H1), !bind_Ok.
  exists (put st1 k (unmark d j m)), (unmark d j m). split_and!; [done| | |cbn; by rewrite lookup_insert_eq|by right| |].
  - eapply lower_trans; [exact L1|]. apply (lower_put _ _ m); [done|apply lower_m_unmark|by destruct d].
  - eapply (partial_forget ex stk); [exact P1|done|done|apply (pa_stk _ _ _ P1); set_solver|exact Hx|by rewrite (lw_pkts _ _ L1)| |].
    + intros v Hv. destruct (pa_ex _ _ _ Hp v Hv) as (w & mw & Hw & Hmw & Hvw). exists w, mw. rewrite (lw_pkts _ _ L1).
      split; [done|]. split; [|done]. rewrite K1; [done|]. by apply (pa_stk _ _ _ Hp).
    + intros w Hw. apply (pa_stk _ _ _ P1). set_solver.
  - intros w Hw Hdw. cbn [mshrs put]. rewrite lookup_insert_ne by done. by apply K1.
  - intros y Hy. assert (Hy' : alter (Target.set_marked false) j (items (list_of d m)) !! j = Some y) by (by destruct d).
    rewrite list_lookup_alter_eq in Hy'. destruct (items (list_of d m) !! j); [|done]. by injection Hy' as <-.
Qed.

Lemma lower_m_unmarked m m' d j : lower_m m m' ->
  (forall y, items (list_of d m) !! j = Some y -> Target.markedPending y = false) ->
  forall y, items (list_of d m') !! j = Some y -> Target.markedPending y = false.
Proof.
  assert (H : forall l l', lowered l l' -> (forall y, l !! j = Some y -> Target.markedPending y = false) ->
    forall y, l' !! j = Some y -> Target.markedPending y = false).
  { intros l l' Hl H y Hy. destruct (Forall2_lookup_r _ _ _ _ _ Hl Hy) as (x & Hx & [->| ->]); [by apply H|done]. }
  intros (b & lt & ld & -> & H1 & H2 & _). destruct d; [apply (H _ _ H2)|apply (H _ _ H1)].
Qed.

Lemma clear_range_ok fuel clear k d js : clears fuel clear -> forall ex stk st m, partial ex stk st -> mshrs st !! k = Some m -> k ∉ stk ->
  down st k = false -> Forall (fun j => (j < length (items (list_of d m)))%nat) js -> (count_down st < fuel)%nat ->
  exists st' m', clear_range clear k d js st = Ok st' /\ lower st st' /\ partial ex stk st' /\ mshrs st' !! k = Some m' /\
    (forall w, w <> k -> down st w = false -> mshrs st' !! w = mshrs st !! w) /\
    forall j y, j ∈ js -> items (list_of d m') !! j = Some y -> Target.markedPending y = false.
Proof.
  intros Hc. induction js as [|j js IH]; intros ex stk st m Hp Hk Hs Hd Hj Hf; cbn [clear_range].
  - exists st, m. split_and!; [done|apply lower_refl|done|done|done|set_solver].
  - apply Forall_cons in Hj as [Hj Hjs]. rewrite (get_Some _ _ _ Hk), bind_Ok.
    destruct (lookup_lt_is_Some_2 _ _ Hj) as [x Hx]. rewrite Hx, bind_Ok.
    destruct (clear_round fuel clear ex stk st k m d j x) as (st1 & m1 & E1 & L1 & P1 & H1 & _ & K1 & U1); [done..|].
    unfold unmark in E1. rewrite E1, bind_Ok.
    pose proof (lw_m _ _ L1 _ _ _ Hk H1) as M1.
    assert (Hd1 : down st1 k = false) by (destruct (down st1 k) eqn:E; [by rewrite (lower_down _ _ _ L1 E) in Hd|done]).
    destruct (IH ex stk st1 m1) as (st2 & m2 & E2 & L2 & P2 & H2 & K2 & U2); [done..| | |].
    + by rewrite (lower_m_length _ _ _ M1).
    + pose proof (lower_count _ _ L1). lia.
    + exists st2, m2. split_and!; [exact E2|by eapply lower_trans|done|done| |].
      * intros w Hw Hdw. rewrite K2; [by apply K1|done|]. unfold down. rewrite K1 by done. exact Hdw.
      * intros i y [->|Hi]%elem_of_cons; [|by apply U2]. apply (lower_m_unmarked m1); [by eapply lw_m|done].
Qed.

(** Clearing the mark of a register succeeds, and clears the marks it passes on. *)
Lemma clear_fuel_clears fuel : clears fuel (clear_fuel fuel).
Proof.
  induction fuel as [|fuel IH]; intros ex stk st k m u Hp Hk Hs Hd Hu Hf; [lia|]. cbn [clear_fuel].
  destruct (partial_mark _ _ _ _ _ _ Hp Hk Hs Hu) as [Hdu _]. pose proof Hdu as Hdu'. unfold down in Hdu'.
  destruct (mshrs st !! u) as [mu|] eqn:Emu; [|done]. rewrite (get_Some _ _ _ Emu), bind_Ok, Hdu'. cbn [check rbind].
  destruct (partial_enter _ _ _ _ _ _ _ Hp Hk Hs Hd Hu Emu) as (Huk & Hus & Hp1).
  set (st1 := put st u (set_pending false mu)) in *. pose proof (count_down_clear _ _ _ Emu Hdu') as Hcd. fold st1 in Hcd.
  destruct (clear_range_ok fuel (clear_fuel fuel) u false (all_of false mu) IH (u :: ex) (k :: stk) st1 (set_pending false mu))
    as (st' & mu' & E & L & P & H' & K & U).
  - done.
  - cbn. by rewrite lookup_insert_eq.
  - set_solver.
  - unfold st1. by rewrite down_put, decide_True.
  - apply Forall_forall. intros j Hj. unfold all_of in Hj. apply elem_of_seq in Hj. cbn in *. lia.
  - lia.
  - exists st'. split_and!; [exact E| |exact P|].
    + assert (Lk : forall w, w <> u -> mshrs st1 !! w = mshrs st !! w) by (intros w Hw; cbn; by rewrite lookup_insert_ne).
      destruct L as [Lp Ld Lm Ls]. split; [by rewrite Lp| | |].
      * intros w. rewrite <- Ld. destruct (decide (w = u)) as [->|]; [cbn; rewrite lookup_insert_eq, Emu; naive_solver|by rewrite Lk].
      * intros w m1 m2 H1 H2. destruct (decide (w = u)) as [->|]; [|apply (Lm w); [by rewrite Lk|done]].
        rewrite Emu in H1. injection H1 as <-. destruct (Lm u (set_pending false mu) m2) as (b & lt & ld & -> & L1 & L2 & L3);
          [cbn; by rewrite lookup_insert_eq|done|]. exists b, lt, ld. by split_and!.
      * intros w m1 m2 H1 H2 Hd1 Hd2. destruct (decide (w = u)) as [->|]; [|apply (Ls w m1); [by rewrite Lk|done..]].
        rewrite H' in H2. injection H2 as <-. apply Forall_lookup. intros j y Hy. apply (U j y); [|exact Hy].
        pose proof (Lm u (set_pending false mu) mu' ltac:(cbn; by rewrite lookup_insert_eq) H') as M1.
        apply elem_of_seq. pose proof (lower_m_length _ _ false M1) as Hlen. cbn in Hlen. apply lookup_lt_Some in Hy. cbn. lia.
    + intros w Hw. assert (w <> u) by congruence. rewrite K; [cbn; by rewrite lookup_insert_ne|done|].
      unfold st1. by rewrite down_put, decide_False.
Qed.
