(* ===== verification/MshrInv.v ===== *)
(** * The invariant of the miss status holding registers

    What holds of the registers in use and of the marks between them, and that the
    steps out of which the operations are made keep it. *)

From S2P Require Import Prelude Bits Packet CacheQueue Mshr MshrOps MshrLists MshrMarks.
Import Target (FromCPU, FromSnoop, FromPrefetcher).
Import MSHR TargetList (items, with_items).
Import MSHROps.

(** The flags of both target lists are sound. *)
Record mshr_core (ps : gmap Z pobj) (m : MSHR.t) : Prop := {
  mo_targets : list_ok ps (targets m);
  mo_deferred : list_ok ps (deferredTargets m);
  mo_size : lblk (targets m) = mblk m;
  mo_dsize : lblk (deferredTargets m) = mblk m;
  mo_cpu : Forall (fun x => Target.source x = FromCPU) (items (deferredTargets m));
  mo_blk : 0 < blkSize m < 2 ^ 32;
  mo_locked : forall x p, x ∈ items (targets m) -> pkt_of ps x = Some p -> Packet.cmd p = MemCmd.LockedRMWReadReq -> Target.source x <> FromSnoop;
  mo_reset : items (deferredTargets m) = [] -> TargetList.isReset (deferredTargets m) = true;
}.

(** Snoops wait behind a request, and only while that is being served; a prefetch
    comes first; what is sent
    and no longer buffered below remembers no marks. *)
Record mshr_ok (ps : gmap Z pobj) (m : MSHR.t) : Prop := {
  mo_core : mshr_core ps m;
  mo_front : exists x l, items (targets m) = x :: l /\ Target.source x <> FromSnoop /\ Forall (fun y => Target.source y <> FromPrefetcher) l;
  mo_waiting : inService m = false -> Forall (fun x => Target.source x <> FromSnoop) (items (targets m));
  mo_settled : inService m = true -> downstreamPending m = false -> unmarked (items (targets m));
}.

(** The registers [A] are in use; the others have no targets. *)
Record store_ok (A : gset Z) (st : store) : Prop := {
  so_dom : forall k, k ∈ A -> is_Some (mshrs st !! k);
  so_mshr : forall k m, k ∈ A -> mshrs st !! k = Some m -> mshr_ok (packets st) m;
  so_free : forall k m, k ∉ A -> mshrs st !! k = Some m -> getNumTargets m = 0%nat;
  so_marks : partial [] [] st;
  so_marked : forall u, u ∈ marks st -> u ∈ A;
}.

(** The packets of the targets are there. *)
Lemma core_pkts ps m x : mshr_core ps m -> x ∈ items (targets m) ++ items (deferredTargets m) -> is_Some (ps !! Target.pkt x).
Proof.
  intros [HT HD _ _ _ _ _ _] Hx. apply elem_of_app in Hx as [Hx|Hx];
    [destruct (lo_fits _ _ HT x Hx) as (p & Ep & _)|destruct (lo_fits _ _ HD x Hx) as (p & Ep & _)];
    unfold pkt_of in Ep; destruct (ps !! Target.pkt x); [by eexists|done|by eexists|done].
Qed.

(** ** Changes of one register *)
Lemma marks_put_sub st k m m' : mshrs st !! k = Some m -> marks_m (packets st) m' ⊆+ marks_m (packets st) m -> marks (put st k m') ⊆+ marks st.
Proof. intros Hk Hs. rewrite marks_put, (marks_split _ _ _ Hk). by apply submseteq_skips_r. Qed.

Lemma partial_put st k m m' : partial [] [] st -> mshrs st !! k = Some m -> mshr_core (packets st) m' ->
  marks_m (packets st) m' ⊆+ marks_m (packets st) m -> downstreamPending m' = downstreamPending m -> partial [] [] (put st k m').
Proof.
  intros [Hn Hdn He Ht Hp] Hk Hm' Hs Hb. pose proof (marks_put_sub _ _ _ _ Hk Hs) as Hsub. split.
  - apply submseteq_Permutation in Hsub as [l Hl]. rewrite Hl in Hn. by apply NoDup_app in Hn as (? & _).
  - intros u Hx Hex. rewrite down_put. assert (down st u = true) as Hdu by (apply Hdn; [eapply elem_of_submseteq; eauto|done]).
    case_decide as E; [|done]. subst u. unfold down in Hdu. rewrite Hk in Hdu. congruence.
  - set_solver.
  - set_solver.
  - cbn [mshrs packets put]. intros i mi x Hi Hx. destruct (decide (i = k)) as [->|].
    + rewrite lookup_insert_eq in Hi. injection Hi as <-. by eapply core_pkts.
    + rewrite lookup_insert_ne in Hi by done. by apply (Hp i mi).
Qed.

Lemma store_ok_put A st k m m' : store_ok A st -> k ∈ A -> mshrs st !! k = Some m -> mshr_ok (packets st) m' ->
  marks_m (packets st) m' ⊆+ marks_m (packets st) m -> downstreamPending m' = downstreamPending m -> store_ok A (put st k m').
Proof.
  intros [Hd Hm Hf Hpa Hu] Ha Hk Hm' Hs Hb. pose proof (marks_put_sub _ _ _ _ Hk Hs) as Hsub. split; cbn [mshrs packets put].
  - intros i Hi. destruct (decide (i = k)) as [->|]; [rewrite lookup_insert_eq; by eexists|]. rewrite lookup_insert_ne by done. by apply Hd.
  - intros i mi Hi. destruct (decide (i = k)) as [->|]; [rewrite lookup_insert_eq; naive_solver|]. rewrite lookup_insert_ne by done. by apply Hm.
  - intros i mi Hi. destruct (decide (i = k)) as [->|]; [done|]. rewrite lookup_insert_ne by done. by apply Hf.
  - eapply partial_put; eauto. apply Hm'.
  - intros u Hx. apply Hu. eapply elem_of_submseteq; eauto.
Qed.

(** ** Clearing marks *)
Lemma lowered_same l l' : lowered l l' ->
  (forall y, y ∈ l' -> exists x, x ∈ l /\ same_target x y) /\ (forall x, x ∈ l -> exists y, y ∈ l' /\ same_target x y).
Proof.
  intros Hl. split; intros z [i Hi]%list_elem_of_lookup.
  - destruct (Forall2_lookup_r _ _ _ _ _ Hl Hi) as (x & Hx & Hxy). exists x. split; [by eapply list_elem_of_lookup_2|by destruct Hxy as [->| ->]].
  - destruct (Forall2_lookup_l _ _ _ _ _ Hl Hi) as (y & Hy & Hxy). exists y. split; [by eapply list_elem_of_lookup_2|by destruct Hxy as [->| ->]].
Qed.

Lemma list_ok_lowered ps l l' : list_ok ps l -> lowered (items l) l' -> list_ok ps (with_items l' l).
Proof. intros Hl Hlow. destruct (lowered_same _ _ Hlow) as [H1 H2]. apply list_ok_items; eauto. Qed.

Lemma lowered_Forall (P : Target.t -> Prop) l l' : (forall x, P x -> P (Target.set_marked false x)) -> lowered l l' -> Forall P l -> Forall P l'.
Proof. intros HP. induction 1 as [|x y l l' [->| ->]]; inversion 1; subst; constructor; auto. Qed.

Lemma mshr_core_lower ps m m' : mshr_core ps m -> lower_m m m' -> mshr_core ps m'.
Proof.
  intros [HT HD Hs Hds Hc Hb Hlk Hr] (b & lt & ld & -> & H1 & H2 & _). split; cbn; try done; [by apply list_ok_lowered..| | |].
  - by eapply lowered_Forall.
  - intros y p Hy Hp Hl. destruct (proj1 (lowered_same _ _ H1) y Hy) as (x & Hx & Ep & Es). rewrite <- Es.
    apply (Hlk x p); [done|unfold pkt_of; by rewrite Ep|done].
  - intros ->. apply Hr. by inversion H2.
Qed.

Lemma mshr_ok_lower st st' k m m' : lower st st' -> mshrs st !! k = Some m -> mshrs st' !! k = Some m' ->
  mshr_ok (packets st) m -> mshr_ok (packets st) m'.
Proof.
  intros L Hk Hk' [Hc (x & l & Hx & Hs & Hl) Hw Hu]. pose proof (lw_m _ _ L _ _ _ Hk Hk') as Hm.
  pose proof (lw_settled _ _ L _ _ _ Hk Hk') as Hset. split; [by eapply mshr_core_lower|..];
    destruct Hm as (b & lt & ld & -> & H1 & H2 & H3); cbn in *.
  - rewrite Hx in H1. inversion H1 as [|? y ? l' Hxy Hl']; subst. exists y, l'. split_and!; [done|by destruct Hxy as [->| ->]|]. by eapply lowered_Forall; [|exact Hl'|exact Hl].
  - intros Hi. eapply lowered_Forall; [|exact H1|by apply Hw]. done.
  - intros Hi Hb. destruct (downstreamPending m) eqn:E; [by apply Hset|]. eapply lowered_unmarked; [exact H1|by apply Hu].
Qed.

(** After clearing: all but the register [k], whose state may have changed before. *)
Lemma store_ok_lower_at A st k m m1 st' : store_ok A st -> k ∈ A -> mshrs st !! k = Some m -> getNumTargets m1 = getNumTargets m ->
  marks_m (packets st) m1 ⊆+ marks_m (packets st) m -> lower (put st k m1) st' -> partial [] [] st' ->
  (forall m', mshrs st' !! k = Some m' -> mshr_ok (packets st) m') -> store_ok A st'.
Proof.
  intros [Hd Hm Hf _ Hu] Ha Hk Hn Hs L Hp' Hk'. pose proof (lw_pkts _ _ L) as Ep. cbn [packets put] in Ep.
  assert (Hback : forall i m', mshrs st' !! i = Some m' -> i <> k -> exists m0, mshrs st !! i = Some m0 /\ mshrs (put st k m1) !! i = Some m0 /\ lower_m m0 m').
  { intros i m' Hi Hik. destruct (proj2 (lw_dom _ _ L i)) as [m0 Hm0]; [by eexists|]. exists m0. pose proof Hm0 as Hm0'.
    cbn [mshrs put] in Hm0'. rewrite lookup_insert_ne in Hm0' by done. split_and!; [done..|]. by eapply lw_m. }
  split.
  - intros i Hi. apply (lw_dom _ _ L). cbn [mshrs put]. destruct (decide (i = k)) as [->|]; [rewrite lookup_insert_eq; by eexists|].
    rewrite lookup_insert_ne by done. by apply Hd.
  - intros i m' Hi Hm'. rewrite Ep. destruct (decide (i = k)) as [->|Hik]; [by apply Hk'|].
    destruct (Hback i m' Hm' Hik) as (m0 & H0 & H0' & _). apply (mshr_ok_lower (put st k m1) st' i m0 m'); try done. by apply (Hm i).
  - intros i m' Hi Hm'. destruct (Hback i m' Hm') as (m0 & H0 & _ & M); [set_solver|]. specialize (Hf i m0 Hi H0). unfold getNumTargets in *.
    pose proof (lower_m_length _ _ false M). pose proof (lower_m_length _ _ true M). cbn in *. lia.
  - done.
  - intros u Hu'. apply Hu. eapply elem_of_submseteq; [|exact (marks_put_sub _ _ _ _ Hk Hs)].
    apply elem_of_marks in Hu' as (i & m' & Hm' & Hu'). rewrite Ep in Hu'.
    destruct (proj2 (lw_dom _ _ L i)) as [m0 Hm0]; [by eexists|]. apply elem_of_marks. exists i, m0. split; [done|].
    cbn [packets put]. eapply lower_m_marks; [by eapply lw_m|done].
Qed.

Lemma store_ok_lower A st st' k m : store_ok A st -> k ∈ A -> mshrs st !! k = Some m -> lower st st' -> partial [] [] st' -> store_ok A st'.
Proof.
  intros Hok Ha Hk L Hp'. apply (store_ok_lower_at A st k m m); try done; [by rewrite mshr_put_id|].
  intros m' Hm'. eapply mshr_ok_lower; [exact L|exact Hk|exact Hm'|]. by apply (so_mshr _ _ Hok k).
Qed.

Lemma clears_all fuel : clears fuel clearDownstreamPending.
Proof.
  intros ex stk st k m u Hp Hk Hs Hd Hu _. apply (clear_fuel_clears (S (size (mshrs st))) ex stk st k m u); try done.
  pose proof (count_down_size st). lia.
Qed.

(** The marks of the first targets of a list are cleared. *)
Lemma clear_prefix A st k m d n : store_ok A st -> k ∈ A -> mshrs st !! k = Some m -> downstreamPending m = false ->
  (n <= length (items (list_of d m)))%nat ->
  exists st' m', clear_range clearDownstreamPending k d (seq 0 n) st = Ok st' /\ lower st st' /\ store_ok A st' /\
    mshrs st' !! k = Some m' /\ unmarked (take n (items (list_of d m'))).
Proof.
  intros Hok Ha Hk Hd Hn. destruct (clear_range_ok (S (count_down st)) clearDownstreamPending k d (seq 0 n) (clears_all _) [] [] st m)
    as (st' & m' & E & L & P & H' & _ & U).
  - apply Hok.
  - done.
  - set_solver.
  - unfold down. by rewrite Hk.
  - apply Forall_forall. intros j Hj%elem_of_seq. lia.
  - lia.
  - exists st', m'. split_and!; [done|done|by eapply store_ok_lower|done|]. apply Forall_lookup. intros j y Hj.
    apply lookup_take_Some in Hj as [Hj Hjn]. apply (U j y); [apply elem_of_seq; lia|done].
Qed.

(** ** Changes of packets *)

(** A packet that a register in use holds. *)
Definition held (A : gset Z) (st : store) (i : Z) : Prop := exists k m x, k ∈ A /\ mshrs st !! k = Some m /\
  x ∈ items (targets m) ++ items (deferredTargets m) /\ Target.pkt x = i.

Definition obj_like (o o' : pobj) : Prop := pkt_like (pk o) (pk o') /\ senderState o' = senderState o.

Lemma no_items m : getNumTargets m = 0%nat -> items (targets m) = [] /\ items (deferredTargets m) = [].
Proof. unfold getNumTargets. intros H. split; apply nil_length_inv; lia. Qed.

Lemma omap_ext_in {X Y} (f g : X -> option Y) (l : list X) : (forall x, x ∈ l -> f x = g x) -> omap f l = omap g l.
Proof. induction l as [|x l IH]; intros H; [done|]. cbn. rewrite (H x), IH by set_solver. done. Qed.

Lemma bind_ext_in {X Y} (f g : X -> list Y) (l : list X) : (forall x, x ∈ l -> f x = g x) -> l ≫= f = l ≫= g.
Proof. induction l as [|x l IH]; intros H; [done|]. cbn. rewrite (H x) by set_solver. f_equal. apply IH. set_solver. Qed.

Lemma marks_m_like ps ps' m : (forall x o, x ∈ items (targets m) ++ items (deferredTargets m) -> ps !! Target.pkt x = Some o ->
    exists o', ps' !! Target.pkt x = Some o' /\ obj_like o o') ->
  (forall x, x ∈ items (targets m) ++ items (deferredTargets m) -> is_Some (ps !! Target.pkt x)) -> marks_m ps' m = marks_m ps m.
Proof.
  intros Hl Hs. assert (H : forall x, x ∈ items (targets m) ++ items (deferredTargets m) -> mark_of ps' x = mark_of ps x).
  { intros x Hx. unfold mark_of. destruct (Target.markedPending x); [|done]. destruct (Hs x Hx) as [o Ho].
    destruct (Hl x o Hx Ho) as (o' & Ho' & _ & E). rewrite Ho, Ho'. cbn. unfold findNextSenderState. by rewrite E. }
  unfold marks_m, marks_l. f_equal; apply omap_ext_in; set_solver.
Qed.

Lemma mshr_ok_like ps ps' m : (forall x o, x ∈ items (targets m) ++ items (deferredTargets m) -> ps !! Target.pkt x = Some o ->
    exists o', ps' !! Target.pkt x = Some o' /\ obj_like o o') -> mshr_ok ps m -> mshr_ok ps' m.
Proof.
  intros Hl [[HT HD ? ? ? ? Hlk ?] ? ? ?]. assert (H : forall l, (forall x, x ∈ l -> x ∈ items (targets m) ++ items (deferredTargets m)) -> pkts_like ps ps' l).
  { intros l Hin x p Hx Hp. unfold pkt_of in Hp. destruct (ps !! Target.pkt x) as [o|] eqn:E; [|done]. injection Hp as <-.
    destruct (Hl x o (Hin x Hx) E) as (o' & Ho' & Hlike & _). exists (pk o'). unfold pkt_of. by rewrite Ho'. }
  split; [split|..]; try done; [eapply list_ok_like; eauto; apply H; set_solver..|].
  intros x p' Hx Hp' Hc'. assert (Hin : x ∈ items (targets m) ++ items (deferredTargets m)) by set_solver.
  destruct (lo_fits _ _ HT x Hx) as (p & Hp & _). destruct (H (items (targets m)) ltac:(set_solver) x p Hx Hp) as (p2 & Hp2 & L).
  rewrite Hp' in Hp2. injection Hp2 as <-. apply (Hlk x p); [done..|]. by apply (like_locked _ _ L).
Qed.

Lemma store_ok_pkts A st ps : store_ok A st ->
  (forall i o, held A st i -> packets st !! i = Some o -> exists o', ps !! i = Some o' /\ obj_like o o') ->
  store_ok A (mkStore ps (mshrs st)).
Proof.
  intros [Hd Hm Hf [Hn Hdn He Ht Hp] Hu] Hh.
  assert (HA : forall k m x, mshrs st !! k = Some m -> x ∈ items (targets m) ++ items (deferredTargets m) -> k ∈ A).
  { intros k m x Hk Hx. destruct (decide (k ∈ A)) as [|Hna]; [done|]. destruct (no_items m (Hf k m Hna Hk)) as [E1 E2].
    rewrite E1, E2 in Hx. set_solver. }
  assert (HL : forall k m x o, mshrs st !! k = Some m -> x ∈ items (targets m) ++ items (deferredTargets m) -> packets st !! Target.pkt x = Some o ->
    exists o', ps !! Target.pkt x = Some o' /\ obj_like o o').
  { intros k m x o Hk Hx Ho. apply (Hh _ o); [|done]. exists k, m, x. split_and!; eauto. }
  assert (HM : marks (mkStore ps (mshrs st)) = marks st).
  { unfold marks. cbn [mshrs packets]. apply bind_ext_in. intros [k m] Hk%elem_of_map_to_list. cbn.
    apply marks_m_like; eauto. }
  split; cbn [mshrs packets]; try done.
  - intros k m Hk Hkm. eapply mshr_ok_like; eauto.
  - split; cbn [mshrs packets]; rewrite ?HM; try done; [set_solver|].
    intros k m x Hk Hx. destruct (Hp k m x Hk Hx) as [o Ho]. destruct (HL k m x o Hk Hx Ho) as (o' & ? & _). by eexists.
  - intros u. rewrite HM. apply Hu.
Qed.

(** ** Adding a target *)
Lemma set_list_id d m : set_list d (list_of d m) m = m.
Proof. by destruct d, m. Qed.
Lemma list_of_set d l m : list_of d (set_list d l m) = l.
Proof. by destruct d. Qed.
Lemma set_list_set d l l' m : set_list d l (set_list d l' m) = set_list d l m.
Proof. by destruct d. Qed.

(** The register that a new target marks, if any. *)
Definition new_mark (p : pobj) (markPending : bool) : option Z := if markPending then findNextSenderState p else None.

(** A register with the new target. *)
Definition with_target (d : bool) (l : TargetList.t) (x : Target.t) (m : MSHR.t) : MSHR.t :=
  set_list d (with_items (items (list_of d m) ++ [x]) l) m.

Definition mark (u : option Z) (st : store) : store :=
  match u with
  | Some u => match mshrs st !! u with Some m => put st u (set_pending true m) | None => st end
  | None => st
  end.

Lemma mark_lookup st u k : mshrs (mark u st) !! k = (fun m => if decide (u = Some k) then set_pending true m else m) <$> mshrs st !! k.
Proof.
  unfold mark. destruct u as [u|]; [|by destruct (mshrs st !! k)].
  destruct (mshrs st !! u) as [m|] eqn:E.
  - cbn [mshrs put]. destruct (decide (u = k)) as [->|].
    + rewrite lookup_insert_eq, E. cbn. by rewrite decide_True.
    + rewrite lookup_insert_ne by done. destruct (mshrs st !! k); cbn; [|done]. by rewrite decide_False by congruence.
  - destruct (mshrs st !! k) eqn:Ek; cbn; [|done]. rewrite decide_False; [done|]. congruence.
Qed.

Lemma mark_packets st u : packets (mark u st) = packets st.
Proof. unfold mark. destruct u as [u|]; [by destruct (mshrs st !! u)|done]. Qed.

Lemma updateFlags_items p s a l l' : TargetList.updateFlags p s a l = Ok l' -> items l' = items l.
Proof.
  unfold TargetList.updateFlags, TargetList.updateWriteFlags. intros E. case_bool_decide; [by injection E as <-|]. ok_inv.
  case_bool_decide; [by injection E as <-|]. destruct (TargetList.isWholeLineWrite _); [by injection E as <-|].
  destruct (TargetList.canMergeWrites _); [|by injection E as <-]. destruct (negb _); [by injection E as <-|]. ok_inv. by subst l'.
Qed.

Lemma put_mark_put st u k m m1 m2 : mshrs st !! k = Some m -> put (mark u (put st k m1)) k m2 = put (mark u st) k m2.
Proof.
  intros Hk. unfold put at 1 3. rewrite !mark_packets. f_equal. apply map_eq. intros i. destruct (decide (i = k)) as [->|Hi].
  - by rewrite !lookup_insert_eq.
  - rewrite !lookup_insert_ne by done. rewrite !mark_lookup. cbn [mshrs put]. by rewrite lookup_insert_ne.
Qed.

Lemma add_inv curTick k d pkt rt o s mp a st st' : add curTick k d pkt rt o s mp a st = Ok st' ->
  exists p m l, packets st !! pkt = Some p /\ mshrs st !! k = Some m /\ TargetList.updateFlags (pk p) s a (list_of d m) = Ok l /\
    (forall u, new_mark p mp = Some u -> down st u = false) /\
    let x := Target.mk curTick rt o pkt s (bool_decide (is_Some (new_mark p mp))) a in
    let m1 := if decide (new_mark p mp = Some k) then set_pending true m else m in
    st' = put (mark (new_mark p mp) st) k (with_target d l x m1).
Proof.
  unfold add, upd. intros H. apply bind_Ok_inv in H as (p & Ep & H). apply bind_Ok_inv in H as (st0 & E0 & H).
  apply bind_Ok_inv in E0 as (m & Em & E0). apply bind_Ok_inv in E0 as (m0 & El & E0). apply bind_Ok_inv in El as (l & El & Em0).
  apply get_pkt_Ok in Ep. apply mshr_get_Ok in Em. injection Em0 as <-. injection E0 as <-.
  apply bind_Ok_inv in H as (ms & Ems & H). exists p, m, l.
  assert (Hms : ms = (bool_decide (is_Some (new_mark p mp)), mark (new_mark p mp) (put st k (set_list d l m))) /\
    forall u, new_mark p mp = Some u -> down st u = false).
  { unfold new_mark. destruct mp; [|by injection Ems as <-]. destruct (findNextSenderState p) as [u|]; [|by injection Ems as <-].
    apply bind_Ok_inv in Ems as (mu & Eu & Ems). apply bind_Ok_inv in Ems as ([] & Hd & Ems). injection Ems as <-.
    apply mshr_get_Ok in Eu. apply check_Ok in Hd. split; [unfold mark; rewrite Eu; by rewrite bool_decide_true by by eexists|]. intros ? [= <-]. unfold down. cbn [mshrs put] in Eu.
    destruct (decide (u = k)) as [->|]; [|rewrite lookup_insert_ne in Eu by done; rewrite Eu; by apply negb_true_iff].
    rewrite lookup_insert_eq in Eu. injection Eu as <-. rewrite Em. apply negb_true_iff in Hd. by destruct d. }
  destruct Hms as [-> Hd]. split_and!; try done. cbn [fst snd] in H.
  apply bind_Ok_inv in H as (mk & Hk & H). apply mshr_get_Ok in Hk. rewrite mark_lookup in Hk. cbn [mshrs put] in Hk.
  rewrite lookup_insert_eq in Hk. injection Hk as Hk. injection H as <-. rewrite (put_mark_put _ _ _ m) by done. f_equal.
  pose proof (updateFlags_items _ _ _ _ _ El) as Hi. unfold with_target. subst mk.
  case_decide; rewrite ?decide_True, ?decide_False by done; destruct d; cbn in *; by rewrite Hi.
Qed.

(** Marking a register as pending: its other properties stay. *)
Lemma mshr_core_pending ps b m : mshr_core ps m -> mshr_core ps (set_pending b m).
Proof. by intros []. Qed.

Lemma mshr_ok_pending ps m : mshr_ok ps m -> mshr_ok ps (set_pending true m).
Proof. intros [Hc Hf Hw _]. split; [by apply mshr_core_pending|done..]. Qed.

Lemma mshr_core_target ps d l x m p : mshr_core ps m -> pkt_of ps x = Some p -> inside (mblk m) p ->
  (d = true -> Target.source x = FromCPU) -> (Packet.cmd p = MemCmd.LockedRMWReadReq -> Target.source x <> FromSnoop) ->
  TargetList.updateFlags p (Target.source x) (Target.allocOnFill x) (list_of d m) = Ok l -> mshr_core ps (with_target d l x m).
Proof.
  intros [HT HD Hs Hds Hc Hbk Hlk Hr] Hx Hp Hd Hlc Hl. assert (Hb : lblk (list_of d m) = mblk m) by by destruct d.
  assert (Hok : list_ok ps (list_of d m)) by by destruct d.
  assert (Hsz : lblk l = mblk m).
  { rewrite <- Hb in Hp |- *. pose proof (updateFlags_grow _ _ _ _ _ (proj1 Hp) (lo_bytes _ _ Hok) Hl) as G.
    unfold lblk. by rewrite (fg_size _ _ _ _ G), (fg_addr _ _ _ _ G). }
  pose proof (list_ok_append _ _ _ _ _ Hok Hx ltac:(by rewrite Hb) Hl) as Ha.
  destruct d; split; cbn in *; try done.
  - apply Forall_app. split; [done|]. by apply Forall_singleton, Hd.
  - intros E. by destruct (items (deferredTargets m)).
  - intros y q [Hy| ->%list_elem_of_singleton]%elem_of_app Hq; [by apply (Hlk y q)|]. rewrite Hx in Hq. injection Hq as <-. done.
Qed.

Lemma marks_l_app ps l l' : marks_l ps (l ++ l') = marks_l ps l ++ marks_l ps l'.
Proof. unfold marks_l. apply omap_app. Qed.

Lemma marks_m_target ps d l x m : marks_m ps (with_target d l x m) ≡ₚ option_list (mark_of ps x) ++ marks_m ps m.
Proof.
  unfold marks_m, with_target. assert (E : marks_l ps [x] = option_list (mark_of ps x)) by (rewrite marks_l_cons; by rewrite app_nil_r).
  destruct d; cbn [set_list list_of set_deferred set_targets targets deferredTargets items with_items]; rewrite marks_l_app, E.
  - rewrite app_assoc. apply Permutation_app_comm.
  - rewrite <- app_assoc, (Permutation_app_comm (option_list _)), app_assoc. apply Permutation_app_comm.
Qed.

(** The marks after a register has been marked. *)
Lemma marks_mark st u : marks (mark u st) ≡ₚ marks st.
Proof.
  unfold mark. destruct u as [u|]; [|done]. destruct (mshrs st !! u) as [m|] eqn:E; [|done].
  by rewrite marks_put, (marks_split _ _ _ E).
Qed.

Lemma marks_but_mark st u k m : mshrs st !! k = Some m -> marks_but k (mark u st) ≡ₚ marks_but k st.
Proof.
  intros Hk. apply (Permutation_app_inv_l (marks_m (packets st) m)). rewrite <- (marks_split _ _ _ Hk), <- (marks_mark st u).
  assert (Hk' : mshrs (mark u st) !! k = Some (if decide (u = Some k) then set_pending true m else m)) by (by rewrite mark_lookup, Hk).
  rewrite (marks_split _ _ _ Hk'), mark_packets. by case_decide.
Qed.

(** What the queues see: a register in use stays as it is in them. *)
Definition label (m : MSHR.t) : Z * Z * bool * bool := (blkAddr m, blkSize m, isSecure m, _isUncacheable m).
Definition labels (st : store) (k : Z) : option (Z * Z * bool * bool) := label <$> mshrs st !! k.

Definition calm (st st' : store) : Prop := forall k, labels st' k = labels st k /\
  serving (mshrs st') k = serving (mshrs st) k /\ (numTargets (mshrs st) k = 0%nat -> numTargets (mshrs st') k = 0%nat).

#[global] Instance calm_refl : Reflexive calm.
Proof. by intros st k. Qed.
#[global] Instance calm_trans : Transitive calm.
Proof. intros st1 st2 st3 H1 H2 k. destruct (H1 k) as (?&?&?), (H2 k) as (?&?&?). split_and!; [congruence|congruence|auto]. Qed.

Lemma labels_Some st st' k : labels st' k = labels st k -> is_Some (mshrs st !! k) -> is_Some (mshrs st' !! k).
Proof. unfold labels. intros H [m Hm]. rewrite Hm in H. destruct (mshrs st' !! k); [by eexists|done]. Qed.

Lemma calm_put st k m m' : mshrs st !! k = Some m -> label m' = label m -> inService m' = inService m -> (getNumTargets m = 0 -> getNumTargets m' = 0)%nat -> calm st (put st k m').
Proof.
  intros Hk Hl Hs Hn i. unfold labels, serving, numTargets. cbn [mshrs put]. destruct (decide (i = k)) as [->|].
  - rewrite lookup_insert_eq, Hk. cbn. by rewrite Hl.
  - by rewrite lookup_insert_ne.
Qed.

Lemma calm_mark st u : calm st (mark u st).
Proof.
  intros i. unfold labels, serving, numTargets. rewrite mark_lookup. destruct (mshrs st !! i); [|done]. cbn. case_decide; done.
Qed.

Lemma calm_lower st st' : lower st st' -> calm st st'.
Proof.
  intros L i. unfold labels, serving, numTargets. destruct (mshrs st !! i) as [m|] eqn:E.
  - destruct (lower_lookup _ _ _ _ L E) as (m' & E' & M). rewrite E'. split_and!; [by destruct M as (b & lt & ld & -> & _)|by destruct M as (b & lt & ld & -> & _)|].
    cbn. unfold getNumTargets. pose proof (lower_m_length _ _ true M). pose proof (lower_m_length _ _ false M). cbn in *. lia.
  - destruct (mshrs st' !! i) as [m'|] eqn:E'; [|done]. destruct (proj2 (lw_dom _ _ L i)) as [m Hm]; [by eexists|congruence].
Qed.

Lemma calm_pkts st ps : calm st (mkStore ps (mshrs st)).
Proof. by intros i. Qed.

Lemma front_targets m : (exists x l, items (targets m) = x :: l /\ Target.source x <> FromSnoop /\ Forall (fun y => Target.source y <> FromPrefetcher) l) -> getNumTargets m <> 0%nat.
Proof. intros (x & l & E & _). unfold getNumTargets. rewrite E. simpl. lia. Qed.

(** A register with one target more; [x] may be the first one. *)
Lemma mshr_ok_target ps d l x m : mshr_ok ps m \/ (getNumTargets m = 0%nat /\ inService m = false /\ d = false) ->
  mshr_core ps (with_target d l x m) ->
  (d = false -> (mshr_ok ps m -> Target.source x <> FromPrefetcher) /\ (inService m = false -> Target.source x <> FromSnoop) /\
     (inService m = true -> downstreamPending m = false -> Target.markedPending x = false)) ->
  mshr_ok ps (with_target d l x m).
Proof.
  intros Hm Hc Hd. destruct d.
  - destruct Hm as [[_ Hf Hw Hs]|(_ & _ & ?)]; [|done]. by split.
  - destruct (Hd eq_refl) as (H1 & H2 & H3). destruct Hm as [Hm|(Hn & Hi & _)].
    + destruct Hm as [? (y & ys & Ey & Hy & Hys) Hw Hs] eqn:Em. split; [done|..]; cbn.
      * exists y, (ys ++ [x]). rewrite Ey. split_and!; [done..|]. apply Forall_app. split; [done|]. by apply Forall_singleton, H1.
      * intros Hi. apply Forall_app. split; [by apply Hw|]. by apply Forall_singleton, H2.
      * intros Hi Hdn. apply Forall_app. split; [by apply Hs|]. by apply Forall_singleton, H3.
    + destruct (no_items _ Hn) as [E _]. split; [done|..]; cbn; rewrite E.
      * exists x, []. split_and!; [done|by apply H2|done].
      * intros _. by apply Forall_singleton, H2.
      * congruence.
Qed.

(** The store after a new target [x] of [k], which marks the register [u]. *)
Section Added.
Context (A : gset Z) (st : store) (k : Z) (m : MSHR.t) (u : option Z) (m' : MSHR.t).
Context (Hok : store_ok A st) (Hk : mshrs st !! k = Some m) (Hm' : mshr_ok (packets st) m').
Context (Hdu : forall v, u = Some v -> down st v = false) (Hu : forall v, u = Some v -> v ∈ A ∪ {[k]}).
Context (Hb : downstreamPending m' = bool_decide (u = Some k) || downstreamPending m).
Context (HMm : marks_m (packets st) m' ≡ₚ option_list u ++ marks_m (packets st) m).

Lemma added_marks : marks (put (mark u st) k m') ≡ₚ option_list u ++ marks st.
Proof.
  rewrite marks_put, mark_packets, HMm, <- app_assoc. apply Permutation_app_head.
  by rewrite (marks_but_mark _ _ _ _ Hk), (marks_split _ _ _ Hk).
Qed.

Lemma added_other i mi : i <> k -> mshrs (put (mark u st) k m') !! i = Some mi ->
  exists m0, mshrs st !! i = Some m0 /\ mi = if decide (u = Some i) then set_pending true m0 else m0.
Proof.
  intros Hi. cbn [mshrs put]. rewrite lookup_insert_ne, mark_lookup by done. destruct (mshrs st !! i) as [m0|]; [|done].
  intros [= <-]. by exists m0.
Qed.

Lemma added_down v : u = Some v \/ down st v = true -> down (put (mark u st) k m') v = true.
Proof.
  intros Hdv. unfold down. cbn [mshrs put]. destruct (decide (v = k)) as [->|].
  - rewrite lookup_insert_eq, Hb. destruct Hdv as [Hv|Hv]; [by rewrite bool_decide_true|]. unfold down in Hv. rewrite Hk in Hv. by rewrite Hv, orb_true_r.
  - rewrite lookup_insert_ne, mark_lookup by done. destruct Hdv as [Hv|Hv].
    + destruct (so_dom _ _ Hok v) as [mv ->]; [specialize (Hu v Hv); set_solver|]. cbn. by rewrite decide_True.
    + unfold down in Hv. destruct (mshrs st !! v); [|done]. cbn. by destruct (decide _).
Qed.

Lemma added_partial : partial [] [] (put (mark u st) k m').
Proof.
  destruct (so_marks _ _ Hok) as [An Adn _ _ Ap]. split.
  - rewrite added_marks. destruct u as [v|] eqn:Ev; [|done]. cbn. apply NoDup_cons. split; [|done].
    intros Hin. specialize (Hdu v eq_refl). by rewrite (Adn v Hin ltac:(set_solver)) in Hdu.
  - intros v Hv _. rewrite added_marks, elem_of_app in Hv. apply added_down.
    destruct Hv as [Hv|Hv]; [left; by destruct u; set_solver|right; apply Adn; [done|set_solver]].
  - set_solver.
  - set_solver.
  - intros i mi y Hi Hy. cbn [packets put]. rewrite mark_packets. destruct (decide (i = k)) as [->|].
    + cbn [mshrs put] in Hi. rewrite lookup_insert_eq in Hi. injection Hi as <-. by eapply core_pkts; [apply Hm'|].
    + destruct (added_other i mi) as (m0 & Hm0 & ->); [done..|]. apply (Ap i m0); [done|]. by destruct (decide _).
Qed.

Lemma store_ok_added : store_ok (A ∪ {[k]}) (put (mark u st) k m').
Proof.
  split; [| | |apply added_partial|].
  - intros i Hi. cbn [mshrs put]. destruct (decide (i = k)) as [->|]; [rewrite lookup_insert_eq; by eexists|].
    rewrite lookup_insert_ne, mark_lookup by done. destruct (so_dom _ _ Hok i) as [mi ->]; [set_solver|by eexists].
  - intros i mi Hi Hmi. cbn [packets put]. rewrite mark_packets. destruct (decide (i = k)) as [->|].
    + cbn [mshrs put] in Hmi. rewrite lookup_insert_eq in Hmi. by injection Hmi as <-.
    + destruct (added_other i mi) as (m0 & Hm0 & ->); [done..|].
      assert (mshr_ok (packets st) m0) by (apply (so_mshr _ _ Hok i); [set_solver|done]). destruct (decide _); [by apply mshr_ok_pending|done].
  - intros i mi Hi Hmi. destruct (added_other i mi) as (m0 & Hm0 & ->); [set_solver|done|].
    pose proof (so_free _ _ Hok i m0 ltac:(set_solver) Hm0). by destruct (decide _).
  - intros v Hv. rewrite added_marks, elem_of_app in Hv. destruct Hv as [Hv|Hv]; [apply Hu; destruct u; set_solver|].
    pose proof (so_marked _ _ Hok v Hv). set_solver.
Qed.
End Added.

(** Adding a target to a register in use, or the first one to a register. *)
Lemma store_ok_add A curTick k d pkt rt o s mp a st st' p m : store_ok A st -> mshrs st !! k = Some m -> mshr_core (packets st) m ->
  packets st !! pkt = Some p -> inside (mblk m) (pk p) ->
  (forall u, new_mark p mp = Some u -> u ∈ A ∪ {[k]}) -> (k ∉ A -> inService m = false /\ d = false) ->
  (Packet.cmd (pk p) = MemCmd.LockedRMWReadReq -> s <> FromSnoop) ->
  (d = true -> s = FromCPU) -> (d = false -> (k ∈ A -> s <> FromPrefetcher) /\ (inService m = false -> s <> FromSnoop) /\
     (inService m = true -> mp = true -> downstreamPending m = true)) ->
  add curTick k d pkt rt o s mp a st = Ok st' ->
  store_ok (A ∪ {[k]}) st' /\ packets st' = packets st /\
  exists l x b, Target.pkt x = pkt /\ Target.source x = s /\ Target.order x = o /\
    mshrs st' !! k = Some (with_target d l x (set_pending b m)) /\
    (forall i, i <> k -> mshrs st' !! i = mshrs (mark (new_mark p mp) st) !! i).
Proof.
  intros Hok Hk Hc Hp Hfit Hu Hfree Hlk Hd Hnd H. apply add_inv in H as (p' & m' & l & Hp' & Hk' & Hl & Hdu & ->).
  rewrite Hp in Hp'. injection Hp' as <-. rewrite Hk in Hk'. injection Hk' as <-.
  set (u := new_mark p mp) in *. set (x := Target.mk curTick rt o pkt s (bool_decide (is_Some u)) a) in *.
  set (b := bool_decide (u = Some k) || downstreamPending m).
  assert (Hm1 : (if decide (u = Some k) then set_pending true m else m) = set_pending b m).
  { unfold b. case_decide; [by rewrite bool_decide_true|rewrite bool_decide_false by done; by destruct m]. }
  rewrite Hm1. clear Hm1. split_and!; [|cbn; by rewrite mark_packets|].
  2: { exists l, x, b. split_and!; [done..|cbn; by rewrite lookup_insert_eq|]. intros i Hi. cbn. by rewrite lookup_insert_ne. }
  assert (Hmk : mark_of (packets st) x = u).
  { unfold mark_of. cbn. rewrite Hp. cbn. unfold u, new_mark. destruct mp; [|done]. by destruct (findNextSenderState p). }
  assert (Hbd : b = false -> downstreamPending m = false) by (unfold b; intros [_ ?]%orb_false_iff; done).
  assert (Hmok : mshr_ok (packets st) (with_target d l x (set_pending b m))).
  { apply mshr_ok_target.
    - destruct (decide (k ∈ A)) as [Ha|Ha].
      + left. destruct (so_mshr _ _ Hok k m Ha Hk) as [? ? ? Hs]. split; [by apply mshr_core_pending|done..|]. intros ? ?. by apply Hs, Hbd.
      + right. destruct (Hfree Ha). split_and!; [exact (so_free _ _ Hok k m Ha Hk)|done..].
    - eapply mshr_core_target; [by apply mshr_core_pending|unfold pkt_of; cbn; by rewrite Hp|exact Hfit|done|done|]. by destruct d.
    - intros ->. destruct (Hnd eq_refl) as (H1 & H2 & H3). split_and!; [|done|].
      + intros [_ Hfr _ _]. apply H1. destruct (decide (k ∈ A)) as [|Ha]; [done|].
        exfalso. eapply (front_targets m); [exact Hfr|]. by apply (so_free _ _ Hok k).
      + cbn. intros Hi Hb. destruct mp; [|done]. rewrite H3 in Hbd by done. by specialize (Hbd Hb). }
  apply (store_ok_added A st k m u); try done; [by destruct d|]. by rewrite marks_m_target, Hmk.
Qed.
