(* ===== verification/MshrSteps.v ===== *)
(** * The operations of the miss status holding registers keep the invariant

    Every operation of mshr.cc on a register in use keeps the invariant of MshrInv
    and leaves the register where it is in its queue. *)

From S2P Require Import Prelude Bits Packet CacheQueue Mshr MshrOps MshrLists MshrMarks MshrInv.
Import Target (FromCPU, FromSnoop, FromPrefetcher).
Import MSHR TargetList (items, with_items).
Import MSHROps.

(** Keeping the invariant for the registers [A], for an operation without effect on
    the queues. *)
Definition keeps (A : gset Z) (st st' : store) : Prop := store_ok A st' /\ calm st st'.

Lemma keeps_trans A st1 st2 st3 : keeps A st1 st2 -> keeps A st2 st3 -> keeps A st1 st3.
Proof. intros [_ C1] [H2 C2]. split; [done|by etransitivity]. Qed.

Lemma keeps_refl A st : store_ok A st -> keeps A st st.
Proof. by split. Qed.

Lemma store_ok_in A k st : k ∈ A -> store_ok (A ∪ {[k]}) st -> store_ok A st.
Proof. intros Hk. by replace (A ∪ {[k]}) with A by set_solver. Qed.

(** ** Packets *)
Lemma keeps_put_pkt A st i o p : store_ok A st -> packets st !! i = Some o -> pkt_like (pk o) p -> keeps A st (put_pkt st i p).
Proof.
  intros Hok Ho Hp. unfold put_pkt. rewrite Ho. split; [|apply calm_pkts]. apply store_ok_pkts; [done|].
  intros j o' _ Ho'. destruct (decide (j = i)) as [->|].
  - rewrite Ho in Ho'. injection Ho' as <-. eexists. rewrite lookup_insert_eq. split; [done|by split].
  - rewrite lookup_insert_ne by done. exists o'. by repeat split.
Qed.

Lemma newPacket_fresh st : packets st !! newPacket st = None.
Proof.
  unfold newPacket. set (f := fun (i : Z) (_ : pobj) a => Z.max i a).
  assert (H : forall i, is_Some (packets st !! i) -> i <= map_fold f 0 (packets st)).
  { apply (map_fold_weak_ind (fun r m => forall i, is_Some (m !! i) -> i <= r)).
    - intros i [? Hi]. by rewrite lookup_empty in Hi.
    - intros j o m r Hj IH i [o' Hi]. unfold f. destruct (decide (i = j)) as [->|]; [lia|]. rewrite lookup_insert_ne in Hi by done.
      specialize (IH i ltac:(by eexists)). lia. }
  destruct (packets st !! _) eqn:E; [|done]. specialize (H _ ltac:(by eexists)). lia.
Qed.

Lemma keeps_alloc_pkt A st p s i st' : store_ok A st -> alloc_pkt p s st = (i, st') ->
  keeps A st st' /\ packets st' !! i = Some (mkP p s) /\ mshrs st' = mshrs st /\ (forall j o, packets st !! j = Some o -> packets st' !! j = Some o).
Proof.
  intros Hok. unfold alloc_pkt. intros [= <- <-]. pose proof (newPacket_fresh st) as Hf.
  assert (Hj : forall j o, packets st !! j = Some o -> <[newPacket st := mkP p s]> (packets st) !! j = Some o).
  { intros j o Ho. rewrite lookup_insert_ne by congruence. done. }
  split_and!; [|cbn; by rewrite lookup_insert_eq|done|exact Hj]. split; [|apply calm_pkts]. apply store_ok_pkts; [done|].
  intros j o _ Ho. exists o. split; [by apply Hj|by split].
Qed.

(** ** Replacing upgrades *)
Lemma put_pkt_mshrs st i p : mshrs (put_pkt st i p) = mshrs st.
Proof. unfold put_pkt. by destruct (packets st !! i). Qed.

Lemma replace_loop_ok A uninit l st st' : store_ok A st -> replace_loop uninit l st = Ok st' -> keeps A st st' /\ mshrs st' = mshrs st.
Proof.
  revert st. induction l as [|x l IH]; intros st Hok; cbn [replace_loop].
  - intros [= <-]. split; [by apply keeps_refl|done].
  - intros H. apply bind_Ok_inv in H as (o & Ho & H). apply bind_Ok_inv in H as (p & Hp & H). apply get_pkt_Ok in Ho.
    pose proof (keeps_put_pkt A st (Target.pkt x) o p Hok Ho (like_replaceUpgrade _ _ _ Hp)) as K.
    destruct (IH _ (proj1 K) H) as [K' E]. split; [by eapply keeps_trans|]. by rewrite E, put_pkt_mshrs.
Qed.

(** Changing flags of a register that the invariant does not mention. *)
Lemma keeps_flags A st k m m' : store_ok A st -> k ∈ A -> mshrs st !! k = Some m -> mshr_ok (packets st) m' -> items (targets m') = items (targets m) ->
  items (deferredTargets m') = items (deferredTargets m) -> downstreamPending m' = downstreamPending m -> inService m' = inService m ->
  label m' = label m -> keeps A st (put st k m').
Proof.
  intros Hok Hk Hm Hm' Et Ed Hd Hi Hl. split.
  - apply (store_ok_put A st k m); try done. unfold marks_m. by rewrite Et, Ed.
  - apply (calm_put _ _ m); [done..|]. unfold getNumTargets. by rewrite Et, Ed.
Qed.

Lemma list_ok_upgrade ps b l : list_ok ps l ->
  list_ok ps (TargetList.with_flags (TargetList.needsWritable l) b (TargetList.allocOnFill l) (TargetList.hasFromCache l) l).
Proof. by intros []. Qed.

Lemma replaceUpgrades_ok A uninit k d st st' : store_ok A st -> k ∈ A -> replaceUpgrades uninit k d st = Ok st' -> keeps A st st'.
Proof.
  intros Hok Hk H. unfold replaceUpgrades in H. apply bind_Ok_inv in H as (m & Hm & H). apply mshr_get_Ok in Hm.
  destruct (TargetList.hasUpgrade _); [|injection H as <-; by apply keeps_refl].
  apply bind_Ok_inv in H as (st1 & H1 & H). destruct (replace_loop_ok _ _ _ _ _ Hok H1) as [K E].
  unfold upd in H. apply bind_Ok_inv in H as (m1 & Hm1 & H). injection H as <-. apply mshr_get_Ok in Hm1.
  eapply keeps_trans; [exact K|]. destruct (so_mshr _ _ (proj1 K) k m1 Hk Hm1) as [[HT HD ? ? ? ? ? Hr] ? ? ?].
  apply (keeps_flags A st1 k m1); try done; try (by destruct d); [apply K|].
  destruct d; (split; [split|..]); cbn; try done; try (by apply list_ok_upgrade).
  intros E0. specialize (Hr E0). unfold TargetList.isReset in *. cbn. destruct (TargetList.needsWritable _), (TargetList.hasUpgrade _); done.
Qed.

(** ** Adding requests *)
Lemma add_calm A curTick k d pkt rt o s mp a st st' p m : store_ok A st -> k ∈ A -> mshrs st !! k = Some m ->
  packets st !! pkt = Some p -> inside (mblk m) (pk p) -> (forall u, findNextSenderState p = Some u -> u ∈ A) ->
  (Packet.cmd (pk p) = MemCmd.LockedRMWReadReq -> s <> FromSnoop) ->
  (d = true -> s = FromCPU) -> (d = false -> s <> FromPrefetcher /\ (inService m = false -> s <> FromSnoop) /\ (inService m = true -> mp = true -> downstreamPending m = true)) ->
  add curTick k d pkt rt o s mp a st = Ok st' ->
  keeps A st st' /\ packets st' = packets st /\
  exists l x b, Target.pkt x = pkt /\ Target.source x = s /\ Target.order x = o /\ mshrs st' !! k = Some (with_target d l x (set_pending b m)).
Proof.
  intros Hok Hk Hm Hp Hfit Hu Hlk Hd Hnd H. pose proof (so_mshr _ _ Hok k m Hk Hm) as Hmok.
  destruct (store_ok_add A curTick k d pkt rt o s mp a st st' p m) as (Hok' & Hps & l & x & b & ? & ? & ? & Hm' & Ho); try done.
  - apply Hmok.
  - intros u Hn. unfold new_mark in Hn. destruct mp; [|done]. specialize (Hu u Hn). set_solver.
  - intros E. destruct (Hnd E) as (? & ? & ?). by split_and!.
  - split; [split; [by eapply store_ok_in|]|split; [done|by exists l, x, b]].
    intros i. destruct (decide (i = k)) as [->|Hi].
    + unfold labels, serving, numTargets. rewrite Hm', Hm. split_and!; [by destruct d|by destruct d|].
      intros Hn. exfalso. eapply front_targets; [apply Hmok|exact Hn].
    + destruct (calm_mark st (new_mark p mp) i) as (C1 & C2 & C3). unfold labels, serving, numTargets in *. rewrite (Ho i Hi). done.
Qed.

Lemma allocateTarget_ok A uninit curTick k pkt rt o a st st' p m : store_ok A st -> k ∈ A -> mshrs st !! k = Some m ->
  packets st !! pkt = Some p -> inside (mblk m) (pk p) -> (forall u, findNextSenderState p = Some u -> u ∈ A) ->
  allocateTarget uninit curTick k pkt rt o a st = Ok st' -> keeps A st st'.
Proof.
  intros Hok Hk Hm Hp Hfit Hu H. unfold allocateTarget in H. apply bind_Ok_inv in H as (p' & Hp' & H).
  apply get_pkt_Ok in Hp'. rewrite Hp in Hp'. injection Hp' as <-. apply bind_Ok_inv in H as (_ & _ & H).
  apply bind_Ok_inv in H as (m' & Hm' & H). apply mshr_get_Ok in Hm'. rewrite Hm in Hm'. injection Hm' as <-.
  apply bind_Ok_inv in H as (f & Hf & H). apply bind_Ok_inv in H as (tp & Htp & H). apply bind_Ok_inv in H as (d & Hd & H). destruct d.
  - apply bind_Ok_inv in H as (inv & Hinv & H). apply bind_Ok_inv in H as (st1 & H1 & H).
    assert (K1 : keeps A st st1 /\ mshrs st1 = mshrs st /\ exists p1, packets st1 !! pkt = Some p1 /\ obj_like p p1).
    { destruct inv; [|injection H1 as <-; split_and!; [by apply keeps_refl|done|exists p; split; [done|by split]]].
      apply bind_Ok_inv in H1 as (p1 & Hp1 & H1). injection H1 as <-. pose proof (like_replaceUpgrade _ _ _ Hp1) as L.
      split_and!; [by eapply keeps_put_pkt|apply put_pkt_mshrs|]. exists (mkP p1 (senderState p)). unfold put_pkt. rewrite Hp.
      cbn. rewrite lookup_insert_eq. split; [done|by split]. }
    destruct K1 as (K1 & Em & p1 & Hp1 & L & Es). eapply keeps_trans; [exact K1|].
    eapply (add_calm A _ _ true _ _ _ FromCPU true _ _ _ p1 m); [apply K1|done|by rewrite Em|done|by eapply pkt_like_inside| |intros _; discriminate|done|by intros|exact H].
    intros u. unfold findNextSenderState. rewrite Es. apply Hu.
  - eapply (add_calm A _ _ false _ _ _ FromCPU _ _ _ _ p m); [done|done|done|done|done|done|intros _; discriminate|done| |exact H].
    intros _. split_and!; [discriminate|intros _; discriminate|]. by intros ->.
Qed.

(** ** Snoops *)
Lemma like_copy uninit b p c : Packet.copy uninit b true p = Ok c -> pkt_like p c.
Proof.
  unfold Packet.copy. set (q := Packet.mk _ _ _ _ _ _ _ _). intros H.
  assert (Hq : pkt_like p q).
  { split; try done; unfold Packet.isSet, q; cbn [Packet.flags]; do 2 f_equal;
      rewrite !Z.land_lor_distr_l, <- !Z.land_assoc.
    - change (Z.land (Z.lor Packet.VALID_ADDR Packet.VALID_SIZE) Packet.VALID_ADDR) with Packet.VALID_ADDR.
      change (Z.land (Z.lor Packet.FROM_TRANSACTION Packet.FAILS_TRANSACTION) Packet.VALID_ADDR) with 0. rewrite Z.land_0_r, Z.lor_0_r.
      destruct b; [done|]. rewrite <- Z.land_assoc. change (Z.land Packet.COPY_FLAGS Packet.VALID_ADDR) with 0. by rewrite Z.land_0_r.
    - change (Z.land (Z.lor Packet.VALID_ADDR Packet.VALID_SIZE) Packet.VALID_SIZE) with Packet.VALID_SIZE.
      change (Z.land (Z.lor Packet.FROM_TRANSACTION Packet.FAILS_TRANSACTION) Packet.VALID_SIZE) with 0. rewrite Z.land_0_r, Z.lor_0_r.
      destruct b; [done|]. rewrite <- Z.land_assoc. change (Z.land Packet.COPY_FLAGS Packet.VALID_SIZE) with 0. by rewrite Z.land_0_r. }
  etransitivity; [exact Hq|]. clearbody q. destruct (Packet.isSet Packet.STATIC_DATA p); [|by apply (like_allocate uninit)].
  injection H as <-. etransitivity; [by apply (like_set Packet.STATIC_DATA)|apply like_data].
Qed.

Lemma fits_new_blk n r c : MemCmd.isRequest c = true -> 0 < n < 2 ^ 32 -> req_fits n r -> fits n (Packet.new_blk r c n).
Proof.
  intros Hc Hn Hr. pose proof Hr as (_ & a & s & Ea & Es & Ha & Hs & Hfit). unfold Packet.new_blk. rewrite Ea.
  assert (Hz : Z.land (Z.land a (unot 64 (n - 1))) (uw 32 (n - 1)) = 0).
  { rewrite (uw_small 32) by (unfold in_uw; lia). assert (in_uw 64 (n - 1)) by (unfold in_uw; lia). zbits. }
  unfold fits. cbn [Packet.cmd Packet.addr Packet.size Packet.req]. rewrite Hz. split_and!; try done; try lia.
  - apply Z.land_nonneg. lia.
  - apply (uw_land_r 64); [lia|]. by apply uw_range.
Qed.

Lemma inside_new_blk b r c : MemCmd.isRequest c = true -> 0 < b.2 < 2 ^ 32 -> req_fits b.2 r ->
  (forall a, Request._paddr r = Some a -> base b.2 a = b.1) -> inside b (Packet.new_blk r c b.2).
Proof.
  intros Hc Hn Hr Hb. pose proof (fits_new_blk _ _ _ Hc Hn Hr) as Hf. pose proof Hr as (_ & a & s & Ea & _).
  assert (Eu : uw 32 (b.2 - 1) = b.2 - 1) by (apply uw_small; unfold in_uw; lia).
  split; [done|]. unfold Packet.new_blk. rewrite Ea. cbn [Packet.addr Packet.req]. split; [|done].
  rewrite <- (Hb a Ea). unfold base. rewrite Eu, <- Z.land_assoc. by rewrite Z.land_diag.
Qed.

(** A packet that a cache can be asked to snoop. *)
Definition snoopable (A : gset Z) (n : Z * Z) (p : pobj) : Prop := inside n (pk p) /\ (forall u, findNextSenderState p = Some u -> u ∈ A) /\
  Packet.cmd (pk p) <> MemCmd.LockedRMWReadReq.

Lemma snoopable_like A n o o' : obj_like o o' -> snoopable A n o -> snoopable A n o'.
Proof.
  intros [L E] (Hf & Hu & Hc). split_and!; [by eapply pkt_like_inside| |by rewrite (like_locked _ _ L)].
  unfold findNextSenderState. by rewrite E.
Qed.

Lemma upd_pkt_ok A f st i st' o : store_ok A st -> packets st !! i = Some o -> (forall p p', f p = Ok p' -> pkt_like p p') ->
  upd_pkt f st i = Ok st' -> keeps A st st' /\ mshrs st' = mshrs st /\ (forall j q, packets st !! j = Some q -> exists q', packets st' !! j = Some q' /\ obj_like q q').
Proof.
  intros Hok Ho Hf H. unfold upd_pkt in H. apply bind_Ok_inv in H as (o' & Ho' & H). apply get_pkt_Ok in Ho'.
  rewrite Ho in Ho'. injection Ho' as <-. apply bind_Ok_inv in H as (p & Hp & H). injection H as <-.
  split_and!; [eapply keeps_put_pkt; eauto|apply put_pkt_mshrs|]. intros j q Hq. unfold put_pkt. rewrite Ho. cbn.
  destruct (decide (j = i)) as [->|]; [rewrite lookup_insert_eq; rewrite Ho in Hq; injection Hq as <-|rewrite lookup_insert_ne by done; exists q; split; [done|by split]].
  eexists. split; [done|split; [by apply Hf|done]].
Qed.

Lemma mshr_ok_post ps pm pi pd m : mshr_ok ps m -> mshr_ok ps (set_post pm pi pd m).
Proof. by intros [[] ? ? ?]. Qed.

Lemma set_post_ok A st k f st' : store_ok A st -> k ∈ A ->
  (forall m, exists pm pi pd, f m = Ok (set_post pm pi pd m)) -> upd f st k = Ok st' -> keeps A st st' /\ packets st' = packets st.
Proof.
  intros Hok Hk Hf H. unfold upd in H. apply bind_Ok_inv in H as (m & Hm & H). apply mshr_get_Ok in Hm.
  destruct (Hf m) as (pm & pi & pd & E). rewrite E in H. injection H as <-. split; [|done].
  apply (keeps_flags A st k m); try done. by apply mshr_ok_post, (so_mshr _ _ Hok k).
Qed.

Lemma like_respond p p' : (let! p := Packet.setCacheResponding p in Packet.setResponderHadWritable p) = Ok p' -> pkt_like p p'.
Proof.
  intros H. apply bind_Ok_inv in H as (q & Hq & H). unfold Packet.setCacheResponding, Packet.setResponderHadWritable in *. ok_inv. subst.
  etransitivity; by apply like_set.
Qed.

Lemma save_snoop_ok A uninit curTick k pkt o w st st' p m : store_ok A st -> k ∈ A -> mshrs st !! k = Some m -> inService m = true ->
  packets st !! pkt = Some p -> snoopable A (mblk m) p -> save_snoop uninit curTick k pkt o w st = Ok st' ->
  keeps A st st' /\ is_Some (packets st' !! pkt).
Proof.
  intros Hok Hk Hm Hs Hp (Hfit & Hu & Hlk) H. unfold save_snoop in H. apply bind_Ok_inv in H as (p' & Hp' & H).
  apply get_pkt_Ok in Hp'. rewrite Hp in Hp'. injection Hp' as <-. apply bind_Ok_inv in H as (m' & Hm' & H). apply mshr_get_Ok in Hm'.
  rewrite Hm in Hm'. injection Hm' as <-. apply bind_Ok_inv in H as (cp & Hcp & H).
  pose proof (mo_blk _ _ (mo_core _ _ (so_mshr _ _ Hok k m Hk Hm))) as Hblk.
  assert (Hcs : snoopable A (mblk m) (mkP cp.1 cp.2)).
  { destruct w.
    - apply bind_Ok_inv in Hcp as (c & Hc & Hcp). injection Hcp as <-. pose proof (like_copy _ _ _ _ Hc) as L.
      split_and!; [by eapply pkt_like_inside|exact Hu|]. cbn. by rewrite (like_locked _ _ L).
    - injection Hcp as <-. split_and!; [|by intros|cbn; unfold Packet.new_blk; by destruct (Request._paddr _)]. apply inside_new_blk; [apply Hfit|exact Hblk|apply Hfit..]. }
  destruct (alloc_pkt cp.1 cp.2 st) as [cpi st1] eqn:Ea.
  destruct (keeps_alloc_pkt A st _ _ _ _ Hok Ea) as (K1 & Hcpi & Em1 & Hj1).
  apply bind_Ok_inv in H as (st2 & H2 & H).
  assert (K2 : keeps A st1 st2 /\ mshrs st2 = mshrs st1 /\ forall j q, packets st1 !! j = Some q -> exists q', packets st2 !! j = Some q' /\ obj_like q q').
  { destruct w; [|destruct (_ && _); [|injection H2 as <-; split_and!; [by apply keeps_refl, K1|done|]; intros j q Hq; exists q; split; [done|by split]]].
    - eapply upd_pkt_ok; [apply K1|by apply Hj1|apply like_respond|exact H2].
    - eapply upd_pkt_ok; [apply K1|by apply Hj1| |exact H2]. intros q q' Hq. unfold Packet.setSatisfied in Hq. ok_inv. subst. by apply like_set. }
  destruct K2 as (K2 & Em2 & Hj2). destruct (Hj2 _ _ Hcpi) as (cp' & Hcp' & Lcp). destruct (snoopable_like A _ _ _ Lcp Hcs) as (Hf' & Hu' & Hlk').
  apply bind_Ok_inv in H as (st3 & H3 & H).
  destruct (add_calm A curTick k false cpi curTick o FromSnoop (downstreamPending m && TargetList.needsWritable (targets m)) false st2 st3 cp' m)
    as (K3 & Ep3 & _); try done; [apply K2|by rewrite Em2, Em1| |].
  { intros _. split_and!; [done|congruence|]. by intros _ [? _]%andb_prop. }
  assert (K123 : keeps A st st3) by (eapply keeps_trans; [exact K1|]; by eapply keeps_trans).
  assert (Hpkt : is_Some (packets st3 !! pkt)) by (rewrite Ep3; destruct (Hj2 _ _ (Hj1 _ _ Hp)) as (q & -> & _); by eexists).
  destruct (_ || _); [|by injection H as <-].
  destruct (set_post_ok A st3 k _ st' (proj1 K123) Hk ltac:(by intros; eexists _, _, _) H) as [K4 Ep4].
  split; [by eapply keeps_trans|by rewrite Ep4].
Qed.

Lemma replaceUpgrades_pkt uninit k d st st' i o : replaceUpgrades uninit k d st = Ok st' -> packets st !! i = Some o ->
  exists o', packets st' !! i = Some o' /\ obj_like o o'.
Proof.
  intros H. unfold replaceUpgrades in H. apply bind_Ok_inv in H as (m & Hm & H).
  destruct (TargetList.hasUpgrade _); [|injection H as <-; intros Ho; exists o; split; [done|by split]].
  apply bind_Ok_inv in H as (st1 & H1 & H). unfold upd in H. apply bind_Ok_inv in H as (m1 & Hm1 & H). injection H as <-. cbn [packets put].
  clear Hm1 Hm. revert st o H1. generalize (items (list_of d m)) as l. induction l as [|x l IH]; intros st o H1 Ho; cbn [replace_loop] in H1.
  - injection H1 as <-. exists o. split; [done|by split].
  - apply bind_Ok_inv in H1 as (q & Hq & H1). apply bind_Ok_inv in H1 as (p & Hp & H1). apply get_pkt_Ok in Hq.
    unfold put_pkt in H1. rewrite Hq in H1. destruct (decide (Target.pkt x = i)) as [<-|].
    + rewrite Ho in Hq. injection Hq as <-. destruct (IH _ (mkP p (senderState o)) H1) as (o' & Ho' & L & Es); [cbn; by rewrite lookup_insert_eq|].
      exists o'. split; [done|]. split; [|done]. etransitivity; [by eapply like_replaceUpgrade|exact L].
    + apply (IH _ o H1). cbn. by rewrite lookup_insert_ne.
Qed.

Lemma calm_inService st st' k m m' : calm st st' -> mshrs st !! k = Some m -> mshrs st' !! k = Some m' -> inService m' = inService m.
Proof. intros C Hm Hm'. destruct (C k) as (_ & C2 & _). unfold serving in C2. by rewrite Hm, Hm' in C2. Qed.

(** [replaceUpgrades] does not change what the register says of its block. *)
Lemma replaceUpgrades_mshr A uninit k d st st' m : store_ok A st -> replaceUpgrades uninit k d st = Ok st' -> mshrs st !! k = Some m ->
  exists m', mshrs st' !! k = Some m' /\ mblk m' = mblk m.
Proof.
  intros Hok H Hm. unfold replaceUpgrades in H. apply bind_Ok_inv in H as (m0 & Hm0 & H).
  destruct (TargetList.hasUpgrade _); [|injection H as <-; by exists m]. apply bind_Ok_inv in H as (st1 & H1 & H).
  destruct (replace_loop_ok A _ _ _ _ Hok H1) as [_ E]. unfold upd in H. apply bind_Ok_inv in H as (m1 & Hm1 & H). injection H as <-.
  apply mshr_get_Ok in Hm1. rewrite E, Hm in Hm1. injection Hm1 as <-. eexists. cbn [mshrs put]. rewrite lookup_insert_eq. split; [done|by destruct d].
Qed.

Lemma handleSnoop_ok A uninit curTick k pkt o st b st' p m : store_ok A st -> k ∈ A -> mshrs st !! k = Some m ->
  packets st !! pkt = Some p -> snoopable A (mblk m) p -> handleSnoop uninit curTick k pkt o st = Ok (b, st') -> keeps A st st'.
Proof.
  intros Hok Hk Hm Hp Hsn H. unfold handleSnoop in H. apply bind_Ok_inv in H as (p' & Hp' & H).
  apply get_pkt_Ok in Hp'. rewrite Hp in Hp'. injection Hp' as <-. apply bind_Ok_inv in H as (nw & Hnw & H). apply bind_Ok_inv in H as (_ & _ & H).
  apply bind_Ok_inv in H as (m' & Hm' & H). apply mshr_get_Ok in Hm'. rewrite Hm in Hm'. injection Hm' as <-.
  destruct (negb (inService m) || _) eqn:Es.
  - apply bind_Ok_inv in H as (st1 & H1 & H). injection H as <- <-. destruct (nw || _); [|injection H1 as <-; by apply keeps_refl].
    apply bind_Ok_inv in H1 as (st2 & H2 & H1). pose proof (replaceUpgrades_ok _ _ _ _ _ _ Hok Hk H2) as K2.
    eapply keeps_trans; [exact K2|]. by eapply replaceUpgrades_ok; [apply K2| |].
  - apply orb_false_elim in Es as [Es _]. apply negb_false_iff in Es.
    apply bind_Ok_inv in H as (st1 & H1 & H).
    assert (K1 : keeps A st st1 /\ (exists p1, packets st1 !! pkt = Some p1 /\ obj_like p p1) /\ exists m1, mshrs st1 !! k = Some m1 /\ mblk m1 = mblk m).
    { destruct (nw || _); [|injection H1 as <-; split_and!; [by apply keeps_refl|exists p; split; [done|by split]|by exists m]].
      split_and!; [by eapply replaceUpgrades_ok|by eapply replaceUpgrades_pkt|by eapply replaceUpgrades_mshr]. }
    destruct K1 as (K1 & (p1 & Hp1 & L1) & m1 & Hm1 & Hb1).
    apply bind_Ok_inv in H as (f & Hf & H). apply bind_Ok_inv in H as (tp & Htp & H). apply bind_Ok_inv in H as (inv & Hinv & H).
    destruct (inv || _); [injection H as <- <-; done|].
    apply bind_Ok_inv in H as (pm & Hpm & H). apply bind_Ok_inv in H as (st2 & H2 & H).
    assert (K2 : keeps A st1 st2 /\ is_Some (packets st2 !! pkt)).
    { destruct (pm || _); [|injection H2 as <-; split; [by apply keeps_refl, K1|by eexists]].
      eapply (save_snoop_ok A _ _ _ _ _ _ _ _ p1 m1); [apply K1|done|done| |done| |exact H2].
      - rewrite (calm_inService st st1 k m m1); [done|apply K1|done..].
      - rewrite Hb1. by eapply snoopable_like. }
    destruct K2 as [K2 [p2 Hp2]]. apply bind_Ok_inv in H as (st3 & H3 & H). injection H as _ <-.
    eapply keeps_trans; [exact K1|]. eapply keeps_trans; [exact K2|]. destruct (negb nw && _); [|injection H3 as <-; by apply keeps_refl, K2].
    apply bind_Ok_inv in H3 as (st4 & H4 & H3).
    destruct (set_post_ok A st2 k _ st4 (proj1 K2) Hk ltac:(by intros; eexists _, _, _) H4) as [K4 Ep4].
    eapply keeps_trans; [exact K4|]. eapply upd_pkt_ok; [apply K4|by rewrite Ep4| |exact H3]. intros q q' [= <-]. by apply like_set.
Qed.
