(* ===== verification/MshrService.v ===== *)
(** * Sending, serving and deallocating registers

    The operations that move a register between the lists of its queue keep the
    invariants of the registers and of the queue. *)

From S2P Require Import Prelude Bits Packet CacheQueue Mshr MshrOps MshrLists MshrMarks MshrInv MshrSteps.
Import Target (FromCPU, FromSnoop, FromPrefetcher).
Import MSHR TargetList (items, with_items).
Import MSHROps.

(** The other registers stay as they are in their queues. *)
Definition calm_but (k : Z) (st st' : store) : Prop := forall i, i <> k -> labels st' i = labels st i /\
  serving (mshrs st') i = serving (mshrs st) i /\ (numTargets (mshrs st) i = 0%nat -> numTargets (mshrs st') i = 0%nat).

Lemma calm_calm_but k st st' : calm st st' -> calm_but k st st'.
Proof. intros C i _. apply C. Qed.

Lemma calm_but_trans k st1 st2 st3 : calm_but k st1 st2 -> calm_but k st2 st3 -> calm_but k st1 st3.
Proof. intros H1 H2 i Hi. destruct (H1 i Hi) as (?&?&?), (H2 i Hi) as (?&?&?). split_and!; [congruence|congruence|auto]. Qed.

Lemma calm_but_put k st m : calm_but k st (put st k m).
Proof. intros i Hi. unfold labels, serving, numTargets. cbn [mshrs put]. by rewrite lookup_insert_ne. Qed.

Lemma calm_but_others k st st' ids q : calm_but k st st' -> queue_ok ids (mshrs st) q -> others_same ids (mshrs st) (mshrs st') k.
Proof. intros C Hq j Hj Hjk. destruct (C j Hjk) as (C1 & C2 & C3). split_and!; [|done|done]. eapply labels_Some; [exact C1|]. by apply (ok_dom _ _ _ Hq). Qed.

(** ** Sending *)
Lemma mshr_core_service ps m b pm pi pd w : mshr_core ps m -> mshr_core ps (set_whole w (set_post pm pi pd (set_inService b m))).
Proof. by intros []. Qed.

(** What a register that is sent keeps. *)
Definition same_lists (m m' : MSHR.t) : Prop := lowered (items (targets m)) (items (targets m')) /\
  lowered (items (deferredTargets m)) (items (deferredTargets m')) /\ label m' = label m.

Lemma clear_targets A k m m1 st : store_ok A st -> k ∈ A -> mshrs st !! k = Some m -> mshr_core (packets st) m1 ->
  items (targets m1) = items (targets m) -> items (deferredTargets m1) = items (deferredTargets m) -> downstreamPending m1 = downstreamPending m ->
  exists st', (if negb (downstreamPending m1) then clear_range clearDownstreamPending k false (all_of false m1) (put st k m1) else Ok (put st k m1)) = Ok st' /\
    lower (put st k m1) st' /\ partial [] [] st' /\ exists m2, mshrs st' !! k = Some m2 /\ (downstreamPending m2 = false -> unmarked (items (targets m2))).
Proof.
  intros Hok Hk Hm Hc E1 E2 E3. assert (Hm1 : mshrs (put st k m1) !! k = Some m1) by (cbn; by rewrite lookup_insert_eq).
  assert (Hp1 : partial [] [] (put st k m1)) by (eapply partial_put; [apply Hok|done..|unfold marks_m; by rewrite E1, E2|done]).
  destruct (downstreamPending m1) eqn:Ed; cbn [negb].
  - eexists. split_and!; [done|apply lower_refl|done|]. exists m1. split; [done|]. congruence.
  - destruct (clear_range_ok (S (count_down (put st k m1))) clearDownstreamPending k false (all_of false m1) (clears_all _) [] [] (put st k m1) m1)
      as (st2 & m2 & E & L & P & Hm2 & _ & U); try done; [set_solver|unfold down; by rewrite Hm1|apply Forall_forall; intros j Hj%elem_of_seq; lia|lia|].
    exists st2. split_and!; [done..|]. exists m2. split; [done|]. intros _.
    apply Forall_lookup. intros j y Hy. apply (U j y); [|exact Hy]. apply elem_of_seq.
    pose proof (lower_m_length _ _ false (lw_m _ _ L _ _ _ Hm1 Hm2)) as Hlen. apply lookup_lt_Some in Hy. cbn in *. lia.
Qed.

Lemma mshr_ok_sent ps m m1 m2 : mshr_ok ps m -> mshr_core ps m1 -> items (targets m1) = items (targets m) -> inService m1 = true ->
  lower_m m1 m2 -> (downstreamPending m2 = false -> unmarked (items (targets m2))) -> mshr_ok ps m2.
Proof.
  intros [_ (x & l & Hx & Hsx & Hl) _ _] Hc1 E1 Hi M U. split; [by eapply mshr_core_lower|..].
  - destruct M as (b' & lt & ld & -> & H1 & _). cbn in *. rewrite E1, Hx in H1.
    inversion H1 as [|? y ? l' Hxy Hl']; subst. exists y, l'. split_and!; [done|by destruct Hxy as [->| ->]|].
    by eapply lowered_Forall; [|exact Hl'|exact Hl].
  - destruct M as (b' & lt & ld & -> & _). cbn. congruence.
  - intros _. exact U.
Qed.

(** Sending the request of a register always works. *)
Lemma markInService_ok A k b st m : store_ok A st -> k ∈ A -> mshrs st !! k = Some m -> inService m = false ->
  exists st' m', MSHROps.markInService k b st = Ok st' /\ store_ok A st' /\ calm_but k st st' /\ mshrs st' !! k = Some m' /\
    inService m' = true /\ wasWholeLineWrite m' = isWholeLineWrite m /\ same_lists m m'.
Proof.
  intros Hok Hk Hm Hi. unfold MSHROps.markInService. rewrite (get_Some _ _ _ Hm). cbn [rbind]. rewrite Hi. cbn [negb check rbind].
  set (m1 := set_post _ false false (set_inService true m)). pose proof (so_mshr _ _ Hok k m Hk Hm) as Hmo.
  assert (Hc1 : mshr_core (packets st) m1) by (by destruct Hmo as [[] ? ? ?]).
  destruct (clear_targets A k m m1 st) as (st2 & E & L & P & m2 & Hm2 & U); try done. rewrite E. cbn [rbind].
  unfold upd. rewrite (get_Some _ _ _ Hm2). cbn [rbind]. set (m' := set_whole _ m2).
  pose proof (lw_m _ _ L k m1 m2 ltac:(cbn; by rewrite lookup_insert_eq) Hm2) as M.
  pose proof (mshr_ok_sent _ m m1 m2 Hmo Hc1 eq_refl eq_refl M U) as Hok2.
  assert (Hok' : store_ok A st2).
  { apply (store_ok_lower_at A st k m m1); try done. intros m0 Hm0. rewrite Hm2 in Hm0. by injection Hm0 as <-. }
  assert (K : keeps A st2 (put st2 k m')).
  { apply (keeps_flags A st2 k m2); try done. rewrite (lw_pkts _ _ L). by destruct Hok2 as [[] ? ? ?]. }
  eexists _, m'. split_and!; [done|apply K| |cbn; by rewrite lookup_insert_eq|..].
  - eapply calm_but_trans; [apply (calm_but_put k st m1)|]. eapply calm_but_trans; [apply calm_calm_but; by apply calm_lower|]. apply calm_but_put.
  - by destruct M as (b' & lt & ld & -> & _).
  - by destruct M as (b' & lt & ld & -> & _).
  - by destruct M as (b' & lt & ld & -> & ? & ? & _).
Qed.

(** ** Promotion of deferred targets *)
Lemma split_until_spec f l a b : split_until f l = Ok (a, b) -> l = a ++ b /\ Forall (fun x => f x = Ok false) a.
Proof.
  revert a b. induction l as [|x l IH]; intros a b H; [by injection H as <- <-|]. cbn in H. apply bind_Ok_inv in H as (c & Hc & H).
  destruct c; [by injection H as <- <-|]. apply bind_Ok_inv in H as ([a' b'] & Hr & H). injection H as <- <-.
  destruct (IH _ _ Hr) as [-> ?]. split; [done|]. by constructor.
Qed.

Lemma split_until_Ok f l : (forall x, x ∈ l -> exists b, f x = Ok b) -> exists a b, split_until f l = Ok (a, b).
Proof.
  induction l as [|x l IH]; intros H; [by eexists _, _|]. destruct (H x) as (c & Hc); [set_solver|]. cbn. rewrite Hc. cbn [rbind].
  destruct c; [by eexists _, _|]. destruct IH as (a & b & E); [intros; apply H; set_solver|]. rewrite E. by eexists _, _.
Qed.

(** Targets that come to a list whose flags cover them already. *)
Lemma list_ok_more ps l xs : list_ok ps l -> (forall x, x ∈ xs -> exists p, pkt_of ps x = Some p /\ inside (lblk l) p /\
    (MemCmd.needsWritable (Packet.cmd p) = true -> TargetList.needsWritable l = true)) ->
  list_ok ps (with_items (items l ++ xs) l).
Proof.
  intros [Hf Hw Hb Hwr] Hx. split; cbn; try done.
  - intros x [?|Hi]%elem_of_app; [by apply Hf|]. destruct (Hx x Hi) as (p & ? & ? & _). by exists p.
  - intros x p [?|Hi]%elem_of_app Hp Hs Hn; [by eapply Hw|]. destruct (Hx x Hi) as (p' & Hp' & _ & Hn'). rewrite Hp in Hp'. injection Hp' as <-. by apply Hn'.
  - intros b H. destruct (Hwr b H) as (x & p & ? & ?). exists x, p. split; [set_solver|done].
Qed.

(** Recomputed flags of some of the targets of a list. *)
Lemma list_ok_populate ps l xs : list_ok ps l -> (forall x, x ∈ xs -> exists p, pkt_of ps x = Some p /\ inside (lblk l) p) ->
  exists l', TargetList.populateFlags ps (with_items xs l) = Ok l' /\ items l' = xs /\ lblk l' = lblk l /\
    list_ok ps l' /\ (xs = [] -> TargetList.isReset l' = true) /\
    (TargetList.needsWritable l' = true -> exists x p, x ∈ xs /\ pkt_of ps x = Some p /\ Target.source x <> FromSnoop /\ MemCmd.needsWritable (Packet.cmd p) = true).
Proof.
  intros Hl Hx. destruct (populateFlags_ok ps (with_items xs l)) as (l' & E & Hi & Hb & Ha & Hok); [done|apply Hl|].
  exists l'. split_and!; try done; [unfold lblk; by rewrite Hb, Ha|..].
  - intros ->. rewrite populateFlags_nil in E by done. by injection E as <-.
  - intros Hn. by destruct (populate_writable _ _ _ _ E Hn).
Qed.

(** All requests of a register in the order in which they came. *)
Definition all_targets (m : MSHR.t) : list Target.t := items (targets m) ++ items (deferredTargets m).

(** Requests by their packets and numbers. *)
Definition reqs (l : list Target.t) : list (Z * Z) := map (fun x => (Target.pkt x, Target.order x)) l.

Lemma lowered_reqs l l' : lowered l l' -> reqs l' = reqs l.
Proof. intros H. unfold reqs. induction H as [|x y l l' [->| ->] _ IH]; cbn; [done|by rewrite IH..]. Qed.

Lemma reqs_app l l' : reqs (l ++ l') = reqs l ++ reqs l'.
Proof. apply map_app. Qed.

(** What serving a response reads of the register. *)
Definition serve_view (m : MSHR.t) : bool * bool * bool * bool * bool * Z :=
  (inService m, isForward m, wasWholeLineWrite m, postInvalidate m, postDowngrade m, blkSize m).

(** What a promotion for a response does to the register [k]. *)
Record promoted (A : gset Z) (k : Z) (st : store) (m : MSHR.t) (st' : store) (m' : MSHR.t) : Prop := {
  pr_keeps : keeps A st st';
  pr_at : mshrs st' !! k = Some m';
  pr_pkts : packets st' = packets st;
  pr_pending : downstreamPending m' = downstreamPending m;
  pr_order : lowered (all_targets m) (all_targets m');
  pr_defer : TargetList.needsWritable (deferredTargets m') = true -> TargetList.needsWritable (deferredTargets m) = true;
  pr_prefix : exists l, reqs (items (targets m')) = reqs (items (targets m)) ++ l;
  pr_view : serve_view m' = serve_view m;
}.

Lemma promoted_refl A k st m : store_ok A st -> mshrs st !! k = Some m -> promoted A k st m st m.
Proof. intros Hok Hm. split; try done; [apply lowered_refl|]. exists []. by rewrite app_nil_r. Qed.

Lemma lowered_app l1 l1' l2 l2' : lowered l1 l1' -> lowered l2 l2' -> lowered (l1 ++ l2) (l1' ++ l2').
Proof. apply Forall2_app. Qed.

(** The packets of the deferred targets. *)
Lemma deferred_pkt A st k m x : store_ok A st -> k ∈ A -> mshrs st !! k = Some m -> x ∈ items (deferredTargets m) ->
  Target.source x = FromCPU /\ exists p, packets st !! Target.pkt x = Some p /\ inside (mblk m) (pk p).
Proof.
  intros Hok Hk Hm Hx. destruct (mo_core _ _ (so_mshr _ _ Hok k m Hk Hm)) as [_ HD _ Hs Hc _ _ _].
  split; [by eapply Forall_forall in Hc|]. destruct (lo_fits _ _ HD x Hx) as (p & Hp & Hf). unfold pkt_of in Hp.
  destruct (packets st !! Target.pkt x) as [o|]; [|done]. injection Hp as <-. exists o. by rewrite <- Hs.
Qed.

(** Moving the first [n] deferred targets, whose marks have been cleared. *)
Lemma promote_step A st k m n : store_ok A st -> k ∈ A -> mshrs st !! k = Some m ->
  unmarked (take n (items (deferredTargets m))) -> inService m = true ->
  (forall x p, x ∈ take n (items (deferredTargets m)) -> packets st !! Target.pkt x = Some p -> MemCmd.needsWritable (Packet.cmd (pk p)) = true ->
     TargetList.needsWritable (targets m) = true) ->
  exists dl, TargetList.populateFlags (packets st) (with_items (drop n (items (deferredTargets m))) (deferredTargets m)) = Ok dl /\
    let m' := set_deferred dl (set_targets (with_items (items (targets m) ++ take n (items (deferredTargets m))) (targets m)) m) in
    promoted A k st m (put st k m') m'.
Proof.
  intros Hok Hk Hm Hu Hi Hnw. destruct (so_mshr _ _ Hok k m Hk Hm) as [Hc (x & l & Hx & Hsx & Hl) _ Hst].
  assert (Hpk := fun x Hx => deferred_pkt A st k m x Hok Hk Hm Hx). destruct Hc as [HT HD Hs Hds Hcpu Hblk Hlk Hr].
  set (d := items (deferredTargets m)) in *. assert (Hd : d = take n d ++ drop n d) by by rewrite take_drop.
  destruct (list_ok_populate (packets st) (deferredTargets m) (drop n d) HD) as (dl & E & Hi' & Hb' & HD' & Hr' & Hnd).
  { intros y Hy. apply (lo_fits _ _ HD). fold d. rewrite Hd. set_solver. }
  exists dl. split; [done|]. intros m'. assert (Hcn : Forall (fun x => Target.source x = FromCPU) (take n d)) by (by apply Forall_take).
  assert (Hm' : mshr_ok (packets st) m').
  { split; [split|..]; cbn; try done.
    - apply list_ok_more; [done|]. intros y Hy. destruct (Hpk y) as (_ & p & Hp & Hf); [fold d; rewrite Hd; set_solver|].
      exists (pk p). unfold pkt_of. rewrite Hp, Hs. split_and!; [done..|]. by apply (Hnw y).
    - by rewrite Hb'.
    - rewrite Hi'. by apply Forall_drop.
    - intros y p [Hy|Hy]%elem_of_app Hp Hl'; [by apply (Hlk y p)|]. eapply Forall_forall in Hcn; [|exact Hy]. by rewrite Hcn.
    - rewrite Hi'. exact Hr'.
    - rewrite Hx. exists x, (l ++ take n d). split_and!; [done..|]. apply Forall_app. split; [done|]. by eapply Forall_impl; [exact Hcn|intros ? ->].
    - congruence.
    - intros _ Hdn. apply Forall_app. split; [by apply Hst|done]. }
  assert (Hmk : marks_m (packets st) m' ≡ₚ marks_m (packets st) m).
  { unfold marks_m, m'. cbn [targets deferredTargets set_deferred set_targets items with_items]. rewrite Hi', marks_l_app, <- app_assoc. fold d.
    by rewrite <- marks_l_app, take_drop. }
  split; cbn; try done.
  - split; [apply (store_ok_put A st k m); try done; by rewrite Hmk|]. apply (calm_put st k m); try done.
    intros Hn. exfalso. eapply (front_targets m); [|exact Hn]. by exists x, l.
  - by rewrite lookup_insert_eq.
  - unfold all_targets. cbn. rewrite Hi', <- app_assoc. fold d. rewrite take_drop. apply lowered_refl.
  - intros Hn'. destruct (Hnd Hn') as (y & p & Hy & Hp & Hys & Hyn). apply (lo_writable _ _ HD y p); try done. fold d. rewrite Hd. set_solver.
  - rewrite reqs_app. by eexists.
Qed.

Lemma promoteIf_ok A pred k st m : store_ok A st -> k ∈ A -> mshrs st !! k = Some m -> inService m = true -> downstreamPending m = false ->
  (forall p, inside (mblk m) p -> exists b, pred p = Ok b /\
     (b = true -> MemCmd.needsWritable (Packet.cmd p) = true -> TargetList.needsWritable (targets m) = true)) ->
  exists st' m', promoteIf pred k st = Ok st' /\ promoted A k st m st' m' /\ TargetList.needsWritable (targets m') = TargetList.needsWritable (targets m).
Proof.
  intros Hok Hk Hm Hi Hdn Hp. unfold promoteIf. rewrite (get_Some _ _ _ Hm). cbn [rbind]. rewrite Hdn. cbn [negb check rbind].
  assert (Hpk := fun x Hx => deferred_pkt A st k m x Hok Hk Hm Hx).
  match goal with |- context [split_until ?f ?l] => set (F := f); destruct (split_until_Ok F l) as (a & b & E) end.
  { intros x Hx. destruct (Hpk x Hx) as (Hs & p & Hpx & Hf). destruct (Hp _ Hf) as (c & Hc & _). exists (negb c). unfold F.
    rewrite Hs. cbn. rewrite (get_pkt_Some _ _ _ Hpx). cbn [rbind]. by rewrite Hc. }
  rewrite E. cbn [rbind fst snd]. destruct (split_until_spec _ _ _ _ E) as [Ed Fa].
  destruct (clear_prefix A st k m true (length a)) as (st2 & m2 & Ec & L & Hok2 & Hm2 & Hu2); try done; [cbn; rewrite Ed, length_app; lia|].
  rewrite Ec. cbn [rbind]. rewrite (get_Some _ _ _ Hm2). cbn [rbind]. pose proof (lw_m _ _ L _ _ _ Hm Hm2) as M.
  destruct M as (c & lt & ld & E2 & Ht & Hd & Hc).
  destruct (promote_step A st2 k m2 (length a)) as (dl & Epop & P); try done; [by rewrite E2| |].
  { intros x p Hx Hpx Hn. rewrite (lw_pkts _ _ L) in Hpx. rewrite E2 in Hx |- *. cbn in *.
    rewrite Ed in Hd. apply Forall2_app_inv_l in Hd as (a' & b' & Ha' & Hb' & ->).
    rewrite (Forall2_length _ _ _ Ha'), take_app_length in Hx. apply list_elem_of_lookup in Hx as (j & Hj).
    destruct (Forall2_lookup_r _ _ _ _ _ Ha' Hj) as (y & Hy & Hxy). assert (Hyp : Target.pkt y = Target.pkt x) by (by destruct Hxy as [->| ->]).
    eapply Forall_lookup_1 in Fa; [|exact Hy]. unfold F in Fa. destruct (Hpk y) as (Hs & p' & Hp' & Hf); [rewrite Ed; apply elem_of_app; left; by eapply list_elem_of_lookup_2|].
    rewrite Hs in Fa. cbn in Fa. rewrite (get_pkt_Some _ _ _ Hp') in Fa. cbn [rbind] in Fa. rewrite Hyp, Hpx in Hp'. injection Hp' as <-.
    destruct (Hp _ Hf) as (c' & Hc' & Hw). rewrite Hc' in Fa. destruct c'; [|done]. by apply Hw. }
  cbn [deferredTargets set_targets]. rewrite Epop. cbn [rbind]. assert (W : TargetList.needsWritable (targets m2) = TargetList.needsWritable (targets m)) by (by rewrite E2).
  match type of P with let m' := ?x in _ => exists (put st2 k x), x; cbv zeta in P end. split; [done|]. split; [|exact W]. destruct P as [K At Pk Pn Or Pd Px Pv]. split.
  - eapply keeps_trans; [split; [exact Hok2|by apply calm_lower]|exact K].
  - exact At.
  - rewrite Pk. apply L.
  - rewrite Pn, E2, Hdn. destruct c; [by rewrite Hc in Hdn|done].
  - eapply lowered_trans; [|exact Or]. rewrite E2. by apply lowered_app.
  - intros Hn. specialize (Pd Hn). by rewrite E2 in Pd.
  - destruct Px as (l & Px). exists l. rewrite Px, E2. cbn [targets set_pending set_targets set_deferred items with_items]. f_equal. by apply lowered_reqs.
  - rewrite Pv. by rewrite E2.
Qed.

Lemma fits_writable n p : fits n p -> Packet.needsWritable p = Ok (MemCmd.needsWritable (Packet.cmd p)).
Proof. intros (Hr & _). unfold Packet.needsWritable. by rewrite Hr. Qed.

Lemma promoteReadable_ok A k st m : store_ok A st -> k ∈ A -> mshrs st !! k = Some m -> inService m = true -> downstreamPending m = false ->
  exists st' m', promoteReadable k st = Ok st' /\ promoted A k st m st' m' /\ TargetList.needsWritable (targets m') = TargetList.needsWritable (targets m).
Proof.
  intros Hok Hk Hm Hi Hd. unfold promoteReadable. rewrite (get_Some _ _ _ Hm). cbn [rbind]. pose proof (promoted_refl A k st m Hok Hm) as Hr.
  destruct (TargetList.empty _); [by exists st, m|]. unfold hasPostInvalidate. rewrite Hi. cbn [check rbind].
  destruct (postInvalidate m); [by exists st, m|]. apply promoteIf_ok; try done. intros p Hp. rewrite (fits_writable _ _ (proj1 Hp)). cbn [rbind].
  destruct (Request.isCacheInvalidate _); [by exists false|]. eexists. split; [done|]. intros E. apply negb_true_iff in E. congruence.
Qed.

(** The assertion of [promoteWritable] is the only thing that can go wrong. *)
Lemma promoteWritable_ok A k st m : store_ok A st -> k ∈ A -> mshrs st !! k = Some m -> inService m = true -> downstreamPending m = false ->
  (exists st' m', promoteWritable k st = Ok st' /\ promoted A k st m st' m') \/
  (promoteWritable k st = Err AssertFail /\ TargetList.needsWritable (targets m) = true /\ TargetList.needsWritable (deferredTargets m) = true).
Proof.
  intros Hok Hk Hm Hi Hd. unfold promoteWritable. rewrite (get_Some _ _ _ Hm). cbn [rbind]. pose proof (promoted_refl A k st m Hok Hm) as Hr.
  unfold TargetList.empty. destruct (items (deferredTargets m)) as [|x l] eqn:E; [left; by exists st, m|].
  unfold front. rewrite E. cbn [rbind]. destruct (deferred_pkt A st k m x Hok Hk Hm) as (_ & p & Hp & _); [rewrite E; set_solver|].
  rewrite (get_pkt_Some _ _ _ Hp). cbn [rbind]. destruct (TargetList.needsWritable (deferredTargets m)) eqn:Edw; [|left; by exists st, m].
  unfold hasPostInvalidate, hasPostDowngrade. rewrite Hi. cbn [check rbind].
  destruct (postInvalidate m); cbn [rbind]; [left; by exists st, m|]. destruct (postDowngrade m); cbn [rbind]; [left; by exists st, m|].
  destruct (Request.isCacheInvalidate _); cbn [orb andb negb]; [left; by exists st, m|].
  destruct (TargetList.needsWritable (targets m)) eqn:Ew; cbn [negb check rbind]; [by right|]. left.
  set (m1 := set_targets _ m). assert (K : keeps A st (put st k m1)).
  { apply (keeps_flags A st k m); try done. destruct (so_mshr _ _ Hok k m Hk Hm) as [[HT ? ? ? ? ? ? ?] ? ? ?].
    split; [split|..]; try done. destruct HT as [? ? ? ?]. by split. }
  destruct (promoteIf_ok A (fun p => Ok (negb (Request.isCacheInvalidate (Packet.req p)))) k (put st k m1) m1) as (st' & m' & E' & P & _); try done.
  - apply K.
  - cbn. by rewrite lookup_insert_eq.
  - intros q _. by eexists.
  - exists st', m'. split; [done|]. destruct P as [K2 At Pk Pn Or Pd Px Pv]. split; try done. by eapply keeps_trans.
Qed.
