(* ===== verification/MshrResp.v ===== *)
(** * Responses

    The targets that a response serves are taken from the register, in order, and
    served one by one; what is left stays in the register. Only the assertions on
    the single targets can fail. *)

From S2P Require Import Prelude Bits Packet CacheQueue Mshr MshrOps MshrLists MshrMarks MshrInv MshrSteps MshrService.
Import Target (FromCPU, FromSnoop, FromPrefetcher).
Import MSHR TargetList (items, with_items).
Import MSHROps BaseCache.

(** ** The targets that are served *)
Definition locked (ps : gmap Z pobj) (x : Target.t) : Prop := exists p, pkt_of ps x = Some p /\ Packet.cmd p = MemCmd.LockedRMWReadReq.

#[global] Instance locked_dec ps x : Decision (locked ps x).
Proof.
  unfold locked. destruct (pkt_of ps x) as [p|]; [|right; by intros (? & ? & _)].
  destruct (decide (Packet.cmd p = MemCmd.LockedRMWReadReq)); [left; by exists p|right]. intros (p' & [= <-] & ?). done.
Defined.

Lemma extract_snoops_spec l r : extract_snoops l = Ok r -> r.1 ++ r.2 ≡ₚ l /\ r.2 `sublist_of` l /\
  Forall (fun x => Target.source x = FromSnoop) r.1 /\ Forall (fun x => Target.source x = FromCPU) r.2.
Proof.
  revert r. induction l as [|x l IH]; intros r H; [by injection H as <-|]. cbn in H. destruct (bool_decide (Target.source x = FromCPU)) eqn:E.
  - apply bind_Ok_inv in H as (r' & Hr & H). injection H as <-. destruct (IH _ Hr) as (P & S & H1 & H2). cbn.
    apply bool_decide_eq_true in E. split_and!; [by rewrite <- Permutation_middle, P|by constructor|done|by constructor].
  - apply bind_Ok_inv in H as ([] & Hs & H). apply check_Ok, bool_decide_eq_true in Hs. apply bind_Ok_inv in H as (r' & Hr & H).
    injection H as <-. destruct (IH _ Hr) as (P & S & H1 & H2). cbn. split_and!; [by rewrite P|by constructor|by constructor|done].
Qed.

Lemma extract_snoops_Ok l : Forall (fun x => Target.source x <> FromPrefetcher) l -> exists r, extract_snoops l = Ok r.
Proof.
  induction 1 as [|x l Hx _ (r & IH)]; cbn; [by eexists|]. rewrite IH. destruct (Target.source x); [by eexists..|done].
Qed.

(** Without a locked read all targets are served; with one, those up to it, which stays. *)
Lemma extract_all_spec ps l r : extract_all ps l = Ok r ->
  (r = (l, []) /\ Forall (fun x => ~ locked ps x) l) \/
  (exists a x b, l = a ++ x :: b /\ r = (a ++ [x], x :: b) /\ locked ps x /\ Forall (fun x => ~ locked ps x) a).
Proof.
  revert r. induction l as [|x l IH]; intros r H; [left; by injection H as <-|]. cbn in H. apply bind_Ok_inv in H as (p & Hp & H).
  unfold TargetList.get_pkt in Hp. assert (Hpx : pkt_of ps x = Some (pk p)) by (unfold pkt_of; by destruct (ps !! _); [injection Hp as ->|]).
  case_bool_decide as Hc.
  - injection H as <-. right. exists [], x, l. split_and!; [done|done|by exists (pk p)|done].
  - assert (Hnl : ~ locked ps x) by (intros (p' & Hp' & ?); congruence). apply bind_Ok_inv in H as (r' & Hr & H). injection H as <-.
    destruct (IH _ Hr) as [[-> Hl]|(a & y & b & -> & -> & Hy & Ha)]; [left; split; [done|by constructor]|].
    right. exists (x :: a), y, b. split_and!; [done..|by constructor].
Qed.

Lemma extract_all_Ok ps l : Forall (fun x => is_Some (pkt_of ps x)) l -> exists r, extract_all ps l = Ok r.
Proof.
  induction 1 as [|x l (p & Hx) _ (r & IH)]; cbn; [by eexists|]. unfold TargetList.get_pkt, pkt_of in *. destruct (ps !! _) as [o|]; [|done].
  cbn [rbind]. rewrite IH. case_bool_decide; by eexists.
Qed.

(** What is left of the targets [l] of a register: requests, or the locked read that
    was served last and what came after it. *)
Record extracted (ps : gmap Z pobj) (cmd : MemCmd.Command) (l : list Target.t) (r : list Target.t * list Target.t) : Prop := {
  ex_sub : r.2 `sublist_of` l;
  ex_tail : forall x, x ∈ tail r.2 -> x ∈ tail l;
  ex_in : forall x, x ∈ r.1 -> x ∈ l;
  ex_left : Forall (fun x => Target.source x = FromCPU) r.2 \/ (exists x, head r.2 = Some x /\ locked ps x);
  ex_last : forall x, last r.1 = Some x -> locked ps x -> head r.2 = Some x;
  ex_fifo : cmd <> MemCmd.ReadRespWithInvalidate -> Forall (fun x => ~ locked ps x) l -> r = (l, []);
  ex_only : forall a x b, r.1 = a ++ x :: b -> locked ps x -> b = [];
  ex_head : head r.1 = head l;
  ex_all : forall x, x ∈ l -> x ∈ r.1 \/ x ∈ r.2;
}.

Lemma last_Forall {X} (P : X -> Prop) l x : Forall P l -> last l = Some x -> P x.
Proof. intros H Hx. eapply Forall_forall in H; [exact H|]. by apply last_Some_elem_of. Qed.

Lemma extract_all_ok ps cmd l : Forall (fun x => is_Some (pkt_of ps x)) l -> exists r, extract_all ps l = Ok r /\ extracted ps cmd l r.
Proof.
  intros Hl. destruct (extract_all_Ok ps l Hl) as (r & E). exists r. split; [done|].
  destruct (extract_all_spec _ _ _ E) as [[-> Hn]|(a & x & b & -> & -> & Hx & Ha)].
  - split; cbn; try done; [apply sublist_nil_l|set_solver|by left| | |by left].
    + intros x Hx Hlk. by eapply last_Forall in Hn.
    + intros a x b -> Hlk. apply Forall_app in Hn as [_ Hn]. by inversion Hn.
  - split; cbn.
    + apply sublist_inserts_l. done.
    + intros y Hy. destruct a; cbn; [done|]. set_solver.
    + set_solver.
    + right. by exists x.
    + intros y Hy _. rewrite last_snoc in Hy. by injection Hy as <-.
    + intros _ Hn. apply Forall_app in Hn as [_ Hn]. by inversion Hn.
    + intros a' y b' E' Hy. destruct b' as [|z b' _] using rev_ind; [done|]. exfalso.
      rewrite app_comm_cons, app_assoc in E'. apply app_inj_tail in E' as [-> _]. apply Forall_app in Ha as [_ Ha]. by inversion Ha.
    + by destruct a.
    + set_solver.
Qed.

Lemma extract_ok ps cmd l : Forall (fun x => is_Some (pkt_of ps x)) l -> (forall x, x ∈ l -> locked ps x -> Target.source x <> FromSnoop) ->
  (cmd = MemCmd.ReadRespWithInvalidate -> exists x l', l = x :: l' /\ Target.source x <> FromSnoop /\ Forall (fun y => Target.source y <> FromPrefetcher) l') ->
  exists r, extract ps cmd l = Ok r /\ extracted ps cmd l r.
Proof.
  intros Hl Hlk Hinv. unfold extract. case_bool_decide as Hc; [|by apply extract_all_ok].
  destruct (Hinv Hc) as (x & l' & -> & Hx & Hl'). apply Forall_cons in Hl as [(p & Hp) Hl].
  replace (_ || _) with true by (by destruct (Target.source x)). cbn [check rbind].
  assert (Hpx : exists o, TargetList.get_pkt ps (Target.pkt x) = Ok o /\ pk o = p).
  { unfold TargetList.get_pkt, pkt_of in *. destruct (ps !! _) as [o|]; [|done]. injection Hp as <-. by exists o. }
  destruct Hpx as (o & -> & Ho). cbn [rbind]. rewrite Ho. case_bool_decide as Hcmd.
  - eexists. split; [done|]. assert (locked ps x) by (by exists p). split; cbn; try done; [set_solver|right; by exists x| |set_solver].
    intros a y b' Ey _. destruct a as [|? a]; [by injection Ey|]. injection Ey as _ Ey. by destruct a.
  - destruct (extract_snoops_Ok l' Hl') as (r & E). rewrite E. cbn [rbind]. eexists. split; [done|].
    destruct (extract_snoops_spec _ _ E) as (P & S & H1 & H2). split; cbn.
    + by constructor.
    + intros y Hy. eapply sublist_subseteq; [exact S|]. destruct r.2; [done|set_solver].
    + intros y [->|Hy]%elem_of_cons; [set_solver|]. apply elem_of_cons. right. rewrite <- P. set_solver.
    + by left.
    + intros y Hy Hly. exfalso. apply last_Some_elem_of, elem_of_cons in Hy as [->|Hy].
      * destruct Hly as (p' & Hp' & ?). congruence.
      * eapply (Hlk y); [|done|by eapply Forall_forall in H1]. apply elem_of_cons. right. rewrite <- P. set_solver.
    + congruence.
    + intros a y b' Ey Hly. destruct a as [|z a]; injection Ey as -> Ey; [destruct Hly as (p' & Hp' & ?); congruence|].
      exfalso. assert (Hy : y ∈ r.1) by (rewrite Ey; set_solver). eapply (Hlk y); [|done|by eapply Forall_forall in H1].
      apply elem_of_cons. right. rewrite <- P. set_solver.
    + done.
    + intros y [->|Hy]%elem_of_cons; [left; set_solver|]. rewrite <- P in Hy. set_solver.
Qed.

(** ** Serving *)
Lemma core_pkt_of ps m : mshr_core ps m -> Forall (fun x => is_Some (pkt_of ps x)) (items (targets m)).
Proof. intros [[Hf _ _ _] _ _ _ _ _ _ _]. apply Forall_forall. intros x Hx. destruct (Hf x Hx) as (p & -> & _). by eexists. Qed.

Lemma core_locked ps m x : mshr_core ps m -> x ∈ items (targets m) -> locked ps x -> Target.source x <> FromSnoop.
Proof. intros Hc Hx (p & Hp & Hl). by apply (mo_locked _ _ Hc x p). Qed.

(** A register with some of its targets, and flags that are sound for these. *)
Lemma core_targets ps m tl : mshr_core ps m -> list_ok ps tl -> lblk tl = lblk (targets m) ->
  (forall x, x ∈ items tl -> x ∈ items (targets m)) -> mshr_core ps (set_targets tl m).
Proof. intros [? ? Hs ? ? ? Hl ?] Ht Hb Hin. split; cbn; try done; [by etransitivity|]. intros x p Hx. apply (Hl x p). by apply Hin. Qed.

Lemma extractServiceableTargets_ok cmd st k m : mshrs st !! k = Some m -> mshr_core (packets st) m ->
  (cmd = MemCmd.ReadRespWithInvalidate -> exists x l', items (targets m) = x :: l' /\ Target.source x <> FromSnoop /\
     Forall (fun y => Target.source y <> FromPrefetcher) l') ->
  exists ready tl, extractServiceableTargets k cmd st = Ok (ready, put st k (set_targets tl m)) /\
    extracted (packets st) cmd (items (targets m)) (items ready, items tl) /\ mshr_core (packets st) (set_targets tl m).
Proof.
  intros Hm Hc Hinv. unfold extractServiceableTargets. rewrite (get_Some _ _ _ Hm). cbn [rbind].
  destruct (extract_ok (packets st) cmd (items (targets m))) as (r & E & Hx); [by apply core_pkt_of|intros x; by apply core_locked|done|].
  rewrite E. cbn [rbind]. pose proof Hc as [HT _ Hs _ _ Hb _ _]. destruct Hx as [Hsub Htl Hin Hleft Hlast Hff Honly Hhd Hall] eqn:Hxe.
  destruct (list_ok_populate (packets st) (TargetList.init (blkAddr m) (blkSize m) (TargetList.new 0 0 false)) r.1) as (ready & -> & Hr & _).
  { apply list_ok_init; [lia|done]. }
  { intros x Hx'. change (lblk _) with (mblk m). rewrite <- Hs. apply (lo_fits _ _ HT). by apply Hin. }
  destruct (list_ok_populate (packets st) (targets m) r.2 HT) as (tl & -> & Htl' & Hbt & Hokt & _ & _).
  { intros x Hx'. apply (lo_fits _ _ HT). by eapply sublist_subseteq. }
  cbn [rbind]. exists ready, tl. rewrite Hr, Htl', <- surjective_pairing. split_and!; [done..|].
  apply core_targets; try done. rewrite Htl'. intros x. by apply sublist_subseteq.
Qed.

Lemma pop_locked ps m x l : mshr_core ps m -> items (targets m) = x :: l -> locked ps x -> mshr_core ps (set_targets (with_items l (targets m)) m).
Proof.
  intros Hc E (p & Hp & Hl). apply core_targets; try done; cbn; [|rewrite E; set_solver]. apply list_ok_items; [apply Hc|..].
  - intros y Hy. exists y. rewrite E. split; [set_solver|done].
  - intros y q Hy Hq Hw. exists y. rewrite E in Hy. apply elem_of_cons in Hy as [->|Hy]; [|done]. rewrite Hp in Hq. injection Hq as <-. by rewrite Hl in Hw.
Qed.

Lemma inside_new b r c : MemCmd.isRequest c = true -> req_fits b.2 r -> (forall a, Request._paddr r = Some a -> base b.2 a = b.1) ->
  exists p, Packet.new r c = Ok p /\ inside b p /\ Packet.cmd p = c.
Proof.
  intros Hc Hr Hb. pose proof Hr as (Hh & a & s & Ha & Hs & Hra & Hrs & Hfit). unfold Packet.new. rewrite Hh, Ha, Hs. cbn.
  eexists. split_and!; [done| |done]. split; [by unfold fits|]. split; [by apply Hb|done].
Qed.

Lemma fits_new n r c : MemCmd.isRequest c = true -> req_fits n r -> exists p, Packet.new r c = Ok p /\ fits n p /\ Packet.cmd p = c.
Proof.
  intros Hc Hr. pose proof Hr as (Hh & a & s & Ha & Hs & Hra & Hrs & Hfit). unfold Packet.new. rewrite Hh, Ha, Hs. cbn.
  eexists. split_and!; [done| |done]. by unfold fits.
Qed.

(** The locked read that stays gets a packet of its own. *)
Lemma core_set_pkt ps m x l i o p : mshr_core ps m -> items (targets m) = x :: l -> pkt_of ps x = Some p -> Packet.cmd p = MemCmd.LockedRMWReadReq ->
  ps !! i = None -> inside (mblk m) (pk o) -> Packet.cmd (pk o) = MemCmd.LockedRMWReadReq ->
  mshr_core (<[i := o]> ps) (set_targets (with_items (Target.set_pkt i x :: l) (targets m)) m).
Proof.
  intros [HT HD Hs Hds ? ? Hlk ?] E Hp Hl Hi Ho Hol.
  assert (Hpk : forall y q, pkt_of ps y = Some q -> pkt_of (<[i := o]> ps) y = Some q).
  { intros y q Hy. unfold pkt_of in *. rewrite lookup_insert_ne; [done|]. intros ->. by rewrite Hi in Hy. }
  assert (Hlike : forall l', pkts_like ps (<[i := o]> ps) l') by (intros l' y q _ Hq; exists q; split; [by apply Hpk|done]).
  assert (Hpx : pkt_of (<[i := o]> ps) (Target.set_pkt i x) = Some (pk o)) by (unfold pkt_of; cbn; by rewrite lookup_insert_eq).
  pose proof (list_ok_like _ _ _ HT (Hlike _)) as [Hf Hw Hb Hwr]. rewrite E in Hf, Hw, Hwr.
  split; cbn; try done; [split; cbn; try done|by eapply list_ok_like|].
  - intros y [->|Hy]%elem_of_cons; [exists (pk o); split; [done|]; change (inside (lblk (targets m)) (pk o)); by rewrite Hs|]. apply Hf. set_solver.
  - intros y q [->|Hy]%elem_of_cons Hq Hsy Hn; [|apply (Hw y q); [set_solver|done..]]. cbn in Hsy.
    apply (Hw x p); [set_solver|by apply Hpk|done|by rewrite Hl].
  - intros b Hb'. destruct (Hwr b Hb') as (y & q & Hy & Hq & Hsy & Hwy). exists y, q. split; [|done]. apply elem_of_cons in Hy as [->|Hy]; [|set_solver].
    exfalso. rewrite (Hpk _ _ Hp) in Hq. injection Hq as <-. destruct Hwy as [Hwy _]. by rewrite Hl in Hwy.
  - intros y q [->|Hy]%elem_of_cons Hq Hc; cbn.
    + apply (Hlk x p); [rewrite E; set_solver|done..].
    + assert (Hy' : y ∈ items (targets m)) by (rewrite E; set_solver). destruct (lo_fits _ _ HT y Hy') as (q' & Hq' & _).
      rewrite (Hpk _ _ Hq') in Hq. injection Hq as <-. by apply (Hlk y q').
Qed.

(** The register [m] after serving a response; [ps] are the packets then. *)
Record served (cmd : MemCmd.Command) (ps : gmap Z pobj) (m : MSHR.t) (ready : list Target.t) (ps' : gmap Z pobj) (m' : MSHR.t) : Prop := {
  sv_core : mshr_core ps' m';
  sv_service : inService m' = inService m;
  sv_pending : downstreamPending m' = downstreamPending m;
  sv_deferred : deferredTargets m' = deferredTargets m;
  sv_label : label m' = label m;
  sv_unmarked : unmarked (items (targets m'));
  sv_front : forall x, head (items (targets m')) = Some x -> Target.source x <> FromSnoop;
  sv_tail : Forall (fun x => Target.source x <> FromPrefetcher) (tail (items (targets m')));
  sv_left : Forall (fun x => Target.source x = FromCPU) (items (targets m')) \/ (exists x, head (items (targets m')) = Some x /\ locked ps' x);
  sv_fifo : cmd <> MemCmd.ReadRespWithInvalidate -> cmd <> MemCmd.LockedRMWWriteResp -> Forall (fun x => ~ locked ps x) (items (targets m)) ->
    ready = items (targets m) /\ items (targets m') = [];
  sv_first : cmd <> MemCmd.LockedRMWWriteResp -> head ready = head (items (targets m));
  sv_all : forall x, x ∈ items (targets m) -> x ∈ ready \/ x ∈ items (targets m') \/
    (cmd = MemCmd.LockedRMWWriteResp /\ head (items (targets m)) = Some x);
}.

(** After the extraction. *)
Lemma served_extract cmd ps m l ready tl : mshr_ok ps m -> inService m = true -> downstreamPending m = false ->
  (l = items (targets m) \/ (l = tail (items (targets m)) /\ cmd = MemCmd.LockedRMWWriteResp)) ->
  extracted ps cmd l (items ready, items tl) -> mshr_core ps (set_targets tl m) ->
  served cmd ps m (items ready) ps (set_targets tl m).
Proof.
  intros [_ (x & r & E & Hx & Hr) _ Hs] Hi Hd Hl [Hsub Htl _ Hleft _ Hff _ Hhd Hal] Hc. assert (Hsubl : l `sublist_of` items (targets m)).
  { destruct Hl as [->|[-> _]]; [done|]. rewrite E. by apply sublist_skip_l || by constructor. }
  split; cbn in *; try done.
  - eapply Forall_forall. intros y Hy. specialize (Hs Hi Hd). eapply Forall_forall in Hs; [exact Hs|]. eapply sublist_subseteq; [|exact Hy]. by etrans.
  - intros y Hy. destruct Hleft as [Hf|(z & Hz & Hlz)].
    + destruct (items tl); [done|]. injection Hy as <-. apply Forall_cons in Hf as [-> _]. done.
    + rewrite Hy in Hz. injection Hz as <-. apply (core_locked _ _ y Hc); [|done]. cbn. destruct (items tl); [done|]. injection Hy as <-. set_solver.
  - apply Forall_forall. intros y Hy. specialize (Htl y Hy). eapply Forall_forall in Hr; [exact Hr|].
    destruct Hl as [->|[-> _]]; rewrite E in Htl; cbn in Htl; [done|]. destruct r; [done|]. set_solver.
  - intros Hc1 Hc2 Hn. destruct Hl as [->|[_ ?]]; [|done]. specialize (Hff Hc1 Hn). by injection Hff.
  - intros Hc2. by destruct Hl as [->|[_ ?]].
  - intros y Hy. destruct Hl as [->|[-> ?]]; [destruct (Hal y Hy); tauto|]. rewrite E in Hy, Hal |- *. cbn in Hal.
    apply elem_of_cons in Hy as [->|Hy]; [tauto|]. destruct (Hal y Hy); tauto.
Qed.

(** The locked read that was served last stays, with a packet of its own. *)
Lemma served_locked cmd st k m ready m1 x : served cmd (packets st) m ready (packets st) m1 -> mshrs st !! k = Some m1 ->
  head (items (targets m1)) = Some x -> locked (packets st) x -> x ∈ ready ->
  exists i o m', packets st !! i = None /\ updateLockedRMWReadTarget k (Target.pkt x) st = Ok (put (mkStore (<[i := o]> (packets st)) (mshrs st)) k m') /\
    served cmd (packets st) m ready (<[i := o]> (packets st)) m'.
Proof.
  intros [Hc H1 H2 H3 H4 Hu Hf Ht Hl Hff Hfst Hall] Hm Hx Hlk Hxr. destruct (items (targets m1)) as [|x' l] eqn:E; [done|]. cbn in Hx. injection Hx as ->.
  destruct Hlk as (p & Hp & Hcmd). destruct (lo_fits _ _ (mo_targets _ _ Hc) x) as (p' & Hp' & Hfit); [rewrite E; set_solver|].
  rewrite Hp in Hp'. injection Hp' as <-. rewrite (mo_size _ _ Hc) in Hfit.
  destruct (inside_new (mblk m1) (Packet.req p) MemCmd.LockedRMWReadReq) as (np & Hnp & Hnf & Hnc); [done|apply Hfit..|].
  exists (newPacket st), (mkP np []), (set_targets (with_items (Target.set_pkt (newPacket st) x :: l) (targets m1)) m1).
  split; [apply newPacket_fresh|]. split.
  { unfold updateLockedRMWReadTarget. rewrite (get_Some _ _ _ Hm). cbn [rbind]. rewrite E, Z.eqb_refl. cbn [check rbind].
    unfold pkt_of in Hp. destruct (packets st !! Target.pkt x) as [o|] eqn:Eo; [|done]. injection Hp as <-.
    rewrite (get_pkt_Some _ _ _ Eo). cbn [rbind]. by rewrite Hnp. }
  assert (Hlk' : locked (<[newPacket st := mkP np []]> (packets st)) (Target.set_pkt (newPacket st) x)).
  { exists np. unfold pkt_of. cbn. by rewrite lookup_insert_eq. }
  split; cbn; try done.
  - eapply core_set_pkt; try done. apply newPacket_fresh.
  - by inversion Hu; constructor.
  - intros y Hy. injection Hy as <-. cbn. by apply Hf.
  - right. by eexists.
  - intros Hc1 Hc2 Hn. destruct (Hff Hc1 Hc2 Hn). done.
  - intros y Hy. destruct (Hall y Hy) as [?|[Hy'|?]]; [tauto| |tauto]. apply elem_of_cons in Hy' as [->|Hy']; [tauto|]. right. left. by right.
Qed.

Lemma mshr_put_put st k m m' : put (put st k m) k m' = put st k m'.
Proof. unfold put. cbn. by rewrite insert_insert_eq. Qed.

Lemma store_ok_new_pkt A st i o : store_ok A st -> packets st !! i = None -> store_ok A (mkStore (<[i := o]> (packets st)) (mshrs st)).
Proof.
  intros Hok Hi. apply store_ok_pkts; [done|]. intros j o' _ Hj. exists o'. split; [|by split].
  rewrite lookup_insert_ne; [done|congruence].
Qed.

(** The packet of a target as the operations read it. *)
Lemma get_pkt_of st x p : pkt_of (packets st) x = Some p -> exists o, get_pkt st (Target.pkt x) = Ok o /\ pk o = p.
Proof. unfold pkt_of. destruct (packets st !! Target.pkt x) as [o|] eqn:E; [|done]. intros [= <-]. exists o. split; [by apply get_pkt_Some|done]. Qed.

(** The extraction, after the locked read has been taken away for the write. *)
Lemma serve_extract cmd st k m : mshrs st !! k = Some m -> mshr_ok (packets st) m -> inService m = true -> downstreamPending m = false ->
  (cmd = MemCmd.LockedRMWWriteResp -> exists x, head (items (targets m)) = Some x /\ locked (packets st) x) ->
  exists ready tl, (let! initial_tgt := MSHR.getTarget m in
     let! p := get_pkt st (Target.pkt initial_tgt) in
     let! _ := Packet.getOffset (blkSize m) (pk p) in
     let! st := (if bool_decide (cmd = MemCmd.LockedRMWWriteResp) then
                   guard! bool_decide (Packet.cmd (pk p) = MemCmd.LockedRMWReadReq); upd MSHR.popTarget st k else Ok st) in
     extractServiceableTargets k cmd st) = Ok (ready, put st k (set_targets tl m)) /\
    (forall x, x ∈ items ready -> x ∈ items (targets m)) /\
    (forall x, last (items ready) = Some x -> locked (packets st) x -> head (items tl) = Some x) /\
    (forall a x b, items ready = a ++ x :: b -> locked (packets st) x -> b = []) /\
    served cmd (packets st) m (items ready) (packets st) (set_targets tl m).
Proof.
  intros Hm Hok Hi Hd Hlk. pose proof Hok as [Hc (x & l & E & Hx & Hl) _ _].
  assert (Hxp : exists p, pkt_of (packets st) x = Some p /\ Packet.isSet Packet.VALID_ADDR p = true).
  { destruct (lo_fits _ _ (mo_targets _ _ Hc) x) as (p & Hp & (_ & Hv & _) & _); [rewrite E; left|]. by exists p. }
  assert (Hin : forall ready tl l', extracted (packets st) cmd l' (items ready, items tl) -> (forall y, y ∈ l' -> y ∈ items (targets m)) ->
    (forall y, y ∈ items ready -> y ∈ items (targets m)) /\ (forall y, last (items ready) = Some y -> locked (packets st) y -> head (items tl) = Some y) /\
    (forall a y b, items ready = a ++ y :: b -> locked (packets st) y -> b = [])).
  { intros ready tl l' X Hl'. split; [intros y Hy; by apply Hl', (ex_in _ _ _ _ X)|]. split; [apply (ex_last _ _ _ _ X)|apply (ex_only _ _ _ _ X)]. }
  destruct Hxp as (p & Hp & Hv). destruct (get_pkt_of st x p Hp) as (o & Ho & Hop).
  unfold getTarget, hasTargets, TargetList.empty, front. rewrite E. cbn [negb check rbind]. rewrite Ho. cbn [rbind]. rewrite Hop.
  unfold Packet.getOffset, Packet.getAddr. rewrite Hv. cbn [check rbind]. case_bool_decide as Hcmd.
  - destruct (Hlk Hcmd) as (x' & Hx' & Hlx). rewrite E in Hx'. injection Hx' as <-. pose proof Hlx as (p' & Hp' & Hpc). rewrite Hp in Hp'. injection Hp' as <-.
    rewrite bool_decide_true by done. cbn [check rbind]. unfold upd. rewrite (get_Some _ _ _ Hm). cbn [rbind]. unfold popTarget. rewrite E. cbn [rbind].
    set (mp := set_targets _ m). destruct (extractServiceableTargets_ok cmd (put st k mp) k mp) as (ready & tl & Ex & X & C).
    + cbn. by rewrite lookup_insert_eq.
    + by eapply pop_locked.
    + congruence.
    + rewrite Ex, mshr_put_put. exists ready, tl. split; [done|]. destruct (Hin _ _ _ X) as (I1 & I2 & I3); [rewrite E; set_solver|].
      rewrite <- E. split_and!; [done..|]. eapply served_extract; try done. right. by rewrite E.
  - cbn [rbind]. destruct (extractServiceableTargets_ok cmd st k m) as (ready & tl & Ex & X & C); [done|done|intros _; by exists x, l|].
    rewrite Ex. exists ready, tl. split; [done|]. destruct (Hin _ _ _ X) as (I1 & I2 & I3); [done|]. rewrite <- E. split_and!; [done..|]. eapply served_extract; try done. by left.
Qed.

(** The first target is a locked read. *)
Definition locked_front (ps : gmap Z pobj) (m : MSHR.t) : Prop := exists x, head (items (targets m)) = Some x /\ locked ps x.

Lemma hasLocked_Ok k st m : mshrs st !! k = Some m -> Forall (fun x => is_Some (pkt_of (packets st) x)) (items (targets m)) ->
  exists b, hasLockedRMWReadTarget k st = Ok b /\ (b = true <-> locked_front (packets st) m).
Proof.
  intros Hm Hf. unfold hasLockedRMWReadTarget, locked_front. rewrite (get_Some _ _ _ Hm). cbn [rbind].
  destruct (items (targets m)) as [|x l]; [exists false; split; [done|]; by split; [|intros (? & ? & _)]|].
  apply Forall_cons in Hf as [(p & Hp) _]. destruct (get_pkt_of st x p Hp) as (o & -> & <-). cbn [rbind]. eexists. split; [done|].
  rewrite bool_decide_eq_true. split; [intros Hc; exists x; split; [done|by exists (pk o)]|]. intros (y & [= <-] & p & Hp' & Hc). congruence.
Qed.

Section Serve.
Context (ro : bool) (pkt : Packet.t) (bk : blocks).

(** A target in the way of the response: one of the assertions that compare the
    response, the block and the target fails. *)
Definition unservable (ps : gmap Z pobj) (m : MSHR.t) (l : list Target.t) (e : error) : Prop :=
  exists x p blk, x ∈ l /\ pkt_of ps x = Some p /\ service_target ro pkt bk m (Target.source x) p blk = Err e.

(** Only a locked read stays. *)
Lemma service_target_lock m src p blk b : service_target ro pkt bk m src p blk = Ok (b, true) -> Packet.cmd p = MemCmd.LockedRMWReadReq.
Proof.
  unfold service_target. destruct src.
  - destruct (MemCmd.testCmdAttrib MemCmd.IsSWPrefetch (Packet.cmd p)).
    + intros (nw & _ & H)%bind_Ok_inv. destruct nw, blk; try done. by apply bind_Ok_inv in H as (? & _ & [= _ ?]).
    + intros (? & _ & (r & Hr & (? & _ & (? & _ & [= _ E])%bind_Ok_inv)%bind_Ok_inv)%bind_Ok_inv)%bind_Ok_inv.
      destruct (valid blk && _).
      * destruct blk as [b'|]; [|done]. apply bind_Ok_inv in Hr as (? & _ & Hr). apply bind_Ok_inv in Hr as (? & _ & Hr).
        apply bind_Ok_inv in Hr as (? & _ & Hr). apply bind_Ok_inv in Hr as (? & _ & Hr). injection Hr as <-. cbn in E. by apply bool_decide_eq_true in E.
      * apply bind_Ok_inv in Hr as (? & _ & [= <-]). done.
  - intros (? & _ & (? & _ & (? & _ & (? & _ & [= _ ?])%bind_Ok_inv)%bind_Ok_inv)%bind_Ok_inv)%bind_Ok_inv.
  - by intros (? & _ & [= _ ?])%bind_Ok_inv.
Qed.

(** The loop changes the store only for the locked read at its end. *)
Lemma service_loop_spec k m st l blk : (forall x, x ∈ l -> is_Some (pkt_of (packets st) x)) -> (forall a x b, l = a ++ x :: b -> locked (packets st) x -> b = []) ->
  match service_loop ro pkt bk k m l blk st with
  | Ok (_, st') => st' = st \/ exists x, last l = Some x /\ locked (packets st) x /\ updateLockedRMWReadTarget k (Target.pkt x) st = Ok st'
  | Err e => unservable (packets st) m l e \/ exists x, last l = Some x /\ locked (packets st) x /\ updateLockedRMWReadTarget k (Target.pkt x) st = Err e
  end.
Proof.
  revert blk. induction l as [|x l IH]; intros blk Hp Ho; cbn [service_loop]; [by left|].
  destruct (Hp x) as (p & Hx); [left|]. destruct (get_pkt_of st x p Hx) as (o & -> & Hop). cbn [rbind]. rewrite Hop.
  destruct (service_target ro pkt bk m (Target.source x) p blk) as [[b lock]|e] eqn:Es; cbn [rbind fst snd].
  2: { left. exists x, p, blk. split; [left|done]. }
  destruct lock.
  - assert (Hlk : locked (packets st) x) by (exists p; split; [done|by eapply service_target_lock]).
    rewrite (Ho [] x l eq_refl Hlk). cbn [service_loop]. destruct (updateLockedRMWReadTarget k (Target.pkt x) st) eqn:Eu; cbn [rbind]; right; by exists x.
  - cbn [rbind]. specialize (IH b). assert (Ho' : forall a y b, l = a ++ y :: b -> locked (packets st) y -> b = []).
    { intros a y b' -> Hy. by apply (Ho (x :: a) y b'). }
    specialize (IH (fun y Hy => Hp y ltac:(by right)) Ho').
    assert (Hlast : forall y, last l = Some y -> last (x :: l) = Some y) by (intros y Hy; rewrite last_cons, Hy; done).
    destruct (service_loop ro pkt bk k m l b st) as [[b' st']|e].
    + destruct IH as [->|(y & Hy & ?)]; [by left|right; exists y; split; [by apply Hlast|done]].
    + destruct IH as [(y & q & blk' & Hy & ?)|(y & Hy & ?)]; [left; exists y, q, blk'; split; [by right|done]|right; exists y; split; [by apply Hlast|done]].
Qed.

Lemma settle_Ok m f blk : inService m = true -> exists b, settle pkt bk m f blk = Ok b.
Proof.
  intros Hi. unfold settle, hasPostInvalidate, hasPostDowngrade. rewrite Hi. cbn [check rbind].
  destruct (maintainClusivity bk f blk) as [b|]; [|by eexists]. destruct (isValid b); [|by eexists].
  destruct (is_invalidate pkt m); cbn [rbind]; [by eexists|]. destruct (postInvalidate m); by eexists.
Qed.

Lemma serviceMSHRTargets_ok A k blk st m : store_ok A st -> k ∈ A -> mshrs st !! k = Some m -> inService m = true -> downstreamPending m = false ->
  (Packet.cmd pkt = MemCmd.LockedRMWWriteResp -> exists x, head (items (targets m)) = Some x /\ locked (packets st) x) ->
  match serviceMSHRTargets ro pkt bk k blk st with
  | Ok (ready, _, st') => exists ps' m', st' = put (mkStore ps' (mshrs st)) k m' /\ store_ok A (mkStore ps' (mshrs st)) /\
      served (Packet.cmd pkt) (packets st) m (items ready) ps' m'
  | Err e => unservable (packets st) m (items (targets m)) e
  end.
Proof.
  intros Hok Hk Hm Hi Hd Hlk. unfold serviceMSHRTargets. rewrite (get_Some _ _ _ Hm). cbn [rbind].
  destruct (serve_extract (Packet.cmd pkt) st k m) as (ready & tl & E & Hin & Hlast & Honly & S); try done; [by apply (so_mshr _ _ Hok k)|].
  destruct (getTarget m) as [t0|]; [|done]. cbn [rbind] in E |- *. destruct (get_pkt st _) as [p0|]; [|done]. cbn [rbind] in E |- *.
  destruct (Packet.getOffset _ _) as [off|]; [|done]. cbn [rbind] in E |- *.
  destruct (if bool_decide _ then _ else _) as [st1|]; [|done]. cbn [rbind] in E |- *. rewrite E. cbn [rbind fst snd].
  set (m1 := set_targets tl m) in *. assert (Hm1 : mshrs (put st k m1) !! k = Some m1) by (cbn; by rewrite lookup_insert_eq).
  pose proof (core_pkt_of _ _ (mo_core _ _ (so_mshr _ _ Hok k m Hk Hm))) as Hpk. rewrite Forall_forall in Hpk.
  pose proof (service_loop_spec k m (put st k m1) (items ready) blk (fun x Hx => Hpk x (Hin x Hx)) Honly) as L.
  assert (Hend : forall b st' ps' m', st' = put (mkStore ps' (mshrs st)) k m' -> store_ok A (mkStore ps' (mshrs st)) ->
    served (Packet.cmd pkt) (packets st) m (items ready) ps' m' ->
    match (let! locked := hasLockedRMWReadTarget k st' in
           let! blk := (if locked : bool then Ok b else settle pkt bk m (TargetList.hasFromCache ready) b) in Ok (ready, blk, st')) with
    | Ok (ready, _, st') => exists ps' m', st' = put (mkStore ps' (mshrs st)) k m' /\ store_ok A (mkStore ps' (mshrs st)) /\
        served (Packet.cmd pkt) (packets st) m (items ready) ps' m'
    | Err e => unservable (packets st) m (items (targets m)) e
    end).
  { intros b st' ps' m' -> Hok' S'. assert (Hm' : mshrs (put (mkStore ps' (mshrs st)) k m') !! k = Some m') by (cbn; by rewrite lookup_insert_eq).
    destruct (hasLocked_Ok k _ m' Hm' (core_pkt_of _ _ (sv_core _ _ _ _ _ _ S'))) as (lk & -> & _). cbn [rbind].
    destruct (settle_Ok m (TargetList.hasFromCache ready) b Hi) as (b' & Eb). destruct lk; rewrite ?Eb; cbn [rbind]; by exists ps', m'. }
  destruct (service_loop ro pkt bk k m (items ready) blk (put st k m1)) as [[b st']|e]; cbn [rbind fst snd].
  - destruct L as [->|(x & Hx & Hlx & Eu)]; [eapply (Hend b _ (packets st) m1); [by destruct st|by destruct st|done]|].
    destruct (served_locked (Packet.cmd pkt) (put st k m1) k m (items ready) m1 x) as (i & np & m' & Hfresh & Eu' & S'); try done;
      [by apply Hlast|by apply last_Some_elem_of|]. rewrite Eu' in Eu. injection Eu as <-.
    eapply (Hend b _ (<[i := np]> (packets st)) m'); [exact (mshr_put_put (mkStore _ (mshrs st)) k m1 m')|by apply store_ok_new_pkt|done].
  - destruct L as [(x & p & blk' & Hx & ?)|(x & Hx & Hlx & Eu)]; [exists x, p, blk'; split; [by apply Hin|done]|exfalso].
    destruct (served_locked (Packet.cmd pkt) (put st k m1) k m (items ready) m1 x) as (i & np & m' & Hfresh & Eu' & S'); try done;
      [by apply Hlast|by apply last_Some_elem_of|]. congruence.
Qed.
End Serve.

(** ** What was deferred *)

(** The register [m] after [promoteDeferredTargets]: its requests are in the same
    order, and it has some to send. *)
Record renewed (ps : gmap Z pobj) (m m' : MSHR.t) : Prop := {
  rn_core : mshr_core ps m';
  rn_all : all_targets m' = all_targets m;
  rn_nonempty : items (targets m') <> [];
  rn_prefix : items (targets m) `prefix_of` items (targets m');
  rn_cpu : Forall (fun x => Target.source x = FromCPU) (items (targets m'));
  rn_state : inService m' = inService m /\ downstreamPending m' = downstreamPending m /\ label m' = label m;
}.

Definition splits (tl : list Target.t) (s : list Target.t * list Target.t) : list Target.t * list Target.t :=
  match s with ([], x :: rest) => match tl with [] => ([x], rest) | _ => ([], x :: rest) end | _ => s end.

Lemma splits_app tl a b : (splits tl (a, b)).1 ++ (splits tl (a, b)).2 = a ++ b.
Proof. destruct a, b, tl; done. Qed.

Lemma splits_nonempty tl a b : tl ++ a ++ b <> [] -> tl ++ (splits tl (a, b)).1 <> [].
Proof. destruct a, b, tl; cbn; try done. Qed.

Lemma promoteDeferredTargets_ok curTick k st m : mshrs st !! k = Some m -> mshr_core (packets st) m -> 
  Forall (fun x => Target.source x = FromCPU) (items (targets m)) ->
  (getNumTargets m = 0%nat /\ promoteDeferredTargets curTick k st = Ok (false, st)) \/
  (exists m', promoteDeferredTargets curTick k st = Ok (true, put st k m') /\ renewed (packets st) m m').
Proof.
  intros Hm Hc Hcpu. unfold promoteDeferredTargets. rewrite (get_Some _ _ _ Hm). cbn [rbind].
  destruct (TargetList.empty (targets m) && TargetList.empty (deferredTargets m)) eqn:Ee; [left|right].
  { apply andb_prop in Ee as [E1 E2]. unfold TargetList.empty, getNumTargets in *. by destruct (items (targets m)), (items (deferredTargets m)). }
  assert (Hne : items (targets m) ++ items (deferredTargets m) <> []).
  { unfold TargetList.empty in Ee. by destruct (items (targets m)), (items (deferredTargets m)). }
  pose proof Hc as [HT HD Hs Hds Hdc Hb Hlk Hr].
  match goal with |- context [split_until ?f ?l] => destruct (split_until_Ok f l) as (a & b & E) end.
  { intros x Hx. destruct (lo_fits _ _ HD x Hx) as (p & Hp & _). destruct (get_pkt_of st x p Hp) as (o & -> & _). by eexists. }
  rewrite E. cbn [rbind]. destruct (split_until_spec _ _ _ _ E) as [Ed _].
  assert (Esp : forall (T : Type) (F : list Target.t -> list Target.t -> T), (let '(moved, rest) := match (a, b) with
      | ([], x :: rest) => if TargetList.empty (targets m) then ([x], rest) else ([], x :: rest) | _ => (a, b) end in F moved rest) =
      F (splits (items (targets m)) (a, b)).1 (splits (items (targets m)) (a, b)).2).
  { intros T F. unfold TargetList.empty. by destruct a, b, (items (targets m)). }
  rewrite Esp. clear Esp. destruct (splits (items (targets m)) (a, b)) as [mv rest] eqn:Esp. cbn [fst snd].
  pose proof (splits_app (items (targets m)) a b) as Happ. rewrite Esp in Happ. cbn in Happ. rewrite Ed in Hne, Hdc.
  pose proof (splits_nonempty _ _ _ Hne) as Hne'. rewrite Esp in Hne'. cbn in Hne'. rewrite <- Happ in Ed, Hdc. apply Forall_app in Hdc as [Hmc Hrc].
  destruct (list_ok_populate (packets st) (deferredTargets m) rest HD) as (dl & -> & Hdi & Hdb & Hdok & Hdr & _).
  { intros x Hx. apply (lo_fits _ _ HD). rewrite Ed. set_solver. }
  destruct (list_ok_populate (packets st) (targets m) (items (targets m) ++ mv) HT) as (tl & -> & Hti & Htb & Htok & _).
  { intros x [Hx|Hx]%elem_of_app; [by apply (lo_fits _ _ HT)|]. rewrite Hs, <- Hds. apply (lo_fits _ _ HD). rewrite Ed. set_solver. }
  cbn [rbind]. unfold front. rewrite Hti. destruct (items (targets m) ++ mv) as [|x l] eqn:El; [done|]. cbn [rbind]. eexists. split; [done|].
  assert (Hall : Forall (fun x => Target.source x = FromCPU) (x :: l)) by (rewrite <- El; by apply Forall_app).
  split; cbn; try done.
  - split; cbn; try done; try congruence; try (by etransitivity); try (by rewrite Hdi).
    intros y p Hy _ _. rewrite Hti in Hy. eapply Forall_forall in Hall; [|exact Hy]. by rewrite Hall.
  - unfold all_targets. cbn. by rewrite Hti, Hdi, Ed, <- El, app_assoc.
  - by rewrite Hti.
  - rewrite Hti, <- El. by exists mv.
  - by rewrite Hti.
Qed.
