(* ===== verification/MshrQueues.v ===== *)
(** * The registers of a cache and their queue

    Every operation of src/gem5/src/mem/cache/mshr_queue.cc, and the handling of a
    response, keeps the queue and its registers consistent; a response is refused only
    by the assertions that compare it with the block and with the requests. *)

From S2P Require Import Prelude Bits Packet CacheQueue Mshr MshrOps MshrLists MshrMarks MshrInv MshrSteps MshrService MshrResp.
Import Target (FromCPU, FromSnoop, FromPrefetcher).
Import MSHR TargetList (items, with_items).
Import Queue MSHROps BaseCache.

(** The registers [ids] of a cache that are in use are the allocated ones. *)
Record cache_ok (A : gset Z) (ids : list Z) (st : store) (q : Queue.t) : Prop := {
  ca_queue : queue_ok ids (mshrs st) q;
  ca_use : forall k, k ∈ ids -> k ∈ A <-> k ∈ allocatedList q;
}.

Lemma ca_in A ids st q k : cache_ok A ids st q -> k ∈ allocatedList q -> k ∈ A.
Proof. intros [Hq Hu] Hk. apply Hu; [|done]. by eapply ok_allocated_in. Qed.

Lemma calm_but_same k st st' ids : calm_but k st st' -> (forall i, i ∈ ids -> is_Some (mshrs st !! i)) -> others_same ids (mshrs st) (mshrs st') k.
Proof. intros C Hd j Hj Hjk. destruct (C j Hjk) as (C1 & C2 & C3). split_and!; [|done|done]. eapply labels_Some; [exact C1|]. by apply Hd. Qed.

(** The queues of the other caches. *)
Lemma cache_other A A' ids st st' q k : cache_ok A ids st q -> k ∉ ids -> calm_but k st st' -> (forall i, i <> k -> i ∈ A <-> i ∈ A') -> cache_ok A' ids st' q.
Proof.
  intros [Hq Hu] Hk C HA. assert (Hne : forall i, i ∈ ids -> i <> k) by (intros i Hi ->; done). split.
  - eapply queue_ok_frame; [exact Hq|]. intros i Hi. apply (calm_but_same k st st' ids C); [apply Hq|done|by apply Hne].
  - intros i Hi. rewrite <- HA by (by apply Hne). by apply Hu.
Qed.

Lemma cache_keeps A ids st st' q : cache_ok A ids st q -> keeps A st st' -> cache_ok A ids st' q.
Proof.
  intros [Hq Hu] [_ C]. split; [|done]. eapply queue_ok_frame; [exact Hq|]. intros i Hi. destruct (C i) as (C1 & C2 & C3).
  split_and!; [|done|done]. eapply labels_Some; [exact C1|]. by apply (ok_dom _ _ _ Hq).
Qed.

(** ** Sending *)
Lemma serving_at st k m : mshrs st !! k = Some m -> serving (mshrs st) k = inService m.
Proof. intros H. unfold serving. by rewrite H. Qed.

Lemma send_ok A ids k b st q m : store_ok A st -> cache_ok A ids st q -> k ∈ allocatedList q -> mshrs st !! k = Some m -> inService m = false ->
  exists st' q' m', MSHRQueue.markInService k b st q = Ok (st', q') /\ store_ok A st' /\ cache_ok A ids st' q' /\ calm_but k st st' /\
    mshrs st' !! k = Some m' /\ inService m' = true /\ wasWholeLineWrite m' = isWholeLineWrite m /\ same_lists m m'.
Proof.
  intros Hok Hc Hk Hm Hi. destruct (markInService_ok A k b st m Hok (ca_in _ _ _ _ _ Hc Hk) Hm Hi) as (st' & m' & E & Hok' & C & Hm' & Hi' & Hw & Hs).
  destruct Hc as [Hq Hu]. unfold MSHRQueue.markInService. rewrite E. cbn [rbind].
  destruct (erase_Ok k (readyList q)) as (rl & Er); [apply (ok_in_ready _ _ _ _ Hq); split; [done|by rewrite (serving_at _ _ _ Hm)]|].
  rewrite Er. cbn [rbind]. eexists st', _, m'. split; [done|]. split; [done|]. split; [split; [|done]|done].
  eapply queue_ok_send; try done; [by eapply calm_but_others|by rewrite (serving_at _ _ _ Hm)|by rewrite (serving_at _ _ _ Hm')].
Qed.

(** ** Deallocation *)
Lemma marks_m_none ps m : getNumTargets m = 0%nat -> marks_m ps m = [].
Proof. intros H. destruct (no_items m H) as [E1 E2]. unfold marks_m. by rewrite E1, E2. Qed.

Lemma store_ok_free A st k m m' : store_ok A st -> k ∈ A -> mshrs st !! k = Some m -> downstreamPending m = false ->
  mshr_core (packets st) m' -> getNumTargets m' = 0%nat -> downstreamPending m' = false -> store_ok (A ∖ {[k]}) (put st k m').
Proof.
  intros Hok Hk Hm Hd Hc Hn Hd'. assert (Hmk : marks_m (packets st) m' ⊆+ marks_m (packets st) m) by (rewrite (marks_m_none _ _ Hn); apply submseteq_nil_l).
  assert (Hp : partial [] [] (put st k m')) by (eapply partial_put; [apply Hok|exact Hm|done|done|congruence]). split.
  - intros i [Hi Hik]%elem_of_difference. cbn. rewrite lookup_insert_ne by set_solver. by apply Hok.
  - intros i mi [Hi Hik]%elem_of_difference Hmi. cbn in *. rewrite lookup_insert_ne in Hmi by set_solver. by apply (so_mshr _ _ Hok i).
  - intros i mi Hi Hmi. cbn in Hmi. destruct (decide (i = k)) as [->|Hik]; [rewrite lookup_insert_eq in Hmi; by injection Hmi as <-|].
    rewrite lookup_insert_ne in Hmi by done. apply (so_free _ _ Hok i); [set_solver|done].
  - done.
  - intros u Hu. assert (Hu' : u ∈ marks st) by (eapply elem_of_submseteq; [exact Hu|by eapply marks_put_sub]).
    apply elem_of_difference. split; [by apply (so_marked _ _ Hok)|]. intros ->%elem_of_singleton.
    pose proof (pa_down _ _ _ Hp k Hu ltac:(set_solver)) as Hdk. unfold down in Hdk. cbn in Hdk. rewrite lookup_insert_eq in Hdk. congruence.
Qed.

Lemma core_reset ps m b : mshr_core ps m -> items (targets m) = [] -> mshr_core ps (set_inService b (set_targets (TargetList.resetFlags (targets m)) m)).
Proof.
  intros [HT ? Hs ? ? ? Hlk ?] E. split; cbn; try done. apply list_ok_empty; [done|apply HT].
Qed.

(** [deallocate] of a register that has been served completely: [st] is the store
    before its targets were taken. *)
Lemma deallocate_ok A ids k st q m m' : store_ok A st -> cache_ok A ids st q -> k ∈ allocatedList q -> mshrs st !! k = Some m ->
  downstreamPending m = false -> mshr_core (packets st) m' -> getNumTargets m' = 0%nat -> downstreamPending m' = false -> inService m' = inService m ->
  exists st' q' b, MSHRQueue.deallocate k (put st k m') q = Ok (st', q', b) /\ store_ok (A ∖ {[k]}) st' /\ cache_ok (A ∖ {[k]}) ids st' q' /\
    calm_but k st st' /\ allocatedList q ≡ₚ k :: allocatedList q' /\ packets st' = packets st /\
    (exists m2, mshrs st' !! k = Some m2 /\ getNumTargets m2 = 0%nat /\ label m2 = label m').
Proof.
  intros Hok Hca Hk Hm Hd Hc Hn Hd' Hi. destruct (no_items m' Hn) as [E1 E2]. pose proof (ca_in _ _ _ _ _ Hca Hk) as HkA. destruct Hca as [Hq Hu].
  set (m2 := set_inService false (set_targets (TargetList.resetFlags (targets m')) m')).
  assert (Hde : MSHR.deallocate m' = Ok m2).
  { unfold MSHR.deallocate, TargetList.empty. rewrite E1. cbn. by rewrite (mo_reset _ _ Hc E2). }
  assert (Hq' : queue_ok ids (mshrs (put st k m')) q).
  { eapply queue_ok_frame; [exact Hq|]. intros i Hii. cbn. unfold serving, numTargets. destruct (decide (i = k)) as [->|].
    - rewrite lookup_insert_eq, Hm. split_and!; [by eexists|done|done].
    - rewrite lookup_insert_ne by done. split_and!; [|done|done]. by apply (ok_dom _ _ _ Hq). }
  destruct (queue_ok_deallocate ids (mshrs (put st k m')) q k m' m2) as (q' & b & E & Hq2 & Hfl & Hal & _ & _); try done; [cbn; by rewrite lookup_insert_eq|].
  unfold MSHRQueue.deallocate. rewrite E. cbn [rbind fst snd].
  assert (Est : mkStore (packets (put st k m')) (<[k := m2]> (mshrs (put st k m'))) = put st k m2) by (unfold put; cbn; by rewrite insert_insert_eq).
  rewrite Est. exists (put st k m2), q', b. split; [done|].
  assert (Hn2 : getNumTargets m2 = 0%nat) by (unfold getNumTargets in *; by cbn).
  split; [by apply (store_ok_free A st k m); [..|apply core_reset|done|]|]. split; [split|].
  - unfold put in Est. injection Est as Est. cbn in Hq2 |- *. by rewrite <- Est.
  - intros i Hii. pose proof (ok_nodup_allocated _ _ _ Hq) as Hnd. rewrite Hal in Hnd. apply NoDup_cons in Hnd as [Hnk _].
    rewrite elem_of_difference, elem_of_singleton, (Hu i Hii), Hal, elem_of_cons. split; [naive_solver|]. intros Hi'. split; [by right|]. by intros ->.
  - split_and!; [apply calm_but_put|done|done|]. exists m2. cbn. by rewrite lookup_insert_eq.
Qed.

(** A register with requests that wait to be sent. *)
Lemma mshr_ok_cpu ps m : mshr_core ps m -> items (targets m) <> [] -> Forall (fun x => Target.source x = FromCPU) (items (targets m)) ->
  inService m = false -> mshr_ok ps m.
Proof.
  intros Hc Hne Hcpu Hi. split; [done|..|congruence].
  - destruct (items (targets m)) as [|x l]; [done|]. apply Forall_cons in Hcpu as [Hx Hl]. exists x, l. split_and!; [done|by rewrite Hx|].
    by eapply Forall_impl; [exact Hl|intros ? ->].
  - intros _. by eapply Forall_impl; [exact Hcpu|intros ? ->].
Qed.

(** [markPending] of a register whose new requests have to be sent. *)
Lemma resend_ok A ids k st q m m' : store_ok A st -> cache_ok A ids st q -> k ∈ allocatedList q -> mshrs st !! k = Some m -> inService m = true ->
  mshr_core (packets st) m' -> items (targets m') <> [] -> Forall (fun x => Target.source x = FromCPU) (items (targets m')) ->
  marks_m (packets st) m' ⊆+ marks_m (packets st) m -> inService m' = true -> downstreamPending m' = downstreamPending m ->
  exists st' q', MSHRQueue.markPending k (put st k m') q = Ok (st', q') /\ store_ok A st' /\ cache_ok A ids st' q' /\ calm_but k st st' /\
    mshrs st' !! k = Some (set_inService false m') /\ packets st' = packets st /\ allocatedList q' = allocatedList q.
Proof.
  intros Hok Hca Hk Hm Hi Hc Hne Hcpu Hmk Hi' Hd. pose proof (ca_in _ _ _ _ _ Hca Hk) as HkA. destruct Hca as [Hq Hu].
  unfold MSHRQueue.markPending. rewrite (get_Some (put st k m') k m') by (cbn; by rewrite lookup_insert_eq). cbn [rbind]. rewrite Hi'. cbn [check rbind].
  rewrite mshr_put_put. set (st' := put st k (set_inService false m')).
  assert (Hm' : mshrs st' !! k = Some (set_inService false m')) by (cbn; by rewrite lookup_insert_eq).
  assert (C : calm_but k st st') by apply calm_but_put.
  destruct (addToReadyList_Ok (mshrs st') k (readyList q)) as (rl & E); [|by eexists|].
  { eapply Forall_impl; [exact (ok_ready_dom _ _ _ Hq)|]. intros i [mi Hmi]. cbn. destruct (decide (i = k)) as [->|]; [rewrite lookup_insert_eq; by eexists|].
    rewrite lookup_insert_ne by done. by eexists. }
  rewrite E. cbn [rbind]. eexists st', _. split; [done|]. split; [|split; [split; [|done]|done]].
  - apply (store_ok_put A st k m); try done. apply mshr_ok_cpu; try done. by destruct Hc.
  - eapply queue_ok_pending; try done; [by eapply calm_but_others|by rewrite (serving_at _ _ _ Hm)|by rewrite (serving_at _ _ _ Hm')|by eapply addToReadyList_Perm].
Qed.

(** ** Responses *)
Lemma marks_m_all ps m : marks_m ps m = marks_l ps (all_targets m).
Proof. unfold marks_m, all_targets. by rewrite marks_l_app. Qed.

Lemma marks_l_unmarked ps l : unmarked l -> marks_l ps l = [].
Proof. induction 1 as [|x l Hx _ IH]; [done|]. rewrite marks_l_cons, IH. unfold mark_of. by rewrite Hx. Qed.

Lemma promoted_trans A k st1 m1 st2 m2 st3 m3 : promoted A k st1 m1 st2 m2 -> promoted A k st2 m2 st3 m3 -> promoted A k st1 m1 st3 m3.
Proof.
  intros [K1 A1 P1 N1 O1 D1 (l1 & X1) V1] [K2 A2 P2 N2 O2 D2 (l2 & X2) V2]. split; try congruence; [by eapply keeps_trans|by eapply lowered_trans|auto|].
  exists (l1 ++ l2). by rewrite X2, X1, app_assoc.
Qed.

(** The promotions before a response is served: only the assertion of
    [promoteWritable] can fail. *)
Lemma promotions A k st m (lk rd wr : bool) : store_ok A st -> k ∈ A -> mshrs st !! k = Some m -> inService m = true -> downstreamPending m = false ->
  exists st1, (if negb lk && rd then promoteReadable k st else Ok st) = Ok st1 /\
   ((exists st2 m2, (if negb lk && wr then promoteWritable k st1 else Ok st1) = Ok st2 /\ promoted A k st m st2 m2 /\ (lk = true -> st2 = st /\ m2 = m)) \/
    ((if negb lk && wr then promoteWritable k st1 else Ok st1) = Err AssertFail /\ wr = true /\ TargetList.needsWritable (targets m) = true /\
      TargetList.needsWritable (deferredTargets m) = true)).
Proof.
  intros Hok Hk Hm Hi Hd. destruct lk; cbn [negb andb]; [exists st; split; [done|]; left; exists st, m; split; [done|]; split; [by apply promoted_refl|done]|].
  assert (H1 : exists st1 m1, (if rd then promoteReadable k st else Ok st) = Ok st1 /\ promoted A k st m st1 m1 /\
    TargetList.needsWritable (targets m1) = TargetList.needsWritable (targets m)).
  { destruct rd; [by apply promoteReadable_ok|]. exists st, m. split; [done|]. split; [by apply promoted_refl|done]. }
  destruct H1 as (st1 & m1 & E1 & P1 & W1). exists st1. split; [done|]. destruct wr; [|left; by exists st1, m1].
  destruct P1 as [K1 A1 Pk1 N1 O1 D1 X1 V1] eqn:EP. destruct K1 as [Hok1 C1].
  assert (Hi1 : inService m1 = true) by (rewrite <- Hi; by eapply calm_inService).
  destruct (promoteWritable_ok A k st1 m1) as [(st2 & m2 & E2 & P2)|(E2 & W2 & V2)]; try done; [by rewrite N1|left|right; split_and!; [done..|congruence|auto]].
  exists st2, m2. split; [done|]. split; [by eapply promoted_trans|done].
Qed.

(** The requests of a register, by their packets and numbers. *)
Definition requests (st : store) (k : Z) : list (Z * Z) :=
  match mshrs st !! k with Some m => reqs (all_targets m) | None => [] end.
Lemma requests_at st k m : mshrs st !! k = Some m -> requests st k = reqs (all_targets m).
Proof. intros H. unfold requests. by rewrite H. Qed.

(** The register after a response: free and without targets; in the ready list, with
    requests to be sent; or in service still, for a locked read whose write is due. *)
Definition outcome (k : Z) (st : store) (q : Queue.t) : Prop := exists m, mshrs st !! k = Some m /\
  ((k ∈ freeList q /\ getNumTargets m = 0%nat) \/ (k ∈ readyList q /\ items (targets m) <> []) \/
   (k ∈ allocatedList q /\ inService m = true /\ locked_front (packets st) m)).

(** What handling a response of the register [k] does. *)
Record responded (A : gset Z) (ids : list Z) (k : Z) (cmd : MemCmd.Command) (st : store) (m : MSHR.t) (q : Queue.t) (ready : list Target.t)
    (st' : store) (q' : Queue.t) (A' : gset Z) : Prop := {
  rs_store : store_ok A' st';
  rs_cache : cache_ok A' ids st' q';
  rs_use : forall i, i <> k -> i ∈ A <-> i ∈ A';
  rs_calm : calm_but k st st';
  rs_label : labels st' k = labels st k;
  rs_order : cmd <> MemCmd.ReadRespWithInvalidate -> cmd <> MemCmd.LockedRMWWriteResp -> Forall (fun x => ~ locked (packets st) x) (all_targets m) ->
    reqs ready ++ requests st' k = requests st k /\ reqs (items (targets m)) `prefix_of` reqs ready;
  rs_first : cmd <> MemCmd.LockedRMWWriteResp -> head (reqs ready) = head (requests st k);
  rs_all : forall r, r ∈ requests st k -> r ∈ reqs ready \/ r ∈ requests st' k \/ (cmd = MemCmd.LockedRMWWriteResp /\ head (requests st k) = Some r);
  rs_end : outcome k st' q';
}.

(** After the targets have been served: what is left is kept for the write of a locked
    read, sent again, or nothing. *)
Definition finish (curTick : Z) (k : Z) (r : TargetList.t * option CacheBlk * store) (q : Queue.t) :
    result (TargetList.t * option CacheBlk * store * Queue.t * bool) :=
  let! locked := hasLockedRMWReadTarget k r.2 in
  if locked : bool then Ok (r.1.1, r.1.2, r.2, q, false)
  else
    let! b := promoteDeferredTargets curTick k r.2 in
    if b.1 : bool then let! s := MSHRQueue.markPending k b.2 q in Ok (r.1.1, set_readable false <$> r.1.2, s.1, s.2, false)
    else let! s := MSHRQueue.deallocate k b.2 q in Ok (r.1.1, r.1.2, s.1.1, s.1.2, s.2).

(** The result of [finish], without the order of the requests. *)
Record finished (A : gset Z) (ids : list Z) (k : Z) (m' : MSHR.t) (st st' : store) (q' : Queue.t) (A' : gset Z) : Prop := {
  fi_store : store_ok A' st';
  fi_cache : cache_ok A' ids st' q';
  fi_use : forall i, i <> k -> i ∈ A <-> i ∈ A';
  fi_calm : calm_but k st st';
  fi_at : exists m2, mshrs st' !! k = Some m2 /\ label m2 = label m' /\ all_targets m2 = all_targets m';
  fi_end : outcome k st' q';
}.

Lemma finish_ok A ids curTick k cmd ready blk st q m ps0 m0 m' : store_ok A st -> cache_ok A ids st q -> k ∈ allocatedList q -> mshrs st !! k = Some m ->
  inService m = true -> downstreamPending m = false -> served cmd ps0 m0 (items ready) (packets st) m' -> inService m' = true -> downstreamPending m' = false ->
  deferredTargets m' = deferredTargets m ->
  exists blk' st' q' b A', finish curTick k (ready, blk, put st k m') q = Ok (ready, blk', st', q', b) /\ finished A ids k m' st st' q' A'.
Proof.
  intros Hok Hca Hk Hm Hi Hd [Hc _ _ _ _ Hu Hfr Htl Hl _ _ _] Hi' Hd' Hdef. pose proof (ca_in _ _ _ _ _ Hca Hk) as HkA.
  assert (Hm' : mshrs (put st k m') !! k = Some m') by (cbn; by rewrite lookup_insert_eq). unfold finish. cbn [fst snd].
  destruct (hasLocked_Ok k (put st k m') m' Hm' (core_pkt_of _ _ Hc)) as (b & -> & Hb). cbn [rbind].
  assert (Hmk : forall m2, all_targets m2 = all_targets m' -> marks_m (packets st) m2 ⊆+ marks_m (packets st) m).
  { intros m2 E. rewrite (marks_m_all _ m2), E. unfold all_targets. rewrite marks_l_app, (marks_l_unmarked _ _ Hu), Hdef. cbn. by apply submseteq_inserts_l. }
  destruct b.
  - destruct (proj1 Hb eq_refl) as (x & Hx & Hlk). exists blk, (put st k m'), q, false, A. split; [done|].
    assert (K : store_ok A (put st k m')).
    { apply (store_ok_put A st k m); try done; [|by apply Hmk|congruence]. destruct (items (targets m')) as [|y l] eqn:E; [done|]. injection Hx as ->.
      split; try done; [exists x, l; split_and!; [done|by apply Hfr|done]|congruence|by rewrite E]. }
    split; try done; [|apply calm_but_put|by exists m'|exists m'; split; [done|right; right; split_and!; [done..|by exists x]]]. destruct Hca as [Hq Hu']. split; [|done]. eapply queue_ok_frame; [exact Hq|].
    intros i Hii. destruct (decide (i = k)) as [->|Hne].
    + unfold serving, numTargets. rewrite Hm', Hm. split_and!; [by eexists|cbn; congruence|]. intros Hn. exfalso.
      eapply (front_targets m); [|exact Hn]. by apply (so_mshr _ _ Hok k).
    + by apply (calm_but_same k st _ ids (calm_but_put k st m') (ok_dom _ _ _ Hq)).
  - assert (Hcpu : Forall (fun x => Target.source x = FromCPU) (items (targets m'))) by (destruct Hl as [|Hl]; [done|]; by apply Hb in Hl).
    destruct (promoteDeferredTargets_ok curTick k (put st k m') m' Hm' Hc Hcpu) as [[Hn E]|(m2 & E & R)]; rewrite E; cbn [rbind fst snd].
    + destruct (deallocate_ok A ids k st q m m') as (st' & q' & b & -> & Hok' & Hca' & C & Hal & Hpk & m2 & Hm2 & Hn2 & Hl2); try done; [congruence|].
      cbn [rbind fst snd]. exists blk, st', q', b, (A ∖ {[k]}). split; [done|]. split; try done; [set_solver| |].
      2: { exists m2. split; [done|]. left. split; [|done].
           assert (Hki : k ∈ ids) by (eapply ok_allocated_in; [apply Hca|done]). pose proof Hki as Hkp. rewrite <- (ok_part _ _ _ (ca_queue _ _ _ _ Hca')) in Hkp.
           apply elem_of_app in Hkp as [?|Hka]; [done|]. apply (ca_use _ _ _ _ Hca') in Hka; [|done]. set_solver. }
      exists m2. split_and!; [done..|].
      destruct (no_items _ Hn) as [E1 E2], (no_items _ Hn2) as [E3 E4]. unfold all_targets. by rewrite E1, E2, E3, E4.
    + destruct R as [Rc Ra Rn _ Rcpu (Ri & Rd & Rl)]. rewrite mshr_put_put.
      destruct (resend_ok A ids k st q m m2) as (st' & q' & -> & Hok' & Hca' & C & Hm2 & Hpk & Hal); try done; [by apply Hmk|congruence..|].
      cbn [rbind fst snd]. eexists _, st', q', false, A. split; [done|]. split; try done; [by exists (set_inService false m2)|].
      exists (set_inService false m2). split; [done|]. right. left. split; [|done].
      apply (ok_in_ready _ _ _ _ (ca_queue _ _ _ _ Hca')). rewrite Hal. split; [done|by rewrite (serving_at _ _ _ Hm2)].
Qed.

Lemma recvTimingResp_finish ro pkt bk la curTick k st q : recvTimingResp ro pkt bk la curTick k st q =
  (let! m := get st k in let! _ := MSHR.getTarget m in let! blk := fill pkt bk la m in
   let! locked := hasLockedRMWReadTarget k st in
   let readable := negb locked && (valid blk && MemCmd.isClean (Packet.cmd pkt) && negb (MemCmd.isInvalidate (Packet.cmd pkt))) in
   let! st := (if readable then promoteReadable k st else Ok st) in
   let blk := if readable then set_readable true <$> blk else blk in
   let! st := (if negb locked && (writable blk && negb (Request.isCacheInvalidate (Packet.req pkt))) then promoteWritable k st else Ok st) in
   let! r := serviceMSHRTargets ro pkt bk k blk st in finish curTick k r q).
Proof. done. Qed.

(** The requests of a register after its response, in the order in which they came. *)
Lemma served_order A cmd k st m st2 m2 ready ps' m' : promoted A k st m st2 m2 -> served cmd (packets st2) m2 ready ps' m' ->
  cmd <> MemCmd.ReadRespWithInvalidate -> cmd <> MemCmd.LockedRMWWriteResp -> Forall (fun x => ~ locked (packets st) x) (all_targets m) ->
  reqs ready ++ reqs (all_targets m') = reqs (all_targets m) /\ reqs (items (targets m)) `prefix_of` reqs ready.
Proof.
  intros [K At Pk Pn Or Pd (l & Px) _] S Hc1 Hc2 Hn. destruct (sv_fifo _ _ _ _ _ _ S Hc1 Hc2) as [-> E].
  - rewrite Pk. assert (Hn2 : Forall (fun x => ~ locked (packets st) x) (all_targets m2)) by (eapply lowered_Forall; [|exact Or|exact Hn]; done).
    by apply Forall_app in Hn2 as [? _].
  - split; [|rewrite Px; by eexists]. rewrite <- (lowered_reqs _ _ Or). unfold all_targets. rewrite E, (sv_deferred _ _ _ _ _ _ S), !reqs_app. done.
Qed.

(** The first request is served, and none is lost. *)
Lemma served_all A cmd k st m st2 m2 ready ps' m' : promoted A k st m st2 m2 -> items (targets m) <> [] -> served cmd (packets st2) m2 ready ps' m' ->
  (cmd <> MemCmd.LockedRMWWriteResp -> head (reqs ready) = head (reqs (all_targets m))) /\
  (forall r, r ∈ reqs (all_targets m) -> r ∈ reqs ready \/ r ∈ reqs (all_targets m') \/
    (cmd = MemCmd.LockedRMWWriteResp /\ head (reqs (all_targets m)) = Some r)).
Proof.
  intros [K At Pk Pn Or Pd (l & Px) _] Hne S.
  assert (Hh : head (reqs (all_targets m)) = head (reqs (items (targets m2)))).
  { unfold all_targets. rewrite reqs_app, Px. by destruct (items (targets m)). }
  assert (Hhd : forall l x, head l = Some x -> head (reqs l) = Some (Target.pkt x, Target.order x)) by (intros [|? ?] ? [= ->]; done).
  split.
  - intros Hc. rewrite Hh. pose proof (sv_first _ _ _ _ _ _ S Hc) as E. destruct ready, (items (targets m2)); try done. by injection E as ->.
  - intros r Hr. rewrite Hh. rewrite <- (lowered_reqs _ _ Or) in Hr. apply list_elem_of_fmap in Hr as (x & -> & Hx).
    assert (Hin : forall l, x ∈ l -> (Target.pkt x, Target.order x) ∈ reqs l) by (intros l' Hl'; apply list_elem_of_fmap; by exists x).
    unfold all_targets in *. rewrite reqs_app, elem_of_app. apply elem_of_app in Hx as [Hx|Hx].
    + destruct (sv_all _ _ _ _ _ _ S x Hx) as [?|[?|[? ?]]]; auto.
    + rewrite <- (sv_deferred _ _ _ _ _ _ S) in Hx. auto.
Qed.

(** The service of a target looks at the state of the register only. *)
Lemma service_target_view ro pkt bk m m' src p blk : serve_view m' = serve_view m -> service_target ro pkt bk m' src p blk = service_target ro pkt bk m src p blk.
Proof.
  intros [= E1 E2 E3 E4 E5 E6]. unfold service_target, answer_from_packet, is_invalidate, hasPostInvalidate, hasPostDowngrade.
  by rewrite E1, E2, E3, E4, E5, E6.
Qed.

(** The assertions that a response can fail: those of the fill; the one of a request
    that the response or the block cannot satisfy; the one of [promoteWritable]. *)
Definition refused (ro : bool) (pkt : Packet.t) (bk : blocks) (la : option bool) (st : store) (m : MSHR.t) (e : error) : Prop :=
  fill pkt bk la m = Err e \/ unservable ro pkt bk (packets st) m (all_targets m) e \/
  (e = AssertFail /\ TargetList.needsWritable (targets m) = true /\ TargetList.needsWritable (deferredTargets m) = true).

Lemma unservable_promoted A ro pkt bk k st m st2 m2 e : promoted A k st m st2 m2 -> unservable ro pkt bk (packets st2) m2 (items (targets m2)) e ->
  unservable ro pkt bk (packets st) m (all_targets m) e.
Proof.
  intros [_ _ Pk _ Or _ _ V] (x & p & blk & Hx & Hp & E). rewrite Pk in Hp. rewrite (service_target_view _ _ _ _ _ _ _ _ V) in E.
  assert (Hx2 : x ∈ all_targets m2) by (unfold all_targets; set_solver).
  apply list_elem_of_lookup in Hx2 as (i & Hi). destruct (Forall2_lookup_r _ _ _ _ _ Or Hi) as (y & Hy & Hxy).
  exists y, p, blk. split; [by eapply list_elem_of_lookup_2|]. by destruct Hxy as [->| ->].
Qed.

Lemma responded_finished A ids k cmd st m st2 m2 q ready ps' m' st' q' A' : mshrs st !! k = Some m -> items (targets m) <> [] ->
  promoted A k st m st2 m2 -> served cmd (packets st2) m2 ready ps' m' -> finished A ids k m' (mkStore ps' (mshrs st2)) st' q' A' ->
  responded A ids k cmd st m q ready st' q' A'.
Proof.
  intros Hm Hne P S [F1 F2 F3 F4 (m3 & Hm3 & Hl3 & Ha3) F5]. pose proof P as [[Hok2 C2] At _ _ _ _ _ _].
  destruct (served_all _ _ _ _ _ _ _ _ _ _ P Hne S) as [Hfst Hall]. split; try done.
  - eapply calm_but_trans; [apply calm_calm_but, C2|exact F4].
  - destruct (C2 k) as [<- _]. unfold labels. rewrite Hm3, At. cbn. by rewrite Hl3, (sv_label _ _ _ _ _ _ S).
  - intros Hc1 Hc2 Hn. rewrite (requests_at _ _ _ Hm3), (requests_at _ _ _ Hm), Ha3. by eapply served_order.
  - by rewrite (requests_at _ _ _ Hm).
  - by rewrite (requests_at _ _ _ Hm3), (requests_at _ _ _ Hm), Ha3.
Qed.

(** A response is handled, or an assertion refuses it. *)
Lemma recvTimingResp_ok A ids ro pkt bk la curTick k st q m : store_ok A st -> cache_ok A ids st q -> k ∈ allocatedList q -> mshrs st !! k = Some m ->
  inService m = true -> downstreamPending m = false -> (Packet.cmd pkt = MemCmd.LockedRMWWriteResp -> locked_front (packets st) m) ->
  match recvTimingResp ro pkt bk la curTick k st q with
  | Ok (ready, _, st', q', _) => exists A', responded A ids k (Packet.cmd pkt) st m q (items ready) st' q' A'
  | Err e => refused ro pkt bk la st m e
  end.
Proof.
  intros Hok Hca Hk Hm Hi Hd Hlk. pose proof (ca_in _ _ _ _ _ Hca Hk) as HkA. rewrite recvTimingResp_finish.
  pose proof (so_mshr _ _ Hok k m HkA Hm) as Hmo. pose proof Hmo as [_ (x0 & l0 & E0 & _) _ _].
  rewrite (get_Some _ _ _ Hm). cbn [rbind]. unfold getTarget, hasTargets, TargetList.empty, front. rewrite E0. cbn [negb check rbind].
  destruct (fill pkt bk la m) as [blk|e] eqn:Ef; cbn [rbind]; [|by left].
  destruct (hasLocked_Ok k st m Hm) as (lk & -> & Hb); [apply core_pkt_of, Hmo|]. cbn [rbind].
  set (rd := valid blk && _ && _). set (blk1 := if negb lk && rd then set_readable true <$> blk else blk). set (wr := writable blk1 && _).
  destruct (promotions A k st m lk rd wr) as (st1 & E1 & Hpr); try done. rewrite E1. cbn [rbind].
  destruct Hpr as [(st2 & m2 & E2 & P & Hsame)|(E2 & _ & ? & ?)]; rewrite E2; cbn [rbind]; [|by right; right].
  pose proof P as [[Hok2 C2] At Pk Pn Or Pd Px _].
  assert (Hi2 : inService m2 = true) by (rewrite <- Hi; by eapply calm_inService). rewrite Hd in Pn.
  pose proof (serviceMSHRTargets_ok ro pkt bk A k blk1 st2 m2 Hok2 HkA At Hi2 Pn) as HS.
  destruct (serviceMSHRTargets ro pkt bk k blk1 st2) as [[[ready blk2] st3]|e]; cbn [rbind].
  2: { right. left. eapply unservable_promoted; [exact P|]. apply HS. intros Hc. specialize (Hlk Hc). by destruct (Hsame (proj2 Hb Hlk)) as [-> ->]. }
  destruct HS as (ps' & m' & -> & Hok3 & S); [intros Hc; specialize (Hlk Hc); by destruct (Hsame (proj2 Hb Hlk)) as [-> ->]|].
  assert (Hca3 : cache_ok A ids (mkStore ps' (mshrs st2)) q) by (destruct (cache_keeps A ids st st2 q Hca ltac:(done)); by split).
  destruct (finish_ok A ids curTick k (Packet.cmd pkt) ready blk2 (mkStore ps' (mshrs st2)) q m2 (packets st2) m2 m') as (blk' & st' & q' & b & A' & E & F); try done.
  { by rewrite (sv_service _ _ _ _ _ _ S). } { by rewrite (sv_pending _ _ _ _ _ _ S). } { apply S. }
  rewrite E. exists A'. eapply responded_finished; try done. by rewrite E0.
Qed.
