(* ===== verification/MshrAlloc.v ===== *)
(** * Allocation, prefetches that are dropped, and delays

    The other operations on the queue of the registers of a cache. *)

From S2P Require Import Prelude Bits Packet CacheQueue Mshr MshrOps MshrLists MshrMarks MshrInv MshrSteps MshrService MshrResp MshrQueues.
Import Target (FromCPU, FromSnoop, FromPrefetcher).
Import MSHR TargetList (items, with_items).
Import Queue MSHROps BaseCache.

(** ** Allocation *)
Lemma marks_put_free A st k m m' : store_ok A st -> k ∉ A -> mshrs st !! k = Some m -> getNumTargets m' = 0%nat -> marks (put st k m') ≡ₚ marks st.
Proof.
  intros Hok Hk Hm Hn. rewrite marks_put, (marks_split st k m Hm), (marks_m_none _ _ Hn), (marks_m_none _ m); [done|]. by apply (so_free _ _ Hok k).
Qed.

Lemma store_ok_put_free A st k m m' : store_ok A st -> k ∉ A -> mshrs st !! k = Some m -> getNumTargets m' = 0%nat -> store_ok A (put st k m').
Proof.
  intros Hok Hk Hm Hn. pose proof (marks_put_free A st k m m' Hok Hk Hm Hn) as HM. destruct (so_marks _ _ Hok) as [P1 P2 P3 P4 P5].
  assert (Hne : forall i, i ∈ A -> i <> k) by (intros i Hi ->; done). split.
  - intros i Hi. cbn. rewrite lookup_insert_ne by (by apply not_eq_sym, Hne). by apply Hok.
  - intros i mi Hi Hmi. cbn in *. rewrite lookup_insert_ne in Hmi by (by apply not_eq_sym, Hne). by apply (so_mshr _ _ Hok i).
  - intros i mi Hi Hmi. cbn in Hmi. destruct (decide (i = k)) as [->|Hik]; [rewrite lookup_insert_eq in Hmi; by injection Hmi as <-|].
    rewrite lookup_insert_ne in Hmi by done. by apply (so_free _ _ Hok i).
  - split; [by rewrite HM| |set_solver|set_solver|].
    + intros u Hu _. rewrite HM in Hu. rewrite down_put. rewrite decide_False by (by apply Hne, (so_marked _ _ Hok)). apply P2; [done|set_solver].
    + intros i mi x Hmi Hx. cbn in Hmi. destruct (decide (i = k)) as [->|Hik]; [rewrite lookup_insert_eq in Hmi; injection Hmi as <-|rewrite lookup_insert_ne in Hmi by done; by eapply P5].
      destruct (no_items _ Hn) as [E1 E2]. rewrite E1, E2 in Hx. set_solver.
  - intros u. rewrite HM. apply (so_marked _ _ Hok).
Qed.

(** What allocation needs of the packet. *)
Definition acceptable (A : gset Z) (n : Z * Z) (p : pobj) : Prop := inside n (pk p) /\ (forall u, findNextSenderState p = Some u -> u ∈ A).

Lemma MSHR_allocate_ok A curTick k blk_addr n pkt rt o a st st' p m : store_ok A st -> k ∉ A -> mshrs st !! k = Some m ->
  packets st !! pkt = Some p -> acceptable A (blk_addr, n) p -> 0 < n < 2 ^ 32 ->
  MSHROps.allocate curTick k blk_addr n pkt rt o a st = Ok st' ->
  store_ok (A ∪ {[k]}) st' /\ calm_but k st st' /\ packets st' = packets st /\
  exists m' sec, mshrs st' !! k = Some m' /\ inService m' = false /\ Packet.isSecure (pk p) = Ok sec /\
    label m' = (blk_addr, n, sec, Request.isUncacheable (Packet.req (pk p))) /\ reqs (all_targets m') = [(pkt, o)].
Proof.
  intros Hok Hk Hm Hp [Hfit Hu] Hn H. unfold MSHROps.allocate in H. apply bind_Ok_inv in H as (p' & Hp' & H). apply get_pkt_Ok in Hp'.
  rewrite Hp in Hp'. injection Hp' as <-. apply bind_Ok_inv in H as (m0 & Hm0 & H). apply mshr_get_Ok in Hm0. rewrite Hm in Hm0. injection Hm0 as <-.
  apply bind_Ok_inv in H as (sec & Hsec & H). set (m1 := MSHR.mk _ _ _ _ _ _ _ _ _ _ _ _ _ _ _) in H.
  apply bind_Ok_inv in H as (st2 & H2 & H).
  assert (Est : st2 = st'). { do 6 apply bind_Ok_inv in H as (? & _ & H). by injection H. }
  subst st2. destruct (no_items m (so_free _ _ Hok k m Hk Hm)) as [E1 E2].
  assert (Hm1 : mshrs (put st k m1) !! k = Some m1) by (cbn; by rewrite lookup_insert_eq).
  assert (Hc1 : mshr_core (packets st) m1).
  { split; cbn; try done; try (apply list_ok_init; [lia|done]); [by rewrite E2|by rewrite E1; set_solver]. }
  assert (Hn1 : getNumTargets m1 = 0%nat) by (unfold getNumTargets; cbn; by rewrite E1, E2).
  destruct (store_ok_add A curTick k false pkt rt o (if bool_decide (Packet.cmd (pk p) = MemCmd.HardPFReq) then FromPrefetcher else FromCPU)
     true a (put st k m1) st' p m1) as (Hok' & Hpk & l & x & b & Hxp & Hxs & Hxo & Hmk & Ho); try done.
  - by apply (store_ok_put_free A st k m).
  - intros u Hnu. cbn in Hnu. specialize (Hu u Hnu). set_solver.
  - intros _. by case_bool_decide.
  - intros _. split_and!; [done|intros _; by case_bool_decide|done].
  - split; [done|]. split; [|split; [done|]].
    + eapply calm_but_trans; [apply (calm_but_put k st m1)|]. intros i Hi. pose proof (calm_mark (put st k m1) (new_mark p true) i) as C.
      unfold labels, serving, numTargets in *. by rewrite (Ho i Hi).
    + eexists _, sec. split; [exact Hmk|]. split_and!; [done..|]. unfold all_targets, reqs. cbn. rewrite E1, E2. cbn. by rewrite Hxp, Hxo.
Qed.

Lemma allocate_ok A ids curTick blk_addr n pkt rt o a st q k st' q' p : store_ok A st -> cache_ok A ids st q ->
  packets st !! pkt = Some p -> acceptable A (blk_addr, n) p -> 0 < n < 2 ^ 32 ->
  MSHRQueue.allocate curTick blk_addr n pkt rt o a st q = Ok (k, st', q') ->
  store_ok (A ∪ {[k]}) st' /\ cache_ok (A ∪ {[k]}) ids st' q' /\ calm_but k st st' /\ packets st' = packets st /\ (k ∉ A) /\ k ∈ ids /\
  allocatedList q' = allocatedList q ++ [k] /\
  exists m' sec, mshrs st' !! k = Some m' /\ Packet.isSecure (pk p) = Ok sec /\
    label m' = (blk_addr, n, sec, Request.isUncacheable (Packet.req (pk p))) /\ reqs (all_targets m') = [(pkt, o)].
Proof.
  intros Hok [Hq Hu] Hp Hacc Hn H. unfold MSHRQueue.allocate in H. destruct (freeList q) as [|k0 fl] eqn:Ef; [done|].
  assert (Hin : k0 ∈ ids) by (rewrite <- (ok_part _ _ _ Hq), Ef; set_solver).
  assert (HkA : k0 ∉ A).
  { rewrite (Hu k0 Hin). pose proof (ok_nodup _ _ _ Hq) as Hnd. rewrite <- (ok_part _ _ _ Hq), Ef in Hnd. apply NoDup_app in Hnd as (_ & Hnd & _).
    apply Hnd. set_solver. }
  apply bind_Ok_inv in H as (m & Hm & H). apply mshr_get_Ok in Hm. apply bind_Ok_inv in H as ([] & _ & H). apply bind_Ok_inv in H as (st2 & H2 & H).
  apply bind_Ok_inv in H as (rl & Hrl & H). injection H as -> -> <-.
  destruct (MSHR_allocate_ok A curTick k blk_addr n pkt rt o a st st' p m) as (Hok' & C & Hpk & m' & sec & Hm' & Hi' & Hs & Hl & Hr); try done.
  split; [done|]. split; [split|].
  - eapply queue_ok_allocate; try done; [by eapply calm_but_others|by rewrite (serving_at _ _ _ Hm')|by eapply addToReadyList_Perm].
  - intros i Hi. cbn. rewrite elem_of_union, elem_of_singleton, (Hu i Hi), elem_of_app, list_elem_of_singleton. done.
  - split_and!; try done. by exists m', sec.
Qed.

(** ** Prefetches that turn out not to be needed *)
Definition front_prefetch (ps : gmap Z pobj) (m : MSHR.t) : Prop :=
  exists x p, head (items (targets m)) = Some x /\ pkt_of ps x = Some p /\ Packet.cmd p = MemCmd.HardPFReq.

Lemma marks_l_tail ps x l : marks_l ps l ⊆+ marks_l ps (x :: l).
Proof. rewrite marks_l_cons. by apply submseteq_inserts_l. Qed.

(** Without its first target, a prefetch, a register that waits is as it should be. *)
Lemma pop_prefetch ps m x l p : mshr_core ps m -> items (targets m) = x :: l -> pkt_of ps x = Some p -> Packet.cmd p = MemCmd.HardPFReq ->
  mshr_core ps (set_targets (with_items l (targets m)) m).
Proof.
  intros Hc E Hp Hl. apply core_targets; try done; cbn; [|rewrite E; set_solver]. apply list_ok_items; [apply Hc|..].
  - intros y Hy. exists y. rewrite E. split; [set_solver|done].
  - intros y q Hy Hq Hw. exists y. rewrite E in Hy. apply elem_of_cons in Hy as [->|Hy]; [|done]. rewrite Hp in Hq. injection Hq as <-. by rewrite Hl in Hw.
Qed.

(** A waiting register that gets other requests but stays in the queue. *)
Lemma replaced_ok A ids k st q m m' : store_ok A st -> cache_ok A ids st q -> k ∈ allocatedList q -> mshrs st !! k = Some m ->
  mshr_ok (packets st) m' -> marks_m (packets st) m' ⊆+ marks_m (packets st) m -> inService m' = inService m -> downstreamPending m' = downstreamPending m ->
  store_ok A (put st k m') /\ cache_ok A ids (put st k m') q /\ calm_but k st (put st k m').
Proof.
  intros Hok Hca Hk Hm Hm' Hmk Hi Hd. pose proof (ca_in _ _ _ _ _ Hca Hk) as HkA.
  split; [by apply (store_ok_put A st k m)|]. split; [|apply calm_but_put]. destruct Hca as [Hq Hu]. split; [|done].
  eapply queue_ok_frame; [exact Hq|]. intros i Hii. destruct (decide (i = k)) as [->|Hne].
  - unfold serving, numTargets. cbn. rewrite lookup_insert_eq, Hm. split_and!; [by eexists|cbn; congruence|]. intros Hn. exfalso.
    eapply (front_targets m); [|exact Hn]. by apply (so_mshr _ _ Hok k).
  - by apply (calm_but_same k st _ ids (calm_but_put k st m') (ok_dom _ _ _ Hq)).
Qed.

Lemma forceDeallocateTarget_ok A ids curTick k st q m : store_ok A st -> cache_ok A ids st q -> k ∈ allocatedList q -> mshrs st !! k = Some m ->
  inService m = false -> downstreamPending m = false -> front_prefetch (packets st) m ->
  exists b st' q' d A', MSHRQueue.forceDeallocateTarget curTick k st q = Ok (b, st', q', d) /\ store_ok A' st' /\ cache_ok A' ids st' q' /\
    calm_but k st st' /\ labels st' k = labels st k /\ packets st' = packets st /\ (forall i, i <> k -> i ∈ A <-> i ∈ A') /\ 
    requests st' k = tail (requests st k).
Proof.
  intros Hok Hca Hk Hm Hi Hd (x & p & Hx & Hp & Hpc). pose proof (ca_in _ _ _ _ _ Hca Hk) as HkA.
  destruct (so_mshr _ _ Hok k m HkA Hm) as [Hc (x' & l & E & Hxs & Hl) Hw _]. rewrite E in Hx. injection Hx as ->.
  pose proof (pop_prefetch _ m x l p Hc E Hp Hpc) as Hc1. set (m1 := set_targets (with_items l (targets m)) m) in Hc1.
  assert (Hm1 : mshrs (put st k m1) !! k = Some m1) by (cbn; by rewrite lookup_insert_eq).
  assert (Hmk : forall m2, all_targets m2 = all_targets m1 -> marks_m (packets st) m2 ⊆+ marks_m (packets st) m).
  { intros m2 E2. rewrite !marks_m_all, E2. unfold all_targets. cbn. rewrite E. apply (marks_l_tail _ x (l ++ _)). }
  unfold MSHRQueue.forceDeallocateTarget. rewrite (get_Some _ _ _ Hm). cbn [rbind]. unfold hasTargets, TargetList.empty. rewrite E. cbn [negb check rbind].
  unfold popTarget. rewrite E. cbn [rbind]. fold m1. rewrite (requests_at _ _ _ Hm). unfold labels at 2. rewrite Hm.
  assert (Ht : tail (reqs (all_targets m)) = reqs (all_targets m1)) by (unfold all_targets, m1; by rewrite E). rewrite Ht. cbn [fmap option_fmap option_map].
  change (items (targets m1)) with l. rewrite E in Hw. specialize (Hw Hi). apply Forall_cons in Hw as [_ Hw]. destruct l as [|y l]; cbn [negb].
  - destruct (promoteDeferredTargets_ok curTick k (put st k m1) m1 Hm1 Hc1) as [[Hn Ep]|(m2 & Ep & R)]; [by constructor|..]; rewrite Ep; cbn [rbind fst snd].
    + destruct (deallocate_ok A ids k st q m m1) as (st' & q' & b & -> & Hok' & Hca' & C & Hal & Hpk & m2 & Hm2 & Hn2 & Hl2); try done.
      cbn [rbind fst snd]. assert (Ha : all_targets m2 = all_targets m1).
      { destruct (no_items _ Hn) as [E1 E2], (no_items _ Hn2) as [E3 E4]. unfold all_targets. by rewrite E1, E2, E3, E4. }
      eexists _, st', q', b, (A ∖ {[k]}). split; [done|]. unfold labels. rewrite Hm2, (requests_at _ _ _ Hm2), Ha. cbn [fmap option_fmap option_map]. rewrite Hl2.
      split; [done|]. split; [done|]. split_and!; [done..|set_solver|done].
    + destruct R as [Rc Ra Rn _ Rcpu (Ri & Rd & Rl)]. rewrite mshr_put_put. destruct (replaced_ok A ids k st q m m2) as (Hok' & Hca' & C); try done.
      { apply mshr_ok_cpu; try done. by rewrite Ri. }
      { by apply Hmk. }
      eexists _, _, q, false, A. split; [done|]. split; [done|]. split; [done|]. split; [done|].
      assert (Hm2 : mshrs (put st k m2) !! k = Some m2) by (cbn; by rewrite lookup_insert_eq). unfold labels. rewrite Hm2, (requests_at _ _ _ Hm2), Ra. cbn. by rewrite Rl.
  - cbn [rbind fst snd]. destruct (replaced_ok A ids k st q m m1) as (Hok' & Hca' & C); try done.
    { split; [done|..]; cbn; [|done|congruence]. apply Forall_cons in Hw as [Hys Hw], Hl as [_ Hl]. by exists y, l. }
    { by apply Hmk. }
    eexists _, _, q, false, A. split; [done|]. split; [done|]. split; [done|]. split; [done|]. unfold labels. rewrite Hm1, (requests_at _ _ _ Hm1). done.
Qed.

(** ** The order of the ready list *)
Lemma queue_ok_reorder ids (h : gmap Z MSHR.t) q rl : queue_ok ids h q -> rl ≡ₚ readyList q ->
  queue_ok ids h (with_lists (allocatedList q) rl (freeList q) (_numInService q) (allocated q) q).
Proof. intros [] E. split; cbn; try done. by rewrite E. Qed.

Lemma moveToFront_ok A ids k st q q' : cache_ok A ids st q -> MSHRQueue.moveToFront k st q = Ok q' ->
  cache_ok A ids st q' /\ allocatedList q' = allocatedList q.
Proof.
  intros Hca H. unfold MSHRQueue.moveToFront in H. apply bind_Ok_inv in H as (m & Hm & H). destruct (negb (inService m)); [|by injection H as <-].
  apply bind_Ok_inv in H as (rl & Hrl & H). injection H as <-. destruct Hca as [Hq Hu]. split; [|done]. split; [|done].
  apply queue_ok_reorder; [done|]. by rewrite (erase_Perm _ _ _ Hrl).
Qed.

Lemma list_from_app k l r : MSHRQueue.list_from k l = Ok r -> l = r.1 ++ r.2 /\ head r.2 = Some k.
Proof.
  revert r. induction l as [|i l IH]; intros r H; [done|]. cbn in H. destruct (i =? k) eqn:E.
  - injection H as <-. apply Z.eqb_eq in E. by subst i.
  - apply bind_Ok_inv in H as (r' & Hr & H). injection H as <-. destruct (IH _ Hr) as [-> ?]. done.
Qed.

(** The search of [delay] starts at the entry itself and finds it: the entry stays
    where it is. *)
Lemma delay_stays curTick k d st q st' q' : MSHRQueue.delay curTick k d st q = Ok (st', q') ->
  readyList q' = readyList q /\ allocatedList q' = allocatedList q /\ exists m, mshrs st !! k = Some m /\ readyTime m <= curTick /\
    st' = put st k (set_times (u64 (curTick + d)) (order m) m) /\
    q' = with_lists (allocatedList q) (readyList q) (freeList q) (_numInService q) (allocated q) q.
Proof.
  intros H. unfold MSHRQueue.delay in H. apply bind_Ok_inv in H as (st1 & H1 & H). unfold upd in H1. apply bind_Ok_inv in H1 as (m & Hm & H1).
  apply mshr_get_Ok in Hm. apply bind_Ok_inv in H1 as (m1 & Hm1 & H1). injection H1 as <-. unfold MSHR.delay in Hm1.
  apply bind_Ok_inv in Hm1 as ([] & Hg & Hm1). apply check_Ok, Z.leb_le in Hg. injection Hm1 as <-.
  apply bind_Ok_inv in H as (m2 & Hm2 & H). apply mshr_get_Ok in Hm2. cbn in Hm2. rewrite lookup_insert_eq in Hm2. injection Hm2 as <-.
  apply bind_Ok_inv in H as (s & Hs & H). destruct (list_from_app _ _ _ Hs) as [El Eh]. destruct s as [s1 [|i s2]]; [done|]. injection Eh as ->.
  apply bind_Ok_inv in H as (n & Hn & H). cbn in Hn. unfold Queue.deref in Hn. rewrite lookup_insert_eq in Hn. cbn in Hn. rewrite Z.leb_refl in Hn.
  injection Hn as <-. injection H as <- <-. cbn in *. rewrite <- El. split_and!; [done..|]. by exists m.
Qed.

Lemma delay_ok A ids curTick k d st q st' q' : store_ok A st -> cache_ok A ids st q -> k ∈ A -> MSHRQueue.delay curTick k d st q = Ok (st', q') ->
  keeps A st st' /\ cache_ok A ids st' q'.
Proof.
  intros Hok Hca Hk H. apply delay_stays in H as (_ & _ & m & Hm & _ & -> & ->).
  assert (K : keeps A st (put st k (set_times (u64 (curTick + d)) (order m) m))).
  { apply (keeps_flags A st k m); try done. by destruct (so_mshr _ _ Hok k m Hk Hm) as [[] ? ? ?]. }
  split; [done|]. destruct (cache_keeps _ _ _ _ _ Hca K) as [Hq Hu]. split; [|done]. by apply queue_ok_reorder.
Qed.

(** ** Functional accesses *)
Lemma like_functional o p b p' o' : Packet.trySatisfyFunctional_pkt o p = Ok (b, p', o') -> pkt_like o o'.
Proof.
  intros H. unfold Packet.trySatisfyFunctional_pkt in H. destruct (Packet.isMaskedWrite o).
  - do 2 apply bind_Ok_inv in H as (? & _ & H). by injection H as _ _ <-.
  - do 5 apply bind_Ok_inv in H as (? & _ & H). injection H as _ _ <-. destruct (_ : option _); [apply like_data|done].
Qed.

Lemma functional_targets ps p l r : TargetList.functional_loop ps p l = Ok r ->
  forall i o, ps !! i = Some o -> exists o', r.2 !! i = Some o' /\ obj_like o o'.
Proof.
  revert ps p. induction l as [|x l IH]; intros ps p H i o Hi; cbn in H; [injection H as <-; exists o; split; [done|by split]|].
  apply bind_Ok_inv in H as (ox & Hox & H). apply bind_Ok_inv in H as ([[b p'] o1] & Hf & H). apply like_functional in Hf.
  assert (H1 : exists o', <[Target.pkt x := mkP o1 (senderState ox)]> ps !! i = Some o' /\ obj_like o o').
  { unfold TargetList.get_pkt in Hox. destruct (ps !! Target.pkt x) as [o2|] eqn:E; [injection Hox as ->|done].
    destruct (decide (i = Target.pkt x)) as [->|Hne]; [|rewrite lookup_insert_ne by done; exists o; split; [done|by split]].
    rewrite lookup_insert_eq. rewrite E in Hi. injection Hi as ->. eexists. split; [done|by split]. }
  destruct H1 as (o2 & Ho2 & L2). cbn [fst snd] in H. destruct b; [injection H as <-; by exists o2|].
  destruct (IH _ _ H i o2 Ho2) as (o3 & Ho3 & L3). exists o3. split; [done|]. destruct L2, L3. split; [by etrans|congruence].
Qed.

Lemma functional_mshr A k p st r : store_ok A st -> MSHROps.trySatisfyFunctional k p st = Ok r -> keeps A st r.2 /\ mshrs r.2 = mshrs st.
Proof.
  intros Hok H. unfold MSHROps.trySatisfyFunctional in H. apply bind_Ok_inv in H as (m & Hm & H). destruct (MemCmd.isPrint _).
  { apply bind_Ok_inv in H as (? & _ & H). injection H as <-. split; [by apply keeps_refl|done]. }
  assert (K : forall ps, (forall i o, packets st !! i = Some o -> exists o', ps !! i = Some o' /\ obj_like o o') -> keeps A st (mkStore ps (mshrs st))).
  { intros ps Hps. split; [|apply calm_pkts]. apply store_ok_pkts; [done|]. intros i o _. apply Hps. }
  apply bind_Ok_inv in H as (r1 & H1 & H). pose proof (functional_targets _ _ _ _ H1) as L1.
  destruct r1.1.1; [injection H as <-; split; [by apply K|done]|]. apply bind_Ok_inv in H as (r2 & H2 & H). injection H as <-. split; [|done].
  apply K. intros i o Hi. destruct (L1 i o Hi) as (o1 & Ho1 & [? ?]). destruct (functional_targets _ _ _ _ H2 i o1 Ho1) as (o2 & Ho2 & [? ?]).
  exists o2. split; [done|]. split; [by etrans|congruence].
Qed.

Lemma functional_ok A p l st r : store_ok A st -> MSHRQueue.functional_loop p l st = Ok r -> keeps A st r.2.
Proof.
  revert p st. induction l as [|k l IH]; intros p st Hok H; cbn in H; [injection H as <-; by apply keeps_refl|].
  apply bind_Ok_inv in H as (m & _ & H). apply bind_Ok_inv in H as (b & _ & H). destruct b; [|by eapply IH].
  apply bind_Ok_inv in H as (r1 & H1 & H). destruct (functional_mshr A k p st r1 Hok H1) as [K _].
  destruct r1.1.1; [by injection H as <-|]. eapply keeps_trans; [exact K|]. by eapply IH; [apply K|].
Qed.

(** ** Allocation succeeds *)
(** The register above that waits for the packet is not marked yet. *)
Definition unmarked_sender (st : store) (p : pobj) : Prop := forall u, findNextSenderState p = Some u -> exists mu, mshrs st !! u = Some mu /\ downstreamPending mu = false.

Lemma add_Ok curTick k d pkt rt o s mp a st p m : packets st !! pkt = Some p -> mshrs st !! k = Some m -> fits (TargetList.blkSize (list_of d m)) (pk p) ->
  Z.of_nat (length (TargetList.writesBitmap (list_of d m))) = TargetList.blkSize (list_of d m) -> unmarked_sender st p ->
  exists st', add curTick k d pkt rt o s mp a st = Ok st'.
Proof.
  intros Hp Hm Hf Hl Hu. unfold add, get_pkt, TargetList.get_pkt, upd. rewrite Hp. cbn [rbind]. rewrite (get_Some _ _ _ Hm). cbn [rbind].
  destruct (updateFlags_Ok (pk p) s a (list_of d m) Hf Hl) as (l & ->). cbn [rbind]. set (m1 := set_list d l m).
  assert (H1 : exists ms, (if mp then match findNextSenderState p with
     | Some u => let! mu := get (put st k m1) u in guard! negb (downstreamPending mu); Ok (true, put (put st k m1) u (set_pending true mu))
     | None => Ok (false, put st k m1) end else Ok (false, put st k m1)) = Ok ms /\ is_Some (mshrs ms.2 !! k)).
  { assert (H0 : is_Some (mshrs (put st k m1) !! k)) by (cbn; rewrite lookup_insert_eq; by eexists). destruct mp; [|by eexists].
    destruct (findNextSenderState p) as [u|] eqn:Eu; [|by eexists]. destruct (Hu u Eu) as (mu & Hmu & Hd).
    assert (H2 : exists mu', mshrs (put st k m1) !! u = Some mu' /\ downstreamPending mu' = false).
    { cbn. destruct (decide (u = k)) as [->|Hne]; [rewrite lookup_insert_eq; eexists; split; [done|]; rewrite Hm in Hmu; injection Hmu as <-; unfold m1; by destruct d|].
      rewrite lookup_insert_ne by done. by exists mu. }
    destruct H2 as (mu' & Hmu' & Hd'). rewrite (get_Some _ _ _ Hmu'). cbn [rbind]. rewrite Hd'. cbn [negb check rbind]. eexists. split; [done|]. cbn.
    destruct (decide (u = k)) as [->|Hne]; [rewrite lookup_insert_eq; by eexists|rewrite lookup_insert_ne, lookup_insert_eq by done; by eexists]. }
  destruct H1 as (ms & -> & m2 & Hm2). cbn [rbind]. rewrite (get_Some _ _ _ Hm2). by eexists.
Qed.

Lemma match_self n p : Packet.isSet Packet.VALID_ADDR p = true -> Packet.matchBlockAddr_pkt p n p = Ok true.
Proof.
  intros H. unfold Packet.matchBlockAddr_pkt, Packet.matchBlockAddr, Packet.getBlockAddr, Packet.getAddr, Packet.isSecure. rewrite H. cbn [check rbind].
  rewrite Z.eqb_refl. by rewrite eqb_reflx.
Qed.

Lemma allocate_Ok A ids curTick blk_addr n pkt rt o a st q p : store_ok A st -> cache_ok A ids st q ->
  packets st !! pkt = Some p -> acceptable A (blk_addr, n) p -> unmarked_sender st p -> 0 < n < 2 ^ 32 -> freeList q <> [] ->
  exists k st' q', MSHRQueue.allocate curTick blk_addr n pkt rt o a st q = Ok (k, st', q').
Proof.
  intros Hok [Hq Hu] Hp [Hf Hse] Hum Hn Hfr. unfold MSHRQueue.allocate. destruct (freeList q) as [|k fl] eqn:Ef; [done|].
  assert (Hin : k ∈ ids) by (rewrite <- (ok_part _ _ _ Hq), Ef; set_solver). destruct (ok_dom _ _ _ Hq k Hin) as [m Hm].
  assert (Hz : getNumTargets m = 0%nat). { pose proof (ok_idle _ _ _ Hq k) as Hi. rewrite Ef in Hi. specialize (Hi ltac:(left)). unfold numTargets in Hi. by rewrite Hm in Hi. }
  assert (HkA : k ∉ A).
  { rewrite (Hu k Hin). pose proof (ok_nodup _ _ _ Hq) as Hnd. rewrite <- (ok_part _ _ _ Hq), Ef in Hnd. apply NoDup_app in Hnd as (_ & Hnd & _). apply Hnd. left. }
  rewrite (get_Some _ _ _ Hm). cbn [rbind]. rewrite bool_decide_true by done. cbn [check rbind].
  assert (Ha : exists st', MSHROps.allocate curTick k blk_addr n pkt rt o a st = Ok st').
  { unfold MSHROps.allocate, get_pkt, TargetList.get_pkt. rewrite Hp. cbn [rbind]. rewrite (get_Some _ _ _ Hm). cbn [rbind]. pose proof Hf as ((_ & Hva & _) & _).
    unfold Packet.isSecure. rewrite Hva. cbn [check rbind]. set (m1 := MSHR.mk _ _ _ _ _ _ _ _ _ _ _ _ _ _ _). set (src := if bool_decide _ then _ else _).
    assert (Hm1 : mshrs (put st k m1) !! k = Some m1) by (cbn; by rewrite lookup_insert_eq). destruct (no_items m Hz) as [E1 E2].
    destruct (add_Ok curTick k false pkt rt o src true a (put st k m1) p m1) as [st' E]; [done|done|exact (proj1 Hf)| | |].
    { apply (lo_bytes _ _ (list_ok_init (packets st) blk_addr n (targets m) ltac:(lia) E1)). }
    { intros u Hfu. destruct (Hum u Hfu) as (mu & Hmu & Hd). exists mu. split; [|done]. cbn. rewrite lookup_insert_ne; [done|]. intros <-. by apply HkA, Hse. }
    rewrite E. cbn [rbind]. apply add_inv in E as (p' & m' & l & Hp' & Hm' & _ & _ & ->). rewrite Hm1 in Hm'. injection Hm' as <-.
    set (m2 := if decide _ then _ else _). rewrite (get_Some (put (mark (new_mark p' true) (put st k m1)) k _) k _ (lookup_insert_eq _ _ _)). cbn [rbind].
    assert (El : items (targets m2) = []) by (unfold m2; destruct (decide _); exact E1). unfold with_target, front. cbn [targets list_of set_list set_targets items with_items]. rewrite El.
    cbn [app rbind Target.pkt]. change (packets (put _ k _)) with (packets (mark (new_mark p' true) (put st k m1))).
    rewrite mark_packets. cbn [packets put]. rewrite Hp. cbn [rbind]. rewrite match_self by done. by eexists. }
  destruct Ha as [st' Ha]. rewrite Ha. cbn [rbind].
  destruct (MSHR_allocate_ok A curTick k blk_addr n pkt rt o a st st' p m) as (_ & C & _ & m' & sec & Hm' & _); try done.
  destruct (addToReadyList_Ok (mshrs st') k (readyList q)) as (rl & ->); [|by eexists|by eexists _, _, _].
  apply Forall_forall. intros i Hi. destruct (decide (i = k)) as [->|Hne]; [by eexists|]. destruct (C i Hne) as (C1 & _).
  eapply labels_Some; [exact C1|]. by eapply (proj1 (Forall_forall _ _) (ok_ready_dom _ _ _ Hq)).
Qed.

(** The assertion of [add] fails for a sender that is marked already. *)
Lemma allocate_marked A ids curTick blk_addr n pkt rt o a st q p u mu : store_ok A st -> cache_ok A ids st q ->
  packets st !! pkt = Some p -> acceptable A (blk_addr, n) p -> findNextSenderState p = Some u -> mshrs st !! u = Some mu -> downstreamPending mu = true ->
  0 < n < 2 ^ 32 -> freeList q <> [] -> MSHRQueue.allocate curTick blk_addr n pkt rt o a st q = Err AssertFail.
Proof.
  intros Hok [Hq Hu] Hp [Hf Hse] Hfu Hmu Hd Hn Hfr. unfold MSHRQueue.allocate. destruct (freeList q) as [|k fl] eqn:Ef; [done|].
  assert (Hin : k ∈ ids) by (rewrite <- (ok_part _ _ _ Hq), Ef; set_solver). destruct (ok_dom _ _ _ Hq k Hin) as [m Hm].
  assert (Hz : getNumTargets m = 0%nat). { pose proof (ok_idle _ _ _ Hq k) as Hi. rewrite Ef in Hi. specialize (Hi ltac:(left)). unfold numTargets in Hi. by rewrite Hm in Hi. }
  assert (HkA : k ∉ A).
  { rewrite (Hu k Hin). pose proof (ok_nodup _ _ _ Hq) as Hnd. rewrite <- (ok_part _ _ _ Hq), Ef in Hnd. apply NoDup_app in Hnd as (_ & Hnd & _). apply Hnd. left. }
  rewrite (get_Some _ _ _ Hm). cbn [rbind]. rewrite bool_decide_true by done. cbn [check rbind].
  unfold MSHROps.allocate, get_pkt, TargetList.get_pkt. rewrite Hp. cbn [rbind]. rewrite (get_Some _ _ _ Hm). cbn [rbind]. pose proof Hf as ((_ & Hva & _) & _).
  unfold Packet.isSecure. rewrite Hva. cbn [check rbind]. set (m1 := MSHR.mk _ _ _ _ _ _ _ _ _ _ _ _ _ _ _). set (src := if bool_decide _ then _ else _).
  assert (Hm1 : mshrs (put st k m1) !! k = Some m1) by (cbn; by rewrite lookup_insert_eq). destruct (no_items m Hz) as [E1 E2].
  unfold add, get_pkt, TargetList.get_pkt, upd. cbn [packets put]. rewrite Hp. cbn [rbind]. rewrite (get_Some _ _ _ Hm1). cbn [rbind].
  destruct (updateFlags_Ok (pk p) src a (list_of false m1) (proj1 Hf)) as (l & ->).
  { apply (lo_bytes _ _ (list_ok_init (packets st) blk_addr n (targets m) ltac:(lia) E1)). }
  cbn [rbind]. rewrite Hfu. assert (Hne : u <> k) by (intros ->; by apply HkA, Hse).
  rewrite (get_Some _ u mu) by (cbn; by rewrite !lookup_insert_ne by done). cbn [rbind]. by rewrite Hd.
Qed.

(** ** Finding a register *)
Lemma findMatch_None st q a s : Queue.findMatch (mshrs st) q a s true = Ok None -> 
  forall k n, k ∈ allocatedList q -> labels st k <> Some (a, n, s, false).
Proof.
  unfold Queue.findMatch. induction (allocatedList q) as [|i l IH]; intros H k n Hk; [by apply not_elem_of_nil in Hk|]. cbn in H.
  apply bind_Ok_inv in H as (m & Hm & H). unfold Queue.deref in Hm. destruct (mshrs st !! i) as [mi|] eqn:Ei; [injection Hm as ->|done].
  assert (Hi : labels st i <> Some (a, n, s, false) /\ Queue.match_loop (mshrs st) a s true l = Ok None).
  { unfold labels. rewrite Ei. cbn. destruct (_isUncacheable m) eqn:Eu; [split; [intros [=]; congruence|done]|].
    apply bind_Ok_inv in H as (b & Hb & H). destruct b; [done|]. split; [|done]. intros [= E1 _ E2 _]. unfold Queue.matchBlockAddr in Hb.
    apply bind_Ok_inv in Hb as ([] & _ & Hb). cbn in Hb. rewrite E1, E2, Z.eqb_refl, eqb_reflx in Hb. done. }
  destruct Hi as [Hi Hl]. apply elem_of_cons in Hk as [->|Hk]; [done|]. by apply IH.
Qed.

Lemma findMatch_Some st q a s k : Queue.findMatch (mshrs st) q a s true = Ok (Some k) ->
  k ∈ allocatedList q /\ exists m, mshrs st !! k = Some m /\ blkAddr m = a /\ isSecure m = s.
Proof.
  unfold Queue.findMatch. induction (allocatedList q) as [|i l IH]; intros H; [done|]. cbn in H.
  apply bind_Ok_inv in H as (m & Hm & H). unfold Queue.deref in Hm. destruct (mshrs st !! i) as [mi|] eqn:Ei; [injection Hm as ->|done].
  destruct (_isUncacheable m); [destruct (IH H); split; [by right|done]|]. apply bind_Ok_inv in H as (b & Hb & H).
  destruct b; [|destruct (IH H); split; [by right|done]]. injection H as ->. split; [left|]. exists m. split; [done|].
  unfold Queue.matchBlockAddr in Hb. apply bind_Ok_inv in Hb as ([] & _ & Hb). injection Hb as Hb. apply andb_prop in Hb as [Ha Hs].
  apply Z.eqb_eq in Ha. apply eqb_prop in Hs. done.
Qed.
