(* ===== verification/MshrWorld.v ===== *)
(** * The miss handling of a hierarchy of caches

    Several caches, each with a queue of registers, handle requests, snoops and
    responses in any order. A packet reaches the register that [findMatch] finds for its
    block, as in the handlers of base.cc and cache.cc. The invariants hold in every
    state that is reached. *)

From S2P Require Import Prelude Bits Packet CacheQueue Mshr MshrOps MshrLists MshrMarks MshrInv MshrSteps MshrService MshrResp MshrQueues MshrAlloc.
Import Target (FromCPU, FromSnoop, FromPrefetcher).
Import MSHR TargetList (items, with_items).
Import Queue MSHROps BaseCache.

(** The packets and the registers, and the queue of every cache. *)
Record world := mkW { w_st : store; w_q : gmap Z Queue.t }.

Section World.
(** The size of the blocks; the registers of the caches, which are distinct; what new
    packets hold. *)
Context (blk : Z) (ids : Z -> list Z) (uninit : Z -> list Z).

Definition in_use (w : world) (k : Z) : Prop := exists c q, w_q w !! c = Some q /\ k ∈ allocatedList q.

(** A packet of a cache or a processor above: it lies in one block, and its sender
    waits for it. *)
Definition sendable (w : world) (p : pobj) : Prop := (exists a, inside (a, blk) (pk p)) /\ (forall u, findNextSenderState p = Some u -> in_use w u).

Definition with_cache (c : Z) (st : store) (q : Queue.t) (w : world) : world := mkW st (<[c := q]> (w_q w)).

(** One operation of a cache, or of the rest of the system on packets that no register
    holds. *)
Inductive step (w : world) : world -> Prop :=
| step_packets ps :
    (forall k m x, in_use w k -> mshrs (w_st w) !! k = Some m -> x ∈ all_targets m -> ps !! Target.pkt x = packets (w_st w) !! Target.pkt x) ->
    step w (mkW (mkStore ps (mshrs (w_st w))) (w_q w))
| step_allocate c q curTick pkt p a s when_ready order alloc_on_fill k st' q' :
    w_q w !! c = Some q -> packets (w_st w) !! pkt = Some p -> sendable w p ->
    Packet.getBlockAddr blk (pk p) = Ok a -> Packet.isSecure (pk p) = Ok s ->
    (Request.isUncacheable (Packet.req (pk p)) = true \/ findMatch (mshrs (w_st w)) q a s true = Ok None) ->
    MSHRQueue.allocate curTick a blk pkt when_ready order alloc_on_fill (w_st w) q = Ok (k, st', q') ->
    step w (with_cache c st' q' w)
| step_target c q curTick k pkt p a s when_ready order alloc_on_fill st' :
    w_q w !! c = Some q -> packets (w_st w) !! pkt = Some p -> sendable w p ->
    Packet.getBlockAddr blk (pk p) = Ok a -> Packet.isSecure (pk p) = Ok s -> findMatch (mshrs (w_st w)) q a s true = Ok (Some k) ->
    allocateTarget uninit curTick k pkt when_ready order alloc_on_fill (w_st w) = Ok st' ->
    step w (mkW st' (w_q w))
| step_snoop c q curTick k pkt p a s order b st' :
    w_q w !! c = Some q -> packets (w_st w) !! pkt = Some p -> sendable w p ->
    Packet.getBlockAddr blk (pk p) = Ok a -> Packet.isSecure (pk p) = Ok s -> findMatch (mshrs (w_st w)) q a s true = Ok (Some k) ->
    Packet.cmd (pk p) <> MemCmd.LockedRMWReadReq ->
    MSHROps.handleSnoop uninit curTick k pkt order (w_st w) = Ok (b, st') ->
    step w (mkW st' (w_q w))
| step_send c q k b st' q' :
    w_q w !! c = Some q -> k ∈ allocatedList q -> MSHRQueue.markInService k b (w_st w) q = Ok (st', q') ->
    step w (with_cache c st' q' w)
| step_respond c q curTick k m read_only pkt bk line_allocate ready b st' q' d :
    w_q w !! c = Some q -> k ∈ allocatedList q -> mshrs (w_st w) !! k = Some m -> inService m = true -> downstreamPending m = false ->
    (Packet.cmd pkt = MemCmd.LockedRMWWriteResp -> locked_front (packets (w_st w)) m) ->
    recvTimingResp read_only pkt bk line_allocate curTick k (w_st w) q = Ok (ready, b, st', q', d) ->
    step w (with_cache c st' q' w)
| step_drop c q curTick k m b st' q' d :
    w_q w !! c = Some q -> k ∈ allocatedList q -> mshrs (w_st w) !! k = Some m -> inService m = false -> downstreamPending m = false ->
    front_prefetch (packets (w_st w)) m ->
    MSHRQueue.forceDeallocateTarget curTick k (w_st w) q = Ok (b, st', q', d) ->
    step w (with_cache c st' q' w)
| step_front c q k q' :
    w_q w !! c = Some q -> MSHRQueue.moveToFront k (w_st w) q = Ok q' -> step w (with_cache c (w_st w) q' w)
| step_delay c q curTick k ticks st' q' :
    w_q w !! c = Some q -> k ∈ allocatedList q -> MSHRQueue.delay curTick k ticks (w_st w) q = Ok (st', q') ->
    step w (with_cache c st' q' w)
| step_forward c q k m b :
    w_q w !! c = Some q -> k ∈ allocatedList q -> mshrs (w_st w) !! k = Some m ->
    step w (mkW (put (w_st w) k (set_isForward b m)) (w_q w))
| step_functional c q p r :
    w_q w !! c = Some q -> MSHRQueue.trySatisfyFunctional p (w_st w) q = Ok r -> step w (mkW r.2 (w_q w)).

(** ** The invariant *)
Record world_inv (A : gset Z) (w : world) : Prop := {
  wi_store : store_ok A (w_st w);
  wi_cache : forall c q, w_q w !! c = Some q -> cache_ok A (ids c) (w_st w) q;
  wi_use : forall k, k ∈ A -> in_use w k;
  wi_size : forall k l, k ∈ A -> labels (w_st w) k = Some l -> l.1.1.2 = blk;
  wi_unique : forall c q k k' a s n n', w_q w !! c = Some q -> k ∈ allocatedList q -> k' ∈ allocatedList q ->
    labels (w_st w) k = Some (a, n, s, false) -> labels (w_st w) k' = Some (a, n', s, false) -> k = k';
}.

Context (Hblk : 0 < blk < 2 ^ 32) (Hids : forall c c' k, k ∈ ids c -> k ∈ ids c' -> c = c').

Lemma inv_in A w k : world_inv A w -> in_use w k -> k ∈ A.
Proof. intros H (c & q & Hq & Hk). eapply ca_in; [by apply (wi_cache _ _ H c)|done]. Qed.

Lemma inv_size A w k m : world_inv A w -> k ∈ A -> mshrs (w_st w) !! k = Some m -> blkSize m = blk.
Proof. intros H Hk Hm. apply (wi_size _ _ H k (label m) Hk). unfold labels. by rewrite Hm. Qed.

(** Operations that leave the queues as they are. *)
Lemma inv_keeps A w st' : world_inv A w -> keeps A (w_st w) st' -> world_inv A (mkW st' (w_q w)).
Proof.
  intros [Hs Hc Hu Hz Hn] K. pose proof K as [Hs' C]. split; cbn; try done.
  - intros c q Hq. eapply cache_keeps; [by apply Hc|done].
  - intros k l Hk Hl. destruct (C k) as [E _]. rewrite E in Hl. by eapply Hz.
  - intros c q k k' a s n n' Hq Hk Hk' Hl Hl'. destruct (C k) as [E _], (C k') as [E' _]. rewrite E in Hl. rewrite E' in Hl'. by eapply Hn.
Qed.

(** Operations that change the order of the entries that are ready. *)
Lemma inv_queue A w c q st' q' : world_inv A w -> w_q w !! c = Some q -> keeps A (w_st w) st' -> cache_ok A (ids c) st' q' ->
  allocatedList q' = allocatedList q -> world_inv A (with_cache c st' q' w).
Proof.
  intros Hw Hq K Hc' Hal. destruct (inv_keeps A w st' Hw K) as [Hs Hc Hu Hz Hn].
  assert (Hat : forall c1 q1, <[c := q']> (w_q w) !! c1 = Some q1 -> exists q0, w_q w !! c1 = Some q0 /\ allocatedList q1 = allocatedList q0 /\ (c1 = c -> q1 = q')).
  { intros c1 q1 H1. destruct (decide (c1 = c)) as [->|Hne]; [rewrite lookup_insert_eq in H1; injection H1 as <-; by exists q|].
    rewrite lookup_insert_ne in H1 by done. by exists q1. }
  split; cbn; try done.
  - intros c1 q1 H1. destruct (decide (c1 = c)) as [->|Hne]; [rewrite lookup_insert_eq in H1; by injection H1 as <-|].
    rewrite lookup_insert_ne in H1 by done. by apply Hc.
  - intros i Hi. destruct (Hu i Hi) as (c1 & q1 & H1 & Hi1). cbn in H1. destruct (decide (c1 = c)) as [->|Hne].
    + exists c, q'. cbn. rewrite lookup_insert_eq, Hal. rewrite Hq in H1. by injection H1 as <-.
    + exists c1, q1. cbn. by rewrite lookup_insert_ne.
  - intros c1 q1 k k' a s n n' H1 Hk Hk'. destruct (Hat _ _ H1) as (q0 & H0 & E & _). rewrite E in Hk, Hk'. by eapply (Hn c1 q0).
Qed.

(** Operations on the register [k] of the cache [c], which may leave its queue. *)
Lemma inv_cache A A' w c q k st' q' : world_inv A w -> w_q w !! c = Some q -> k ∈ ids c -> store_ok A' st' -> cache_ok A' (ids c) st' q' ->
  calm_but k (w_st w) st' -> labels st' k = labels (w_st w) k -> (forall i, i <> k -> i ∈ A <-> i ∈ A') -> (k ∈ A' -> k ∈ A) ->
  world_inv A' (with_cache c st' q' w).
Proof.
  intros [Hs Hc Hu Hz Hn] Hq Hk Hs' Hc' C Hl HA HkA. assert (HAsub : forall i, i ∈ A' -> i ∈ A).
  { intros i Hi. destruct (decide (i = k)) as [->|]; [by apply HkA|by apply HA]. }
  assert (Hlab : forall i, labels st' i = labels (w_st w) i) by (intros i; destruct (decide (i = k)) as [->|Hi]; [done|by apply C]).
  split; cbn; [done|..].
  - intros c' q1 H1. destruct (decide (c' = c)) as [->|Hne]; [rewrite lookup_insert_eq in H1; by injection H1 as <-|].
    rewrite lookup_insert_ne in H1 by done. eapply (cache_other A A' (ids c') (w_st w) st' q1 k); [by apply Hc| |done|done].
    intros Hk'. by apply Hne, (Hids c' c k).
  - intros i Hi. destruct (decide (i ∈ ids c)) as [Hic|Hic].
    + exists c, q'. cbn. rewrite lookup_insert_eq. split; [done|]. by apply (ca_use _ _ _ _ Hc').
    + destruct (Hu i (HAsub i Hi)) as (c1 & q1 & H1 & Hi1). exists c1, q1. cbn. split; [|done].
      rewrite lookup_insert_ne; [done|]. intros <-. apply Hic. rewrite Hq in H1. injection H1 as <-. eapply ok_allocated_in; [apply (Hc c q Hq)|done].
  - intros i l Hi. rewrite Hlab. apply Hz. by apply HAsub.
  - intros c' q1 i i' a s n n' H1 Hi Hi'. rewrite !Hlab. destruct (decide (c' = c)) as [->|Hne].
    + rewrite lookup_insert_eq in H1. injection H1 as <-. assert (Hsub : forall j, j ∈ allocatedList q' -> j ∈ allocatedList q).
      { intros j Hj. assert (j ∈ ids c) by (eapply ok_allocated_in; [apply Hc'|done]). apply (ca_use _ _ _ _ (Hc c q Hq)); [done|].
        apply HAsub. by apply (ca_use _ _ _ _ Hc'). }
      eapply (Hn c q); [done|by apply Hsub..].
    + rewrite lookup_insert_ne in H1 by done. by eapply (Hn c' q1).
Qed.

Lemma inside_at a p : (exists a, inside (a, blk) p) -> Packet.getBlockAddr blk p = Ok a -> inside (a, blk) p.
Proof. intros [a' H] Ha. pose proof (inside_getBlockAddr _ _ H) as Ha'. cbn in Ha'. congruence. Qed.

(** A new register, for a block that none of the others in use is for. *)
Lemma inv_allocate A w c q curTick pkt p a s rt o af k st' q' : world_inv A w -> w_q w !! c = Some q -> packets (w_st w) !! pkt = Some p ->
  sendable w p -> Packet.getBlockAddr blk (pk p) = Ok a -> Packet.isSecure (pk p) = Ok s ->
  (Request.isUncacheable (Packet.req (pk p)) = true \/ findMatch (mshrs (w_st w)) q a s true = Ok None) ->
  MSHRQueue.allocate curTick a blk pkt rt o af (w_st w) q = Ok (k, st', q') -> world_inv (A ∪ {[k]}) (with_cache c st' q' w).
Proof.
  intros Hw Hq Hp [Hfit Hse] Ha Hsec Hun H. apply (inside_at a) in Hfit; [|done]. pose proof Hw as [Hs Hc Hu Hz Hn].
  destruct (allocate_ok A (ids c) curTick a blk pkt rt o af (w_st w) q k st' q' p) as (Hs' & Hc' & C & _ & HkA & Hk & Hal & m & sec & Hm & Hms & Hl & _); try done.
  { by apply Hc. } { split; [done|]. intros u Hfu. eapply inv_in; [exact Hw|by apply Hse]. }
  rewrite Hsec in Hms. injection Hms as <-. assert (Hlk : labels st' k = Some (a, blk, s, Request.isUncacheable (Packet.req (pk p)))) by (unfold labels; by rewrite Hm, <- Hl).
  assert (Hlab : forall i, i <> k -> labels st' i = labels (w_st w) i) by (intros i Hi; by apply C).
  assert (Hknew : k ∉ allocatedList q) by (intros Hk'; by apply HkA, (ca_in _ _ _ _ _ (Hc c q Hq))).
  split; cbn; [done|..].
  - intros c' q1 H1. destruct (decide (c' = c)) as [->|Hne]; [rewrite lookup_insert_eq in H1; by injection H1 as <-|].
    rewrite lookup_insert_ne in H1 by done. eapply (cache_other A (A ∪ {[k]}) (ids c') (w_st w) st' q1 k); [by apply Hc| |done|set_solver].
    intros Hk'. by apply Hne, (Hids c' c k).
  - intros i [Hi| ->%elem_of_singleton]%elem_of_union.
    + destruct (Hu i Hi) as (c1 & q1 & H1 & Hi1). destruct (decide (c1 = c)) as [->|Hne].
      * exists c, q'. cbn. rewrite lookup_insert_eq, Hal. rewrite Hq in H1. injection H1 as <-. split; [done|set_solver].
      * exists c1, q1. cbn. by rewrite lookup_insert_ne.
    + exists c, q'. cbn. rewrite lookup_insert_eq, Hal. split; [done|set_solver].
  - intros i l Hi Hli. destruct (decide (i = k)) as [->|Hne]; [rewrite Hlk in Hli; by injection Hli as <-|].
    rewrite Hlab in Hli by done. eapply Hz; [|exact Hli]. set_solver.
  - intros c' q1 i i' b s' n n' H1 Hi Hi' Hli Hli'. destruct (decide (c' = c)) as [->|Hne].
    + rewrite lookup_insert_eq in H1. injection H1 as <-. rewrite Hal in Hi, Hi'.
      assert (Hno : forall j n0, j ∈ allocatedList q -> labels (w_st w) j = Some (b, n0, s', false) -> labels st' k = Some (b, n0, s', false) \/
         (exists n1, labels st' k = Some (b, n1, s', false)) -> False).
      { intros j n0 Hj Hlj Hor. destruct Hun as [Hun|Hun]; [rewrite Hlk, Hun in Hor; naive_solver|].
        apply (findMatch_None _ _ _ _ Hun j n0 Hj). rewrite Hlk in Hor. naive_solver. }
      apply elem_of_app in Hi as [Hi| ->%list_elem_of_singleton], Hi' as [Hi'| ->%list_elem_of_singleton]; [|exfalso..|done].
      * rewrite Hlab in Hli by (by intros ->). rewrite Hlab in Hli' by (by intros ->). by eapply (Hn c q).
      * rewrite Hlab in Hli by (by intros ->). eapply (Hno i n); [done..|]. right. by exists n'.
      * rewrite Hlab in Hli' by (by intros ->). eapply (Hno i' n'); [done..|]. right. by exists n.
    + rewrite lookup_insert_ne in H1 by done. assert (Hin : forall j, j ∈ allocatedList q1 -> j <> k).
      { intros j Hj ->. apply Hne, (Hids c' c k); [|done]. eapply ok_allocated_in; [apply (Hc c' q1 H1)|done]. }
      rewrite Hlab in Hli by (by apply Hin). rewrite Hlab in Hli' by (by apply Hin). by eapply (Hn c' q1).
Qed.

Lemma inv_packets A w ps : world_inv A w -> (forall k m x, in_use w k -> mshrs (w_st w) !! k = Some m -> x ∈ all_targets m ->
    ps !! Target.pkt x = packets (w_st w) !! Target.pkt x) -> world_inv A (mkW (mkStore ps (mshrs (w_st w))) (w_q w)).
Proof.
  intros Hw H. apply inv_keeps; [done|]. split; [|apply calm_pkts]. apply store_ok_pkts; [apply Hw|].
  intros i o (k & m & x & Hk & Hm & Hx & <-) Ho. exists o. rewrite (H k m x); [|by apply (wi_use _ _ Hw)|done..]. split; [done|by split].
Qed.

Lemma inv_mshr A w c q k : world_inv A w -> w_q w !! c = Some q -> k ∈ allocatedList q -> k ∈ A /\ k ∈ ids c /\ exists m, mshrs (w_st w) !! k = Some m.
Proof.
  intros Hw Hq Hk. pose proof (wi_cache _ _ Hw c q Hq) as Hc. pose proof (ca_in _ _ _ _ _ Hc Hk) as HkA.
  split; [done|]. split; [eapply ok_allocated_in; [apply Hc|done]|]. by apply (so_dom _ _ (wi_store _ _ Hw)).
Qed.

(** The register that is found for a packet is for the block of the packet. *)
Lemma inv_found A w c q k p a s : world_inv A w -> w_q w !! c = Some q -> sendable w p -> Packet.getBlockAddr blk (pk p) = Ok a ->
  findMatch (mshrs (w_st w)) q a s true = Ok (Some k) ->
  k ∈ A /\ exists m, mshrs (w_st w) !! k = Some m /\ inside (mblk m) (pk p) /\ forall u, findNextSenderState p = Some u -> u ∈ A.
Proof.
  intros Hw Hq [Hf Hu] Ha (Hk & m & Hm & Hma & _)%findMatch_Some. destruct (inv_mshr A w c q k Hw Hq Hk) as (HkA & _ & _). split; [done|]. exists m.
  split; [done|]. split; [|intros u Hfu; eapply inv_in; [exact Hw|by apply Hu]]. unfold mblk. rewrite Hma, (inv_size A w k m Hw HkA Hm). by apply inside_at.
Qed.

(** Every step keeps the invariant. *)
Lemma inv_step A w w' : world_inv A w -> step w w' -> exists A', world_inv A' w'.
Proof.
  intros Hw H. destruct H as [ps H|c q t pkt p a s rt o af k st' q' Hq Hp Hse Ha Hs Hun H|c q t k pkt p a s rt o af st' Hq Hp Hse Ha Hs Hf H|
    c q t k pkt p a s o b st' Hq Hp Hse Ha Hs Hf Hlk H|c q k b st' q' Hq Hk H|c q t k m ro pkt bk la ready b st' q' d Hq Hk Hm Hi Hd Hlk H|
    c q t k m b st' q' d Hq Hk Hm Hi Hd Hpf H|c q k q' Hq H|c q t k d st' q' Hq Hk H|c q k m b Hq Hk Hm|c q p r Hq H].
  - exists A. by apply inv_packets.
  - eexists. by eapply inv_allocate.
  - destruct (inv_found A w c q k p a s Hw Hq Hse Ha Hf) as (HkA & m & Hm & Hin & Hu).
    exists A. apply inv_keeps; [done|]. eapply allocateTarget_ok; [apply Hw|done..].
  - destruct (inv_found A w c q k p a s Hw Hq Hse Ha Hf) as (HkA & m & Hm & Hin & Hu).
    exists A. apply inv_keeps; [done|]. by eapply handleSnoop_ok; [apply Hw|..|exact H].
  - destruct (inv_mshr A w c q k Hw Hq Hk) as (HkA & Hkc & m & Hm). assert (Hi : inService m = false).
    { pose proof H as H0. unfold MSHRQueue.markInService, MSHROps.markInService in H0. rewrite (get_Some _ _ _ Hm) in H0. cbn [rbind] in H0. by destruct (inService m). }
    destruct (send_ok A (ids c) k b (w_st w) q m (wi_store _ _ Hw) (wi_cache _ _ Hw c q Hq) Hk Hm Hi) as (st1 & q1 & m' & E & Hs' & Hc' & C & Hm' & _ & _ & _ & _ & Hl).
    rewrite E in H. injection H as -> ->. exists A. eapply inv_cache; try done. unfold labels. rewrite Hm, Hm'. cbn. by rewrite Hl.
  - destruct (inv_mshr A w c q k Hw Hq Hk) as (HkA & Hkc & _).
    pose proof (recvTimingResp_ok A (ids c) ro pkt bk la t k (w_st w) q m (wi_store _ _ Hw) (wi_cache _ _ Hw c q Hq) Hk Hm Hi Hd Hlk) as R.
    rewrite H in R. destruct R as (A' & [R1 R2 R3 R4 R5 _ _ _ _]). exists A'. by eapply inv_cache.
  - destruct (inv_mshr A w c q k Hw Hq Hk) as (HkA & Hkc & _).
    destruct (forceDeallocateTarget_ok A (ids c) t k (w_st w) q m (wi_store _ _ Hw) (wi_cache _ _ Hw c q Hq) Hk Hm Hi Hd Hpf)
      as (b1 & st1 & q1 & d1 & A' & E & R1 & R2 & R3 & R4 & _ & R5 & _). rewrite E in H. injection H as -> -> -> ->. exists A'. by eapply inv_cache.
  - exists A. destruct (moveToFront_ok A (ids c) k (w_st w) q q' (wi_cache _ _ Hw c q Hq) H) as [Hc' Hal].
    eapply inv_queue; try done. apply keeps_refl, Hw.
  - destruct (inv_mshr A w c q k Hw Hq Hk) as (HkA & _ & _). exists A.
    destruct (delay_ok A (ids c) t k d (w_st w) q st' q' (wi_store _ _ Hw) (wi_cache _ _ Hw c q Hq) HkA H) as [K Hc'].
    eapply inv_queue; try done. by apply delay_stays in H as (_ & ? & _).
  - destruct (inv_mshr A w c q k Hw Hq Hk) as (HkA & _ & _). exists A. apply inv_keeps; [done|]. apply (keeps_flags A (w_st w) k m); try done; [apply Hw|].
    by destruct (so_mshr _ _ (wi_store _ _ Hw) k m HkA Hm) as [[] ? ? ?].
  - exists A. apply inv_keeps; [done|]. eapply functional_ok; [apply Hw|exact H].
Qed.
End World.
