(* ===== verification/MshrTheorems.v ===== *)
(** * What holds of the miss handling of a hierarchy of caches

    The properties of every state that is reached from empty registers. *)

From S2P Require Import Prelude Bits Packet CacheQueue Mshr MshrOps MshrLists MshrMarks MshrInv MshrSteps MshrService MshrResp MshrQueues MshrAlloc MshrWorld.
Import Target (FromCPU, FromSnoop, FromPrefetcher).
Import MSHR TargetList (items, with_items).
Import Queue MSHROps BaseCache.

(** The caches as they are built: registers without targets, all of them free. *)
Record start (ids : Z -> list Z) (w : world) : Prop := {
  sw_queue : forall c q, w_q w !! c = Some q -> exists base n r, Queue.new base n r = Ok q /\ ids c = seqZ base (n + r);
  sw_there : forall c q k, w_q w !! c = Some q -> k ∈ ids c -> is_Some (mshrs (w_st w) !! k);
  sw_new : forall k m, mshrs (w_st w) !! k = Some m -> exists a n b, m = MSHR.new a n b;
}.

(** The caches have different registers. *)
Definition distinct (ids : Z -> list Z) : Prop := forall c c' k, k ∈ ids c -> k ∈ ids c' -> c = c'.

Lemma no_marks st : (forall k m, mshrs st !! k = Some m -> getNumTargets m = 0%nat) -> marks st = [].
Proof.
  intros H. destruct (marks st) as [|u l] eqn:E; [done|]. exfalso. assert (Hu : u ∈ marks st) by (rewrite E; set_solver).
  apply elem_of_marks in Hu as (k & m & Hm & Hu). rewrite (marks_m_none _ _ (H k m Hm)) in Hu. by apply not_elem_of_nil in Hu.
Qed.

Lemma store_ok_start st : (forall k m, mshrs st !! k = Some m -> getNumTargets m = 0%nat) -> store_ok ∅ st.
Proof.
  intros H. pose proof (no_marks st H) as HM. split; try (by set_solver); [|rewrite HM; set_solver].
  split; rewrite ?HM; try (by set_solver); [constructor|]. intros k m x Hm Hx. destruct (no_items m (H k m Hm)) as [E1 E2]. rewrite E1, E2 in Hx. by apply not_elem_of_nil in Hx.
Qed.

Lemma start_inv blk ids w : start ids w -> world_inv blk ids ∅ w.
Proof.
  intros [Hq Ht Hn]. assert (H0 : forall k m, mshrs (w_st w) !! k = Some m -> getNumTargets m = 0%nat) by (intros k m Hm; by destruct (Hn k m Hm) as (a & n & b & ->)).
  split; try (by set_solver); [by apply store_ok_start|..].
  - intros c q Hcq. destruct (Hq c q Hcq) as (base & n & r & E & Ei). rewrite Ei. split.
    + eapply queue_ok_new; [exact E|]. intros i Hi. destruct (Ht c q i Hcq) as [m Hm]; [rewrite Ei; apply elem_of_seqZ; lia|]. exists m. split; [done|by apply (H0 i)].
    + intros k _. unfold Queue.new in E. destruct (_ <? 0); [done|]. injection E as <-. cbn. set_solver.
  - intros c q k k' a s n n' Hcq Hk. destruct (Hq c q Hcq) as (base & n0 & r & E & Ei). unfold Queue.new in E. destruct (_ <? 0); [done|]. injection E as <-. cbn in Hk. by apply not_elem_of_nil in Hk.
Qed.

Lemma reach_inv blk ids uninit w0 w : 0 < blk < 2 ^ 32 -> distinct ids -> start ids w0 -> rtc (step blk uninit) w0 w -> exists A, world_inv blk ids A w.
Proof.
  intros Hb Hd Hs H. pose proof (start_inv blk ids w0 Hs) as Hi. clear Hs. revert Hi. generalize (∅ : gset Z). induction H as [w|w w1 w2 H1 _ IH]; intros A Hi; [by exists A|].
  destruct (inv_step blk ids uninit Hb Hd A w w1 Hi H1) as (A' & Hi'). by eapply IH.
Qed.

(** ** The order of the requests *)
Lemma add_requests curTick k d pkt rt o s mp a st st' m : MSHROps.add curTick k d pkt rt o s mp a st = Ok st' -> mshrs st !! k = Some m ->
  (d = false -> items (deferredTargets m) = []) -> requests st' k = requests st k ++ [(pkt, o)].
Proof.
  intros H Hm Hd. apply add_inv in H as (p & m' & l & _ & Hm' & _ & _ & ->). rewrite Hm in Hm'. injection Hm' as <-.
  set (m1 := if decide _ then _ else _). rewrite (requests_at _ _ _ Hm). unfold requests. cbn. rewrite lookup_insert_eq.
  assert (E : items (targets m1) = items (targets m) /\ items (deferredTargets m1) = items (deferredTargets m)) by (unfold m1; by destruct (decide _)).
  destruct E as [E1 E2]. unfold all_targets, with_target. destruct d; cbn; rewrite E1, E2, ?reqs_app.
  - by rewrite app_assoc.
  - rewrite (Hd eq_refl). cbn. by rewrite !app_nil_r.
Qed.

(** A new target comes after all the requests that the register has. *)
Lemma allocateTarget_requests uninit curTick k pkt rt o a st st' m : allocateTarget uninit curTick k pkt rt o a st = Ok st' -> mshrs st !! k = Some m ->
  requests st' k = requests st k ++ [(pkt, o)].
Proof.
  intros H Hm. unfold allocateTarget in H. apply bind_Ok_inv in H as (p & _ & H). apply bind_Ok_inv in H as ([] & _ & H).
  apply bind_Ok_inv in H as (m' & Hm' & H). apply mshr_get_Ok in Hm'. rewrite Hm in Hm'. injection Hm' as <-.
  apply bind_Ok_inv in H as (f & _ & H). apply bind_Ok_inv in H as (tp & _ & H). apply bind_Ok_inv in H as (d & Hd & H). destruct d.
  - apply bind_Ok_inv in H as (inv & _ & H). apply bind_Ok_inv in H as (st1 & H1 & H).
    assert (E : mshrs st1 = mshrs st) by (destruct inv; [apply bind_Ok_inv in H1 as (? & _ & H1); injection H1 as <-; apply put_pkt_mshrs|by injection H1 as <-]).
    rewrite (add_requests _ _ _ _ _ _ _ _ _ _ _ m H); [unfold requests; by rewrite E|by rewrite E|done].
  - eapply add_requests; [exact H|done|]. intros _. unfold must_defer in Hd. destruct (_ || _) eqn:Eo in Hd; [done|].
    apply orb_false_iff in Eo as [_ Eo]. apply negb_false_iff in Eo. unfold TargetList.empty in Eo. by destruct (items (deferredTargets m)).
Qed.

(** An address is the address of its block and the offset in it. *)
Lemma base_offset n a : 0 <= a < 2 ^ 64 -> base n a + Z.land a (uw 32 (n - 1)) = a.
Proof.
  intros Ha. unfold base, unot, uw at 1. rewrite <- Z.land_ones by done. rewrite (Z.land_comm (Z.lnot _)), Z.land_assoc, Z.land_ones, Z.mod_small by done.
  set (x := uw 32 (n - 1)). rewrite <- Z.ldiff_land. rewrite <- (Z.lor_ldiff_and a x) at 3. rewrite <- (Z.add_lor_land (Z.ldiff a x)).
  enough (Z.land (Z.ldiff a x) (Z.land a x) = 0) as -> by lia. apply Z.bits_inj'. intros i Hi. rewrite Z.bits_0, !Z.land_spec, Z.ldiff_spec.
  by destruct (Z.testbit a i), (Z.testbit x i).
Qed.

Section Reach.
Context (blk : Z) (ids : Z -> list Z) (uninit : Z -> list Z) (w0 w : world).
Context (Hblk : 0 < blk < 2 ^ 32) (Hids : distinct ids) (Hstart : start ids w0) (Hreach : rtc (step blk uninit) w0 w).
Context (c : Z) (q : Queue.t) (Hq : w_q w !! c = Some q).

(** C3: In every state that is reached, the queue of a cache is consistent: its
    registers are split into the free and the allocated ones, the ready list holds
    those allocated ones that have not been sent, and the counters count them. An
    allocated register has a first target, which is a request and not a snoop, and all
    its packets exist, lie in the block of the register and have its address; two allocated registers that are cacheable
    are for different blocks. *)
Theorem mshr_queue_reachable : queue_ok (ids c) (mshrs (w_st w)) q /\
  (forall k, k ∈ allocatedList q -> exists m, mshrs (w_st w) !! k = Some m /\ blkSize m = blk /\
     (exists x l, items (targets m) = x :: l /\ Target.source x <> FromSnoop) /\
     (forall x, x ∈ all_targets m -> exists p, pkt_of (packets (w_st w)) x = Some p /\ inside (blkAddr m, blk) p)) /\
  (forall k k' m m', k ∈ allocatedList q -> k' ∈ allocatedList q -> mshrs (w_st w) !! k = Some m -> mshrs (w_st w) !! k' = Some m' ->
     _isUncacheable m = false -> _isUncacheable m' = false -> blkAddr m = blkAddr m' -> isSecure m = isSecure m' -> k = k').
Proof.
  destruct (reach_inv blk ids uninit w0 w Hblk Hids Hstart Hreach) as (A & Hi). split; [apply (wi_cache _ _ _ _ Hi c q Hq)|]. split.
  - intros k Hk. destruct (inv_mshr blk ids A w c q k Hi Hq Hk) as (HkA & _ & m & Hm). exists m. split; [done|].
    pose proof (inv_size blk ids A w k m Hi HkA Hm) as Hs. destruct (so_mshr _ _ (wi_store _ _ _ _ Hi) k m HkA Hm) as [Hc (x & l & E & Hx & _) _ _].
    split; [done|]. split; [by exists x, l|]. rewrite <- Hs. intros y [Hy|Hy]%elem_of_app.
    + destruct (lo_fits _ _ (mo_targets _ _ Hc) y Hy) as (p & Hp & Hf). exists p. by rewrite (mo_size _ _ Hc) in Hf.
    + destruct (lo_fits _ _ (mo_deferred _ _ Hc) y Hy) as (p & Hp & Hf). exists p. by rewrite (mo_dsize _ _ Hc) in Hf.
  - intros k k' m m' Hk Hk' Hm Hm' Hu Hu' Ha Hs. apply (wi_unique _ _ _ _ Hi c q k k' (blkAddr m) (isSecure m) (blkSize m) (blkSize m')); [done..| |];
      unfold labels; rewrite ?Hm, ?Hm'; cbn; unfold label; congruence.
Qed.

Context (k : Z) (m : MSHR.t) (Hk : k ∈ allocatedList q) (Hm : mshrs (w_st w) !! k = Some m).

(** C13: When a register says that its targets write the whole block, so that the
    block need not be fetched, every byte of the block at its address is written by the
    unmasked write of one of its processor requests. *)
Theorem whole_line_write_sound : isWholeLineWrite m = true -> forall b, 0 <= b < blk ->
  exists x p, x ∈ items (targets m) /\ Target.source x = FromCPU /\ pkt_of (packets (w_st w)) x = Some p /\
    MemCmd.isWrite (Packet.cmd p) = true /\ Packet.isMaskedWrite p = false /\
    Packet.getBlockAddr blk p = Ok (blkAddr m) /\ Packet.addr p <= blkAddr m + b < Packet.addr p + Packet.size p.
Proof.
  intros Hw b Hb. destruct (reach_inv blk ids uninit w0 w Hblk Hids Hstart Hreach) as (A & Hi).
  destruct (inv_mshr blk ids A w c q k Hi Hq Hk) as (HkA & _ & _). pose proof (inv_size blk ids A w k m Hi HkA Hm) as Hs.
  destruct (so_mshr _ _ (wi_store _ _ _ _ Hi) k m HkA Hm) as [Hc _ _ _]. destruct (mo_targets _ _ Hc) as [Hfit _ Hbl Hwr].
  pose proof (mo_size _ _ Hc) as Hl. injection Hl as Hla Hln. rewrite Hln, Hs in *.
  destruct (lookup_lt_is_Some_2 (TargetList.writesBitmap (targets m)) (Z.to_nat b)) as [v Hv]; [lia|].
  assert (v = true). { unfold isWholeLineWrite, TargetList.isWholeLineWrite in Hw. rewrite forallb_forall in Hw. apply (Hw v). apply list_elem_of_In. by eapply list_elem_of_lookup_2. }
  subst v. destruct (Hwr _ Hv) as (x & p & Hx & Hp & Hsx & W1 & W2 & W3). rewrite Z2Nat.id in W3 by lia. exists x, p.
  destruct (Hfit x Hx) as (p' & Hp' & Hin). rewrite Hp in Hp'. injection Hp' as <-. rewrite (mo_size _ _ Hc) in Hin. unfold mblk in Hin. rewrite Hs in Hin.
  pose proof (inside_getBlockAddr _ _ Hin) as Hga. destruct Hin as ((_ & _ & _ & Hr & _) & Hb' & _). pose proof (base_offset blk _ Hr) as Ho. cbn in Hb'.
  split_and!; try done; lia.
Qed.

(** Sending the request of a waiting register never fails, however many caches
    above wait for it: the marks are cleared, the register leaves the ready list and
    keeps its targets, and it remembers whether they write the whole block. *)
Theorem send_never_fails b : inService m = false -> exists st' q' m', MSHRQueue.markInService k b (w_st w) q = Ok (st', q') /\
  queue_ok (ids c) (mshrs st') q' /\ (k ∉ readyList q') /\ mshrs st' !! k = Some m' /\ inService m' = true /\
  wasWholeLineWrite m' = isWholeLineWrite m /\ requests st' k = requests (w_st w) k /\
  (downstreamPending m' = false -> unmarked (items (targets m'))).
Proof.
  intros Hi. destruct (reach_inv blk ids uninit w0 w Hblk Hids Hstart Hreach) as (A & Hinv).
  destruct (send_ok A (ids c) k b (w_st w) q m (wi_store _ _ _ _ Hinv) (wi_cache _ _ _ _ Hinv c q Hq) Hk Hm Hi)
    as (st' & q' & m' & E & Hs' & [Hq' Hu'] & C & Hm' & Hi' & Hw & Hl1 & Hl2 & Hlab).
  exists st', q', m'. split; [done|]. split; [done|]. split; [|split; [done|]; split; [done|]; split; [done|]; split].
  - rewrite (ok_in_ready _ _ _ _ Hq'). intros [_ Hse]. rewrite (serving_at _ _ _ Hm') in Hse. congruence.
  - rewrite (requests_at _ _ _ Hm'), (requests_at _ _ _ Hm). by apply lowered_reqs, lowered_app.
  - intros Hd. assert (k ∈ A) by (by apply (inv_mshr blk ids A w c q k Hinv Hq Hk)). by apply (mo_settled _ _ (so_mshr _ _ Hs' k m' ltac:(done) Hm')).
Qed.


(** C12: Requests are served in the order in which they came: a new target comes after
    all requests of its register, and a response serves the first of them, at least
    those that were sent, and leaves the rest in order. This is for responses other than
    ReadRespWithInvalidate and LockedRMWWriteResp and for registers without locked reads,
    which serve some requests later than others that came after them. *)
Theorem requests_in_order :
  (forall uninit curTick pkt rt o a st', allocateTarget uninit curTick k pkt rt o a (w_st w) = Ok st' ->
     requests st' k = requests (w_st w) k ++ [(pkt, o)]) /\
  (forall read_only pkt bk line_allocate curTick ready b st' q' d, inService m = true -> downstreamPending m = false ->
     Packet.cmd pkt <> MemCmd.ReadRespWithInvalidate -> Packet.cmd pkt <> MemCmd.LockedRMWWriteResp ->
     Forall (fun x => ~ locked (packets (w_st w)) x) (all_targets m) ->
     recvTimingResp read_only pkt bk line_allocate curTick k (w_st w) q = Ok (ready, b, st', q', d) ->
     reqs (items ready) ++ requests st' k = requests (w_st w) k /\ reqs (items (targets m)) `prefix_of` reqs (items ready)).
Proof.
  split; [intros uni t pkt rt o a st' H; by eapply allocateTarget_requests|].
  intros ro pkt bk la t ready b st' q' d Hi Hd Hc1 Hc2 Hn H. destruct (reach_inv blk ids uninit w0 w Hblk Hids Hstart Hreach) as (A & Hinv).
  pose proof (recvTimingResp_ok A (ids c) ro pkt bk la t k (w_st w) q m (wi_store _ _ _ _ Hinv) (wi_cache _ _ _ _ Hinv c q Hq) Hk Hm Hi Hd ltac:(done)) as R.
  rewrite H in R. destruct R as (A' & R). by apply (rs_order _ _ _ _ _ _ _ _ _ _ _ R).
Qed.
End Reach.

(** ** Termination and the defects *)

(** C21: Clearing the marks of the caches above always ends, for any registers and
    packets, even when they form cycles: it never runs out of fuel, and every time it
    succeeds fewer registers are marked. *)
Theorem clear_marks_ends k st : clearDownstreamPending k st <> Err OutOfFuel /\
  forall st', clearDownstreamPending k st = Ok st' -> (count_down st' < count_down st)%nat.
Proof.
  pose proof (clearDownstreamPending_ends k st) as H. split; [intros E; by rewrite E in H|]. intros st' E. unfold clearDownstreamPending in E. cbn in E.
  apply bind_Ok_inv in E as (m & Hm & E). apply mshr_get_Ok in Hm. apply bind_Ok_inv in E as ([] & Hd & E). apply check_Ok in Hd.
  pose proof (count_down_clear st k m Hm Hd) as Hc. pose proof (count_down_size st) as Hz.
  pose proof (clear_range_ends (size (mshrs st)) (clear_fuel (size (mshrs st))) k false (all_of false m) (put st k (set_pending false m))) as Hr.
  rewrite E in Hr. cbn in Hr. enough (count_down st' <= count_down (put st k (set_pending false m)))%nat by lia.
  apply Hr; [|lia]. intros u st1. apply clear_fuel_ends.
Qed.

(** C38: [delay] makes an entry ready later but leaves it where it is in the ready
    list: the search for its new place starts at the entry itself, which is found. An
    entry at the head that is delayed so holds back all entries of the queue until its
    new time, also those that are ready. *)
Theorem delay_does_not_move curTick k ticks st q st' q' : MSHRQueue.delay curTick k ticks st q = Ok (st', q') ->
  readyList q' = readyList q /\ time (mshrs st') k = u64 (curTick + ticks) /\
  (head (readyList q) = Some k -> forall t, t < u64 (curTick + ticks) -> Queue.getNext t (mshrs st') q' = Ok None).
Proof.
  intros H. apply delay_stays in H as (E & _ & m & _ & _ & -> & _).
  assert (Hk : mshrs (put st k (set_times (u64 (curTick + ticks)) (order m) m)) !! k = Some (set_times (u64 (curTick + ticks)) (order m) m)) by apply lookup_insert_eq.
  split; [done|]. split; [unfold time; by rewrite Hk|]. intros Hh t Ht. unfold Queue.getNext. rewrite E. destruct (readyList q) as [|i l]; [done|].
  injection Hh as ->. rewrite (deref_Some _ _ _ Hk). cbn. by rewrite (proj2 (Z.ltb_lt _ _) Ht).
Qed.
