(* ===== verification/MshrExamples.v ===== *)
(** * Two caches at work

    Runs of two caches from the start, on which the properties of MshrTheorems are
    instantiated, and the runs that show the defects. *)

From S2P Require Import Prelude Bits Packet CacheQueue Mshr MshrOps MshrLists MshrMarks MshrInv MshrSteps MshrService MshrResp MshrQueues MshrAlloc MshrWorld MshrTheorems.
Import Target (FromCPU, FromSnoop, FromPrefetcher).
Import MSHR TargetList (items, with_items).
Import Queue MSHROps BaseCache.

(** ** Runs that can be computed *)
Definition req_fitsb (n : Z) (r : Request.t) : bool := negb (Request.isHTMCmd r) &&
  match Request._paddr r, Request._size r with
  | Some a, Some s => (0 <=? a) && (a <? 2 ^ 64) && (0 <=? s) && (Z.land a (uw 32 (n - 1)) + s <=? n)
  | _, _ => false
  end.
Definition fitsb (n : Z) (p : Packet.t) : bool :=
  MemCmd.isRequest (Packet.cmd p) && Packet.isSet Packet.VALID_ADDR p && Packet.isSet Packet.VALID_SIZE p &&
  (0 <=? Packet.addr p) && (Packet.addr p <? 2 ^ 64) && (0 <=? Packet.size p) &&
  (Z.land (Packet.addr p) (uw 32 (n - 1)) + Packet.size p <=? n) && req_fitsb n (Packet.req p).

Lemma fitsb_fits n p : fitsb n p = true -> fits n p.
Proof.
  unfold fitsb, req_fitsb. rewrite !andb_true_iff, negb_true_iff, !Z.leb_le, !Z.ltb_lt. intros H. destruct H as (((((((? & ?) & ?) & ?) & ?) & ?) & ?) & Hh & H).
  destruct (Request._paddr (Packet.req p)) as [a|] eqn:Ea; [|done]. destruct (Request._size (Packet.req p)) as [s|] eqn:Es; [|done].
  rewrite !andb_true_iff, !Z.leb_le, !Z.ltb_lt in H. unfold fits, req_fits. split_and!; try done. exists a, s. split_and!; try done; apply H.
Qed.

(** The packet and its request lie in the same block. *)
Definition insideb (n : Z) (p : Packet.t) : bool := fitsb n p &&
  match Request._paddr (Packet.req p) with Some a => base n a =? base n (Packet.addr p) | None => false end.

Lemma insideb_inside n p : insideb n p = true -> inside (base n (Packet.addr p), n) p.
Proof.
  intros [Hf H]%andb_prop. split_and!; [by apply fitsb_fits|done|]. intros a Ha. rewrite Ha in H. by apply Z.eqb_eq in H.
Qed.

Definition in_useb (w : world) (k : Z) : bool := existsb (fun cq => bool_decide (k ∈ allocatedList cq.2)) (map_to_list (w_q w)).

Lemma in_useb_in_use w k : in_useb w k = true -> in_use w k.
Proof.
  unfold in_useb. rewrite existsb_exists. intros ([c q] & Hin & Hk). apply bool_decide_eq_true in Hk. exists c, q. split; [|done].
  apply elem_of_map_to_list. by apply list_elem_of_In.
Qed.

Inductive op :=
| OAllocate (c curTick pkt when_ready order : Z)
| OTarget (c curTick pkt when_ready order : Z)
| OSend (c k : Z)
| ORespond (c curTick k : Z) (pkt : Packet.t) (bk : blocks).

Section Run.
Context (blk : Z).

(** The queue of a cache that has allocated [k]. *)
Definition queue_of (w : world) (c k : Z) : result Queue.t :=
  match w_q w !! c with Some q => if bool_decide (k ∈ allocatedList q) then Ok q else Err Undefined | None => Err Undefined end.
Definition packet_of (w : world) (i : Z) : result pobj :=
  let! p := get_pkt (w_st w) i in
  guard! insideb blk (pk p) && match findNextSenderState p with Some u => in_useb w u | None => true end; Ok p.

Definition perform (o : op) (w : world) : result world :=
  match o with
  | OAllocate c t i rt ord =>
      let! q := match w_q w !! c with Some q => Ok q | None => Err Undefined end in
      let! p := packet_of w i in
      let! a := Packet.getBlockAddr blk (pk p) in
      let! s := Packet.isSecure (pk p) in
      let! f := findMatch (mshrs (w_st w)) q a s true in
      guard! bool_decide (f = None);
      let! r := MSHRQueue.allocate t a blk i rt ord true (w_st w) q in
      Ok (with_cache c r.1.2 r.2 w)
  | OTarget c t i rt ord =>
      let! q := match w_q w !! c with Some q => Ok q | None => Err Undefined end in
      let! p := packet_of w i in
      let! a := Packet.getBlockAddr blk (pk p) in
      let! s := Packet.isSecure (pk p) in
      let! f := findMatch (mshrs (w_st w)) q a s true in
      let! k := match f with Some k => Ok k | None => Err Undefined end in
      let! st := allocateTarget (fun n => replicate (Z.to_nat n) 0) t k i rt ord true (w_st w) in
      Ok (mkW st (w_q w))
  | OSend c k =>
      let! q := queue_of w c k in
      let! r := MSHRQueue.markInService k false (w_st w) q in
      Ok (with_cache c r.1 r.2 w)
  | ORespond c t k pkt bk =>
      let! q := queue_of w c k in
      let! m := get (w_st w) k in
      guard! inService m && negb (downstreamPending m) && negb (bool_decide (Packet.cmd pkt = MemCmd.LockedRMWWriteResp));
      let! r := recvTimingResp false pkt bk None t k (w_st w) q in
      Ok (with_cache c r.1.1.2 r.1.2 w)
  end.

Lemma queue_of_Ok w c k q : queue_of w c k = Ok q -> w_q w !! c = Some q /\ k ∈ allocatedList q.
Proof. unfold queue_of. destruct (w_q w !! c) as [q'|]; [|done]. case_bool_decide; [|done]. by intros [= <-]. Qed.

Lemma packet_of_Ok w i p : packet_of w i = Ok p -> packets (w_st w) !! i = Some p /\ sendable blk w p.
Proof.
  unfold packet_of. intros H. apply bind_Ok_inv in H as (p' & Hp & H). apply get_pkt_Ok in Hp. apply bind_Ok_inv in H as ([] & Hg & H). injection H as ->.
  apply check_Ok, andb_prop in Hg as [Hf Hu]. split; [done|]. split; [eexists; by apply insideb_inside|]. intros u Hfu. rewrite Hfu in Hu. by apply in_useb_in_use.
Qed.

Lemma perform_step o w w' : perform o w = Ok w' -> step blk (fun n => replicate (Z.to_nat n) 0) w w'.
Proof.
  destruct o as [c t i rt ord|c t i rt ord|c k|c t k pkt bk]; intros H; cbn in H.
  - apply bind_Ok_inv in H as (q & Hq & H). destruct (w_q w !! c) as [q'|] eqn:Ec; [injection Hq as ->|done].
    apply bind_Ok_inv in H as (p & Hp & H). apply packet_of_Ok in Hp as [Hp Hse]. apply bind_Ok_inv in H as (a & Ha & H). apply bind_Ok_inv in H as (s & Hs & H).
    apply bind_Ok_inv in H as (f & Hf & H). apply bind_Ok_inv in H as ([] & Hg & H). apply check_Ok, bool_decide_eq_true in Hg. subst f.
    apply bind_Ok_inv in H as ([[k st'] q'] & Hr & H). injection H as <-. eapply step_allocate; try done. by right.
  - apply bind_Ok_inv in H as (q & Hq & H). destruct (w_q w !! c) as [q'|] eqn:Ec; [injection Hq as ->|done].
    apply bind_Ok_inv in H as (p & Hp & H). apply packet_of_Ok in Hp as [Hp Hse]. apply bind_Ok_inv in H as (a & Ha & H). apply bind_Ok_inv in H as (s & Hs & H).
    apply bind_Ok_inv in H as (f & Hf & H). apply bind_Ok_inv in H as (k & Hk & H). destruct f as [k'|]; [injection Hk as ->|done]. apply bind_Ok_inv in H as (st' & Hr & H). injection H as <-. by eapply step_target.
  - apply bind_Ok_inv in H as (q & Hq & H). apply queue_of_Ok in Hq as [Hq Hk]. apply bind_Ok_inv in H as ([st' q'] & Hr & H). injection H as <-. by eapply step_send.
  - apply bind_Ok_inv in H as (q & Hq & H). apply queue_of_Ok in Hq as [Hq Hk]. apply bind_Ok_inv in H as (m & Hm & H). apply mshr_get_Ok in Hm.
    apply bind_Ok_inv in H as ([] & Hg & H). apply check_Ok in Hg. rewrite !andb_true_iff, !negb_true_iff, bool_decide_eq_false in Hg. destruct Hg as [[Hi Hd] Hc].
    apply bind_Ok_inv in H as ([[[[ready b] st'] q'] d] & Hr & H). injection H as <-. by eapply step_respond.
Qed.

Fixpoint run (l : list op) (w : world) : result world :=
  match l with [] => Ok w | o :: l => let! w := perform o w in run l w end.

Lemma run_reach l w w' : run l w = Ok w' -> rtc (step blk (fun n => replicate (Z.to_nat n) 0)) w w'.
Proof.
  revert w. induction l as [|o l IH]; intros w H; cbn in H; [by injection H as <-|]. apply bind_Ok_inv in H as (w1 & H1 & H).
  eapply rtc_l; [by eapply perform_step|by apply IH].
Qed.
End Run.

(** ** Two caches *)

(** A packet for [n] bytes at [a]; [senders] is its chain of sender states. *)
Definition packet (c : MemCmd.Command) (fl a n : Z) (senders : list (option Z)) : pobj :=
  mkP (Packet.mk c (Request.mk fl [] (Some a) (Some n)) a false n (Z.lor Packet.VALID_ADDR Packet.VALID_SIZE) [] []) senders.

Definition demo_packets : gmap Z pobj := list_to_map [
  (10, packet MemCmd.WriteReq 0 4096 64 []);
  (11, packet MemCmd.ReadExReq 0 4096 64 [Some 1]);
  (12, packet MemCmd.CleanSharedReq Request.CLEAN 4096 64 []);
  (13, packet MemCmd.WriteReq 0 4104 8 []);
  (14, packet MemCmd.ReadReq 0 4112 8 []);
  (15, packet MemCmd.ReadReq 0 8192 8 [])].

(** A response for the block at 4096, and tags that bring the block in writable. *)
Definition response (c : MemCmd.Command) : Packet.t := pk (packet c 0 4096 64 []).
Definition demo_blocks : blocks := mkBlocks None (fun _ _ => Ok (Some (mkBlk true true true false))) (fun p b _ => Ok (p, b)) (fun _ b _ => Ok b) (fun _ b => b).

(** The caches 1 and 2 have two registers each. *)
Definition demo_ids (c : Z) : list Z := if c =? 1 then seqZ 1 2 else if c =? 2 then seqZ 3 2 else [].
Definition demo_queue (base : Z) : Queue.t := Queue.mk 2 0 [] [] (seqZ base 2) 0 0 Running.
Definition demo0 : world := mkW
  (mkStore demo_packets (list_to_map (map (fun k => (k, MSHR.new 0 0 false)) [1; 2; 3; 4])))
  (list_to_map [(1, demo_queue 1); (2, demo_queue 3)]).

Lemma demo_start : start demo_ids demo0.
Proof.
  split.
  - intros c q H. apply (elem_of_list_to_map_2 [(1, demo_queue 1); (2, demo_queue 3)]) in H. rewrite !elem_of_cons, elem_of_nil in H.
    destruct H as [[= -> ->]|[[= -> ->]|[]]]; [by exists 1, 2, 0|by exists 3, 2, 0].
  - intros c q k _ Hk. unfold demo_ids in Hk. destruct (c =? 1); [|destruct (c =? 2); [|by apply not_elem_of_nil in Hk]];
      apply elem_of_seqZ in Hk; assert (Hc : k = 1 \/ k = 2 \/ k = 3 \/ k = 4) by lia; destruct Hc as [->|[->|[->| ->]]]; by eexists.
  - intros k m H. apply (elem_of_list_to_map_2 (map (fun k => (k, MSHR.new 0 0 false)) [1; 2; 3; 4])) in H. cbn [map] in H.
    rewrite !elem_of_cons, elem_of_nil in H. exists 0, 0, false. naive_solver.
Qed.

Lemma demo_distinct : distinct demo_ids.
Proof.
  intros c c' k. unfold demo_ids. destruct (Z.eqb_spec c 1), (Z.eqb_spec c 2), (Z.eqb_spec c' 1), (Z.eqb_spec c' 2); subst; try done;
    rewrite ?elem_of_seqZ, ?elem_of_nil; try lia; try done.
Qed.

(** A store that writes a whole block misses in both caches. *)
Definition demo_ops : list op := [
  OAllocate 1 0 10 100 1;
  OAllocate 2 200 11 300 1;
  OSend 1 1;
  OTarget 1 350 14 400 2;
  OSend 2 3].
Definition demo : world := match run 64 demo_ops demo0 with Ok w => w | Err _ => demo0 end.
Definition demo_waiting : world := match run 64 (take 2 demo_ops) demo0 with Ok w => w | Err _ => demo0 end.

Lemma demo_run : run 64 demo_ops demo0 = Ok demo /\ run 64 (take 2 demo_ops) demo0 = Ok demo_waiting.
Proof. by vm_compute. Qed.

Definition uninit0 (n : Z) : list Z := replicate (Z.to_nat n) 0.
Definition demo_q (w : world) (c : Z) : Queue.t := default (demo_queue 0) (w_q w !! c).
Definition demo_m (w : world) (k : Z) : MSHR.t := default (MSHR.new 0 0 false) (mshrs (w_st w) !! k).

Lemma demo_blk : 0 < 64 < 2 ^ 32.
Proof. done. Qed.
Lemma demo_last : 0 <= 63 < 64.
Proof. done. Qed.
Lemma demo_reach : rtc (step 64 uninit0) demo0 demo.
Proof. eapply run_reach. apply demo_run. Qed.
Lemma demo_waiting_reach : rtc (step 64 uninit0) demo0 demo_waiting.
Proof. eapply run_reach. apply demo_run. Qed.
Lemma demo_at : w_q demo !! 1 = Some (demo_q demo 1) /\ mshrs (w_st demo) !! 1 = Some (demo_m demo 1) /\ 1 ∈ allocatedList (demo_q demo 1).
Proof. split_and!; [by vm_compute..|]. by apply (bool_decide_unpack (1 ∈ allocatedList (demo_q demo 1))); vm_compute. Qed.
Lemma demo_waiting_at : w_q demo_waiting !! 1 = Some (demo_q demo_waiting 1) /\ mshrs (w_st demo_waiting) !! 1 = Some (demo_m demo_waiting 1) /\
  1 ∈ allocatedList (demo_q demo_waiting 1).
Proof. split_and!; [by vm_compute..|]. by apply (bool_decide_unpack (1 ∈ allocatedList (demo_q demo_waiting 1))); vm_compute. Qed.

Lemma mshr_queue_reachable_witness : allocatedList (demo_q demo 1) = [1] /\ queue_ok (demo_ids 1) (mshrs (w_st demo)) (demo_q demo 1).
Proof.
  split; [by vm_compute|].
  apply (mshr_queue_reachable 64 demo_ids uninit0 demo0 demo demo_blk demo_distinct demo_start demo_reach 1 (demo_q demo 1) (proj1 demo_at)).
Defined.

(** The register of the first cache has a whole-line store, and its request waits in
    the second cache. *)
Lemma demo_waiting_state : isWholeLineWrite (demo_m demo_waiting 1) = true /\ inService (demo_m demo_waiting 1) = false /\
  downstreamPending (demo_m demo_waiting 1) = true.
Proof. by vm_compute. Qed.

Lemma demo_state : inService (demo_m demo 1) = true /\ downstreamPending (demo_m demo 1) = false /\ getNumTargets (demo_m demo 1) = 2%nat /\
  TargetList.needsWritable (deferredTargets (demo_m demo 1)) = false /\ requests (w_st demo) 1 = [(10, 1); (14, 2)] /\
  forallb (fun x => bool_decide (~ locked (packets (w_st demo)) x)) (all_targets (demo_m demo 1)) = true.
Proof. by vm_compute. Qed.

Lemma whole_line_write_sound_witness : isWholeLineWrite (demo_m demo_waiting 1) = true /\
  exists x p, x ∈ items (targets (demo_m demo_waiting 1)) /\ pkt_of (packets (w_st demo_waiting)) x = Some p /\ MemCmd.isWrite (Packet.cmd p) = true /\
    Packet.addr p <= blkAddr (demo_m demo_waiting 1) + 63 < Packet.addr p + Packet.size p.
Proof.
  destruct demo_waiting_at as (Hq & Hm & Hk), demo_waiting_state as (Hw & _). split; [exact Hw|].
  destruct (whole_line_write_sound 64 demo_ids uninit0 demo0 demo_waiting demo_blk demo_distinct demo_start demo_waiting_reach 1 _ Hq 1 _ Hk Hm
    Hw 63 demo_last) as (x & p & Hx & _ & Hp & Hwr & _ & _ & Hb). exists x, p. exact (conj Hx (conj Hp (conj Hwr Hb))).
Defined.

Lemma send_never_fails_witness : downstreamPending (demo_m demo_waiting 1) = true /\
  exists st' q', MSHRQueue.markInService 1 false (w_st demo_waiting) (demo_q demo_waiting 1) = Ok (st', q').
Proof.
  destruct demo_waiting_at as (Hq & Hm & Hk), demo_waiting_state as (_ & Hi & Hd). split; [exact Hd|].
  destruct (send_never_fails 64 demo_ids uninit0 demo0 demo_waiting demo_blk demo_distinct demo_start demo_waiting_reach 1 _ Hq 1 _ Hk Hm false Hi)
    as (st' & q' & m' & E & _). exists st', q'. exact E.
Defined.

(** The whole-line store is answered by an invalidation, and the load behind it is
    served as well. *)
Lemma demo_response : exists ready b st' q' d,
  recvTimingResp false (response MemCmd.InvalidateResp) demo_blocks None 500 1 (w_st demo) (demo_q demo 1) = Ok (ready, b, st', q', d) /\
  reqs (items ready) = [(10, 1); (14, 2)] /\ allocatedList q' = [].
Proof. do 5 eexists. split_and!; vm_compute; reflexivity. Qed.


Lemma requests_in_order_witness : requests (w_st demo) 1 = [(10, 1); (14, 2)] /\
  exists ready b st' q' d, recvTimingResp false (response MemCmd.InvalidateResp) demo_blocks None 500 1 (w_st demo) (demo_q demo 1) = Ok (ready, b, st', q', d) /\
    reqs (items ready) ++ requests st' 1 = requests (w_st demo) 1.
Proof.
  destruct demo_at as (Hq & Hm & Hk), demo_state as (Hi & Hd & _ & _ & Hr & Hl). split; [exact Hr|].
  destruct demo_response as (ready & b & st' & q' & d & E & _). exists ready, b, st', q', d. split; [exact E|].
  apply (proj2 (requests_in_order 64 demo_ids uninit0 demo0 demo demo_blk demo_distinct demo_start demo_reach 1 _ Hq 1 _ Hk Hm)) in E; [exact (proj1 E)|exact Hi|exact Hd|discriminate|discriminate|].
  rewrite forallb_forall in Hl. apply Forall_forall. intros x Hx. apply (bool_decide_unpack (~ locked (packets (w_st demo)) x)), Is_true_true, Hl.
  by apply list_elem_of_In.
Defined.

(** ** The defects *)

(** A store is sent; a clean of the block and another store come and are deferred. *)
Definition clean_ops : list op := [
  OAllocate 1 0 10 100 1;
  OSend 1 1;
  OTarget 1 150 12 200 2;
  OTarget 1 160 13 210 3].
Definition clean_world : world := match run 64 clean_ops demo0 with Ok w => w | Err _ => demo0 end.

Lemma clean_state : run 64 clean_ops demo0 = Ok clean_world /\ w_q clean_world !! 1 = Some (demo_q clean_world 1) /\
  mshrs (w_st clean_world) !! 1 = Some (demo_m clean_world 1) /\ bool_decide (1 ∈ allocatedList (demo_q clean_world 1)) = true /\
  inService (demo_m clean_world 1) = true /\ downstreamPending (demo_m clean_world 1) = false /\
  requests (w_st clean_world) 1 = [(10, 1); (12, 2); (13, 3)] /\
  promoteWritable 1 (w_st clean_world) = Err AssertFail /\
  recvTimingResp false (response MemCmd.InvalidateResp) demo_blocks None 500 1 (w_st clean_world) (demo_q clean_world 1) = Err AssertFail.
Proof. split_and!; vm_compute; reflexivity. Qed.

(** C37: The assertion of [promoteWritable] can fail: while a store is being served, a
    clean of the block and a second store come to the same register. The block is then
    brought in writable for the first store, and the response cannot be handled. *)
Theorem promoteWritable_assertion : exists w k q m, rtc (step 64 uninit0) demo0 w /\ w_q w !! 1 = Some q /\ k ∈ allocatedList q /\
  mshrs (w_st w) !! k = Some m /\ inService m = true /\ downstreamPending m = false /\ requests (w_st w) k = [(10, 1); (12, 2); (13, 3)] /\
  promoteWritable k (w_st w) = Err AssertFail /\
  recvTimingResp false (response MemCmd.InvalidateResp) demo_blocks None 500 k (w_st w) q = Err AssertFail.
Proof.
  destruct clean_state as (E & Hq & Hm & Hk & Hi & Hd & Hr & Ha). apply run_reach in E. apply bool_decide_eq_true in Hk.
  exists clean_world, 1, (demo_q clean_world 1), (demo_m clean_world 1).
  exact (conj E (conj Hq (conj Hk (conj Hm (conj Hi (conj Hd (conj Hr Ha))))))).
Qed.

(** Two registers wait; the first one is delayed, and then the second one is not sent
    although it is ready. *)
Definition delay_world : world := match run 64 [OAllocate 1 0 10 100 1; OAllocate 1 0 15 110 2] demo0 with Ok w => w | Err _ => demo0 end.

Lemma delay_runs : exists r, MSHRQueue.delay 200 1 1000 (w_st delay_world) (demo_q delay_world 1) = Ok r.
Proof. eexists. vm_compute. reflexivity. Qed.

Lemma delay_ready : readyList (demo_q delay_world 1) = [1; 2] /\ time (mshrs (w_st delay_world)) 2 = 110 /\ 500 < u64 (200 + 1000).
Proof. split_and!; vm_compute; reflexivity. Qed.

Lemma delay_head : head (readyList (demo_q delay_world 1)) = Some 1.
Proof. vm_compute. reflexivity. Qed.

Lemma delay_does_not_move_witness : exists st' q', MSHRQueue.delay 200 1 1000 (w_st delay_world) (demo_q delay_world 1) = Ok (st', q') /\
  readyList q' = readyList (demo_q delay_world 1) /\ Queue.getNext 500 (mshrs st') q' = Ok None.
Proof.
  destruct delay_runs as [[st' q'] E]. destruct delay_ready as (_ & _ & Ht).
  pose proof (delay_does_not_move 200 1 1000 (w_st delay_world) (demo_q delay_world 1) st' q' E) as (H1 & _ & H2).
  exists st', q'. split; [exact E|]. split; [exact H1|]. exact (H2 delay_head 500 Ht).
Defined.
