(* ===== verification/WriteQueue.v ===== *)
(** * The write buffer of a cache

    Model of src/gem5/src/mem/cache/write_queue_entry.{hh,cc} and
    write_queue.{hh,cc}: evictions and uncacheable writes on their way to memory, in
    a queue of CacheQueue. An entry is never in service: it is deallocated when its
    packet is sent. *)

From S2P Require Import Prelude Bits Packet CacheQueue Mshr MshrOps.

Module WriteQueueEntry.
(** [QueueEntry::Target]. *)
Record target := mkT { recvTime : Z; t_readyTime : Z; t_order : Z; pkt : Z }.

Record t := mk {
  readyTime : Z;
  _isUncacheable : bool;
  inService : bool;
  order : Z;
  blkAddr : Z;
  blkSize : Z;
  isSecure : bool;
  targets : list target;
}.
Definition new : t := mk 0 false false 0 0 0 false [].

Definition hasTargets (e : t) : bool := match targets e with [] => false | _ => true end.
Definition getNumTargets (e : t) : nat := length (targets e).
Definition getTarget (e : t) : result target := match targets e with [] => Err AssertFail | x :: _ => Ok x end.

Definition with_targets (l : list target) (e : t) : t :=
  mk (readyTime e) (_isUncacheable e) (inService e) (order e) (blkAddr e) (blkSize e) (isSecure e) l.
Definition popTarget (e : t) : result t := match targets e with [] => Err Undefined | _ :: l => Ok (with_targets l e) end.

(** The packets that may be written through the buffer. *)
Definition writable (unc : bool) (c : MemCmd.Command) : bool :=
  (MemCmd.isWrite c && unc) || (MemCmd.isEviction c && negb unc) || bool_decide (c = MemCmd.WriteClean).

Definition allocate (curTick : Z) (ps : gmap Z pobj) (blk_addr blk_size target when_ready _order : Z) (e : t) : result t :=
  let! p := TargetList.get_pkt ps target in
  let! sec := Packet.isSecure (pk p) in
  let unc := Request.isUncacheable (Packet.req (pk p)) in
  let! _ := check Panic (unc || negb (hasTargets e)) in
  let! _ := check Panic (writable unc (Packet.cmd (pk p))) in
  let l := targets e ++ [mkT curTick when_ready _order target] in
  let! f := match l with [] => Err Undefined | x :: _ => TargetList.get_pkt ps (pkt x) end in
  let! same := Packet.matchBlockAddr_pkt (pk f) blk_size (pk p) in
  guard! same;
  Ok (mk when_ready unc false _order blk_addr blk_size sec l).

Definition deallocate (e : t) : result t :=
  guard! negb (hasTargets e);
  Ok (mk (readyTime e) (_isUncacheable e) false (order e) (blkAddr e) (blkSize e) (isSecure e) (targets e)).

(** A functional access against the packets of the targets: the answer, the packet and
    the packets of the store. *)
Fixpoint functional_loop (ps : gmap Z pobj) (p : Packet.t) (l : list target) : result (bool * Packet.t * gmap Z pobj) :=
  match l with
  | [] => Ok (false, p, ps)
  | x :: l =>
      let! o := TargetList.get_pkt ps (pkt x) in
      let! r := Packet.trySatisfyFunctional_pkt (pk o) p in
      let ps := <[pkt x := mkP r.2 (senderState o)]> ps in
      if r.1.1 : bool then Ok (true, r.1.2, ps) else functional_loop ps r.1.2 l
  end.
Definition trySatisfyFunctional (ps : gmap Z pobj) (p : Packet.t) (e : t) : result (bool * Packet.t * gmap Z pobj) :=
  if MemCmd.isPrint (Packet.cmd p) then
    let! r := Packet.trySatisfyFunctional (blkAddr e) (isSecure e) (blkSize e) None p in Ok (false, r.1.2, ps)
  else functional_loop ps p (targets e).

Definition matchBlockAddr_pkt (p : Packet.t) (e : t) : result bool :=
  guard! hasTargets e; Packet.matchBlockAddr (blkAddr e) (isSecure e) (blkSize e) p.
End WriteQueueEntry.

#[global] Instance WriteQueueEntry_entry : QueueEntry WriteQueueEntry.t := {
  e_readyTime := WriteQueueEntry.readyTime;
  e_inService := WriteQueueEntry.inService;
  e_isUncacheable := WriteQueueEntry._isUncacheable;
  e_order := WriteQueueEntry.order;
  e_blkAddr := WriteQueueEntry.blkAddr;
  e_isSecure := WriteQueueEntry.isSecure;
  e_numTargets := WriteQueueEntry.getNumTargets;
  e_hasTargets := WriteQueueEntry.hasTargets;
  e_deallocate := WriteQueueEntry.deallocate;
}.

#[global] Instance WriteQueueEntry_entry_laws : QueueEntryLaws WriteQueueEntry.t.
Proof.
  split.
  - intros e He. cbn in *. unfold WriteQueueEntry.hasTargets, WriteQueueEntry.getNumTargets in *. by destruct (WriteQueueEntry.targets e).
  - intros e e' He. cbn in *. unfold WriteQueueEntry.deallocate in He. ok_inv. by subst e'.
Qed.

Module WriteQueue.
Import Queue.
Implicit Types h : gmap Z WriteQueueEntry.t.

Definition allocate (curTick : Z) (ps : gmap Z pobj) (blk_addr blk_size pkt when_ready order : Z) h (q : Queue.t) :
    result (Z * gmap Z WriteQueueEntry.t * Queue.t) :=
  match freeList q with
  | [] => Err AssertFail
  | k :: fl =>
      let! e := deref h k in
      guard! bool_decide (WriteQueueEntry.getNumTargets e = 0%nat);
      let! e := WriteQueueEntry.allocate curTick ps blk_addr blk_size pkt when_ready order e in
      let h := <[k := e]> h in
      let! rl := addToReadyList h k (readyList q) in
      Ok (k, h, with_lists (allocatedList q ++ [k]) rl fl (_numInService q) (allocated q + 1) q)
  end.

(** The boolean tells whether the drain is signalled. *)
Definition markInService (k : Z) h (q : Queue.t) : result (gmap Z WriteQueueEntry.t * Queue.t * bool) :=
  let! e := deref h k in
  let! e := WriteQueueEntry.popTarget e in
  deallocate (<[k := e]> h) q k.

Fixpoint functional_loop (ps : gmap Z pobj) h (p : Packet.t) (l : list Z) : result (bool * Packet.t * gmap Z pobj) :=
  match l with
  | [] => Ok (false, p, ps)
  | k :: l => let! e := deref h k in
      let! b := WriteQueueEntry.matchBlockAddr_pkt p e in
      if b : bool then
        let! r := WriteQueueEntry.trySatisfyFunctional ps p e in
        if r.1.1 : bool then Ok r else functional_loop r.2 h r.1.2 l
      else functional_loop ps h p l
  end.
Definition trySatisfyFunctional (ps : gmap Z pobj) h (p : Packet.t) (q : Queue.t) : result (bool * Packet.t * gmap Z pobj) :=
  functional_loop ps h p (allocatedList q).
End WriteQueue.

(** ** The invariant of the write buffer *)
Import Queue.
Implicit Types h : gmap Z WriteQueueEntry.t.

Record wb_ok (ids : list Z) h (q : Queue.t) : Prop := {
  wb_queue : queue_ok ids h q;
  wb_sorted : by_time h (readyList q);
  wb_single : forall k e, k ∈ allocatedList q -> h !! k = Some e -> WriteQueueEntry.getNumTargets e = 1%nat /\ WriteQueueEntry.inService e = false;
}.

(** All entries in use wait to be sent. *)
Lemma wb_ready ids h q k : wb_ok ids h q -> k ∈ allocatedList q <-> k ∈ readyList q.
Proof.
  intros [Hq _ Hs]. rewrite (ok_in_ready _ _ _ _ Hq). split; [|tauto]. intros Hk. split; [done|].
  destruct (ok_dom _ _ _ Hq k) as [e He]; [by eapply ok_allocated_in|]. unfold serving. rewrite He. by destruct (Hs k e Hk He).
Qed.

Lemma wb_ok_new h base n r q : Queue.new base n r = Ok q -> (forall i, base <= i < base + (n + r) -> h !! i = Some WriteQueueEntry.new) ->
  wb_ok (seqZ base (n + r)) h q.
Proof.
  intros Hq Hh. pose proof Hq as Hq'. unfold Queue.new in Hq'. destruct (_ <? 0); [done|]. injection Hq' as <-. split; [|by constructor|].
  - eapply queue_ok_new; [exact Hq|]. intros i Hi. exists WriteQueueEntry.new. split; [by apply Hh|done].
  - intros k e Hk. by apply not_elem_of_nil in Hk.
Qed.

Lemma time_insert h k e i : i <> k -> time (<[k := e]> h) i = time h i.
Proof. intros Hi. unfold time. by rewrite lookup_insert_ne. Qed.

Lemma by_time_insert h k e l : k ∉ l -> by_time h l -> by_time (<[k := e]> h) l.
Proof.
  intros Hk Hl. induction Hl as [|i l Hl IH Hi]; [constructor|]. apply not_elem_of_cons in Hk as [Hki Hk]. constructor; [by apply IH|].
  apply Forall_forall. intros j Hj. eapply Forall_forall in Hi; [|exact Hj]. rewrite !time_insert; [done|by intros ->|done].
Qed.

Lemma by_time_sublist h l l' : l' `sublist_of` l -> by_time h l -> by_time h l'.
Proof.
  intros Hs. induction Hs as [|i l1 l2 Hs IH|i l1 l2 Hs IH]; intros H; [done|inversion H as [|? ? H1 H2]; subst..]; [|by apply IH].
  constructor; [by apply IH|]. apply Forall_forall. intros j Hj. eapply Forall_forall in H2; [exact H2|]. by eapply sublist_subseteq.
Qed.

Lemma wb_others_insert ids h k e : (forall i, i ∈ ids -> is_Some (h !! i)) -> others_same ids h (<[k := e]> h) k.
Proof. intros Hd j Hj Hjk. unfold serving, numTargets. rewrite lookup_insert_ne by done. split_and!; [by apply Hd|done|done]. Qed.

Lemma entry_allocate_inv curTick ps a n pkt rt o e e' : WriteQueueEntry.allocate curTick ps a n pkt rt o e = Ok e' ->
  WriteQueueEntry.targets e' = WriteQueueEntry.targets e ++ [WriteQueueEntry.mkT curTick rt o pkt] /\ WriteQueueEntry.inService e' = false /\
  WriteQueueEntry.readyTime e' = rt /\ WriteQueueEntry.blkAddr e' = a /\ WriteQueueEntry.order e' = o.
Proof.
  intros H. unfold WriteQueueEntry.allocate in H. apply bind_Ok_inv in H as (p & _ & H). apply bind_Ok_inv in H as (s & _ & H).
  apply bind_Ok_inv in H as ([] & _ & H). apply bind_Ok_inv in H as ([] & _ & H). apply bind_Ok_inv in H as (f & _ & H).
  apply bind_Ok_inv in H as (b & _ & H). apply bind_Ok_inv in H as ([] & _ & H). by injection H as <-.
Qed.

Lemma wb_allocate_ok ids curTick ps a n pkt rt o h q k h' q' : wb_ok ids h q -> WriteQueue.allocate curTick ps a n pkt rt o h q = Ok (k, h', q') ->
  wb_ok ids h' q' /\ allocatedList q' = allocatedList q ++ [k] /\ allocated q' = allocated q + 1 /\
  exists e, h' = <[k := e]> h /\ WriteQueueEntry.targets e = [WriteQueueEntry.mkT curTick rt o pkt] /\ WriteQueueEntry.readyTime e = rt /\
    WriteQueueEntry.blkAddr e = a /\ WriteQueueEntry.order e = o.
Proof.
  intros [Hq Hs Hw] H. unfold WriteQueue.allocate in H. destruct (freeList q) as [|k0 fl] eqn:Ef; [done|]. apply bind_Ok_inv in H as (e0 & He0 & H).
  apply deref_Ok in He0. apply bind_Ok_inv in H as ([] & Hn & H). apply check_Ok, bool_decide_eq_true in Hn.
  apply bind_Ok_inv in H as (e & He & H). apply bind_Ok_inv in H as (rl & Hrl & H). injection H as -> <- <-.
  apply entry_allocate_inv in He as (Ht & Hi & Hr & Ha & Ho). assert (Ht' : WriteQueueEntry.targets e = [WriteQueueEntry.mkT curTick rt o pkt]).
  { unfold WriteQueueEntry.getNumTargets in Hn. destruct (WriteQueueEntry.targets e0); [done|]. done. }
  assert (Hk : k ∉ allocatedList q).
  { pose proof (ok_nodup _ _ _ Hq) as Hnd. rewrite <- (ok_part _ _ _ Hq), Ef in Hnd. apply NoDup_app in Hnd as (_ & Hnd & _). apply Hnd. set_solver. }
  assert (Hkr : k ∉ readyList q) by (rewrite (ok_in_ready _ _ _ _ Hq); tauto).
  split; [split|split; [done|]; split; [done|by exists e]].
  - eapply queue_ok_allocate; [exact Hq|done|apply wb_others_insert, Hq|rewrite lookup_insert_eq; by eexists|unfold serving; by rewrite lookup_insert_eq|].
    by eapply addToReadyList_Perm.
  - cbn. eapply addToReadyList_sorted; [exact Hrl|]. by apply by_time_insert.
  - intros i ei Hi' Hei. cbn in Hi'. apply elem_of_app in Hi' as [Hi'| ->%list_elem_of_singleton].
    + rewrite lookup_insert_ne in Hei by (by intros ->). by apply (Hw i).
    + rewrite lookup_insert_eq in Hei. injection Hei as <-. unfold WriteQueueEntry.getNumTargets. by rewrite Ht'.
Qed.

(** Sending an entry always works, and frees it. *)
Lemma wb_send_ok ids h q k : wb_ok ids h q -> k ∈ allocatedList q ->
  exists h' q' b, WriteQueue.markInService k h q = Ok (h', q', b) /\ wb_ok ids h' q' /\ allocatedList q ≡ₚ k :: allocatedList q' /\
    freeList q' = k :: freeList q /\ allocated q' = allocated q - 1 /\ (b = true <-> drainState q = Draining /\ allocatedList q' = []).
Proof.
  intros [Hq Hs Hw] Hk. destruct (ok_dom _ _ _ Hq k) as [e He]; [by eapply ok_allocated_in|]. destruct (Hw k e Hk He) as [Hn Hi].
  unfold WriteQueue.markInService. rewrite (deref_Some _ _ _ He). cbn [rbind]. unfold WriteQueueEntry.popTarget, WriteQueueEntry.getNumTargets in *.
  destruct (WriteQueueEntry.targets e) as [|x [|y l]] eqn:Et; [done| |done]. cbn [rbind].
  set (e1 := WriteQueueEntry.with_targets [] e). set (e2 := WriteQueueEntry.mk (WriteQueueEntry.readyTime e) (WriteQueueEntry._isUncacheable e) false
     (WriteQueueEntry.order e) (WriteQueueEntry.blkAddr e) (WriteQueueEntry.blkSize e) (WriteQueueEntry.isSecure e) []).
  assert (Hq1 : queue_ok ids (<[k := e1]> h) q).
  { eapply queue_ok_frame; [exact Hq|]. intros i Hii. unfold serving, numTargets. destruct (decide (i = k)) as [->|Hne].
    - rewrite lookup_insert_eq, He. split_and!; [by eexists|done|done].
    - rewrite lookup_insert_ne by done. split_and!; [by apply (ok_dom _ _ _ Hq)|done|done]. }
  destruct (queue_ok_deallocate ids (<[k := e1]> h) q k e1 e2 Hq1 Hk (lookup_insert_eq _ _ _) eq_refl eq_refl)
    as (q' & b & E & Hq2 & Hf & Ha & Hsub & Hb). rewrite E, insert_insert_eq in *. exists (<[k := e2]> h), q', b.
  pose proof (ok_nodup_allocated _ _ _ Hq) as Hnd. rewrite Ha in Hnd. apply NoDup_cons in Hnd as [Hkn _].
  assert (Hkr : k ∉ readyList q') by (rewrite (ok_in_ready _ _ _ _ Hq2); tauto).
  split; [done|]. split; [split; [done|..]|split; [done|]; split; [done|]; split; [|done]].
  - apply by_time_insert; [done|]. by eapply by_time_sublist.
  - intros i ei Hi' Hei. rewrite lookup_insert_ne in Hei by (by intros ->). apply (Hw i); [rewrite Ha; set_solver|done].
  - rewrite (ok_allocated _ _ _ Hq), (ok_allocated _ _ _ Hq2), Ha. simpl. lia.
Qed.
