(* ===== verification/CacheCtl.v ===== *)
(** * The miss path of a cache

    Model of the parts of src/gem5/src/mem/cache/base.{hh,cc} and cache.cc around the
    two buffers of a cache: when requests are accepted, what a miss allocates, which
    entry is sent next and with what packet, how a response is taken, and the write
    allocator. The tags and the data of the blocks are not modelled; a block is what the
    caller has found of it, or, for a response, what [BaseCache.blocks] says. *)

From S2P Require Import Prelude Bits Packet CacheQueue Mshr MshrOps WriteQueue.

(** ** The port to the processor *)
Module CacheResponsePort.
(** [sendRetryEvent] is the tick of the event when it is scheduled. *)
Record t := mk { blocked : bool; mustSendRetry : bool; sendRetryEvent : option Z }.
Definition new : t := mk false false None.

Definition setBlocked (p : t) : result t :=
  guard! negb (blocked p);
  match sendRetryEvent p with
  | Some _ => Ok (mk true true None)
  | None => Ok (mk true (mustSendRetry p) None)
  end.

Definition clearBlocked (curTick : Z) (p : t) : result t :=
  guard! blocked p;
  if mustSendRetry p then
    guard! negb (bool_decide (is_Some (sendRetryEvent p)));
    Ok (mk false true (Some (u64 (curTick + 1))))
  else Ok (mk false false (sendRetryEvent p)).

(** The event has been taken from the queue when it is processed. *)
Definition processSendRetry (p : t) : t := mk (blocked p) false None.

(** [bypass] says that the caches are bypassed. *)
Definition tryTiming (bypass : bool) (pkt : Packet.t) (p : t) : bool * t :=
  if bypass || Packet.isExpressSnoop pkt then (true, p)
  else if blocked p || mustSendRetry p then (false, mk (blocked p) true (sendRetryEvent p))
  else (true, mk (blocked p) false (sendRetryEvent p)).
End CacheResponsePort.

(** ** The write allocator *)
Module WriteAllocator.
Inductive WriteMode := ALLOCATE | COALESCE | NO_ALLOCATE.
#[global] Instance WriteMode_eq_dec : EqDecision WriteMode.
Proof. solve_decision. Defined.

Record t := mk {
  mode : WriteMode;
  nextAddr : Z;
  byteCount : Z;
  coalesceLimit : Z;
  noAllocateLimit : Z;
  delayThreshold : Z;
  delayCtr : gmap Z Z;
}.

Definition coalesce (w : t) : bool := negb (bool_decide (mode w = ALLOCATE)).
Definition allocate (w : t) : bool := negb (bool_decide (mode w = NO_ALLOCATE)).
Definition reset (w : t) : t := mk ALLOCATE 0 0 (coalesceLimit w) (noAllocateLimit w) (delayThreshold w) (delayCtr w).
Definition new (coalesce_limit no_allocate_limit block_size delay_threshold : Z) : t :=
  mk ALLOCATE 0 0 (uw 32 (coalesce_limit * block_size)) (uw 32 (no_allocate_limit * block_size)) delay_threshold ∅.

Definition with_delays (d : gmap Z Z) (w : t) : t :=
  mk (mode w) (nextAddr w) (byteCount w) (coalesceLimit w) (noAllocateLimit w) (delayThreshold w) d.

(** [delayCtr[blk_addr]] makes an entry with zero when there is none. *)
Definition delay (blk_addr : Z) (w : t) : bool * t :=
  let n := default 0 (delayCtr w !! blk_addr) in
  if 0 <? n then (true, with_delays (<[blk_addr := n - 1]> (delayCtr w)) w)
  else (false, with_delays (<[blk_addr := n]> (delayCtr w)) w).
Definition resetDelay (blk_addr : Z) (w : t) : t := with_delays (delete blk_addr (delayCtr w)) w.

Definition updateMode (write_addr write_size blk_addr : Z) (w : t) : t :=
  let w := if nextAddr w =? write_addr then
             let w := with_delays (<[blk_addr := delayThreshold w]> (delayCtr w)) w in
             match mode w with
             | NO_ALLOCATE => w
             | m =>
                 let n := uw 32 (byteCount w + write_size) in
                 let m := match m with
                          | ALLOCATE => if coalesceLimit w <? n then COALESCE else ALLOCATE
                          | _ => if noAllocateLimit w <? n then NO_ALLOCATE else m
                          end in
                 mk m (nextAddr w) n (coalesceLimit w) (noAllocateLimit w) (delayThreshold w) (delayCtr w)
             end
           else resetDelay blk_addr
                  (mk ALLOCATE (nextAddr w) write_size (coalesceLimit w) (noAllocateLimit w) (delayThreshold w) (delayCtr w)) in
  mk (mode w) (u64 (write_addr + write_size)) (byteCount w) (coalesceLimit w) (noAllocateLimit w) (delayThreshold w) (delayCtr w).
End WriteAllocator.

(** ** The cache *)
Module Cache.
Export BaseCache (CacheBlk, mkBlk, isValid, ReadableBit, WritableBit, DirtyBit).

Inductive Clusivity := mostly_incl | mostly_excl.
Inductive BlockedCause := Blocked_NoMSHRs | Blocked_NoWBBuffers | Blocked_NoTargets.
#[global] Instance BlockedCause_eq_dec : EqDecision BlockedCause.
Proof. solve_decision. Defined.
Definition cause_bit (c : BlockedCause) : Z := match c with Blocked_NoMSHRs => 0 | Blocked_NoWBBuffers => 1 | Blocked_NoTargets => 2 end.

Record params := mkParams {
  blkSize : Z;
  numTarget : Z;
  clusivity : Clusivity;
  isReadOnly : bool;
  demandReserve : Z;
  writebackClean : bool;
}.

(** The packets and registers of all caches, and the state of this one; [sends] are the
    times for which the memory-side port has been asked to send, the last one first. *)
Record t := mk {
  st : store;
  entries : gmap Z WriteQueueEntry.t;
  mshrQueue : Queue.t;
  writeBuffer : Queue.t;
  cpuSidePort : CacheResponsePort.t;
  order : Z;
  blocked : Z;
  noTargetMSHR : option Z;
  writeAllocator : option WriteAllocator.t;
  sends : list Z;
}.

Definition with_misses (s : store) (q : Queue.t) (c : t) : t :=
  mk s (entries c) q (writeBuffer c) (cpuSidePort c) (order c) (blocked c) (noTargetMSHR c) (writeAllocator c) (sends c).
Definition with_writes (h : gmap Z WriteQueueEntry.t) (q : Queue.t) (c : t) : t :=
  mk (st c) h (mshrQueue c) q (cpuSidePort c) (order c) (blocked c) (noTargetMSHR c) (writeAllocator c) (sends c).
Definition with_blocked (p : CacheResponsePort.t) (b : Z) (c : t) : t :=
  mk (st c) (entries c) (mshrQueue c) (writeBuffer c) p (order c) b (noTargetMSHR c) (writeAllocator c) (sends c).
Definition with_order (o : Z) (c : t) : t :=
  mk (st c) (entries c) (mshrQueue c) (writeBuffer c) (cpuSidePort c) o (blocked c) (noTargetMSHR c) (writeAllocator c) (sends c).
Definition with_noTarget (m : option Z) (c : t) : t :=
  mk (st c) (entries c) (mshrQueue c) (writeBuffer c) (cpuSidePort c) (order c) (blocked c) m (writeAllocator c) (sends c).
Definition with_allocator (w : option WriteAllocator.t) (c : t) : t :=
  mk (st c) (entries c) (mshrQueue c) (writeBuffer c) (cpuSidePort c) (order c) (blocked c) (noTargetMSHR c) w (sends c).
Definition schedMemSideSendEvent (time : Z) (c : t) : t :=
  mk (st c) (entries c) (mshrQueue c) (writeBuffer c) (cpuSidePort c) (order c) (blocked c) (noTargetMSHR c) (writeAllocator c) (time :: sends c).

Definition isBlocked (c : t) : bool := negb (blocked c =? 0).

(** [blocked] is an 8-bit mask. *)
Definition setBlocked (cause : BlockedCause) (c : t) : result t :=
  let flag := uw 8 (Z.shiftl 1 (cause_bit cause)) in
  let! p := (if blocked c =? 0 then CacheResponsePort.setBlocked (cpuSidePort c) else Ok (cpuSidePort c)) in
  Ok (with_blocked p (Z.lor (blocked c) flag) c).

Definition clearBlocked (curTick : Z) (cause : BlockedCause) (c : t) : result t :=
  let flag := uw 8 (Z.shiftl 1 (cause_bit cause)) in
  let b := Z.land (blocked c) (unot 8 flag) in
  let! p := (if b =? 0 then CacheResponsePort.clearBlocked curTick (cpuSidePort c) else Ok (cpuSidePort c)) in
  Ok (with_blocked p b c).

Section Ops.
Context (pr : params) (uninit : Z -> list Z).

Definition allocOnFill (c : MemCmd.Command) : bool :=
  match clusivity pr with mostly_incl => true | mostly_excl => false end ||
  bool_decide (c = MemCmd.WriteLineReq) || bool_decide (c = MemCmd.ReadReq) || bool_decide (c = MemCmd.WriteReq) ||
  (MemCmd.testCmdAttrib MemCmd.IsSWPrefetch c || MemCmd.testCmdAttrib MemCmd.IsHWPrefetch c) || MemCmd.isLLSC c.

Definition allocateMissBuffer (curTick pkt time : Z) (sched_send : bool) (c : t) : result (Z * t) :=
  let! p := MSHROps.get_pkt (st c) pkt in
  let! a := Packet.getBlockAddr (blkSize pr) (pk p) in
  let! r := MSHRQueue.allocate curTick a (blkSize pr) pkt time (order c) (allocOnFill (Packet.cmd (pk p))) (st c) (mshrQueue c) in
  let c := with_misses r.1.2 r.2 (with_order (u64 (order c + 1)) c) in
  let! c := (if Queue.isFull (mshrQueue c) then setBlocked Blocked_NoMSHRs c else Ok c) in
  Ok (r.1.1, if sched_send then schedMemSideSendEvent time c else c).

(** [payload] is the delay of the packet for decompression, when there is a compressor. *)
Definition allocateWriteBuffer (curTick pkt time payload : Z) (c : t) : result t :=
  let! p := MSHROps.get_pkt (st c) pkt in
  guard! MemCmd.isWrite (Packet.cmd (pk p)) || bool_decide (Packet.cmd (pk p) = MemCmd.CleanEvict);
  let! a := Packet.getBlockAddr (blkSize pr) (pk p) in
  let time := u64 (time + payload) in
  let! sec := Packet.isSecure (pk p) in
  let! _ := Queue.findMatch (entries c) (writeBuffer c) a sec true in
  let! r := WriteQueue.allocate curTick (packets (st c)) a (blkSize pr) pkt time (order c) (entries c) (writeBuffer c) in
  let c := with_writes r.1.2 r.2 (with_order (u64 (order c + 1)) c) in
  let! c := (if Queue.isFull (writeBuffer c) then setBlocked Blocked_NoWBBuffers c else Ok c) in
  Ok (schedMemSideSendEvent time c).

Definition markInService_mshr (curTick mshr : Z) (pending_modified_resp : bool) (c : t) : result t :=
  let wasFull := Queue.isFull (mshrQueue c) in
  let! r := MSHRQueue.markInService mshr pending_modified_resp (st c) (mshrQueue c) in
  let c := with_misses r.1 r.2 c in
  if wasFull && negb (Queue.isFull (mshrQueue c)) then clearBlocked curTick Blocked_NoMSHRs c else Ok c.

Definition markInService_wq (curTick entry : Z) (c : t) : result t :=
  let wasFull := Queue.isFull (writeBuffer c) in
  let! r := WriteQueue.markInService entry (entries c) (writeBuffer c) in
  let c := with_writes r.1.1 r.1.2 c in
  if wasFull && negb (Queue.isFull (writeBuffer c)) then clearBlocked curTick Blocked_NoWBBuffers c else Ok c.

(** [BaseCache::handleTimingReqMiss] for the register [mshr] of the block, if there is
    one; [pkt] is null for a software prefetch that has nothing to do. *)
Definition handleTimingReqMiss (curTick : Z) (pkt mshr : option Z) (blk : option CacheBlk) (forward_time payload : Z) (c : t) :
    result (option CacheBlk * t) :=
  let! c := match writeAllocator c, pkt with
            | Some w, Some i =>
                let! p := MSHROps.get_pkt (st c) i in
                if MemCmd.isWrite (Packet.cmd (pk p)) && negb (Request.isUncacheable (Packet.req (pk p))) then
                  let! a := Packet.getAddr (pk p) in
                  let! n := Packet.getSize (pk p) in
                  let! b := Packet.getBlockAddr (blkSize pr) (pk p) in
                  Ok (with_allocator (Some (WriteAllocator.updateMode a n b w)) c)
                else Ok c
            | _, _ => Ok c
            end in
  match mshr, pkt with
  | Some _, None => Ok (blk, c)
  | Some m, Some i =>
      let! p := MSHROps.get_pkt (st c) i in
      guard! negb (MemCmd.isWriteback (Packet.cmd (pk p)));
      match Packet.cmd (pk p) with
      | MemCmd.CleanEvict => Ok (blk, c)
      | MemCmd.WriteClean => let! c := allocateWriteBuffer curTick i forward_time payload c in Ok (blk, c)
      | cmd =>
          let! s := MSHROps.allocateTarget uninit curTick m i forward_time (order c) (allocOnFill cmd) (st c) in
          let c := with_misses s (mshrQueue c) (with_order (u64 (order c + 1)) c) in
          let! r := MSHROps.get (st c) m in
          let! c := (if numTarget pr <=? Z.of_nat (MSHR.getNumTargets r) then setBlocked Blocked_NoTargets (with_noTarget (Some m) c) else Ok c) in
          Ok (blk, c)
      end
  | None, None => Err Undefined
  | None, Some i =>
      let! p := MSHROps.get_pkt (st c) i in
      if MemCmd.isEviction (Packet.cmd (pk p)) || bool_decide (Packet.cmd (pk p) = MemCmd.WriteClean) then
        let! c := allocateWriteBuffer curTick i forward_time payload c in Ok (blk, c)
      else
        let! blk := match blk with
                    | Some b =>
                        if isValid b then
                          let! nw := Packet.needsWritable (pk p) in
                          guard! (nw && negb (WritableBit b)) || Request.isCacheMaintenance (Packet.req (pk p));
                          Ok (Some (mkBlk true false (WritableBit b) (DirtyBit b)))
                        else Ok (Some b)
                    | None => Ok None
                    end in
        let! r := allocateMissBuffer curTick i forward_time true c in Ok (blk, r.2)
  end.

(** [Cache::handleTimingReqMiss]: uncacheable requests, and software prefetches, which
    are answered at once and go on as a packet of their own. *)
Definition Cache_handleTimingReqMiss (curTick pkt : Z) (blk : option CacheBlk) (forward_time payload : Z) (c : t) :
    result (option CacheBlk * t) :=
  let! p := MSHROps.get_pkt (st c) pkt in
  let cmd := Packet.cmd (pk p) in
  guard! negb (bool_decide (cmd = MemCmd.LockedRMWWriteReq));
  if Request.isUncacheable (Packet.req (pk p)) then
    guard! match blk with Some b => negb (isValid b) | None => true end;
    if MemCmd.isWrite cmd then let! c := allocateWriteBuffer curTick pkt forward_time payload c in Ok (blk, c)
    else
      guard! MemCmd.isRead cmd || bool_decide (cmd = MemCmd.CleanInvalidReq);
      let! r := allocateMissBuffer curTick pkt forward_time true c in Ok (blk, r.2)
  else
    let! a := Packet.getBlockAddr (blkSize pr) (pk p) in
    let! sec := Packet.isSecure (pk p) in
    let! mshr := Queue.findMatch (mshrs (st c)) (mshrQueue c) a sec true in
    if MemCmd.testCmdAttrib MemCmd.IsSWPrefetch cmd then
      guard! MemCmd.needsResponse cmd;
      match Request._paddr (Packet.req (pk p)), Request._size (Packet.req (pk p)) with
      | Some paddr, Some size =>
          let! r := match mshr with
                    | Some _ => Ok (None, st c)
                    | None =>
                        let! pf := Packet.new (Request.mk (Request._flags (Packet.req (pk p))) [] (Some paddr) (Some size)) cmd in
                        let! pf := Packet.allocate uninit pf in
                        let! pa := Packet.getAddr (pk p) in
                        let! fa := Packet.getAddr pf in
                        let! fs := Packet.isSecure pf in
                        guard! (fa =? pa) && eqb fs sec;
                        let! pn := Packet.getSize (pk p) in
                        let! fn := Packet.getSize pf in
                        guard! fn =? pn;
                        let '(i, s) := MSHROps.alloc_pkt pf [] (st c) in Ok (Some i, s)
                    end in
          let! s := MSHROps.upd_pkt Packet.makeResponse r.2 pkt in
          handleTimingReqMiss curTick r.1 mshr blk forward_time payload (with_misses s (mshrQueue c) c)
      | _, _ => Err AssertFail
      end
    else handleTimingReqMiss curTick (Some pkt) mshr blk forward_time payload c.

(** The response frees at least one target of the register. *)
Definition clearNoTargets (curTick mshr : Z) (c : t) : result t :=
  if bool_decide (noTargetMSHR c = Some mshr) then let! c := clearBlocked curTick Blocked_NoTargets c in Ok (with_noTarget None c) else Ok c.

(** The memory-side port is asked to send after a response to the register [k]: a
    register that has been marked as pending is in the ready list; one that has been
    deallocated may leave room for a prefetch, which [prefetch_time] is
    [nextPrefetchReadyTime] of, if there is a prefetcher. *)
Definition wake (clockEdge payloadDelay : Z) (prefetch_time : option Z) (k : Z) (c : t) : t :=
  if bool_decide (k ∈ Queue.readyList (mshrQueue c)) then schedMemSideSendEvent (u64 (clockEdge + payloadDelay)) c
  else if bool_decide (k ∈ Queue.allocatedList (mshrQueue c)) then c
  else match prefetch_time with
       | Some p =>
           let next_pf_time := Z.max p clockEdge in
           if MSHRQueue.canPrefetch (demandReserve pr) (mshrQueue c) && negb (isBlocked c) && negb (next_pf_time =? Queue.MaxTick)
           then schedMemSideSendEvent next_pf_time c else c
       | None => c
       end.

(** [BaseCache::recvTimingResp]: the response to an uncacheable write goes up at once;
    any other is for the register [mshr] that the packet has as its sender state, see
    [BaseCache.recvTimingResp]. The result has the targets that were served and the block.
    The writebacks of the fill and of the temporary block follow as a call of
    [doWritebacks]; statistics are left out. *)
Definition recvTimingResp (curTick clockEdge : Z) (prefetch_time mshr : option Z) (headerDelay payloadDelay : Z) (pkt : Packet.t) (bk : BaseCache.blocks) (c : t) :
    result (option (TargetList.t * option CacheBlk) * t) :=
  guard! MemCmd.isResponse (Packet.cmd pkt);
  let! _ := check Panic ((headerDelay =? 0) || bool_decide (Packet.cmd pkt = MemCmd.HardPFResp)) in
  if MemCmd.isWrite (Packet.cmd pkt) && negb (bool_decide (Packet.cmd pkt = MemCmd.LockedRMWWriteResp)) then
    guard! Request.isUncacheable (Packet.req pkt); Ok (None, c)
  else
    match mshr with
    | None => Err AssertFail
    | Some k =>
        let! c := clearNoTargets curTick k c in
        let was_full := Queue.isFull (mshrQueue c) in
        let! r := BaseCache.recvTimingResp (isReadOnly pr) pkt bk (WriteAllocator.allocate <$> writeAllocator c) curTick k (st c) (mshrQueue c) in
        let c := with_misses r.1.1.2 r.1.2 c in
        let! c := (if was_full && negb (Queue.isFull (mshrQueue c)) then clearBlocked curTick Blocked_NoMSHRs c else Ok c) in
        Ok (Some r.1.1.1, wake clockEdge payloadDelay prefetch_time k c)
    end.

(** The part of [handleTimingReqHit] for locked accesses: the read takes a register that
    counts as sent, and makes the block inaccessible; the write answers that register
    with a packet of its own, which has no delays. *)
Definition handleTimingReqHit (curTick clockEdge : Z) (prefetch_time : option Z) (pkt : Z) (blk : option CacheBlk) (bk : BaseCache.blocks) (c : t) :
    result (option CacheBlk * option TargetList.t * t) :=
  let! p := MSHROps.get_pkt (st c) pkt in
  if MemCmd.testCmdAttrib MemCmd.IsLockedRMW (Packet.cmd (pk p)) then
    let! a := Packet.getBlockAddr (blkSize pr) (pk p) in
    let! sec := Packet.isSecure (pk p) in
    let! m := Queue.findMatch (mshrs (st c)) (mshrQueue c) a sec true in
    if MemCmd.isRead (Packet.cmd (pk p)) then
      guard! bool_decide (m = None);
      let! pkt2 := Packet.new (Packet.req (pk p)) (Packet.cmd (pk p)) in
      let '(i, s) := MSHROps.alloc_pkt pkt2 [] (st c) in
      let! r := allocateMissBuffer curTick i curTick true (with_misses s (mshrQueue c) c) in
      let c := r.2 in
      let! x := MSHRQueue.markInService r.1 false (st c) (mshrQueue c) in
      match blk with
      | Some b => Ok (Some (mkBlk (isValid b) false false (DirtyBit b)), None, with_misses x.1 x.2 c)
      | None => Err AssertFail
      end
    else
      guard! MemCmd.isWrite (Packet.cmd (pk p));
      match m with
      | Some k =>
          let! resp_pkt := Packet.new (Packet.req (pk p)) MemCmd.LockedRMWWriteResp in
          let! r := recvTimingResp curTick clockEdge prefetch_time (Some k) 0 0 resp_pkt bk c in
          Ok (match r.1 with Some s => s.2 | None => blk end, fst <$> r.1, r.2)
      | None => Err AssertFail
      end
  else Ok (blk, None, c).

Definition Cache_handleTimingReqHit (curTick clockEdge : Z) (prefetch_time : option Z) (pkt : Z) (blk : option CacheBlk) (bk : BaseCache.blocks) (c : t) :
    result (option CacheBlk * option TargetList.t * t) :=
  let! p := MSHROps.get_pkt (st c) pkt in
  guard! negb (Request.isUncacheable (Packet.req (pk p)));
  handleTimingReqHit curTick clockEdge prefetch_time pkt blk bk c.

(** [Cache::doWritebacks]: [cached_above] tells whether a cache above has the block of the
    packet, [payload] is the delay of a packet for decompression. *)
Fixpoint doWritebacks (curTick forward_time : Z) (cached_above : pobj -> bool) (payload : Z -> Z) (writebacks : list Z) (c : t) : result t :=
  match writebacks with
  | [] => Ok c
  | wbPkt :: writebacks =>
      let! p := MSHROps.get_pkt (st c) wbPkt in
      let! c := (if cached_above p then
                   match Packet.cmd (pk p) with
                   | MemCmd.CleanEvict => Ok c
                   | MemCmd.WritebackClean => guard! writebackClean pr; Ok c
                   | cmd =>
                       guard! bool_decide (cmd = MemCmd.WritebackDirty) || bool_decide (cmd = MemCmd.WriteClean);
                       let c := with_misses (MSHROps.put_pkt (st c) wbPkt (Packet.set Packet.BLOCK_CACHED (pk p))) (mshrQueue c) c in
                       allocateWriteBuffer curTick wbPkt forward_time (payload wbPkt) c
                   end
                 else allocateWriteBuffer curTick wbPkt forward_time (payload wbPkt) c) in
      doWritebacks curTick forward_time cached_above payload writebacks c
  end.

(** A prefetch that turned out to be in a cache above. *)
Definition squashPrefetch (curTick mshr : Z) (c : t) : result t :=
  let! r := MSHRQueue.forceDeallocateTarget curTick mshr (st c) (mshrQueue c) in
  let c := with_misses r.1.1.2 r.1.2 c in
  if r.1.1.1 : bool then clearBlocked curTick Blocked_NoMSHRs c else Ok c.

(** ** What is sent next *)
Inductive entry := Miss (k : Z) | Write (k : Z).

(** The choice between the buffers, before a prefetch is considered. *)
Definition next_pending (curTick : Z) (c : t) : result (option entry) :=
  let! miss := Queue.getNext curTick (mshrs (st c)) (mshrQueue c) in
  let! wq := Queue.getNext curTick (entries c) (writeBuffer c) in
  match wq, miss with
  | Some k, _ =>
      if Queue.isFull (writeBuffer c) || bool_decide (miss = None) then
        let! e := Queue.deref (entries c) k in
        let! conflict := Queue.findPending (mshrs (st c)) (mshrQueue c) e in
        match conflict with
        | Some m => let! r := MSHROps.get (st c) m in
            if MSHR.order r <? WriteQueueEntry.order e then Ok (Some (Miss m)) else Ok (Some (Write k))
        | None => Ok (Some (Write k))
        end
      else match miss with
           | Some m => let! r := MSHROps.get (st c) m in
               let! conflict := Queue.findPending (entries c) (writeBuffer c) r in
               Ok (Some match conflict with Some w => Write w | None => Miss m end)
           | None => Ok None
           end
  | None, Some m => let! r := MSHROps.get (st c) m in
      let! conflict := Queue.findPending (entries c) (writeBuffer c) r in
      Ok (Some match conflict with Some w => Write w | None => Miss m end)
  | None, None => Ok None
  end.

(** [prefetch] is the packet of the prefetcher, if there is one and it has one, and
    [hit] whether its block is in the cache. *)
Definition getNextQueueEntry (curTick : Z) (prefetch : option Z) (hit : bool) (c : t) : result (option entry * t) :=
  let! n := next_pending curTick c in
  match n, prefetch with
  | None, Some i =>
      if MSHRQueue.canPrefetch (demandReserve pr) (mshrQueue c) && negb (isBlocked c) then
        let! p := MSHROps.get_pkt (st c) i in
        let! a := Packet.getBlockAddr (blkSize pr) (pk p) in
        let! sec := Packet.isSecure (pk p) in
        if hit then Ok (None, c)
        else
          let! m := Queue.findMatch (mshrs (st c)) (mshrQueue c) a sec true in
          if bool_decide (is_Some m) then Ok (None, c)
          else
            let! w := Queue.findMatch (entries c) (writeBuffer c) a sec true in
            if bool_decide (is_Some w) then Ok (None, c)
            else let! r := allocateMissBuffer curTick i curTick false c in Ok (Some (Miss r.1), r.2)
      else Ok (None, c)
  | _, _ => Ok (n, c)
  end.

(** [prefetch_time] is [nextPrefetchReadyTime] of the prefetcher, if there is one. *)
Definition nextQueueReadyTime (prefetch_time : option Z) (c : t) : result Z :=
  let! m := Queue.nextReadyTime (mshrs (st c)) (mshrQueue c) in
  let! w := Queue.nextReadyTime (entries c) (writeBuffer c) in
  let n := Z.min m w in
  match prefetch_time with
  | Some t => if MSHRQueue.canPrefetch (demandReserve pr) (mshrQueue c) && negb (isBlocked c) then Ok (Z.min n t) else Ok n
  | None => Ok n
  end.

(** ** The packet of a miss *)
Definition createMissPacket (cpu_pkt : Packet.t) (blk : option CacheBlk) (needsWritable is_whole_line_write : bool) : result (option Packet.t) :=
  let c := Packet.cmd cpu_pkt in
  guard! negb (MemCmd.isEviction c);
  let blkValid := match blk with Some b => isValid b | None => false end in
  let blkWritable := match blk with Some b => WritableBit b | None => false end in
  if Request.isUncacheable (Packet.req cpu_pkt) || (negb blkValid && MemCmd.isUpgrade c) ||
     bool_decide (c = MemCmd.InvalidateReq) || MemCmd.isClean c then Ok None
  else
    guard! MemCmd.needsResponse c;
    guard! negb (bool_decide (c = MemCmd.WriteLineReq)) || is_whole_line_write;
    let! cmd := (if is_whole_line_write then guard! negb blkValid || negb blkWritable; Ok MemCmd.InvalidateReq
                 else if blkValid then
                   guard! needsWritable;
                   guard! negb blkWritable;
                   Ok (if MemCmd.isLLSC c then MemCmd.SCUpgradeReq else MemCmd.UpgradeReq)
                 else if bool_decide (c = MemCmd.SCUpgradeFailReq) || bool_decide (c = MemCmd.StoreCondFailReq) then Ok MemCmd.SCUpgradeFailReq
                 else
                   let force_clean_rsp := isReadOnly pr || match clusivity pr with mostly_excl => true | mostly_incl => false end in
                   Ok (if needsWritable then MemCmd.ReadExReq
                       else if force_clean_rsp then MemCmd.ReadCleanReq else MemCmd.ReadSharedReq)) in
    let pkt := Packet.new_blk (Packet.req cpu_pkt) cmd (blkSize pr) in
    let pkt := if Packet.hasSharers cpu_pkt && negb needsWritable then Packet.setHasSharers pkt else pkt in
    let! a := Packet.getAddr pkt in
    let! b := Packet.getBlockAddr (blkSize pr) pkt in
    guard! a =? b;
    let! pkt := Packet.allocate uninit pkt in
    Ok (Some pkt).

(** [BaseCache::sendMSHRQueuePacket] up to the follow-up write of a clean operation that
    finds a dirty block: whether to wait for a retry, and the packet that was sent.
    [clockPeriod] is that of the cache; [accept] is what the memory side does with a
    packet: it refuses it, or it takes it and has set flags in it. *)
Definition sendMSHRQueuePacket (curTick clockPeriod mshr : Z) (blk : option CacheBlk) (accept : pobj -> option Packet.t) (c : t) :
    result (bool * option pobj * t) :=
  let! m := MSHROps.get (st c) mshr in
  let! x := MSHR.getTarget m in
  let! tgt_pkt := MSHROps.get_pkt (st c) (Target.pkt x) in
  let! d := match writeAllocator c with
            | Some w =>
                if WriteAllocator.coalesce w && MemCmd.isWrite (Packet.cmd (pk tgt_pkt)) then
                  if negb (MSHR.isWholeLineWrite m) then
                    let '(wait, w) := WriteAllocator.delay (MSHR.blkAddr m) w in
                    if wait then
                      let! n := Packet.getSize (pk tgt_pkt) in
                      if n =? 0 then Err Undefined
                      else Ok (Some (u64 (blkSize pr / n * clockPeriod)), with_allocator (Some w) c)
                    else Ok (None, with_allocator (Some (WriteAllocator.reset w)) c)
                  else Ok (None, with_allocator (Some (WriteAllocator.resetDelay (MSHR.blkAddr m) w)) c)
                else Ok (None, c)
            | None => Ok (None, c)
            end in
  let c := d.2 in
  match d.1 with
  | Some ticks => let! r := MSHRQueue.delay curTick mshr ticks (st c) (mshrQueue c) in Ok (false, None, with_misses r.1 r.2 c)
  | None =>
      let! pkt := createMissPacket (pk tgt_pkt) blk (MSHR.needsWritable m) (MSHR.isWholeLineWrite m) in
      let isForward := match pkt with None => true | Some _ => false end in
      let c := with_misses (MSHROps.put (st c) mshr (MSHR.set_isForward isForward m)) (mshrQueue c) c in
      let! p := match pkt with
                | Some pkt => Ok (mkP pkt [Some mshr])
                | None =>
                    let! q := Packet.copy uninit false true (pk tgt_pkt) in
                    guard! negb (MemCmd.isWrite (Packet.cmd q));
                    Ok (mkP q (Some mshr :: senderState tgt_pkt))
                end in
      let! q := (if MemCmd.isClean (Packet.cmd (pk p)) && match blk with Some b => DirtyBit b | None => false end
                 then Packet.setSatisfied (pk p) else Ok (pk p)) in
      let p := mkP q (senderState p) in
      match accept p with
      | None => Ok (true, None, c)
      | Some q =>
          let! c := markInService_mshr curTick mshr (negb (Packet.hasSharers q) && Packet.cacheResponding q) c in
          Ok (false, Some (mkP q (senderState p)), c)
      end
  end.

Definition sendWriteQueuePacket (curTick entry : Z) (accepted : bool) (c : t) : result (bool * t) :=
  let! e := Queue.deref (entries c) entry in
  let! _ := WriteQueueEntry.getTarget e in
  if accepted then let! c := markInService_wq curTick entry c in Ok (false, c) else Ok (true, c).
End Ops.
End Cache.
