(* ===== verification/CacheLaws.v ===== *)
(** * The miss path of a cache: blocking

    The port to the processor is blocked exactly while a buffer is full or a register
    is recorded as having reached its limit of targets, and a retry that is owed is
    scheduled when it is not blocked. Every operation of the cache keeps this. *)

From S2P Require Import Prelude Bits Packet CacheQueue Mshr MshrOps MshrLists MshrMarks MshrInv MshrSteps MshrService MshrResp MshrQueues MshrAlloc MshrWorld WriteQueue CacheCtl.
Import Cache.

(** ** Blocking *)
(** A retry is scheduled exactly when one is owed and the port is not blocked. *)
Definition port_ok (p : CacheResponsePort.t) : Prop :=
  is_Some (CacheResponsePort.sendRetryEvent p) <-> CacheResponsePort.mustSendRetry p = true /\ CacheResponsePort.blocked p = false.

(** The causes for which the cache is blocked. *)
Definition cause_holds (c : Cache.t) (x : BlockedCause) : Prop :=
  match x with
  | Blocked_NoMSHRs => Queue.isFull (mshrQueue c) = true
  | Blocked_NoWBBuffers => Queue.isFull (writeBuffer c) = true
  | Blocked_NoTargets => is_Some (noTargetMSHR c)
  end.

(** The mask, with the causes [S] in place of those that hold. *)
Record mask_ok (S : BlockedCause -> Prop) (c : Cache.t) : Prop := {
  mk_range : 0 <= blocked c < 8;
  mk_bits : forall x, Z.testbit (blocked c) (cause_bit x) = true <-> S x;
  mk_port : CacheResponsePort.blocked (cpuSidePort c) = isBlocked c;
  mk_retry : port_ok (cpuSidePort c);
}.
Definition blocked_ok (c : Cache.t) : Prop := mask_ok (cause_holds c) c.

Lemma mask_ext S S' c : (forall x, S x <-> S' x) -> mask_ok S c -> mask_ok S' c.
Proof. intros H [? Hb ? ?]. split; try done. intros x. by rewrite Hb. Qed.

Lemma mask_same S c c' : blocked c' = blocked c -> cpuSidePort c' = cpuSidePort c -> mask_ok S c -> mask_ok S c'.
Proof. intros E1 E2 [H1 H2 H3 H4]. unfold isBlocked in *. split; unfold isBlocked; by rewrite ?E1, ?E2. Qed.

(** A mask of three bits by cases. *)
Lemma mask_cases b : 0 <= b < 8 -> b = 0 \/ b = 1 \/ b = 2 \/ b = 3 \/ b = 4 \/ b = 5 \/ b = 6 \/ b = 7.
Proof. lia. Qed.

Lemma mask_set b x : 0 <= b < 8 -> 0 <= Z.lor b (uw 8 (Z.shiftl 1 (cause_bit x))) < 8 /\ Z.lor b (uw 8 (Z.shiftl 1 (cause_bit x))) <> 0 /\
  forall y, Z.testbit (Z.lor b (uw 8 (Z.shiftl 1 (cause_bit x)))) (cause_bit y) = true <-> y = x \/ Z.testbit b (cause_bit y) = true.
Proof.
  intros Hb. apply mask_cases in Hb. destruct Hb as [->|[->|[->|[->|[->|[->|[->| ->]]]]]]], x; (split; [vm_compute; done|]; split; [by vm_compute|]);
    intros y; destruct y; vm_compute; naive_solver.
Qed.

Lemma mask_clear b x : 0 <= b < 8 -> 0 <= Z.land b (unot 8 (uw 8 (Z.shiftl 1 (cause_bit x)))) < 8 /\
  forall y, Z.testbit (Z.land b (unot 8 (uw 8 (Z.shiftl 1 (cause_bit x))))) (cause_bit y) = true <-> y <> x /\ Z.testbit b (cause_bit y) = true.
Proof.
  intros Hb. apply mask_cases in Hb. destruct Hb as [->|[->|[->|[->|[->|[->|[->| ->]]]]]]], x; (split; [vm_compute; done|]);
    intros y; destruct y; vm_compute; naive_solver.
Qed.

Lemma no_bits b : 0 <= b < 8 -> (forall x, Z.testbit b (cause_bit x) = false) -> b = 0.
Proof.
  intros Hb H. pose proof (H Blocked_NoMSHRs) as H0. pose proof (H Blocked_NoWBBuffers) as H1. pose proof (H Blocked_NoTargets) as H2.
  apply mask_cases in Hb. destruct Hb as [->|[->|[->|[->|[->|[->|[->| ->]]]]]]]; done.
Qed.

(** Only the mask and the port have changed. *)
Definition upto (c c' : Cache.t) : Prop := exists p b, c' = with_blocked p b c.

Lemma setBlocked_ok S x c : mask_ok S c -> exists c', setBlocked x c = Ok c' /\ mask_ok (fun y => y = x \/ S y) c' /\ upto c c'.
Proof.
  intros [Hr Hb Hp Ht]. unfold setBlocked. destruct (mask_set (blocked c) x Hr) as (Hr' & Hnz & Hb').
  assert (Hp' : exists p, (if blocked c =? 0 then CacheResponsePort.setBlocked (cpuSidePort c) else Ok (cpuSidePort c)) = Ok p /\
    CacheResponsePort.blocked p = true /\ port_ok p).
  { unfold isBlocked in Hp. destruct (blocked c =? 0) eqn:E; cbn in Hp; [|by eexists]. unfold CacheResponsePort.setBlocked. rewrite Hp. cbn [negb check rbind].
    unfold port_ok in *. rewrite Hp in Ht. destruct (CacheResponsePort.sendRetryEvent _) as [w|]; eexists; (split; [done|]; split; [done|]); cbn; split;
      try (by intros [? ?]); by intros [? ?]. }
  destruct Hp' as (p & -> & Hpb & Hpo). cbn [rbind]. eexists. split; [done|]. split; [|by eexists _, _]. split; cbn; try done.
  - intros y. by rewrite Hb', Hb.
  - unfold isBlocked. cbn. rewrite Hpb. symmetry. by apply negb_true_iff, Z.eqb_neq.
Qed.

Lemma clearBlocked_ok S t x c : mask_ok S c -> S x -> exists c', clearBlocked t x c = Ok c' /\ mask_ok (fun y => y <> x /\ S y) c' /\ upto c c'.
Proof.
  intros [Hr Hb Hp Ht] Hx. unfold clearBlocked. destruct (mask_clear (blocked c) x Hr) as (Hr' & Hb'). set (b := Z.land _ _) in *.
  assert (Hblk : CacheResponsePort.blocked (cpuSidePort c) = true).
  { rewrite Hp. unfold isBlocked. apply negb_true_iff, Z.eqb_neq. intros E. apply Hb in Hx. rewrite E in Hx. by destruct x. }
  assert (Hp' : exists p, (if b =? 0 then CacheResponsePort.clearBlocked t (cpuSidePort c) else Ok (cpuSidePort c)) = Ok p /\
    CacheResponsePort.blocked p = negb (b =? 0) /\ port_ok p).
  { destruct (b =? 0); [|by eexists]. unfold CacheResponsePort.clearBlocked. unfold port_ok in Ht. rewrite Hblk in *. cbn [check rbind].
    assert (He : CacheResponsePort.sendRetryEvent (cpuSidePort c) = None).
    { destruct (CacheResponsePort.sendRetryEvent _); [|done]. destruct (proj1 Ht ltac:(by eexists)). done. }
    rewrite He. destruct (CacheResponsePort.mustSendRetry _); cbn; eexists; (split; [done|]; split; [done|]); unfold port_ok; cbn; split; try done;
      try (by intros [? ?]); by eexists. }
  destruct Hp' as (p & -> & Hpb & Hpo). cbn [rbind]. eexists. split; [done|]. split; [|by eexists _, _]. split; cbn; try done.
  intros y. by rewrite Hb', Hb.
Qed.

Section Settle.
Context (x : BlockedCause) (c c1 : Cache.t) (b b' : bool).
Context (Hok : blocked_ok c) (Hm : blocked c1 = blocked c) (Hp : cpuSidePort c1 = cpuSidePort c).
Context (Hoth : forall y, y <> x -> cause_holds c1 y <-> cause_holds c y).
Context (Hb : cause_holds c x <-> b = true) (Hb' : cause_holds c1 x <-> b' = true).

Lemma upto_holds c2 y : upto c1 c2 -> cause_holds c2 y <-> cause_holds c1 y.
Proof. intros (p & n & ->). by destruct y. Qed.

(** The cause [x] may have come: the cache is blocked for it. *)
Lemma settle_up : (b = true -> b' = true) ->
  exists c', (if b' then setBlocked x c1 else Ok c1) = Ok c' /\ blocked_ok c' /\ upto c1 c'.
Proof.
  intros Hup. pose proof (mask_same _ c c1 Hm Hp Hok) as H1. destruct b' eqn:E.
  - destruct (setBlocked_ok _ x c1 H1) as (c' & E' & M & U). exists c'. split; [done|]. split; [|done]. eapply mask_ext; [|exact M].
    intros y. cbn. rewrite (upto_holds c' y U). destruct (decide (y = x)) as [->|Hy]; [split; [intros _; by apply Hb'|by left]|].
    rewrite (Hoth y Hy). naive_solver.
  - exists c1. split; [done|]. split; [|by exists (cpuSidePort c1), (blocked c1); destruct c1]. eapply mask_ext; [|exact H1].
    intros y. destruct (decide (y = x)) as [->|Hy]; [|by rewrite (Hoth y Hy)]. rewrite Hb, Hb'. destruct b; [by specialize (Hup eq_refl)|done].
Qed.

(** The cause [x] may have gone. *)
Lemma settle_down t : (b' = true -> b = true) ->
  exists c', (if b && negb b' then clearBlocked t x c1 else Ok c1) = Ok c' /\ blocked_ok c' /\ upto c1 c'.
Proof.
  intros Hdn. pose proof (mask_same _ c c1 Hm Hp Hok) as H1. destruct (b && negb b') eqn:E.
  - apply andb_prop in E as [E1 E2]. apply negb_true_iff in E2. destruct (clearBlocked_ok _ t x c1 H1 (proj2 Hb E1)) as (c' & E' & M & U).
    exists c'. split; [done|]. split; [|done]. eapply mask_ext; [|exact M]. intros y. cbn. rewrite (upto_holds c' y U).
    destruct (decide (y = x)) as [->|Hy]; [rewrite Hb'; split; [naive_solver|congruence]|]. rewrite (Hoth y Hy). naive_solver.
  - exists c1. split; [done|]. split; [|by exists (cpuSidePort c1), (blocked c1); destruct c1]. eapply mask_ext; [|exact H1].
    intros y. destruct (decide (y = x)) as [->|Hy]; [|by rewrite (Hoth y Hy)]. rewrite Hb, Hb'. destruct b, b'; done.
Qed.
End Settle.

(** ** The operations keep the blocking right *)

(** The cache with its write buffer; [wids] are the entries of that. *)
Record cache_inv (wids : list Z) (c : Cache.t) : Prop := {
  ci_blocked : blocked_ok c;
  ci_writes : wb_ok wids (entries c) (writeBuffer c);
}.

Definition same_size (q q' : Queue.t) : Prop := Queue.numEntries q' = Queue.numEntries q /\ Queue.numReserve q' = Queue.numReserve q.

Lemma isFull_le q q' : same_size q q' -> Queue.allocated q <= Queue.allocated q' -> Queue.isFull q = true -> Queue.isFull q' = true.
Proof. unfold same_size, Queue.isFull. intros [E1 E2] H. rewrite E1, E2, !Z.leb_le. lia. Qed.

Lemma inv_upto wids c1 c2 : upto c1 c2 -> blocked_ok c2 -> wb_ok wids (entries c1) (writeBuffer c1) -> cache_inv wids c2.
Proof. intros (p & b & ->) H1 H2. by split. Qed.

(** After an operation on the registers. *)
Lemma misses_up wids c s q' o : cache_inv wids c -> same_size (mshrQueue c) q' -> Queue.allocated (mshrQueue c) <= Queue.allocated q' ->
  let c1 := with_misses s q' (with_order o c) in
  exists c', (if Queue.isFull q' then setBlocked Blocked_NoMSHRs c1 else Ok c1) = Ok c' /\ cache_inv wids c' /\ upto c1 c'.
Proof.
  intros [Hb Hw] Hs Ha c1. destruct (settle_up Blocked_NoMSHRs c c1 (Queue.isFull (mshrQueue c)) (Queue.isFull q')) as (c' & E & B & U); try done.
  - intros y. by destruct y.
  - by apply isFull_le.
  - exists c'. split; [done|]. split; [|done]. by eapply inv_upto.
Qed.

Lemma misses_down wids c s q' t : cache_inv wids c -> same_size (mshrQueue c) q' -> Queue.allocated q' <= Queue.allocated (mshrQueue c) ->
  let c1 := with_misses s q' c in
  exists c', (if Queue.isFull (mshrQueue c) && negb (Queue.isFull q') then clearBlocked t Blocked_NoMSHRs c1 else Ok c1) = Ok c' /\ cache_inv wids c' /\ upto c1 c'.
Proof.
  intros [Hb Hw] Hs Ha c1. destruct (settle_down Blocked_NoMSHRs c c1 (Queue.isFull (mshrQueue c)) (Queue.isFull q')) with (t := t) as (c' & E & B & U); try done.
  - intros y. by destruct y.
  - apply isFull_le; [by destruct Hs|done].
  - exists c'. split; [done|]. split; [|done]. by eapply inv_upto.
Qed.

Lemma writes_up wids c h q' o : cache_inv wids c -> wb_ok wids h q' -> same_size (writeBuffer c) q' -> Queue.allocated (writeBuffer c) <= Queue.allocated q' ->
  let c1 := with_writes h q' (with_order o c) in
  exists c', (if Queue.isFull q' then setBlocked Blocked_NoWBBuffers c1 else Ok c1) = Ok c' /\ cache_inv wids c' /\ upto c1 c'.
Proof.
  intros [Hb Hw] Hw' Hs Ha c1. destruct (settle_up Blocked_NoWBBuffers c c1 (Queue.isFull (writeBuffer c)) (Queue.isFull q')) as (c' & E & B & U); try done.
  - intros y. by destruct y.
  - by apply isFull_le.
  - exists c'. split; [done|]. split; [|done]. by eapply inv_upto.
Qed.

Lemma writes_down wids c h q' t : cache_inv wids c -> wb_ok wids h q' -> same_size (writeBuffer c) q' -> Queue.allocated q' <= Queue.allocated (writeBuffer c) ->
  let c1 := with_writes h q' c in
  exists c', (if Queue.isFull (writeBuffer c) && negb (Queue.isFull q') then clearBlocked t Blocked_NoWBBuffers c1 else Ok c1) = Ok c' /\ cache_inv wids c' /\ upto c1 c'.
Proof.
  intros [Hb Hw] Hw' Hs Ha c1. destruct (settle_down Blocked_NoWBBuffers c c1 (Queue.isFull (writeBuffer c)) (Queue.isFull q')) with (t := t) as (c' & E & B & U); try done.
  - intros y. by destruct y.
  - apply isFull_le; [by destruct Hs|done].
  - exists c'. split; [done|]. split; [|done]. by eapply inv_upto.
Qed.

(** *** The sizes of the queue of registers *)
Lemma MSHR_allocate_size t a n pkt rt o af st q k st' q' : MSHRQueue.allocate t a n pkt rt o af st q = Ok (k, st', q') ->
  same_size q q' /\ Queue.allocated q' = Queue.allocated q + 1.
Proof.
  unfold MSHRQueue.allocate. destruct (Queue.freeList q); [done|]. intros H. apply bind_Ok_inv in H as (? & _ & H). apply bind_Ok_inv in H as ([] & _ & H).
  apply bind_Ok_inv in H as (? & _ & H). apply bind_Ok_inv in H as (? & _ & H). by injection H as <- <- <-.
Qed.

Lemma MSHR_deallocate_size k st q r : MSHRQueue.deallocate k st q = Ok r -> same_size q r.1.2 /\ Queue.allocated r.1.2 = Queue.allocated q - 1.
Proof.
  unfold MSHRQueue.deallocate. intros H. apply bind_Ok_inv in H as (r' & H1 & H). injection H as <-. unfold Queue.deallocate in H1.
  apply bind_Ok_inv in H1 as (? & _ & H1). apply bind_Ok_inv in H1 as (? & _ & H1). apply bind_Ok_inv in H1 as (? & _ & H1). apply bind_Ok_inv in H1 as (? & _ & H1).
  by injection H1 as <-.
Qed.

Lemma MSHR_send_size k b st q r : MSHRQueue.markInService k b st q = Ok r -> same_size q r.2 /\ Queue.allocated r.2 = Queue.allocated q.
Proof. unfold MSHRQueue.markInService. intros H. apply bind_Ok_inv in H as (? & _ & H). apply bind_Ok_inv in H as (? & _ & H). by injection H as <-. Qed.

Lemma MSHR_force_size t k st q r : MSHRQueue.forceDeallocateTarget t k st q = Ok r ->
  same_size q r.1.2 /\ Queue.allocated r.1.2 <= Queue.allocated q /\ r.1.1.1 = Queue.isFull q && negb (Queue.isFull r.1.2).
Proof.
  unfold MSHRQueue.forceDeallocateTarget. intros H. apply bind_Ok_inv in H as (m & _ & H). apply bind_Ok_inv in H as ([] & _ & H).
  apply bind_Ok_inv in H as (m' & _ & H). apply bind_Ok_inv in H as (r1 & H1 & H). injection H as <-. cbn.
  assert (Hs : same_size q r1.1.2 /\ Queue.allocated r1.1.2 <= Queue.allocated q); [|by destruct Hs].
  destruct (MSHR.hasTargets m'); [injection H1 as <-; done|]. apply bind_Ok_inv in H1 as (r2 & _ & H1). destruct r2.1; [injection H1 as <-; done|].
  apply MSHR_deallocate_size in H1 as [? ->]. split; [done|lia].
Qed.

Lemma MSHR_resp_size ro pkt bk la t k st q r : BaseCache.recvTimingResp ro pkt bk la t k st q = Ok r ->
  same_size q r.1.2 /\ Queue.allocated r.1.2 <= Queue.allocated q.
Proof.
  unfold BaseCache.recvTimingResp. intros H. do 8 apply bind_Ok_inv in H as (? & _ & H). destruct (_ : bool); [by injection H as <-|].
  apply bind_Ok_inv in H as (b & _ & H). destruct b.1.
  - apply bind_Ok_inv in H as (s & H1 & H). injection H as <-. unfold MSHRQueue.markPending in H1. apply bind_Ok_inv in H1 as (? & _ & H1).
    apply bind_Ok_inv in H1 as ([] & _ & H1). apply bind_Ok_inv in H1 as (? & _ & H1). by injection H1 as <-.
  - apply bind_Ok_inv in H as (s & H1 & H). injection H as <-. apply MSHR_deallocate_size in H1 as [? E]. cbn. split; [done|]. lia.
Qed.

(** *** The operations *)
Section Ops.
Context (pr : params) (uninit : Z -> list Z) (wids : list Z).
Implicit Types c : Cache.t.

Lemma cache_inv_frame c c' : cache_inv wids c -> blocked c' = blocked c -> cpuSidePort c' = cpuSidePort c -> mshrQueue c' = mshrQueue c ->
  writeBuffer c' = writeBuffer c -> entries c' = entries c -> noTargetMSHR c' = noTargetMSHR c -> cache_inv wids c'.
Proof.
  intros [Hb Hw] E1 E2 E3 E4 E5 E6. split; [|by rewrite E4, E5]. eapply mask_ext; [|by eapply mask_same].
  intros y. destruct y; cbn; by rewrite ?E3, ?E4, ?E6.
Qed.

Lemma allocateMissBuffer_inv t pkt time sched c k c' : cache_inv wids c -> allocateMissBuffer pr t pkt time sched c = Ok (k, c') -> cache_inv wids c'.
Proof.
  intros Hc H. unfold allocateMissBuffer in H. apply bind_Ok_inv in H as (p & _ & H). apply bind_Ok_inv in H as (a & _ & H).
  apply bind_Ok_inv in H as ([[k1 s] q] & H1 & H). apply MSHR_allocate_size in H1 as [Hs Ha].
  destruct (misses_up wids c s q (u64 (order c + 1)) Hc Hs ltac:(lia)) as (c1 & E & Hi & _). apply bind_Ok_inv in H as (c2 & H2 & H).
  change (mshrQueue (with_misses (k1, s, q).1.2 (k1, s, q).2 (with_order (u64 (order c + 1)) c))) with q in H2. cbn [fst snd] in H2.
  rewrite E in H2. injection H2 as <-. injection H as <- <-. destruct sched; [|done]. by eapply cache_inv_frame.
Qed.

Lemma allocateWriteBuffer_inv t pkt time pay c c' : cache_inv wids c -> allocateWriteBuffer pr t pkt time pay c = Ok c' -> cache_inv wids c'.
Proof.
  intros Hc H. unfold allocateWriteBuffer in H. apply bind_Ok_inv in H as (p & _ & H). apply bind_Ok_inv in H as ([] & _ & H).
  apply bind_Ok_inv in H as (a & _ & H). apply bind_Ok_inv in H as (sec & _ & H). apply bind_Ok_inv in H as (f & _ & H).
  apply bind_Ok_inv in H as ([[k h] q] & H1 & H).
  assert (Hs : same_size (writeBuffer c) q).
  { unfold WriteQueue.allocate in H1. destruct (Queue.freeList _); [done|]. do 4 apply bind_Ok_inv in H1 as (? & _ & H1). by injection H1 as <- <- <-. }
  destruct (wb_allocate_ok wids _ _ _ _ _ _ _ _ _ _ _ _ (ci_writes _ _ Hc) H1) as (Hw & _ & Ha & _).
  destruct (writes_up wids c h q (u64 (order c + 1)) Hc Hw Hs ltac:(lia)) as (c1 & E & Hi & _). apply bind_Ok_inv in H as (c2 & H2 & H).
  change (writeBuffer (with_writes (k, h, q).1.2 (k, h, q).2 (with_order (u64 (order c + 1)) c))) with q in H2. cbn [fst snd] in H2.
  rewrite E in H2. injection H2 as <-. injection H as <-. by eapply cache_inv_frame.
Qed.

(** Sending the request of a register: only the queue can fail. *)
Lemma markInService_mshr_inv t k b c r : cache_inv wids c -> MSHRQueue.markInService k b (st c) (mshrQueue c) = Ok r ->
  exists c', markInService_mshr t k b c = Ok c' /\ cache_inv wids c' /\ upto (with_misses r.1 r.2 c) c'.
Proof.
  intros Hc H. unfold markInService_mshr. rewrite H. cbn [rbind]. destruct (MSHR_send_size _ _ _ _ _ H) as [Hs Ha].
  apply misses_down; [done|done|lia].
Qed.

Lemma markInService_wq_inv t k c : cache_inv wids c -> k ∈ Queue.allocatedList (writeBuffer c) ->
  exists c', markInService_wq t k c = Ok c' /\ cache_inv wids c' /\ Queue.allocatedList (writeBuffer c) ≡ₚ k :: Queue.allocatedList (writeBuffer c').
Proof.
  intros Hc Hk. destruct (wb_send_ok wids (entries c) (writeBuffer c) k (ci_writes _ _ Hc) Hk) as (h & q & b & E & Hw & Hal & _ & Ha & _).
  unfold markInService_wq. rewrite E. cbn [rbind fst snd]. assert (Hs : same_size (writeBuffer c) q).
  { unfold WriteQueue.markInService in E. do 2 apply bind_Ok_inv in E as (? & _ & E). unfold Queue.deallocate in E.
    do 4 apply bind_Ok_inv in E as (? & _ & E). by injection E as <- <- <-. }
  destruct (writes_down wids c h q t Hc Hw Hs ltac:(lia)) as (c' & E' & Hi & (p & n & ->)). exists (with_blocked p n (with_writes h q c)). done.
Qed.

(** A response: blocking and clearing agree. *)
Lemma clearNoTargets_inv t k c c' : cache_inv wids c -> clearNoTargets t k c = Ok c' -> cache_inv wids c'.
Proof.
  unfold clearNoTargets. intros [Hb Hw] H. case_bool_decide as Hn; [|by injection H as <-].
  destruct (clearBlocked_ok _ t Blocked_NoTargets c Hb) as (c1 & E & M & (p & n & ->)); [by eexists|]. rewrite E in H. injection H as <-.
  split; [|done]. eapply mask_ext; [|eapply mask_same; [| |exact M]; done]. intros y. destruct y; cbn; naive_solver.
Qed.

(** Waking the port changes nothing else. *)
Lemma wake_same ce pd pf k c : exists ts, wake pr ce pd pf k c = mk (st c) (entries c) (mshrQueue c) (writeBuffer c) (cpuSidePort c) (order c) (blocked c) (noTargetMSHR c) (writeAllocator c) ts.
Proof. unfold wake. repeat case_bool_decide; [by eexists|exists (sends c); by destruct c|]. destruct pf; [destruct (_ && _); [by eexists|]|]; exists (sends c); by destruct c. Qed.

Lemma recvTimingResp_inv t ce pf mshr hd pd pkt bk c r : cache_inv wids c -> recvTimingResp pr t ce pf mshr hd pd pkt bk c = Ok r -> cache_inv wids r.2.
Proof.
  intros Hc H. unfold recvTimingResp in H. do 2 apply bind_Ok_inv in H as (? & _ & H). destruct (_ && _).
  - apply bind_Ok_inv in H as ([] & _ & H). by injection H as <-.
  - destruct mshr as [k|]; [|done]. apply bind_Ok_inv in H as (c1 & H1 & H). apply (clearNoTargets_inv _ _ _ _ Hc) in H1. cbv zeta in H.
    apply bind_Ok_inv in H as (y & H2 & H). apply MSHR_resp_size in H2 as [Hs Ha].
    destruct (misses_down wids c1 y.1.1.2 y.1.2 t H1 Hs Ha) as (c' & E & Hi & _). cbn [mshrQueue with_misses] in H. rewrite E in H. cbn [rbind] in H.
    injection H as <-. cbn [snd]. destruct (wake_same ce pd pf k c') as [ts ->]. by eapply cache_inv_frame.
Qed.

Lemma squashPrefetch_inv t k c c' : cache_inv wids c -> squashPrefetch t k c = Ok c' -> cache_inv wids c'.
Proof.
  intros Hc H. unfold squashPrefetch in H. apply bind_Ok_inv in H as (r & H1 & H). apply MSHR_force_size in H1 as (Hs & Ha & E).
  rewrite E in H. destruct (misses_down wids c r.1.1.2 r.1.2 t Hc Hs Ha) as (c1 & E' & Hi & _). rewrite E' in H. by injection H as <-.
Qed.

(** A register that gets as many targets as it may have. *)
Lemma no_targets_inv c m : cache_inv wids c -> exists c', setBlocked Blocked_NoTargets (with_noTarget (Some m) c) = Ok c' /\ cache_inv wids c'.
Proof.
  intros [Hb Hw]. destruct (setBlocked_ok _ Blocked_NoTargets (with_noTarget (Some m) c) (mask_same _ c (with_noTarget (Some m) c) eq_refl eq_refl Hb)) as (c' & E & M & (p & n & ->)).
  eexists. split; [done|]. split; [|done]. eapply mask_ext; [|exact M]. intros y. destruct y; cbn; naive_solver eauto.
Qed.

Lemma handleTimingReqMiss_inv t pkt mshr blk ft pay c r : cache_inv wids c -> handleTimingReqMiss pr uninit t pkt mshr blk ft pay c = Ok r -> cache_inv wids r.2.
Proof.
  intros Hc H. unfold handleTimingReqMiss in H. apply bind_Ok_inv in H as (c1 & H1 & H).
  assert (Hc1 : cache_inv wids c1).
  { destruct (writeAllocator c), pkt; try (by injection H1 as <-). apply bind_Ok_inv in H1 as (p & _ & H1). destruct (_ && _); [|by injection H1 as <-].
    do 3 apply bind_Ok_inv in H1 as (? & _ & H1). injection H1 as <-. by eapply cache_inv_frame. }
  clear Hc H1 c. rename c1 into c, Hc1 into Hc. destruct mshr as [m|], pkt as [i|]; [|by injection H as <-| |done].
  - apply bind_Ok_inv in H as (p & _ & H). apply bind_Ok_inv in H as ([] & _ & H).
    assert (Hco : forall af, (let! s := MSHROps.allocateTarget uninit t m i ft (order c) af (st c) in
        let c := with_misses s (mshrQueue c) (with_order (u64 (order c + 1)) c) in
        let! r := MSHROps.get (st c) m in
        let! c := (if numTarget pr <=? Z.of_nat (MSHR.getNumTargets r) then setBlocked Blocked_NoTargets (with_noTarget (Some m) c) else Ok c) in
        Ok (blk, c)) = Ok r -> cache_inv wids r.2).
    { intros af H1. apply bind_Ok_inv in H1 as (s & _ & H1). cbv zeta in H1. apply bind_Ok_inv in H1 as (x & _ & H1). apply bind_Ok_inv in H1 as (c1 & H2 & H1).
      injection H1 as <-. cbn [snd]. set (c0 := with_misses s (mshrQueue c) (with_order (u64 (order c + 1)) c)) in *.
      assert (Hc0 : cache_inv wids c0) by (by eapply cache_inv_frame). destruct (_ <=? _); [|by injection H2 as <-].
      destruct (no_targets_inv c0 m Hc0) as (c2 & E & Hi). rewrite E in H2. by injection H2 as <-. }
    destruct (Packet.cmd (pk p)); try (by eapply Hco); [apply bind_Ok_inv in H as (c1 & H1 & H); injection H as <-; by eapply allocateWriteBuffer_inv|by injection H as <-].
  - apply bind_Ok_inv in H as (p & _ & H). destruct (_ || _).
    + apply bind_Ok_inv in H as (c1 & H1 & H). injection H as <-. by eapply allocateWriteBuffer_inv.
    + apply bind_Ok_inv in H as (b & _ & H). apply bind_Ok_inv in H as ([k c1] & H1 & H). injection H as <-. by eapply allocateMissBuffer_inv.
Qed.

Lemma Cache_miss_inv t pkt blk ft pay c r : cache_inv wids c -> Cache_handleTimingReqMiss pr uninit t pkt blk ft pay c = Ok r -> cache_inv wids r.2.
Proof.
  intros Hc H. unfold Cache_handleTimingReqMiss in H. apply bind_Ok_inv in H as (p & _ & H). apply bind_Ok_inv in H as ([] & _ & H).
  destruct (Request.isUncacheable _).
  - apply bind_Ok_inv in H as ([] & _ & H). destruct (MemCmd.isWrite _); [apply bind_Ok_inv in H as (c1 & H1 & H); injection H as <-; by eapply allocateWriteBuffer_inv|].
    apply bind_Ok_inv in H as ([] & _ & H). apply bind_Ok_inv in H as ([k c1] & H1 & H). injection H as <-. by eapply allocateMissBuffer_inv.
  - apply bind_Ok_inv in H as (a & _ & H). apply bind_Ok_inv in H as (sec & _ & H). apply bind_Ok_inv in H as (m & _ & H).
    destruct (MemCmd.testCmdAttrib _ _); [|by eapply handleTimingReqMiss_inv]. apply bind_Ok_inv in H as ([] & _ & H).
    destruct (Request._paddr _); [|done]. destruct (Request._size _); [|done]. apply bind_Ok_inv in H as (r1 & _ & H). apply bind_Ok_inv in H as (s & _ & H).
    eapply handleTimingReqMiss_inv; [|exact H]. by eapply cache_inv_frame.
Qed.

Lemma getNext_inv t pf hit c r : cache_inv wids c -> getNextQueueEntry pr t pf hit c = Ok r -> cache_inv wids r.2.
Proof.
  intros Hc H. unfold getNextQueueEntry in H. apply bind_Ok_inv in H as (n & _ & H). destruct n; [by injection H as <-|]. destruct pf; [|by injection H as <-].
  destruct (_ && _); [|by injection H as <-]. do 3 apply bind_Ok_inv in H as (? & _ & H). destruct hit; [by injection H as <-|].
  apply bind_Ok_inv in H as (m & _ & H). destruct (bool_decide _); [by injection H as <-|]. apply bind_Ok_inv in H as (w & _ & H).
  destruct (bool_decide _); [by injection H as <-|]. apply bind_Ok_inv in H as ([k c1] & H1 & H). injection H as <-. by eapply allocateMissBuffer_inv.
Qed.

Lemma sendMSHR_inv t clk k blk acc c r : cache_inv wids c -> sendMSHRQueuePacket pr uninit t clk k blk acc c = Ok r -> cache_inv wids r.2.
Proof.
  intros Hc H. unfold sendMSHRQueuePacket in H. do 3 apply bind_Ok_inv in H as (? & _ & H). apply bind_Ok_inv in H as ([d c1] & H1 & H). cbn [fst snd] in H.
  assert (Hc1 : cache_inv wids c1).
  { destruct (writeAllocator c) as [w|]; [|by injection H1 as <- <-]. destruct (_ && _); [|by injection H1 as <- <-].
    destruct (negb _); [|injection H1 as <- <-; by eapply cache_inv_frame]. destruct (WriteAllocator.delay _ w) as [wait w'].
    destruct wait; [|injection H1 as <- <-; by eapply cache_inv_frame]. apply bind_Ok_inv in H1 as (n & _ & H1). destruct (n =? 0); [done|]. injection H1 as <- <-. by eapply cache_inv_frame. }
  destruct d as [ticks|].
  - apply bind_Ok_inv in H as ([s q] & H2 & H). injection H as <-. cbn. pose proof H2 as H3. apply MshrAlloc.delay_stays in H3 as (_ & _ & m & _ & _ & _ & ->).
    destruct Hc1 as [Hb Hw]. split; [|done]. eapply mask_ext; [|by eapply (mask_same _ c1); [| |exact Hb]]. by intros [].
  - apply bind_Ok_inv in H as (pkt & _ & H). cbv zeta in H. apply bind_Ok_inv in H as (p & _ & H). apply bind_Ok_inv in H as (q & _ & H).
    destruct (acc _) as [q'|]; [|injection H as <-; by eapply cache_inv_frame]. apply bind_Ok_inv in H as (c2 & H2 & H). injection H as <-. cbn.
    set (c0 := with_misses _ _ c1) in *. assert (Hc0 : cache_inv wids c0) by (by eapply cache_inv_frame).
    unfold markInService_mshr in H2. apply bind_Ok_inv in H2 as (r & H3 & H2). destruct (markInService_mshr_inv t k _ c0 r Hc0 H3) as (c3 & E & Hi & _).
    unfold markInService_mshr in E. rewrite H3 in E. cbn [rbind] in E. rewrite E in H2. by injection H2 as <-.
Qed.

Lemma sendWrite_inv t k acc c r : cache_inv wids c -> k ∈ Queue.allocatedList (writeBuffer c) -> sendWriteQueuePacket t k acc c = Ok r -> cache_inv wids r.2.
Proof.
  intros Hc Hk H. unfold sendWriteQueuePacket in H. do 2 apply bind_Ok_inv in H as (? & _ & H). destruct acc; [|by injection H as <-].
  destruct (markInService_wq_inv t k c Hc Hk) as (c' & E & Hi & _). rewrite E in H. by injection H as <-.
Qed.

Lemma inv_sent c s q : cache_inv wids c -> same_size (mshrQueue c) q -> Queue.allocated q = Queue.allocated (mshrQueue c) -> cache_inv wids (with_misses s q c).
Proof.
  intros [Hb Hw] [E1 E2] E3. split; [|done]. eapply mask_ext; [|by eapply (mask_same _ c); [| |exact Hb]]. intros []; cbn; try done. unfold Queue.isFull. by rewrite E1, E2, E3.
Qed.

Lemma handleTimingReqHit_inv t ce pf pkt blk bk c r : cache_inv wids c -> handleTimingReqHit pr t ce pf pkt blk bk c = Ok r -> cache_inv wids r.2.
Proof.
  intros Hc H. unfold handleTimingReqHit in H. apply bind_Ok_inv in H as (p & _ & H). destruct (MemCmd.testCmdAttrib _ _); [|by injection H as <-].
  do 3 apply bind_Ok_inv in H as (? & _ & H). destruct (MemCmd.isRead _).
  - apply bind_Ok_inv in H as ([] & _ & H). apply bind_Ok_inv in H as (p2 & _ & H). destruct (MSHROps.alloc_pkt _ _ _) as [i s].
    apply bind_Ok_inv in H as ([k c1] & H1 & H). cbn [fst snd] in H. apply allocateMissBuffer_inv in H1; [|by eapply cache_inv_frame].
    apply bind_Ok_inv in H as (y & H2 & H). apply MSHR_send_size in H2 as [Hs Ha]. destruct blk; [|done]. injection H as <-. by apply inv_sent.
  - apply bind_Ok_inv in H as ([] & _ & H). destruct (_ : option Z) as [k|]; [|done]. apply bind_Ok_inv in H as (? & _ & H).
    apply bind_Ok_inv in H as (r1 & H1 & H). injection H as <-. cbn. by eapply recvTimingResp_inv.
Qed.

Lemma Cache_hit_inv t ce pf pkt blk bk c r : cache_inv wids c -> Cache_handleTimingReqHit pr t ce pf pkt blk bk c = Ok r -> cache_inv wids r.2.
Proof. intros Hc H. unfold Cache_handleTimingReqHit in H. do 2 apply bind_Ok_inv in H as (? & _ & H). by eapply handleTimingReqHit_inv. Qed.

Lemma doWritebacks_inv t ft above pay l : forall c c', cache_inv wids c -> doWritebacks pr t ft above pay l c = Ok c' -> cache_inv wids c'.
Proof.
  induction l as [|i l IH]; intros c c' Hc H; cbn [doWritebacks] in H; [by injection H as <-|]. apply bind_Ok_inv in H as (p & _ & H). apply bind_Ok_inv in H as (c1 & H1 & H).
  eapply IH; [|exact H]. destruct (above p); [|by eapply allocateWriteBuffer_inv].
  destruct (Packet.cmd (pk p)); try (by injection H1 as <-); apply bind_Ok_inv in H1 as ([] & _ & H1); try (by injection H1 as <-);
    (eapply allocateWriteBuffer_inv; [|exact H1]; by eapply cache_inv_frame).
Qed.
End Ops.
