(* ===== verification/CacheWorld.v ===== *)
(** * A cache with its registers and buffers among other caches

    The controller of one cache drives its registers; the other caches and the rest of
    the system act on their own. Every operation of the controller is a sequence of
    steps of the registers, so that what holds of those holds here. *)

From S2P Require Import Prelude Bits Packet CacheQueue Mshr MshrOps MshrLists MshrMarks MshrInv MshrSteps MshrService MshrResp MshrQueues MshrAlloc MshrWorld MshrTheorems WriteQueue CacheCtl CacheLaws.
Import MSHROps Cache.

(** The cache, and the queues of the others. *)
Record cworld := mkCW { cw_cache : Cache.t; cw_rest : gmap Z Queue.t }.

Lemma setBlocked_upto x c c' : setBlocked x c = Ok c' -> upto c c'.
Proof. unfold setBlocked. intros H. apply bind_Ok_inv in H as (p & _ & H). injection H as <-. by eexists _, _. Qed.

Lemma clearBlocked_upto t x c c' : clearBlocked t x c = Ok c' -> upto c c'.
Proof. unfold clearBlocked. intros H. apply bind_Ok_inv in H as (p & _ & H). injection H as <-. by eexists _, _. Qed.

Lemma upto_refl c : upto c c.
Proof. exists (cpuSidePort c), (blocked c). by destruct c. Qed.

Lemma set_if_upto (b : bool) x c c' : (if b then setBlocked x c else Ok c) = Ok c' -> upto c c'.
Proof. destruct b; [apply setBlocked_upto|]. intros [= <-]. apply upto_refl. Qed.

Lemma clear_if_upto (b : bool) t x c c' : (if b then clearBlocked t x c else Ok c) = Ok c' -> upto c c'.
Proof. destruct b; [apply clearBlocked_upto|]. intros [= <-]. apply upto_refl. Qed.

Lemma findMatch_in {E} `{QueueEntry E} h (q : Queue.t) a s i k : Queue.findMatch h q a s i = Ok (Some k) -> k ∈ Queue.allocatedList q.
Proof.
  unfold Queue.findMatch. induction (Queue.allocatedList q) as [|j l IH]; cbn; [done|]. intros H0. apply bind_Ok_inv in H0 as (e & _ & H0).
  destruct (_ && _) in H0; [right; by apply IH|]. apply bind_Ok_inv in H0 as (b & _ & H0). destruct b; [injection H0 as ->; left|right; by apply IH].
Qed.

Lemma MSHR_allocate_in t a n pkt rt o af s q k s' q' : MSHRQueue.allocate t a n pkt rt o af s q = Ok (k, s', q') -> k ∈ Queue.allocatedList q'.
Proof.
  unfold MSHRQueue.allocate. destruct (Queue.freeList q); [done|]. intros H. do 4 apply bind_Ok_inv in H as (? & _ & H). injection H as -> -> <-. cbn. set_solver.
Qed.

(** ** What the operations do to the registers *)
Section Effects.
Context (pr : params) (uninit : Z -> list Z).

Lemma allocateMissBuffer_miss t pkt time sched c k c' : allocateMissBuffer pr t pkt time sched c = Ok (k, c') ->
  exists p a af, get_pkt (st c) pkt = Ok p /\ Packet.getBlockAddr (blkSize pr) (pk p) = Ok a /\
    MSHRQueue.allocate t a (blkSize pr) pkt time (order c) af (st c) (mshrQueue c) = Ok (k, st c', mshrQueue c').
Proof.
  intros H. unfold allocateMissBuffer in H. apply bind_Ok_inv in H as (p & Hp & H). apply bind_Ok_inv in H as (a & Ha & H).
  apply bind_Ok_inv in H as ([[k1 s] q] & H1 & H). apply bind_Ok_inv in H as (c1 & H2 & H). apply set_if_upto in H2 as (x & b & ->). injection H as <- <-.
  exists p, a, (allocOnFill pr (Packet.cmd (pk p))). split; [done|]. split; [done|]. by destruct sched.
Qed.

Lemma allocateWriteBuffer_keeps t pkt time pay c c' : allocateWriteBuffer pr t pkt time pay c = Ok c' -> st c' = st c /\ mshrQueue c' = mshrQueue c.
Proof.
  intros H. unfold allocateWriteBuffer in H. do 6 apply bind_Ok_inv in H as (? & _ & H). apply bind_Ok_inv in H as (c1 & H2 & H).
  apply set_if_upto in H2 as (x' & b & ->). by injection H as <-.
Qed.

Lemma markInService_mshr_miss t k b c c' : markInService_mshr t k b c = Ok c' -> MSHRQueue.markInService k b (st c) (mshrQueue c) = Ok (st c', mshrQueue c').
Proof. unfold markInService_mshr. intros H. apply bind_Ok_inv in H as ([s q] & H1 & H). apply clear_if_upto in H as (x & n & ->). done. Qed.

Lemma markInService_wq_keeps t k c c' : markInService_wq t k c = Ok c' -> st c' = st c /\ mshrQueue c' = mshrQueue c.
Proof. unfold markInService_wq. intros H. apply bind_Ok_inv in H as (r & H1 & H). apply clear_if_upto in H as (x & n & ->). done. Qed.

Lemma recvTimingResp_miss t ce pf mshr hd pd pkt bk c r : recvTimingResp pr t ce pf mshr hd pd pkt bk c = Ok r ->
  (st r.2 = st c /\ mshrQueue r.2 = mshrQueue c) \/
  exists k ready b la d, mshr = Some k /\ BaseCache.recvTimingResp (isReadOnly pr) pkt bk la t k (st c) (mshrQueue c) = Ok (ready, b, st r.2, mshrQueue r.2, d).
Proof.
  unfold recvTimingResp. intros H. do 2 apply bind_Ok_inv in H as (? & _ & H). destruct (_ && _); [left; apply bind_Ok_inv in H as ([] & _ & H); by injection H as <-|right].
  destruct mshr as [k|]; [|done]. apply bind_Ok_inv in H as (c1 & H1 & H).
  assert (E : st c1 = st c /\ mshrQueue c1 = mshrQueue c).
  { unfold clearNoTargets in H1. destruct (bool_decide _); [|by injection H1 as <-]. apply bind_Ok_inv in H1 as (c2 & H2 & H1). apply clearBlocked_upto in H2 as (x1 & n & ->). by injection H1 as <-. }
  destruct E as [E1 E2]. cbv zeta in H. rewrite E1, E2 in H. apply bind_Ok_inv in H as ([[[[l1 b] s] q] d] & H2 & H). apply bind_Ok_inv in H as (c2 & H3 & H).
  apply clear_if_upto in H3 as (x1 & n & ->). injection H as <-. exists k, l1, b. eexists _, d. split; [done|].
  cbn [snd]. edestruct wake_same as [ts ->]. exact H2.
Qed.

Lemma squashPrefetch_miss t k c c' : squashPrefetch t k c = Ok c' ->
  exists b d, MSHRQueue.forceDeallocateTarget t k (st c) (mshrQueue c) = Ok (b, st c', mshrQueue c', d).
Proof.
  unfold squashPrefetch. intros H. apply bind_Ok_inv in H as ([[[b s] q] d] & H1 & H). apply clear_if_upto in H as (x & n & ->). by exists b, d.
Qed.
End Effects.

(** ** The controller drives the registers *)
Section Drive.
Context (pr : params) (uninit : Z -> list Z) (cid : Z) (qs : gmap Z Queue.t).
Abbreviation rsteps := (rtc (step (blkSize pr) uninit)).

Definition view (qs : gmap Z Queue.t) (c : Cache.t) : world := mkW (st c) (<[cid := mshrQueue c]> qs).

Lemma view_q c : w_q (view qs c) !! cid = Some (mshrQueue c).
Proof. apply lookup_insert_eq. Qed.

Lemma view_eq c c' : st c' = st c -> mshrQueue c' = mshrQueue c -> view qs c' = view qs c.
Proof. unfold view. by intros -> ->. Qed.

Lemma view_with c s q c' : st c' = s -> mshrQueue c' = q -> with_cache cid s q (view qs c) = view qs c'.
Proof. intros <- <-. unfold with_cache, view. cbn. by rewrite insert_insert_eq. Qed.

(** No register in use has the packet as a target. *)
Definition unheld (w : world) (i : Z) : Prop :=
  forall k m x, in_use w k -> mshrs (w_st w) !! k = Some m -> x ∈ all_targets m -> Target.pkt x <> i.

Lemma held_exists ids A w k m x : world_inv (blkSize pr) ids A w -> in_use w k -> mshrs (w_st w) !! k = Some m -> x ∈ all_targets m ->
  is_Some (packets (w_st w) !! Target.pkt x).
Proof.
  intros Hw Hk Hm Hx. destruct (so_mshr _ _ (wi_store _ _ _ _ Hw) k m (inv_in _ _ _ _ _ Hw Hk) Hm) as [Hc _ _ _].
  assert (H : exists p, pkt_of (packets (w_st w)) x = Some p).
  { apply elem_of_app in Hx as [Hx|Hx]; [destruct (lo_fits _ _ (mo_targets _ _ Hc) x Hx) as (p & Hp & _)|destruct (lo_fits _ _ (mo_deferred _ _ Hc) x Hx) as (p & Hp & _)]; by exists p. }
  destruct H as (p & Hp). unfold pkt_of in Hp. destruct (packets (w_st w) !! Target.pkt x); [by eexists|done].
Qed.

(** New packets, and changes to packets that no register holds. *)
Lemma step_new ids A c i o : world_inv (blkSize pr) ids A (view qs c) -> packets (st c) !! i = None ->
  step (blkSize pr) uninit (view qs c) (view qs (with_misses (mkStore (<[i := o]> (packets (st c))) (mshrs (st c))) (mshrQueue c) c)).
Proof.
  intros Hw Hi. apply step_packets. intros k m x Hk Hm Hx. cbn. apply lookup_insert_ne. intros ->.
  destruct (held_exists ids A _ k m x Hw Hk Hm Hx) as [o' Ho]. cbn in Ho. congruence.
Qed.

Lemma step_unheld c i o : unheld (view qs c) i ->
  step (blkSize pr) uninit (view qs c) (view qs (with_misses (mkStore (<[i := o]> (packets (st c))) (mshrs (st c))) (mshrQueue c) c)).
Proof. intros Hu. apply step_packets. intros k m x Hk Hm Hx. cbn. apply lookup_insert_ne. intros E. by eapply (Hu k m x). Qed.

(** No register of the cache has the block of the packet, unless it is not cached. *)
Definition unmatched (c : Cache.t) (p : pobj) : Prop :=
  Request.isUncacheable (Packet.req (pk p)) = true \/
  forall a s, Packet.getBlockAddr (blkSize pr) (pk p) = Ok a -> Packet.isSecure (pk p) = Ok s -> Queue.findMatch (mshrs (st c)) (mshrQueue c) a s true = Ok None.

Lemma fits_secure n p : fits n p -> exists s, Packet.isSecure p = Ok s.
Proof. intros (_ & H & _). unfold Packet.isSecure. rewrite H. by eexists. Qed.

Lemma miss_step t pkt p time sched c k c' : packets (st c) !! pkt = Some p -> sendable (blkSize pr) (view qs c) p -> unmatched c p ->
  allocateMissBuffer pr t pkt time sched c = Ok (k, c') -> step (blkSize pr) uninit (view qs c) (view qs c').
Proof.
  intros Hp Hs Hu H. pose proof Hs as [[ba Hin] _]. apply allocateMissBuffer_miss in H as (p' & a & af & Hp' & Ha & H). unfold get_pkt, TargetList.get_pkt in Hp'. rewrite Hp in Hp'. injection Hp' as <-.
  destruct (fits_secure _ _ (proj1 Hin)) as [s Hsec]. rewrite <- (view_with c (st c') (mshrQueue c') c') by done.
  eapply (step_allocate _ _ (view qs c) cid (mshrQueue c) t pkt p a s); try done; [apply view_q|].
  destruct Hu as [Hu|Hu]; [by left|right; by apply Hu].
Qed.

(** The register of the block of the packet. *)
Definition matched (c : Cache.t) (p : pobj) (m : Z) : Prop := exists a s, Packet.getBlockAddr (blkSize pr) (pk p) = Ok a /\ Packet.isSecure (pk p) = Ok s /\
  Queue.findMatch (mshrs (st c)) (mshrQueue c) a s true = Ok (Some m).

Lemma target_step t m pkt p ft o af s c c' : packets (st c) !! pkt = Some p -> sendable (blkSize pr) (view qs c) p -> matched c p m ->
  allocateTarget uninit t m pkt ft o af (st c) = Ok s -> st c' = s -> mshrQueue c' = mshrQueue c -> step (blkSize pr) uninit (view qs c) (view qs c').
Proof.
  intros Hp Hs (a & sec & Ha & Hsec & Hm) H E1 E2. assert (E : view qs c' = mkW s (w_q (view qs c))) by (unfold view; by rewrite E1, E2). rewrite E.
  by eapply (step_target _ _ (view qs c) cid (mshrQueue c)); [apply view_q|..|exact H].
Qed.

Lemma handleTimingReqMiss_steps t pkt mshr blk ft pay c r : handleTimingReqMiss pr uninit t pkt mshr blk ft pay c = Ok r ->
  (forall i, pkt = Some i -> exists p, packets (st c) !! i = Some p /\ sendable (blkSize pr) (view qs c) p /\ (mshr = None -> unmatched c p) /\
     (forall m, mshr = Some m -> matched c p m)) ->
  rsteps (view qs c) (view qs r.2).
Proof.
  intros H Hp. unfold handleTimingReqMiss in H. apply bind_Ok_inv in H as (c1 & H1 & H).
  assert (Hc1 : st c1 = st c /\ mshrQueue c1 = mshrQueue c).
  { destruct (writeAllocator c), pkt; try (by injection H1 as <-). apply bind_Ok_inv in H1 as (p & _ & H1). destruct (_ && _); [|by injection H1 as <-].
    do 3 apply bind_Ok_inv in H1 as (? & _ & H1). by injection H1 as <-. }
  clear H1. destruct Hc1 as [E1 E2]. rewrite <- (view_eq c c1) in * by done. unfold unmatched, matched in Hp. rewrite <- E1, <- E2 in Hp. clear E1 E2 c. rename c1 into c.
  destruct mshr as [m|], pkt as [i|]; [|by injection H as <-| |done]; destruct (Hp i eq_refl) as (p & Hi & Hs & Hu & Hm);
    apply bind_Ok_inv in H as (p' & Hp' & H); unfold get_pkt, TargetList.get_pkt in Hp'; rewrite Hi in Hp'; injection Hp' as <-.
  - apply bind_Ok_inv in H as ([] & _ & H).
    assert (Hco : forall af, (let! s := allocateTarget uninit t m i ft (order c) af (st c) in
        let c := with_misses s (mshrQueue c) (with_order (u64 (order c + 1)) c) in
        let! r := get (st c) m in
        let! c := (if numTarget pr <=? Z.of_nat (MSHR.getNumTargets r) then setBlocked Blocked_NoTargets (with_noTarget (Some m) c) else Ok c) in
        Ok (blk, c)) = Ok r -> rsteps (view qs c) (view qs r.2)).
    { intros af H1. apply bind_Ok_inv in H1 as (s & Hs1 & H1). cbv zeta in H1. apply bind_Ok_inv in H1 as (x & _ & H1). apply bind_Ok_inv in H1 as (c1 & H2 & H1).
      injection H1 as <-. apply rtc_once. assert (E : st c1 = s /\ mshrQueue c1 = mshrQueue c).
      { destruct (_ <=? _); [apply setBlocked_upto in H2 as (? & ? & ->); done|by injection H2 as <-]. }
      destruct E as [E1 E2]. eapply target_step; try done. by apply Hm. }
    destruct (Packet.cmd (pk p)); try (by eapply Hco); [|by injection H as <-]. apply bind_Ok_inv in H as (c1 & H1 & H). injection H as <-.
    apply allocateWriteBuffer_keeps in H1 as [E1 E2]. cbn. by rewrite (view_eq c c1).
  - destruct (_ || _).
    + apply bind_Ok_inv in H as (c1 & H1 & H). injection H as <-. apply allocateWriteBuffer_keeps in H1 as [E1 E2]. cbn. by rewrite (view_eq c c1).
    + apply bind_Ok_inv in H as (b & _ & H). apply bind_Ok_inv in H as ([k c1] & H1 & H). injection H as <-. apply rtc_once.
      eapply miss_step; [exact Hi|exact Hs|by apply Hu|exact H1].
Qed.

(** A packet for the request of a software prefetch, with the fields that matter. *)
Lemma prefetch_inside b p pf cmd paddr sz : inside b p -> MemCmd.isRequest cmd = true ->
  Request._paddr (Packet.req p) = Some paddr -> Request._size (Packet.req p) = Some sz ->
  Packet.new (Request.mk (Request._flags (Packet.req p)) [] (Some paddr) (Some sz)) cmd = Ok pf -> inside b pf.
Proof.
  intros ((_ & _ & _ & _ & _ & _ & Hh & a & s & Ha & Hs & Hr) & _ & Hb) Hc Ea Es H. rewrite Ha in Ea. injection Ea as ->. rewrite Hs in Es. injection Es as ->.
  destruct (inside_new b (Request.mk (Request._flags (Packet.req p)) [] (Some paddr) (Some sz)) cmd) as (p' & E & Hf & _); [done| | |].
  { split; [exact Hh|]. by exists paddr, sz. } { cbn. rewrite <- Ha. exact Hb. }
  rewrite E in H. by injection H as ->.
Qed.

Lemma inside_allocate b p p' : inside b p -> Packet.allocate uninit p = Ok p' -> inside b p'.
Proof. intros Hf H. eapply pkt_like_inside; [|exact Hf]. by eapply like_allocate. Qed.

Lemma makeResponse_put s i s' : upd_pkt Packet.makeResponse s i = Ok s' -> exists o, s' = mkStore (<[i := o]> (packets s)) (mshrs s).
Proof.
  unfold upd_pkt, put_pkt, get_pkt, TargetList.get_pkt. intros H. apply bind_Ok_inv in H as (p & Hp & H). destruct (packets s !! i); [|done].
  apply bind_Ok_inv in H as (p' & _ & H). injection H as <-. by eexists.
Qed.

(** The block of the packet is found again under the copy. *)
Lemma same_block (p p' : Packet.t) a s : Packet.getAddr p = Packet.getAddr p' -> Packet.isSecure p = Packet.isSecure p' ->
  Packet.getBlockAddr (blkSize pr) p = Ok a -> Packet.isSecure p = Ok s -> Packet.getBlockAddr (blkSize pr) p' = Ok a /\ Packet.isSecure p' = Ok s.
Proof. unfold Packet.getBlockAddr. by intros -> ->. Qed.

Lemma Cache_miss_steps ids A t pkt p blk ft pay c r : world_inv (blkSize pr) ids A (view qs c) -> packets (st c) !! pkt = Some p ->
  sendable (blkSize pr) (view qs c) p -> unheld (view qs c) pkt -> Cache_handleTimingReqMiss pr uninit t pkt blk ft pay c = Ok r ->
  rsteps (view qs c) (view qs r.2).
Proof.
  intros Hw Hp Hs Hh H. unfold Cache_handleTimingReqMiss in H. unfold get_pkt at 1, TargetList.get_pkt in H. rewrite Hp in H. cbn [rbind] in H.
  apply bind_Ok_inv in H as ([] & _ & H). destruct (Request.isUncacheable _) eqn:Eu.
  - apply bind_Ok_inv in H as ([] & _ & H). destruct (MemCmd.isWrite _).
    + apply bind_Ok_inv in H as (c1 & H1 & H). injection H as <-. apply allocateWriteBuffer_keeps in H1 as [E1 E2]. cbn. by rewrite (view_eq c c1).
    + apply bind_Ok_inv in H as ([] & _ & H). apply bind_Ok_inv in H as ([k c1] & H1 & H). injection H as <-. apply rtc_once.
      eapply miss_step; [exact Hp|exact Hs|by left|exact H1].
  - apply bind_Ok_inv in H as (a & Ha & H). apply bind_Ok_inv in H as (sec & Hsec & H). apply bind_Ok_inv in H as (m & Hm & H).
    destruct (MemCmd.testCmdAttrib _ _).
    + apply bind_Ok_inv in H as ([] & _ & H). destruct (Request._paddr _) as [paddr|] eqn:Epa; [|done]. destruct (Request._size _) as [sz|] eqn:Esz; [|done].
      apply bind_Ok_inv in H as ([o s] & H1 & H). apply bind_Ok_inv in H as (s' & H2 & H). cbn [fst snd] in *. apply makeResponse_put in H2 as (o' & ->).
      destruct m as [m|].
      * injection H1 as <- <-. eapply rtc_l; [by apply (step_unheld c pkt o')|]. eapply handleTimingReqMiss_steps; [exact H|done].
      * apply bind_Ok_inv in H1 as (pf0 & Hn & H1). apply bind_Ok_inv in H1 as (pf & Hal & H1). apply bind_Ok_inv in H1 as (pa & Hpa & H1).
        apply bind_Ok_inv in H1 as (fa & Hfa & H1). apply bind_Ok_inv in H1 as (fs & Hfs & H1). apply bind_Ok_inv in H1 as ([] & Hg & H1).
        apply check_Ok, andb_prop in Hg as [Hg1 Hg2]. apply Z.eqb_eq in Hg1. apply eqb_prop in Hg2. subst fa fs.
        do 3 apply bind_Ok_inv in H1 as (? & _ & H1). unfold alloc_pkt in H1. injection H1 as <- <-.
        pose proof (newPacket_fresh (st c)) as Hfr. assert (Hne : newPacket (st c) <> pkt) by (intros E; rewrite E in Hfr; congruence).
        eapply rtc_l; [by apply (step_new ids A c (newPacket (st c)) (mkP pf []))|]. set (c1 := with_misses _ _ c). eapply rtc_l.
        { apply (step_unheld c1 pkt o'). intros k m y Hk. by apply (Hh k m y). }
        eapply handleTimingReqMiss_steps; [exact H|]. intros i [= <-]. exists (mkP pf []). cbn. split; [rewrite lookup_insert_ne by done; apply lookup_insert_eq|].
        pose proof Hs as [[ba Hin] _]. assert (Hf0 : inside (ba, blkSize pr) pf0) by (eapply prefetch_inside; try done; apply Hin).
        split; [split; [exists ba; by eapply inside_allocate|done]|]. split; [|done]. intros _. right. intros a' s'. cbn. intros Ha' Hs'.
        destruct (same_block pf (pk p) a' s') as [E1 E2]; [congruence..|]. rewrite Ha in E1. rewrite Hsec in E2. injection E1 as ->. injection E2 as ->. done.
    + eapply handleTimingReqMiss_steps; [exact H|]. intros i [= <-]. exists p. split; [done|]. split; [done|]. split; [|intros k ->; by exists a, sec]. intros ->. right. intros a' s' Ha' Hs'. congruence.
Qed.

(** A packet with the address of its request. *)
Definition of_request (p : pobj) : Prop := forall q, Packet.new (Packet.req (pk p)) (Packet.cmd (pk p)) = Ok q ->
  Packet.getAddr q = Packet.getAddr (pk p) /\ Packet.isSecure q = Packet.isSecure (pk p).

(** The register of the block is that of the locked read that comes before the write. *)
Definition after_read (c : Cache.t) (p : pobj) : Prop := MemCmd.isRead (Packet.cmd (pk p)) = false ->
  forall a s k, Packet.getBlockAddr (blkSize pr) (pk p) = Ok a -> Packet.isSecure (pk p) = Ok s ->
    Queue.findMatch (mshrs (st c)) (mshrQueue c) a s true = Ok (Some k) ->
    exists m, mshrs (st c) !! k = Some m /\ MSHR.inService m = true /\ MSHR.downstreamPending m = false /\ locked_front (packets (st c)) m.

(** The register of a response is in service, and its request is not buffered below. *)
Definition answers (c : Cache.t) (mshr : option Z) (cmd : MemCmd.Command) : Prop := forall k, mshr = Some k -> exists m,
  k ∈ Queue.allocatedList (mshrQueue c) /\ mshrs (st c) !! k = Some m /\ MSHR.inService m = true /\ MSHR.downstreamPending m = false /\
  (cmd = MemCmd.LockedRMWWriteResp -> locked_front (packets (st c)) m).

Lemma respond_steps t ce pf mshr hd pd pkt bk c r : answers c mshr (Packet.cmd pkt) ->
  recvTimingResp pr t ce pf mshr hd pd pkt bk c = Ok r -> rsteps (view qs c) (view qs r.2).
Proof.
  intros Ha H. apply recvTimingResp_miss in H as [[E1 E2]|(k & ready & b & la & d & Hk & H)]; [by rewrite (view_eq c r.2)|].
  destruct (Ha k Hk) as (m & Hkq & Hm & Hi & Hd & Hl). apply rtc_once. rewrite <- (view_with c (st r.2) (mshrQueue r.2) r.2) by done.
  by eapply (step_respond _ _ (view qs c) cid (mshrQueue c) t k m); [apply view_q|..|exact H].
Qed.

Lemma handleTimingReqHit_steps ids A t ce pf pkt p blk bk c r : world_inv (blkSize pr) ids A (view qs c) -> packets (st c) !! pkt = Some p ->
  sendable (blkSize pr) (view qs c) p -> of_request p -> after_read c p ->
  handleTimingReqHit pr t ce pf pkt blk bk c = Ok r -> rsteps (view qs c) (view qs r.2).
Proof.
  intros Hw Hp Hs Ho Har H. unfold handleTimingReqHit in H. unfold get_pkt, TargetList.get_pkt in H. rewrite Hp in H. cbn [rbind] in H.
  destruct (MemCmd.testCmdAttrib _ _); [|by injection H as <-]. apply bind_Ok_inv in H as (a & Ha & H). apply bind_Ok_inv in H as (sec & Hsec & H).
  apply bind_Ok_inv in H as (m & Hm & H). destruct (MemCmd.isRead _) eqn:Er.
  - apply bind_Ok_inv in H as ([] & Hg & H). apply check_Ok, bool_decide_eq_true in Hg. subst m. apply bind_Ok_inv in H as (p2 & Hn & H).
    unfold alloc_pkt in H. apply bind_Ok_inv in H as ([k c1] & H1 & H). cbn [fst snd] in H. apply bind_Ok_inv in H as ([s q] & H2 & H).
    destruct blk as [b|]; [|done]. injection H as <-. cbn [fst snd].
    eapply rtc_l; [apply (step_new ids A c (newPacket (st c)) (mkP p2 [])); [done|apply newPacket_fresh]|]. set (c0 := with_misses _ _ c) in *.
    destruct (Ho p2 Hn) as [E1 E2]. pose proof Hs as [[ba Hin] _].
    destruct (inside_new (ba, blkSize pr) (Packet.req (pk p)) (Packet.cmd (pk p))) as (p2' & Hn' & Hf & _); [apply Hin..|].
    rewrite Hn in Hn'. injection Hn' as <-. eapply rtc_l.
    { apply (miss_step t (newPacket (st c)) (mkP p2 []) t true c0 k c1); [apply lookup_insert_eq|split; [by exists ba|done]| |exact H1].
      right. intros a' s' Ha' Hs'. destruct (same_block p2 (pk p) a' s' E1 E2 Ha' Hs') as [E3 E4]. rewrite Ha in E3. rewrite Hsec in E4. by injection E3 as ->; injection E4 as ->. }
    apply rtc_once. rewrite <- (view_with c1 s q (with_misses s q c1)) by done.
    eapply (step_send _ _ (view qs c1) cid (mshrQueue c1) k false); [apply view_q| |exact H2].
    apply allocateMissBuffer_miss in H1 as (? & ? & ? & _ & _ & H1). by eapply MSHR_allocate_in.
  - apply bind_Ok_inv in H as ([] & _ & H). destruct m as [k|]; [|done]. apply bind_Ok_inv in H as (rp & _ & H).
    apply bind_Ok_inv in H as (r1 & H1 & H). injection H as <-. destruct (Har Er a sec k Ha Hsec Hm) as (m & Hmk & Hi & Hd & Hl). cbn [snd].
    eapply respond_steps; [|exact H1]. intros k' [= <-]. exists m. split; [exact (findMatch_in _ _ _ _ _ _ Hm)|done].
Qed.

Lemma getNext_steps t pf hit c r : (forall i, pf = Some i -> exists p, packets (st c) !! i = Some p /\ sendable (blkSize pr) (view qs c) p) ->
  getNextQueueEntry pr t pf hit c = Ok r -> rsteps (view qs c) (view qs r.2).
Proof.
  intros Hpf H. unfold getNextQueueEntry in H. apply bind_Ok_inv in H as (n & _ & H). destruct n; [by injection H as <-|]. destruct pf as [i|]; [|by injection H as <-].
  destruct (Hpf i eq_refl) as (p & Hp & Hs). unfold get_pkt, TargetList.get_pkt in H. rewrite Hp in H. cbn [rbind] in H.
  destruct (_ && _); [|by injection H as <-]. apply bind_Ok_inv in H as (a & Ha & H). apply bind_Ok_inv in H as (s & Hsec & H). destruct hit; [by injection H as <-|].
  apply bind_Ok_inv in H as (m & Hm & H). case_bool_decide as Em; [by injection H as <-|]. apply bind_Ok_inv in H as (w & _ & H).
  destruct (bool_decide _); [by injection H as <-|]. apply bind_Ok_inv in H as ([k c1] & H1 & H). injection H as <-. apply rtc_once.
  eapply miss_step; [exact Hp|exact Hs| |exact H1]. right. intros a' s' Ha' Hs'. assert (m = None) as -> by (by apply eq_None_not_Some). congruence.
Qed.

Lemma sendMSHR_steps t clk k blk acc c r : k ∈ Queue.allocatedList (mshrQueue c) ->
  sendMSHRQueuePacket pr uninit t clk k blk acc c = Ok r -> rsteps (view qs c) (view qs r.2).
Proof.
  intros Hk H. unfold sendMSHRQueuePacket in H. apply bind_Ok_inv in H as (m & Hm & H). apply mshr_get_Ok in Hm. do 2 apply bind_Ok_inv in H as (? & _ & H).
  apply bind_Ok_inv in H as ([d c1] & H1 & H). cbn [fst snd] in H.
  assert (Hc1 : st c1 = st c /\ mshrQueue c1 = mshrQueue c).
  { destruct (writeAllocator c) as [w|]; [|by injection H1 as <- <-]. destruct (_ && _); [|by injection H1 as <- <-].
    destruct (negb _); [|by injection H1 as <- <-]. destruct (WriteAllocator.delay _ w) as [wait w'].
    destruct wait; [|by injection H1 as <- <-]. apply bind_Ok_inv in H1 as (n & _ & H1). destruct (n =? 0); [done|]. by injection H1 as <- <-. }
  destruct Hc1 as [E1 E2]. rewrite <- (view_eq c c1) by done. rewrite <- E1 in Hm. rewrite <- E2 in Hk. clear H1 E1 E2 c. rename c1 into c. destruct d as [ticks|].
  - apply bind_Ok_inv in H as ([s q] & H2 & H). injection H as <-. cbn. apply rtc_once. rewrite <- (view_with c s q (with_misses s q c)) by done.
    by eapply (step_delay _ _ (view qs c) cid (mshrQueue c)); [apply view_q|..|exact H2].
  - apply bind_Ok_inv in H as (pkt & _ & H). cbv zeta in H. apply bind_Ok_inv in H as (p & _ & H). apply bind_Ok_inv in H as (q & _ & H).
    set (c0 := with_misses _ _ c) in *. eapply rtc_l with (y := view qs c0).
    { apply (step_forward _ _ (view qs c) cid (mshrQueue c) k m); [apply view_q|done..]. }
    destruct (acc _) as [q'|]; [|by injection H as <-]. apply bind_Ok_inv in H as (c2 & H2 & H). injection H as <-. cbn. apply rtc_once.
    apply markInService_mshr_miss in H2. rewrite <- (view_with c0 (st c2) (mshrQueue c2) c2) by done.
    by eapply (step_send _ _ (view qs c0) cid (mshrQueue c0)); [apply view_q|..|exact H2].
Qed.

Lemma squash_step t k m c c' : k ∈ Queue.allocatedList (mshrQueue c) -> mshrs (st c) !! k = Some m -> MSHR.inService m = false -> MSHR.downstreamPending m = false ->
  front_prefetch (packets (st c)) m -> squashPrefetch t k c = Ok c' -> step (blkSize pr) uninit (view qs c) (view qs c').
Proof.
  intros Hk Hm Hi Hd Hf H. apply squashPrefetch_miss in H as (b & d & H). rewrite <- (view_with c (st c') (mshrQueue c') c') by done.
  by eapply (step_drop _ _ (view qs c) cid (mshrQueue c)); [apply view_q|..|exact H].
Qed.

Lemma doWritebacks_steps t ft above pay l : forall c c', Forall (unheld (view qs c)) l -> doWritebacks pr t ft above pay l c = Ok c' -> rsteps (view qs c) (view qs c').
Proof.
  induction l as [|i l IH]; intros c c' Hu H; cbn [doWritebacks] in H; [by injection H as <-|]. apply Forall_cons in Hu as [Hi Hu]. apply bind_Ok_inv in H as (p & Hp & H).
  apply bind_Ok_inv in H as (c1 & H1 & H).
  assert (Hput : forall c0, allocateWriteBuffer pr t i ft (pay i) (with_misses (put_pkt (st c) i (Packet.set Packet.BLOCK_CACHED (pk p))) (mshrQueue c) c) = Ok c0 ->
    rsteps (view qs c) (view qs c0) /\ Forall (unheld (view qs c0)) l).
  { intros c0 H0. apply allocateWriteBuffer_keeps in H0 as [E1 E2]. apply get_pkt_Ok in Hp. unfold put_pkt in E1. rewrite Hp in E1. cbn in E1, E2.
    split; [|eapply Forall_impl; [exact Hu|]; intros j Hj k m x Hk Hm; apply (Hj k m x); [unfold view in Hk; by rewrite E2 in Hk|cbn in Hm; by rewrite E1 in Hm]].
    apply rtc_once. pose proof (step_unheld c i (mkP (Packet.set Packet.BLOCK_CACHED (pk p)) (senderState p)) Hi) as Hs.
    by rewrite (view_eq (with_misses (mkStore (<[i := mkP (Packet.set Packet.BLOCK_CACHED (pk p)) (senderState p)]> (packets (st c))) (mshrs (st c))) (mshrQueue c) c) c0). }
  assert (Hplain : forall c0, allocateWriteBuffer pr t i ft (pay i) c = Ok c0 -> view qs c0 = view qs c) by (intros c0 H0; apply allocateWriteBuffer_keeps in H0 as [E1 E2]; by apply view_eq).
  assert (H2 : rsteps (view qs c) (view qs c1) /\ Forall (unheld (view qs c1)) l).
  { destruct (above p); [|rewrite (Hplain c1 H1); done]. destruct (Packet.cmd (pk p)); try (injection H1 as <-; done); apply bind_Ok_inv in H1 as ([] & _ & H1);
      try (injection H1 as <-; done); by apply Hput. }
  destruct H2 as [H2 H3]. etrans; [exact H2|]. by apply (IH c1).
Qed.
End Drive.

(** ** The steps *)
Section Steps.
Context (pr : params) (uninit : Z -> list Z) (cid : Z).
Abbreviation cview w := (view cid (cw_rest w) (cw_cache w)).

Definition with_port (p : CacheResponsePort.t) (c : Cache.t) : Cache.t := with_blocked p (blocked c) c.

(** What happens between two retries. A request that is taken is a hit or a miss; the
    tags, which decide that, and the memory below are left open. *)
Inductive quiet (w : cworld) : cworld -> Prop :=
| q_rest w' : step (blkSize pr) uninit (cview w) w' -> w_q w' !! cid = Some (mshrQueue (cw_cache w)) ->
    quiet w (mkCW (with_misses (w_st w') (mshrQueue (cw_cache w)) (cw_cache w)) (w_q w'))
| q_refused bypass p port : CacheResponsePort.tryTiming bypass (pk p) (cpuSidePort (cw_cache w)) = (false, port) ->
    quiet w (mkCW (with_port port (cw_cache w)) (cw_rest w))
| q_miss t bypass pkt p port blk forward_time payload r :
    packets (st (cw_cache w)) !! pkt = Some p -> sendable (blkSize pr) (cview w) p -> unheld (cview w) pkt ->
    CacheResponsePort.tryTiming bypass (pk p) (cpuSidePort (cw_cache w)) = (true, port) ->
    Cache_handleTimingReqMiss pr uninit t pkt blk forward_time payload (with_port port (cw_cache w)) = Ok r ->
    quiet w (mkCW r.2 (cw_rest w))
| q_hit t ce pf bypass pkt p port blk bk r :
    packets (st (cw_cache w)) !! pkt = Some p -> sendable (blkSize pr) (cview w) p -> of_request p -> after_read pr (cw_cache w) p ->
    CacheResponsePort.tryTiming bypass (pk p) (cpuSidePort (cw_cache w)) = (true, port) ->
    Cache_handleTimingReqHit pr t ce pf pkt blk bk (with_port port (cw_cache w)) = Ok r ->
    quiet w (mkCW r.2 (cw_rest w))
| q_writeback t forward_time cached_above payload l c : Forall (unheld (cview w)) l ->
    doWritebacks pr t forward_time cached_above payload l (cw_cache w) = Ok c -> quiet w (mkCW c (cw_rest w))
| q_response t ce prefetch_time mshr header_delay payload_delay pkt bk r : answers (cw_cache w) mshr (Packet.cmd pkt) ->
    recvTimingResp pr t ce prefetch_time mshr header_delay payload_delay pkt bk (cw_cache w) = Ok r -> quiet w (mkCW r.2 (cw_rest w))
| q_squash t k m c :
    k ∈ Queue.allocatedList (mshrQueue (cw_cache w)) -> mshrs (st (cw_cache w)) !! k = Some m -> MSHR.inService m = false -> MSHR.downstreamPending m = false ->
    front_prefetch (packets (st (cw_cache w))) m -> squashPrefetch t k (cw_cache w) = Ok c -> quiet w (mkCW c (cw_rest w))
| q_next t prefetch hit r :
    (forall i, prefetch = Some i -> exists p, packets (st (cw_cache w)) !! i = Some p /\ sendable (blkSize pr) (cview w) p) ->
    getNextQueueEntry pr t prefetch hit (cw_cache w) = Ok r -> quiet w (mkCW r.2 (cw_rest w))
| q_send_miss t clockPeriod k blk accept r : k ∈ Queue.allocatedList (mshrQueue (cw_cache w)) ->
    sendMSHRQueuePacket pr uninit t clockPeriod k blk accept (cw_cache w) = Ok r -> quiet w (mkCW r.2 (cw_rest w))
| q_send_write t k accepted r : k ∈ Queue.allocatedList (writeBuffer (cw_cache w)) ->
    sendWriteQueuePacket t k accepted (cw_cache w) = Ok r -> quiet w (mkCW r.2 (cw_rest w)).

(** The event that was scheduled sends a retry. *)
Inductive retried (w : cworld) : cworld -> Prop :=
| a_retry when : CacheResponsePort.sendRetryEvent (cpuSidePort (cw_cache w)) = Some when ->
    retried w (mkCW (with_port (CacheResponsePort.processSendRetry (cpuSidePort (cw_cache w))) (cw_cache w)) (cw_rest w)).

Definition cstep (w w' : cworld) : Prop := quiet w w' \/ retried w w'.

Lemma tryTiming_ok bypass p port b port' : port_ok port -> CacheResponsePort.tryTiming bypass p port = (b, port') ->
  port_ok port' /\ CacheResponsePort.blocked port' = CacheResponsePort.blocked port.
Proof.
  unfold CacheResponsePort.tryTiming, port_ok. intros H E. destruct port as [bl ms ev]. destruct (_ || _) in E; [by injection E as <- <-|].
  cbn in *. destruct bl, ms; cbn in E; injection E as <- <-; cbn; split; try done; try (split; [naive_solver|done]).
  - rewrite H. naive_solver.
Qed.

Lemma inv_port wids c port : cache_inv wids c -> port_ok port -> CacheResponsePort.blocked port = CacheResponsePort.blocked (cpuSidePort c) ->
  cache_inv wids (with_port port c).
Proof. intros [[H1 H2 H3 H4] Hw] Hp E. split; [|done]. split; try done. unfold isBlocked in *. cbn. by rewrite E. Qed.

Lemma quiet_inv wids w w' : cache_inv wids (cw_cache w) -> quiet w w' -> cache_inv wids (cw_cache w').
Proof.
  intros Hc H. destruct H as [w' _ Hq|byp p port H|t byp pkt p port blk ft pay r _ _ _ H H1|t ce pf byp pkt p port blk bk r _ _ _ _ H H1|t ft above pay wbs c Hu H|
    t ce pf mshr hd pd pkt bk r _ H|t k m c _ _ _ _ _ H|t pf hit r _ H|t clk k blk acc r _ H|t k acc r Hk H]; cbn [cw_cache].
  - by eapply cache_inv_frame.
  - destruct (tryTiming_ok _ _ _ _ _ (mk_retry _ _ (ci_blocked _ _ Hc)) H). by apply inv_port.
  - destruct (tryTiming_ok _ _ _ _ _ (mk_retry _ _ (ci_blocked _ _ Hc)) H). eapply Cache_miss_inv; [|exact H1]. by apply inv_port.
  - destruct (tryTiming_ok _ _ _ _ _ (mk_retry _ _ (ci_blocked _ _ Hc)) H). eapply (Cache_hit_inv pr uninit wids); [|exact H1]. by apply inv_port.
  - by eapply doWritebacks_inv.
  - by eapply recvTimingResp_inv.
  - by eapply squashPrefetch_inv.
  - by eapply getNext_inv.
  - by eapply sendMSHR_inv.
  - by eapply sendWrite_inv.
Qed.

Lemma cstep_inv wids w w' : cache_inv wids (cw_cache w) -> cstep w w' -> cache_inv wids (cw_cache w').
Proof.
  intros Hc [H|[t H]]; [by eapply quiet_inv|]. pose proof (mk_retry _ _ (ci_blocked _ _ Hc)) as Hp. apply inv_port; [done| |done].
  unfold port_ok. cbn. split; [by intros []|by intros []].
Qed.

(** Each step is a sequence of steps of the registers. *)
Lemma cstep_steps ids A w w' : world_inv (blkSize pr) ids A (cview w) -> cstep w w' -> rtc (step (blkSize pr) uninit) (cview w) (cview w').
Proof.
  intros Hw [H|[t H]]; [|done]. destruct H as [w' H Hq|byp p port H|t byp pkt p port blk ft pay r Hp Hs Hu H H1|t ce pf byp pkt p port blk bk r Hp Hs Ho Ha H H1|t ft above pay wbs c Hu H|
    t ce pf mshr hd pd pkt bk r Ha H|t k m c Hk Hm Hi Hd Hf H|t pf hit r Hp H|t clk k blk acc r Hk H|t k acc r Hk H]; cbn [cw_cache cw_rest].
  - apply rtc_once. unfold view. cbn [st mshrQueue with_misses]. rewrite (insert_id (w_q w')) by done. by destruct w'.
  - done.
  - change (rtc (step (blkSize pr) uninit) (view cid (cw_rest w) (with_port port (cw_cache w))) (view cid (cw_rest w) r.2)).
    by eapply (Cache_miss_steps pr uninit cid (cw_rest w) ids A t pkt p).
  - change (rtc (step (blkSize pr) uninit) (view cid (cw_rest w) (with_port port (cw_cache w))) (view cid (cw_rest w) r.2)).
    unfold Cache_handleTimingReqHit in H1. do 2 apply bind_Ok_inv in H1 as (? & _ & H1). by eapply (handleTimingReqHit_steps pr uninit cid (cw_rest w) ids A t ce pf pkt p).
  - by eapply doWritebacks_steps.
  - by eapply respond_steps.
  - apply rtc_once. by eapply squash_step.
  - by eapply getNext_steps.
  - by eapply sendMSHR_steps.
  - unfold sendWriteQueuePacket in H. do 2 apply bind_Ok_inv in H as (? & _ & H). destruct acc; [|by injection H as <-].
    apply bind_Ok_inv in H as (c & H & H1). injection H1 as <-. apply markInService_wq_keeps in H as [E1 E2]. cbn. by rewrite (view_eq cid (cw_rest w) (cw_cache w) c).
Qed.
End Steps.
