(* ===== verification/CacheTheorems.v ===== *)
(** * What holds of the miss path of a cache

    The properties of every state of a cache that is reached, with any number of other
    caches around it. *)

From S2P Require Import Prelude Bits Packet CacheQueue Mshr MshrOps MshrLists MshrMarks MshrInv MshrSteps MshrService MshrResp MshrQueues MshrAlloc MshrWorld MshrTheorems WriteQueue CacheCtl CacheLaws CacheWorld.
Import MSHROps Cache.

(** ** A retry that is owed *)
Section Port.
(** What blocking and clearing of the port keep, the operations keep. *)
Context (P : CacheResponsePort.t -> Prop).
Context (Hset : forall p p', CacheResponsePort.setBlocked p = Ok p' -> P p -> P p').
Context (Hclear : forall t p p', CacheResponsePort.clearBlocked t p = Ok p' -> P p -> P p').
Context (pr : params) (uninit : Z -> list Z).
Implicit Types c : Cache.t.

Lemma set_if_port (b : bool) x c c' : (if b then setBlocked x c else Ok c) = Ok c' -> P (cpuSidePort c) -> P (cpuSidePort c').
Proof.
  intros H Hp. destruct b; [|by injection H as <-]. unfold setBlocked in H. apply bind_Ok_inv in H as (p & H1 & H). injection H as <-. cbn.
  destruct (_ =? 0); [by eapply Hset|by injection H1 as <-].
Qed.

Lemma clear_if_port (b : bool) t x c c' : (if b then clearBlocked t x c else Ok c) = Ok c' -> P (cpuSidePort c) -> P (cpuSidePort c').
Proof.
  intros H Hp. destruct b; [|by injection H as <-]. unfold clearBlocked in H. apply bind_Ok_inv in H as (p & H1 & H). injection H as <-. cbn.
  destruct (_ =? 0); [by eapply Hclear|by injection H1 as <-].
Qed.

Lemma allocateMissBuffer_port t pkt time sched c r : allocateMissBuffer pr t pkt time sched c = Ok r -> P (cpuSidePort c) -> P (cpuSidePort r.2).
Proof.
  intros H Hp. unfold allocateMissBuffer in H. do 3 apply bind_Ok_inv in H as (? & _ & H). apply bind_Ok_inv in H as (c1 & H1 & H). injection H as <-.
  eapply set_if_port in H1; [|exact Hp]. by destruct sched.
Qed.

Lemma allocateWriteBuffer_port t pkt time pay c c' : allocateWriteBuffer pr t pkt time pay c = Ok c' -> P (cpuSidePort c) -> P (cpuSidePort c').
Proof.
  intros H Hp. unfold allocateWriteBuffer in H. do 6 apply bind_Ok_inv in H as (? & _ & H). apply bind_Ok_inv in H as (c1 & H1 & H). injection H as <-.
  by eapply set_if_port in H1.
Qed.

Lemma handleTimingReqMiss_port t pkt mshr blk ft pay c r : handleTimingReqMiss pr uninit t pkt mshr blk ft pay c = Ok r -> P (cpuSidePort c) -> P (cpuSidePort r.2).
Proof.
  intros H Hp. unfold handleTimingReqMiss in H. apply bind_Ok_inv in H as (c1 & H1 & H).
  assert (Hc1 : P (cpuSidePort c1)).
  { destruct (writeAllocator c), pkt; try (by injection H1 as <-). apply bind_Ok_inv in H1 as (p & _ & H1). destruct (_ && _); [|by injection H1 as <-].
    do 3 apply bind_Ok_inv in H1 as (? & _ & H1). by injection H1 as <-. }
  clear Hp H1 c. rename c1 into c, Hc1 into Hp. destruct mshr as [m|], pkt as [i|]; [|by injection H as <-| |done].
  - do 2 apply bind_Ok_inv in H as (? & _ & H).
    assert (Hco : forall af, (let! s := allocateTarget uninit t m i ft (order c) af (st c) in
        let c := with_misses s (mshrQueue c) (with_order (u64 (order c + 1)) c) in
        let! r := get (st c) m in
        let! c := (if numTarget pr <=? Z.of_nat (MSHR.getNumTargets r) then setBlocked Blocked_NoTargets (with_noTarget (Some m) c) else Ok c) in
        Ok (blk, c)) = Ok r -> P (cpuSidePort r.2)).
    { intros af H1. apply bind_Ok_inv in H1 as (s & _ & H1). cbv zeta in H1. apply bind_Ok_inv in H1 as (y & _ & H1). apply bind_Ok_inv in H1 as (c1 & H2 & H1).
      injection H1 as <-. destruct (_ <=? _); [|by injection H2 as <-]. by eapply (set_if_port true) in H2. }
    destruct (Packet.cmd _); try (by eapply Hco); [apply bind_Ok_inv in H as (c1 & H1 & H); injection H as <-; by eapply allocateWriteBuffer_port|by injection H as <-].
  - apply bind_Ok_inv in H as (p & _ & H). destruct (_ || _).
    + apply bind_Ok_inv in H as (c1 & H1 & H). injection H as <-. by eapply allocateWriteBuffer_port.
    + apply bind_Ok_inv in H as (b & _ & H). apply bind_Ok_inv in H as (c1 & H1 & H). injection H as <-. by eapply allocateMissBuffer_port.
Qed.

Lemma Cache_miss_port t pkt blk ft pay c r : Cache_handleTimingReqMiss pr uninit t pkt blk ft pay c = Ok r -> P (cpuSidePort c) -> P (cpuSidePort r.2).
Proof.
  intros H Hp. unfold Cache_handleTimingReqMiss in H. do 2 apply bind_Ok_inv in H as (? & _ & H). destruct (Request.isUncacheable _).
  - apply bind_Ok_inv in H as ([] & _ & H). destruct (MemCmd.isWrite _); [apply bind_Ok_inv in H as (c1 & H1 & H); injection H as <-; by eapply allocateWriteBuffer_port|].
    apply bind_Ok_inv in H as ([] & _ & H). apply bind_Ok_inv in H as (c1 & H1 & H). injection H as <-. by eapply allocateMissBuffer_port.
  - do 3 apply bind_Ok_inv in H as (? & _ & H). destruct (MemCmd.testCmdAttrib _ _); [|by eapply handleTimingReqMiss_port]. apply bind_Ok_inv in H as ([] & _ & H).
    destruct (Request._paddr _); [|done]. destruct (Request._size _); [|done]. do 2 apply bind_Ok_inv in H as (? & _ & H). by eapply handleTimingReqMiss_port in H.
Qed.

Lemma recvTimingResp_port t ce pf mshr hd pd pkt bk c r : recvTimingResp pr t ce pf mshr hd pd pkt bk c = Ok r -> P (cpuSidePort c) -> P (cpuSidePort r.2).
Proof.
  intros H Hp. unfold recvTimingResp in H. do 2 apply bind_Ok_inv in H as (? & _ & H). destruct (_ && _); [apply bind_Ok_inv in H as ([] & _ & H); by injection H as <-|].
  destruct mshr as [k|]; [|done]. apply bind_Ok_inv in H as (c1 & H1 & H).
  assert (Hc1 : P (cpuSidePort c1)).
  { unfold clearNoTargets in H1. destruct (bool_decide _); [|by injection H1 as <-]. apply bind_Ok_inv in H1 as (c2 & H2 & H1). injection H1 as <-. by eapply (clear_if_port true) in H2. }
  cbv zeta in H. apply bind_Ok_inv in H as (? & _ & H). apply bind_Ok_inv in H as (c2 & H2 & H). injection H as <-. eapply clear_if_port in H2; [|exact Hc1]. cbn [snd].
  destruct (wake_same pr ce pd pf k c2) as [ts ->]. exact H2.
Qed.

Lemma handleTimingReqHit_port t ce pf pkt blk bk c r : handleTimingReqHit pr t ce pf pkt blk bk c = Ok r -> P (cpuSidePort c) -> P (cpuSidePort r.2).
Proof.
  intros H Hp. unfold handleTimingReqHit in H. apply bind_Ok_inv in H as (p & _ & H). destruct (MemCmd.testCmdAttrib _ _); [|by injection H as <-].
  do 3 apply bind_Ok_inv in H as (? & _ & H). destruct (MemCmd.isRead _).
  - do 2 apply bind_Ok_inv in H as (? & _ & H). destruct (alloc_pkt _ _ _) as [i s]. apply bind_Ok_inv in H as (r1 & H1 & H).
    apply bind_Ok_inv in H as (y & _ & H). destruct blk; [|done]. injection H as <-. cbn. by eapply allocateMissBuffer_port in H1.
  - apply bind_Ok_inv in H as ([] & _ & H). destruct (_ : option Z) as [k|]; [|done]. apply bind_Ok_inv in H as (? & _ & H).
    apply bind_Ok_inv in H as (r1 & H1 & H). injection H as <-. by eapply recvTimingResp_port in H1.
Qed.

Lemma doWritebacks_port t ft above pay l : forall c c', doWritebacks pr t ft above pay l c = Ok c' -> P (cpuSidePort c) -> P (cpuSidePort c').
Proof.
  induction l as [|i l IH]; intros c c' H Hp; cbn [doWritebacks] in H; [by injection H as <-|]. apply bind_Ok_inv in H as (p & _ & H). apply bind_Ok_inv in H as (c1 & H1 & H).
  eapply IH; [exact H|]. destruct (above p); [|by eapply allocateWriteBuffer_port].
  destruct (Packet.cmd (pk p)); try (by injection H1 as <-); apply bind_Ok_inv in H1 as ([] & _ & H1); try (by injection H1 as <-); by eapply allocateWriteBuffer_port in H1.
Qed.

Lemma getNext_port t pf hit c r : getNextQueueEntry pr t pf hit c = Ok r -> P (cpuSidePort c) -> P (cpuSidePort r.2).
Proof.
  intros H Hp. unfold getNextQueueEntry in H. apply bind_Ok_inv in H as (n & _ & H). destruct n; [by injection H as <-|]. destruct pf; [|by injection H as <-].
  destruct (_ && _); [|by injection H as <-]. do 3 apply bind_Ok_inv in H as (? & _ & H). destruct hit; [by injection H as <-|].
  apply bind_Ok_inv in H as (m & _ & H). destruct (bool_decide _); [by injection H as <-|]. apply bind_Ok_inv in H as (w & _ & H).
  destruct (bool_decide _); [by injection H as <-|]. apply bind_Ok_inv in H as (r1 & H1 & H). injection H as <-. by eapply allocateMissBuffer_port in H1.
Qed.

Lemma sendMSHR_port t clk k blk acc c r : sendMSHRQueuePacket pr uninit t clk k blk acc c = Ok r -> P (cpuSidePort c) -> P (cpuSidePort r.2).
Proof.
  intros H Hp. unfold sendMSHRQueuePacket in H. do 3 apply bind_Ok_inv in H as (? & _ & H). apply bind_Ok_inv in H as ([d c1] & H1 & H). cbn [fst snd] in H.
  assert (Hc1 : P (cpuSidePort c1)).
  { destruct (writeAllocator c) as [w|]; [|by injection H1 as <- <-]. destruct (_ && _); [|by injection H1 as <- <-].
    destruct (negb _); [|by injection H1 as <- <-]. destruct (WriteAllocator.delay _ w) as [wait w'].
    destruct wait; [|by injection H1 as <- <-]. apply bind_Ok_inv in H1 as (n & _ & H1). destruct (n =? 0); [done|]. by injection H1 as <- <-. }
  destruct d as [ticks|]; [apply bind_Ok_inv in H as (? & _ & H); by injection H as <-|].
  apply bind_Ok_inv in H as (pkt & _ & H). cbv zeta in H. do 2 apply bind_Ok_inv in H as (? & _ & H).
  destruct (acc _) as [q'|]; [|by injection H as <-]. apply bind_Ok_inv in H as (c2 & H2 & H). injection H as <-. cbn.
  unfold markInService_mshr in H2. apply bind_Ok_inv in H2 as (r & _ & H2). by eapply clear_if_port in H2.
Qed.

Lemma quiet_port cid w w' : (forall bypass p port b port', CacheResponsePort.tryTiming bypass p port = (b, port') -> P port -> P port') ->
  quiet pr uninit cid w w' -> P (cpuSidePort (cw_cache w)) -> P (cpuSidePort (cw_cache w')).
Proof.
  intros Ht H Hp. destruct H as [w' _ _|byp p port H|t byp pkt p port blk ft pay r _ _ _ H H1|t ce pf byp pkt p port blk bk r _ _ _ _ H H1|t ft above pay wbs c _ H|
    t ce pf mshr hd pd pkt bk r _ H|t k m c _ _ _ _ _ H|t pf hit r _ H|t clk k blk acc r _ H|t k acc r _ H]; cbn [cw_cache].
  - done.
  - by eapply Ht in H.
  - apply (Cache_miss_port _ _ _ _ _ _ _ H1). by eapply Ht in H.
  - unfold Cache_handleTimingReqHit in H1. do 2 apply bind_Ok_inv in H1 as (? & _ & H1). apply (handleTimingReqHit_port _ _ _ _ _ _ _ _ H1). by eapply Ht in H.
  - by eapply doWritebacks_port.
  - exact (recvTimingResp_port _ _ _ _ _ _ _ _ _ _ H Hp).
  - unfold squashPrefetch in H. apply bind_Ok_inv in H as (r & _ & H). by eapply clear_if_port in H.
  - by eapply getNext_port.
  - by eapply sendMSHR_port.
  - unfold sendWriteQueuePacket in H. do 2 apply bind_Ok_inv in H as (? & _ & H). destruct acc; [|by injection H as <-]. apply bind_Ok_inv in H as (c & H & H1). injection H1 as <-.
    unfold markInService_wq in H. apply bind_Ok_inv in H as (r & _ & H). by eapply clear_if_port in H.
Qed.
End Port.

(** The debt of a retry stays until the retry is sent. *)
Lemma quiet_owes pr uninit cid w w' : quiet pr uninit cid w w' -> CacheResponsePort.mustSendRetry (cpuSidePort (cw_cache w)) = true ->
  CacheResponsePort.mustSendRetry (cpuSidePort (cw_cache w')) = true.
Proof.
  apply (quiet_port (fun p => CacheResponsePort.mustSendRetry p = true)).
  - intros p p' H Hp. unfold CacheResponsePort.setBlocked in H. apply bind_Ok_inv in H as ([] & _ & H). destruct (CacheResponsePort.sendRetryEvent p); by injection H as <-.
  - intros t p p' H Hp. unfold CacheResponsePort.clearBlocked in H. apply bind_Ok_inv in H as ([] & _ & H). rewrite Hp in H. destruct (CacheResponsePort.sendRetryEvent p); [done|by injection H as <-].
  - intros byp p port b port' H Hp. unfold CacheResponsePort.tryTiming in H. destruct (_ || _) in H; [by injection H as <- <-|]. rewrite Hp, orb_true_r in H. by injection H as <- <-.
Qed.

(** ** Pending entries of the block of another *)
Section Pending.
Context {E E' : Type} `{QueueEntry E} `{QueueEntry E'}.

Definition same_blk (x : E') (e : E) : Prop := e_blkAddr x = e_blkAddr e /\ e_isSecure x = e_isSecure e.

Lemma pending_ok (h : gmap Z E) (x : E') (q : Queue.t) : e_hasTargets x = true ->
  (forall i, i ∈ Queue.readyList q -> exists e, h !! i = Some e /\ e_hasTargets e = true) ->
  exists r, Queue.findPending h q x = Ok r /\
    match r with
    | Some i => i ∈ Queue.readyList q /\ exists e, h !! i = Some e /\ same_blk x e
    | None => forall i e, i ∈ Queue.readyList q -> h !! i = Some e -> ~ same_blk x e
    end.
Proof.
  intros Hx. unfold Queue.findPending. induction (Queue.readyList q) as [|i l IH]; intros Hl; cbn.
  - exists None. split; [done|]. intros i e Hi. by apply not_elem_of_nil in Hi.
  - destruct (Hl i) as (e & He & Ht); [left|]. unfold Queue.deref. rewrite He. unfold Queue.conflictAddr, Queue.matchBlockAddr. cbn [rbind]. rewrite Ht, Hx. cbn [check rbind].
    destruct IH as (r & -> & Hr); [intros j Hj; apply Hl; by right|]. destruct (_ && _) eqn:Eb.
    + exists (Some i). split; [done|]. split; [left|]. exists e. split; [done|]. apply andb_prop in Eb as [E1 E2]. apply Z.eqb_eq in E1. apply eqb_prop in E2. by split.
    + exists r. split; [done|]. destruct r as [j|]; [destruct Hr as [? ?]; split; [by right|done]|]. intros j e' [->|Hj]%elem_of_cons He'; [|exact (Hr j e' Hj He')].
      rewrite He in He'. injection He' as <-. intros [E1 E2]. by rewrite E1, E2, Z.eqb_refl, eqb_reflx in Eb.
Qed.

(** The first entry, when its time has come. *)
Lemma getNext_ok t (h : gmap Z E) (q : Queue.t) : (forall i, i ∈ Queue.readyList q -> is_Some (h !! i)) ->
  exists r, Queue.getNext t h q = Ok r /\ forall i, r = Some i -> i ∈ Queue.readyList q.
Proof.
  intros Hl. unfold Queue.getNext. destruct (Queue.readyList q) as [|i l]; [by exists None|]. destruct (Hl i) as [e He]; [left|].
  unfold Queue.deref. rewrite He. cbn. destruct (_ <? _); eexists; (split; [done|]); [done|]. intros j [= <-]. left.
Qed.
End Pending.

Lemma with_allocator_id c : with_allocator (writeAllocator c) c = c.
Proof. by destruct c. Qed.

(** ** Taking a register *)
Section Take.
Context (pr : params) (cid : Z) (ids : Z -> list Z) (wids : list Z) (qs : gmap Z Queue.t) (A : gset Z) (c : Cache.t).
Context (Hblk : 0 < blkSize pr < 2 ^ 32) (HA : world_inv (blkSize pr) ids A (view cid qs c)) (Hci : cache_inv wids c).

Lemma take_register t pkt p time sched a s : Queue.freeList (mshrQueue c) <> [] -> packets (st c) !! pkt = Some p -> sendable (blkSize pr) (view cid qs c) p ->
  unmarked_sender (st c) p -> Packet.getBlockAddr (blkSize pr) (pk p) = Ok a -> Packet.isSecure (pk p) = Ok s ->
  exists k c' m, allocateMissBuffer pr t pkt time sched c = Ok (k, c') /\ packets (st c') = packets (st c) /\
    Queue.allocatedList (mshrQueue c') = Queue.allocatedList (mshrQueue c) ++ [k] /\ (k ∉ Queue.allocatedList (mshrQueue c)) /\
    mshrs (st c') !! k = Some m /\ label m = (a, blkSize pr, s, Request.isUncacheable (Packet.req (pk p))) /\ reqs (all_targets m) = [(pkt, order c)] /\
    calm_but k (st c) (st c').
Proof.
  intros Hfr Hp [Hf Hse] Hum Ha Hs. pose proof (wi_cache _ _ _ _ HA cid _ (view_q _ _ _)) as Hc. pose proof (wi_store _ _ _ _ HA) as Hst. cbn in Hc, Hst.
  assert (Hacc : acceptable A (a, blkSize pr) p) by (split; [by apply inside_at|]; intros u Hu; eapply inv_in; [exact HA|by apply Hse]).
  unfold allocateMissBuffer, get_pkt, TargetList.get_pkt. rewrite Hp. cbn [rbind]. rewrite Ha. cbn [rbind].
  destruct (allocate_Ok A (ids cid) t a (blkSize pr) pkt time (order c) (allocOnFill pr (Packet.cmd (pk p))) (st c) (mshrQueue c) p) as (k & s' & q' & E); try done.
  rewrite E. cbn [rbind fst snd]. destruct (allocate_ok A (ids cid) t a (blkSize pr) pkt time (order c) (allocOnFill pr (Packet.cmd (pk p))) (st c) (mshrQueue c) k s' q' p)
    as (_ & _ & C & Hpk & HkA & _ & Hal & m & sec & Hm & Hms & Hl & Hr); try done. rewrite Hs in Hms. injection Hms as <-.
  destruct (MSHR_allocate_size _ _ _ _ _ _ _ _ _ _ _ _ E) as [Hsz Hn]. destruct (misses_up wids c s' q' (u64 (order c + 1)) Hci Hsz ltac:(lia)) as (c' & E' & _ & (x & n & ->)).
  change (mshrQueue (with_misses s' q' (with_order (u64 (order c + 1)) c))) with q'. rewrite E'. cbn [rbind].
  eexists k, _, m. split; [done|]. assert (Hk : k ∉ Queue.allocatedList (mshrQueue c)) by (intros Hk; by apply HkA, (ca_in _ _ _ _ _ Hc)). by destruct sched.
Qed.

(** The assertion of [TargetList::add]. *)
Lemma take_marked t pkt p time sched a u mu : Queue.freeList (mshrQueue c) <> [] -> packets (st c) !! pkt = Some p -> sendable (blkSize pr) (view cid qs c) p ->
  findNextSenderState p = Some u -> mshrs (st c) !! u = Some mu -> MSHR.downstreamPending mu = true -> Packet.getBlockAddr (blkSize pr) (pk p) = Ok a ->
  allocateMissBuffer pr t pkt time sched c = Err AssertFail.
Proof.
  intros Hfr Hp [Hf Hse] Hu Hmu Hd Ha. pose proof (wi_cache _ _ _ _ HA cid _ (view_q _ _ _)) as Hc. pose proof (wi_store _ _ _ _ HA) as Hst. cbn in Hc, Hst.
  assert (Hacc : acceptable A (a, blkSize pr) p) by (split; [by apply inside_at|]; intros v Hv; eapply inv_in; [exact HA|by apply Hse]).
  unfold allocateMissBuffer, get_pkt, TargetList.get_pkt. rewrite Hp. cbn [rbind]. rewrite Ha. cbn [rbind].
  by rewrite (allocate_marked A (ids cid) t a (blkSize pr) pkt time (order c) _ (st c) (mshrQueue c) p u mu).
Qed.
End Take.

(** ** The states that are reached *)
(** The cache as it is built, with room in both of its buffers. *)
Record cstart (cid : Z) (ids : Z -> list Z) (wids : list Z) (w : cworld) : Prop := {
  cs_misses : start ids (view cid (cw_rest w) (cw_cache w));
  cs_writes : exists base n r, Queue.new base n r = Ok (writeBuffer (cw_cache w)) /\ wids = seqZ base (n + r) /\
    forall i, base <= i < base + (n + r) -> entries (cw_cache w) !! i = Some WriteQueueEntry.new;
  cs_room : Queue.isFull (mshrQueue (cw_cache w)) = false /\ Queue.isFull (writeBuffer (cw_cache w)) = false;
  cs_port : cpuSidePort (cw_cache w) = CacheResponsePort.new /\ blocked (cw_cache w) = 0 /\ noTargetMSHR (cw_cache w) = None;
}.

Lemma cstart_inv cid ids wids w : cstart cid ids wids w -> cache_inv wids (cw_cache w).
Proof.
  intros [_ (base & n & r & Hq & -> & He) [F1 F2] (Hp & Hb & Hn)]. split; [|by apply wb_ok_new]. split; rewrite ?Hp, ?Hb; try done.
  - intros []; cbn; rewrite ?F1, ?F2, ?Hn; split; try done; by intros [].
  - unfold isBlocked. by rewrite Hb.
  - unfold port_ok. cbn. split; [by intros []|by intros []].
Qed.

Section Reach.
Context (pr : params) (uninit : Z -> list Z) (cid : Z) (ids : Z -> list Z) (wids : list Z) (w0 w : cworld).
Context (Hblk : 0 < blkSize pr < 2 ^ 32) (Hids : distinct ids) (Hstart : cstart cid ids wids w0) (Hreach : rtc (cstep pr uninit cid) w0 w).
Abbreviation c := (cw_cache w).
Abbreviation cview w := (view cid (cw_rest w) (cw_cache w)).

Lemma creach_inv : rtc (step (blkSize pr) uninit) (cview w0) (cview w) /\ cache_inv wids c /\ exists A, world_inv (blkSize pr) ids A (cview w).
Proof.
  pose proof (cstart_inv _ _ _ _ Hstart) as Hc. pose proof (cs_misses _ _ _ _ Hstart) as Hs. clear Hstart.
  assert (H : rtc (step (blkSize pr) uninit) (cview w0) (cview w) /\ cache_inv wids c).
  { revert Hreach. apply (rtc_ind_r (fun w => rtc (step (blkSize pr) uninit) (cview w0) (cview w) /\ cache_inv wids (cw_cache w)) w0); [by split; [apply rtc_refl|]|].
    intros w1 w2 _ H12 [H1 Hc1]. split; [|by eapply cstep_inv]. etrans; [exact H1|].
    destruct (reach_inv (blkSize pr) ids uninit _ _ Hblk Hids Hs H1) as (A & HA). by eapply cstep_steps. }
  destruct H as [H1 H2]. split; [done|]. split; [done|]. by eapply reach_inv.
Qed.

(** The registers and the entries that wait exist and have targets. *)
Lemma misses_there i : i ∈ Queue.readyList (mshrQueue c) -> exists m, mshrs (st c) !! i = Some m /\ MSHR.hasTargets m = true.
Proof.
  intros Hi. destruct creach_inv as (_ & _ & A & HA). pose proof (wi_cache _ _ _ _ HA cid _ (view_q _ _ _)) as Hc.
  apply (ok_in_ready _ _ _ _ (ca_queue _ _ _ _ Hc)) in Hi as [Hi _]. destruct (inv_mshr _ _ _ _ _ _ _ HA (view_q _ _ _) Hi) as (HiA & _ & m & Hm).
  exists m. split; [done|]. destruct (so_mshr _ _ (wi_store _ _ _ _ HA) i m HiA Hm) as [_ (x & l & E & _) _ _]. unfold MSHR.hasTargets, TargetList.empty. by rewrite E.
Qed.

Lemma writes_there i : i ∈ Queue.readyList (writeBuffer c) -> exists e, entries c !! i = Some e /\ WriteQueueEntry.hasTargets e = true.
Proof.
  intros Hi. destruct creach_inv as (_ & [_ Hw] & _). apply (wb_ready _ _ _ _ Hw) in Hi. destruct (ok_dom _ _ _ (wb_queue _ _ _ Hw) i) as [e He]; [eapply ok_allocated_in; [apply Hw|done]|].
  exists e. split; [done|]. destruct (wb_single _ _ _ Hw i e Hi He) as [E _]. unfold WriteQueueEntry.hasTargets. unfold WriteQueueEntry.getNumTargets in E.
  by destruct (WriteQueueEntry.targets e).
Qed.

(** C4: A cache drives its registers within their rules: whatever a cache has done,
    its registers and those of the other caches have gone through a sequence of the
    steps of registers, from registers that are empty, so that all that holds of such
    sequences holds of the registers of the cache. *)
Theorem cache_refines_registers : start ids (cview w0) /\ rtc (step (blkSize pr) uninit) (cview w0) (cview w).
Proof. split; [apply Hstart|]. apply creach_inv. Qed.

Lemma room_left (E : Type) `{QueueEntry E} l h q : queue_ok (E := E) l h q -> Queue.isFull q = false -> Queue.numReserve q < Z.of_nat (length (Queue.freeList q)).
Proof.
  intros Hq Hf. unfold Queue.isFull in Hf. apply Z.leb_gt in Hf. rewrite (ok_allocated _ _ _ Hq), (ok_size _ _ _ Hq), <- (ok_part _ _ _ Hq), length_app in Hf. lia.
Qed.


(** C7: A requester that was refused is called again: until the retry is sent, the
    cache owes it, and either it is still blocked or the retry is scheduled. *)
Theorem refused_is_retried bypass p port w' : CacheResponsePort.tryTiming bypass (pk p) (cpuSidePort c) = (false, port) ->
  rtc (quiet pr uninit cid) (mkCW (with_port port c) (cw_rest w)) w' ->
  CacheResponsePort.mustSendRetry (cpuSidePort (cw_cache w')) = true /\
  (CacheResponsePort.blocked (cpuSidePort (cw_cache w')) = false -> is_Some (CacheResponsePort.sendRetryEvent (cpuSidePort (cw_cache w')))).
Proof.
  intros Ht Hq. destruct creach_inv as (_ & Hc & _). set (w1 := mkCW _ _) in Hq. assert (H1 : quiet pr uninit cid w w1) by (by eapply q_refused).
  assert (Hm : CacheResponsePort.mustSendRetry (cpuSidePort (cw_cache w1)) = true).
  { unfold CacheResponsePort.tryTiming in Ht. destruct (bypass || _) in Ht; [done|]. destruct (_ || _) in Ht; [by injection Ht as <-|done]. }
  pose proof (quiet_inv pr uninit cid wids w w1 Hc H1) as Hc1. clearbody w1. clear Ht H1 Hc.
  assert (H : CacheResponsePort.mustSendRetry (cpuSidePort (cw_cache w')) = true /\ cache_inv wids (cw_cache w')).
  { induction Hq as [|x y z H _ IH]; [done|]. apply IH; [by eapply quiet_owes|by eapply quiet_inv]. }
  destruct H as [Ho Hi]. split; [done|]. intros Hb. apply (mk_retry _ _ (ci_blocked _ _ Hi)). done.
Qed.

(** The choice of the next entry. Nothing is sent when neither buffer has a first entry
    whose time has come. A miss is sent when it is the first and no write to its block
    waits, or when it waits for the block of the first write and is older than it. A write is
    sent when it is the first, there is no miss to send or the write buffer is full, and
    the first miss that waits for its block is not older; or when the first miss is for
    its block, whatever their order. *)
Definition next_choice (t : Z) (r : option entry) : Prop :=
  let miss := Queue.getNext t (mshrs (st c)) (mshrQueue c) in
  let write := Queue.getNext t (entries c) (writeBuffer c) in
  let write_first := Queue.isFull (writeBuffer c) = true \/ miss = Ok None in
  match r with
  | None => miss = Ok None /\ write = Ok None
  | Some (Miss k) => k ∈ Queue.readyList (mshrQueue c) /\ exists m, mshrs (st c) !! k = Some m /\
      ((miss = Ok (Some k) /\ forall j e, j ∈ Queue.readyList (writeBuffer c) -> entries c !! j = Some e -> ~ same_blk m e) \/
       (exists j e, write = Ok (Some j) /\ write_first /\ entries c !! j = Some e /\ same_blk e m /\ MSHR.order m < WriteQueueEntry.order e))
  | Some (Write k) => k ∈ Queue.readyList (writeBuffer c) /\ exists e, entries c !! k = Some e /\
      ((write = Ok (Some k) /\ write_first /\
        forall j m, Queue.findPending (mshrs (st c)) (mshrQueue c) e = Ok (Some j) -> mshrs (st c) !! j = Some m -> WriteQueueEntry.order e <= MSHR.order m) \/
       (exists j m, miss = Ok (Some j) /\ (Queue.isFull (writeBuffer c) = false \/ write = Ok None) /\ mshrs (st c) !! j = Some m /\ same_blk m e))
  end.

Lemma miss_choice t k : Queue.getNext t (mshrs (st c)) (mshrQueue c) = Ok (Some k) -> k ∈ Queue.readyList (mshrQueue c) ->
  Queue.isFull (writeBuffer c) = false \/ Queue.getNext t (entries c) (writeBuffer c) = Ok None ->
  exists r, (let! m := get (st c) k in let! conflict := Queue.findPending (entries c) (writeBuffer c) m in
    Ok (Some match conflict with Some w => Write w | None => Miss k end)) = Ok r /\ next_choice t r.
Proof.
  intros Hn Hk Hnw. destruct (misses_there k Hk) as (m & Hm & Ht). rewrite (get_Some _ _ _ Hm). cbn [rbind].
  destruct (pending_ok (H := WriteQueueEntry_entry) (H0 := MSHR_entry) (entries c) m (writeBuffer c) Ht writes_there) as (r & -> & Hr). cbn [rbind]. eexists. split; [done|]. destruct r as [j|]; cbn.
  - destruct Hr as (Hj & e & He & Hs). split; [done|]. exists e. split; [done|]. right. by exists k, m.
  - split; [done|]. exists m. split; [done|]. by left.
Qed.

(** C14: The choice of the next entry to send never fails, and is nothing exactly when
    neither the first register nor the first write is ready. A miss is sent only
    when no write to its block waits, or when the first write is for its block and
    younger, and is to go first since the buffer is full or no miss is ready. A write
    that is sent in its turn has no older miss as the first one that waits for its
    block; one that is sent for the first miss, which is of its block, may be younger than
    that miss. *)
Theorem next_entry_chosen t : exists r, next_pending t c = Ok r /\ next_choice t r.
Proof.
  destruct (getNext_ok t (mshrs (st c)) (mshrQueue c)) as (rm & Em & Hm). { intros i Hi. destruct (misses_there i Hi) as (m & Hm & _). by exists m. }
  destruct (getNext_ok t (entries c) (writeBuffer c)) as (rw & Ew & Hw). { intros i Hi. destruct (writes_there i Hi) as (e & He & _). by exists e. }
  unfold next_pending. rewrite Em, Ew. cbn [rbind]. destruct rw as [k|].
  - assert (Hb : (Queue.isFull (writeBuffer c) || bool_decide (rm = None) = true) \/ (exists m, rm = Some m /\ Queue.isFull (writeBuffer c) || bool_decide (rm = None) = false)).
    { destruct rm as [m|]; [|left; by rewrite orb_true_r]. destruct (Queue.isFull _); [by left|right]. by exists m. }
    destruct Hb as [Hb|(m & -> & Hb)]; rewrite Hb; [|apply miss_choice; [done|by apply Hm|left; by apply orb_false_iff in Hb as [? _]]].
    assert (Hwf : Queue.isFull (writeBuffer c) = true \/ Ok rm = Ok (A := option Z) None) by (apply orb_true_iff in Hb as [?|Hb]; [by left|right; by apply bool_decide_eq_true in Hb as ->]).
    unfold next_choice. rewrite Em, Ew.
    destruct (writes_there k (Hw k eq_refl)) as (e & He & Ht). unfold Queue.deref at 1. rewrite He. cbn [rbind].
    destruct (pending_ok (H := MSHR_entry) (H0 := WriteQueueEntry_entry) (mshrs (st c)) e (mshrQueue c) Ht misses_there) as (r & Er & Hr). rewrite Er. cbn [rbind]. destruct r as [j|].
    + destruct Hr as (Hj & m & Hmj & Hs). rewrite (get_Some _ _ _ Hmj). cbn [rbind]. destruct (_ <? _) eqn:Eo.
      * eexists. split; [done|]. split; [done|]. exists m. split; [done|]. right. exists k, e. apply Z.ltb_lt in Eo. done.
      * eexists. split; [done|]. split; [by apply Hw|]. exists e. split; [done|]. left. split; [done|]. split; [done|]. intros j' m' Ej Hm'. rewrite Er in Ej. injection Ej as <-.
        rewrite Hmj in Hm'. injection Hm' as <-. by apply Z.ltb_ge in Eo.
    + eexists. split; [done|]. split; [by apply Hw|]. exists e. split; [done|]. left. split; [done|]. split; [done|]. intros j' m' Ej. by rewrite Er in Ej.
  - destruct rm as [m|]; [apply miss_choice; [done|by apply Hm|by right]|]. exists None. by split.
Qed.

(** A cache that takes requests has a register for one. *)
Lemma free_register : CacheResponsePort.blocked (cpuSidePort c) = false -> 0 <= Queue.numReserve (mshrQueue c) -> Queue.freeList (mshrQueue c) <> [].
Proof.
  intros Hb Hr. destruct creach_inv as (_ & [[_ Hbits Hp _] _] & A & HA). rewrite Hp in Hb. unfold isBlocked in Hb. apply negb_false_iff, Z.eqb_eq in Hb.
  pose proof (Hbits Blocked_NoMSHRs) as B. rewrite Hb in B. cbn in B. assert (F : Queue.isFull (mshrQueue c) = false) by (apply not_true_iff_false; intros E; by apply B in E).
  pose proof (room_left _ _ _ _ (ca_queue _ _ _ _ (wi_cache _ _ _ _ HA cid _ (view_q _ _ _))) F) as H. intros E. rewrite E in H. cbn in H. lia.
Qed.

(** The block of a request, if it is there, is there without the rights that are needed. *)
Definition missing (blk : option CacheBlk) (p : Packet.t) : Prop := match blk with
  | Some b => isValid b = true -> (MemCmd.needsWritable (Packet.cmd p) = true /\ WritableBit b = false) \/ Request.isCacheMaintenance (Packet.req p) = true
  | None => True
  end.

(** What happens to a miss before it takes a register. *)
Lemma miss_taken_prefix t pkt p blk ft pay a : packets (st c) !! pkt = Some p -> sendable (blkSize pr) (cview w) p ->
  Packet.getBlockAddr (blkSize pr) (pk p) = Ok a -> MemCmd.isEviction (Packet.cmd (pk p)) = false -> Packet.cmd (pk p) <> MemCmd.WriteClean -> missing blk (pk p) ->
  exists wa blk', handleTimingReqMiss pr uninit t (Some pkt) None blk ft pay c =
    (let! r := allocateMissBuffer pr t pkt ft true (with_allocator wa c) in Ok (blk', r.2)).
Proof.
  intros Hp [(ba & (Hreq & Hva & Hvs & _) & _) _] Ha Hev Hwc Hmiss. unfold handleTimingReqMiss, get_pkt, TargetList.get_pkt.
  match goal with |- context [let! x := ?e in @?k x] => assert (Hw : exists wa, e = Ok (with_allocator wa c)) end.
  { destruct (writeAllocator c) as [wa|] eqn:Ew; [|exists None; by rewrite <- Ew, with_allocator_id]. rewrite Hp. cbn [rbind]. destruct (_ && _).
    - unfold Packet.getAddr, Packet.getSize. rewrite Hva, Hvs. cbn [check rbind]. rewrite Ha. cbn [rbind]. by eexists.
    - exists (Some wa). by rewrite <- Ew, with_allocator_id. }
  destruct Hw as [wa ->]. cbn [rbind]. cbn [st with_allocator]. rewrite Hp. cbn [rbind]. rewrite Hev, bool_decide_false by done. cbn [orb]. exists wa.
  destruct blk as [b|]; [|by exists None]. unfold missing in Hmiss. destruct (isValid b); [|by exists (Some b)]. unfold Packet.needsWritable. rewrite Hreq. cbn [check rbind].
  destruct (Hmiss eq_refl) as [[-> ->]| ->]; rewrite ?orb_true_r; eexists; reflexivity.
Qed.

(** The register above that waits for a packet is marked already or not. *)
Lemma sender_marked A w1 p : world_inv (blkSize pr) ids A w1 -> sendable (blkSize pr) w1 p ->
  unmarked_sender (w_st w1) p \/ exists u mu, findNextSenderState p = Some u /\ mshrs (w_st w1) !! u = Some mu /\ MSHR.downstreamPending mu = true.
Proof.
  intros HA [_ Hse]. unfold unmarked_sender. destruct (findNextSenderState p) as [u|]; [|by left].
  destruct (so_dom _ _ (wi_store _ _ _ _ HA) u (inv_in _ _ _ _ _ HA (Hse u eq_refl))) as [mu Hmu].
  destruct (MSHR.downstreamPending mu) eqn:Ed; [right; by exists u, mu|left]. intros v [= <-]. by exists mu.
Qed.

(** C15: A cache that is not blocked takes a cacheable miss to a block for which it has
    no register: a new register is for the block and has the request as its only one. The
    exception is the assertion of [TargetList::add], which fails exactly when the register
    above that sent the request is already marked as waiting for a cache below. This is for
    misses that need a register of their own: software prefetches, evictions, WriteClean
    and the write of a locked pair are handled otherwise. *)
Theorem miss_taken t pkt p blk ft pay a s : CacheResponsePort.blocked (cpuSidePort c) = false -> 0 <= Queue.numReserve (mshrQueue c) ->
  packets (st c) !! pkt = Some p -> sendable (blkSize pr) (cview w) p ->
  Packet.getBlockAddr (blkSize pr) (pk p) = Ok a -> Packet.isSecure (pk p) = Ok s -> Queue.findMatch (mshrs (st c)) (mshrQueue c) a s true = Ok None ->
  Request.isUncacheable (Packet.req (pk p)) = false -> MemCmd.testCmdAttrib MemCmd.IsSWPrefetch (Packet.cmd (pk p)) = false ->
  MemCmd.isEviction (Packet.cmd (pk p)) = false -> Packet.cmd (pk p) <> MemCmd.WriteClean -> Packet.cmd (pk p) <> MemCmd.LockedRMWWriteReq -> missing blk (pk p) ->
  match Cache_handleTimingReqMiss pr uninit t pkt blk ft pay c with
  | Ok (_, c') => unmarked_sender (st c) p /\ exists k m, 
      Queue.allocatedList (mshrQueue c') = Queue.allocatedList (mshrQueue c) ++ [k] /\ mshrs (st c') !! k = Some m /\
      MSHR.blkAddr m = a /\ MSHR.isSecure m = s /\ MSHR._isUncacheable m = false /\ reqs (all_targets m) = [(pkt, order c)]
  | Err e => e = AssertFail /\ ~ unmarked_sender (st c) p
  end.
Proof.
  intros Hb Hr Hp Hs Ha Hsec Hnm Hu Hsw Hev Hwc Hlk Hmiss. pose proof (free_register Hb Hr) as Hfr. destruct creach_inv as (_ & Hci & A & HA).
  unfold Cache_handleTimingReqMiss, get_pkt, TargetList.get_pkt. rewrite Hp. cbn [rbind]. rewrite bool_decide_false by done. cbn [negb check rbind]. rewrite Hu, Ha. cbn [rbind].
  rewrite Hsec. cbn [rbind]. rewrite Hnm. cbn [rbind]. rewrite Hsw.
  destruct (miss_taken_prefix t pkt p blk ft pay a Hp Hs Ha Hev Hwc Hmiss) as (wa & blk' & E). rewrite E. clear E.
  assert (HA' : world_inv (blkSize pr) ids A (view cid (cw_rest w) (with_allocator wa c))) by exact HA.
  assert (Hci' : cache_inv wids (with_allocator wa c)) by (by eapply cache_inv_frame). destruct (sender_marked _ _ _ HA Hs) as [Hum|(u & mu & Hu1 & Hu2 & Hu3)].
  - destruct (take_register pr cid ids wids (cw_rest w) A (with_allocator wa c) Hblk HA' Hci') with (t := t) (pkt := pkt) (p := p) (time := ft) (sched := true) (a := a) (s := s)
      as (k & c' & m & E & _ & Hal & _ & Hm & Hl & Hq & _); try done. rewrite E. cbn [rbind snd]. split; [done|]. exists k, m. rewrite Hu in Hl. by injection Hl as <- _ <- <-.
  - rewrite (take_marked pr cid ids (cw_rest w) A (with_allocator wa c) Hblk HA' t pkt p ft true a u mu) by done. cbn [rbind]. split; [done|].
    intros Hum. destruct (Hum u Hu1) as (mu' & Hmu' & Hd). cbn in Hu2. congruence.
Qed.
End Reach.


Section MissPacket.
Context (pr : params) (uninit : Z -> list Z) (Hblk : 0 < blkSize pr < 2 ^ 32).

Definition blk_valid (blk : option CacheBlk) : bool := match blk with Some b => isValid b | None => false end.
Definition blk_writable (blk : option CacheBlk) : bool := match blk with Some b => WritableBit b | None => false end.

(** Requests that are sent on as they are. *)
Definition passed_on (p : Packet.t) (blk : option CacheBlk) : bool :=
  Request.isUncacheable (Packet.req p) || (negb (blk_valid blk) && MemCmd.isUpgrade (Packet.cmd p)) ||
  bool_decide (Packet.cmd p = MemCmd.InvalidateReq) || MemCmd.isClean (Packet.cmd p).

(** Stores that are known to fail. *)
Definition failing (c : MemCmd.Command) : bool := bool_decide (c = MemCmd.SCUpgradeFailReq) || bool_decide (c = MemCmd.StoreCondFailReq).

Definition clean_responses : bool := isReadOnly pr || match clusivity pr with mostly_excl => true | mostly_incl => false end.

(** The command of the packet of a miss. *)
Record asks (c : MemCmd.Command) (blk : option CacheBlk) (nw wl : bool) (cmd : MemCmd.Command) : Prop := {
  as_request : MemCmd.isRequest cmd = true;
  as_writable : MemCmd.needsWritable cmd = nw || wl || failing c;
  as_data : MemCmd.hasData (MemCmd.responseCommand cmd) = negb (blk_valid blk) && negb wl;
  as_conditional : cmd = MemCmd.SCUpgradeReq <-> blk_valid blk = true /\ wl = false /\ MemCmd.isLLSC c = true;
  as_failing : cmd = MemCmd.SCUpgradeFailReq <-> blk_valid blk = false /\ wl = false /\ failing c = true;
  as_clean : cmd = MemCmd.ReadCleanReq <-> nw || wl || failing c = false /\ clean_responses = true;
}.

Lemma new_blk_aligned r cmd a : Request._paddr r = Some a -> let p := Packet.new_blk r cmd (blkSize pr) in
  Packet.getAddr p = Ok (Z.land a (unot 64 (blkSize pr - 1))) /\ Packet.getBlockAddr (blkSize pr) p = Ok (Z.land a (unot 64 (blkSize pr - 1))) /\
  Packet.cmd p = cmd /\ Packet.size p = blkSize pr /\ Packet.isSet Packet.VALID_SIZE p = true /\ Z.land (Packet.flags p) (Z.lor Packet.STATIC_DATA Packet.DYNAMIC_DATA) = 0.
Proof.
  intros Ha. unfold Packet.new_blk. rewrite Ha. cbn -[Z.land unot Z.lor]. split; [done|]. split; [|done]. unfold Packet.getBlockAddr, Packet.getAddr. change (Packet.isSet _ _) with true. cbn [check rbind Packet.addr].
  rewrite (uw_small 32) by (unfold in_uw; lia). f_equal. by rewrite <- Z.land_assoc, Z.land_diag.
Qed.

Lemma new_blk_allocate r cmd a (sh : bool) : Request._paddr r = Some a -> let q := Packet.new_blk r cmd (blkSize pr) in let q' := if sh then Packet.setHasSharers q else q in
  exists p, (let! x := Packet.getAddr q' in let! y := Packet.getBlockAddr (blkSize pr) q' in guard! x =? y; let! p := Packet.allocate uninit q' in Ok (Some p)) = Ok (Some p) /\
    Packet.cmd p = cmd /\ pkt_like q p /\ Packet.getAddr p = Packet.getBlockAddr (blkSize pr) p.
Proof.
  intros Ha q q'. destruct (new_blk_aligned r cmd a Ha) as (E1 & E2 & E3 & E4 & E5 & E6). fold q in E1, E2, E3, E4, E5, E6.
  assert (L : pkt_like q q' /\ Packet.cmd q' = cmd) by (unfold q'; destruct sh; [split; [by apply like_set|done]|done]). destruct L as [L Ec].
  assert (E1' : Packet.getAddr q' = Packet.getAddr q /\ Packet.getBlockAddr (blkSize pr) q' = Packet.getBlockAddr (blkSize pr) q).
  { unfold Packet.getBlockAddr, Packet.getAddr. by rewrite (like_vaddr _ _ L), (like_addr _ _ L). }
  destruct E1' as [A1 A2]. rewrite A1, A2, E1, E2. cbn [rbind]. rewrite Z.eqb_refl. cbn [check rbind].
  assert (E6' : Z.land (Packet.flags q') (Z.lor Packet.STATIC_DATA Packet.DYNAMIC_DATA) = 0).
  { unfold q'. destruct sh; [|done]. unfold Packet.setHasSharers, Packet.set. cbn [Packet.flags Packet.with_flags]. by rewrite Z.land_lor_distr_l, E6. }
  assert (Hal : exists p, Packet.allocate uninit q' = Ok p).
  { unfold Packet.allocate. destruct (_ || _); [|by eexists]. rewrite E6'. cbn [Z.eqb check rbind]. unfold Packet.getSize. rewrite (like_vsize _ _ L), E5. by eexists. }
  destruct Hal as [p Hp]. rewrite Hp. cbn [rbind]. exists p. split; [done|]. pose proof (like_allocate uninit _ _ Hp) as L2. split; [|split; [by etransitivity|]].
  - unfold Packet.allocate in Hp. destruct (_ || _); [|by injection Hp as <-]. do 2 apply bind_Ok_inv in Hp as (? & _ & Hp). by injection Hp as <-.
  - unfold Packet.getBlockAddr, Packet.getAddr in *. rewrite (like_vaddr _ _ L2), (like_addr _ _ L2). congruence.
Qed.

(** The assertions of [createMissPacket] for a request that is not passed on. *)
Definition may_ask (p : Packet.t) (blk : option CacheBlk) (nw wl : bool) : bool :=
  MemCmd.needsResponse (Packet.cmd p) && (negb (bool_decide (Packet.cmd p = MemCmd.WriteLineReq)) || wl) &&
  (negb (blk_valid blk) || (negb (blk_writable blk) && (wl || nw))).

Lemma miss_command c blk nw wl : negb (blk_valid blk) || (negb (blk_writable blk) && (wl || nw)) = true -> exists cmd,
  (if wl then guard! negb (blk_valid blk) || negb (blk_writable blk); Ok MemCmd.InvalidateReq
   else if blk_valid blk then guard! nw; guard! negb (blk_writable blk); Ok (if MemCmd.isLLSC c then MemCmd.SCUpgradeReq else MemCmd.UpgradeReq)
   else if failing c then Ok MemCmd.SCUpgradeFailReq
   else Ok (if nw then MemCmd.ReadExReq else if clean_responses then MemCmd.ReadCleanReq else MemCmd.ReadSharedReq)) = Ok cmd /\ asks c blk nw wl cmd.
Proof.
  intros H. destruct wl, (blk_valid blk) eqn:Ev, (blk_writable blk), nw, (failing c) eqn:Ef, (MemCmd.isLLSC c) eqn:El, clean_responses eqn:Ec; try discriminate H;
    (eexists; split; [reflexivity|]; split; rewrite ?Ev, ?Ef, ?El, ?Ec; try reflexivity; split; intros; (discriminate || naive_solver)).
Qed.

Lemma createMissPacket_spec p blk nw wl a : Request._paddr (Packet.req p) = Some a ->
  if MemCmd.isEviction (Packet.cmd p) then createMissPacket pr uninit p blk nw wl = Err AssertFail
  else if passed_on p blk then createMissPacket pr uninit p blk nw wl = Ok None
  else if may_ask p blk nw wl then exists q, createMissPacket pr uninit p blk nw wl = Ok (Some q) /\ asks (Packet.cmd p) blk nw wl (Packet.cmd q) /\
    pkt_like (Packet.new_blk (Packet.req p) (Packet.cmd q) (blkSize pr)) q /\ Packet.getAddr q = Packet.getBlockAddr (blkSize pr) q
  else createMissPacket pr uninit p blk nw wl = Err AssertFail.
Proof.
  intros Ha. unfold createMissPacket, passed_on, may_ask. fold (blk_valid blk) (blk_writable blk) (failing (Packet.cmd p)) clean_responses.
  destruct (MemCmd.isEviction _); [done|]. cbn [negb check rbind]. destruct (_ || MemCmd.isClean _); [done|].
  destruct (MemCmd.needsResponse _); [|done]. cbn [check rbind andb]. destruct (negb (bool_decide _) || wl); [|done]. cbn [check rbind andb].
  destruct (negb (blk_valid blk) || (negb (blk_writable blk) && (wl || nw))) eqn:Eb.
  - destruct (miss_command (Packet.cmd p) blk nw wl Eb) as (cmd & -> & Hc). cbn [rbind].
    destruct (new_blk_allocate (Packet.req p) cmd a (Packet.hasSharers p && negb nw) Ha) as (q & Eq & Ecmd & L & Eal). exists q. rewrite Ecmd. done.
  - destruct (blk_valid blk), (blk_writable blk), wl, nw; done.
Qed.


(** C25: The packet of a miss. Requests that no cache or a cache above deals with are
    passed on as they are, and evictions are refused. Any other request is refused unless
    it needs a response, is for the whole line when it is a write of one, and lacks
    rights that its block, if it is there, does not have. The packet for it is a request for
    the whole block. It asks for a writable block exactly when the targets need one, write the
    whole line, or are a store that is known to fail; for the data exactly when
    the block is not there and is not written as a whole; for a conditional upgrade exactly when
    the block is there for a store-conditional; for a failing one exactly
    when the store is known to fail and the block is not there; and for a clean block exactly when
    a shared one is asked for by a cache that is read-only or mostly exclusive. *)
Theorem miss_packet_rights p blk nw wl : fits (blkSize pr) p ->
  match createMissPacket pr uninit p blk nw wl with
  | Ok (Some q) => MemCmd.isEviction (Packet.cmd p) = false /\ passed_on p blk = false /\ may_ask p blk nw wl = true /\ fits (blkSize pr) q /\
      Packet.getAddr q = Packet.getBlockAddr (blkSize pr) q /\ Packet.size q = blkSize pr /\ asks (Packet.cmd p) blk nw wl (Packet.cmd q)
  | Ok None => MemCmd.isEviction (Packet.cmd p) = false /\ passed_on p blk = true
  | Err e => e = AssertFail /\ (MemCmd.isEviction (Packet.cmd p) = true \/ (passed_on p blk = false /\ may_ask p blk nw wl = false))
  end.
Proof.
  intros Hf. pose proof Hf as (_ & _ & _ & _ & _ & _ & Hreq). pose proof Hreq as (_ & a & s & Ha & _). pose proof (createMissPacket_spec p blk nw wl a Ha) as H.
  destruct (MemCmd.isEviction _); [rewrite H; split; [done|by left]|]. destruct (passed_on p blk); [by rewrite H|].
  destruct (may_ask p blk nw wl); [|rewrite H; split; [done|by right]]. destruct H as (q & -> & A & L & Ea). split_and!; try done.
  - eapply pkt_like_fits; [exact L|]. by apply fits_new_blk, Hreq; [apply A|].
  - rewrite (like_size _ _ L). unfold Packet.new_blk. by rewrite Ha.
Qed.
End MissPacket.


Section Send.
Context (pr : params) (uninit : Z -> list Z) (cid : Z) (ids : Z -> list Z) (wids : list Z) (w0 w : cworld).
Context (Hblk : 0 < blkSize pr < 2 ^ 32) (Hids : distinct ids) (Hstart : cstart cid ids wids w0) (Hreach : rtc (cstep pr uninit cid) w0 w).
Abbreviation c := (cw_cache w).
Context (k : Z) (m : MSHR.t) (x : Target.t) (l : list Target.t) (p : pobj).
Context (Hk : k ∈ Queue.readyList (mshrQueue c)) (Hm : mshrs (st c) !! k = Some m) (Hx : TargetList.items (MSHR.targets m) = x :: l) (Hp : packets (st c) !! Target.pkt x = Some p).












End Send.

(** ** Streams of writes *)
Section Streams.
Import WriteAllocator.

(** Writes of the sizes and to the blocks [ws], each where the last one ended. *)
Fixpoint stream (a : Z) (ws : list (Z * Z)) (w : WriteAllocator.t) : WriteAllocator.t :=
  match ws with
  | [] => w
  | (n, b) :: ws => stream (u64 (a + n)) ws (updateMode a n b w)
  end.

Definition total (ws : list (Z * Z)) : Z := foldr Z.add 0 (map fst ws).

(** The answer to the call number [i] of [delay] for the block. *)
Fixpoint delayed (i : nat) (b : Z) (w : WriteAllocator.t) : bool :=
  match i with
  | O => (delay b w).1
  | S i => delayed i b (delay b w).2
  end.

(** After [j] writes of [T] bytes, [T'] of them before the last one. *)
Record in_stream (w0 w : WriteAllocator.t) (a : Z) (j : nat) (T T' : Z) : Prop := {
  is_next : nextAddr w = a;
  is_count : mode w <> NO_ALLOCATE -> byteCount w = T;
  is_coalesce : mode w <> ALLOCATE <-> (2 <= j)%nat /\ coalesceLimit w0 < T;
  is_none : mode w = NO_ALLOCATE <-> (3 <= j)%nat /\ coalesceLimit w0 < T' /\ noAllocateLimit w0 < T;
  is_limits : coalesceLimit w = coalesceLimit w0 /\ noAllocateLimit w = noAllocateLimit w0 /\ delayThreshold w = delayThreshold w0;
}.

Lemma in_stream_write w0 w a j T T' n b : in_stream w0 w a j T T' -> (1 <= j)%nat -> 0 <= T' <= T -> 0 <= n -> T + n < 2 ^ 32 ->
  in_stream w0 (updateMode a n b w) (u64 (a + n)) (S j) (T + n) T.
Proof.
  intros [Hn Hc H1 H2 (L1 & L2 & L3)] Hj HT Hn0 Hlt. unfold updateMode. rewrite Hn, Z.eqb_refl. cbn [mode with_delays nextAddr].
  destruct (mode w) eqn:Em; cbn [byteCount with_delays coalesceLimit noAllocateLimit delayThreshold].
  - rewrite Hc by done. rewrite (uw_small 32) by (unfold in_uw; lia). rewrite L1, L2, L3. assert (Hno : ~ ((2 <= j)%nat /\ coalesceLimit w0 < T)) by (rewrite <- H1; intros H; by apply H).
    destruct (Z.ltb_spec (coalesceLimit w0) (T + n)); split; cbn; try done; split; try done; try lia; intros; try lia; try (by intros ?).
  - rewrite Hc by done. rewrite (uw_small 32) by (unfold in_uw; lia). rewrite L1, L2, L3. assert (Hyes : (2 <= j)%nat /\ coalesceLimit w0 < T) by (by apply H1).
    destruct (Z.ltb_spec (noAllocateLimit w0) (T + n)); split; cbn; try done; split; try done; try lia; intros; try lia; try (by intros ?).
  - assert (Hyes : (3 <= j)%nat /\ coalesceLimit w0 < T' /\ noAllocateLimit w0 < T) by (by apply H2).
    split; cbn; rewrite ?Em; try done; split; try done; try lia; intros; try lia; try (by intros ?).
Qed.

Lemma in_stream_run w0 ws : forall w a j T T', in_stream w0 w a j T T' -> (1 <= j)%nat -> 0 <= T' <= T -> Forall (fun x => 0 <= x.1) ws -> T + total ws < 2 ^ 32 ->
  exists a', in_stream w0 (stream a ws w) a' (j + length ws) (T + total ws) (match rev ws with [] => T' | x :: _ => T + total ws - x.1 end).
Proof.
  induction ws as [|[n b] ws IH]; intros w a j T T' H Hj HT Hw Hlt; cbn [stream length rev].
  - exists a. unfold total. cbn. by rewrite Nat.add_0_r, Z.add_0_r.
  - apply Forall_cons in Hw as [Hn Hw]. cbn in Hn. assert (Ht : 0 <= total ws) by (clear -Hw; induction Hw; cbn; [done|unfold total in *; cbn in *; lia]).
    assert (E : total ((n, b) :: ws) = n + total ws) by done. rewrite E in *.
    destruct (IH (updateMode a n b w) (u64 (a + n)) (S j) (T + n) T) as (a' & Hi); try done; try lia; [apply in_stream_write with (T' := T'); try done; lia|].
    exists a'. replace (j + S (length ws))%nat with (S j + length ws)%nat by lia. replace (T + (n + total ws)) with (T + n + total ws) by lia.
    destruct (rev ws) as [|y l] eqn:Er; [|done]. cbn. apply (f_equal length) in Er. rewrite length_rev in Er. destruct ws; [|done].
    replace (T + n + total [] - n) with T; [done|]. unfold total. cbn. lia.
Qed.

Lemma delayed_count i b w : 0 <= default 0 (delayCtr w !! b) -> delayed i b w = (Z.of_nat i <? default 0 (delayCtr w !! b)).
Proof.
  revert w. induction i as [|i IH]; intros w H; cbn [delayed]; unfold delay; destruct (Z.ltb_spec 0 (default 0 (delayCtr w !! b))) as [Hlt|Hge]; cbn [fst snd].
  - symmetry. apply Z.ltb_lt. lia.
  - symmetry. apply Z.ltb_ge. lia.
  - rewrite IH by (cbn; rewrite lookup_insert_eq; cbn; lia). cbn. rewrite lookup_insert_eq. cbn. destruct (Z.ltb_spec (Z.of_nat i) (default 0 (delayCtr w !! b) - 1)); symmetry; [apply Z.ltb_lt|apply Z.ltb_ge]; lia.
  - rewrite IH by (cbn; rewrite lookup_insert_eq; cbn; lia). cbn. rewrite lookup_insert_eq. cbn. destruct (Z.ltb_spec (Z.of_nat i) (default 0 (delayCtr w !! b))); symmetry; [apply Z.ltb_lt|apply Z.ltb_ge]; lia.
Qed.

Lemma stream_last a ws n b w : nextAddr w = a -> delayCtr (stream a (ws ++ [(n, b)]) w) !! b = Some (delayThreshold w).
Proof.
  revert a w. induction ws as [|[n' b'] ws IH]; intros a w E; cbn [stream app].
  - unfold updateMode. rewrite E, Z.eqb_refl. destruct (mode (with_delays _ _)); cbn; apply lookup_insert_eq.
  - rewrite IH by done. f_equal. unfold updateMode. rewrite E, Z.eqb_refl. by destruct (mode (with_delays _ _)).
Qed.

(** C26: Writes that go on where the last one ended, after a first one that does not,
    are coalesced from the second one on once they are more than the lower limit, and no
    longer allocate from the third one on once the bytes before the last write are more than
    the lower limit and all of them more than the upper one. The last block of such a stream is
    delayed as often as the threshold says, and then no longer. *)
Theorem write_stream_modes a n0 b0 ws n b w : nextAddr w <> a -> 0 <= n0 -> Forall (fun x => 0 <= x.1) (ws ++ [(n, b)]) -> 0 <= delayThreshold w ->
  n0 + total (ws ++ [(n, b)]) < 2 ^ 32 ->
  let w' := stream a ((n0, b0) :: ws ++ [(n, b)]) w in
  let T := n0 + total (ws ++ [(n, b)]) in
  (coalesce w' = true <-> coalesceLimit w < T) /\
  (allocate w' = false <-> ws <> [] /\ coalesceLimit w < T - n /\ noAllocateLimit w < T) /\
  forall i, delayed i b w' = (Z.of_nat i <? delayThreshold w).
Proof.
  intros Ha H0 Hs Hd Hlt w' T. set (w1 := updateMode a n0 b0 w).
  assert (I1 : in_stream w w1 (u64 (a + n0)) 1 n0 0).
  { unfold w1, updateMode. apply Z.eqb_neq in Ha. rewrite Ha. cbn. split; cbn; try done; split; try done; try lia; intros [? ?]; lia. }
  destruct (in_stream_run w (ws ++ [(n, b)]) w1 (u64 (a + n0)) 1 n0 0 I1) as (a' & [Hn' _ Hc Hno (_ & _ & Ht)]); try done; try lia.
  change (stream (u64 (a + n0)) (ws ++ [(n, b)]) w1) with w' in *. rewrite rev_app_distr in Hno. cbn [rev app] in Hno. fold T in Hc, Hno. rewrite length_app in Hc, Hno. cbn [length fst] in Hc, Hno.
  unfold coalesce, allocate. rewrite negb_true_iff, negb_false_iff, bool_decide_eq_false, bool_decide_eq_true. split; [rewrite Hc; lia|]. split.
  - rewrite Hno. destruct ws; cbn [length]; naive_solver lia.
  - intros i. assert (E : delayCtr w' !! b = Some (delayThreshold w)).
    { unfold w'. cbn [stream app]. rewrite stream_last by done. f_equal. apply (is_limits _ _ _ _ _ _ I1). }
    rewrite delayed_count; rewrite E; [done|]. done.
Qed.
End Streams.
