(* ===== verification/CacheExamples.v ===== *)
(** * A cache at work

    Runs of one of two caches from the start, on which the properties of CacheTheorems
    are instantiated. *)

From S2P Require Import Prelude Bits Packet CacheQueue Mshr MshrOps MshrLists MshrMarks MshrInv MshrSteps MshrService MshrResp MshrQueues MshrAlloc MshrWorld MshrTheorems MshrExamples WriteQueue CacheCtl CacheLaws CacheWorld CacheTheorems.
Import MSHROps Cache.

(** ** Runs that can be computed *)
Definition unheldb (s : store) (i : Z) : bool := forallb (fun km => forallb (fun x => negb (Target.pkt x =? i)) (all_targets km.2)) (map_to_list (mshrs s)).

Lemma unheldb_unheld w i : unheldb (w_st w) i = true -> unheld w i.
Proof.
  unfold unheldb. rewrite forallb_forall. intros H k m x _ Hm Hx. assert (Hin : In (k, m) (map_to_list (mshrs (w_st w)))) by (by apply list_elem_of_In, elem_of_map_to_list).
  specialize (H _ Hin). rewrite forallb_forall in H. apply list_elem_of_In in Hx. specialize (H x Hx). apply negb_true_iff, Z.eqb_neq in H. done.
Qed.

Inductive cop := CMiss (t pkt ft : Z) | CWriteback (t pkt time : Z) | CSend (t k : Z) | CRespond (t k : Z) (pkt : Packet.t).

Section Run.
Context (pr : params) (cid : Z).

Definition perform (o : cop) (w : cworld) : result cworld :=
  match o with
  | CMiss t i ft =>
      let! p := packet_of (blkSize pr) (view cid (cw_rest w) (cw_cache w)) i in
      guard! unheldb (st (cw_cache w)) i;
      let '(b, port) := CacheResponsePort.tryTiming false (pk p) (cpuSidePort (cw_cache w)) in
      guard! (b : bool);
      let! r := Cache_handleTimingReqMiss pr uninit0 t i None ft 0 (with_port port (cw_cache w)) in
      Ok (mkCW r.2 (cw_rest w))
  | CWriteback t i time => guard! unheldb (st (cw_cache w)) i;
      let! c := doWritebacks pr t time (fun _ => true) (fun _ => 0) [i] (cw_cache w) in Ok (mkCW c (cw_rest w))
  | CSend t k => guard! bool_decide (k ∈ Queue.allocatedList (mshrQueue (cw_cache w)));
      let! r := sendMSHRQueuePacket pr uninit0 t 1 k None (fun o => Some (pk o)) (cw_cache w) in Ok (mkCW r.2 (cw_rest w))
  | CRespond t k pkt =>
      let! m := get (st (cw_cache w)) k in
      guard! bool_decide (k ∈ Queue.allocatedList (mshrQueue (cw_cache w))) && MSHR.inService m && negb (MSHR.downstreamPending m) &&
             negb (bool_decide (Packet.cmd pkt = MemCmd.LockedRMWWriteResp));
      let! r := recvTimingResp pr t t None (Some k) 0 0 pkt demo_blocks (cw_cache w) in Ok (mkCW r.2 (cw_rest w))
  end.

Lemma perform_quiet o w w' : perform o w = Ok w' -> quiet pr uninit0 cid w w'.
Proof.
  destruct o as [t i ft|t i time|t k|t k pkt]; intros H; cbn [perform] in H.
  - apply bind_Ok_inv in H as (p & Hp & H). apply packet_of_Ok in Hp as [Hp Hs]. apply bind_Ok_inv in H as ([] & Hu & H). apply check_Ok in Hu.
    destruct (CacheResponsePort.tryTiming _ _ _) as [b port] eqn:Et. apply bind_Ok_inv in H as ([] & Hb & H). apply check_Ok in Hb. subst b.
    apply bind_Ok_inv in H as (r & Hr & H). injection H as <-. eapply q_miss; [exact Hp|exact Hs|by apply unheldb_unheld|exact Et|exact Hr].
  - apply bind_Ok_inv in H as ([] & Hu & H). apply check_Ok in Hu. apply bind_Ok_inv in H as (c & Hc & H). injection H as <-.
    eapply q_writeback; [|exact Hc]. apply Forall_singleton. by apply unheldb_unheld.
  - apply bind_Ok_inv in H as ([] & Hk & H). apply check_Ok, bool_decide_eq_true in Hk. apply bind_Ok_inv in H as (r & Hr & H). injection H as <-. by eapply q_send_miss.
  - apply bind_Ok_inv in H as (m & Hm & H). apply mshr_get_Ok in Hm. apply bind_Ok_inv in H as ([] & Hg & H). apply check_Ok in Hg.
    rewrite !andb_true_iff, !negb_true_iff, bool_decide_eq_true, bool_decide_eq_false in Hg. destruct Hg as (((Hk & Hi) & Hd) & Hc).
    apply bind_Ok_inv in H as (r & Hr & H). injection H as <-. eapply q_response; [|exact Hr]. intros k' [= <-]. by exists m.
Qed.

Fixpoint run (l : list cop) (w : cworld) : result cworld :=
  match l with [] => Ok w | o :: l => let! w := perform o w in run l w end.

Lemma run_quiet l w w' : run l w = Ok w' -> rtc (quiet pr uninit0 cid) w w'.
Proof.
  revert w. induction l as [|o l IH]; intros w H; cbn in H; [by injection H as <-|]. apply bind_Ok_inv in H as (w1 & H1 & H).
  eapply rtc_l; [by apply (perform_quiet o)|by apply IH].
Qed.

Lemma run_creach l w w' : run l w = Ok w' -> rtc (cstep pr uninit0 cid) w w'.
Proof. intros H. apply run_quiet in H. induction H; [done|]. eapply rtc_l; [by left|done]. Qed.
End Run.

(** ** A cache with two registers and a write buffer of two entries *)
Definition cd_params : params := mkParams 64 4 mostly_incl false 1 false.
Definition cd_cache : Cache.t := Cache.mk
  (mkStore (<[16 := packet MemCmd.WritebackDirty 0 4096 64 []]> demo_packets) (mshrs (w_st demo0)))
  (list_to_map (map (fun k => (k, WriteQueueEntry.new)) [100; 101])) (demo_queue 1)
  (Queue.mk 2 0 [] [] (seqZ 100 2) 0 0 Queue.Running) CacheResponsePort.new 0 0 None None [].
Definition cd0 : cworld := mkCW cd_cache (w_q demo0).

(** Misses to two blocks, with a writeback of the first one between them. *)
Definition cd_ops : list cop := [CMiss 0 10 100; CWriteback 10 16 110; CMiss 20 15 120].
Definition cd_at (n : nat) : cworld := match run cd_params 1 (take n cd_ops) cd0 with Ok w => w | Err _ => cd0 end.

Lemma cd_run : run cd_params 1 (take 1 cd_ops) cd0 = Ok (cd_at 1) /\ run cd_params 1 (take 2 cd_ops) cd0 = Ok (cd_at 2) /\ run cd_params 1 (take 3 cd_ops) cd0 = Ok (cd_at 3).
Proof. split_and!; vm_compute; reflexivity. Qed.

Lemma cd_reach2 : rtc (cstep cd_params uninit0 1) cd0 (cd_at 2).
Proof. eapply run_creach. apply (proj1 (proj2 cd_run)). Qed.
Lemma cd_reach3 : rtc (cstep cd_params uninit0 1) cd0 (cd_at 3).
Proof. eapply run_creach. apply (proj2 (proj2 cd_run)). Qed.

Lemma cd_queues : w_q (view 1 (cw_rest cd0) (cw_cache cd0)) = w_q demo0.
Proof. vm_compute. reflexivity. Qed.

Lemma cd_start : cstart 1 demo_ids (seqZ 100 2) cd0.
Proof.
  split.
  - pose proof demo_start as [H1 H2 H3]. split; [intros c q Hq|intros c q k Hq|exact H3].
    + rewrite cd_queues in Hq. by apply H1.
    + rewrite cd_queues in Hq. exact (H2 c q k Hq).
  - exists 100, 2, 0. split; [done|]. split; [done|]. intros i Hi. assert (Hc : i = 100 \/ i = 101) by lia. destruct Hc as [->| ->]; vm_compute; reflexivity.
  - split; vm_compute; reflexivity.
  - split_and!; reflexivity.
Qed.

Lemma cd_blk : 0 < blkSize cd_params < 2 ^ 32.
Proof. done. Qed.

Lemma cache_refines_registers_witness : Queue.allocatedList (mshrQueue (cw_cache (cd_at 3))) = [1; 2] /\
  rtc (step 64 uninit0) (view 1 (cw_rest cd0) (cw_cache cd0)) (view 1 (cw_rest (cd_at 3)) (cw_cache (cd_at 3))).
Proof.
  split; [vm_compute; reflexivity|].
  exact (proj2 (cache_refines_registers cd_params uninit0 1 demo_ids (seqZ 100 2) cd0 (cd_at 3) cd_blk demo_distinct cd_start cd_reach3)).
Defined.


(** The processor is refused when both registers are in use. *)
Definition cd_port : CacheResponsePort.t := CacheResponsePort.mk true true None.
Definition cd_packet : pobj := packet MemCmd.ReadReq 0 12288 8 [].
Lemma cd_refused : CacheResponsePort.tryTiming false (pk cd_packet) (cpuSidePort (cw_cache (cd_at 3))) = (false, cd_port).
Proof. vm_compute. reflexivity. Qed.
Definition cd_refused_world : cworld := mkCW (with_port cd_port (cw_cache (cd_at 3))) (cw_rest (cd_at 3)).

(** Then the first register is sent and answered, which makes room. *)
Definition cd_room : list cop := [CSend 130 1; CRespond 500 1 (response MemCmd.InvalidateResp)].
Definition cd_room_world : cworld := match run cd_params 1 cd_room cd_refused_world with Ok w => w | Err _ => cd_refused_world end.
Lemma cd_room_run : run cd_params 1 cd_room cd_refused_world = Ok cd_room_world /\
  CacheResponsePort.blocked (cpuSidePort (cw_cache cd_refused_world)) = true /\ CacheResponsePort.blocked (cpuSidePort (cw_cache cd_room_world)) = false.
Proof. split_and!; vm_compute; reflexivity. Qed.
Lemma cd_room_reach : rtc (quiet cd_params uninit0 1) cd_refused_world cd_room_world.
Proof. eapply run_quiet. apply cd_room_run. Qed.

Lemma refused_is_retried_witness : CacheResponsePort.blocked (cpuSidePort (cw_cache cd_refused_world)) = true /\
  CacheResponsePort.mustSendRetry (cpuSidePort (cw_cache cd_room_world)) = true /\ is_Some (CacheResponsePort.sendRetryEvent (cpuSidePort (cw_cache cd_room_world))).
Proof.
  pose proof (refused_is_retried cd_params uninit0 1 demo_ids (seqZ 100 2) cd0 (cd_at 3) cd_blk demo_distinct cd_start cd_reach3 false cd_packet cd_port cd_room_world
    cd_refused cd_room_reach) as [H1 H2].
  exact (conj (proj1 (proj2 cd_room_run)) (conj H1 (H2 (proj2 (proj2 cd_room_run))))).
Defined.

(** The miss is ready, and the write to its block goes first although it is younger. *)
Lemma cd_choice : next_pending 500 (cw_cache (cd_at 2)) = Ok (Some (Write 100)).
Proof. vm_compute. reflexivity. Qed.
Lemma next_entry_chosen_witness : next_pending 500 (cw_cache (cd_at 2)) = Ok (Some (Write 100)) /\
  exists r, next_pending 500 (cw_cache (cd_at 2)) = Ok r /\ next_choice (cd_at 2) 500 r.
Proof.
  split; [exact cd_choice|].
  exact (next_entry_chosen cd_params uninit0 1 demo_ids (seqZ 100 2) cd0 (cd_at 2) cd_blk demo_distinct cd_start cd_reach2 500).
Defined.

Definition cd_p : pobj := packet MemCmd.WriteReq 0 4096 64 [].



(** A store of eight bytes to a block that is not there asks for a writable block. *)
Definition cd_store : Packet.t := pk (packet MemCmd.WriteReq 0 4104 8 []).
Lemma cd_store_fits : fits (blkSize cd_params) cd_store.
Proof. apply fitsb_fits. vm_compute. reflexivity. Qed.
Lemma cd_store_made : exists q, createMissPacket cd_params uninit0 cd_store None true false = Ok (Some q).
Proof. eexists. vm_compute. reflexivity. Qed.

Lemma miss_packet_rights_witness : exists q, createMissPacket cd_params uninit0 cd_store None true false = Ok (Some q) /\
  Packet.size q = 64 /\ asks cd_params MemCmd.WriteReq None true false (Packet.cmd q).
Proof.
  pose proof (miss_packet_rights cd_params uninit0 cd_blk cd_store None true false cd_store_fits) as H. destruct cd_store_made as [q E]. rewrite E in H.
  destruct H as (_ & _ & _ & _ & _ & Hs & Ha). exists q. exact (conj E (conj Hs Ha)).
Defined.

(** The miss of an empty cache. *)
Lemma cd_taken : CacheResponsePort.blocked (cpuSidePort (cw_cache cd0)) = false /\ 0 <= Queue.numReserve (mshrQueue (cw_cache cd0)) /\
  packets (st (cw_cache cd0)) !! 10 = Some cd_p /\ Packet.getBlockAddr 64 (pk cd_p) = Ok 4096 /\ Packet.isSecure (pk cd_p) = Ok false /\
  Queue.findMatch (mshrs (st (cw_cache cd0))) (mshrQueue (cw_cache cd0)) 4096 false true = Ok None.
Proof. split_and!; try (vm_compute; reflexivity). vm_compute. discriminate. Qed.
Lemma cd_sendable : sendable (blkSize cd_params) (view 1 (cw_rest cd0) (cw_cache cd0)) cd_p.
Proof. split; [eexists; apply insideb_inside; vm_compute; reflexivity|]. intros u E. discriminate E. Qed.
Lemma cd_taken_ok : exists r, Cache_handleTimingReqMiss cd_params uninit0 0 10 None 100 0 (cw_cache cd0) = Ok r.
Proof. eexists. vm_compute. reflexivity. Qed.

Lemma miss_taken_witness : exists blk' c' k m, Cache_handleTimingReqMiss cd_params uninit0 0 10 None 100 0 (cw_cache cd0) = Ok (blk', c') /\
  Queue.allocatedList (mshrQueue c') = Queue.allocatedList (mshrQueue (cw_cache cd0)) ++ [k] /\ mshrs (st c') !! k = Some m /\
  MSHR.blkAddr m = 4096 /\ MSHR.isSecure m = false /\ MSHR._isUncacheable m = false /\ reqs (all_targets m) = [(10, order (cw_cache cd0))].
Proof.
  destruct cd_taken as (E1 & E2 & E3 & E4 & E5 & E6).
  pose proof (miss_taken cd_params uninit0 1 demo_ids (seqZ 100 2) cd0 cd0 cd_blk demo_distinct cd_start (rtc_refl _ cd0) 0 10 cd_p None 100 0 4096 false
    E1 E2 E3 cd_sendable E4 E5 E6 eq_refl eq_refl eq_refl ltac:(discriminate) ltac:(discriminate) I) as H.
  destruct cd_taken_ok as [[blk' c'] E]. rewrite E in H. destruct H as (_ & k & m & H). exists blk', c', k, m. exact (conj E H).
Defined.

(** Three stores of a whole block each, with limits of one and two blocks. *)
Definition cd_alloc : WriteAllocator.t := WriteAllocator.new 1 2 64 8.
Lemma cd_sizes : Forall (fun x : Z * Z => 0 <= x.1) ([(64, 4160)] ++ [(64, 4224)]).
Proof. repeat constructor; discriminate. Qed.
Lemma cd_threshold : 0 <= WriteAllocator.delayThreshold cd_alloc.
Proof. discriminate. Qed.

Lemma cd_limits : WriteAllocator.coalesceLimit cd_alloc = 64 /\ WriteAllocator.noAllocateLimit cd_alloc = 128 /\ WriteAllocator.delayThreshold cd_alloc = 8 /\
  64 + total ([(64, 4160)] ++ [(64, 4224)]) = 192.
Proof. split_and!; vm_compute; reflexivity. Qed.

Lemma write_stream_modes_witness : let w := stream 4096 ((64, 4096) :: [(64, 4160)] ++ [(64, 4224)]) cd_alloc in
  WriteAllocator.coalesce w = true /\ WriteAllocator.allocate w = false /\ delayed 7 4224 w = true /\ delayed 8 4224 w = false.
Proof.
  destruct (write_stream_modes 4096 64 4096 [(64, 4160)] 64 4224 cd_alloc ltac:(discriminate) ltac:(discriminate) cd_sizes cd_threshold ltac:(reflexivity)) as (H1 & H2 & H3).
  destruct cd_limits as (L1 & L2 & L3 & L4). rewrite L1, L4 in H1. rewrite L1, L2, L4 in H2. rewrite L3 in H3. intros w. split; [apply H1; reflexivity|].
  split; [apply H2; split; [discriminate|split; reflexivity]|]. split; [exact (H3 7%nat)|exact (H3 8%nat)].
Defined.
